(* ===== verification/_CoqProject ===== *)
-Q . S2P
Prelude.v
Bytes.v
Utf8.v
Crc.v
Wpk.v
Engine.v
Memory.v
Calls.v
Shm.v
Sbe.v
Serve.v
Daemon.v
Answers.v
Rounds.v
Search.v
Token.v
Speak.v
Bpe.v
Tournament.v
Merges.v
Table.v
Lookup.v
TokFile.v
Unicode.v
Pieces.v
Encode.v
Vocab.v
Built.v
Json.v
Sha.v
FromJson.v
Inflate.v
BitStream.v
Huffman.v
Deflate.v
Deflated.v
X25519.v
Field25519.v
Ladder.v
Png.v
PngFile.v
Jpeg.v
JpegTables.v
JpegFile.v
Picture.v
JpegCodes.v
Marks.v
Chat.v
Laya.v
Limbs.v
Rsa.v
Http.v
P256.v
P256Field.v
P256Curve.v
X509.v
X509Chain.v
Gcm.v
Gf128.v
Ghash.v
AesBlock.v
GcmSeal.v
Tls.v
TlsKeys.v
TlsSound.v
TlsPipe.v
TlsRun.v
