(* ===== verification/Prelude.v ===== *)
(** * Tachyon: a verification library

    Tachyon (src/tachyon) is an inference engine for one GPU, written in Rust
    without dependencies: a library crate (crates/tachyon) with the engine, the
    models, the tokenizer and the media decoders, and a command line
    (crates/tachyon-cli) with a daemon that serves several clients over shared
    memory and a TLS client that downloads models. This library models the
    parts whose logic runs on the CPU, as functions of Rocq translated from the
    source, and proves what makes them correct.

    ** How the code is modelled

    - A [w]-bit integer is a [Z]; what wraps is written [wrap w], what a
      checked build traps is a [Panic] ([checked], [fit], [add_u32]).
    - A Rust function that can fail or panic gives an [outcome]: [Ok], [Err]
      with the crate's [error], or [Panic]. An index out of range is a
      [Panic]. Error texts are the pieces of their [format!] calls.
    - State is passed along: the engine's operations run in [Engine.EM], which
      keeps what an operation had done when it fails; processes that share
      memory are step relations over one memory.
    - Recursion that is not structural has fuel. Running out of it is a value
      that the theorems exclude: [Panic] in [Inflate] (with as many steps as
      bits and one more), the error [None] in [Json] (with a step for each
      byte and one more), [Err tt] in [Lookup] and [Unicode]; elsewhere the
      fuel is the length of the text or of the list the loop consumes.
    - Code that is not in the sources is an argument with the behaviour the
      code relies on as a hypothesis: the GPU, the clock and the disk are
      [Engine.World] (any failure at any operation); sockets are scripts of
      what reads give; [unicode.bin] is its bytes; the reading, writing and
      cast of [f64] and [char::is_numeric] are functions.

    ** The files, in the order they build on one another

    - [Prelude], [Bytes], [Utf8], [Search], [Table]: outcomes, integers,
      lists, endian bytes, UTF-8 as the standard library reads it, binary
      search, open addressing.
    - [Crc], [Wpk] (wpk/mod.rs): the CRC-32C and the weight file. What a
      [Writer] wrote, [index] reads back; whatever [index] accepts is aligned
      and inside the file; [verify] is exact; the one bound that wraps.
    - [Engine], [Memory], [Calls] (engine.rs, parts of model/decode.rs): the
      models in VRAM, parked or on disk under two limits. Any sequence of
      calls keeps the limits whatever the GPU answers; pinned models stay;
      [room] is exact and evicts in order; a chat's text ends and is its
      tokens'.
    - [Shm] (serve/shm.rs, serve/client.rs): the shared memory, access by
      access. In every interleaving the ring is a queue; a message of half the
      ring gets through; one that does not fit before the end of the ring may
      wait for ever; the daemon writes only what is its own.
    - [Sbe], [Serve] (serve/sbe.rs, serve/mod.rs, serve/commands.rs): the
      messages, the reading of a request and the writing of it. What the
      command line writes is read back; any bytes are a request or refused.
    - [Daemon], [Answers], [Rounds] (serve/mod.rs): the loop of the daemon over
      [Engine], [Serve] and [Shm]. It does not panic over any rounds; who rang
      is answered once; cancels cost nothing.
    - [Token], [Speak], [Bpe], [Tournament], [Merges], [Lookup], [TokFile],
      [Unicode], [Pieces], [Encode], [Vocab], [Built], [FromJson]
      (token/mod.rs, token/bytes.rs, token/unicode.rs): the tokenizer. The
      tournament tree and the links merge the leftmost lowest-ranked pair; a
      byte-level vocabulary built from any merges says back what it encodes;
      pieces are the text; the file reads back and never panics; the engine's
      interface to a detokenizer ([Calls.Detok]) is implemented by [Speak].
    - [Json] (json.rs): what is written reads back, reading always ends.
    - [Sha] (net/crypto.rs): SHA-256 in pieces, HMAC and HKDF against their
      standards, on the scalar path.
    - [Inflate], [BitStream], [Huffman], [Deflate], [Deflated]
      (media/inflate.rs): zlib. No stream makes it panic or run for ever, and
      it refines RFC 1951: canonical codes of any lengths, three kinds of
      block, overlapping copies, Adler-32.
    - [X25519], [Field25519], [Ladder] (net/x25519.rs): limbs, masks and the
      addition chain compute the function of RFC 7748, without an overflow.
    - [Limbs], [Rsa] (net/rsa.rs): Montgomery products on 64-bit limbs and the
      signature checks. A signature is accepted exactly when its power is an
      encoding of the digest in the sense of RFC 8017 (both schemes).
    - [Http] (net/http.rs): URLs, responses, redirects. A response arrives
      whole however the socket cuts it; a token is sent to its host only.
    - [P256], [P256Field], [P256Curve] (net/p256.rs): Montgomery arithmetic,
      complete addition and windows of a scalar: the check is ECDSA on P-256.
    - [X509], [X509Chain] (net/x509.rs): certificates and chains. What parses
      is its encoding; an accepted chain leads to a trust anchor and names the
      host.
    - [Gcm], [Gf128], [Ghash], [AesBlock], [GcmSeal] (net/aes_gcm.rs): the
      processor's instructions compute AES-128-GCM as the standards define
      it, and what is opened is what was sealed.
    - [Tls], [TlsKeys], [TlsSound], [TlsPipe], [TlsRun] (net/tls.rs): a
      client's session over [Sha], [Ladder], [X509Chain] and [GcmSeal]. The
      key schedule is RFC 8446's; [TlsSound] gives what the readers of the
      server's messages accept; what one session sends another reads
      ([TlsPipe]); and no bytes make a session panic, or be established or
      show plaintext unless the server went by the rules of the handshake
      ([TlsRun.shown]). The answers of the random source and the clock are
      arguments, and the processor has the cipher's instructions.
    - [Png], [PngFile] (media/png.rs): chunks, filters and samples. An image
      written with any filters reads back; any other bytes are refused.
    - [Jpeg], [JpegTables], [JpegFile], [JpegCodes] (media/jpeg.rs), [Picture]
      (media/mod.rs): baseline and progressive scans, the inverse transform
      and the colours, orientation from Exif. Canonical codes are read; bytes
      are decoded or refused, but for the files whose tables have more codes
      than their lengths leave, on which the reader panics; turning an image
      by its orientation loses nothing. Arithmetic wraps there as in a release
      build.
    - [Marks], [Chat] (token/chat.rs): the chat template. The marks of a prompt
      are the template's whatever the messages say, and each medium has its
      run of slots. The soft tokens of an image or clip are a parameter.
    - [Laya] (encoder/laya.rs, encoder/text.rs): questions as sequences within
      their budgets, and the framing of texts for embeddings.

    ** Not modelled

    - The GPU: the driver (cuda/), the kernels as PTX text (ptx/), and the code
      that queues them (model/prefill.rs, most of model/decode.rs, encoder/,
      vision/, audio/, wpk/load.rs): what they compute is what an external
      processor and driver do. The engine sees them through [Engine.World].
    - Conversion of checkpoints and floating-point work (model/mod.rs,
      quant.rs, media/resize.rs, media/audio.rs, the probabilities of
      encoder/laya.rs). The daemon takes the decoders of images and clips as
      functions that return, which [Picture] shows of images whose Huffman
      tables are not overfull.
    - System calls (sys.rs), command-line parsing and printing (main.rs,
      models.rs, encoders.rs).
    - Downloads (net/hub.rs), the byte stream over a TCP socket around a TLS
      session ([Tls] in net/tls.rs) and the trust anchors' files: network and
      file I/O.
    - The bot in Python (chatlink_bot), the server in Go (meow_server), the
      protocol files and the deployment scripts. *)
From stdpp Require Export prelude list list_numbers.
From stdpp Require Export strings.
From Stdlib Require Export ZArith Lia.

#[global] Set Default Goal Selector "!".
Open Scope Z_scope.
Open Scope list_scope.

(** ** Formatted text

    A Rust [format!] call keeps its literal pieces and its arguments apart:
    the message is the list of both, in order. *)
Inductive piece :=
| Lit (s : string)          (** literal text *)
| Disp (b : list Z)         (** a string argument, [{}] *)
| Dbg (b : list Z)          (** a string argument, [{:?}] *)
| Num (z : Z).              (** an integer argument *)

Abbreviation text := (list piece).

(** ** The crate's error type ([error.rs]) *)
Inductive error :=
| NoDriver
| DriverTooOld (v : Z)
| UnsupportedGpu (major minor : Z)
| OutOfRange
| Ptx (log : text)
| Cuda (code : Z)
| Io (errno : Z)
| Format (why : text)
| TooLong (tokens context : Z)
| OutOfMemory (need free : Z)
| NoModel (name : list Z)
| Unsupported (what : text)
| Media (what : text).

(** ** Outcomes

    What a Rust function does: it returns [Ok], it returns [Err], or it
    panics (an index out of range, an arithmetic overflow that a checked
    build traps, an [assert!]). *)
Inductive outcome (E A : Type) :=
| Ok (a : A)
| Err (e : E)
| Panic.
Arguments Ok {E A} a.
Arguments Err {E A} e.
Arguments Panic {E A}.

Abbreviation result := (outcome error).

#[global] Instance outcome_ret {E} : MRet (outcome E) := fun A a => Ok a.
#[global] Instance outcome_bind {E} : MBind (outcome E) := fun A B k m =>
  match m with Ok a => k a | Err e => Err e | Panic => Panic end.
#[global] Instance outcome_fmap {E} : FMap (outcome E) := fun A B f m =>
  match m with Ok a => Ok (f a) | Err e => Err e | Panic => Panic end.

Definition ok_or {E A} (o : option A) (e : E) : outcome E A :=
  match o with Some a => Ok a | None => Err e end.

(** An access the source writes [v[i]]: out of range it panics. *)
Definition or_panic {E A} (o : option A) : outcome E A :=
  match o with Some a => Ok a | None => Panic end.

(** The value, if the outcome is one: Rust's [Result::ok]. *)
Definition ok {E A} (m : outcome E A) : option A :=
  match m with Ok a => Some a | _ => None end.

Section Outcome.
Context {E : Type}.

Lemma bind_Ok {A B} (m : outcome E A) (k : A -> outcome E B) b :
  (m ≫= k) = Ok b <-> exists a, m = Ok a /\ k a = Ok b.
Proof.
  split; [intros H|intros (x&Hx&Hk)]; destruct m; cbn in *; simplify_eq; eauto.
Qed.

Lemma bind_Err {A B} (m : outcome E A) (k : A -> outcome E B) e :
  (m ≫= k) = Err e <-> m = Err e \/ exists a, m = Ok a /\ k a = Err e.
Proof.
  split; [intros H|intros [Hm|(x&Hx&Hk)]]; destruct m; cbn in *; simplify_eq; eauto.
Qed.

(** A computation that never panics, whatever it returns. *)
Definition no_panic {A} (m : outcome E A) : Prop := m <> Panic.

Lemma no_panic_bind {A B} (m : outcome E A) (k : A -> outcome E B) :
  no_panic m -> (forall a, m = Ok a -> no_panic (k a)) -> no_panic (m ≫= k).
Proof. unfold no_panic. destruct m; cbn; eauto. Qed.

Lemma no_panic_ok_or {A} (o : option A) (e : E) : no_panic (ok_or o e).
Proof. by destruct o. Qed.

Lemma ok_or_Ok {A} (o : option A) (e : E) a : ok_or o e = Ok a <-> o = Some a.
Proof. destruct o; cbn; naive_solver. Qed.

Lemma or_panic_Ok {A} (o : option A) a : @or_panic E A o = Ok a <-> o = Some a.
Proof. destruct o; cbn; naive_solver. Qed.
End Outcome.

(** [outcome_simpl] inverts every successful bind among the hypotheses. *)
Ltac outcome_step :=
  match goal with
  | H : (_ ≫= _) = Ok _ |- _ => apply bind_Ok in H; destruct H as (? & ? & H)
  | H : ok_or _ _ = Ok _ |- _ => apply ok_or_Ok in H
  | H : or_panic _ = Ok _ |- _ => apply or_panic_Ok in H
  | H : Ok _ = Ok _ |- _ => injection H as H
  | H : mret _ = Ok _ |- _ => injection H as H
  | H : Err _ = Ok _ |- _ => discriminate H
  | H : Panic = Ok _ |- _ => discriminate H
  | p : (_ * _)%type |- _ => destruct p
  end.
Ltac outcome_simpl := repeat (outcome_step; cbn beta iota in *).

(** ** Machine integers

    A [w]-bit unsigned integer is a [Z] in [0, 2^w); what wraps is written
    with [wrap]. *)
Definition wrap (w z : Z) : Z := z mod 2 ^ w.
Definition fits (w z : Z) : Prop := 0 <= z < 2 ^ w.

Abbreviation u8 := (fits 8).
Abbreviation u16 := (fits 16).
Abbreviation u32 := (fits 32).
Abbreviation u64 := (fits 64).

(** [checked_add] and [checked_mul] of [u64] (and of a 64-bit [usize]). *)
Definition checked (w z : Z) : option Z := if z <? 2 ^ w then Some z else None.

Lemma wrap_fits w z : 0 <= w -> fits w (wrap w z).
Proof. intros Hw. apply Z.mod_pos_bound. lia. Qed.

Lemma wrap_id w z : fits w z -> wrap w z = z.
Proof. intros Hz. by apply Z.mod_small. Qed.

Lemma checked_Some w z v : checked w z = Some v <-> v = z /\ z < 2 ^ w.
Proof. unfold checked. destruct (Z.ltb_spec z (2 ^ w)); naive_solver lia. Qed.

(** Round [z] up to a multiple of [m]: [next_multiple_of]. *)
Definition next_multiple_of (z m : Z) : Z := (z + m - 1) / m * m.

Lemma next_multiple_of_spec z m :
  0 < m -> z <= next_multiple_of z m < z + m /\ next_multiple_of z m mod m = 0.
Proof.
  intros Hm. unfold next_multiple_of. split; [|by rewrite Z.mod_mul by lia].
  pose proof (Z.div_mod (z + m - 1) m ltac:(lia)).
  pose proof (Z.mod_pos_bound (z + m - 1) m Hm). nia.
Qed.

(** ** Lists by integer positions *)
Definition zlen {A} (l : list A) : Z := Z.of_nat (length l).
Definition zget {A} (l : list A) (i : Z) : option A :=
  if i <? 0 then None else l !! Z.to_nat i.
Definition ztake {A} (n : Z) (l : list A) : list A := take (Z.to_nat n) l.
Definition zdrop {A} (n : Z) (l : list A) : list A := drop (Z.to_nat n) l.
Definition zrep {A} (n : Z) (x : A) : list A := replicate (Z.to_nat n) x.

(** [l.get(a..b)]: the slice, or nothing when it is not inside [l]. *)
Definition zslice {A} (l : list A) (a b : Z) : option (list A) :=
  if (0 <=? a) && (a <=? b) && (b <=? zlen l) then Some (ztake (b - a) (zdrop a l)) else None.

Lemma zlen_nonneg {A} (l : list A) : 0 <= zlen l.
Proof. unfold zlen. lia. Qed.
Lemma zlen_nil {A} : zlen (@nil A) = 0.
Proof. done. Qed.
Lemma zlen_cons {A} (x : A) l : zlen (x :: l) = 1 + zlen l.
Proof. unfold zlen. cbn [length]. lia. Qed.
Lemma zlen_app {A} (l k : list A) : zlen (l ++ k) = zlen l + zlen k.
Proof. unfold zlen. rewrite length_app. lia. Qed.
Lemma zlen_zrep {A} n (x : A) : 0 <= n -> zlen (zrep n x) = n.
Proof. intros. unfold zlen, zrep. rewrite length_replicate. lia. Qed.
Lemma zlen_ztake {A} n (l : list A) : 0 <= n -> zlen (ztake n l) = Z.min n (zlen l).
Proof. intros. unfold zlen, ztake. rewrite length_take. lia. Qed.
Lemma zlen_zdrop {A} n (l : list A) : 0 <= n -> zlen (zdrop n l) = Z.max 0 (zlen l - n).
Proof. intros. unfold zlen, zdrop. rewrite length_drop. lia. Qed.
Lemma zlen_map {A B} (f : A -> B) l : zlen (map f l) = zlen l.
Proof. unfold zlen. by rewrite length_map. Qed.
Lemma zlen_fmap {A B} (f : A -> B) l : zlen (f <$> l) = zlen l.
Proof. unfold zlen. by rewrite length_fmap. Qed.
Lemma zlen_zero {A} (l : list A) : zlen l = 0 -> l = [].
Proof. destruct l; [done|]. rewrite zlen_cons. pose proof (zlen_nonneg l). lia. Qed.

Lemma ztake_app {A} n (l k : list A) : n = zlen l -> ztake n (l ++ k) = l.
Proof. intros ->. unfold ztake, zlen. by rewrite Nat2Z.id, take_app_length. Qed.
Lemma zdrop_app {A} n (l k : list A) : n = zlen l -> zdrop n (l ++ k) = k.
Proof. intros ->. unfold zdrop, zlen. by rewrite Nat2Z.id, drop_app_length. Qed.
Lemma ztake_zdrop {A} n (l : list A) : ztake n l ++ zdrop n l = l.
Proof. apply take_drop. Qed.
Lemma ztake_all {A} n (l : list A) : zlen l <= n -> ztake n l = l.
Proof. intros. apply take_ge. unfold zlen in *. lia. Qed.
Lemma zdrop_all {A} n (l : list A) : zlen l <= n -> zdrop n l = [].
Proof. intros. apply drop_ge. unfold zlen in *. lia. Qed.
Lemma zdrop_0 {A} (l : list A) : zdrop 0 l = l.
Proof. done. Qed.
Lemma zdrop_zdrop {A} n m (l : list A) :
  0 <= n -> 0 <= m -> zdrop n (zdrop m l) = zdrop (m + n) l.
Proof. intros. unfold zdrop. rewrite drop_drop. f_equal. lia. Qed.

Lemma zslice_Some {A} (l : list A) a b s :
  zslice l a b = Some s <-> 0 <= a <= b /\ b <= zlen l /\ s = ztake (b - a) (zdrop a l).
Proof.
  unfold zslice.
  destruct (Z.leb_spec 0 a), (Z.leb_spec a b), (Z.leb_spec b (zlen l)); cbn; naive_solver lia.
Qed.
Lemma zslice_None {A} (l : list A) a b :
  0 <= a -> zslice l a b = None <-> b < a \/ zlen l < b.
Proof.
  intros. unfold zslice.
  destruct (Z.leb_spec 0 a), (Z.leb_spec a b), (Z.leb_spec b (zlen l)); cbn; naive_solver lia.
Qed.
Lemma zslice_len {A} (l : list A) a b s : zslice l a b = Some s -> zlen s = b - a.
Proof.
  intros (?&?&->)%zslice_Some. rewrite zlen_ztake by lia. rewrite zlen_zdrop by lia. lia.
Qed.
Lemma zslice_app {A} (x y z : list A) :
  zslice (x ++ y ++ z) (zlen x) (zlen x + zlen y) = Some y.
Proof.
  apply zslice_Some. rewrite !zlen_app.
  pose proof (zlen_nonneg x). pose proof (zlen_nonneg y). pose proof (zlen_nonneg z).
  split; [lia|]. split; [lia|]. rewrite zdrop_app by done. rewrite ztake_app by lia. done.
Qed.

Lemma zget_Some {A} (l : list A) i x : zget l i = Some x -> 0 <= i < zlen l.
Proof.
  unfold zget, zlen. destruct (Z.ltb_spec i 0); [done|].
  intros ?%lookup_lt_Some. lia.
Qed.
Lemma zget_is_Some {A} (l : list A) i : 0 <= i < zlen l -> is_Some (zget l i).
Proof.
  unfold zget, zlen. intros. destruct (Z.ltb_spec i 0); [lia|]. apply lookup_lt_is_Some. lia.
Qed.

(** ** Folds *)
Lemma fold_left_inv {S A} (P : S -> Prop) (Q : A -> Prop) (f : S -> A -> S) :
  (forall s a, P s -> Q a -> P (f s a)) ->
  forall l s, P s -> Forall Q l -> P (fold_left f l s).
Proof.
  intros Hf l. induction l as [|a l IH]; intros s Hs Hl; [done|].
  apply Forall_cons in Hl as [Ha Hl]. apply IH; auto.
Qed.

(** Folding pieces is folding their concatenation. *)
Lemma fold_concat {S A} (F : S -> list A -> S) (g : S -> A -> S) (P : list A -> Prop) ws c :
  (forall c w, P w -> F c w = fold_left g w c) -> Forall P ws ->
  fold_left F ws c = fold_left g (concat ws) c.
Proof.
  intros HF. revert c. induction ws as [|w ws IH]; intros c Hws; [done|].
  apply Forall_cons in Hws as [Hw Hws]. cbn [concat fold_left].
  rewrite HF, fold_left_app by done. by apply IH.
Qed.

(** ** Pieces *)
Fixpoint chunks_fuel {A} (fuel : nat) (n : Z) (l : list A) : list (list A) :=
  match fuel with
  | O => []
  | S fuel => if zlen l =? 0 then [] else ztake n l :: chunks_fuel fuel n (zdrop n l)
  end.
(** [chunks(n)]: consecutive pieces of [n], the last one shorter. *)
Definition chunks {A} (n : Z) (l : list A) : list (list A) := chunks_fuel (length l) n l.

Create Rewrite HintDb zlen.
#[global] Hint Rewrite @zlen_nil @zlen_cons @zlen_app @zlen_map @zlen_fmap : zlen.
(** [zlen] normalises list lengths and closes the linear goal. *)
Ltac zlen :=
  autorewrite with zlen in *;
  repeat match goal with
  | |- context [zlen ?l] =>
      lazymatch goal with H : 0 <= zlen l |- _ => fail | _ => pose proof (zlen_nonneg l) end
  end; try lia.
