(* ===== verification/Bytes.v ===== *)
(** * Bytes and bits

    A byte is a [Z] in [0, 256). Little- and big-endian integers
    ([to_le_bytes], [from_le_bytes], [to_be_bytes], [from_be_bytes]) with
    their round trips, and the facts about [Z]'s bit operations that the
    components share. *)
From S2P Require Import Prelude.

(** ** Bit operations on disjoint ranges *)
Lemma testbit_high z k i : 0 <= z < 2 ^ k -> k <= i -> Z.testbit z i = false.
Proof.
  intros Hz Hi. destruct (Z.lt_ge_cases k 0).
  { rewrite Z.pow_neg_r in Hz by done. lia. }
  rewrite <- (Z.mod_small z (2 ^ k)) by done. by apply Z.mod_pow2_bits_high.
Qed.

Lemma land_shiftl_low v b k : 0 <= k -> 0 <= b < 2 ^ k -> Z.land (Z.shiftl v k) b = 0.
Proof.
  intros Hk Hb. apply Z.bits_inj'. intros i Hi. rewrite Z.land_spec, Z.bits_0.
  destruct (Z.lt_ge_cases i k).
  - by rewrite Z.shiftl_spec_low.
  - by rewrite (testbit_high b k), andb_false_r.
Qed.

Lemma lor_shiftl_add v b k :
  0 <= k -> 0 <= b < 2 ^ k -> Z.lor (Z.shiftl v k) b = v * 2 ^ k + b.
Proof.
  intros Hk Hb. rewrite <- Z.add_nocarry_lor by by apply land_shiftl_low.
  by rewrite Z.shiftl_mul_pow2.
Qed.

Lemma land_ones_wrap w z : 0 <= w -> Z.land z (Z.ones w) = wrap w z.
Proof. intros. by apply Z.land_ones. Qed.

Lemma lor_fits w a b : 0 <= w -> fits w a -> fits w b -> fits w (Z.lor a b).
Proof.
  intros Hw Ha Hb. unfold fits in *. split; [apply Z.lor_nonneg; lia|].
  destruct (decide (Z.lor a b = 0)) as [->|Hn]; [lia|].
  assert (0 <= Z.lor a b) by (apply Z.lor_nonneg; lia).
  apply Z.log2_lt_cancel. rewrite Z.log2_pow2 by done.
  rewrite Z.log2_lor by lia.
  destruct (decide (a = 0)) as [->|], (decide (b = 0)) as [->|].
  - done.
  - rewrite Z.max_r by (cbn; apply Z.log2_nonneg). apply Z.log2_lt_pow2; lia.
  - rewrite Z.max_l by (cbn; apply Z.log2_nonneg). apply Z.log2_lt_pow2; lia.
  - apply Z.max_lub_lt; apply Z.log2_lt_pow2; lia.
Qed.

Lemma fits_bits w z : 0 <= w -> 0 <= z -> (forall i, w <= i -> Z.testbit z i = false) -> fits w z.
Proof.
  intros Hw Hz Hi. split; [done|].
  replace z with (z mod 2 ^ w); [apply Z.mod_pos_bound; lia|].
  apply Z.bits_inj'. intros i Hi0. destruct (Z.lt_ge_cases i w).
  - by rewrite Z.mod_pow2_bits_low.
  - rewrite Z.mod_pow2_bits_high by lia. by rewrite Hi.
Qed.

Lemma lxor_fits w a b : 0 <= w -> fits w a -> fits w b -> fits w (Z.lxor a b).
Proof.
  intros Hw Ha Hb. apply fits_bits; [done| |].
  - apply Z.lxor_nonneg. unfold fits in *. lia.
  - intros i Hi. by rewrite Z.lxor_spec, (testbit_high a w), (testbit_high b w).
Qed.

Lemma shiftr_fits w z k : 0 <= k -> fits w z -> fits w (Z.shiftr z k).
Proof.
  intros Hk [Hz Hz']. rewrite Z.shiftr_div_pow2 by done. split.
  - apply Z.div_pos; lia.
  - eapply Z.le_lt_trans; [|exact Hz']. apply Z.div_le_upper_bound; nia.
Qed.

(** ** Bytes *)
Abbreviation bytes_ok := (Forall u8).

(** [to_le_bytes] of an [n]-byte integer. *)
Fixpoint le_bytes (n : nat) (z : Z) : list Z :=
  match n with
  | O => []
  | S n => wrap 8 z :: le_bytes n (Z.shiftr z 8)
  end.

(** [from_le_bytes]. *)
Fixpoint le_val (l : list Z) : Z :=
  match l with
  | [] => 0
  | b :: l => b + 256 * le_val l
  end.

(** [to_be_bytes] and [from_be_bytes]. *)
Definition be_bytes (n : nat) (z : Z) : list Z := rev (le_bytes n z).
Definition be_val (l : list Z) : Z := le_val (rev l).

Lemma le_bytes_length n z : length (le_bytes n z) = n.
Proof. revert z. induction n; intros; cbn; auto. Qed.

Lemma le_bytes_zlen n z : zlen (le_bytes n z) = Z.of_nat n.
Proof. unfold zlen. by rewrite le_bytes_length. Qed.

Lemma be_bytes_zlen n z : zlen (be_bytes n z) = Z.of_nat n.
Proof. unfold zlen, be_bytes. by rewrite length_rev, le_bytes_length. Qed.

Lemma le_bytes_ok n z : bytes_ok (le_bytes n z).
Proof. revert z. induction n; intros; cbn; constructor; [by apply wrap_fits|auto]. Qed.

Lemma be_bytes_ok n z : bytes_ok (be_bytes n z).
Proof. apply Forall_rev, le_bytes_ok. Qed.

Lemma le_val_bound l : bytes_ok l -> 0 <= le_val l < 2 ^ (8 * zlen l).
Proof.
  induction 1 as [|b l Hb Hl IH]; [done|]. cbn [le_val]. rewrite zlen_cons.
  replace (8 * (1 + zlen l)) with (8 + 8 * zlen l) by lia.
  pose proof (zlen_nonneg l). rewrite Z.pow_add_r by lia. unfold fits in Hb. change (2 ^ 8) with 256 in *. lia.
Qed.

Lemma le_val_bytes n z : le_val (le_bytes n z) = wrap (8 * Z.of_nat n) z.
Proof.
  revert z. induction n as [|n IH]; intros z; cbn [le_val le_bytes].
  { unfold wrap. by rewrite Z.mod_1_r. }
  rewrite IH. unfold wrap. rewrite Z.shiftr_div_pow2 by lia. change (2 ^ 8) with 256.
  replace (8 * Z.of_nat (S n)) with (8 + 8 * Z.of_nat n) by lia.
  rewrite Z.pow_add_r by lia. change (2 ^ 8) with 256.
  by rewrite Z.rem_mul_r by lia.
Qed.

Lemma le_bytes_val l : bytes_ok l -> le_bytes (length l) (le_val l) = l.
Proof.
  induction 1 as [|b l Hb Hl IH]; [done|]. cbn [length le_bytes le_val].
  unfold fits in Hb. change (2 ^ 8) with 256 in Hb. f_equal.
  - unfold wrap. change (2 ^ 8) with 256.
    rewrite Z.mul_comm, Z.mod_add by lia. by apply Z.mod_small.
  - rewrite Z.shiftr_div_pow2 by lia. change (2 ^ 8) with 256.
    rewrite Z.mul_comm, Z.div_add by lia. rewrite Z.div_small by lia. by rewrite Z.add_0_l.
Qed.

Lemma le_round_trip n z : fits (8 * Z.of_nat n) z -> le_val (le_bytes n z) = z.
Proof. intros. rewrite le_val_bytes. by apply wrap_id. Qed.

Lemma be_round_trip n z : fits (8 * Z.of_nat n) z -> be_val (be_bytes n z) = z.
Proof. intros. unfold be_val, be_bytes. rewrite rev_involutive. by apply le_round_trip. Qed.

Lemma be_val_bytes n z : be_val (be_bytes n z) = wrap (8 * Z.of_nat n) z.
Proof. intros. unfold be_val, be_bytes. rewrite rev_involutive. by apply le_val_bytes. Qed.

Lemma be_bytes_val l : bytes_ok l -> be_bytes (length l) (be_val l) = l.
Proof.
  intros. unfold be_val, be_bytes. rewrite <- length_rev, le_bytes_val by by apply Forall_rev.
  apply rev_involutive.
Qed.

Lemma be_val_bound l : bytes_ok l -> 0 <= be_val l < 2 ^ (8 * zlen l).
Proof.
  intros Hl. unfold be_val. replace (zlen l) with (zlen (rev l)).
  - apply le_val_bound. by apply Forall_rev.
  - unfold zlen. by rewrite length_rev.
Qed.

Lemma le_val_app l k : le_val (l ++ k) = le_val l + 2 ^ (8 * zlen l) * le_val k.
Proof.
  induction l as [|b l IH]; [by cbn; destruct (le_val k)|].
  cbn [app le_val]. rewrite IH, zlen_cons.
  pose proof (zlen_nonneg l). replace (8 * (1 + zlen l)) with (8 + 8 * zlen l) by lia.
  rewrite Z.pow_add_r by lia. change (2 ^ 8) with 256. ring.
Qed.

Lemma be_val_snoc l b : be_val (l ++ [b]) = 256 * be_val l + b.
Proof. unfold be_val. rewrite rev_app_distr. cbn. lia. Qed.

(** The fold the sources write, [fold(0, |v, &b| v << 8 | u64::from(b))], on a
    [w]-bit accumulator: bits shifted past the top are lost. *)
Definition be_fold (w : Z) (l : list Z) : Z :=
  fold_left (fun v b => Z.lor (wrap w (Z.shiftl v 8)) b) l 0.

Lemma be_fold_step w v b :
  8 <= w -> u8 b -> Z.lor (wrap w (Z.shiftl v 8)) b = wrap w (v * 256 + b).
Proof.
  intros Hw Hb. unfold wrap. rewrite Z.shiftl_mul_pow2 by lia.
  replace w with (8 + (w - 8)) by lia. rewrite Z.pow_add_r by lia. change (2 ^ 8) with 256.
  assert (0 < 2 ^ (w - 8)) by lia.
  rewrite (Z.mul_comm v), Z.mul_mod_distr_l by lia.
  replace (256 * (v mod 2 ^ (w - 8))) with (Z.shiftl (v mod 2 ^ (w - 8)) 8)
    by (rewrite Z.shiftl_mul_pow2 by lia; lia).
  rewrite lor_shiftl_add by (done || lia). change (2 ^ 8) with 256.
  unfold fits in Hb. change (2 ^ 8) with 256 in Hb.
  rewrite (Z.rem_mul_r (256 * v + b)) by lia.
  rewrite (Z.mul_comm 256 v), (Z.add_comm (v * 256) b), Z.mod_add, Z.div_add by lia.
  rewrite (Z.div_small b), (Z.mod_small b) by lia. rewrite Z.add_0_l. lia.
Qed.

Lemma be_fold_val w l : 8 <= w -> bytes_ok l -> be_fold w l = wrap w (be_val l).
Proof.
  intros Hw. unfold be_fold. induction l as [|b l IH] using rev_ind; intros Hl; [done|].
  apply Forall_app in Hl as [Hl [Hb _]%Forall_cons].
  rewrite fold_left_app. cbn. rewrite IH, be_fold_step by done.
  rewrite be_val_snoc. unfold wrap.
  assert (0 < 2 ^ w) by lia.
  rewrite <- Z.add_mod_idemp_l, Z.mul_mod_idemp_l, Z.add_mod_idemp_l by lia.
  f_equal. lia.
Qed.

Lemma u8_fits w b : 8 <= w -> u8 b -> fits w b.
Proof.
  intros Hw [H0 H1]. split; [done|]. eapply Z.lt_le_trans; [exact H1|].
  apply Z.pow_le_mono_r; lia.
Qed.
