(* ===== verification/Utf8.v ===== *)
(** * UTF-8, as the Rust standard library reads and writes it

    [String] and [str] hold valid UTF-8. The sources check it
    ([String::from_utf8], [str::from_utf8]), repair it
    ([String::from_utf8_lossy]), and encode characters
    ([char::encode_utf8], [char::from_u32]). *)
From S2P Require Import Prelude Bytes.

(** A character: a code point that is not a surrogate. *)
Definition is_char (c : Z) : bool :=
  (0 <=? c) && (c <? 0x110000) && negb ((0xD800 <=? c) && (c <? 0xE000)).

(** [char::from_u32]. *)
Definition char_from_u32 (c : Z) : option Z := if is_char c then Some c else None.

(** [char::encode_utf8]. *)
Definition encode_utf8 (c : Z) : list Z :=
  if c <? 0x80 then [c]
  else if c <? 0x800 then [0xC0 + c / 64; 0x80 + c mod 64]
  else if c <? 0x10000 then [0xE0 + c / 4096; 0x80 + c / 64 mod 64; 0x80 + c mod 64]
  else [0xF0 + c / 262144; 0x80 + c / 4096 mod 64; 0x80 + c / 64 mod 64; 0x80 + c mod 64].

Definition utf8_of (cs : list Z) : list Z := concat (map encode_utf8 cs).

Definition within (lo hi b : Z) : bool := (lo <=? b) && (b <=? hi).
Definition continuation : Z -> bool := within 0x80 0xBF.

(** Whether [b1] may follow the lead byte [b0] of a 3- or 4-byte sequence:
    no overlong form, no surrogate, nothing past U+10FFFF. *)
Definition second_ok (b0 b1 : Z) : bool :=
  if b0 =? 0xE0 then within 0xA0 0xBF b1
  else if b0 =? 0xED then within 0x80 0x9F b1
  else if b0 =? 0xF0 then within 0x90 0xBF b1
  else if b0 =? 0xF4 then within 0x80 0x8F b1
  else continuation b1.

(** The characters of [l], if it is valid UTF-8 ([from_utf8]). *)
Fixpoint utf8_chars (l : list Z) : option (list Z) :=
  match l with
  | [] => Some []
  | b0 :: l0 =>
      if within 0 0x7F b0 then cons b0 <$> utf8_chars l0
      else if within 0xC2 0xDF b0 then
        match l0 with
        | b1 :: l1 =>
            if continuation b1
            then cons ((b0 - 0xC0) * 64 + (b1 - 0x80)) <$> utf8_chars l1 else None
        | _ => None
        end
      else if within 0xE0 0xEF b0 then
        match l0 with
        | b1 :: b2 :: l2 =>
            if second_ok b0 b1 && continuation b2
            then cons ((b0 - 0xE0) * 4096 + (b1 - 0x80) * 64 + (b2 - 0x80)) <$> utf8_chars l2
            else None
        | _ => None
        end
      else if within 0xF0 0xF4 b0 then
        match l0 with
        | b1 :: b2 :: b3 :: l3 =>
            if second_ok b0 b1 && continuation b2 && continuation b3
            then cons ((b0 - 0xF0) * 262144 + (b1 - 0x80) * 4096 + (b2 - 0x80) * 64 + (b3 - 0x80))
                   <$> utf8_chars l3
            else None
        | _ => None
        end
      else None
  end.

Definition utf8_valid (l : list Z) : Prop := is_Some (utf8_chars l).

(** U+FFFD, which [from_utf8_lossy] puts in place of each maximal invalid
    piece. *)
Definition replacement : list Z := encode_utf8 0xFFFD.

(** [String::from_utf8_lossy]. *)
Fixpoint utf8_lossy (l : list Z) : list Z :=
  match l with
  | [] => []
  | b0 :: l0 =>
      if within 0 0x7F b0 then b0 :: utf8_lossy l0
      else if within 0xC2 0xDF b0 then
        match l0 with
        | b1 :: l1 =>
            if continuation b1 then b0 :: b1 :: utf8_lossy l1 else replacement ++ utf8_lossy l0
        | [] => replacement
        end
      else if within 0xE0 0xEF b0 then
        match l0 with
        | b1 :: l1 =>
            if second_ok b0 b1 then
              match l1 with
              | b2 :: l2 =>
                  if continuation b2 then b0 :: b1 :: b2 :: utf8_lossy l2
                  else replacement ++ utf8_lossy l1
              | [] => replacement
              end
            else replacement ++ utf8_lossy l0
        | [] => replacement
        end
      else if within 0xF0 0xF4 b0 then
        match l0 with
        | b1 :: l1 =>
            if second_ok b0 b1 then
              match l1 with
              | b2 :: l2 =>
                  if continuation b2 then
                    match l2 with
                    | b3 :: l3 =>
                        if continuation b3 then b0 :: b1 :: b2 :: b3 :: utf8_lossy l3
                        else replacement ++ utf8_lossy l2
                    | [] => replacement
                    end
                  else replacement ++ utf8_lossy l1
              | [] => replacement
              end
            else replacement ++ utf8_lossy l0
        | [] => replacement
        end
      else replacement ++ utf8_lossy l0
  end.

(** ** Facts *)
Lemma within_true lo hi b : within lo hi b = true <-> lo <= b <= hi.
Proof. unfold within. rewrite andb_true_iff, !Z.leb_le. done. Qed.
Lemma within_false lo hi b : within lo hi b = false <-> b < lo \/ hi < b.
Proof. unfold within. rewrite andb_false_iff, !Z.leb_gt. done. Qed.

Lemma is_char_spec c : is_char c = true <-> 0 <= c < 0x110000 /\ (c < 0xD800 \/ 0xE000 <= c).
Proof. unfold is_char. lia. Qed.

(** Strong induction on the length of a list. *)
Lemma list_len_ind {A} (P : list A -> Prop) :
  (forall l, (forall k, (length k < length l)%nat -> P k) -> P l) -> forall l, P l.
Proof.
  intros H l. remember (length l) as n eqn:Hn. revert l Hn.
  induction n as [n IH] using lt_wf_ind. intros l ->. apply H. intros k Hk. by apply (IH _ Hk).
Qed.

(** Valid UTF-8 survives [from_utf8_lossy] unchanged. *)
Lemma utf8_lossy_valid l : utf8_valid l -> utf8_lossy l = l.
Proof.
  induction l as [l IH] using list_len_ind. destruct l as [|b0 l0]; [done|].
  unfold utf8_valid in *. cbn [utf8_chars utf8_lossy].
  destruct (within 0 127 b0).
  { rewrite fmap_is_Some. intros. f_equal. apply IH; [cbn; lia|done]. }
  destruct (within 0xC2 0xDF b0).
  { destruct l0 as [|b1 l1]; [by intros []|]. destruct (continuation b1); [|by intros []].
    rewrite fmap_is_Some. intros. do 2 f_equal. apply IH; [cbn; lia|done]. }
  destruct (within 0xE0 0xEF b0).
  { destruct l0 as [|b1 [|b2 l2]]; [by intros []..|].
    destruct (second_ok b0 b1), (continuation b2); try by intros [].
    cbn [andb]. rewrite fmap_is_Some. intros. do 3 f_equal. apply IH; [cbn; lia|done]. }
  destruct (within 0xF0 0xF4 b0); [|by intros []].
  destruct l0 as [|b1 [|b2 [|b3 l3]]]; [by intros []..|].
  destruct (second_ok b0 b1), (continuation b2), (continuation b3); try by intros [].
  cbn [andb]. rewrite fmap_is_Some. intros. do 4 f_equal. apply IH; [cbn; lia|done].
Qed.

Ltac decide_ranges :=
  repeat match goal with
  | |- context [within ?a ?b ?c] =>
      first [ rewrite (proj2 (within_true a b c)) by lia
            | rewrite (proj2 (within_false a b c)) by lia ]
  | |- context [?a =? ?b] =>
      first [ rewrite (proj2 (Z.eqb_eq a b)) by lia
            | rewrite (proj2 (Z.eqb_neq a b)) by lia
            | destruct (Z.eqb_spec a b) ]
  end.

(** What [encode_utf8] writes, [from_utf8] reads back. *)
Lemma utf8_chars_encode c l :
  is_char c = true -> utf8_chars (encode_utf8 c ++ l) = cons c <$> utf8_chars l.
Proof.
  rewrite is_char_spec. intros Hc. unfold encode_utf8.
  pose proof (Z.div_mod c 64 ltac:(lia)). pose proof (Z.mod_pos_bound c 64 ltac:(lia)).
  pose proof (Z.div_mod (c / 64) 64 ltac:(lia)). pose proof (Z.mod_pos_bound (c / 64) 64 ltac:(lia)).
  pose proof (Z.div_mod (c / 4096) 64 ltac:(lia)).
  pose proof (Z.mod_pos_bound (c / 4096) 64 ltac:(lia)).
  rewrite !Z.div_div in * by lia. change (64 * 64) with 4096 in *. change (4096 * 64) with 262144 in *.
  destruct (Z.ltb_spec c 0x80); [cbn [app utf8_chars]; by decide_ranges|].
  destruct (Z.ltb_spec c 0x800).
  { cbn [app utf8_chars]. unfold continuation. decide_ranges. do 2 f_equal. lia. }
  destruct (Z.ltb_spec c 0x10000); cbn [app utf8_chars]; unfold second_ok, continuation;
    decide_ranges; cbn [andb]; do 2 f_equal; lia.
Qed.

Lemma utf8_chars_of cs :
  Forall (fun c => is_char c = true) cs -> utf8_chars (utf8_of cs) = Some cs.
Proof.
  induction 1 as [|c cs Hc Hcs IH]; [done|].
  unfold utf8_of. cbn. rewrite utf8_chars_encode by done. fold (utf8_of cs). by rewrite IH.
Qed.

Lemma utf8_of_app a b : utf8_of (a ++ b) = utf8_of a ++ utf8_of b.
Proof. unfold utf8_of. by rewrite map_app, concat_app. Qed.

Lemma div_mod_of c d q r : c = q * d + r -> 0 <= r < d -> c / d = q /\ c mod d = r.
Proof.
  intros -> Hr. split.
  - rewrite Z.div_add_l by lia. rewrite Z.div_small; lia.
  - rewrite Z.add_comm, Z.mod_add by lia. by apply Z.mod_small.
Qed.

(** The three multi-byte forms, read back from their bytes. *)
Lemma encode_two b0 b1 :
  0xC2 <= b0 <= 0xDF -> 0x80 <= b1 <= 0xBF ->
  let c := (b0 - 0xC0) * 64 + (b1 - 0x80) in encode_utf8 c = [b0; b1] /\ is_char c = true.
Proof.
  intros H0 H1 c. rewrite is_char_spec.
  assert (c / 64 = b0 - 192 /\ c mod 64 = b1 - 128) as [D M].
  { apply div_mod_of; subst c; lia. }
  split; [|subst c; lia]. unfold encode_utf8. rewrite D, M.
  rewrite (proj2 (Z.ltb_ge c 0x80)), (proj2 (Z.ltb_lt c 0x800)) by (subst c; lia).
  repeat f_equal; lia.
Qed.

Lemma encode_three b0 b1 b2 :
  0xE0 <= b0 <= 0xEF -> second_ok b0 b1 = true -> 0x80 <= b2 <= 0xBF ->
  let c := (b0 - 0xE0) * 4096 + (b1 - 0x80) * 64 + (b2 - 0x80) in
  encode_utf8 c = [b0; b1; b2] /\ is_char c = true.
Proof.
  intros H0 S1 H2 c. rewrite is_char_spec.
  assert (B : 128 <= b1 <= 191 /\ (b0 = 224 -> 160 <= b1) /\ (b0 = 237 -> b1 <= 159)).
  { unfold second_ok, continuation in S1. repeat case_match; apply within_true in S1; lia. }
  assert (c / 4096 = b0 - 224 /\ c / 64 mod 64 = b1 - 128 /\ c mod 64 = b2 - 128) as (D&M&N).
  { destruct (div_mod_of c 64 ((b0 - 224) * 64 + (b1 - 128)) (b2 - 128)) as [E1 E2];
      [subst c; lia|lia|].
    destruct (div_mod_of (c / 64) 64 (b0 - 224) (b1 - 128)) as [E3 E4]; [lia|lia|].
    rewrite Z.div_div in E3 by lia. done. }
  split; [|subst c; lia]. unfold encode_utf8. rewrite D, M, N.
  rewrite (proj2 (Z.ltb_ge c 0x80)), (proj2 (Z.ltb_ge c 0x800)), (proj2 (Z.ltb_lt c 0x10000))
    by (subst c; lia).
  repeat f_equal; lia.
Qed.

Lemma encode_four b0 b1 b2 b3 :
  0xF0 <= b0 <= 0xF4 -> second_ok b0 b1 = true -> 0x80 <= b2 <= 0xBF -> 0x80 <= b3 <= 0xBF ->
  let c := (b0 - 0xF0) * 262144 + (b1 - 0x80) * 4096 + (b2 - 0x80) * 64 + (b3 - 0x80) in
  encode_utf8 c = [b0; b1; b2; b3] /\ is_char c = true.
Proof.
  intros H0 S1 H2 H3 c. rewrite is_char_spec.
  assert (B : 128 <= b1 <= 191 /\ (b0 = 240 -> 144 <= b1) /\ (b0 = 244 -> b1 <= 143)).
  { unfold second_ok, continuation in S1. repeat case_match; apply within_true in S1; lia. }
  assert (c / 262144 = b0 - 240 /\ c / 4096 mod 64 = b1 - 128 /\ c / 64 mod 64 = b2 - 128
          /\ c mod 64 = b3 - 128) as (D&M&N&O).
  { destruct (div_mod_of c 64 ((b0 - 240) * 4096 + (b1 - 128) * 64 + (b2 - 128)) (b3 - 128))
      as [E1 E2]; [subst c; lia|lia|].
    destruct (div_mod_of (c / 64) 64 ((b0 - 240) * 64 + (b1 - 128)) (b2 - 128)) as [E3 E4];
      [lia|lia|].
    rewrite Z.div_div in E3 by lia. change (64 * 64) with 4096 in E3.
    destruct (div_mod_of (c / 4096) 64 (b0 - 240) (b1 - 128)) as [E5 E6]; [lia|lia|].
    rewrite Z.div_div in E5 by lia. done. }
  split; [|subst c; lia]. unfold encode_utf8. rewrite D, M, N, O.
  rewrite (proj2 (Z.ltb_ge c 0x80)), (proj2 (Z.ltb_ge c 0x800)), (proj2 (Z.ltb_ge c 0x10000))
    by (subst c; lia).
  repeat f_equal; lia.
Qed.

(** Conversely, every valid byte sequence is the encoding of its characters. *)
Lemma utf8_chars_sound l cs :
  utf8_chars l = Some cs -> utf8_of cs = l /\ Forall (fun c => is_char c = true) cs.
Proof.
  revert cs. induction l as [l IH] using list_len_ind. intros cs.
  destruct l as [|b0 l0]; cbn [utf8_chars]; [by intros [= <-]|].
  assert (Hstep : forall c k pre, (length k < length (b0 :: l0))%nat ->
    b0 :: l0 = pre ++ k -> encode_utf8 c = pre /\ is_char c = true ->
    cons c <$> utf8_chars k = Some cs ->
    utf8_of cs = b0 :: l0 /\ Forall (fun c => is_char c = true) cs).
  { intros c k pre Hk Hl [He Hc] (cs'&Hcs'&->)%fmap_Some. apply IH in Hcs' as [E F]; [|done].
    split; [|by constructor]. unfold utf8_of. cbn. fold (utf8_of cs'). by rewrite E, He, Hl. }
  destruct (within 0 127 b0) eqn:H0.
  { apply within_true in H0. apply (Hstep b0 l0 [b0]); [cbn; lia|done|]. rewrite is_char_spec.
    unfold encode_utf8. rewrite (proj2 (Z.ltb_lt b0 0x80)) by lia. split; [done|lia]. }
  destruct (within 0xC2 0xDF b0) eqn:H1.
  { apply within_true in H1. destruct l0 as [|b1 l1]; [done|].
    destruct (continuation b1) eqn:C1; [|done]. apply within_true in C1.
    apply (Hstep _ l1 [b0; b1]); [cbn; lia|done|by apply encode_two]. }
  destruct (within 0xE0 0xEF b0) eqn:H2.
  { apply within_true in H2. destruct l0 as [|b1 [|b2 l2]]; [done..|].
    destruct (second_ok b0 b1) eqn:S1; [|done].
    destruct (continuation b2) eqn:C2; [|done]. apply within_true in C2.
    apply (Hstep _ l2 [b0; b1; b2]); [cbn; lia|done|by apply encode_three]. }
  destruct (within 0xF0 0xF4 b0) eqn:H3; [|done].
  apply within_true in H3. destruct l0 as [|b1 [|b2 [|b3 l3]]]; [done..|].
  destruct (second_ok b0 b1) eqn:S1; [|done].
  destruct (continuation b2) eqn:C2; [|done]. apply within_true in C2.
  destruct (continuation b3) eqn:C3; [|done]. apply within_true in C3.
  apply (Hstep _ l3 [b0; b1; b2; b3]); [cbn; lia|done|by apply encode_four].
Qed.

(** Text: the bytes of a [String]. *)
Definition is_text (l : list Z) : bool := match utf8_chars l with Some _ => true | None => false end.

Lemma is_text_valid l : is_text l = true <-> utf8_valid l.
Proof. unfold is_text, utf8_valid. destruct (utf8_chars l); naive_solver. Qed.

Lemma encode_utf8_ok c : is_char c = true -> bytes_ok (encode_utf8 c).
Proof.
  rewrite is_char_spec. intros Hc. unfold encode_utf8, fits. change (2 ^ 8) with 256.
  pose proof (Z.mod_pos_bound c 64 ltac:(lia)).
  pose proof (Z.mod_pos_bound (c / 64) 64 ltac:(lia)).
  pose proof (Z.mod_pos_bound (c / 4096) 64 ltac:(lia)).
  repeat match goal with |- context [?a <? ?b] => destruct (Z.ltb_spec a b) end;
    repeat constructor; try lia; try (apply Z.lt_le_incl; lia);
    Z.to_euclidean_division_equations; lia.
Qed.

(** Valid UTF-8 is bytes. *)
Lemma utf8_valid_ok l : utf8_valid l -> bytes_ok l.
Proof.
  intros [cs Hcs]. apply utf8_chars_sound in Hcs as [<- Hcs]. unfold utf8_of.
  apply Forall_concat, Forall_map. eapply Forall_impl; [exact Hcs|]. intros c. apply encode_utf8_ok.
Qed.
