(* ===== verification/Crc.v ===== *)
(** * CRC32C ([wpk/mod.rs])

    The checksum of `.wpk` files: the portable routine bit by bit, and the
    one on the CPU's [crc32] instructions, eight bytes at a time. Both are
    the same function, and a checksum continues across pieces. *)
From S2P Require Import Prelude Bytes.

(** One bit: [(c >> 1) ^ (0x82F63B78 & (c & 1).wrapping_neg())]. *)
Definition crc_step (c : Z) : Z :=
  Z.lxor (Z.shiftr c 1) (Z.land 0x82F63B78 (wrap 32 (- Z.land c 1))).

(** One byte: [(0..8).fold(c ^ u32::from(b), ..)]. *)
Definition crc_byte (c b : Z) : Z := Nat.iter 8 crc_step (Z.lxor c b).

(** [!x] on [u32]. *)
Definition not32 (x : Z) : Z := Z.lxor x 0xFFFFFFFF.

Definition crc32c_soft (crc : Z) (bytes : list Z) : Z :=
  not32 (fold_left crc_byte bytes (not32 crc)).

(** The [crc32] instruction on an [n]-bit operand divides the operand's bits,
    least significant first, by the Castagnoli polynomial: [n] steps of the
    same shift register. *)
Definition mm_crc32 (n : nat) (c v : Z) : Z := Nat.iter n crc_step (Z.lxor c v).
Abbreviation mm_crc32_u8 := (mm_crc32 8).
Abbreviation mm_crc32_u64 := (mm_crc32 64).

(** [chunks_exact(8)] and its [remainder]. *)
Fixpoint words8 (l : list Z) : list (list Z) * list Z :=
  match l with
  | b0 :: b1 :: b2 :: b3 :: b4 :: b5 :: b6 :: b7 :: r =>
      let '(ws, rest) := words8 r in ([b0; b1; b2; b3; b4; b5; b6; b7] :: ws, rest)
  | _ => ([], l)
  end.

Definition crc32c_sse42 (crc : Z) (bytes : list Z) : Z :=
  let '(words, remainder) := words8 bytes in
  let wide := fold_left (fun c w => mm_crc32_u64 c (le_val w)) words (not32 crc) in
  not32 (fold_left mm_crc32_u8 remainder (wrap 32 wide)).

(** [crc32c]: the hardware routine where the CPU has SSE4.2. *)
Definition crc32c (sse42 : bool) (crc : Z) (bytes : list Z) : Z :=
  if sse42 then crc32c_sse42 crc bytes else crc32c_soft crc bytes.

(** ** The shift register *)
Lemma crc_step_eq c :
  crc_step c = Z.lxor (Z.shiftr c 1) (if Z.odd c then 0x82F63B78 else 0).
Proof.
  unfold crc_step. change 1 with (Z.ones 1) at 2. rewrite Z.land_ones by lia.
  change (2 ^ 1) with 2. rewrite Zmod_odd. by destruct (Z.odd c).
Qed.

Lemma crc_step_lxor a b : crc_step (Z.lxor a b) = Z.lxor (crc_step a) (crc_step b).
Proof.
  rewrite !crc_step_eq, Z.shiftr_lxor.
  replace (Z.odd (Z.lxor a b)) with (xorb (Z.odd a) (Z.odd b))
    by (rewrite <- !Z.bit0_odd; by rewrite Z.lxor_spec).
  set (x := Z.shiftr a 1). set (y := Z.shiftr b 1).
  destruct (Z.odd a), (Z.odd b); cbn [xorb]; rewrite ?Z.lxor_0_r.
  - rewrite (Z.lxor_comm y), (Z.lxor_assoc x), <- (Z.lxor_assoc 0x82F63B78).
    by rewrite Z.lxor_nilpotent, Z.lxor_0_l.
  - by rewrite !Z.lxor_assoc, (Z.lxor_comm y).
  - by rewrite Z.lxor_assoc.
  - done.
Qed.

(** What lies [k] bits above the register reaches it after [k] steps, as it
    is. *)
Lemma crc_iter_high k x h :
  Nat.iter k crc_step (Z.lxor x (Z.shiftl h (Z.of_nat k))) = Z.lxor (Nat.iter k crc_step x) h.
Proof.
  revert x. induction k as [|k IH]; intros x; [by rewrite Z.shiftl_0_r|].
  rewrite !Nat.iter_succ_r, crc_step_lxor.
  replace (crc_step (Z.shiftl h (Z.of_nat (S k)))) with (Z.shiftl h (Z.of_nat k)); [apply IH|].
  rewrite crc_step_eq. rewrite <- Z.bit0_odd, Z.shiftl_spec_low by lia.
  rewrite Z.lxor_0_r, Z.shiftr_shiftl_l by lia. f_equal. lia.
Qed.

Lemma crc_step_fits c : u32 c -> u32 (crc_step c).
Proof.
  intros Hc. rewrite crc_step_eq. apply lxor_fits; [done| |].
  - apply shiftr_fits; [done|done].
  - by destruct (Z.odd c).
Qed.

Lemma crc_byte_fits c b : u32 c -> u8 b -> u32 (crc_byte c b).
Proof.
  intros Hc Hb. unfold crc_byte.
  assert (H : u32 (Z.lxor c b)).
  { apply lxor_fits; [done|done|]. unfold fits in *. lia. }
  revert H. generalize (Z.lxor c b). generalize 8%nat.
  induction n; cbn; intros z Hz; [done|]. apply crc_step_fits. by apply IHn.
Qed.

(** From here on [crc_step] is known by its equations: unfolding a register
    of 64 steps doubles the term at each. *)
#[local] Opaque crc_step.

(** A wide operand is its bytes, one after the other, for any register that
    takes high bits in as they are. *)
Section Register.
Variable step : Z -> Z.
Hypothesis step_high : forall k x h,
  Nat.iter k step (Z.lxor x (Z.shiftl h (Z.of_nat k))) = Z.lxor (Nat.iter k step x) h.

Lemma register_bytes n l c :
  n = (8 * length l)%nat -> bytes_ok l ->
  Nat.iter n step (Z.lxor c (le_val l))
  = fold_left (fun c b => Nat.iter 8 step (Z.lxor c b)) l c.
Proof using step_high.
  intros ->. revert c. induction l as [|b l IH]; intros c Hl.
  { cbn. by rewrite Z.lxor_0_r. }
  apply Forall_cons in Hl as [Hb Hl]. cbn [le_val fold_left].
  replace (b + 256 * le_val l) with (Z.lxor b (Z.shiftl (le_val l) (Z.of_nat 8))).
  2:{ change (Z.of_nat 8) with 8. rewrite Z.lxor_comm.
      rewrite <- Z.add_nocarry_lxor by by apply land_shiftl_low.
      rewrite Z.shiftl_mul_pow2 by lia. change (2 ^ 8) with 256. lia. }
  rewrite <- Z.lxor_assoc.
  replace (8 * length (b :: l))%nat with (8 * length l + 8)%nat by (cbn [length]; lia).
  rewrite Nat.iter_add, step_high. by apply IH.
Qed.
End Register.

Lemma mm_crc32_eq n c v : mm_crc32 n c v = Nat.iter n crc_step (Z.lxor c v).
Proof. reflexivity. Qed.

Lemma mm_crc32_u64_bytes w c :
  length w = 8%nat -> bytes_ok w -> mm_crc32_u64 c (le_val w) = fold_left crc_byte w c.
Proof.
  intros Hl Hw. rewrite (mm_crc32_eq 64).
  rewrite (register_bytes crc_step crc_iter_high 64 w c); [done| |done]. lia.
Qed.

Lemma words8_spec l :
  concat (fst (words8 l)) ++ snd (words8 l) = l /\
  Forall (fun w => length w = 8%nat) (fst (words8 l)).
Proof.
  induction l as [l IH] using (well_founded_induction (Wf_nat.well_founded_ltof _ (@length Z))).
  destruct l as [|b0 [|b1 [|b2 [|b3 [|b4 [|b5 [|b6 [|b7 r]]]]]]]]; [by split..|].
  cbn [words8]. specialize (IH r ltac:(unfold Wf_nat.ltof; cbn; lia)).
  destruct (words8 r) as [ws rest]. cbn in *. destruct IH as [<- H].
  split; [done|by constructor].
Qed.

Lemma fold_crc_fits l c : u32 c -> bytes_ok l -> u32 (fold_left crc_byte l c).
Proof. apply fold_left_inv, crc_byte_fits. Qed.

Lemma not32_fits c : u32 c -> u32 (not32 c).
Proof. intros. by apply lxor_fits. Qed.

Lemma not32_invol c : not32 (not32 c) = c.
Proof. unfold not32. by rewrite Z.lxor_assoc, Z.lxor_nilpotent, Z.lxor_0_r. Qed.

Lemma mm_crc32_u8_byte : mm_crc32_u8 = crc_byte.
Proof. reflexivity. Qed.

(** The hardware routine computes the portable one's checksum. *)
Lemma crc32c_sse42_soft c l : u32 c -> bytes_ok l -> crc32c_sse42 c l = crc32c_soft c l.
Proof.
  intros Hc Hl. unfold crc32c_sse42, crc32c_soft.
  destruct (words8_spec l) as [E Hw]. destruct (words8 l) as [ws rest]. cbn in *. subst l.
  apply Forall_app in Hl as [Hok Hrest].
  rewrite (fold_concat _ crc_byte (fun w => length w = 8%nat /\ bytes_ok w)).
  2:{ intros c' w [Hw8 Hw1]. by apply mm_crc32_u64_bytes. }
  2:{ apply Forall_and. split; [done|]. by apply Forall_concat. }
  rewrite fold_left_app.
  rewrite wrap_id by (apply fold_crc_fits; [by apply not32_fits|done]).
  by rewrite mm_crc32_u8_byte.
Qed.

Lemma crc32c_soft_eq sse42 c l : u32 c -> bytes_ok l -> crc32c sse42 c l = crc32c_soft c l.
Proof. destruct sse42; [apply crc32c_sse42_soft|done]. Qed.

Lemma crc32c_fits sse42 c l : u32 c -> bytes_ok l -> u32 (crc32c sse42 c l).
Proof.
  intros Hc Hl. rewrite crc32c_soft_eq by done.
  apply not32_fits, fold_crc_fits; [by apply not32_fits|done].
Qed.

Lemma crc32c_soft_app c a b : crc32c_soft (crc32c_soft c a) b = crc32c_soft c (a ++ b).
Proof. unfold crc32c_soft. by rewrite not32_invol, fold_left_app. Qed.

(** ** Properties *)

(** The checksum does not depend on the CPU or on how the bytes arrive:
    folding [crc32c] over any pieces, with or without SSE4.2's instructions,
    gives the portable checksum of the pieces together. *)
Theorem crc32c_of_pieces (sse42 : bool) (pieces : list (list Z)) :
  Forall bytes_ok pieces ->
  fold_left (crc32c sse42) pieces 0 = crc32c_soft 0 (concat pieces).
Proof.
  intros Hp. assert (H : forall c, u32 c ->
    u32 (fold_left (crc32c sse42) pieces c) /\
    fold_left (crc32c sse42) pieces c = crc32c_soft c (concat pieces)).
  2:{ by apply (H 0). }
  induction Hp as [|p ps Hp Hps IH]; intros c Hc.
  { split; [done|]. unfold crc32c_soft. cbn. by rewrite not32_invol. }
  cbn [fold_left concat]. destruct (IH _ (crc32c_fits sse42 c p Hc Hp)) as [IH1 IH2].
  split; [done|]. by rewrite IH2, crc32c_soft_eq, crc32c_soft_app.
Qed.

(** The standard check value, on both routines and across pieces. *)
Lemma crc32c_of_pieces_witness :
  fold_left (crc32c true) [[49; 50; 51]; [52; 53; 54; 55; 56]; [57]] 0 = 0xE3069283.
Proof.
  rewrite (crc32c_of_pieces true [[49; 50; 51]; [52; 53; 54; 55; 56]; [57]]).
  - vm_compute. reflexivity.
  - repeat constructor; unfold fits; lia.
Defined.
