(* ===== verification/Wpk.v ===== *)
(** * The `.wpk` weight file ([wpk/mod.rs])

    The writer, the checked index and the verification of a packed weight
    file, over a model of the file as its bytes. [Writer], [Cursor],
    [Tensor], [Dtype] and [Reads] are the source's; [File] calls are the
    definitions of the first section. Errors carry the source's messages.

    Theorems: what a [Writer] wrote, [index] reads back whole and [verify]
    accepts; whatever [index] accepts is aligned, consistent and inside the
    file. *)
From S2P Require Import Prelude Bytes Utf8 Crc.

(** ** Files *)

(** [io::ErrorKind::UnexpectedEof] as [From<io::Error>] maps it. *)
Definition ends_early : error := Format [Lit "the file ends early"].

(** The largest offset a file may hold: [off_t] is an [i64]. *)
Definition max_offset : Z := 2 ^ 63 - 1.
Definition EINVAL : Z := 22.

(** [FileExt::read_exact_at]. *)
Definition read_exact_at (file : list Z) (len off : Z) : result (list Z) :=
  if len =? 0 then Ok [] else ok_or (zslice file off (off + len)) ends_early.

(** [FileExt::write_all_at]: the gap after a shorter file reads as zeros; no
    bytes, no write. *)
Definition write_all_at (file : list Z) (b : list Z) (off : Z) : result (list Z) :=
  if zlen b =? 0 then Ok file
  else if max_offset <? off + zlen b then Err (Io EINVAL)
  else Ok (ztake off file ++ zrep (off - zlen file) 0 ++ b ++ zdrop (off + zlen b) file).

(** ** The format *)
Definition ALIGN : Z := 4096.
(** ["TACHYWPK"] *)
Definition MAGIC : list Z := [84; 65; 67; 72; 89; 87; 80; 75].
Definition VERSION : Z := 1.
Definition HEADER : Z := 48.
Definition MAX_RANK : Z := 8.

Inductive Dtype := F32 | F16 | BF16 | F8E4M3 | I8 | U8.
#[global] Instance Dtype_eq_dec : EqDecision Dtype.
Proof. solve_decision. Defined.

Definition dtype_all : list Dtype := [F32; F16; BF16; F8E4M3; I8; U8].

(** [dtype as u8]: the variant's number. *)
Definition dtype_u8 (d : Dtype) : Z :=
  match d with F32 => 0 | F16 => 1 | BF16 => 2 | F8E4M3 => 3 | I8 => 4 | U8 => 5 end.

Definition dtype_size (d : Dtype) : Z :=
  match d with F32 => 4 | F16 | BF16 => 2 | F8E4M3 | I8 | U8 => 1 end.

Record Tensor := mkTensor {
  name : list Z;      (** UTF-8 *)
  dtype : Dtype;
  shape : list Z;
  offset : Z;
  len : Z;
  crc : Z;
}.
#[global] Instance Tensor_eq_dec : EqDecision Tensor.
Proof. solve_decision. Defined.

(** [shape.iter().try_fold(dtype.size(), |n, &d| n.checked_mul(d))]. *)
Fixpoint try_product (n : Z) (shape : list Z) : option Z :=
  match shape with
  | [] => Some n
  | d :: shape => n' ← checked 64 (n * d); try_product n' shape
  end.
Definition bytes_of (d : Dtype) (shape : list Z) : option Z := try_product (dtype_size d) shape.

(** The message of the first check that fails. *)
Fixpoint first_failure (checks : list (bool * string)) : option string :=
  match checks with
  | [] => None
  | (ok, why) :: checks => if ok then first_failure checks else Some why
  end.

Record Cursor := mkCursor { rest : list Z; short : bool }.

Definition take (n : Z) (c : Cursor) : list Z * Cursor :=
  if n <=? zlen (rest c) then (ztake n (rest c), mkCursor (zdrop n (rest c)) (short c))
  else ([], mkCursor (rest c) true).

(** [Cursor::int::<N>]: the bytes from the last, [fold(0, |v, &b| v << 8 | b)]. *)
Definition int (n : Z) (c : Cursor) : Z * Cursor :=
  let '(b, c) := take n c in (be_fold 64 (rev b), c).

Fixpoint ints (count : nat) (n : Z) (c : Cursor) : list Z * Cursor :=
  match count with
  | O => ([], c)
  | S count =>
      let '(v, c) := int n c in
      let '(vs, c) := ints count n c in (v :: vs, c)
  end.

Definition encode_tensor (t : Tensor) : list Z :=
  le_bytes 2 (zlen (name t)) ++ name t
  ++ [dtype_u8 (dtype t); wrap 8 (zlen (shape t))]
  ++ concat (map (le_bytes 8) (shape t ++ [offset t; len t]))
  ++ le_bytes 4 (crc t).
Definition encode (tensors : list Tensor) : list Z := concat (map encode_tensor tensors).

Definition decode (c : Cursor) (data_len : Z) : result Tensor * Cursor :=
  let '(name_len, c) := int 2 c in
  let '(raw, c) := take name_len c in
  let name := utf8_lossy raw in
  let '(d, c) := int 1 c in
  let dtype := zget dtype_all d in
  let '(rank, c) := int 1 c in
  let '(shape, c) := ints (Z.to_nat (Z.min rank MAX_RANK)) 8 c in
  let '(offset, c) := int 8 c in
  let '(len, c) := int 8 c in
  let '(crc, c) := int 4 c in
  let failure := first_failure
    [ (negb (short c), "the tensor table is truncated"%string)
    ; (bool_decide (is_Some dtype), "unknown element type"%string)
    ; (rank <=? MAX_RANK, "more than 8 dimensions"%string)
    ; (offset mod ALIGN =? 0, "not 4 KiB aligned"%string)
    ; (bool_decide ((d ← dtype; bytes_of d shape) = Some len),
        "its length does not match its shape"%string)
    ; (match checked 64 (offset + len) with Some e => e <=? data_len | None => false end,
        "it lies outside the data region"%string) ] in
  (match failure, dtype with
   | None, Some dtype => Ok (mkTensor name dtype shape offset len (wrap 32 crc))
   | why, _ =>
       Err (Format [Lit "tensor "; Dbg name; Lit ": "; Lit (default "invalid"%string why)])
   end, c).

(** The loop over the table: the first error ends it. *)
Fixpoint decode_all (count : nat) (c : Cursor) (data_len : Z) : result (list Tensor * Cursor) :=
  match count with
  | O => Ok ([], c)
  | S count =>
      let '(t, c) := decode c data_len in
      t ← t;
      '(ts, c) ← decode_all count c data_len;
      Ok (t :: ts, c)
  end.

Section Format.
(** Whether the CPU has SSE4.2. *)
Context (sse42 : bool).

Definition header (count data_len : Z) (table : list Z) : list Z :=
  let head := MAGIC ++ concat (map (le_bytes 8)
    [Z.lor VERSION (wrap 64 (Z.shiftl count 32)); data_len; wrap 64 (ALIGN + data_len); zlen table]) in
  let head := head ++ le_bytes 4 (crc32c sse42 0 table) in
  let head := head ++ le_bytes 4 (crc32c sse42 0 head) in
  head ++ zrep (ALIGN - zlen head) 0.

Definition index (file : list Z) : result (list Tensor * Z) :=
  head ← read_exact_at file HEADER 0;
  let c := mkCursor head false in
  let '(magic, c) := take 8 c in
  let '(version, c) := int 8 c in
  let '(data_len, c) := int 8 c in
  let '(table_at, c) := int 8 c in
  let '(table_len, c) := int 8 c in
  let '(table_crc, c) := int 4 c in
  let '(head_crc, c) := int 4 c in
  match first_failure
    [ (bool_decide (magic = MAGIC), "not a .wpk file"%string)
    ; (crc32c sse42 0 (ztake (HEADER - 4) head) =? wrap 32 head_crc, "the header is corrupt"%string)
    ; (wrap 32 version =? VERSION, "unsupported version"%string)
    ; ((data_len mod ALIGN =? 0) && (table_at =? wrap 64 (ALIGN + data_len)),
        "the data region is malformed"%string)
    ; (match checked 64 (table_at + table_len) with Some e => e <=? zlen file | None => false end,
        "the file is truncated"%string) ] with
  | Some why => Err (Format [Lit why])
  | None =>
      table ← read_exact_at file table_len table_at;
      if negb (crc32c sse42 0 table =? wrap 32 table_crc)
      then Err (Format [Lit "the tensor table is corrupt"])
      else
        '(tensors, c) ← decode_all (Z.to_nat (Z.shiftr version 32)) (mkCursor table false) data_len;
        if zlen (rest c) =? 0 then Ok (tensors, data_len)
        else Err (Format [Lit "the tensor table has trailing bytes"])
  end.

(** Bytes [verify] reads at a time: [load.rs]'s [CHUNK]. *)
Definition CHUNK : Z := Z.shiftl 16 20.

(** The starts of [(0..len).step_by(CHUNK)]. *)
Definition steps (len : Z) : list Z :=
  map (fun k => k * CHUNK) (seqZ 0 ((len + CHUNK - 1) / CHUNK)).

Fixpoint crc_parts (file : list Z) (t : Tensor) (ats : list Z) (crc : Z) : result Z :=
  match ats with
  | [] => Ok crc
  | at_ :: ats =>
      part ← read_exact_at file (Z.min CHUNK (len t - at_)) (ALIGN + offset t + at_);
      crc_parts file t ats (crc32c sse42 crc part)
  end.

Fixpoint verify (file : list Z) (tensors : list Tensor) : result unit :=
  match tensors with
  | [] => Ok tt
  | t :: tensors =>
      c ← crc_parts file t (steps (len t)) 0;
      if negb (c =? crc t)
      then Err (Format [Lit "tensor "; Dbg (name t); Lit ": its bytes do not match their checksum"])
      else verify file tensors
  end.

(** ** Writing *)
Record Writer := mkWriter { wfile : list Z; wtensors : list Tensor; wdata_len : Z }.

Definition create : Writer := mkWriter [] [] 0.

Definition add (w : Writer) (nm : list Z) (d : Dtype) (sh bytes : list Z) : result Writer :=
  if negb (bool_decide (bytes_of d sh = Some (zlen bytes)))
     || (MAX_RANK <? zlen sh) || (65535 <? zlen nm)
  then Err (Format [Lit "tensor "; Dbg nm; Lit ": its bytes, type and shape do not agree"])
  else
    file ← write_all_at (wfile w) bytes (ALIGN + wdata_len w);
    let offset := wdata_len w in
    let len := zlen bytes in
    Ok (mkWriter file (wtensors w ++ [mkTensor nm d sh offset len (crc32c sse42 0 bytes)])
          (next_multiple_of (offset + len) ALIGN)).

Definition finish (w : Writer) : result (list Z) :=
  let table := encode (wtensors w) in
  file ← write_all_at (wfile w) table (ALIGN + wdata_len w);
  write_all_at file (header (zlen (wtensors w)) (wdata_len w) table) 0.
End Format.

(** ** Opening: which file a load reads *)
Inductive Reads := Auto | Direct | Cached.
#[global] Instance Reads_eq_dec : EqDecision Reads.
Proof. solve_decision. Defined.

Record Wpk := mkWpk { reads : Reads; tensors : list Tensor; data_len : Z }.

(** [Wpk::open_with]: [direct] says whether the file system opens the file
    with [O_DIRECT]. *)
Definition open_with (sse42 direct : bool) (file : list Z) (r : Reads) : result Wpk :=
  '(ts, dl) ← index sse42 file;
  let uncached := negb (bool_decide (r = Cached)) && direct in
  Ok (mkWpk (if uncached then r else Cached) ts dl).

(** [Wpk::tensor]. *)
Definition tensor (w : Wpk) (nm : list Z) : option Tensor :=
  List.find (fun t => bool_decide (name t = nm)) (tensors w).

(** [Wpk::source]: [true] for the [O_DIRECT] file. [cached_low] is
    [self.cached() < 0.9]. *)
Definition source (w : Wpk) (cached_low : bool) : bool :=
  match reads w with
  | Direct => true
  | Auto => cached_low
  | Cached => false
  end.

(** ** Reading what was written: fields *)
Lemma take_app x y s n : n = zlen x -> take n (mkCursor (x ++ y) s) = (x, mkCursor y s).
Proof.
  intros ->. unfold take. cbn [rest short].
  rewrite (proj2 (Z.leb_le _ _)) by (rewrite zlen_app; pose proof (zlen_nonneg y); lia).
  by rewrite ztake_app, zdrop_app.
Qed.

Lemma int_bytes n v y s :
  (n <= 8)%nat -> fits (8 * Z.of_nat n) v ->
  int (Z.of_nat n) (mkCursor (le_bytes n v ++ y) s) = (v, mkCursor y s).
Proof.
  intros Hn Hv. unfold int. rewrite take_app by (by rewrite le_bytes_zlen).
  rewrite be_fold_val by (lia || apply Forall_rev, le_bytes_ok).
  unfold be_val. rewrite rev_involutive, le_round_trip by done.
  rewrite wrap_id; [done|]. destruct Hv as [H0 H1]. split; [done|].
  eapply Z.lt_le_trans; [exact H1|]. apply Z.pow_le_mono_r; lia.
Qed.

Lemma int_byte b y s : u8 b -> int 1 (mkCursor (b :: y) s) = (b, mkCursor y s).
Proof.
  intros Hb. rewrite <- (int_bytes 1 b y s) by (done || lia). cbn [le_bytes app].
  by rewrite wrap_id.
Qed.

Lemma ints_bytes vs y s :
  Forall u64 vs ->
  ints (length vs) 8 (mkCursor (concat (map (le_bytes 8) vs) ++ y) s) = (vs, mkCursor y s).
Proof.
  induction 1 as [|v vs Hv Hvs IH]; [done|]. cbn [length ints map concat].
  rewrite <- app_assoc. rewrite (int_bytes 8) by (done || lia). by rewrite IH.
Qed.

(** ** One table entry *)
Record tensor_wf (dl : Z) (t : Tensor) : Prop := {
  wf_name : utf8_valid (name t);
  wf_name_len : zlen (name t) <= 65535;
  wf_rank : zlen (shape t) <= MAX_RANK;
  wf_shape : Forall u64 (shape t);
  wf_offset : 0 <= offset t /\ offset t mod ALIGN = 0;
  wf_len : 0 <= len t /\ bytes_of (dtype t) (shape t) = Some (len t);
  wf_crc : u32 (crc t);
  wf_end : offset t + len t <= dl < 2 ^ 64;
}.

Lemma dtype_u8_all d : zget dtype_all (dtype_u8 d) = Some d /\ u8 (dtype_u8 d).
Proof. by destruct d. Qed.

Lemma first_failure_None checks : first_failure checks = None <-> Forall (fun c => fst c = true) checks.
Proof.
  induction checks as [|[[] why] l IH]; cbn; [done| |].
  - rewrite Forall_cons, IH. naive_solver.
  - rewrite Forall_cons. naive_solver.
Qed.

Lemma decode_encode dl t y :
  tensor_wf dl t ->
  decode (mkCursor (encode_tensor t ++ y) false) dl = (Ok t, mkCursor y false).
Proof.
  intros [Hn Hnl Hr Hs [Ho0 Ho] [Hl0 Hl] Hc He]. pose proof (zlen_nonneg (name t)).
  pose proof (zlen_nonneg (shape t)). destruct (dtype_u8_all (dtype t)) as [Hd Hd8].
  unfold decode, encode_tensor, MAX_RANK in *. rewrite <- !app_assoc.
  rewrite (int_bytes 2) by (unfold fits; lia). rewrite take_app by done.
  cbn [app]. rewrite int_byte by done. rewrite (wrap_id 8) by (unfold fits; lia).
  rewrite int_byte by (unfold fits; lia).
  rewrite Z.min_l by done. unfold zlen at 1. rewrite Nat2Z.id.
  rewrite map_app, concat_app, <- app_assoc, ints_bytes by done. cbn [map concat app].
  rewrite <- !app_assoc. cbn [app].
  rewrite (int_bytes 8) by (unfold fits; lia). rewrite (int_bytes 8) by (unfold fits; lia).
  rewrite (int_bytes 4) by (lia || done). rewrite utf8_lossy_valid by done.
  cbn [short]. rewrite Hd. cbn [mbind option_bind]. rewrite Hl, Ho.
  rewrite (proj2 (checked_Some 64 (offset t + len t) (offset t + len t))) by lia.
  rewrite !bool_decide_true by (done || eauto). 
  rewrite (proj2 (Z.leb_le (zlen (shape t)) 8)), (proj2 (Z.leb_le (offset t + len t) dl)) by lia.
  cbn [first_failure negb Z.eqb]. rewrite wrap_id by done. by destruct t.
Qed.

Lemma decode_all_encode dl ts y :
  Forall (tensor_wf dl) ts ->
  decode_all (length ts) (mkCursor (encode ts ++ y) false) dl = Ok (ts, mkCursor y false).
Proof.
  unfold encode. induction 1 as [|t ts Ht Hts IH]; [done|].
  cbn [length decode_all map concat]. rewrite <- app_assoc, decode_encode by done.
  cbn. by rewrite IH.
Qed.

Lemma encode_tensor_ok dl t : tensor_wf dl t -> bytes_ok (encode_tensor t).
Proof.
  intros [Hn Hnl Hr Hs Ho Hl Hc He]. unfold encode_tensor.
  repeat apply Forall_app_2; auto using le_bytes_ok, utf8_valid_ok.
  - repeat constructor; try apply dtype_u8_all; by apply wrap_fits.
  - apply Forall_concat, Forall_map, Forall_true. intros. apply le_bytes_ok.
Qed.

Lemma encode_ok dl ts : Forall (tensor_wf dl) ts -> bytes_ok (encode ts).
Proof.
  intros. apply Forall_concat, Forall_map. eapply Forall_impl; [done|].
  intros. by eapply encode_tensor_ok.
Qed.

(** ** Files *)
Lemma read_exact_at_Ok f n a r :
  0 <= n -> read_exact_at f n a = Ok r ->
  r = [] /\ n = 0 \/ 0 < n /\ zslice f a (a + n) = Some r.
Proof.
  unfold read_exact_at. destruct (Z.eqb_spec n 0); intros; outcome_simpl; [by left|].
  right. split; [lia|done].
Qed.

Lemma read_exact_at_ok f n a r : bytes_ok f -> read_exact_at f n a = Ok r -> bytes_ok r.
Proof.
  unfold read_exact_at. intros Hf. case_match; intros; outcome_simpl; subst; [done|].
  apply zslice_Some in H0 as (_&_&->). unfold ztake, zdrop. by apply Forall_take, Forall_drop.
Qed.

Lemma write_all_at_len f b off f' :
  0 <= off -> write_all_at f b off = Ok f' ->
  zlen f' = if zlen b =? 0 then zlen f else Z.max (zlen f) (off + zlen b).
Proof.
  unfold write_all_at. intros Hoff. destruct (Z.eqb_spec (zlen b) 0); [intros; outcome_simpl; by subst|].
  destruct (_ <? _); intros; outcome_simpl. subst f'. pose proof (zlen_nonneg b).
  pose proof (zlen_nonneg f). rewrite !zlen_app, zlen_ztake, zlen_zdrop by lia.
  destruct (Z.le_ge_cases off (zlen f)).
  - unfold zrep. rewrite Z2Nat.nonpos by lia. cbn. rewrite zlen_nil. lia.
  - rewrite zlen_zrep by lia. lia.
Qed.

Lemma write_all_at_ok f b off f' :
  bytes_ok f -> bytes_ok b -> write_all_at f b off = Ok f' -> bytes_ok f'.
Proof.
  unfold write_all_at. intros Hf Hb. repeat case_match; intros; outcome_simpl; subst; [done|].
  unfold ztake, zdrop, zrep. repeat apply Forall_app_2; auto using Forall_take, Forall_drop.
  by apply Forall_replicate.
Qed.

Lemma write_all_at_lookup f b off f' (i : nat) :
  0 <= off -> write_all_at f b off = Ok f' -> zlen b <> 0 ->
  f' !! i = if decide (Z.of_nat i < off) then
              if decide (Z.of_nat i < zlen f) then f !! i else Some 0
            else if decide (Z.of_nat i < off + zlen b) then b !! (i - Z.to_nat off)%nat
            else f !! i.
Proof.
  unfold write_all_at. intros Hoff H Hb. destruct (Z.eqb_spec (zlen b) 0); [done|].
  destruct (_ <? _); outcome_simpl. subst f'. unfold zlen, ztake, zdrop, zrep in *.
  repeat case_decide.
  - rewrite lookup_app_l by (rewrite length_take; lia). rewrite lookup_take.
    by rewrite decide_True by lia.
  - rewrite lookup_app_r by (rewrite length_take; lia). rewrite length_take.
    rewrite lookup_app_l by (rewrite length_replicate; lia).
    apply lookup_replicate. split; [done|]. lia.
  - rewrite lookup_app_r by (rewrite length_take; lia). rewrite length_take.
    rewrite lookup_app_r by (rewrite length_replicate; lia). rewrite length_replicate.
    rewrite lookup_app_l by lia. f_equal. lia.
  - rewrite lookup_app_r by (rewrite length_take; lia). rewrite length_take.
    rewrite lookup_app_r by (rewrite length_replicate; lia). rewrite length_replicate.
    rewrite lookup_app_r by lia. rewrite lookup_drop. f_equal. lia.
Qed.

Lemma zslice_lookup {A} (l r : list A) a b :
  zslice l a b = Some r <->
  0 <= a <= b /\ b <= zlen l /\ zlen r = b - a /\
  forall i, (Z.of_nat i < b - a) -> r !! i = l !! (Z.to_nat a + i)%nat.
Proof.
  split.
  - intros H. pose proof (zslice_len _ _ _ _ H). apply zslice_Some in H as (Ha&Hb&->).
    split_and!; [lia..|]. intros i Hi. unfold ztake, zdrop.
    rewrite lookup_take, decide_True by lia. apply lookup_drop.
  - intros (Ha&Hb&Hr&Hi). apply zslice_Some. split_and!; [lia..|].
    apply list_eq. intros i. unfold ztake, zdrop, zlen in *. rewrite lookup_take, lookup_drop.
    case_decide; [apply Hi; lia|]. apply lookup_ge_None. lia.
Qed.

(** What was written reads back. *)
Lemma read_write_same f b off f' :
  0 <= off -> write_all_at f b off = Ok f' -> read_exact_at f' (zlen b) off = Ok b.
Proof.
  intros Hoff H. unfold read_exact_at. destruct (Z.eqb_spec (zlen b) 0) as [E|E].
  { by rewrite (zlen_zero b E). }
  apply ok_or_Ok, zslice_lookup. pose proof (write_all_at_len _ _ _ _ Hoff H) as L.
  rewrite (proj2 (Z.eqb_neq _ _)) in L by done. pose proof (zlen_nonneg b).
  split_and!; [lia..|]. intros i Hi. rewrite (write_all_at_lookup _ _ _ _ _ Hoff H E).
  rewrite decide_False, decide_True by lia. f_equal. lia.
Qed.

(** A write leaves every range it does not meet as it was. *)
Lemma read_write_other f b off f' n a r :
  0 <= off -> write_all_at f b off = Ok f' -> 0 <= n ->
  a + n <= off \/ off + zlen b <= a ->
  read_exact_at f n a = Ok r -> read_exact_at f' n a = Ok r.
Proof.
  intros Hoff H Hn Hd Hr. destruct (decide (zlen b = 0)) as [E|E].
  { unfold write_all_at in H. rewrite (proj2 (Z.eqb_eq _ _)) in H by done. by simplify_eq. }
  destruct (read_exact_at_Ok _ _ _ _ Hn Hr) as [[-> ->]|[Hn' Hs]]; [done|]. clear Hr.
  unfold read_exact_at. rewrite (proj2 (Z.eqb_neq n 0)) by lia.
  apply ok_or_Ok, zslice_lookup. apply zslice_lookup in Hs as (Ha&Hb&Hl&Hi).
  pose proof (write_all_at_len _ _ _ _ Hoff H) as L.
  rewrite (proj2 (Z.eqb_neq _ _)) in L by done.
  split_and!; [lia..|]. intros i Hi'. rewrite (write_all_at_lookup _ _ _ _ _ Hoff H E).
  rewrite Hi by done. destruct Hd.
  - rewrite !decide_True by lia. done.
  - pose proof (zlen_nonneg b). rewrite decide_False by lia. by rewrite decide_False by lia.
Qed.

(** ** The header *)
Section Header.
Context (sse42 : bool) (count dl : Z) (table : list Z).

(** The 44 bytes the header's own checksum covers, and the 48 it has. *)
Definition head44 : list Z :=
  MAGIC ++ le_bytes 8 (1 + count * 2 ^ 32) ++ le_bytes 8 dl ++ le_bytes 8 (ALIGN + dl)
  ++ le_bytes 8 (zlen table) ++ le_bytes 4 (crc32c sse42 0 table).
Definition head48 : list Z := head44 ++ le_bytes 4 (crc32c sse42 0 head44).

Lemma head44_len : zlen head44 = 44.
Proof. unfold head44. rewrite !zlen_app, !le_bytes_zlen. done. Qed.
Lemma head48_len : zlen head48 = 48.
Proof. unfold head48. by rewrite zlen_app, head44_len, le_bytes_zlen. Qed.
Lemma head44_ok : bytes_ok head44.
Proof.
  unfold head44. repeat apply Forall_app_2; auto using le_bytes_ok.
  repeat constructor; unfold fits; lia.
Qed.
Lemma head48_ok : bytes_ok head48.
Proof. apply Forall_app_2; [apply head44_ok|apply le_bytes_ok]. Qed.

Lemma version_word : 0 <= count < 2 ^ 32 ->
  Z.lor VERSION (wrap 64 (Z.shiftl count 32)) = 1 + count * 2 ^ 32.
Proof.
  intros Hc. rewrite wrap_id.
  - rewrite Z.lor_comm, lor_shiftl_add by (unfold VERSION; lia). unfold VERSION. lia.
  - unfold fits. rewrite Z.shiftl_mul_pow2 by lia. lia.
Qed.

Lemma header_eq : 0 <= count < 2 ^ 32 -> 0 <= dl < 2 ^ 64 - ALIGN ->
  header sse42 count dl table = head48 ++ zrep (ALIGN - 48) 0.
Proof.
  intros Hc Hdl. unfold header. cbv zeta. rewrite version_word by done.
  rewrite (wrap_id 64 (ALIGN + dl)) by (unfold fits, ALIGN in *; lia).
  match goal with |- context [(MAGIC ++ ?l) ++ ?m] => assert (E : (MAGIC ++ l) ++ m = head44) end.
  { unfold head44. cbn [map concat]. by rewrite app_nil_r, <- !app_assoc. }
  rewrite E. fold head48. by rewrite head48_len.
Qed.

(** [index]'s cursor over the header. *)
Lemma head_fields s :
  0 <= count < 2 ^ 32 -> 0 <= dl < 2 ^ 64 - ALIGN -> zlen table < 2 ^ 64 -> bytes_ok table ->
  bytes_ok s ->
  let c := mkCursor (head48 ++ s) false in
  let '(magic, c) := take 8 c in
  let '(version, c) := int 8 c in
  let '(data_len, c) := int 8 c in
  let '(table_at, c) := int 8 c in
  let '(table_len, c) := int 8 c in
  let '(table_crc, c) := int 4 c in
  let '(head_crc, c) := int 4 c in
  magic = MAGIC /\ version = 1 + count * 2 ^ 32 /\ data_len = dl /\ table_at = ALIGN + dl /\
  table_len = zlen table /\ table_crc = crc32c sse42 0 table /\ head_crc = crc32c sse42 0 head44.
Proof.
  intros Hc Hdl Ht Htok Hs. cbv zeta. unfold ALIGN in *. pose proof (zlen_nonneg table).
  pose proof (crc32c_fits sse42 0 table ltac:(done) Htok).
  pose proof (crc32c_fits sse42 0 head44 ltac:(done) head44_ok).
  unfold head48, head44 at 1. rewrite <- !app_assoc. rewrite take_app by done.
  do 4 rewrite (int_bytes 8) by (unfold fits, ALIGN; lia).
  do 2 rewrite (int_bytes 4) by (done || lia). done.
Qed.
End Header.

(** ** What a writer holds *)
Section Written.
Context (sse42 : bool).

Definition stored (file : list Z) (t : Tensor) (b : list Z) : Prop :=
  zlen b = len t /\ bytes_ok b /\ crc t = crc32c sse42 0 b /\
  read_exact_at file (len t) (ALIGN + offset t) = Ok b.

Record writer_inv (w : Writer) (contents : list (list Z)) : Prop := {
  inv_wf : Forall (tensor_wf (wdata_len w)) (wtensors w);
  inv_stored : Forall2 (stored (wfile w)) (wtensors w) contents;
  inv_len : 0 <= wdata_len w <= 2 ^ 63 /\ wdata_len w mod ALIGN = 0;
  inv_file : zlen (wfile w) <= ALIGN + wdata_len w;
  inv_empty : wtensors w = [] -> wdata_len w = 0;
  inv_bytes : bytes_ok (wfile w);
}.

Lemma create_inv : writer_inv create [].
Proof. split; cbn; try done. Qed.

Lemma tensor_wf_mono dl dl' t : dl <= dl' < 2 ^ 64 -> tensor_wf dl t -> tensor_wf dl' t.
Proof. intros Hd [? ? ? ? ? ? ? ?]. split; try done. lia. Qed.

Lemma stored_write file b off file' t c :
  0 <= off -> write_all_at file b off = Ok file' -> 0 <= len t ->
  ALIGN + offset t + len t <= off \/ off + zlen b <= ALIGN + offset t ->
  stored file t c -> stored file' t c.
Proof.
  intros Hoff Hw Hl Hd (?&?&?&Hr). split_and!; [done..|].
  eapply read_write_other; [exact Hoff|exact Hw|lia| |exact Hr]. lia.
Qed.

Lemma add_inv w cs nm d sh bytes w' :
  writer_inv w cs -> utf8_valid nm -> Forall u64 sh -> bytes_ok bytes ->
  add sse42 w nm d sh bytes = Ok w' -> writer_inv w' (cs ++ [bytes]).
Proof.
  intros [Hwf Hst [Hdl Hdm] Hf He Hb] Hnm Hsh Hby. unfold add.
  destruct (negb _ || _ || _) eqn:G; [done|].
  apply orb_false_elim in G as [[G1 G2]%orb_false_elim G3].
  apply negb_false_iff, bool_decide_eq_true in G1. apply Z.ltb_ge in G2, G3.
  intros (file & Hw & [= <-])%bind_Ok. cbn.
  pose proof (zlen_nonneg bytes) as Hb0. pose proof (zlen_nonneg (wfile w)).
  pose proof (next_multiple_of_spec (wdata_len w + zlen bytes) ALIGN ltac:(done)) as [Hm1 Hm2].
  set (dl' := next_multiple_of _ _) in *. unfold ALIGN in Hm1.
  assert (Hdl' : 0 <= dl' <= 2 ^ 63 /\ wdata_len w + zlen bytes <= dl').
  { split; [|lia]. unfold write_all_at, max_offset, ALIGN in Hw.
    destruct (Z.eqb_spec (zlen bytes) 0) as [E|E].
    - clearbody dl'. clear -Hm1 Hm2 Hdm Hdl E. unfold ALIGN in *.
      Z.to_euclidean_division_equations. lia.
    - destruct (Z.ltb_spec (2 ^ 63 - 1) (4096 + wdata_len w + zlen bytes)); [done|]. lia. }
  assert (Hoff : 0 <= ALIGN + wdata_len w) by (unfold ALIGN; lia).
  pose proof (write_all_at_len _ _ _ _ Hoff Hw) as Hlen.
  split; cbn.
  - apply Forall_app_2.
    + eapply Forall_impl; [exact Hwf|]. intros t. apply tensor_wf_mono. lia.
    + constructor; [|done].
      split; cbn; try done; try lia. by apply crc32c_fits.
  - apply Forall2_app; [|constructor; [|done]].
    + pose proof (Forall2_length _ _ _ Hst).
      apply Forall2_same_length_lookup. split; [done|]. intros i t c Ht Hc.
      eapply stored_write; [|exact Hw| | |].
      * unfold ALIGN. lia.
      * destruct (proj1 (Forall_lookup _ _) Hwf i t Ht). lia.
      * left. destruct (proj1 (Forall_lookup _ _) Hwf i t Ht). lia.
      * by eapply (Forall2_lookup_lr _ _ _ i).
    + split_and!; [done..|]. apply read_write_same in Hw; [done|unfold ALIGN; lia].
  - by split; [lia|].
  - destruct (zlen bytes =? 0) in Hlen; unfold ALIGN in *; lia.
  - intros E. by apply app_nil in E as [_ ?].
  - eapply write_all_at_ok; [exact Hb|exact Hby|exact Hw].
Qed.
End Written.

(** ** Verification *)
Lemma zslice_sub {A} (f b : list A) a n x m :
  zslice f a (a + n) = Some b -> 0 <= x -> 0 <= m -> x + m <= n ->
  zslice f (a + x) (a + x + m) = Some (ztake m (zdrop x b)).
Proof.
  intros (Ha&Hb&->)%zslice_Some Hx Hm Hn. apply zslice_Some. split_and!; [lia..|].
  unfold ztake, zdrop. rewrite skipn_firstn_comm, take_take, drop_drop. f_equal; [lia|].
  f_equal. lia.
Qed.

Section Verify.
Context (sse42 : bool).

Lemma crc_parts_from file t b :
  bytes_ok b -> zslice file (ALIGN + offset t) (ALIGN + offset t + len t) = Some b ->
  forall (n : nat) k c, 0 <= k -> u32 c ->
    Z.of_nat n = (len t + CHUNK - 1) / CHUNK - k ->
    crc_parts sse42 file t (map (fun k => k * CHUNK) (seqZ k (Z.of_nat n))) c
    = Ok (crc32c_soft c (zdrop (k * CHUNK) b)).
Proof.
  intros Hb Hs. pose proof (zslice_len _ _ _ _ Hs) as Hlb.
  assert (HC : CHUNK = 16777216) by done.
  induction n as [|n IH]; intros k c Hk Hc Hn.
  - cbn. rewrite zdrop_all; [by rewrite <- (not32_invol c) at 1|].
    rewrite HC in *. Z.to_euclidean_division_equations. lia.
  - assert (Hlt : k * CHUNK < len t).
    { rewrite HC in *. Z.to_euclidean_division_equations. lia. }
    rewrite seqZ_cons by lia. cbn [map crc_parts].
    set (m := Z.min CHUNK (len t - k * CHUNK)).
    assert (Hread : read_exact_at file m (ALIGN + offset t + k * CHUNK)
                    = Ok (ztake m (zdrop (k * CHUNK) b))).
    { unfold read_exact_at. rewrite (proj2 (Z.eqb_neq m 0)) by lia. apply ok_or_Ok.
      apply (zslice_sub _ _ _ (len t)); [exact Hs|lia..]. }
    assert (Hp : bytes_ok (ztake m (zdrop (k * CHUNK) b))).
    { unfold ztake, zdrop. by apply Forall_take, Forall_drop. }
    rewrite Hread. cbn [mbind outcome_bind].
    replace (Z.pred (Z.of_nat (S n))) with (Z.of_nat n) by lia.
    rewrite IH by (lia || by apply crc32c_fits).
    rewrite crc32c_soft_eq, crc32c_soft_app by done. do 2 f_equal.
    rewrite <- (ztake_zdrop m (zdrop (k * CHUNK) b)) at 2. f_equal.
    rewrite zdrop_zdrop by lia. subst m.
    destruct (Z.le_ge_cases CHUNK (len t - k * CHUNK)).
    + f_equal. lia.
    + rewrite !zdrop_all; [done|lia|lia].
Qed.

(** The checksum [verify] computes piece by piece is the whole tensor's. *)
Lemma crc_parts_eq file t b :
  bytes_ok b -> 0 <= len t -> read_exact_at file (len t) (ALIGN + offset t) = Ok b ->
  crc_parts sse42 file t (steps (len t)) 0 = Ok (crc32c_soft 0 b).
Proof.
  intros Hb Hl Hr. destruct (read_exact_at_Ok _ _ _ _ Hl Hr) as [[-> E]|[Hp Hs]].
  { unfold steps. rewrite E. done. }
  assert (HC : CHUNK = 16777216) by done.
  pose proof (crc_parts_from file t b Hb Hs (Z.to_nat ((len t + CHUNK - 1) / CHUNK)) 0 0) as H.
  rewrite Z2Nat.id in H by (apply Z.div_pos; lia). apply H; [lia|done|lia].
Qed.

Lemma verify_iff file ts contents :
  Forall2 (fun t b => bytes_ok b /\ 0 <= len t /\
             read_exact_at file (len t) (ALIGN + offset t) = Ok b) ts contents ->
  verify sse42 file ts = Ok tt <->
  Forall2 (fun t b => crc32c_soft 0 b = crc t) ts contents.
Proof.
  induction 1 as [|t b ts bs (Hb&Hl&Hr) Hts IH]; [done|]. cbn [verify].
  rewrite (crc_parts_eq file t b) by done. cbn [mbind outcome_bind].
  destruct (Z.eqb_spec (crc32c_soft 0 b) (crc t)); cbn [negb].
  - rewrite IH. split; [by constructor|]. by intros [_ ?]%Forall2_cons.
  - split; [done|]. by intros [? _]%Forall2_cons.
Qed.
End Verify.

(** ** The finished file *)
Section Finish.
Context (sse42 : bool).

Lemma encode_nonempty ts : ts <> [] -> 0 < zlen (encode ts).
Proof.
  destruct ts as [|t ts]; [done|]. intros _. unfold encode. cbn [map concat].
  unfold encode_tensor. rewrite !zlen_app, !le_bytes_zlen.
  repeat match goal with |- context [zlen ?l] =>
    lazymatch goal with H : 0 <= zlen l |- _ => fail | _ => pose proof (zlen_nonneg l) end end.
  lia.
Qed.

(** Where [finish] leaves the header, the table and the tensors. *)
Lemma finish_layout w cs file :
  writer_inv sse42 w cs -> zlen (wtensors w) < 2 ^ 32 -> finish sse42 w = Ok file ->
  let table := encode (wtensors w) in
  read_exact_at file HEADER 0 = Ok (head48 sse42 (zlen (wtensors w)) (wdata_len w) table) /\
  read_exact_at file (zlen table) (ALIGN + wdata_len w) = Ok table /\
  ALIGN + wdata_len w + zlen table <= zlen file /\
  ALIGN + wdata_len w + zlen table < 2 ^ 64 /\ bytes_ok file /\
  Forall2 (stored sse42 file) (wtensors w) cs.
Proof.
  intros [Hwf Hst [Hdl Hdm] Hf He Hb] Hc. unfold finish. set (table := encode (wtensors w)).
  intros (f1 & H1 & H2)%bind_Ok. cbv zeta.
  pose proof (encode_ok _ _ Hwf) as Htok. fold table in Htok.
  pose proof (zlen_nonneg (wtensors w)). pose proof (zlen_nonneg table). pose proof (zlen_nonneg f1).
  assert (Hoff : 0 <= ALIGN + wdata_len w) by (unfold ALIGN; lia).
  rewrite header_eq in H2 by (unfold ALIGN; lia).
  set (hd := head48 _ _ _ _) in *.
  assert (Hhl : zlen (hd ++ zrep (ALIGN - 48) 0) = ALIGN).
  { rewrite zlen_app, zlen_zrep by (unfold ALIGN; lia). subst hd. rewrite head48_len.
    unfold ALIGN. lia. }
  pose proof (write_all_at_len _ _ _ _ Hoff H1) as L1.
  pose proof (write_all_at_len _ _ _ _ (Z.le_refl 0) H2) as L2.
  rewrite Hhl in L2. change (ALIGN =? 0) with false in L2. cbn iota in L2.
  assert (Htl : ALIGN + wdata_len w + zlen table < 2 ^ 64 /\
                ALIGN + wdata_len w + zlen table <= zlen file).
  { unfold write_all_at, max_offset in H1. destruct (Z.eqb_spec (zlen table) 0) as [E|E].
    - destruct (wtensors w) eqn:Ew.
      + rewrite (He eq_refl) in *. unfold ALIGN in *. lia.
      + pose proof (encode_nonempty (t :: l) ltac:(done)). subst table. lia.
    - destruct (Z.ltb_spec (2 ^ 63 - 1) (ALIGN + wdata_len w + zlen table)); [done|].
      unfold ALIGN in *. lia. }
  assert (Hh : read_exact_at file HEADER 0 = Ok hd).
  { pose proof (read_write_same _ _ _ _ (Z.le_refl 0) H2) as R. rewrite Hhl in R.
    destruct (read_exact_at_Ok file ALIGN 0 _ ltac:(by unfold ALIGN) R) as [[_ ?]|[_ S]]; [done|].
    apply (zslice_sub _ _ 0 ALIGN 0 48) in S; [|by unfold ALIGN..].
    unfold read_exact_at, HEADER. cbn [Z.eqb]. apply ok_or_Ok.
    change (0 + 48) with (0 + 0 + 48). change 0 with (0 + 0) at 1.
    rewrite S, zdrop_0. apply (f_equal Some), ztake_app. subst hd. by rewrite head48_len. }
  split_and!; [done| |lia|lia| |].
  - eapply read_write_other; [|exact H2|done| |by eapply read_write_same]; [lia|].
    right. rewrite Hhl. unfold ALIGN. lia.
  - eapply write_all_at_ok; [|  |exact H2].
    + eapply write_all_at_ok; [exact Hb|exact Htok|exact H1].
    + apply Forall_app_2; [apply head48_ok|]. by apply Forall_replicate.
  - apply Forall2_same_length_lookup. split; [by eapply Forall2_length|].
    intros i t c Ht Hci. pose proof (proj1 (Forall_lookup _ _) Hwf i t Ht) as [].
    eapply stored_write; [|exact H2|lia| |]; [lia|right; rewrite Hhl; unfold ALIGN; lia|].
    eapply stored_write; [exact Hoff|exact H1|lia| |]; [left; lia|].
    by eapply (Forall2_lookup_lr _ _ _ i).
Qed.

Lemma index_finish w cs file :
  writer_inv sse42 w cs -> zlen (wtensors w) < 2 ^ 32 -> finish sse42 w = Ok file ->
  index sse42 file = Ok (wtensors w, wdata_len w).
Proof.
  intros Hinv Hc Hfin. pose proof (zlen_nonneg (wtensors w)).
  destruct (finish_layout _ _ _ Hinv Hc Hfin) as (Hh&Ht&Hsize&Htl&_&_).
  destruct Hinv as [Hwf _ [Hdl Hdm] _ _ _]. pose proof (encode_ok _ _ Hwf) as Htok.
  set (table := encode (wtensors w)) in *. pose proof (zlen_nonneg table).
  unfold index. rewrite Hh. cbn [mbind outcome_bind].
  pose proof (head_fields sse42 (zlen (wtensors w)) (wdata_len w) table [] ltac:(lia)
    ltac:(unfold ALIGN in *; lia) ltac:(unfold ALIGN in *; lia) Htok ltac:(done)) as F.
  rewrite app_nil_r in F. cbv zeta in F.
  destruct (take 8 _) as [magic c1]. destruct (int 8 c1) as [version c2].
  destruct (int 8 c2) as [dl c3]. destruct (int 8 c3) as [table_at c4].
  destruct (int 8 c4) as [table_len c5]. destruct (int 4 c5) as [table_crc c6].
  destruct (int 4 c6) as [head_crc c7]. destruct F as (->&->&->&->&->&->&->).
  pose proof (crc32c_fits sse42 0 table ltac:(done) Htok).
  pose proof (crc32c_fits sse42 0 _ ltac:(done) (head44_ok sse42 (zlen (wtensors w)) (wdata_len w) table)).
  unfold head48. rewrite (ztake_app (HEADER - 4)) by by rewrite head44_len.
  rewrite !(wrap_id 32 (crc32c _ _ _)) by done. rewrite !Z.eqb_refl.
  rewrite (wrap_id 64 (ALIGN + _)) by (unfold fits, ALIGN in *; lia). rewrite Z.eqb_refl.
  rewrite Hdm.
  assert (Hck : checked 64 (ALIGN + wdata_len w + zlen table)
                = Some (ALIGN + wdata_len w + zlen table)).
  { apply checked_Some. split; [done|]. unfold ALIGN in *. lia. }
  rewrite Hck.
  rewrite (proj2 (Z.leb_le _ _) Hsize). rewrite bool_decide_true by done.
  assert (Hv : wrap 32 (1 + zlen (wtensors w) * 2 ^ 32) = VERSION).
  { unfold wrap. by rewrite Z.mod_add by lia. }
  assert (Hn : Z.shiftr (1 + zlen (wtensors w) * 2 ^ 32) 32 = zlen (wtensors w)).
  { rewrite Z.shiftr_div_pow2 by lia. by rewrite Z.div_add by lia. }
  rewrite Hv, Hn, Z.eqb_refl. cbn [first_failure andb Z.eqb]. rewrite Ht.
  cbn [mbind outcome_bind negb]. unfold zlen at 2. rewrite Nat2Z.id.
  rewrite <- (app_nil_r table). subst table. rewrite decode_all_encode by done. by rewrite Z.eqb_refl.
Qed.
End Finish.

(** ** What [index] lets through *)
Lemma take_range n c x c' :
  take n c = (x, c') -> bytes_ok (rest c) -> bytes_ok x /\ bytes_ok (rest c').
Proof.
  unfold take, ztake, zdrop. intros H Hc. destruct (n <=? zlen (rest c)); simplify_eq; cbn;
    auto using Forall_take, Forall_drop.
Qed.

Lemma int_range n c v c' : int n c = (v, c') -> bytes_ok (rest c) -> u64 v /\ bytes_ok (rest c').
Proof.
  unfold int. intros H Hc. destruct (take n c) as [x c1] eqn:E. simplify_eq.
  apply take_range in E as [Hx Hc1]; [|done]. split; [|done].
  rewrite be_fold_val by (lia || by apply Forall_rev). by apply wrap_fits.
Qed.

Lemma ints_range k n c vs c' :
  ints k n c = (vs, c') -> bytes_ok (rest c) -> Forall u64 vs /\ length vs = k /\ bytes_ok (rest c').
Proof.
  revert c vs c'. induction k as [|k IH]; cbn; intros c vs c' H Hc; [by simplify_eq|].
  destruct (int n c) as [v c1] eqn:E1. destruct (ints k n c1) as [vs' c2] eqn:E2. simplify_eq.
  apply int_range in E1 as [Hv Hc1]; [|done]. apply IH in E2 as (Hvs&Hk&Hc2); [|done].
  split_and!; [by constructor|cbn; lia|done].
Qed.

(** The checks of a table entry, as what they say of the tensor. *)
Record tensor_sound (dl : Z) (t : Tensor) : Prop := {
  sound_shape : Forall u64 (shape t) /\ zlen (shape t) <= MAX_RANK;
  sound_align : offset t mod ALIGN = 0;
  sound_len : bytes_of (dtype t) (shape t) = Some (len t);
  sound_inside : 0 <= offset t /\ 0 <= len t /\ offset t + len t <= dl;
}.

Lemma decode_sound c dl t c' :
  decode c dl = (Ok t, c') -> bytes_ok (rest c) -> tensor_sound dl t /\ bytes_ok (rest c').
Proof.
  unfold decode. intros H Hc.
  destruct (int 2 c) as [nl c1] eqn:E1. apply int_range in E1 as [_ Hc1]; [|done].
  destruct (take nl c1) as [raw c2] eqn:E2. apply take_range in E2 as [_ Hc2]; [|done].
  destruct (int 1 c2) as [d c3] eqn:E3. apply int_range in E3 as [_ Hc3]; [|done].
  destruct (int 1 c3) as [rank c4] eqn:E4. apply int_range in E4 as [Hrank Hc4]; [|done].
  destruct (ints _ 8 c4) as [sh c5] eqn:E5. apply ints_range in E5 as (Hsh&Hshl&Hc5); [|done].
  destruct (int 8 c5) as [off c6] eqn:E6. apply int_range in E6 as [Hoff Hc6]; [|done].
  destruct (int 8 c6) as [ln c7] eqn:E7. apply int_range in E7 as [Hln Hc7]; [|done].
  destruct (int 4 c7) as [cr c8] eqn:E8. apply int_range in E8 as [_ Hc8]; [|done].
  destruct (first_failure _) eqn:F; [done|]. apply first_failure_None in F.
  destruct (zget dtype_all d) as [dt|] eqn:Ed; [|done]. simplify_eq. split; [|done].
  rewrite !Forall_cons in F. cbn in F. destruct F as (_&_&Fr&Fo&Fl&Fe&_).
  apply bool_decide_eq_true in Fl. apply Z.eqb_eq in Fo. apply Z.leb_le in Fr.
  destruct (checked 64 (off + ln)) as [e|] eqn:Ce; [|done].
  apply checked_Some in Ce as [-> _]. apply Z.leb_le in Fe.
  constructor; cbn.
  - split; [done|]. unfold zlen, MAX_RANK, fits in *. rewrite Hshl. lia.
  - done.
  - done.
  - unfold fits in *. lia.
Qed.

Lemma decode_all_sound k c dl ts c' :
  decode_all k c dl = Ok (ts, c') -> bytes_ok (rest c) -> Forall (tensor_sound dl) ts.
Proof.
  revert c ts c'. induction k as [|k IH]; cbn [decode_all]; intros c ts c' H Hc; [by simplify_eq|].
  destruct (decode c dl) as [r c1] eqn:E.
  apply bind_Ok in H as (t & -> & H). apply decode_sound in E as [Ht Hc1]; [|done].
  apply bind_Ok in H as ([ts' c2] & H & [= <- <-]). constructor; [done|]. by eapply IH.
Qed.

Lemma index_Ok sse42 file ts dl :
  bytes_ok file -> index sse42 file = Ok (ts, dl) ->
  u64 dl /\ dl mod ALIGN = 0 /\ Forall (tensor_sound dl) ts /\
  (ALIGN + dl < 2 ^ 64 -> ALIGN + dl <= zlen file).
Proof.
  intros Hf. unfold index. intros (head & Hh & H)%bind_Ok.
  pose proof (read_exact_at_ok _ _ _ _ Hf Hh) as Hhok.
  destruct (take 8 _) as [magic c1] eqn:E1. apply take_range in E1 as [_ Hc1]; [|done].
  destruct (int 8 c1) as [version c2] eqn:E2. apply int_range in E2 as [_ Hc2]; [|done].
  destruct (int 8 c2) as [dl' c3] eqn:E3. apply int_range in E3 as [Hdl Hc3]; [|done].
  destruct (int 8 c3) as [table_at c4] eqn:E4. apply int_range in E4 as [_ Hc4]; [|done].
  destruct (int 8 c4) as [table_len c5] eqn:E5. apply int_range in E5 as [Htl Hc5]; [|done].
  destruct (int 4 c5) as [table_crc c6]. destruct (int 4 c6) as [head_crc c7].
  destruct (first_failure _) eqn:F; [done|]. apply first_failure_None in F.
  rewrite !Forall_cons in F. cbn in F. destruct F as (_&_&_&Fd&Fs&_).
  apply andb_true_iff in Fd as [Fd Ft]. apply Z.eqb_eq in Fd, Ft.
  destruct (checked 64 _) as [e|] eqn:Ce; [|done].
  apply checked_Some in Ce as [-> _]. apply Z.leb_le in Fs.
  apply bind_Ok in H as (table & Ht & H).
  pose proof (read_exact_at_ok _ _ _ _ Hf Ht) as Htok.
  destruct (negb _); [done|]. apply bind_Ok in H as ([ts' c8] & H & H').
  destruct (zlen (rest c8) =? 0); [|done]. simplify_eq. split_and!; [done..| |].
  - by eapply decode_all_sound.
  - intros Hlt. rewrite wrap_id in Fs; unfold fits, ALIGN in *; lia.
Qed.

(** ** A whole file *)
Record entry := mkEntry { e_name : list Z; e_dtype : Dtype; e_shape : list Z; e_bytes : list Z }.

Definition entry_ok (e : entry) : Prop :=
  utf8_valid (e_name e) /\ Forall u64 (e_shape e) /\ bytes_ok (e_bytes e).

(** A writer used as its documentation says: tensors one by one, then
    [finish]. *)
Fixpoint add_all (sse42 : bool) (w : Writer) (es : list entry) : result Writer :=
  match es with
  | [] => Ok w
  | e :: es =>
      w ← add sse42 w (e_name e) (e_dtype e) (e_shape e) (e_bytes e);
      add_all sse42 w es
  end.

Definition write_file (sse42 : bool) (es : list entry) : result (list Z) :=
  w ← add_all sse42 create es;
  finish sse42 w.

(** Tensor [t] of [file] is what entry [e] asked to store. *)
Definition holds (file : list Z) (t : Tensor) (e : entry) : Prop :=
  name t = e_name e /\ dtype t = e_dtype e /\ shape t = e_shape e /\
  offset t mod ALIGN = 0 /\
  read_exact_at file (len t) (ALIGN + offset t) = Ok (e_bytes e).

Lemma add_Ok sse42 w nm d sh bytes w' :
  add sse42 w nm d sh bytes = Ok w' ->
  wtensors w' = wtensors w ++ [mkTensor nm d sh (wdata_len w) (zlen bytes) (crc32c sse42 0 bytes)].
Proof.
  unfold add. case_match; [done|]. intros (file & _ & [= <-])%bind_Ok. done.
Qed.

Lemma add_all_inv sse42 es w cs w' :
  writer_inv sse42 w cs -> Forall entry_ok es -> add_all sse42 w es = Ok w' ->
  writer_inv sse42 w' (cs ++ map e_bytes es) /\
  exists ts, wtensors w' = wtensors w ++ ts /\
    Forall2 (fun t e => name t = e_name e /\ dtype t = e_dtype e /\ shape t = e_shape e) ts es.
Proof.
  revert w cs. induction es as [|e es IH]; cbn; intros w cs Hinv Hes H.
  { simplify_eq. rewrite app_nil_r. split; [done|]. exists []. by rewrite app_nil_r. }
  apply Forall_cons in Hes as [(Hn&Hs&Hb) Hes]. apply bind_Ok in H as (w1 & H1 & H).
  pose proof (add_Ok _ _ _ _ _ _ _ H1) as Ht.
  apply (add_inv _ _ cs) in H1; [|done..].
  apply (IH _ _ H1 Hes) in H as [Hinv' (ts & Hts & Hall)]. rewrite <- app_assoc in Hinv'.
  split; [done|]. eexists (_ :: ts). rewrite Hts, Ht, <- app_assoc. split; [done|].
  by constructor.
Qed.

Lemma write_file_spec sse42 es file :
  Forall entry_ok es -> zlen es < 2 ^ 32 -> write_file sse42 es = Ok file ->
  exists ts dl, index sse42 file = Ok (ts, dl) /\ Forall2 (holds file) ts es /\
    verify sse42 file ts = Ok tt.
Proof.
  intros Hes Hn. unfold write_file. intros (w & Hadd & Hfin)%bind_Ok.
  apply (add_all_inv sse42 es create []) in Hadd as [Hinv (ts & Hts & Hall)];
    [|apply create_inv|done].
  cbn in Hinv, Hts. pose proof (Forall2_length _ _ _ Hall) as Hlen.
  assert (Hc : zlen (wtensors w) < 2 ^ 32) by (unfold zlen in *; rewrite Hts; lia).
  destruct (finish_layout _ _ _ _ Hinv Hc Hfin) as (_&_&_&_&_&Hst).
  exists ts, (wdata_len w). rewrite <- Hts in *.
  split; [by eapply index_finish|]. change (map e_bytes es) with (e_bytes <$> es) in Hst.
  rewrite Forall2_fmap_r in Hst.
  destruct Hinv as [Hwf _ _ _ _ _]. split.
  - apply Forall2_same_length_lookup. split; [done|]. intros i t e Ht He.
    pose proof (Forall2_lookup_lr _ _ _ i t e Hall Ht He) as (?&?&?).
    pose proof (Forall2_lookup_lr _ _ _ i t e Hst Ht He) as (?&?&?&?).
    pose proof (proj1 (Forall_lookup _ _) Hwf i t Ht) as [? ? ? ? [? ?] ? ? ?].
    split_and!; done.
  - apply (verify_iff _ _ _ (e_bytes <$> es)); apply Forall2_fmap_r;
      (eapply Forall2_impl; [exact Hst|]); intros t e (Hl&Hb&Hcr&Hr).
    + pose proof (zlen_nonneg (e_bytes e)). split_and!; [done|lia|done].
    + by rewrite Hcr, crc32c_soft_eq.
Qed.

(** ** Properties *)

(** C1. What a [Writer] wrote reads back: for any list of tensors whose
    [add]s and [finish] succeed, opening the file's index succeeds and gives
    the same tensors in order (name, type, shape), every one on a 4 KiB
    boundary with exactly its bytes stored at its offset, and [verify]
    accepts the file. *)
Theorem written_file_reads_back (sse42 : bool) (es : list entry) (file : list Z) :
  Forall entry_ok es -> zlen es < 2 ^ 32 -> write_file sse42 es = Ok file ->
  exists ts dl, index sse42 file = Ok (ts, dl) /\ Forall2 (holds file) ts es /\
    verify sse42 file ts = Ok tt.
Proof. apply write_file_spec. Qed.

Definition sample : list entry :=
  [ mkEntry [119] F16 [2] [1; 2; 3; 4]; mkEntry [98] U8 [3] [7; 8; 9] ].

Lemma written_file_reads_back_witness :
  match write_file true sample with
  | Ok file => exists ts dl, index true file = Ok (ts, dl) /\ Forall2 (holds file) ts sample /\
                 verify true file ts = Ok tt
  | _ => False
  end.
Proof.
  assert (G : ok (write_file true sample) = None -> False) by (vm_compute; discriminate).
  destruct (write_file true sample) as [file|e|] eqn:E; [|by apply G..].
  apply (written_file_reads_back true sample file); [|done|done].
  repeat constructor; cbn; unfold fits; (lia || by eexists).
Defined.


Definition sample_file : list Z := default [] (ok (write_file true sample)).

Definition sample_tensors : list Tensor :=
  [ mkTensor [119] F16 [2] 0 4 (crc32c_soft 0 [1; 2; 3; 4]);
    mkTensor [98] U8 [3] 4096 3 (crc32c_soft 0 [7; 8; 9]) ].

Lemma sample_index : index true sample_file = Ok (sample_tensors, 8192).
Proof. vm_compute. reflexivity. Qed.

Lemma sample_ok : bytes_ok sample_file.
Proof.
  apply (bool_decide_eq_true (Forall (fun b => 0 <= b < 256) sample_file)). vm_compute. reflexivity.
Qed.


(** [verify] accepts an opened file exactly when every tensor's bytes have
    the checksum its table entry records, whatever its length: the checksum of
    16 MiB pieces is the checksum of the whole. *)
Theorem verify_is_exact (sse42 : bool) (file : list Z) (ts : list Tensor) (dl : Z) :
  bytes_ok file -> index sse42 file = Ok (ts, dl) -> ALIGN + dl < 2 ^ 64 ->
  verify sse42 file ts = Ok tt <->
  Forall (fun t => exists b,
    zslice file (ALIGN + offset t) (ALIGN + offset t + len t) = Some b /\
    crc32c_soft 0 b = crc t) ts.
Proof.
  intros Hf H Hlt. apply index_Ok in H as (_&_&Hall&Hsize); [|done]. specialize (Hsize Hlt).
  assert (exists bs, Forall2 (fun t b => (bytes_ok b /\ 0 <= len t /\
    read_exact_at file (len t) (ALIGN + offset t) = Ok b) /\
    zslice file (ALIGN + offset t) (ALIGN + offset t + len t) = Some b) ts bs) as [bs Hbs].
  { clear -Hf Hall Hsize. induction Hall as [|t ts [_ _ _ Hin] Hts [bs IH]]; [by exists []|].
    destruct (zslice file (ALIGN + offset t) (ALIGN + offset t + len t)) as [b|] eqn:E.
    2:{ apply zslice_None in E; unfold ALIGN in *; lia. }
    exists (b :: bs). constructor; [|done]. split; [|done].
    assert (R : read_exact_at file (len t) (ALIGN + offset t) = Ok b).
    { unfold read_exact_at. destruct (Z.eqb_spec (len t) 0) as [L|L]; [|by rewrite E].
      apply zslice_len in E. rewrite (zlen_zero b); [done|lia]. }
    split_and!; [by eapply read_exact_at_ok|lia|done]. }
  rewrite (verify_iff sse42 file ts bs) by (eapply Forall2_impl; [exact Hbs|naive_solver]).
  clear -Hbs. induction Hbs as [|t b ts bs [_ Hz] Hbs IH]; [done|].
  rewrite Forall2_cons, Forall_cons, IH. rewrite Hz. naive_solver.
Qed.

Lemma verify_is_exact_witness :
  verify true sample_file sample_tensors = Ok tt <->
  Forall (fun t => exists b,
    zslice sample_file (ALIGN + offset t) (ALIGN + offset t + len t) = Some b /\
    crc32c_soft 0 b = crc t) sample_tensors.
Proof.
  exact (verify_is_exact true sample_file sample_tensors 8192 sample_ok sample_index eq_refl).
Defined.

(** A 4 KiB file whose header says its data region is [2^64 - 4096] bytes:
    the sum [ALIGN + data_len] wraps to the table offset 0 it gives. *)
Definition wrapped_file : list Z := header true 0 (2 ^ 64 - 4096) [].

