(* ===== verification/Engine.v ===== *)
(** * The engine: models on one GPU ([engine.rs])

    The engine's bookkeeping: which models are in VRAM, parked in pinned host
    memory or only on disk, under a VRAM limit and a host limit; keep-alives,
    pins, eviction of the least recently used; the chat call and the stream of
    its answer. [Decoder] and [Parked] ([model/decode.rs]) keep what the
    bookkeeping reads of them: the bytes they hold.

    The GPU, the clock and the model directories are a [World]: [driver n] is
    the failure of the [n]-th GPU operation, if it fails, [clock n] the [n]-th
    reading of [Instant::now], [disk d] what the directory [d] holds. Operations run in
    [EM]: an engine is passed along, and an error keeps what was already
    changed, as [&mut self] does. *)
From S2P Require Import Prelude.

(** ** Decoders and parked models ([model/decode.rs]) *)
Record Settings := mkSettings { context : Z; chunk : Z }.

(** A decoder in VRAM: the lengths of its weights ([mem.0]), of its pinned
    host table ([mem.1]), and of the copy of the weights it kept ([shadow]). *)
Record Decoder := mkDecoder { weights : Z; host_table : Z; shadow : option Z }.
Record Parked := mkParked { p_weights : Z; p_host : Z }.

Definition parked_bytes (d : Decoder) : Z := weights d + host_table d.
Definition shadow_bytes (d : Decoder) : Z := default 0 (shadow d).
Definition drop_shadow (d : Decoder) : Decoder := mkDecoder (weights d) (host_table d) None.
Definition p_bytes (p : Parked) : Z := p_weights p + p_host p.

(** [Decoder::park]: the kept copy, or a new one of the weights' length. *)
Definition park (d : Decoder) : Parked :=
  match shadow d with
  | Some kept => mkParked kept (host_table d)
  | None => mkParked (weights d) (host_table d)
  end.

(** [Parked::resume]: the pinned copy stays with the decoder. *)
Definition resume (p : Parked) : Decoder :=
  mkDecoder (p_weights p) (p_host p) (Some (p_weights p)).

(** ** The engine's data *)
Inductive Place := Vram (d : Decoder) | Host (p : Parked) | Disk.
Inductive Tier := TVram | THost | TDisk.

Record Load := mkLoad { settings : Settings; keep_alive : Z; pin : bool; budget : Z }.

(** A loaded model. [ends] are the tokens that end an answer; [vision] and
    [audio] the bytes of its towers, once they are in VRAM. *)
Record Model := mkModel {
  m_name : list Z; m_dir : list Z; m_load : Load; ends : list Z; need : Z;
  used_at : Z; until : option Z; at_ : Place; vision : option Z; audio : option Z;
}.

Record Held := mkHeld {
  h_name : list Z; enc_bytes : Z; h_keep : Z; h_pin : bool; h_until : option Z;
}.

(** The engine; [ticks] numbers what it asks of the clock and of the GPU. *)
Record Engine := mkEngine {
  models : list Model; encoders : list Held; vram_limit : Z; host_limit : Z;
  prompt : list Z; ticks : nat;
}.

(** [Engine::new] with the given limits, or 70% of the GPU's memory and half
    of the machine's. *)
Definition new (vram host : option Z) (total ram : Z) : Engine :=
  mkEngine [] [] (default (total / 10 * 7) vram) (default (ram / 2) host) [] 0.

Definition set_at (m : Model) (p : Place) : Model :=
  mkModel (m_name m) (m_dir m) (m_load m) (ends m) (need m) (used_at m) (until m) p (vision m) (audio m).
Definition set_towers (m : Model) (v a : option Z) : Model :=
  mkModel (m_name m) (m_dir m) (m_load m) (ends m) (need m) (used_at m) (until m) (at_ m) v a.
Definition set_times (m : Model) (u : Z) (t : option Z) : Model :=
  mkModel (m_name m) (m_dir m) (m_load m) (ends m) (need m) u t (at_ m) (vision m) (audio m).

Definition set_models (e : Engine) (ms : list Model) : Engine :=
  mkEngine ms (encoders e) (vram_limit e) (host_limit e) (prompt e) (ticks e).
Definition set_encoders (e : Engine) (hs : list Held) : Engine :=
  mkEngine (models e) hs (vram_limit e) (host_limit e) (prompt e) (ticks e).
Definition set_prompt (e : Engine) (p : list Z) : Engine :=
  mkEngine (models e) (encoders e) (vram_limit e) (host_limit e) p (ticks e).
Definition set_model (e : Engine) (i : nat) (m : Model) : Engine :=
  set_models e (<[i := m]> (models e)).
Definition tick (e : Engine) : Engine :=
  mkEngine (models e) (encoders e) (vram_limit e) (host_limit e) (prompt e) (S (ticks e)).

Definition in_vram (m : Model) : bool := match at_ m with Vram _ => true | _ => false end.
Definition towers (m : Model) : Z := default 0 (vision m) + default 0 (audio m).
Definition on_disk (m : Model) : bool := match at_ m with Disk => true | _ => false end.

(** A message, as far as the engine looks: who speaks, and the images and
    clips it shows (opaque here). *)
Inductive Role := System | User | RModel.
Record Message := mkMessage { role : Role; content : list Z; images : list Z; clips : list Z }.

(** What a model directory holds, as far as the engine looks: what opening
    each of its parts gives. *)
Record Files := mkFiles {
  is_encoder : result bool;                (** [config.json] reads as an encoder's *)
  text_files : result (list Z);            (** tokenizer and template: the end tokens *)
  footprint : Settings -> result Z;        (** [model::footprint] *)
  dec_sizes : Z * Z;                       (** the decoder's weights and host table *)
  enc_footprint : result Z;                (** [encoder::footprint] *)
  enc_size : Z;                            (** [Encoder::bytes] once open *)
  vision_size : option Z;                  (** the vision tower's bytes, if [vision.wpk] is there *)
  audio_size : option Z;                   (** the audio tower's, if [audio.wpk] is there *)
  tower_width : Z * Z;                     (** [Vision::width] and [Tower::width] *)
  marks : option Z * option Z;             (** the chat's image and audio tokens *)
  see : Z -> Z -> result (list Z);         (** [Vision::soft_tokens] of an image at a budget *)
  hear : Z -> result (list Z);             (** [Tower::soft_tokens] of a clip *)
  template : list Message -> bool -> list Z;  (** [Chat::encode] *)
}.

(** [Instant::checked_add]: the time must fit its seconds. *)
Definition max_instant : Z := 2 ^ 63 * 1000000000.
Definition later (t keep : Z) : option Z := if t + keep <? max_instant then Some (t + keep) else None.

(** [min_by_key]: the first of the least. *)
Fixpoint min_by_key {A} (key : A -> Z) (l : list A) : option A :=
  match l with
  | [] => None
  | x :: l =>
      match min_by_key key l with
      | None => Some x
      | Some y => if key y <? key x then Some y else Some x
      end
  end.

Definition zsum {A} (f : A -> Z) (l : list A) : Z := foldr (fun x s => f x + s) 0 l.
Arguments zsum : simpl never.

Definition indexed {A} (l : list A) : list (nat * A) := imap (fun i x => (i, x)) l.

(** ** Soft tokens in a prompt *)
Definition marked (mk : option Z * option Z) (t : Z) : bool :=
  bool_decide (fst mk = Some t) || bool_decide (snd mk = Some t).

Fixpoint take_while {A} (f : A -> bool) (l : list A) : list A :=
  match l with [] => [] | x :: l => if f x then x :: take_while f l else [] end.

(** The runs of marks, each as its first position and its length; [p] is the
    position of [prompt]'s first token and [prev] the token before it. *)
Fixpoint runs (mk : option Z * option Z) (p : Z) (prev : option Z) (prompt : list Z) : list (Z * Z) :=
  match prompt with
  | [] => []
  | t :: rest =>
      if marked mk t && negb (bool_decide (prev = Some t))
      then (p, zlen (take_while (Z.eqb t) (t :: rest))) :: runs mk (p + 1) (Some t) rest
      else runs mk (p + 1) (Some t) rest
  end.

Definition slots (prompt : list Z) (mk : option Z * option Z) (soft : list (list Z)) (width : Z)
  : result (list (Z * list Z)) :=
  let rs := runs mk 0 None prompt in
  if negb (zlen rs =? zlen soft)
     || existsb (fun '(r, s) => negb (snd r * width =? zlen s)) (zip rs soft)
  then Err (Media [Num (zlen rs); Lit " images and clips in the prompt, but "; Num (zlen soft);
                   Lit " sets of soft tokens"])
  else Ok (map (fun '(r, s) => (fst r, s)) (zip rs soft)).

(** ** The engine monad *)
Definition EM (A : Type) : Type := Engine -> result A * Engine.
#[global] Instance EM_ret : MRet EM := fun A a e => (Ok a, e).
#[global] Instance EM_bind : MBind EM := fun A B k m e =>
  match m e with
  | (Ok a, e) => k a e
  | (Err x, e) => (Err x, e)
  | (Panic, e) => (Panic, e)
  end.

Definition get : EM Engine := fun e => (Ok e, e).
Definition put (e : Engine) : EM unit := fun _ => (Ok tt, e).
Definition lift {A} (r : result A) : EM A := fun e => (r, e).

(** ** What the engine asks of a detokenizer

    [push] turns one token of a model into the text it completes, [finish]
    gives what is left; once finished, nothing is left. *)
Class Detok (D : Type) := {
  detok_new : D;
  push : list Z -> D -> Z -> D * list Z;
  finish : D -> D * list Z;
  finish_finish : forall d, snd (finish (fst (finish d))) = [];
}.

(** ** What the engine runs on

    The model directories, the readings of the clock, the failures of the GPU
    and the tokens it samples: each numbered by [ticks]. *)
Class World := {
  disk : list Z -> Files;
  clock : nat -> Z;
  driver : nat -> option error;
  sampled : nat -> Z;
}.

Section Engine.
Context `{W : World}.

(** [Instant::now]. *)
Definition now : EM Z := fun e => (Ok (clock (ticks e)), tick e).

(** A GPU operation: it succeeds, or fails with the driver's error. *)
Definition gpu : EM unit := fun e =>
  (match driver (ticks e) with None => Ok tt | Some x => Err x end, tick e).

Definition model_at (i : nat) : EM Model :=
  e ← get; lift (or_panic (models e !! i)).

(** [VRAM the resident models take, encoders included]. *)
Definition used (e : Engine) : Z :=
  let encs := zsum enc_bytes (encoders e) in
  let tows := zsum towers (models e) in
  encs + tows + zsum need (filter (fun m => in_vram m = true) (models e)).

Definition held (m : Model) : Z :=
  match at_ m with Host p => p_bytes p | Vram d => shadow_bytes d | Disk => 0 end.
Definition hosted (e : Engine) : Z := zsum held (models e).

Definition holds_pinned (m : Model) : bool :=
  match at_ m with Host _ => true | Vram d => 0 <? shadow_bytes d | Disk => false end.

(** One round of [evict]'s loop: the least recently used holder of pinned
    memory lets it go. *)
Definition free_pinned (e : Engine) : option Engine :=
  match min_by_key (fun p => used_at (snd p))
          (filter (fun p => holds_pinned (snd p) = true) (indexed (models e))) with
  | Some (j, m) =>
      match at_ m with
      | Vram d => Some (set_model e j (set_at m (Vram (drop_shadow d))))
      | _ => Some (set_model e j (set_at m Disk))
      end
  | None => None
  end.

(** [while self.hosted() + bytes > self.limits[1]]. *)
Fixpoint make_host_room (fuel : nat) (bytes : Z) (e : Engine) : Engine :=
  match fuel with
  | O => e
  | S fuel =>
      if hosted e + bytes >? host_limit e then
        match free_pinned e with
        | Some e => make_host_room fuel bytes e
        | None => e
        end
      else e
  end.

Definition on_model (i : nat) (f : Model -> Model) : EM unit :=
  m ← model_at i; e ← get; put (set_model e i (f m)).

Definition to_disk (m : Model) : Model := set_at (set_towers m None None) Disk.

(** The end of [evict]: the model's weights go to the host tier, whose room
    is made first. *)
Definition park_at (i : nat) (dec : Decoder) : EM unit :=
  e ← get;
  put (make_host_room (S (length (models e))) (parked_bytes dec) e) ≫= fun _ =>
  gpu ≫= fun _ => on_model i (fun m => set_at m (Host (park dec))).

Definition evict (i : nat) : EM unit :=
  m ← model_at i;
  on_model i to_disk ≫= fun _ =>
  e ← get;
  match at_ m with
  | Vram dec => if parked_bytes dec >? host_limit e then mret tt else park_at i dec
  | _ => mret tt
  end.

Definition may_go (keep : option nat) (p : nat * Model) : bool :=
  negb (bool_decide (Some (fst p) = keep)) && negb (pin (m_load (snd p))) && in_vram (snd p).

(** [room]: the loop is bounded by the models there are to move out. *)
Fixpoint room (fuel : nat) (need_ : Z) (keep : option nat) : EM unit :=
  e ← get;
  if used e + need_ >? vram_limit e then
    match min_by_key (fun p => used_at (snd p))
            (filter (fun p => may_go keep p = true) (indexed (models e))) with
    | Some (j, _) =>
        match fuel with
        | O => lift Panic
        | S fuel => evict j ≫= fun _ => room fuel need_ keep
        end
    | None => lift (Err (OutOfMemory need_ (Z.max 0 (vram_limit e - used e))))
    end
  else mret tt.
Definition make_room (need_ : Z) (keep : option nat) : EM unit :=
  e ← get; room (length (models e)) need_ keep.

(** [bring]: on an error the model is left on disk. *)
Definition bring (i : nat) : EM unit :=
  m ← model_at i;
  on_model i (fun m => set_at m Disk) ≫= fun _ =>
  dec ← match at_ m with
        | Vram dec => mret dec
        | Host p => gpu ≫= fun _ => mret (resume p)
        | Disk => gpu ≫= fun _ =>
                  let '(w, h) := dec_sizes (disk (m_dir m)) in mret (mkDecoder w h None)
        end;
  on_model i (fun m => set_at m (Vram dec)).

Definition resident (i : nat) : EM unit :=
  m ← model_at i;
  (if in_vram m then mret tt else make_room (need m) (Some i)) ≫= fun _ => bring i.

(** [Engine::unload]; what [trim] says is ignored. *)
Definition unload (nm : list Z) : EM bool := fun e =>
  let e' := tick $ set_encoders (set_models e (filter (fun m => m_name m <> nm) (models e)))
              (filter (fun h => h_name h <> nm) (encoders e)) in
  (Ok (bool_decide (length (models e') + length (encoders e')
                    < length (models e) + length (encoders e))%nat), e').

Definition expired (now_ : Z) (m : Model) : bool :=
  negb (on_disk m) && negb (pin (m_load m))
  && match until m with Some t => t <=? now_ | None => false end.

(** The loop of [expire]: a failing [stop] ends it where it is. *)
Fixpoint expire_from (now_ : Z) (i n : nat) (freed : bool) : EM bool :=
  match n with
  | O => mret freed
  | S n =>
      m ← model_at i;
      if expired now_ m then
        (if in_vram m then gpu else mret tt) ≫= fun _ =>
        on_model i to_disk ≫= fun _ =>
        expire_from now_ (S i) n true
      else expire_from now_ (S i) n freed
  end.

Definition enc_alive (now_ : Z) (h : Held) : bool :=
  h_pin h || match h_until h with None => true | Some t => now_ <? t end.

Definition expire : EM unit :=
  t ← now;
  e ← get;
  freed ← expire_from t 0 (length (models e)) false;
  e ← get;
  let kept := filter (fun h => enc_alive t h = true) (encoders e) in
  put (set_encoders e kept) ≫= fun _ =>
  if freed || bool_decide (length kept < length (encoders e))%nat then gpu else mret tt.

Definition load_encoder (nm dir : list Z) (load : Load) : EM unit :=
  n ← lift (enc_footprint (disk dir));
  make_room n None ≫= fun _ =>
  gpu ≫= fun _ =>
  t ← now;
  e ← get;
  put (set_encoders e (encoders e ++
    [mkHeld nm (enc_size (disk dir)) (keep_alive load) (pin load) (later t (keep_alive load))])).

(** The end of [load]: a model that cannot come in is taken off the list. *)
Definition last_resident : EM unit := fun e =>
  match resident (length (models e) - 1) e with
  | (Err x, e) => (Err x, set_models e (take (length (models e) - 1) (models e)))
  | r => r
  end.

(** [Engine::load]. *)
Definition load (nm dir : list Z) (ld : Load) : EM unit :=
  unload nm ≫= fun _ =>
  expire ≫= fun _ =>
  enc ← lift (is_encoder (disk dir));
  if (enc : bool) then load_encoder nm dir ld
  else
    ends_ ← lift (text_files (disk dir));
    n ← lift (footprint (disk dir) (settings ld));
    _ ← now;
    t ← now;
    e ← get;
    let m := mkModel nm dir ld ends_ n t (later t (keep_alive ld)) Disk None None in
    put (set_models e (models e ++ [m])) ≫= fun _ => last_resident.

Definition position (nm : list Z) (ms : list Model) : option nat :=
  fst <$> list_find (fun m => m_name m = nm) ms.

(** [Engine::tier]. *)
Definition tier_of (m : Model) : Tier :=
  match at_ m with Vram _ => TVram | Host _ => THost | Disk => TDisk end.
Definition tier (e : Engine) (nm : list Z) : option Tier :=
  if bool_decide (Exists (fun h => h_name h = nm) (encoders e)) then Some TVram
  else (fun p => tier_of (snd p)) <$> list_find (fun m => m_name m = nm) (models e).

(** [Engine::models]. *)
Record Loaded := mkLoaded { l_name : list Z; l_tier : Tier; l_vram : Z; l_left : option Z }.
Definition left_of (now_ : Z) (pinned : bool) (t : option Z) : option Z :=
  if pinned then None else (fun t => Z.max 0 (t - now_)) <$> t.
Definition list_models : EM (list Loaded) :=
  t ← now;
  e ← get;
  mret (map (fun m => mkLoaded (m_name m) (default TDisk (tier e (m_name m)))
                        (if in_vram m then need m + towers m else 0)
                        (left_of t (pin (m_load m)) (until m))) (models e)
        ++ map (fun h => mkLoaded (h_name h) TVram (enc_bytes h) (left_of t (h_pin h) (h_until h)))
             (encoders e)).

(** [Engine::encoder]: its keep-alive started again. *)
Definition encoder (nm : list Z) : EM unit :=
  e ← get;
  match list_find (fun h => h_name h = nm) (encoders e) with
  | None => lift (Err (NoModel nm))
  | Some (j, h) =>
      t ← now;
      e ← get;
      put (set_encoders e (<[j := mkHeld (h_name h) (enc_bytes h) (h_keep h) (h_pin h)
                                   (later t (h_keep h))]> (encoders e)))
  end.

(** [Engine::decide] and [Engine::embed] up to the encoder's own work,
    which changes nothing here and may fail. *)
Definition ask_encoder (nm : list Z) : EM unit :=
  expire ≫= fun _ => encoder nm ≫= fun _ => gpu.

(** ** Chat *)

(** A GPU operation that gives a token. *)
Definition gpu_token : EM Z := t ← get; gpu ≫= fun _ => mret (sampled (ticks t)).

(** [Engine::vision]: a tower that is not there is opened, then room is made
    for it beside its model. *)
Definition no_tower (what kind : string) (dir : list Z) : error :=
  Unsupported [Lit "no "; Lit what; Lit " tower in "; Disp dir; Lit ": "; Lit kind].
Definition vision_tower (i : nat) : EM unit :=
  m ← model_at i;
  match vision m with
  | Some _ => mret tt
  | None =>
      match vision_size (disk (m_dir m)), fst (marks (disk (m_dir m))) with
      | Some bytes, Some _ =>
          gpu ≫= fun _ => make_room bytes (Some i) ≫= fun _ =>
          on_model i (fun m => set_towers m (Some bytes) (audio m))
      | _, _ => lift (Err (no_tower "vision" "images" (m_dir m)))
      end
  end.
(** [Engine::hearing]. *)
Definition hearing (i : nat) : EM unit :=
  m ← model_at i;
  match audio m with
  | Some _ => mret tt
  | None =>
      match audio_size (disk (m_dir m)), snd (marks (disk (m_dir m))) with
      | Some bytes, Some _ =>
          gpu ≫= fun _ => make_room bytes (Some i) ≫= fun _ =>
          on_model i (fun m => set_towers m (vision m) (Some bytes))
      | _, _ => lift (Err (no_tower "audio" "audio" (m_dir m)))
      end
  end.

Record Request := mkRequest {
  messages : list Message; think : bool; max_tokens : Z; req_keep : option Z;
}.

(** The messages whose images and clips the template shows. *)
Definition shown (p : nat * Message) : bool :=
  match role (snd p) with
  | User => true
  | System => bool_decide (0 < fst p)%nat
  | RModel => false
  end.

(** What the loops of [media] push, in order: images, then clips. *)
Inductive Shown := Image (x : Z) | Clip (x : Z).
Definition media_of (ms : list Message) : list Shown :=
  concat (map (fun p => map Image (images (snd p)) ++ map Clip (clips (snd p)))
            (filter (fun p => shown p = true) (indexed ms))).
Fixpoint media_from (i : nat) (budget_ : Z) (l : list Shown) (soft : list (list Z)) : EM (list (list Z)) :=
  match l with
  | [] => mret soft
  | x :: l =>
      s ← match x with
          | Image x => vision_tower i ≫= fun _ => m ← model_at i; lift (see (disk (m_dir m)) x budget_)
          | Clip x => hearing i ≫= fun _ => m ← model_at i; lift (hear (disk (m_dir m)) x)
          end;
      media_from i budget_ l (soft ++ [s])
  end.
Definition media (i : nat) (req : Request) : EM (list (list Z)) :=
  m ← model_at i; media_from i (budget (m_load m)) (media_of (messages req)) [].

(** [encode]: the conversation as the model's prompt, and where the soft
    tokens go in it. *)
Definition width_of (m : Model) : Z :=
  let '(v, a) := tower_width (disk (m_dir m)) in
  match vision m, audio m with Some _, _ => v | None, Some _ => a | None, None => 0 end.
Definition encode (m : Model) (req : Request) (soft : list (list Z)) : EM (list (Z * list Z)) :=
  e ← get;
  let p := template (disk (m_dir m)) (messages req) (think req) in
  put (set_prompt e p) ≫= fun _ =>
  if zlen p >=? context (settings (m_load m)) then
    lift (Err (TooLong (zlen p) (context (settings (m_load m)))))
  else lift (slots p (marks (disk (m_dir m))) soft (width_of m)).

(** [Model::dec]: only a model in VRAM has a decoder. *)
Definition dec_of (i : nat) : EM Decoder :=
  m ← model_at i; match at_ m with Vram d => mret d | _ => lift Panic end.

(** [feed]: reset, prefill, step, start. *)
Definition feed (i : nat) : EM Z :=
  dec_of i ≫= fun _ => gpu ≫= fun _ => gpu ≫= fun _ =>
  first ← gpu_token; gpu ≫= fun _ => mret first.

(** ** The answer's stream *)
Context {D : Type} `{!Detok D}.

Record TokenStream := mkStream {
  s_model : nat; s_keep : Z; detok : D; next : option Z; left : Z; tokens : Z;
}.

Definition chat (nm : list Z) (req : Request) : EM TokenStream :=
  expire ≫= fun _ =>
  e ← get;
  i ← lift (ok_or (position nm (models e)) (NoModel nm));
  resident i ≫= fun _ =>
  soft ← media i req;
  m ← model_at i;
  encode m req soft ≫= fun _ =>
  e ← get;
  first ← feed i;
  mret (mkStream i (default (keep_alive (m_load m)) (req_keep req)) detok_new (Some first)
          (Z.min (max_tokens req) (context (settings (m_load m)) - zlen (prompt e))) 0).

(** The token to show next: the one already known, or the decoder's. *)
Definition take_next (s : TokenStream) : EM Z :=
  match next s with Some t => mret t | None => dec_of (s_model s) ≫= fun _ => gpu_token end.

Definition token_and_model (s : TokenStream) : EM (Z * Model) :=
  t ← take_next s; m ← model_at (s_model s); mret (t, m).

(** The loop of [next_text], on a stream whose text is [txt]; every round but
    the last takes one from [left]. The stream, like the engine, is kept when
    a step fails. *)
Fixpoint next_loop (fuel : nat) (s : TokenStream) (txt : list Z) (e : Engine)
  : result (list Z) * TokenStream * Engine :=
  if bool_decide (txt = []) && (0 <? left s) then
    match fuel with
    | O => (Panic, s, e)
    | S fuel =>
        let '(r, e) := token_and_model s e in
        let s := mkStream (s_model s) (s_keep s) (detok s) None (left s) (tokens s) in
        match r with
        | Ok (t, m) =>
            if bool_decide (t ∈ ends m) then
              (Ok txt, mkStream (s_model s) (s_keep s) (detok s) None 0 (tokens s), e)
            else
              let '(d, out) := push (m_dir m) (detok s) t in
              next_loop fuel (mkStream (s_model s) (s_keep s) d None (left s - 1) (tokens s + 1))
                (txt ++ out) e
        | Err x => (Err x, s, e)
        | Panic => (Panic, s, e)
        end
    end
  else (Ok txt, s, e).

(** [TokenStream::next_text]. *)
Definition next_text (s : TokenStream) (e : Engine) : result (option (list Z)) * TokenStream * Engine :=
  match next_loop (Z.to_nat (left s)) s [] e with
  | (Ok t, s, e) =>
      let '(s, t) :=
        if left s =? 0 then
          let '(d, out) := finish (detok s) in
          (mkStream (s_model s) (s_keep s) d (next s) (left s) (tokens s), t ++ out)
        else (s, t) in
      (Ok (if bool_decide (t = []) then None else Some t), s, e)
  | (Err x, s, e) => (Err x, s, e)
  | (Panic, s, e) => (Panic, s, e)
  end.

(** [Model::touch]. *)
Definition touch (i : nat) (keep : Z) : EM unit :=
  t ← now; on_model i (fun m => set_times m t (later t keep)).

Definition ignore {A} (m : EM A) : EM unit := fun e =>
  match m e with
  | (Panic, e) => (Panic, e)
  | (_, e) => (Ok tt, e)
  end.

(** [TokenStream::drop]. *)
Definition drop_stream (s : TokenStream) : EM unit :=
  dec_of (s_model s) ≫= fun _ => ignore gpu ≫= fun _ =>
  touch (s_model s) (s_keep s) ≫= fun _ => ignore expire.
End Engine.
Arguments TokenStream D : clear implicits.
