(* ===== verification/Memory.v ===== *)
(** * The engine's memory ([engine.rs])

    The VRAM and host accounts of [Engine.v], under every operation: what
    moving a model does to them, that [room] finds room exactly when there is
    some, in the order of last use, and the invariant that all calls keep. *)
From S2P Require Import Prelude Engine.

(** ** Sums and least elements *)
Lemma zsum_cons {A} (f : A -> Z) x (l : list A) : zsum f (x :: l) = f x + zsum f l.
Proof. done. Qed.
Create Rewrite HintDb zsum.
#[global] Hint Rewrite @zsum_cons : zsum.
Ltac zsum := autorewrite with zsum in *; try lia.

Lemma zsum_insert {A} (f : A -> Z) (l : list A) j x y :
  l !! j = Some x -> zsum f (<[j := y]> l) = zsum f l - f x + f y.
Proof.
  revert j. induction l as [|z l IH]; intros [|j] Hj; simplify_eq/=; zsum.
  specialize (IH _ Hj). lia.
Qed.

Lemma zsum_app {A} (f : A -> Z) (l k : list A) : zsum f (l ++ k) = zsum f l + zsum f k.
Proof. induction l as [|x l IH]; [done|]. cbn [app]. zsum. Qed.

Lemma zsum_nonneg {A} (f : A -> Z) (l : list A) : Forall (fun x => 0 <= f x) l -> 0 <= zsum f l.
Proof. induction 1; [done|]. zsum. Qed.

Lemma zsum_le {A} (f g : A -> Z) (l : list A) :
  Forall (fun x => f x <= g x) l -> zsum f l <= zsum g l.
Proof. induction 1; [done|]. zsum. Qed.

Lemma zsum_add {A} (f g : A -> Z) (l : list A) :
  zsum (fun x => f x + g x) l = zsum f l + zsum g l.
Proof. induction l as [|x l IH]; [done|]. zsum. Qed.

Lemma zsum_filter {A} (f : A -> Z) (P : A -> bool) (l : list A) :
  zsum f (filter (fun x => P x = true) l) = zsum (fun x => if P x then f x else 0) l.
Proof.
  induction l as [|x l IH]; [done|]. rewrite filter_cons, zsum_cons.
  destruct (P x) eqn:Hx; case_decide; try congruence; zsum.
Qed.

Lemma zsum_ext_in {A} (f g : A -> Z) (l : list A) :
  (forall i x, l !! i = Some x -> f x = g x) -> zsum f l = zsum g l.
Proof.
  induction l as [|x l IH]; intros H; [done|]. zsum.
  rewrite (H 0%nat x eq_refl). rewrite IH; [done|]. intros i y Hi. by apply (H (S i)).
Qed.

Lemma zsum_map {A B} (f : B -> Z) (g : A -> B) (l : list A) :
  zsum f (map g l) = zsum (fun x => f (g x)) l.
Proof. induction l as [|x l IH]; [done|]. cbn [map]. zsum. Qed.

Lemma zsum_elem {A} (f : A -> Z) (l : list A) i x :
  Forall (fun x => 0 <= f x) l -> l !! i = Some x -> f x <= zsum f l.
Proof.
  intros Hl. revert i. induction Hl as [|z l Hz Hl IH]; intros [|i] Hi; simplify_eq/=; zsum.
  - pose proof (zsum_nonneg _ _ Hl). lia.
  - specialize (IH _ Hi). lia.
Qed.

Lemma zsum_rel {A B} (f : A -> Z) (g : B -> Z) l l' :
  length l = length l' ->
  (forall k x y, l !! k = Some x -> l' !! k = Some y -> f x <= g y) -> zsum f l <= zsum g l'.
Proof.
  revert l'. induction l as [|x l IH]; intros [|y l'] Hlen H; simplify_eq/=; [done|].
  zsum. pose proof (H 0%nat x y eq_refl eq_refl).
  enough (zsum f l <= zsum g l') by lia. apply IH; [done|]. intros k. apply (H (S k)).
Qed.

Lemma zsum_rel_lt {A B} (f : A -> Z) (g : B -> Z) l l' j x0 y0 :
  length l = length l' ->
  (forall k x y, l !! k = Some x -> l' !! k = Some y -> f x <= g y) ->
  l !! j = Some x0 -> l' !! j = Some y0 -> f x0 < g y0 -> zsum f l < zsum g l'.
Proof.
  intros Hlen H Hx Hy Hlt.
  enough (zsum f l - f x0 + 0 <= zsum g l' - g y0 + 0) by lia.
  pose proof (zsum_insert (from_option f 0) (Some <$> l) j (Some x0) None) as H1.
  pose proof (zsum_insert (from_option g 0) (Some <$> l') j (Some y0) None) as H2.
  assert (forall C (h : C -> Z) (k : list C), zsum (from_option h 0) (Some <$> k) = zsum h k) as Hs.
  { intros C h k. induction k as [|c k IH]; [done|]. cbn [fmap list_fmap]. zsum. cbn. lia. }
  rewrite !list_lookup_fmap, !Hs in *. rewrite Hx in H1. rewrite Hy in H2.
  cbn in H1, H2. rewrite <- H1, <- H2 by done. apply zsum_rel.
  - by rewrite !length_insert, !length_fmap.
  - intros k x y. destruct (decide (j = k)) as [->|Hne].
    + rewrite !list_lookup_insert_eq by (rewrite length_fmap; by eapply lookup_lt_Some). naive_solver lia.
    + rewrite !list_lookup_insert_ne, !list_lookup_fmap by done.
      destruct (l !! k) eqn:E1, (l' !! k) eqn:E2; intros; simplify_eq/=; eauto.
Qed.

Lemma min_by_key_Some {A} (key : A -> Z) l x :
  min_by_key key l = Some x -> x ∈ l /\ Forall (fun y => key x <= key y) l.
Proof.
  revert x. induction l as [|y l IH]; intros x; cbn; [done|].
  destruct (min_by_key key l) as [z|] eqn:Hz.
  - destruct (IH z eq_refl) as [Hin Hle].
    destruct (Z.ltb_spec (key z) (key y)); intros [= ->].
    + split; [set_solver|]. constructor; [lia|done].
    + split; [set_solver|]. constructor; [lia|].
      eapply Forall_impl; [done|]. cbn. lia.
  - intros [= ->]. destruct l as [|z l].
    + split; [set_solver|]. by repeat constructor.
    + exfalso. clear -Hz. cbn in Hz. repeat case_match; congruence.
Qed.

Lemma min_by_key_None {A} (key : A -> Z) l : min_by_key key l = None <-> l = [].
Proof.
  destruct l as [|x l]; [done|]. split; [|done]. cbn. intros H. repeat case_match; congruence.
Qed.

Lemma elem_of_indexed {A} (l : list A) i x : (i, x) ∈ indexed l <-> l !! i = Some x.
Proof.
  unfold indexed. rewrite elem_of_lookup_imap. split.
  - intros (j&y&[= -> ->]&Hj). done.
  - intros Hi. eauto.
Qed.

Lemma lookup_indexed {A} (l : list A) k p : indexed l !! k = Some p <-> exists x, p = (k, x) /\ l !! k = Some x.
Proof.
  unfold indexed. rewrite list_lookup_imap. destruct (l !! k); cbn; naive_solver.
Qed.
Lemma length_indexed {A} (l : list A) : length (indexed l) = length l.
Proof. apply length_imap. Qed.

(** The first of the least used among the models that satisfy [P]. *)
Lemma least_used_Some (P : nat * Model -> bool) ms j m :
  min_by_key (fun p => used_at (snd p)) (filter (fun p => P p = true) (indexed ms)) = Some (j, m) ->
  ms !! j = Some m /\ P (j, m) = true /\
  forall k n, ms !! k = Some n -> P (k, n) = true -> used_at m <= used_at n.
Proof.
  intros [Hin Hle]%min_by_key_Some. apply list_elem_of_filter in Hin as [HP Hin].
  apply elem_of_indexed in Hin. split_and!; [done|done|].
  intros k n Hk Hn. rewrite Forall_forall in Hle.
  apply (Hle (k, n)). apply list_elem_of_filter. split; [done|]. by apply elem_of_indexed.
Qed.

Lemma least_used_None (P : nat * Model -> bool) ms :
  min_by_key (fun p => used_at (snd p)) (filter (fun p => P p = true) (indexed ms)) = None ->
  forall k n, ms !! k = Some n -> P (k, n) = false.
Proof.
  intros Hnil%min_by_key_None k n Hk. destruct (P (k, n)) eqn:HP; [|done].
  exfalso. assert ((k, n) ∈ filter (fun p => P p = true) (indexed ms)) as Hin.
  - apply list_elem_of_filter. split; [done|]. by apply elem_of_indexed.
  - rewrite Hnil in Hin. set_solver.
Qed.

(** ** The accounts, model by model *)
Definition vram_of (m : Model) : Z := towers m + if in_vram m then need m else 0.

Lemma used_alt e : used e = zsum enc_bytes (encoders e) + zsum vram_of (models e).
Proof. unfold used, vram_of. rewrite zsum_add, zsum_filter. lia. Qed.

Lemma used_set_model e j m m' :
  models e !! j = Some m -> used (set_model e j m') = used e - vram_of m + vram_of m'.
Proof. intros Hj. rewrite !used_alt. cbn. rewrite (zsum_insert _ _ _ _ _ Hj). lia. Qed.

Lemma hosted_set_model e j m m' :
  models e !! j = Some m -> hosted (set_model e j m') = hosted e - held m + held m'.
Proof. intros Hj. unfold hosted. cbn. rewrite (zsum_insert _ _ _ _ _ Hj). lia. Qed.

(** ** Well-formed models

    Sizes are sizes; a decoder's kept copy is a copy of its weights; a model
    out of VRAM has no tower there. *)
Definition place_ok (p : Place) : Prop :=
  match p with
  | Vram d => 0 <= weights d /\ 0 <= host_table d /\ (shadow d = None \/ shadow d = Some (weights d))
  | Host p => 0 <= p_weights p /\ 0 <= p_host p
  | Disk => True
  end.

Record model_ok (m : Model) : Prop := {
  ok_need : 0 <= need m;
  ok_place : place_ok (at_ m);
  ok_vision : 0 <= default 0 (vision m);
  ok_audio : 0 <= default 0 (audio m);
  ok_towers : in_vram m = false -> vision m = None /\ audio m = None;
}.

Lemma vram_of_nonneg m : model_ok m -> 0 <= vram_of m.
Proof. intros []. unfold vram_of, towers. destruct (in_vram m); lia. Qed.

Lemma vram_of_out m : model_ok m -> in_vram m = false -> vram_of m = 0.
Proof. intros [] H. unfold vram_of, towers. destruct ok_towers0 as [-> ->]; [done|]. by rewrite H. Qed.

Lemma held_nonneg m : model_ok m -> 0 <= held m.
Proof.
  intros [_ Hp _ _ _]. unfold held, shadow_bytes, p_bytes.
  destruct (at_ m) as [d|p|]; cbn in Hp; [|lia|lia].
  destruct Hp as (?&?&[-> | ->]); cbn; lia.
Qed.

(** What an operation may not change of a model. *)
Record same (m m' : Model) : Prop := {
  same_name : m_name m' = m_name m;
  same_dir : m_dir m' = m_dir m;
  same_load : m_load m' = m_load m;
  same_ends : ends m' = ends m;
  same_need : need m' = need m;
  same_used : used_at m' = used_at m;
  same_until : until m' = until m;
}.

(** A model that stays in VRAM, or out of it. *)
Record slims (m m' : Model) : Prop := {
  slims_same : same m m';
  slims_vram : in_vram m' = in_vram m;
  slims_vision : vision m' = vision m;
  slims_audio : audio m' = audio m;
  slims_ok : model_ok m -> model_ok m';
}.

(** A model [k] that [room] with [keep] may have moved out. *)
Record leaves (keep : option nat) (k : nat) (m m' : Model) : Prop := {
  leaves_same : same m m';
  leaves_keep : Some k <> keep;
  leaves_pin : pin (m_load m) = false;
  leaves_from : in_vram m = true;
  leaves_to : in_vram m' = false;
  leaves_vision : vision m' = None;
  leaves_audio : audio m' = None;
  leaves_ok : model_ok m -> model_ok m';
}.
Definition moved (keep : option nat) (k : nat) (m m' : Model) : Prop :=
  slims m m' \/ leaves keep k m m'.

#[global] Instance same_preorder : PreOrder same.
Proof.
  split; [by split|]. intros x y z [] []. split; congruence.
Qed.
#[global] Instance slims_preorder : PreOrder slims.
Proof.
  split; [by split|]. intros x y z [] []. split; [by etrans|congruence|congruence|congruence|auto].
Qed.
#[global] Instance moved_preorder keep k : PreOrder (moved keep k).
Proof.
  split; [by left|]. intros x y z [H1|H1] [H2|H2].
  - left. by etrans.
  - right. destruct H1, H2, slims_same0. split; try congruence; [by etrans; [split|]|auto].
  - right. destruct H1, H2, slims_same0. split; try congruence; [by etrans; [|split]|auto].
  - destruct H1, H2. congruence.
Qed.

(** ** How an operation moves the models *)
Record moves (keep : option nat) (e e' : Engine) : Prop := {
  moves_encoders : encoders e' = encoders e;
  moves_vram : vram_limit e' = vram_limit e;
  moves_host : host_limit e' = host_limit e;
  moves_prompt : prompt e' = prompt e;
  moves_models : forall k, option_Forall2 (moved keep k) (models e !! k) (models e' !! k);
}.

#[global] Instance moves_preorder keep : PreOrder (moves keep).
Proof.
  split.
  - by intros e.
  - intros x y z [? ? ? ? Hm1] [? ? ? ? Hm2]. split; try congruence. intros k.
    specialize (Hm1 k). specialize (Hm2 k).
    destruct Hm1; inversion Hm2; subst; constructor; by etrans.
Qed.

Lemma moves_set_model keep e j m m' :
  models e !! j = Some m -> moved keep j m m' -> moves keep e (set_model e j m').
Proof.
  intros Hj Hm. split; try done. intros k. cbn. destruct (decide (k = j)) as [->|Hk].
  - rewrite Hj, list_lookup_insert_eq by (by eapply lookup_lt_Some). by constructor.
  - rewrite list_lookup_insert_ne by done. done.
Qed.

Lemma moves_tick keep e : moves keep e (tick e).
Proof. by split. Qed.

Lemma moves_weaken keep e e' : moves keep e e' -> moves None e e'.
Proof.
  intros [? ? ? ? Hm]. split; try done. intros k. destruct (Hm k) as [m m' H|]; constructor.
  destruct H as [?|[]]; [by left|right; by split].
Qed.

(** The model at an index, before and after. *)
Lemma moves_at keep e e' k m :
  moves keep e e' -> models e !! k = Some m ->
  exists m', models e' !! k = Some m' /\ moved keep k m m'.
Proof. intros H Hk. pose proof (moves_models _ _ _ H k) as Hm. rewrite Hk in Hm. inversion Hm; eauto. Qed.

Lemma moves_at_back keep e e' k m' :
  moves keep e e' -> models e' !! k = Some m' ->
  exists m, models e !! k = Some m /\ moved keep k m m'.
Proof. intros H Hk. pose proof (moves_models _ _ _ H k) as Hm. rewrite Hk in Hm. inversion Hm; eauto. Qed.

Lemma moved_same keep k m m' : moved keep k m m' -> same m m'.
Proof. by intros [[]|[]]. Qed.
Lemma moved_ok keep k m m' : moved keep k m m' -> model_ok m -> model_ok m'.
Proof. intros [[]|[]]; auto. Qed.

Lemma moves_Forall keep e e' (P : Model -> Prop) :
  (forall k m m', moved keep k m m' -> P m -> P m') ->
  moves keep e e' -> Forall P (models e) -> Forall P (models e').
Proof.
  intros HP H. rewrite !Forall_lookup. intros He k m' Hk.
  destruct (moves_at_back _ _ _ _ _ H Hk) as (m&Hm&?). eauto.
Qed.

Lemma moves_length keep e e' : moves keep e e' -> length (models e') = length (models e).
Proof.
  intros H. apply Nat.le_antisymm; apply Nat.nlt_ge; intros Hlt.
  - destruct (lookup_lt_is_Some_2 _ _ Hlt) as [m' Hk].
    destruct (moves_at_back _ _ _ _ _ H Hk) as (m&Hm&?). apply lookup_lt_Some in Hm. lia.
  - destruct (lookup_lt_is_Some_2 _ _ Hlt) as [m Hk].
    destruct (moves_at _ _ _ _ _ H Hk) as (m'&Hm&?). apply lookup_lt_Some in Hm. lia.
Qed.

Lemma moves_names keep e e' : moves keep e e' -> m_name <$> models e' = m_name <$> models e.
Proof.
  intros H. apply list_eq. intros k. rewrite !list_lookup_fmap.
  destruct (moves_models _ _ _ H k) as [m m' Hm|]; [|done]. cbn. f_equal.
  apply (same_name _ _ (moved_same _ _ _ _ Hm)).
Qed.

(** ** The host tier *)
Definition pinned_holders (e : Engine) : Z := zsum (fun m => if holds_pinned m then 1 else 0) (models e).

Lemma free_pinned_slims m d :
  at_ m = Vram d -> slims m (set_at m (Vram (drop_shadow d))).
Proof.
  intros Hd. split; [by split|by unfold in_vram; rewrite Hd|done|done|].
  intros [? Hp ? ? Ht]. rewrite Hd in Hp. split; try done; cbn in *. naive_solver.
Qed.

Lemma out_slims m p :
  in_vram m = false -> in_vram (set_at m p) = false -> place_ok p -> slims m (set_at m p).
Proof.
  intros Hv Hp Hok. split; [by split|congruence|done|done|].
  intros [? ? ? ? Ht]. split; try done. intros _. by apply Ht.
Qed.

Lemma free_pinned_spec keep e e' :
  Forall model_ok (models e) -> free_pinned e = Some e' ->
  moves keep e e' /\ used e' = used e /\ hosted e' <= hosted e
  /\ pinned_holders e' = pinned_holders e - 1.
Proof.
  intros Hok. unfold free_pinned.
  destruct (min_by_key _ _) as [[j m]|] eqn:Hmin; [|done].
  apply (least_used_Some (fun p => holds_pinned (snd p))) in Hmin as (Hj&Hpin&_).
  pose proof (proj1 (Forall_lookup _ _) Hok _ _ Hj) as Hm. cbn in Hpin.
  set (m' := match at_ m with Vram d => set_at m (Vram (drop_shadow d)) | _ => set_at m Disk end).
  assert (slims m m' /\ holds_pinned m' = false) as [Hs Hh].
  { subst m'. unfold holds_pinned in *. destruct (at_ m) as [d|p|] eqn:Hat; [|split|done].
    - split; [by apply free_pinned_slims|]. done.
    - apply out_slims; [|done|done]. unfold in_vram. by rewrite Hat.
    - done. }
  intros He'. assert (e' = set_model e j m') as ->.
  { subst m'. destruct (at_ m); congruence. }
  split; [eapply moves_set_model; [done|by left]|].
  rewrite (used_set_model _ _ _ _ Hj), (hosted_set_model _ _ _ _ Hj).
  unfold pinned_holders. cbn. rewrite (zsum_insert _ _ _ _ _ Hj), Hpin, Hh.
  assert (held m' = 0) as ->.
  { unfold held, holds_pinned in *. subst m'. destruct (at_ m); cbn in *; [|done|done].
    by unfold shadow_bytes. }
  pose proof (held_nonneg _ Hm). destruct Hs as [[]]. unfold vram_of, towers.
  rewrite slims_vram0, slims_vision0, slims_audio0, same_need0. lia.
Qed.

Lemma no_pinned_holders e :
  Forall model_ok (models e) -> pinned_holders e <= 0 -> hosted e <= 0.
Proof.
  intros Hok Hz.
  assert (forall m, m ∈ models e -> held m <= 0) as Hheld.
  - intros m [i Hi]%list_elem_of_lookup.
    pose proof (zsum_elem (fun m => if holds_pinned m then 1 else 0) (models e) i m) as Hle.
    unfold pinned_holders in Hz. cbn in Hle.
    destruct (holds_pinned m) eqn:Hp.
    + exfalso. apply Hle in Hi; [lia|]. apply Forall_true. intros y. destruct (holds_pinned y); lia.
    + unfold holds_pinned, held in *. destruct (at_ m); [|done|lia].
      apply Z.ltb_ge in Hp. lia.
  - unfold hosted. transitivity (zsum (fun _ : Model => 0) (models e)).
    + apply zsum_le. by apply Forall_forall.
    + clear. induction (models e); zsum. done.
Qed.

(** The loop's bound: as many rounds as models hold pinned memory. *)
Lemma make_host_room_spec keep fuel bytes e :
  Forall model_ok (models e) -> pinned_holders e <= Z.of_nat fuel -> bytes <= host_limit e ->
  moves keep e (make_host_room fuel bytes e)
  /\ used (make_host_room fuel bytes e) = used e
  /\ hosted (make_host_room fuel bytes e) + bytes <= host_limit e.
Proof.
  revert e. induction fuel as [|fuel IH]; intros e Hok Hfuel Hb; cbn [make_host_room].
  - pose proof (no_pinned_holders e Hok ltac:(lia)). split_and!; [done|done|lia].
  - destruct (Z.gtb_spec (hosted e + bytes) (host_limit e)) as [Hgt|Hle]; [|split_and!; [done|done|lia]].
    destruct (free_pinned e) as [e'|] eqn:Hfree.
    + destruct (free_pinned_spec keep _ _ Hok Hfree) as (Hmv&Hu&Hh&Hp).
      destruct (IH e') as (Hmv'&Hu'&Hh').
      * eapply moves_Forall; [apply moved_ok|done|done].
      * lia.
      * by rewrite (moves_host _ _ _ Hmv).
      * rewrite (moves_host _ _ _ Hmv) in Hh'. split_and!; [by etrans|congruence|done].
    + exfalso. unfold free_pinned in Hfree.
      destruct (min_by_key _ _) as [[j m]|] eqn:Hmin; [by destruct (at_ m)|].
      pose proof (least_used_None (fun p => holds_pinned (snd p)) _ Hmin) as Hnone.
      enough (hosted e <= 0) by lia. apply no_pinned_holders; [done|].
      unfold pinned_holders. erewrite (zsum_ext_in _ (fun _ => 0)).
      * clear. induction (models e); zsum. done.
      * intros i m Hi. by rewrite (Hnone i m Hi : holds_pinned m = false).
Qed.

Lemma make_host_room_disk fuel bytes e j m :
  models e !! j = Some m -> at_ m = Disk -> models (make_host_room fuel bytes e) !! j = Some m.
Proof.
  revert e. induction fuel as [|fuel IH]; intros e Hj Hat; cbn [make_host_room]; [done|].
  destruct (_ >? _); [|done]. destruct (free_pinned e) as [e'|] eqn:Hfree; [|done].
  apply IH; [|done]. unfold free_pinned in Hfree.
  destruct (min_by_key _ _) as [[k n]|] eqn:Hmin; [|done].
  apply (least_used_Some (fun p => holds_pinned (snd p))) in Hmin as (Hk&Hpin&_). cbn in Hpin.
  assert (k <> j) as Hne by (intros ->; unfold holds_pinned in Hpin; simplify_eq; by rewrite Hat in Hpin).
  destruct (at_ n); simplify_eq; cbn; by rewrite list_lookup_insert_ne.
Qed.

Lemma pinned_holders_le e : pinned_holders e <= Z.of_nat (length (models e)).
Proof.
  unfold pinned_holders. induction (models e) as [|m l IH]; [done|]. zsum.
  cbn [length]. destruct (holds_pinned m); lia.
Qed.

(** ** Running the monad *)
Lemma em_bind {A B} (m : EM A) (k : A -> EM B) e :
  (m ≫= k) e = match m e with
               | (Ok a, e) => k a e | (Err x, e) => (Err x, e) | (Panic, e) => (Panic, e)
               end.
Proof. done. Qed.

(** [em] runs the steps that need nothing of the state. *)
Ltac em := cbn [get put lift mret EM_ret now]; repeat (rewrite em_bind; cbn [get put lift mret EM_ret now]).

Section Run.
Context `{W : World}.

Lemma gpu_run e :
  gpu e = (match driver (ticks e) with None => Ok tt | Some x => Err x end, tick e).
Proof. done. Qed.

Lemma model_at_run i m e : models e !! i = Some m -> model_at i e = (Ok m, e).
Proof. intros H. unfold model_at. em. by rewrite H. Qed.

Lemma on_model_run i f m e :
  models e !! i = Some m -> on_model i f e = (Ok tt, set_model e i (f m)).
Proof. intros H. unfold on_model. em. by rewrite (model_at_run _ _ _ H). Qed.

(** A success, or one of the driver's errors. *)
Definition driver_says {A} (r : result A) : Prop :=
  match r with Ok _ => True | Err x => exists n, driver n = Some x | Panic => False end.

(** ** Moving a model out *)
Lemma to_disk_leaves keep j m :
  Some j <> keep -> pin (m_load m) = false -> in_vram m = true -> leaves keep j m (to_disk m).
Proof. intros. split; try done. intros []. by split. Qed.

Lemma park_bytes d : place_ok (Vram d) -> p_bytes (park d) = parked_bytes d /\ place_ok (Host (park d)).
Proof. intros (?&?&[Hs|Hs]); unfold park, p_bytes, parked_bytes; rewrite Hs; cbn; lia. Qed.

(** What [park_at] does for a model that was just taken out of VRAM. *)
Lemma park_at_spec keep j d m e r e' :
  Forall model_ok (models e) -> place_ok (Vram d) -> parked_bytes d <= host_limit e ->
  models e !! j = Some m -> at_ m = Disk ->
  park_at j d e = (r, e') ->
  driver_says r /\ moves keep e e' /\ used e' = used e /\ hosted e' <= host_limit e'.
Proof.
  intros Hok Hd Hb Hj Hat. unfold park_at. em.
  destruct (make_host_room_spec keep (S (length (models e))) (parked_bytes d) e Hok) as (Hmv&Hu&Hr);
    [pose proof (pinned_holders_le e); lia|done|].
  pose proof (make_host_room_disk (S (length (models e))) (parked_bytes d) e j m Hj Hat) as Hj1.
  set (e1 := make_host_room _ _ e) in *.
  destruct (park_bytes d Hd) as [Hpb Hpo].
  assert (0 <= parked_bytes d) by (destruct Hd as (?&?&_); unfold parked_bytes; lia).
  rewrite gpu_run. destruct (driver (ticks e1)) as [x|] eqn:Hdr.
  - intros [= <- <-]. split_and!; [by eexists|etrans; [done|apply moves_tick]|done|].
    change (hosted e1 <= host_limit e1). rewrite (moves_host _ _ _ Hmv). lia.
  - rewrite (on_model_run _ _ m) by done. intros [= <- <-].
    assert (in_vram m = false) as Hout by (unfold in_vram; by rewrite Hat).
    split_and!; [done| | |].
    + etrans; [done|]. etrans; [apply moves_tick|].
      eapply (moves_set_model _ (tick e1)); [done|]. left. by apply out_slims.
    + rewrite (used_set_model (tick e1) j m) by done. rewrite <- Hu.
      unfold vram_of, towers. rewrite Hout. unfold used. cbn. lia.
    + rewrite (hosted_set_model (tick e1) j m) by done. 
      change (hosted e1 - held m + p_bytes (park d) <= host_limit e1).
      rewrite (moves_host _ _ _ Hmv). unfold held. rewrite Hat. lia.
Qed.

(** [evict] takes a model that may go out of VRAM, whatever the driver says. *)
Lemma evict_spec keep j m e r e' :
  Forall model_ok (models e) -> hosted e <= host_limit e ->
  models e !! j = Some m -> may_go keep (j, m) = true ->
  evict j e = (r, e') ->
  driver_says r /\ moves keep e e' /\ used e' = used e - vram_of m
  /\ hosted e' <= host_limit e' /\ exists m', models e' !! j = Some m' /\ in_vram m' = false.
Proof.
  intros Hok Hh Hj Hgo.
  unfold may_go in Hgo. apply andb_true_iff in Hgo as [[Hk Hp]%andb_true_iff Hv]. cbn in Hk, Hp, Hv.
  apply negb_true_iff, bool_decide_eq_false in Hk. apply negb_true_iff in Hp.
  pose proof (proj1 (Forall_lookup _ _) Hok _ _ Hj) as Hm.
  unfold evict. em. rewrite (model_at_run _ _ _ Hj). em. rewrite (on_model_run _ _ _ _ Hj). em.
  set (e1 := set_model e j (to_disk m)).
  pose proof (to_disk_leaves keep j m Hk Hp Hv) as Hlv.
  assert (moves keep e e1) as Hmv by (eapply moves_set_model; [done|by right]).
  assert (models e1 !! j = Some (to_disk m)) as Hj1.
  { cbn. apply list_lookup_insert_eq. by eapply lookup_lt_Some. }
  assert (used e1 = used e - vram_of m) as Hu1.
  { subst e1. rewrite (used_set_model _ _ _ _ Hj). change (vram_of (to_disk m)) with 0. lia. }
  assert (hosted e1 <= host_limit e1) as Hh1.
  { subst e1. rewrite (hosted_set_model _ _ _ _ Hj). pose proof (held_nonneg _ Hm).
    change (held (to_disk m)) with 0. cbn. lia. }
  unfold in_vram in Hv. destruct (at_ m) as [d| |] eqn:Hat; [|done|done].
  destruct (Z.gtb_spec (parked_bytes d) (host_limit e1)) as [Hgt|Hle].
  - intros [= <- <-]. split_and!; [done|done|done|done|]. eauto.
  - intros Hpark. eapply (park_at_spec keep) in Hpark as (Hr&Hmv'&Hu'&Hh'); [| | | |exact Hj1|done].
    + split_and!; [done|by etrans|congruence|done|].
      destruct (moves_at _ _ _ _ _ Hmv' Hj1) as (m'&Hm'&Hmd). exists m'. split; [done|].
      destruct Hmd as [[]|[]]; [done|done].
    + eapply moves_Forall; [apply moved_ok|done|done].
    + destruct Hm. by rewrite Hat in *.
    + done.
Qed.

(** ** Room *)
Definition going (keep : option nat) (e : Engine) : Z :=
  zsum (fun p => if may_go keep p then 1 else 0) (indexed (models e)).
(** What cannot be moved out: encoders, pinned models, [keep], and the models
    that hold no VRAM. *)
Definition staying (keep : option nat) (e : Engine) : Z :=
  zsum enc_bytes (encoders e)
  + zsum (fun p => if may_go keep p then 0 else vram_of (snd p)) (indexed (models e)).

Lemma used_split keep e :
  used e = staying keep e + zsum (fun p => if may_go keep p then vram_of (snd p) else 0) (indexed (models e)).
Proof.
  rewrite used_alt. unfold staying. rewrite <- Z.add_assoc, <- zsum_add. f_equal.
  apply Z.le_antisymm; apply zsum_rel; rewrite ?length_indexed; try done.
  - intros k x p Hx (y&->&Hy)%lookup_indexed. simplify_eq. cbn. destruct (may_go keep _); lia.
  - intros k p x (y&->&Hy)%lookup_indexed Hx. simplify_eq. cbn. destruct (may_go keep _); lia.
Qed.

Lemma may_go_spec keep k m :
  may_go keep (k, m) = true <-> Some k <> keep /\ pin (m_load m) = false /\ in_vram m = true.
Proof.
  unfold may_go. cbn. rewrite !andb_true_iff, !negb_true_iff, bool_decide_eq_false. tauto.
Qed.

Lemma moved_may_go keep k m m' :
  moved keep k m m' -> may_go keep (k, m') = true -> may_go keep (k, m) = true /\ slims m m'.
Proof.
  rewrite !may_go_spec. intros [Hs|[]] (?&Hp&?); [|congruence].
  split; [|done]. destruct Hs as [[]]. rewrite same_load0 in Hp. by rewrite <- slims_vram0.
Qed.

Lemma moved_stays keep k m m' :
  moved keep k m m' -> model_ok m ->
  (if may_go keep (k, m') then 0 else vram_of m') = (if may_go keep (k, m) then 0 else vram_of m).
Proof.
  intros Hmv Hm. pose proof (moved_ok _ _ _ _ Hmv Hm) as Hm'. destruct Hmv as [[[] ? ? ? _]|[]].
  - assert (may_go keep (k, m') = may_go keep (k, m)) as ->.
    { unfold may_go. cbn. by rewrite same_load0, slims_vram0. }
    unfold vram_of, towers. by rewrite same_need0, slims_vram0, slims_vision0, slims_audio0.
  - rewrite (vram_of_out m') by done. rewrite (proj2 (may_go_spec keep k m)) by done. by case_match.
Qed.

Lemma staying_moves keep e e' :
  Forall model_ok (models e) -> moves keep e e' -> staying keep e' = staying keep e.
Proof.
  intros Hok H. unfold staying. rewrite (moves_encoders _ _ _ H). f_equal.
  pose proof (moves_length _ _ _ H) as Hlen.
  apply Z.le_antisymm; apply zsum_rel; rewrite ?length_indexed; try lia;
    intros k p q (x&->&Hx)%lookup_indexed (y&->&Hy)%lookup_indexed; cbn [snd].
  - destruct (moves_at _ _ _ _ _ H Hy) as (x'&Hx'&Hm). simplify_eq.
    rewrite (moved_stays _ _ _ _ Hm) by (by eapply Forall_lookup_1). lia.
  - destruct (moves_at _ _ _ _ _ H Hx) as (y'&Hy'&Hm). simplify_eq.
    rewrite (moved_stays _ _ _ _ Hm) by (by eapply Forall_lookup_1). lia.
Qed.

Lemma going_moves keep e e' j m m' :
  moves keep e e' -> models e !! j = Some m -> may_go keep (j, m) = true ->
  models e' !! j = Some m' -> in_vram m' = false -> going keep e' < going keep e.
Proof.
  intros H Hj Hgo Hj' Hout. eapply (zsum_rel_lt _ _ _ _ j (j, m') (j, m)).
  - rewrite !length_indexed. by eapply moves_length.
  - intros k p q (x&->&Hx)%lookup_indexed (y&->&Hy)%lookup_indexed.
    destruct (moves_at _ _ _ _ _ H Hy) as (x'&Hx'&Hm). simplify_eq.
    destruct (may_go keep (k, x)) eqn:E; [|by case_match].
    apply (moved_may_go _ _ _ _ Hm) in E as [-> _]. done.
  - apply lookup_indexed. eauto.
  - apply lookup_indexed. eauto.
  - rewrite Hgo. destruct (may_go keep (j, m')) eqn:E; [|done].
    apply may_go_spec in E as (?&?&?). congruence.
Qed.

(** Who left was used no later than whoever may go and stayed. *)
Definition in_order (keep : option nat) (e e' : Engine) : Prop :=
  forall j m m' k n n',
    models e !! j = Some m -> models e' !! j = Some m' -> in_vram m = true -> in_vram m' = false ->
    models e !! k = Some n -> models e' !! k = Some n' -> may_go keep (k, n') = true ->
    used_at m <= used_at n.

Definition room_result (n : Z) (keep : option nat) (e e' : Engine) (r : result unit) : Prop :=
  match r with
  | Ok _ => used e' + n <= vram_limit e
  | Err x =>
      (exists k, driver k = Some x) \/
      (staying keep e + n > vram_limit e
       /\ x = OutOfMemory n (Z.max 0 (vram_limit e - staying keep e)))
  | Panic => False
  end.

(** The models that [evict j] moves out: [j]. *)
Lemma evict_only keep j m e r e' k n n' :
  Forall model_ok (models e) -> hosted e <= host_limit e ->
  models e !! j = Some m -> may_go keep (j, m) = true -> evict j e = (r, e') ->
  models e !! k = Some n -> models e' !! k = Some n' -> in_vram n = true -> in_vram n' = false -> k = j.
Proof.
  intros Hok Hh Hj Hgo Hev Hk Hk' Hin Hout. destruct (decide (k = j)) as [|Hne]; [done|exfalso].
  assert (may_go (Some k) (j, m) = true) as Hgo'.
  { apply may_go_spec. apply may_go_spec in Hgo. naive_solver. }
  destruct (evict_spec _ _ _ _ _ _ Hok Hh Hj Hgo' Hev) as (_&Hmv&_).
  destruct (moves_at _ _ _ _ _ Hmv Hk) as (n0&Hn0&[[]|[]]); simplify_eq; congruence.
Qed.

Lemma in_order_step keep e e1 e' j m :
  models e !! j = Some m -> may_go keep (j, m) = true ->
  (forall k n, models e !! k = Some n -> may_go keep (k, n) = true -> used_at m <= used_at n) ->
  (forall k n n', models e !! k = Some n -> models e1 !! k = Some n' ->
                  in_vram n = true -> in_vram n' = false -> k = j) ->
  moves keep e e1 -> moves keep e1 e' -> in_order keep e1 e' -> in_order keep e e'.
Proof.
  intros Hj Hgo Hleast Honly Hmv Hmv' Hord a x x' k y y' Ha Ha' Hin Hout Hk Hk' Hgk.
  destruct (moves_at _ _ _ _ _ Hmv Ha) as (x1&Ha1&Hx1).
  destruct (moves_at _ _ _ _ _ Hmv Hk) as (y1&Hk1&Hy1).
  destruct (moves_at _ _ _ _ _ Hmv' Hk1) as (y2&Hk2&Hy2). simplify_eq.
  destruct (in_vram x1) eqn:Hx1v.
  - rewrite <- (same_used _ _ (moved_same _ _ _ _ Hx1)), <- (same_used _ _ (moved_same _ _ _ _ Hy1)).
    by eapply Hord.
  - pose proof (Honly _ _ _ Ha Ha1 Hin Hx1v) as ->. simplify_eq.
    eapply Hleast; [done|].
    apply (moved_may_go _ _ _ _ Hy2) in Hgk as [Hgk _]. by apply (moved_may_go _ _ _ _ Hy1) in Hgk as [Hgk _].
Qed.

Lemma nobody_left keep e :
  (forall k n, models e !! k = Some n -> may_go keep (k, n) = false) -> used e = staying keep e.
Proof.
  intros H. rewrite (used_split keep). enough (zsum (fun p => if may_go keep p then vram_of (snd p) else 0)
    (indexed (models e)) = 0) by lia.
  rewrite (zsum_ext_in _ (fun _ => 0)).
  - clear. induction (indexed (models e)); zsum. done.
  - intros i p (x&->&Hx)%lookup_indexed. by rewrite H.
Qed.

Lemma room_spec fuel n keep e r e' :
  Forall model_ok (models e) -> hosted e <= host_limit e -> going keep e <= Z.of_nat fuel ->
  room fuel n keep e = (r, e') ->
  moves keep e e' /\ hosted e' <= host_limit e' /\ in_order keep e e' /\ room_result n keep e e' r.
Proof.
  revert e. induction fuel as [|fuel IH]; intros e Hok Hh Hfuel; cbn [room]; em;
    (destruct (Z.gtb_spec (used e + n) (vram_limit e)) as [Hgt|Hle];
      [|intros [= <- <-]; split_and!; [done|done|unfold in_order; naive_solver congruence|done]]);
    (destruct (min_by_key _ _) as [[j m]|] eqn:Hmin;
      [apply least_used_Some in Hmin as (Hj&Hgo&Hleast)
      |intros [= <- <-]; pose proof (nobody_left _ _ (least_used_None _ _ Hmin)) as Hu;
       split_and!; [done|done|unfold in_order; naive_solver congruence|right; rewrite <- Hu; split; [lia|done]]]).
  - exfalso. pose proof (zsum_elem (fun p => if may_go keep p then 1 else 0) (indexed (models e)) j (j, m)) as Hle.
    cbn in Hle. rewrite Hgo in Hle. unfold going in Hfuel. enough (1 <= 0) by lia. etrans; [apply Hle|done].
    + apply Forall_true. intros p. destruct (may_go keep p); lia.
    + apply lookup_indexed. eauto.
  - rewrite em_bind. destruct (evict j e) as [r1 e1] eqn:Hev.
    destruct (evict_spec _ _ _ _ _ _ Hok Hh Hj Hgo Hev) as (Hr1&Hmv&Hu1&Hh1&m1&Hm1&Hout).
    assert (forall k x y, models e !! k = Some x -> models e1 !! k = Some y ->
              in_vram x = true -> in_vram y = false -> k = j) as Honly by (by eauto using evict_only).
    assert (Forall model_ok (models e1)) as Hok1 by (eapply moves_Forall; [apply moved_ok|done|done]).
    assert (in_order keep e e1) as Hord1.
    { eapply in_order_step; [done..|]. unfold in_order. naive_solver congruence. }
    destruct r1 as [[]|x|]; [|intros [= <- <-]; split_and!; [done|done|done|by left]|done].
    intros Hroom. apply IH in Hroom as (Hmv'&Hh'&Hord&Hres); [|done|done|].
    + split_and!; [by etrans|done|by eapply in_order_step|].
      pose proof (staying_moves _ _ _ Hok Hmv) as Hst. unfold room_result in *.
      by rewrite Hst, (moves_vram _ _ _ Hmv) in Hres.
    + pose proof (going_moves _ _ _ _ _ _ Hmv Hj Hgo Hm1 Hout). lia.
Qed.

Lemma make_room_spec n keep e r e' :
  Forall model_ok (models e) -> hosted e <= host_limit e -> make_room n keep e = (r, e') ->
  moves keep e e' /\ hosted e' <= host_limit e' /\ in_order keep e e' /\ room_result n keep e e' r.
Proof.
  intros Hok Hh. unfold make_room. em. apply room_spec; [done|done|].
  unfold going. rewrite <- (length_indexed (models e)). clear.
  induction (indexed (models e)) as [|p l IH]; [done|]. zsum. cbn [length]. destruct (may_go keep p); lia.
Qed.

(** ** The invariant

    [hole] is the model a call is bringing in, which may be out of VRAM
    although it is pinned. *)
Definition names (e : Engine) : list (list Z) := (m_name <$> models e) ++ (h_name <$> encoders e).

Record sane (hole : option nat) (e : Engine) : Prop := {
  sane_models : Forall model_ok (models e);
  sane_encs : Forall (fun h => 0 <= enc_bytes h) (encoders e);
  sane_vram : used e <= vram_limit e;
  sane_host : hosted e <= host_limit e;
  sane_pins : forall k m, models e !! k = Some m -> pin (m_load m) = true ->
                          in_vram m = true \/ hole = Some k;
  sane_names : NoDup (names e);
}.

(** Of the world: sizes are sizes, and an open encoder takes its footprint. *)
Record files_ok (f : Files) : Prop := {
  footprint_ok : forall st n, footprint f st = Ok n -> 0 <= n;
  dec_ok : 0 <= fst (dec_sizes f) /\ 0 <= snd (dec_sizes f);
  enc_ok : forall n, enc_footprint f = Ok n -> enc_size f = n /\ 0 <= n;
  vision_ok : 0 <= default 0 (vision_size f);
  audio_ok : 0 <= default 0 (audio_size f);
  no_file_panics : no_panic (is_encoder f) /\ no_panic (text_files f)
    /\ (forall st, no_panic (footprint f st)) /\ no_panic (enc_footprint f)
    /\ (forall x b, no_panic (see f x b)) /\ (forall x, no_panic (hear f x));
}.

Lemma used_moves keep e e' : Forall model_ok (models e) -> moves keep e e' -> used e' <= used e.
Proof.
  intros Hok H. rewrite !used_alt, (moves_encoders _ _ _ H).
  enough (zsum vram_of (models e') <= zsum vram_of (models e)) by lia.
  apply zsum_rel; [by eapply moves_length|]. intros k m' m Hk' Hk.
  destruct (moves_at _ _ _ _ _ H Hk) as (m1&Hm1&Hm). simplify_eq.
  pose proof (proj1 (Forall_lookup _ _) Hok _ _ Hk) as Hmok. pose proof (vram_of_nonneg _ Hmok).
  destruct Hm as [[[] ? ? ? _]|[]].
  - unfold vram_of, towers. by rewrite same_need0, slims_vram0, slims_vision0, slims_audio0.
  - rewrite (vram_of_out m') by auto. done.
Qed.

Lemma names_moves keep e e' : moves keep e e' -> names e' = names e.
Proof. intros H. unfold names. by rewrite (moves_names _ _ _ H), (moves_encoders _ _ _ H). Qed.

Lemma sane_moves hole keep e e' :
  sane hole e -> moves keep e e' -> hosted e' <= host_limit e' -> sane hole e'.
Proof.
  intros [Hok Henc Hv Hh Hpin Hnd] H Hh'. split.
  - eapply moves_Forall; [apply moved_ok|done|done].
  - by rewrite (moves_encoders _ _ _ H).
  - rewrite (moves_vram _ _ _ H). pose proof (used_moves _ _ _ Hok H). lia.
  - done.
  - intros k m' Hk Hp. destruct (moves_at_back _ _ _ _ _ H Hk) as (m&Hm&Hmd).
    pose proof (same_load _ _ (moved_same _ _ _ _ Hmd)) as Hl. rewrite Hl in Hp.
    destruct (Hpin _ _ Hm Hp) as [Hin|]; [left|by right].
    destruct Hmd as [[]|[]]; congruence.
  - by rewrite (names_moves _ _ _ H).
Qed.

Lemma sane_tick hole e : sane hole e -> sane hole (tick e).
Proof. intros []. by split. Qed.

Lemma sane_weaken hole e : sane None e -> sane hole e.
Proof. intros [? ? ? ? Hp ?]. split; try done. intros k m Hk Hm. destruct (Hp k m Hk Hm); [by left|done]. Qed.

(** The model that came in closes the hole; so does one that is not pinned. *)
Lemma sane_close i e m :
  sane (Some i) e -> models e !! i = Some m -> (pin (m_load m) = true -> in_vram m = true) -> sane None e.
Proof.
  intros [? ? ? ? Hp ?] Hi Hm. split; try done. intros k n Hk Hn.
  destruct (Hp k n Hk Hn) as [|[= ->]]; [by left|]. simplify_eq. auto.
Qed.

Lemma names_set_model e i m m' :
  models e !! i = Some m -> m_name m' = m_name m -> names (set_model e i m') = names e.
Proof.
  intros Hi Hn. unfold names. cbn. rewrite list_fmap_insert, list_insert_id; [done|].
  rewrite list_lookup_fmap, Hi. cbn. by rewrite Hn.
Qed.

Lemma sane_set_model hole e i m m' :
  sane hole e -> models e !! i = Some m -> model_ok m' -> m_name m' = m_name m ->
  used e - vram_of m + vram_of m' <= vram_limit e ->
  hosted e - held m + held m' <= host_limit e ->
  (pin (m_load m') = true -> in_vram m' = true \/ hole = Some i) ->
  sane hole (set_model e i m').
Proof.
  intros [Hok Henc Hv Hh Hpin Hnd] Hi Hm' Hn Hu Hho Hp. split.
  - by apply Forall_insert.
  - done.
  - by rewrite (used_set_model _ _ _ _ Hi).
  - by rewrite (hosted_set_model _ _ _ _ Hi).
  - intros k n. cbn. destruct (decide (i = k)) as [->|Hne].
    + rewrite list_lookup_insert_eq by (by eapply lookup_lt_Some). naive_solver.
    + rewrite list_lookup_insert_ne by done. apply Hpin.
  - by rewrite (names_set_model _ _ _ _ Hi Hn).
Qed.

(** ** Bringing a model in *)
Context (Hfiles : forall d, files_ok (disk d)).

(** What a decoder that comes in keeps in host memory was held already. *)
Lemma bring_run i m e r e' :
  models e !! i = Some m -> model_ok m -> bring i e = (r, e') ->
  (exists d, r = Ok tt /\ place_ok (Vram d) /\ shadow_bytes d <= held m
      /\ (e' = set_model e i (set_at m (Vram d)) \/ e' = set_model (tick e) i (set_at m (Vram d))))
  \/ (exists x, r = Err x /\ in_vram m = false /\ e' = set_model (tick e) i (set_at m Disk)).
Proof.
  intros Hi Hm. unfold bring. em. rewrite (model_at_run _ _ _ Hi). em. rewrite (on_model_run _ _ _ _ Hi).
  set (e1 := set_model e i (set_at m Disk)).
  assert (models e1 !! i = Some (set_at m Disk)) as Hi1.
  { apply list_lookup_insert_eq. by eapply lookup_lt_Some. }
  assert (forall p, set_model e1 i (set_at (set_at m Disk) p) = set_model e i (set_at m p)) as Hset.
  { intros p. unfold set_model, set_models, e1. cbn. by rewrite list_insert_insert_eq. }
  assert (forall p, set_model (tick e1) i (set_at (set_at m Disk) p) = set_model (tick e) i (set_at m p)) as Hset'.
  { intros p. unfold set_model, set_models, e1. cbn. by rewrite list_insert_insert_eq. }
  em. pose proof (ok_place _ Hm) as Hp. unfold held, in_vram.
  destruct (at_ m) as [d|p|] eqn:Hat; em.
  - rewrite (on_model_run _ _ _ _ Hi1), Hset. intros [= <- <-]. left. exists d. naive_solver.
  - rewrite gpu_run. destruct (driver (ticks e1)) as [x|]; em.
    + intros [= <- <-]. right. eauto.
    + rewrite (on_model_run _ _ (set_at m Disk)), Hset' by done. intros [= <- <-]. left. exists (resume p).
      cbn in Hp. split; [done|]. split; [cbn; naive_solver|].
      split; [unfold p_bytes, shadow_bytes; cbn; lia|by right].
  - rewrite gpu_run. destruct (driver (ticks e1)) as [x|]; em.
    + intros [= <- <-]. right. eauto.
    + pose proof (dec_ok _ (Hfiles (m_dir m))) as Hd. destruct (dec_sizes _) as [w h]. em.
      rewrite (on_model_run _ _ (set_at m Disk)), Hset' by done. intros [= <- <-]. left. exists (mkDecoder w h None).
      cbn in Hd. split; [done|]. split; [cbn; naive_solver|].
      split; [done|by right].
Qed.

Lemma set_at_ok m p :
  model_ok m -> place_ok p -> in_vram m = false \/ in_vram (set_at m p) = true -> model_ok (set_at m p).
Proof.
  intros [? ? ? ? Ht] Hp Hin. split; try done. intros Hout. destruct Hin as [Hin|Hin]; [by apply Ht|congruence].
Qed.

Lemma sane_place i m p e :
  sane (Some i) e -> models e !! i = Some m -> model_ok (set_at m p) ->
  vram_of (set_at m p) <= vram_of m + (vram_limit e - used e) -> held (set_at m p) <= held m ->
  let e' := set_model e i (set_at m p) in
  sane (Some i) e' /\ length (models e') = length (models e) /\ models e' !! i = Some (set_at m p).
Proof.
  intros Hs Hi Hok Hv Hh. pose proof (sane_host _ _ Hs). split_and!.
  - eapply sane_set_model; try done; [lia|lia|by right].
  - apply length_insert.
  - apply list_lookup_insert_eq. by eapply lookup_lt_Some.
Qed.

Lemma bring_spec i m e r e' :
  sane (Some i) e -> models e !! i = Some m ->
  (in_vram m = false -> used e + need m <= vram_limit e) ->
  bring i e = (r, e') ->
  sane (Some i) e' /\ length (models e') = length (models e)
  /\ exists m', models e' !! i = Some m' /\ same m m'
  /\ match r with Ok _ => in_vram m' = true | Err _ => in_vram m = false | Panic => False end.
Proof.
  intros Hs Hi Hroom Hb. pose proof (Forall_lookup_1 _ _ _ _ (sane_models _ _ Hs) Hi) as Hm.
  pose proof (sane_vram _ _ Hs). pose proof (sane_tick _ _ Hs) as Hst. pose proof (held_nonneg _ Hm).
  apply (bring_run _ _ _ _ _ Hi Hm) in Hb as [(d&->&Hd&Hsh&He')|(x&->&Hout&->)].
  - assert (vram_of (set_at m (Vram d)) <= vram_of m + (vram_limit e - used e)) as Hvr.
    { unfold vram_of, towers. cbn. destruct (in_vram m); [lia|]. specialize (Hroom eq_refl). lia. }
    assert (model_ok (set_at m (Vram d))) by (apply set_at_ok; [done|done|by right]).
    destruct (sane_place i m (Vram d) e) as (?&?&?); [done..|].
    destruct (sane_place i m (Vram d) (tick e)) as (?&?&?); [done..|].
    destruct He' as [-> | ->]; (split_and!; [done|done|]; by eexists).
  - destruct (sane_place i m Disk (tick e)) as (?&?&?); [done|done|by apply set_at_ok; [..|left]| |done|].
    + change (vram_of (set_at m Disk)) with (towers m + 0). change (used (tick e)) with (used e).
      cbn. unfold vram_of. rewrite Hout. lia.
    + split_and!; [done|done|]. by eexists.
Qed.

Lemma resident_spec i m e r e' :
  sane (Some i) e -> models e !! i = Some m -> resident i e = (r, e') ->
  sane (Some i) e' /\ length (models e') = length (models e)
  /\ exists m', models e' !! i = Some m' /\ same m m'
  /\ match r with Ok _ => in_vram m' = true | Err _ => in_vram m = false | Panic => False end.
Proof.
  intros Hs Hi. unfold resident. em. rewrite (model_at_run _ _ _ Hi). destruct (in_vram m) eqn:Hin; em.
  - intros Hb. eapply bring_spec in Hb as (?&?&m'&?&?&Hr); [|done|done|congruence].
    split_and!; [done|done|]. exists m'. split_and!; [done|done|]. destruct r; congruence.
  - destruct (make_room (need m) (Some i) e) as [r1 e1] eqn:Hroom.
    destruct (make_room_spec _ _ _ _ _ (sane_models _ _ Hs) (sane_host _ _ Hs) Hroom) as (Hmv&Hh&_&Hres).
    pose proof (sane_moves _ _ _ _ Hs Hmv Hh) as Hs1.
    destruct (moves_at _ _ _ _ _ Hmv Hi) as (m1&Hi1&Hm1).
    assert (slims m m1) as Hsl by (destruct Hm1 as [|[]]; congruence).
    pose proof (slims_same _ _ Hsl) as Hsame.
    destruct r1 as [[]|x|]; [| |done].
    + intros Hb. eapply bring_spec in Hb as (?&?&m'&?&?&Hr); [|done|done|].
      * split_and!; [done|by rewrite <- (moves_length _ _ _ Hmv)|]. exists m'. split_and!; [done|by etrans|].
        by destruct r.
      * intros _. cbn in Hres. by rewrite (same_need _ _ Hsame), (moves_vram _ _ _ Hmv).
    + intros [= <- <-]. split_and!; [done|by eapply moves_length|]. eauto.
Qed.

(** ** Preserving the invariant

    [keeps m]: from a sane engine, [m] never panics and leaves a sane one with
    no new name, whether it succeeds or fails. *)
Definition keeps {A} (m : EM A) : Prop :=
  forall e, sane None e ->
    sane None (snd (m e)) /\ names (snd (m e)) ⊆ names e /\ no_panic (fst (m e)).

Lemma keeps_bind {A B} (m : EM A) (k : A -> EM B) :
  keeps m -> (forall a, keeps (k a)) -> keeps (m ≫= k).
Proof.
  clear Hfiles. intros Hm Hk e He. destruct (Hm e He) as (Hs&Hn&Hp). rewrite em_bind.
  destruct (m e) as [[a|x|] e1]; [|done|done].
  destruct (Hk a e1 Hs) as (?&?&?). cbn in *. split_and!; [done|set_solver|done].
Qed.
Lemma keeps_lift {A} (r : result A) : no_panic r -> keeps (lift r).
Proof. by intros Hr e He. Qed.
Lemma keeps_get : keeps get.
Proof. by intros e He. Qed.
Lemma keeps_ret {A} (a : A) : keeps (mret a).
Proof. by intros e He. Qed.
Lemma keeps_now : keeps now.
Proof. intros e He. split; [by apply sane_tick|done]. Qed.
Lemma keeps_gpu : keeps gpu.
Proof. intros e He. rewrite gpu_run. split; [by apply sane_tick|]. split; [done|]. cbn. by destruct (driver _). Qed.
Lemma keeps_make_room n keep : keeps (make_room n keep).
Proof.
  intros e He. destruct (make_room n keep e) as [r e'] eqn:Hr.
  destruct (make_room_spec _ _ _ _ _ (sane_models _ _ He) (sane_host _ _ He) Hr) as (Hmv&Hh&_&Hres).
  split; [by eapply sane_moves|]. split; [by cbn; rewrite (names_moves _ _ _ Hmv)|]. by destruct r.
Qed.

Lemma to_disk_ok m : model_ok m -> model_ok (to_disk m).
Proof. intros []. by split. Qed.

(** A model that is not pinned may go to disk. *)
Lemma sane_to_disk e i m :
  sane None e -> models e !! i = Some m -> pin (m_load m) = false ->
  sane None (set_model e i (to_disk m)).
Proof.
  intros Hs Hi Hp. pose proof (Forall_lookup_1 _ _ _ _ (sane_models _ _ Hs) Hi) as Hm.
  pose proof (sane_vram _ _ Hs). pose proof (sane_host _ _ Hs).
  pose proof (vram_of_nonneg _ Hm). pose proof (held_nonneg _ Hm).
  eapply sane_set_model; try done; [by apply to_disk_ok| | |].
  - change (vram_of (to_disk m)) with 0. lia.
  - change (held (to_disk m)) with 0. lia.
  - intros Ht. by rewrite (Hp : pin (m_load (to_disk m)) = false) in Ht.
Qed.

Lemma expired_unpinned t m : expired t m = true -> pin (m_load m) = false.
Proof. unfold expired. rewrite !andb_true_iff, !negb_true_iff. tauto. Qed.

Lemma expire_from_keeps t n i freed e :
  sane None e -> (i + n <= length (models e))%nat ->
  let r := expire_from t i n freed e in
  sane None (snd r) /\ names (snd r) = names e /\ no_panic (fst r).
Proof.
  revert i freed e. induction n as [|n IH]; intros i freed e He Hlen; cbn [expire_from]; [done|].
  destruct (lookup_lt_is_Some_2 (models e) i ltac:(lia)) as [m Hi].
  cbn zeta. em. rewrite (model_at_run _ _ _ Hi). destruct (expired t m) eqn:Hex; [|apply IH; [done|lia]].
  pose proof (sane_to_disk (tick e) i m (sane_tick _ _ He) Hi (expired_unpinned _ _ Hex)) as Ht.
  pose proof (sane_to_disk e i m He Hi (expired_unpinned _ _ Hex)) as Hd.
  pose proof (names_set_model e i m (to_disk m) Hi eq_refl) as Hn.
  destruct (in_vram m); em.
  - rewrite gpu_run. destruct (driver (ticks e)); em; [by split_and!; [apply sane_tick|..]|].
    rewrite (on_model_run i _ m (tick e)) by done. em.
    destruct (IH (S i) true (set_model (tick e) i (to_disk m)) Ht) as (?&Hn'&?); [cbn; rewrite length_insert; lia|].
    split_and!; [done|by rewrite Hn'|done].
  - rewrite (on_model_run i _ m e) by done. em.
    destruct (IH (S i) true (set_model e i (to_disk m)) Hd) as (?&Hn'&?); [cbn; rewrite length_insert; lia|].
    split_and!; [done|by rewrite Hn'|done].
Qed.

Lemma zsum_sublist {A} (f : A -> Z) (l k : list A) :
  Forall (fun x => 0 <= f x) k -> l `sublist_of` k -> zsum f l <= zsum f k.
Proof.
  intros Hk Hsub. induction Hsub as [|x l k _ IH|x l k _ IH]; [done| |];
    apply Forall_cons in Hk as [? Hk]; specialize (IH Hk); zsum.
Qed.

(** Dropping models and encoders keeps an engine sane. *)
Definition stays_in (m : Model) : Prop := pin (m_load m) = true -> in_vram m = true.

Lemma sane_keep hole e ms hs :
  sane hole e -> ms `sublist_of` models e -> hs `sublist_of` encoders e -> Forall stays_in ms ->
  sane None (set_encoders (set_models e ms) hs).
Proof.
  intros [Hok Henc Hv Hh _ Hnd] Hms Hhs Hin. split; cbn.
  - rewrite Forall_forall in *. intros m Hm. apply Hok. by eapply elem_of_sublist.
  - rewrite Forall_forall in *. intros h Hm. apply Henc. by eapply elem_of_sublist.
  - rewrite used_alt in *. cbn.
    pose proof (zsum_sublist enc_bytes _ _ Henc Hhs).
    enough (zsum vram_of ms <= zsum vram_of (models e)) by lia.
    apply zsum_sublist; [|done]. eapply Forall_impl; [done|]. apply vram_of_nonneg.
  - unfold hosted in *. cbn. etrans; [|exact Hh].
    apply zsum_sublist; [|done]. eapply Forall_impl; [done|]. apply held_nonneg.
  - intros k m Hk Hp. left. by apply (Forall_lookup_1 _ _ _ _ Hin Hk).
  - eapply sublist_NoDup; [exact Hnd|]. unfold names. cbn.
    apply sublist_app; by apply fmap_sublist.
Qed.

Lemma sane_stays e : sane None e -> Forall stays_in (models e).
Proof.
  intros Hs. apply Forall_lookup. intros k m Hk Hp. by destruct (sane_pins _ _ Hs k m Hk Hp).
Qed.

Lemma sane_drop e ms hs :
  sane None e -> ms `sublist_of` models e -> hs `sublist_of` encoders e ->
  sane None (set_encoders (set_models e ms) hs).
Proof.
  intros Hs Hms Hhs. apply (sane_keep None); [done..|].
  pose proof (sane_stays _ Hs) as Hin. rewrite Forall_forall in *.
  intros m Hm. apply Hin. by eapply elem_of_sublist.
Qed.

(** The last model, the hole, taken off the list. *)
Lemma sane_pop i e :
  sane (Some i) e -> length (models e) = S i -> sane None (set_models e (take i (models e))).
Proof.
  intros Hs Hlen. destruct e as [ms es vl hl p t]. cbn in *.
  apply (sane_keep (Some i) (mkEngine ms es vl hl p t) (take i ms) es); [done| |done|].
  - cbn. rewrite <- (take_drop i ms) at 2. by apply sublist_inserts_r.
  - apply Forall_lookup. intros k m Hk Hp. apply lookup_take_Some in Hk as [Hk Hlt].
    destruct (sane_pins _ _ Hs k m Hk Hp) as [|[= ->]]; [done|lia].
Qed.

Lemma names_drop e ms hs :
  ms `sublist_of` models e -> hs `sublist_of` encoders e ->
  names (set_encoders (set_models e ms) hs) ⊆ names e.
Proof.
  intros Hms Hhs x. unfold names. cbn. intros Hx. eapply elem_of_sublist; [done|].
  apply sublist_app; by apply fmap_sublist.
Qed.

Lemma keeps_drop_encoders hs e :
  sane None e -> hs `sublist_of` encoders e ->
  sane None (set_encoders e hs) /\ names (set_encoders e hs) ⊆ names e.
Proof.
  intros He Hhs. destruct e as [ms es vl hl p t]. split.
  - by apply (sane_drop _ ms hs) in He.
  - by apply (names_drop (mkEngine ms es vl hl p t) ms hs).
Qed.

Lemma keeps_expire : keeps expire.
Proof.
  clear Hfiles. unfold expire. apply keeps_bind; [apply keeps_now|]. intros t e He. em.
  destruct (expire_from_keeps t (length (models e)) 0 false e He) as (Hs&Hn&Hp); [done|].
  destruct (expire_from _ _ _ _ _) as [[freed|x|] e1]; cbn in Hs, Hn, Hp; [|by rewrite <- Hn|done]. em.
  pose proof (sublist_filter (fun h => enc_alive t h = true) (encoders e1)) as Hsub.
  destruct (keeps_drop_encoders _ _ Hs Hsub) as [Hs2 Hn2]. rewrite <- Hn.
  set (e2 := set_encoders e1 _) in *. destruct (_ || _); [|done].
  destruct (keeps_gpu e2 Hs2) as (?&?&?). split_and!; [done|set_solver|done].
Qed.

Lemma unload_spec nm e :
  sane None e ->
  sane None (snd (unload nm e)) /\ names (snd (unload nm e)) ⊆ names e
  /\ nm ∉ names (snd (unload nm e)) /\ no_panic (fst (unload nm e)).
Proof.
  intros He. unfold unload. cbn [fst snd].
  pose proof (sublist_filter (fun m => m_name m <> nm) (models e)) as Hms.
  pose proof (sublist_filter (fun h => h_name h <> nm) (encoders e)) as Hhs.
  pose proof (sane_drop _ _ _ He Hms Hhs) as Hs. pose proof (names_drop _ _ _ Hms Hhs) as Hn.
  split_and!; [by apply sane_tick|done| |done].
  unfold names. cbn. rewrite elem_of_app, !list_elem_of_fmap.
  intros [(m&->&Hm)|(h&->&Hh)]; apply list_elem_of_filter in Hm || apply list_elem_of_filter in Hh; naive_solver.
Qed.

(** ** Loading *)
Lemma sane_push_encoder e h :
  sane None e -> 0 <= enc_bytes h -> used e + enc_bytes h <= vram_limit e -> h_name h ∉ names e ->
  sane None (set_encoders e (encoders e ++ [h])).
Proof.
  intros [Hok Henc Hv Hh Hpin Hnd] Hb Hu Hn. split; cbn; [done| | |done|done|].
  - by apply Forall_app_2; [|constructor].
  - rewrite used_alt in *. cbn. rewrite zsum_app. zsum. change (zsum enc_bytes []) with 0. lia.
  - unfold names in *. cbn. rewrite fmap_app, app_assoc. apply NoDup_app. split_and!; [done| |apply NoDup_singleton].
    intros x Hx ->%list_elem_of_singleton. done.
Qed.

Lemma sane_push_model e m :
  sane None e -> model_ok m -> at_ m = Disk -> m_name m ∉ names e ->
  sane (Some (length (models e))) (set_models e (models e ++ [m])).
Proof.
  intros [Hok Henc Hv Hh Hpin Hnd] Hm Hat Hn.
  assert (vram_of m = 0) as Hvm by (apply vram_of_out; [done|]; unfold in_vram; by rewrite Hat).
  assert (held m = 0) as Hhm by (unfold held; by rewrite Hat).
  split; cbn; [|done| | | |].
  - by apply Forall_app_2; [|constructor].
  - rewrite used_alt in *. cbn. rewrite zsum_app. zsum. change (zsum vram_of []) with 0. lia.
  - unfold hosted in *. cbn. rewrite zsum_app. zsum. change (zsum held []) with 0. lia.
  - intros k n [Hk|(Hk&Hn')]%lookup_app_Some Hp; [destruct (Hpin k n Hk Hp); [by left|done]|].
    apply list_lookup_singleton_Some in Hn' as [Hk' <-]. right. f_equal. lia.
  - unfold names in *. cbn. rewrite fmap_app. cbn.
    rewrite <- app_assoc. apply NoDup_Permutation_proper with (m_name m :: (m_name <$> models e) ++ (h_name <$> encoders e)).
    + rewrite Permutation_middle. done.
    + by constructor.
Qed.

Lemma load_encoder_spec nm dir ld e :
  sane None e -> nm ∉ names e ->
  sane None (snd (load_encoder nm dir ld e)) /\ no_panic (fst (load_encoder nm dir ld e)).
Proof.
  intros He Hn. unfold load_encoder. em. destruct (Hfiles dir) as [_ _ Henc _ _ Hp].
  destruct (enc_footprint (disk dir)) as [n|x|] eqn:Hfp; [|done|by destruct Hp as (_&_&_&[]&_)].
  destruct (Henc n eq_refl) as [Hsz Hn0]. em.
  destruct (make_room n None e) as [r e1] eqn:Hr.
  destruct (make_room_spec _ _ _ _ _ (sane_models _ _ He) (sane_host _ _ He) Hr) as (Hmv&Hh&_&Hres).
  pose proof (sane_moves _ _ _ _ He Hmv Hh) as Hs. destruct r as [[]|x|]; [|done|done]. em.
  rewrite gpu_run. destruct (driver (ticks e1)); em; [by split; [apply sane_tick|]|].
  split; [|done]. cbn [snd]. apply sane_tick in Hs. apply sane_tick in Hs.
  apply (sane_push_encoder (tick (tick e1))); [done|cbn; lia| |].
  - cbn in Hres |- *. rewrite Hsz. by rewrite (moves_vram _ _ _ Hmv).
  - change (nm ∉ names e1). by rewrite (names_moves _ _ _ Hmv).
Qed.

Lemma last_resident_spec i e :
  sane (Some i) e -> length (models e) = S i ->
  sane None (snd (last_resident e)) /\ no_panic (fst (last_resident e)).
Proof.
  intros Hs Hlen. unfold last_resident. rewrite Hlen. replace (S i - 1)%nat with i by lia.
  destruct (lookup_lt_is_Some_2 (models e) i ltac:(lia)) as [m Hi].
  destruct (resident i e) as [r e'] eqn:Hr.
  destruct (resident_spec _ _ _ _ _ Hs Hi Hr) as (Hs'&Hlen'&m'&Hi'&Hsame&Hres).
  destruct r as [[]|x|]; [| |done]; cbn.
  - split; [|done]. eapply sane_close; [done|done|by intros].
  - split; [|done]. rewrite Hlen', Hlen. replace (S i - 1)%nat with i by lia. apply sane_pop; [done|lia].
Qed.

(** [keeps] without the names: what every call promises. *)
Definition safe {A} (m : EM A) : Prop :=
  forall e, sane None e -> sane None (snd (m e)) /\ no_panic (fst (m e)).

Lemma keeps_safe {A} (m : EM A) : keeps m -> safe m.
Proof. intros H e He. by destruct (H e He) as (?&_&?). Qed.
Lemma safe_bind {A B} (m : EM A) (k : A -> EM B) :
  safe m -> (forall a, safe (k a)) -> safe (m ≫= k).
Proof.
  intros Hm Hk e He. destruct (Hm e He) as [Hs Hp]. rewrite em_bind.
  destruct (m e) as [[a|x|] e1]; [by apply Hk|done|done].
Qed.

Lemma safe_load nm dir ld : safe (load nm dir ld).
Proof.
  intros e He. unfold load. rewrite em_bind.
  destruct (unload_spec nm e He) as (Hs1&_&Hn1&_).
  destruct (unload nm e) as [[b|x|] e1] eqn:Hun; [|done|done]. cbn in Hs1, Hn1. rewrite em_bind.
  destruct (keeps_expire e1 Hs1) as (Hs2&Hn2&Hp2).
  destruct (expire e1) as [[[]|x|] e2]; [|done|done]. cbn in Hs2, Hn2, Hp2.
  assert (nm ∉ names e2) as Hfresh by set_solver.
  destruct (no_file_panics _ (Hfiles dir)) as (Hp3&Hp4&Hp5&_). em.
  destruct (is_encoder (disk dir)) as [enc|x|]; [|done|done]. destruct enc; [by apply load_encoder_spec|]. em.
  destruct (text_files (disk dir)) as [ends_|x|]; [|done|done]. em.
  pose proof (Hp5 (settings ld)) as Hp6. pose proof (footprint_ok _ (Hfiles dir) (settings ld)) as Hfp.
  destruct (footprint (disk dir) (settings ld)) as [n|x|]; [|done|done]. em.
  set (m := mkModel _ _ _ _ _ _ _ _ _ _).
  apply (last_resident_spec (length (models (tick (tick e2))))).
  - apply (sane_push_model (tick (tick e2)) m); [by apply sane_tick, sane_tick| |done|done].
    split; try done. by apply Hfp.
  - cbn. rewrite length_app. cbn. lia.
Qed.

Lemma sane_set_encoder e j h h' :
  sane None e -> encoders e !! j = Some h -> enc_bytes h' = enc_bytes h -> h_name h' = h_name h ->
  let e' := set_encoders e (<[j := h']> (encoders e)) in sane None e' /\ names e' = names e.
Proof.
  intros [Hok Henc Hv Hh Hpin Hnd] Hj Hb Hn. cbn zeta.
  assert (names (set_encoders e (<[j:=h']> (encoders e))) = names e) as Hnames.
  { unfold names. cbn. rewrite list_fmap_insert, list_insert_id; [done|].
    rewrite list_lookup_fmap, Hj. cbn. by rewrite Hn. }
  split; [|done]. split; try done; [| |by rewrite Hnames]; cbn.
  - apply Forall_insert; [done|]. rewrite Hb. by apply (Forall_lookup_1 _ _ _ _ Henc Hj).
  - rewrite used_alt in *. cbn. rewrite (zsum_insert _ _ _ _ _ Hj). lia.
Qed.

Lemma keeps_encoder nm : keeps (encoder nm).
Proof.
  intros e He. unfold encoder. em.
  destruct (list_find _ (encoders e)) as [[j h]|] eqn:Hf; [|done]. em.
  apply list_find_Some in Hf as (Hj&_&_).
  destruct (sane_set_encoder (tick e) j h (mkHeld (h_name h) (enc_bytes h) (h_keep h) (h_pin h)
     (later (clock (ticks e)) (h_keep h))) (sane_tick _ _ He) Hj eq_refl eq_refl) as [? Hn].
  split_and!; [done| |done]. cbn [snd]. etrans; [|change (names e) with (names (tick e)); by rewrite <- Hn]. done.
Qed.

Lemma keeps_ask_encoder nm : keeps (ask_encoder nm).
Proof.
  unfold ask_encoder. apply keeps_bind; [apply keeps_expire|]. intros _.
  apply keeps_bind; [apply keeps_encoder|]. intros _. apply keeps_gpu.
Qed.

(** ** Chat: a model that answers stays in VRAM *)
Definition ready (i : nat) (e : Engine) : Prop :=
  sane None e /\ exists m, models e !! i = Some m /\ in_vram m = true.

(** [answers i m]: with model [i] in VRAM, [m] neither panics nor moves it out. *)
Definition answers {A} (i : nat) (m : EM A) : Prop :=
  forall e, ready i e -> ready i (snd (m e)) /\ no_panic (fst (m e)).

Lemma answers_bind {A B} i (m : EM A) (k : A -> EM B) :
  answers i m -> (forall a, answers i (k a)) -> answers i (m ≫= k).
Proof.
  intros Hm Hk e He. destruct (Hm e He) as [Hs Hp]. rewrite em_bind.
  destruct (m e) as [[a|x|] e1]; [by apply Hk|done|done].
Qed.
Lemma answers_get i : answers i get.
Proof. by intros e He. Qed.
Lemma answers_ret {A} i (a : A) : answers i (mret a).
Proof. by intros e He. Qed.
Lemma answers_lift {A} i (r : result A) : no_panic r -> answers i (lift r).
Proof. by intros Hr e He. Qed.
Lemma answers_gpu i : answers i gpu.
Proof.
  intros e (He&m&?). rewrite gpu_run. split; [split; [by apply sane_tick|by exists m]|]. cbn. by destruct (driver _).
Qed.
Lemma answers_now i : answers i now.
Proof. intros e (He&m&?). split; [split; [by apply sane_tick|by exists m]|done]. Qed.
Lemma answers_model_at i : answers i (model_at i).
Proof. intros e (He&m&Hi&?). rewrite (model_at_run _ _ _ Hi). split; [by split; [|exists m]|done]. Qed.
Lemma answers_dec_of i : answers i (dec_of i).
Proof.
  intros e (He&m&Hi&Hv). unfold dec_of. em. rewrite (model_at_run _ _ _ Hi). unfold in_vram in Hv.
  destruct (at_ m) eqn:Hat; [|done|done]. split; [|done]. split; [done|]. exists m. split; [done|].
  unfold in_vram. by rewrite Hat.
Qed.

Lemma answers_make_room i n : answers i (make_room n (Some i)).
Proof.
  intros e (He&m&Hi&Hv). destruct (make_room n (Some i) e) as [r e'] eqn:Hr.
  destruct (make_room_spec _ _ _ _ _ (sane_models _ _ He) (sane_host _ _ He) Hr) as (Hmv&Hh&_&Hres).
  split; [|by destruct r]. split; [by eapply sane_moves|].
  destruct (moves_at _ _ _ _ _ Hmv Hi) as (m'&Hi'&[[]|[]]); [|congruence]. exists m'. split; [done|congruence].
Qed.

(** A tower that comes in beside its model, room for it made. *)
Lemma answers_tower i n v a :
  0 <= n ->
  (forall m, model_ok m -> in_vram m = true -> 0 <= default 0 (v m) /\ 0 <= default 0 (a m)
     /\ default 0 (v m) + default 0 (a m) <= towers m + n) ->
  answers i (make_room n (Some i) ≫= fun _ => on_model i (fun m => set_towers m (v m) (a m))).
Proof.
  intros Hn Hva e He. destruct (answers_make_room i n e He) as [(Hs&m&Hi&Hv) Hp].
  destruct He as [He _]. rewrite em_bind. destruct (make_room n (Some i) e) as [r e1] eqn:Hr.
  destruct (make_room_spec _ _ _ _ _ (sane_models _ _ He) (sane_host _ _ He) Hr) as (Hmv&_&_&Hres).
  cbn in Hs, Hi, Hp. destruct r as [[]|x|]; [|by split; [split; [|exists m]|]|done].
  rewrite (on_model_run _ _ _ _ Hi). split; [|done].
  pose proof (Forall_lookup_1 _ _ _ _ (sane_models _ _ Hs) Hi) as Hm.
  destruct (Hva m Hm Hv) as (?&?&Hle). destruct Hm as [? ? ? ? _].
  split.
  - eapply sane_set_model; [done|done| |done| | |by left].
    + split; try done. intros Hout. change (in_vram m = false) in Hout. congruence.
    + cbn in Hres. rewrite (moves_vram _ _ _ Hmv). unfold vram_of.
      change (in_vram (set_towers m (v m) (a m))) with (in_vram m). rewrite Hv.
      change (towers (set_towers m (v m) (a m))) with (default 0 (v m) + default 0 (a m)).
      change (need (set_towers m (v m) (a m))) with (need m). lia.
    + pose proof (sane_host _ _ Hs). change (held (set_towers m (v m) (a m))) with (held m). lia.
  - eexists. split; [cbn; apply list_lookup_insert_eq; by eapply lookup_lt_Some|done].
Qed.

Lemma answers_vision i : answers i (vision_tower i).
Proof.
  intros e He. pose proof He as (Hs&m&Hi&Hv). unfold vision_tower. em. rewrite (model_at_run _ _ _ Hi).
  destruct (vision m) as [b|] eqn:Hvm; [done|].
  pose proof (vision_ok _ (Hfiles (m_dir m))) as Hsz.
  destruct (vision_size _) as [n|]; [|done]. destruct (fst (marks _)) as [t|]; [|done].
  apply (answers_bind i gpu); [apply answers_gpu|intros _|done].
  apply (answers_tower i n (fun _ => Some n) audio); [done|].
  intros m0 [? ? ? ? _] _. unfold towers. cbn in *. lia.
Qed.

Lemma answers_hearing i : answers i (hearing i).
Proof.
  intros e He. pose proof He as (Hs&m&Hi&Hv). unfold hearing. em. rewrite (model_at_run _ _ _ Hi).
  destruct (audio m) as [b|] eqn:Ham; [done|].
  pose proof (audio_ok _ (Hfiles (m_dir m))) as Hsz.
  destruct (audio_size _) as [n|]; [|done]. destruct (snd (marks _)) as [t|]; [|done].
  apply (answers_bind i gpu); [apply answers_gpu|intros _|done].
  apply (answers_tower i n vision (fun _ => Some n)); [done|].
  intros m0 [? ? ? ? _] _. unfold towers. cbn in *. lia.
Qed.

Lemma answers_media_from i b l soft : answers i (media_from i b l soft).
Proof.
  revert soft. induction l as [|x l IH]; intros soft; cbn [media_from]; [apply answers_ret|].
  apply answers_bind; [|intros s; apply IH].
  destruct x as [x|x]; (apply answers_bind; [apply answers_vision || apply answers_hearing|intros _]);
    (apply answers_bind; [apply answers_model_at|intros m]); apply answers_lift;
    destruct (no_file_panics _ (Hfiles (m_dir m))) as (_&_&_&_&H1&H2); [apply H1|apply H2].
Qed.

Lemma answers_media i req : answers i (media i req).
Proof. apply answers_bind; [apply answers_model_at|]. intros m. apply answers_media_from. Qed.

Lemma slots_no_panic p mk soft w : no_panic (slots p mk soft w).
Proof. unfold slots. by destruct (_ || _). Qed.

Lemma sane_prompt hole e p : sane hole e -> sane hole (set_prompt e p).
Proof. intros []. by split. Qed.

Lemma answers_encode i m req soft : answers i (encode m req soft).
Proof.
  intros e (He&n&Hi&Hv). unfold encode. em.
  assert (forall p, ready i (set_prompt e p)) as Hr by (split; [by apply sane_prompt|by exists n]).
  destruct (_ >=? _); (split; [apply Hr|]); [done|apply slots_no_panic].
Qed.

Lemma answers_gpu_token i : answers i gpu_token.
Proof.
  apply answers_bind; [apply answers_get|]. intros t.
  apply answers_bind; [apply answers_gpu|]. intros _. apply answers_ret.
Qed.

Lemma answers_feed i : answers i (feed i).
Proof.
  apply answers_bind; [apply answers_dec_of|intros _].
  do 2 (apply answers_bind; [apply answers_gpu|intros _]).
  apply answers_bind; [apply answers_gpu_token|intros t].
  apply answers_bind; [apply answers_gpu|intros _]. apply answers_ret.
Qed.

(** From a sane engine, [resident] of a listed model keeps it sane. *)
Lemma resident_ready i e :
  sane None e -> (i < length (models e))%nat ->
  sane None (snd (resident i e)) /\ no_panic (fst (resident i e))
  /\ (fst (resident i e) = Ok tt -> ready i (snd (resident i e))).
Proof.
  intros He Hlt. destruct (lookup_lt_is_Some_2 _ _ Hlt) as [m Hi].
  destruct (resident i e) as [r e'] eqn:Hr.
  destruct (resident_spec _ _ _ _ _ (sane_weaken _ _ He) Hi Hr) as (Hs&_&m'&Hi'&Hsame&Hres). cbn.
  assert (sane None e') as Hs'.
  { eapply sane_close; [done|done|]. intros Hp. rewrite (same_load _ _ Hsame) in Hp.
    pose proof (sane_stays _ He) as Hst. specialize (Forall_lookup_1 _ _ _ _ Hst Hi Hp) as Hv.
    destruct r; [done|congruence|done]. }
  split_and!; [done|by destruct r|]. intros ->. split; [done|]. by exists m'.
Qed.

Lemma position_lt nm ms i : position nm ms = Some i -> (i < length ms)%nat.
Proof.
  unfold position. destruct (list_find _ ms) as [[j m]|] eqn:Hf; [|done]. intros [= <-].
  apply list_find_Some in Hf as (Hj&_&_). by eapply lookup_lt_Some.
Qed.

Context {D : Type} `{!Detok D}.

(** What [chat] gives: a stream of a model that is in VRAM. *)
Lemma chat_spec nm req e :
  sane None e ->
  match chat nm req e with
  | (Ok s, e') => ready (s_model s) e' /\ tokens s = 0
  | (Err _, e') => sane None e'
  | (Panic, _) => False
  end.
Proof.
  intros He. unfold chat. rewrite em_bind. destruct (keeps_expire e He) as (Hs&_&Hp).
  destruct (expire e) as [[[]|x|] e1]; [|done|done]. cbn in Hs, Hp. em.
  destruct (position nm (models e1)) as [i|] eqn:Hpos; cbn [ok_or]; [|done]. em.
  destruct (resident_ready i e1 Hs (position_lt _ _ _ Hpos)) as (Hs2&Hp2&Hrdy).
  destruct (resident i e1) as [[[]|x|] e2]; [|done|done]. specialize (Hrdy eq_refl). cbn in Hrdy. em.
  destruct (answers_media i req e2 Hrdy) as [Hr3 Hp3].
  destruct (media i req e2) as [[soft|x|] e3]; [|by destruct Hr3|done]. cbn in Hr3. em.
  destruct (answers_model_at i e3 Hr3) as [Hr4 Hp4].
  destruct (model_at i e3) as [[m|x|] e4]; [|by destruct Hr4|done]. cbn in Hr4. em.
  destruct (answers_encode i m req soft e4 Hr4) as [Hr5 Hp5].
  destruct (encode m req soft e4) as [[sl|x|] e5]; [|by destruct Hr5|done]. cbn in Hr5. em.
  destruct (answers_feed i e5 Hr5) as [Hr6 Hp6].
  destruct (feed i e5) as [[first|x|] e6]; [|by destruct Hr6|done]. done.
Qed.
End Run.
