(* ===== verification/Calls.v ===== *)
(** * Calls of the engine ([engine.rs])

    An application's calls, one after the other: [run]. What holds after any
    of them: the limits, the pinned models, the listing; and what a chat's
    stream hands out. *)
From Stdlib Require Import Sorting.Sorted.
From S2P Require Import Prelude Engine Memory.

Inductive Call :=
| CLoad (nm dir : list Z) (ld : Load)
| CUnload (nm : list Z)
| CExpire
| CList
| CAsk (nm : list Z)
| CChat (nm : list Z) (req : Request) (pulls : nat).

Section Calls.
Context `{W : World} {D : Type} `{!Detok D}.

(** A caller takes [n] pieces of an answer, whatever each call returns. *)
Fixpoint pull (n : nat) (s : TokenStream D) (e : Engine) : result (TokenStream D) * Engine :=
  match n with
  | O => (Ok s, e)
  | S n => match next_text s e with
           | (Panic, _, e) => (Panic, e)
           | (_, s, e) => pull n s e
           end
  end.

Definition chat_and_drop (nm : list Z) (req : Request) (pulls : nat) : EM unit :=
  s ← chat nm req; s ← pull pulls s; drop_stream s.

Definition call (c : Call) : EM unit :=
  match c with
  | CLoad nm dir ld => load nm dir ld
  | CUnload nm => unload nm ≫= fun _ => mret tt
  | CExpire => expire
  | CList => list_models ≫= fun _ => mret tt
  | CAsk nm => ask_encoder nm
  | CChat nm req n => chat_and_drop nm req n
  end.

(** The calls of an application, errors ignored; nothing after a panic. *)
Fixpoint run (cs : list Call) (e : Engine) : option Engine :=
  match cs with
  | [] => Some e
  | c :: cs => match call c e with
               | (Panic, _) => None
               | (_, e) => run cs e
               end
  end.

(** ** The stream *)
Context (Hfiles : forall d, files_ok (disk d)).

Lemma answers_take_next (s : TokenStream D) : answers (s_model s) (take_next s).
Proof.
  unfold take_next. destruct (next s); [apply answers_ret|].
  apply answers_bind; [apply answers_dec_of|]. intros _. apply answers_gpu_token.
Qed.

Lemma answers_token (s : TokenStream D) : answers (s_model s) (token_and_model s).
Proof.
  apply answers_bind; [apply answers_take_next|]. intros t.
  apply answers_bind; [apply answers_model_at|]. intros m. apply answers_ret.
Qed.

Definition stream_ok (i : nat) (keep : Z) (s : TokenStream D) : Prop :=
  s_model s = i /\ s_keep s = keep /\ 0 <= left s.

Lemma next_loop_ready i keep fuel (s : TokenStream D) txt e :
  ready i e -> stream_ok i keep s -> left s <= Z.of_nat fuel ->
  let '(r, s', e') := next_loop fuel s txt e in ready i e' /\ stream_ok i keep s' /\ no_panic r.
Proof.
  revert s txt e. induction fuel as [|fuel IH]; intros s txt e He (Hm&Hk&Hl) Hf; cbn [next_loop];
    (destruct (bool_decide (txt = []) && (0 <? left s)) eqn:Hc; [|done]);
    apply andb_true_iff in Hc as [_ Hc%Z.ltb_lt]; [lia|].
  subst i. destruct (answers_token s e He) as [Hr Hp]. destruct (token_and_model s e) as [[[t m]|x|] e1]; cbn in Hr, Hp; [|done|done].
  destruct (bool_decide (t ∈ ends m)); [done|].
  destruct (push (m_dir m) _ t) as [d out].
  apply IH; [done|split_and!; cbn; lia|cbn; lia].
Qed.

Lemma next_text_ready i keep (s : TokenStream D) e :
  ready i e -> stream_ok i keep s ->
  let '(r, s', e') := next_text s e in ready i e' /\ stream_ok i keep s' /\ no_panic r.
Proof.
  intros He Hs. unfold next_text.
  assert (left s <= Z.of_nat (Z.to_nat (left s))) as Hf by (destruct Hs as (_&_&?); lia).
  pose proof (next_loop_ready i keep (Z.to_nat (left s)) s [] e He Hs Hf) as H.
  destruct (next_loop _ s [] e) as [[[t|x|] s1] e1]; destruct H as (?&?&?); try done.
  destruct (left s1 =? 0); [|done]. by destruct (finish (detok s1)).
Qed.

Lemma pull_ready i keep n (s : TokenStream D) e :
  ready i e -> stream_ok i keep s ->
  match pull n s e with
  | (Ok s', e') => ready i e' /\ stream_ok i keep s'
  | _ => False
  end.
Proof.
  revert s e. induction n as [|n IH]; intros s e He Hs; cbn [pull]; [done|].
  pose proof (next_text_ready i keep s e He Hs) as H.
  destruct (next_text s e) as [[[t|x|] s1] e1]; destruct H as (?&?&?); try done; by apply IH.
Qed.

Lemma safe_ignore {A} (m : EM A) : safe m -> safe (ignore m).
Proof. intros Hm e He. destruct (Hm e He) as [Hs Hp]. unfold ignore. by destruct (m e) as [[|?|] ?]. Qed.

Lemma answers_touch i keep : answers i (touch i keep).
Proof.
  unfold touch. apply answers_bind; [apply answers_now|]. intros t e (He&m&Hi&Hv).
  rewrite (on_model_run _ _ _ _ Hi). split; [|done]. split.
  - pose proof (sane_vram _ _ He). pose proof (sane_host _ _ He).
    destruct (Forall_lookup_1 _ _ _ _ (sane_models _ _ He) Hi).
    eapply sane_set_model; [done|done|by split|done| | |by left].
    + change (vram_of (set_times m t (later t keep))) with (vram_of m). lia.
    + change (held (set_times m t (later t keep))) with (held m). lia.
  - eexists. split; [cbn; apply list_lookup_insert_eq; by eapply lookup_lt_Some|done].
Qed.

Lemma drop_stream_safe (s : TokenStream D) e :
  ready (s_model s) e -> sane None (snd (drop_stream s e)) /\ no_panic (fst (drop_stream s e)).
Proof.
  intros He. unfold drop_stream. rewrite em_bind. destruct (answers_dec_of _ e He) as [Hr1 Hp1].
  destruct (dec_of _ e) as [[d|x|] e1]; [|by destruct Hr1|done]. cbn in Hr1. rewrite em_bind.
  destruct (answers_gpu _ e1 Hr1) as [Hr2 Hp2]. unfold ignore at 1 3.
  destruct (gpu e1) as [[[]|x|] e2]; [| |done]; cbn in Hr2; rewrite em_bind;
    (destruct (answers_touch _ (s_keep s) e2 Hr2) as [Hr3 Hp3];
     destruct (touch _ _ e2) as [[[]|y|] e3]; [|by destruct Hr3|done]; destruct Hr3 as [Hs3 _];
     apply (safe_ignore expire); [apply keeps_safe, keeps_expire|done]).
Qed.

(** An encoded prompt fits the context, with a token to spare. *)
Lemma encode_fits m req soft e sl e' :
  encode m req soft e = (Ok sl, e') -> zlen (prompt e') < context (settings (m_load m)).
Proof.
  unfold encode. em. destruct (Z.geb_spec (zlen (template (disk (m_dir m)) (messages req) (think req)))
    (context (settings (m_load m)))); [done|]. intros [= _ <-]. cbn. lia.
Qed.

(** [feed] changes neither the models nor the prompt. *)
Lemma feed_quiet i e : models (snd (feed i e)) = models e /\ prompt (snd (feed i e)) = prompt e.
Proof.
  unfold feed, dec_of, gpu_token, model_at. em. destruct (models e !! i) as [m|]; [|done]. cbn [or_panic].
  destruct (at_ m); em; try done. rewrite gpu_run. destruct (driver _); [done|]. em.
  rewrite gpu_run. destruct (driver _); [done|]. em. rewrite gpu_run. destruct (driver _); [done|]. em.
  rewrite gpu_run. by destruct (driver _).
Qed.

Lemma encode_models m req soft e : models (snd (encode m req soft e)) = models e.
Proof. unfold encode. em. by destruct (_ >=? _). Qed.

(** What an answer may take: the request's tokens, or what the context has left. *)
Lemma chat_left nm req e s e' :
  chat nm req e = (Ok s, e') ->
  exists m, models e' !! s_model s = Some m
    /\ left s = Z.min (max_tokens req) (context (settings (m_load m)) - zlen (prompt e'))
    /\ zlen (prompt e') < context (settings (m_load m)) /\ detok s = detok_new.
Proof.
  unfold chat. rewrite em_bind. destruct (expire e) as [[[]|x|] e1]; [|done|done]. em.
  destruct (position nm (models e1)) as [i|]; cbn [ok_or]; [|done]. em.
  destruct (resident i e1) as [[[]|x|] e2]; [|done|done]. em.
  destruct (media i req e2) as [[soft|x|] e3]; [|done|done]. em.
  unfold model_at. em. destruct (models e3 !! i) as [m|] eqn:Hi; cbn [or_panic]; [|done]. em.
  pose proof (encode_models m req soft e3) as Hm.
  destruct (encode m req soft e3) as [[sl|x|] e5] eqn:Henc; [|done|done]. em. cbn in Hm.
  apply encode_fits in Henc. pose proof (feed_quiet i e5) as [Hfm Hfp].
  destruct (feed i e5) as [[first|x|] e6]; [|done|done]. cbn in Hfm, Hfp. intros [= <- <-].
  exists m. cbn [s_model left detok]. rewrite Hfm, Hm, Hfp. done.
Qed.

Lemma safe_chat_and_drop nm req n : 0 <= max_tokens req -> safe (chat_and_drop nm req n).
Proof.
  intros Hmax e He. unfold chat_and_drop. rewrite em_bind.
  pose proof (chat_spec Hfiles nm req e He) as Hc.
  destruct (chat nm req e) as [[s|x|] e1] eqn:Hch; [|done|done]. rewrite em_bind.
  apply chat_left in Hch as (m&_&Hl&Hp&_). destruct Hc as [Hr _].
  pose proof (pull_ready (s_model s) (s_keep s) n s e1 Hr ltac:(split_and!; [done|done|lia])) as Hpull.
  destruct (pull n s e1) as [[s'|x|] e2]; [|done|done]. destruct Hpull as [Hr2 (Hm&_)].
  apply drop_stream_safe. by rewrite Hm.
Qed.

(** ** The invariant, call after call *)
Definition call_ok (c : Call) : Prop :=
  match c with CChat _ req _ => 0 <= max_tokens req | _ => True end.

Lemma safe_call c : call_ok c -> safe (call c).
Proof.
  destruct c as [nm dir ld|nm| | |nm|nm req n]; cbn; intros Hc.
  - by apply safe_load.
  - intros e He. destruct (unload_spec nm e He) as (?&_&_&?). rewrite em_bind.
    by destruct (unload nm e) as [[b|x|] e1].
  - apply keeps_safe, keeps_expire.
  - intros e He. split; [by apply sane_tick|done].
  - apply keeps_safe, keeps_ask_encoder.
  - by apply safe_chat_and_drop.
Qed.

Lemma run_sane cs e : Forall call_ok cs -> sane None e -> exists e', run cs e = Some e' /\ sane None e'.
Proof.
  intros Hcs. revert e. induction Hcs as [|c cs Hc _ IH]; intros e He; cbn [run]; [by exists e|].
  destruct (safe_call c Hc e He) as [Hs Hp].
  destruct (call c e) as [[a|x|] e1]; [by apply IH|by apply IH|done].
Qed.

Lemma sane_new vram host total ram :
  0 <= vram_limit (new vram host total ram) -> 0 <= host_limit (new vram host total ram) ->
  sane None (new vram host total ram).
Proof. intros Hv Hh. split; try done. apply NoDup_nil_2. Qed.

(** ** What an answer says

    With a GPU that does not fail: the tokens it samples, up to the first end
    token or as many as are left. *)
Fixpoint sampled_answer (ends_ : list Z) (t n : nat) : list Z :=
  match n with
  | O => []
  | S n => if bool_decide (sampled t ∈ ends_) then [] else sampled t :: sampled_answer ends_ (S t) n
  end.
Definition answer (ends_ : list Z) (s : TokenStream D) (e : Engine) : list Z :=
  match next s, Z.to_nat (left s) with
  | None, n => sampled_answer ends_ (ticks e) n
  | Some _, O => []
  | Some t, S n => if bool_decide (t ∈ ends_) then [] else t :: sampled_answer ends_ (ticks e) n
  end.

(** The text of some tokens, and the detokenizer after them. *)
Fixpoint say (dir : list Z) (d : D) (ts : list Z) : D * list Z :=
  match ts with
  | [] => (d, [])
  | t :: ts => let '(d, out) := push dir d t in let '(d, rest) := say dir d ts in (d, out ++ rest)
  end.

(** [while let Some(text) = answer.next_text()?]: all the text of an answer. *)
Fixpoint drain (fuel : nat) (s : TokenStream D) (e : Engine) : option (list Z * TokenStream D) :=
  match fuel with
  | O => None
  | S fuel =>
      match next_text s e with
      | (Ok None, s, _) => Some ([], s)
      | (Ok (Some t), s, e) => '(u, s) ← drain fuel s e; Some (t ++ u, s)
      | _ => None
      end
  end.

Section Answer.
Context (Hgpu : forall n, driver n = None).

Lemma token_run (s : TokenStream D) e m :
  models e !! s_model s = Some m -> in_vram m = true ->
  token_and_model s e =
    match next s with
    | Some t => (Ok (t, m), e)
    | None => (Ok (sampled (ticks e), m), tick e)
    end.
Proof.
  intros Hi Hv. unfold token_and_model, take_next, dec_of, gpu_token. rewrite em_bind.
  destruct (next s); em; [by rewrite (model_at_run _ _ _ Hi)|].
  rewrite (model_at_run _ _ _ Hi). unfold in_vram in Hv. destruct (at_ m); [|done|done]. em.
  rewrite gpu_run, Hgpu. em. by rewrite (model_at_run _ m).
Qed.

Lemma answer_step ends_ (s : TokenStream D) e t e1 d k :
  0 < left s ->
  (next s = Some t /\ e1 = e \/ next s = None /\ t = sampled (ticks e) /\ e1 = tick e) ->
  answer ends_ s e =
    if bool_decide (t ∈ ends_) then []
    else t :: answer ends_ (mkStream (s_model s) (s_keep s) d None (left s - 1) k) e1.
Proof.
  intros Hl Ht. unfold answer. cbn. replace (Z.to_nat (left s)) with (S (Z.to_nat (left s - 1))) by lia.
  by destruct Ht as [[-> ->]|(->&->&->)].
Qed.

(** One call of [next_text]: it says the next tokens of the answer, [pre],
    and leaves the rest; it stops at a text or at the answer's end. *)
Record said (m : Model) (s : TokenStream D) (e : Engine) (txt pre out : list Z)
    (s' : TokenStream D) (e' : Engine) : Prop := {
  said_answer : answer (ends m) s e = pre ++ answer (ends m) s' e';
  said_text : exists o, say (m_dir m) (detok s) pre = (detok s', o) /\ out = txt ++ o;
  said_tokens : tokens s' = tokens s + zlen pre;
  said_left : 0 <= left s' <= left s;
  said_stop : out <> [] \/ left s' = 0;
  said_less : left s' < left s \/ left s = 0 \/ txt <> [];
  said_models : models e' = models e;
  said_model : s_model s' = s_model s;
}.

Lemma said_refl m (s : TokenStream D) e txt :
  0 <= left s -> txt <> [] \/ left s = 0 -> said m s e txt [] txt s e.
Proof.
  intros Hl Hs. split; [done| |zlen|lia|done|tauto|done|done]. exists []. by rewrite app_nil_r.
Qed.

Lemma answer_over ends_ (s : TokenStream D) e : left s = 0 -> answer ends_ s e = [].
Proof. intros Hl. unfold answer. rewrite Hl. by destruct (next s). Qed.

Lemma next_loop_says fuel (s : TokenStream D) txt e m :
  models e !! s_model s = Some m -> in_vram m = true -> 0 <= left s <= Z.of_nat fuel ->
  exists pre out s' e', next_loop fuel s txt e = (Ok out, s', e') /\ said m s e txt pre out s' e'.
Proof.
  revert s txt e. induction fuel as [|fuel IH]; intros s txt e Hi Hv Hl; cbn [next_loop];
    (destruct (bool_decide (txt = []) && (0 <? left s)) eqn:Hc;
     [|exists [], txt, s, e; split; [done|]; apply andb_false_iff in Hc;
       rewrite bool_decide_eq_false, Z.ltb_ge in Hc; apply said_refl; [lia|]; destruct Hc; auto with lia]);
    apply andb_true_iff in Hc as [Htxt%bool_decide_eq_true Hc%Z.ltb_lt]; [lia|].
  rewrite (token_run _ _ _ Hi Hv).
  set (t := match next s with Some t => t | None => sampled (ticks e) end).
  set (e1 := match next s with Some _ => e | None => tick e end).
  assert (match next s with Some t => (Ok (t, m), e) | None => (Ok (sampled (ticks e), m), tick e) end
          = (Ok (t, m) : result (Z * Model), e1)) as -> by (subst t e1; by destruct (next s)).
  assert (next s = Some t /\ e1 = e \/ next s = None /\ t = sampled (ticks e) /\ e1 = tick e) as Ht
    by (subst t e1; destruct (next s); auto).
  assert (models e1 = models e) as He1 by (subst e1; by destruct (next s)). cbn [detok s_model s_keep left tokens].
  destruct (push (m_dir m) (detok s) t) as [d o] eqn:Hpush.
  pose proof (answer_step (ends m) s e t e1 d (tokens s + 1) Hc Ht) as Hans.
  destruct (bool_decide (t ∈ ends m)) eqn:Hend.
  - exists [], txt. eexists. exists e1. split; [done|].
    split; [| |cbn; zlen|cbn; lia|by right|by left|done|done].
    + by rewrite Hans, answer_over.
    + exists []. by rewrite app_nil_r.
  - set (s1 := mkStream (s_model s) (s_keep s) d None (left s - 1) (tokens s + 1)) in *.
    destruct (IH s1 (txt ++ o) e1) as (pre&out&s'&e'&Hrun&[Ha (o'&Ho&->) Htok Hleft Hstop Hless Hmod Hm]);
      [by rewrite He1|done|cbn; lia|]. cbn in *.
    exists (t :: pre), ((txt ++ o) ++ o'), s', e'. split; [done|].
    split; [| |zlen|lia|done|left; lia|congruence|done].
    + by rewrite Hans, Ha.
    + exists (o ++ o'). cbn. rewrite Hpush, Ho. by rewrite app_assoc.
Qed.

Lemma say_app dir d pre post :
  say dir d (pre ++ post) =
    let '(d, o) := say dir d pre in let '(d, o') := say dir d post in (d, o ++ o').
Proof.
  revert d. induction pre as [|t pre IH]; intros d; cbn; [by destruct (say dir d post)|].
  destruct (push dir d t) as [d1 o1]. rewrite IH. destruct (say dir d1 pre) as [d2 o2].
  destruct (say dir d2 post) as [d3 o3]. by rewrite app_assoc.
Qed.

(** All the text of an answer: what its tokens say, and what [finish] adds. *)
Definition full_text (dir : list Z) (d : D) (ts : list Z) : list Z :=
  let '(d, o) := say dir d ts in o ++ snd (finish d).

Lemma full_text_app dir d pre post d' o :
  say dir d pre = (d', o) -> full_text dir d (pre ++ post) = o ++ full_text dir d' post.
Proof.
  intros Hs. unfold full_text. rewrite say_app, Hs. destruct (say dir d' post). by rewrite app_assoc.
Qed.

(** An answer that has ended: at most one more call says something. *)
Lemma next_text_over (s : TokenStream D) e :
  left s = 0 ->
  next_text s e =
    let '(d, o) := finish (detok s) in
    (Ok (if bool_decide (o = []) then None else Some o),
     mkStream (s_model s) (s_keep s) d (next s) (left s) (tokens s), e).
Proof.
  intros Hl. unfold next_text. rewrite Hl. change (Z.to_nat 0) with 0%nat.
  assert (next_loop 0 s [] e = (Ok [], s, e)) as ->.
  { cbn [next_loop]. rewrite Hl. cbn. done. }
  rewrite Hl. cbn. by destruct (finish (detok s)).
Qed.

Lemma drain_over fuel (s : TokenStream D) e m :
  left s = 0 -> (1 < fuel)%nat ->
  exists s', drain fuel s e = Some (full_text (m_dir m) (detok s) [], s') /\ tokens s' = tokens s.
Proof.
  intros Hl Hf. destruct fuel as [|[|fuel]]; [lia|lia|]. unfold full_text. cbn [say drain].
  rewrite next_text_over by done. pose proof (finish_finish (detok s)) as Hff.
  destruct (finish (detok s)) as [d o]. cbn [fst snd app] in *.
  destruct (bool_decide_reflect (o = [])) as [->|Ho]; [eexists; by split|].
  rewrite next_text_over by done. cbn [detok]. destruct (finish d) as [d' o']. cbn in Hff. subst o'.
  rewrite bool_decide_true by done. cbn. rewrite app_nil_r. eexists. by split.
Qed.

Lemma drain_says fuel (s : TokenStream D) e m :
  models e !! s_model s = Some m -> in_vram m = true -> 0 <= left s -> left s + 1 < Z.of_nat fuel ->
  exists s', drain fuel s e = Some (full_text (m_dir m) (detok s) (answer (ends m) s e), s')
    /\ tokens s' = tokens s + zlen (answer (ends m) s e).
Proof.
  revert s e. induction fuel as [|fuel IH]; intros s e Hi Hv Hl Hf; [lia|].
  destruct (decide (left s = 0)) as [H0|Hne].
  - rewrite answer_over by done. destruct (drain_over (S fuel) s e m H0) as (s'&Hd&Ht); [lia|].
    exists s'. split; [done|]. zlen.
  - cbn [drain]. unfold next_text.
    destruct (next_loop_says (Z.to_nat (left s)) s [] e m Hi Hv) as (pre&out&s1&e1&->&Hsaid); [lia|].
    destruct Hsaid as [Ha (o&Ho&->) Htok Hleft Hstop Hless Hmod Hm].
    destruct Hless as [Hless|[?|?]]; [|done|done]. cbn [app] in *.
    rewrite Ha, (full_text_app _ _ _ _ _ _ Ho), zlen_app.
    destruct (Z.eqb_spec (left s1) 0) as [H1|H1].
    + rewrite answer_over by done. destruct (finish (detok s1)) as [d' o'] eqn:Hfin.
      pose proof (finish_finish (detok s1)) as Hff. rewrite Hfin in Hff. cbn in Hff.
      set (s2 := mkStream (s_model s1) (s_keep s1) d' (next s1) (left s1) (tokens s1)).
      unfold full_text at 1. cbn [say]. rewrite Hfin. cbn [snd app].
      destruct (bool_decide_reflect (o ++ o' = [])) as [Hnil|Hnn].
      * exists s2. rewrite Hnil. split; [done|]. cbn. zlen.
      * destruct (drain_over fuel s2 e1 m H1) as (s3&->&Ht3); [lia|]. unfold full_text. cbn [say detok s2].
        destruct (finish d') as [d3 o3]. cbn in Hff. subst o3. cbn. rewrite app_nil_r.
        exists s3. split; [done|]. rewrite Ht3. cbn. zlen.
    + destruct Hstop as [Hout|?]; [|done]. rewrite bool_decide_false by done.
      destruct (IH s1 e1) as (s'&->&Ht); [by rewrite Hm, Hmod|done|lia|lia|].
      exists s'. split; [done|]. lia.
Qed.
End Answer.

(** ** What calls leave alone

    [fixes m]: [m] leaves alone an observation [O] of the engine that no tick
    changes, nor a move of a listed model, nor an encoder. *)
Definition entry (m : Model) : list Z * Load := (m_name m, m_load m).

Section Fixed.
Context {X : Type} (O : Engine -> X).
Context (O_tick : forall e, O (tick e) = O e).
Context (O_model : forall e i m m',
  models e !! i = Some m -> entry m' = entry m -> O (set_model e i m') = O e).
Context (O_encoders : forall e hs, O (set_encoders e hs) = O e).
Context (O_prompt : forall e p, O (set_prompt e p) = O e).

Definition fixes {A} (m : EM A) : Prop := forall e, O (snd (m e)) = O e.

Lemma fixes_bind {A B} (m : EM A) (k : A -> EM B) : fixes m -> (forall a, fixes (k a)) -> fixes (m ≫= k).
Proof.
  intros Hm Hk e. rewrite em_bind. specialize (Hm e). destruct (m e) as [[a|x|] e1]; [|done|done].
  by rewrite Hk.
Qed.
Lemma fixes_ret {A} (a : A) : fixes (mret a).
Proof. done. Qed.
Lemma fixes_lift {A} (r : result A) : fixes (lift r).
Proof. done. Qed.
Lemma fixes_get : fixes get.
Proof. done. Qed.
Lemma fixes_now : fixes now.
Proof. intros e. apply O_tick. Qed.
Lemma fixes_gpu : fixes gpu.
Proof. intros e. apply O_tick. Qed.
Lemma fixes_update {A} (f : Engine -> Engine) (k : Engine -> unit -> EM A) :
  (forall e, O (f e) = O e) -> (forall e u, fixes (k e u)) ->
  fixes (e ← get; put (f e) ≫= k e).
Proof. intros Hf Hk e. em. by rewrite Hk. Qed.
Lemma fixes_model_at i : fixes (model_at i).
Proof. apply fixes_bind; [apply fixes_get|]. intros e. apply fixes_lift. Qed.
Lemma fixes_on_model i f : (forall m, entry (f m) = entry m) -> fixes (on_model i f).
Proof.
  intros Hf e. unfold on_model, model_at. em. destruct (models e !! i) as [m|] eqn:Hi; cbn; [|done].
  by apply (O_model _ _ m).
Qed.

Lemma fixed_make_host_room fuel bytes e : O (make_host_room fuel bytes e) = O e.
Proof.
  revert e. induction fuel as [|fuel IH]; intros e; cbn [make_host_room]; [done|].
  destruct (_ >? _); [|done]. unfold free_pinned.
  destruct (min_by_key _ _) as [[j m]|] eqn:Hmin; [|done].
  apply (least_used_Some (fun p => holds_pinned (snd p))) in Hmin as (Hj&_&_).
  destruct (at_ m); rewrite IH; by apply (O_model _ _ m).
Qed.

Ltac fixes := repeat first
  [ done | apply fixes_ret | apply fixes_lift | apply fixes_get | apply fixes_now | apply fixes_gpu
  | apply fixes_model_at | apply fixes_on_model; [done] | progress intros
  | apply fixes_bind | case_match ].

Lemma fixes_evict i : fixes (evict i).
Proof.
  unfold evict. apply fixes_bind; [apply fixes_model_at|]. intros m.
  apply fixes_bind; [by apply fixes_on_model|]. intros _. apply fixes_bind; [apply fixes_get|]. intros e.
  destruct (at_ m) as [d| |]; [|done|done]. destruct (_ >? _); [done|].
  apply (fixes_update (fun e => make_host_room _ _ e)).
  - intros e1. apply fixed_make_host_room.
  - intros _ _. apply fixes_bind; [apply fixes_gpu|]. intros _. by apply fixes_on_model.
Qed.

Lemma fixes_room fuel n keep : fixes (room fuel n keep).
Proof.
  induction fuel as [|fuel IH]; cbn [room]; (apply fixes_bind; [apply fixes_get|intros e]);
    (destruct (_ >? _); [|done]); (destruct (min_by_key _ _) as [[j m]|]; [|done]); [done|].
  apply fixes_bind; [apply fixes_evict|done].
Qed.
Lemma fixes_make_room n keep : fixes (make_room n keep).
Proof. apply fixes_bind; [apply fixes_get|]. intros e. apply fixes_room. Qed.

Lemma fixes_resident i : fixes (resident i).
Proof.
  unfold resident. apply fixes_bind; [apply fixes_model_at|]. intros m. apply fixes_bind.
  - destruct (in_vram m); [done|apply fixes_make_room].
  - intros _. unfold bring. fixes.
Qed.

Lemma fixes_expire : fixes expire.
Proof.
  unfold expire. apply fixes_bind; [apply fixes_now|]. intros t.
  apply fixes_bind; [apply fixes_get|]. intros e. apply fixes_bind.
  - generalize 0%nat (length (models e)) false. intros i n. revert i.
    induction n as [|n IH]; intros i b; cbn [expire_from]; [done|].
    apply fixes_bind; [apply fixes_model_at|]. intros m. destruct (expired t m); [|apply IH].
    apply fixes_bind; [by destruct (in_vram m)|]. intros _.
    apply fixes_bind; [by apply fixes_on_model|]. intros _. apply IH.
  - intros freed. apply (fixes_update (fun e => set_encoders e _)); [done|]. intros e1 _. by destruct (_ || _).
Qed.

Lemma fixes_tower i : fixes (vision_tower i) /\ fixes (hearing i).
Proof.
  unfold vision_tower, hearing.
  split; (apply fixes_bind; [apply fixes_model_at|intros m]); repeat case_match; try done;
    (apply fixes_bind; [apply fixes_gpu|intros _]); (apply fixes_bind; [apply fixes_make_room|intros _]);
    by apply fixes_on_model.
Qed.

Lemma fixes_media i req : fixes (media i req).
Proof.
  apply fixes_bind; [apply fixes_model_at|]. intros m. generalize (@nil (list Z)).
  induction (media_of (messages req)) as [|x l IH]; intros soft; cbn [media_from]; [done|].
  apply fixes_bind; [|intros s; apply IH].
  destruct x; (apply fixes_bind; [apply fixes_tower|intros _]); fixes.
Qed.

Lemma fixes_chat nm req : fixes (chat nm req).
Proof.
  unfold chat. apply fixes_bind; [apply fixes_expire|]. intros _. apply fixes_bind; [apply fixes_get|]. intros e.
  apply fixes_bind; [apply fixes_lift|]. intros i. apply fixes_bind; [apply fixes_resident|]. intros _.
  apply fixes_bind; [apply fixes_media|]. intros soft. apply fixes_bind; [apply fixes_model_at|]. intros m.
  apply fixes_bind.
  - apply (fixes_update (fun e => set_prompt e _)); [done|]. intros e1 _. by destruct (_ >=? _).
  - intros sl. unfold feed, dec_of, gpu_token. fixes.
Qed.

Lemma next_loop_fixes fuel (s : TokenStream D) txt e :
  let '(_, _, e') := next_loop fuel s txt e in O e' = O e.
Proof.
  revert s txt e. induction fuel as [|fuel IH]; intros s txt e; cbn [next_loop];
    (destruct (_ && _); [|done]); [done|].
  assert (fixes (token_and_model s)) as Ht by (unfold token_and_model, take_next, dec_of, gpu_token; fixes).
  specialize (Ht e). destruct (token_and_model s e) as [[[t m]|x|] e1]; cbn in Ht; [|done|done].
  destruct (bool_decide _); [done|]. destruct (push _ _ t) as [d out].
  specialize (IH (mkStream (s_model s) (s_keep s) d None (left s - 1) (tokens s + 1)) (txt ++ out) e1).
  cbn in IH |- *. destruct (next_loop _ _ _ e1) as [[r s2] e2]. congruence.
Qed.

Lemma next_text_fixes (s : TokenStream D) e : let '(_, _, e') := next_text s e in O e' = O e.
Proof.
  unfold next_text. pose proof (next_loop_fixes (Z.to_nat (left s)) s [] e) as Hn.
  destruct (next_loop _ s [] e) as [[[t|x|] s1] e1]; [|done|done].
  destruct (left s1 =? 0); [|done]. by destruct (finish _).
Qed.

Lemma fixes_pull n (s : TokenStream D) : fixes (pull n s).
Proof.
  revert s. induction n as [|n IH]; intros s e; cbn [pull]; [done|]. pose proof (next_text_fixes s e) as Ht.
  destruct (next_text s e) as [[[t|x|] s1] e1]; [|by rewrite IH|done]. by rewrite IH.
Qed.

Lemma fixes_ignore {A} (m : EM A) : fixes m -> fixes (ignore m).
Proof. intros Hm e. specialize (Hm e). unfold ignore. by destruct (m e) as [[a|x|] e1]. Qed.

Lemma fixes_drop_stream (s : TokenStream D) : fixes (drop_stream s).
Proof.
  unfold drop_stream, dec_of, touch. apply fixes_bind; [by fixes|]. intros d.
  apply fixes_bind; [apply fixes_ignore, fixes_gpu|]. intros _. apply fixes_bind; [by fixes|]. intros _.
  apply fixes_ignore, fixes_expire.
Qed.

Lemma fixes_chat_and_drop nm req n : fixes (chat_and_drop nm req n).
Proof.
  unfold chat_and_drop. apply fixes_bind; [apply fixes_chat|]. intros s.
  apply fixes_bind; [apply fixes_pull|]. intros s'. apply fixes_drop_stream.
Qed.


Lemma fixes_ask_encoder nm : fixes (ask_encoder nm).
Proof.
  unfold ask_encoder. apply fixes_bind; [apply fixes_expire|]. intros _.
  apply fixes_bind; [|intros _; apply fixes_gpu]. unfold encoder.
  apply fixes_bind; [apply fixes_get|]. intros e1.
  destruct (list_find _ _) as [[j h]|]; [|done]. apply fixes_bind; [apply fixes_now|]. intros t.
  intros e. em. apply O_encoders.
Qed.

Lemma fixes_load_encoder nm dir ld : fixes (load_encoder nm dir ld).
Proof.
  unfold load_encoder. apply fixes_bind; [apply fixes_lift|]. intros n.
  apply fixes_bind; [apply fixes_make_room|]. intros _. apply fixes_bind; [apply fixes_gpu|]. intros _.
  apply fixes_bind; [apply fixes_now|]. intros t e. em. apply O_encoders.
Qed.
End Fixed.

(** Only [load] and [unload] change which models are listed, and how each is
    kept; nothing changes the limits. *)
Definition roster (e : Engine) : list (list Z * Load) := entry <$> models e.
Definition limits (e : Engine) : Z * Z := (vram_limit e, host_limit e).

Lemma roster_set_model e i m m' :
  models e !! i = Some m -> entry m' = entry m -> roster (set_model e i m') = roster e.
Proof.
  intros Hi Hm. unfold roster. cbn. rewrite list_fmap_insert, list_insert_id; [done|].
  by rewrite list_lookup_fmap, Hi, Hm.
Qed.

(** [watch L] proves that [L], a lemma of the form [fixes O _], holds of an observation. *)
Ltac watch L := apply L; first [done | exact roster_set_model | idtac].

Lemma roster_unload nm x ld e : x <> nm -> (x, ld) ∈ roster e -> (x, ld) ∈ roster (snd (unload nm e)).
Proof.
  intros Hx (m&[= -> ->]&Hm)%list_elem_of_fmap. unfold roster. cbn.
  apply list_elem_of_fmap. exists m. split; [done|]. by apply list_elem_of_filter.
Qed.

Lemma roster_last_resident e ms m x :
  models e = ms ++ [m] -> x ∈ entry <$> ms -> x ∈ roster (snd (last_resident e)).
Proof.
  intros He Hx. unfold last_resident.
  assert (roster (snd (resident (length (models e) - 1) e)) = roster e) as Hr by watch (fixes_resident roster).
  destruct (resident _ e) as [[[]|y|] e1]; cbn in *; try (rewrite Hr; unfold roster; rewrite He, fmap_app; apply elem_of_app; by left).
  unfold roster. cbn.
  assert (length (models e1) = length (models e)) as ->.
  { apply (f_equal length) in Hr. unfold roster in Hr. by rewrite !length_fmap in Hr. }
  change (x ∈ entry <$> take (length (models e) - 1) (models e1)).
  rewrite fmap_take. change (entry <$> models e1) with (roster e1). rewrite Hr.
  unfold roster. rewrite <- fmap_take, He. rewrite length_app. cbn.
  replace (length ms + 1 - 1)%nat with (length ms) by lia. by rewrite take_app_length.
Qed.

Lemma roster_load nm dir ld x ld' e :
  x <> nm -> (x, ld') ∈ roster e -> (x, ld') ∈ roster (snd (load nm dir ld e)).
Proof.
  intros Hx Hin. apply (roster_unload nm) in Hin; [|done]. unfold load. rewrite em_bind.
  destruct (unload nm e) as [[b|y|] e1]; [|done|done]. cbn in Hin. rewrite em_bind.
  assert (roster (snd (expire e1)) = roster e1) as Hex by watch (fixes_expire roster). destruct (expire e1) as [[[]|y|] e2]; cbn in Hex; rewrite <- Hex in Hin; [|done|done].
  em. destruct (is_encoder (disk dir)) as [enc|y|]; [|done|done]. destruct enc.
  - assert (roster (snd (load_encoder nm dir ld e2)) = roster e2) as -> by watch (fixes_load_encoder roster). done.
  - em. destruct (text_files (disk dir)) as [en|y|]; [|done|done]. em.
    destruct (footprint (disk dir) (settings ld)) as [n|y|]; [|done|done]. em.
    by eapply roster_last_resident.
Qed.

Definition replaces (c : Call) (nm : list Z) : Prop :=
  match c with CLoad x _ _ | CUnload x => x = nm | _ => False end.

Lemma roster_call c nm ld e : ~ replaces c nm -> (nm, ld) ∈ roster e -> (nm, ld) ∈ roster (snd (call c e)).
Proof.
  destruct c as [x dir l|x| | |x|x req n]; cbn [call replaces]; intros Hc Hin.
  - apply roster_load; [congruence|done].
  - rewrite em_bind. apply (roster_unload x) in Hin; [|congruence]. by destruct (unload x e) as [[b|y|] e1].
  - assert (roster (snd (expire e)) = roster e) as -> by watch (fixes_expire roster). done.
  - done.
  - assert (roster (snd (ask_encoder x e)) = roster e) as -> by watch (fixes_ask_encoder roster). done.
  - assert (roster (snd (chat_and_drop x req n e)) = roster e) as -> by watch (fixes_chat_and_drop roster). done.
Qed.

Lemma limits_call c e : limits (snd (call c e)) = limits e.
Proof.
  destruct c as [x dir l|x| | |x|x req n]; cbn [call].
  - unfold load. apply (fixes_bind limits); [done|]. intros _ e1. apply (fixes_bind limits).
    { watch (fixes_expire limits). }
    intros _. apply (fixes_bind limits); [done|]. intros enc. destruct enc; [watch (fixes_load_encoder limits)|].
    do 2 (apply (fixes_bind limits); [done|]; intros ?). intros e2. em. unfold last_resident.
    match goal with |- context [resident ?i ?e3] =>
      assert (limits (snd (resident i e3)) = limits e3) as Hr by watch (fixes_resident limits);
      destruct (resident i e3) as [[[]|y|] e4]; exact Hr
    end.
  - done.
  - watch (fixes_expire limits).
  - done.
  - watch (fixes_ask_encoder limits).
  - watch (fixes_chat_and_drop limits).
Qed.

Lemma limits_chat nm req e : limits (snd (chat nm req e)) = limits e.
Proof. watch (fixes_chat limits). Qed.
Lemma limits_next_text (s : TokenStream D) e : let '(_, _, e') := next_text s e in limits e' = limits e.
Proof. by apply (next_text_fixes limits). Qed.
Lemma limits_drop_stream (s : TokenStream D) e : limits (snd (drop_stream s e)) = limits e.
Proof. watch (fixes_drop_stream limits). Qed.

Lemma limits_run cs e e' : run cs e = Some e' -> limits e' = limits e.
Proof.
  revert e. induction cs as [|c cs IH]; intros e; cbn [run]; [by intros [= ->]|].
  pose proof (limits_call c e) as Hc. destruct (call c e) as [[a|x|] e1]; cbn in Hc; [| |done];
    intros ->%IH; done.
Qed.
End Calls.

(** ** Soft tokens in a prompt *)
(** A maximal run of a mark: [n] times from position [p]. *)
Definition is_run (mk : option Z * option Z) (prompt : list Z) (p n : nat) : Prop :=
  exists t, marked mk t = true /\ (0 < n)%nat
    /\ (forall q, (p <= q < p + n)%nat -> prompt !! q = Some t)
    /\ prompt !! (p + n)%nat <> Some t
    /\ (p = 0%nat \/ prompt !! (p - 1)%nat <> Some t).

Lemma take_while_length t l n :
  length (take_while (Z.eqb t) l) = n <->
  (forall q, (q < n)%nat -> l !! q = Some t) /\ l !! n <> Some t.
Proof.
  revert n. induction l as [|x l IH]; intros n; cbn.
  - split; [intros <-; split; [lia|done]|]. intros [Hq _]. destruct n as [|n]; [done|].
    specialize (Hq 0%nat ltac:(lia)). done.
  - destruct (Z.eqb_spec t x) as [->|Hne]; cbn.
    + destruct n as [|n]; [split; [done|]; intros [_ H]; by destruct H|].
      split.
      * intros [= Hn]. apply IH in Hn as [Hq Hn]. split; [|done]. intros [|q] Hlt; [done|]. apply Hq. lia.
      * intros [Hq Hn]. f_equal. apply IH. split; [|done]. intros q Hlt. apply (Hq (S q)). lia.
    + split; [intros <-; split; [lia|]; cbn; congruence|].
      intros [Hq _]. destruct n as [|n]; [done|]. specialize (Hq 0%nat ltac:(lia)). cbn in Hq. congruence.
Qed.

Lemma last_lookup_pred {A} (l : list A) : last l = l !! (length l - 1)%nat.
Proof. rewrite last_lookup. f_equal. lia. Qed.

(** A run that starts where [rest] does. *)
Lemma is_run_here mk pre t rest n :
  is_run mk (pre ++ t :: rest) (length pre) n <->
  marked mk t = true /\ last pre <> Some t /\ n = length (take_while (Z.eqb t) (t :: rest)).
Proof.
  assert (forall q, (pre ++ t :: rest) !! (length pre + q)%nat = (t :: rest) !! q) as Hat.
  { intros q. rewrite lookup_app_r by lia. f_equal. lia. }
  assert (pre = [] \/ (pre ++ t :: rest) !! (length pre - 1)%nat = last pre) as Hprev.
  { destruct pre as [|x pre]; [by left|right]. rewrite last_lookup_pred, lookup_app_l; [done|]. cbn. lia. }
  split.
  - intros (u&Hu&Hn&Hq&Hend&Hp).
    assert (u = t) as ->. { specialize (Hq (length pre + 0)%nat ltac:(lia)). rewrite Hat in Hq. by injection Hq. }
    split_and!; [done| |].
    + destruct Hprev as [->|Hl]; [done|]. destruct Hp as [Hp|Hp]; [|congruence]. by apply nil_length_inv in Hp as ->.
    + symmetry. apply take_while_length. rewrite Hat in Hend. split; [|done].
      intros q Hlt. rewrite <- Hat. apply Hq. lia.
  - intros (Hm&Hl&Hn). symmetry in Hn. pose proof Hn as Hn'. apply take_while_length in Hn as [Hq Hend].
    exists t. split_and!; [done| | |by rewrite Hat|].
    + cbn in Hn'. rewrite Z.eqb_refl in Hn'. cbn in Hn'. lia.
    + intros q Hlt. replace q with (length pre + (q - length pre))%nat by lia. rewrite Hat. apply Hq. lia.
    + destruct Hprev as [-> | ->]; [by left|by right].
Qed.

Lemma elem_of_runs mk rest : forall pre p n,
  (p, n) ∈ runs mk (zlen pre) (last pre) rest <->
  exists p' n', p = Z.of_nat p' /\ n = Z.of_nat n' /\ (length pre <= p')%nat /\ is_run mk (pre ++ rest) p' n'.
Proof.
  induction rest as [|t rest IH]; intros pre p n.
  - cbn. split; [set_solver|]. intros (p'&n'&->&->&Hp&u&_&Hn&Hq&_).
    specialize (Hq p' ltac:(lia)). rewrite app_nil_r in Hq. apply lookup_lt_Some in Hq. lia.
  - specialize (IH (pre ++ [t]) p n). rewrite zlen_app, last_snoc, <- app_assoc in IH. cbn [app] in IH.
    rewrite length_app in IH. change (zlen [t]) with 1 in IH.
    assert (exists b, b = (marked mk t && negb (bool_decide (last pre = Some t)))) as [b Hb] by eauto.
    assert (b = true <-> marked mk t = true /\ last pre <> Some t) as Hbs.
    { subst b. rewrite andb_true_iff, negb_true_iff, bool_decide_eq_false. done. }
    cbn [runs]. rewrite <- Hb. transitivity (b = true /\ (p, n) = (zlen pre, zlen (take_while (Z.eqb t) (t :: rest)))
      \/ (p, n) ∈ runs mk (zlen pre + 1) (Some t) rest).
    { destruct b; [rewrite elem_of_cons|]; naive_solver. }
    rewrite IH, Hbs. split.
    + intros [[Hm [= -> ->]]|(p'&n'&->&->&Hp&Hr)]; [|exists p', n'; split_and!; [done|done|lia|done]].
      exists (length pre), (length (take_while (Z.eqb t) (t :: rest))). split_and!; [done|done|lia|].
      apply is_run_here. tauto.
    + intros (p'&n'&->&->&Hp&Hr). destruct (decide (p' = length pre)) as [->|Hne].
      * left. apply is_run_here in Hr as (Hm&Hl&->). done.
      * right. exists p', n'. split_and!; [done|done|cbn; lia|done].
Qed.

Lemma runs_from mk rest : forall p prev, Forall (fun r => p <= fst r) (runs mk p prev rest).
Proof.
  induction rest as [|t rest IH]; intros p prev; cbn [runs]; [constructor|].
  assert (Forall (fun r => p <= fst r) (runs mk (p + 1) (Some t) rest)) as Hr.
  { eapply Forall_impl; [apply IH|]. cbn. lia. }
  destruct (_ && _); [by constructor|done].
Qed.

Lemma runs_sorted mk rest : forall p prev,
  StronglySorted (fun a b : Z * Z => fst a < fst b) (runs mk p prev rest).
Proof.
  induction rest as [|t rest IH]; intros p prev; cbn [runs]; [constructor|].
  destruct (_ && _); [|apply IH]. constructor; [apply IH|].
  eapply Forall_impl; [apply runs_from|]. cbn. lia.
Qed.

(** The check [slots] makes of the runs and the sets. *)
Lemma match_sets (rs : list (Z * Z)) (soft : list (list Z)) width :
  Forall2 (fun r s => snd r * width = zlen s) rs soft <->
  negb (zlen rs =? zlen soft) || existsb (fun '(r, s) => negb (snd r * width =? zlen s)) (zip rs soft) = false.
Proof.
  revert soft. induction rs as [|r rs IH]; intros [|x soft]; cbn.
  - done.
  - split; [intros H; inversion H|]. rewrite zlen_cons. pose proof (zlen_nonneg soft). rewrite zlen_nil.
    destruct (Z.eqb_spec 0 (1 + zlen soft)); [lia|done].
  - split; [intros H; inversion H|]. rewrite zlen_cons. pose proof (zlen_nonneg rs). rewrite zlen_nil.
    destruct (Z.eqb_spec (1 + zlen rs) 0); [lia|done].
  - rewrite Forall2_cons, IH, !zlen_cons.
    destruct (Z.eqb_spec (snd r * width) (zlen x)), (Z.eqb_spec (zlen rs) (zlen soft)),
      (Z.eqb_spec (1 + zlen rs) (1 + zlen soft)); cbn; try lia; tauto || naive_solver.
Qed.

(** ** A sample world

    Directories by their first byte: 1 and 2 hold decoders, 3 an encoder; the
    clock advances one second a reading, the GPU never fails, the tokens are
    7, 8, 9, ... *)
Definition sample_files (d : list Z) : Files :=
  let n := default 0 (head d) in
  mkFiles (Ok (n =? 3)) (Ok [9]) (fun _ => Ok (100 * Z.max 1 n)) (60, 10) (Ok 50) 50
    (Some 20) None (4, 0) (Some 5, None) (fun _ _ => Ok [0; 0; 0; 0; 0; 0; 0; 0]) (fun _ => Ok [])
    (fun _ _ => [1; 5; 5; 2]).

#[local] Instance sample_world : World := {|
  disk := sample_files;
  clock n := Z.of_nat n * 1000000000;
  driver _ := None;
  sampled n := Z.of_nat (7 + n mod 3);
|}.

(** A detokenizer that says a token as itself, for the samples. *)
#[local] Instance sample_detok : Detok unit := {|
  detok_new := tt; push _ _ t := (tt, [t]); finish _ := (tt, []); finish_finish _ := eq_refl;
|}.

Definition minute : Z := 60 * 1000000000.
Definition sample_load (pinned : bool) : Load := mkLoad (mkSettings 16 4) (60 * minute) pinned 280.
Definition sample_request : Request :=
  mkRequest [mkMessage User [104; 105] [1] []] false 5 None.
Definition sample_calls : list Call :=
  [CLoad [1] [1] (sample_load true); CLoad [2] [2] (sample_load false); CLoad [3] [3] (sample_load false);
   CLoad [4] [1] (sample_load false); CChat [2] sample_request 3; CList; CExpire].
Definition sample_engine : Engine := new (Some 450) (Some 100) 1000 1000.

Lemma sample_files_ok d : files_ok (@disk sample_world d).
Proof.
  split; cbn; try done; try lia.
  - intros st n [= <-]. lia.
  - intros n [= <-]. done.
Qed.

Lemma sample_run_is_some :
  run sample_calls sample_engine <> None /\ Forall call_ok sample_calls.
Proof. split; [by vm_compute|]. by repeat constructor. Qed.

(** ** Properties *)



(** C16. A pinned model never leaves VRAM: once it is listed, any call other
    than a load or an unload of its own name leaves it listed as it was
    loaded, and in VRAM, even a call that fails. *)
Theorem pinned_model_stays `{W : World} {D : Type} `{!Detok D} vram host total ram cs c e nm ld :
  (forall d, files_ok (disk d)) ->
  0 <= vram_limit (new vram host total ram) -> 0 <= host_limit (new vram host total ram) ->
  Forall call_ok cs -> call_ok c ->
  run cs (new vram host total ram) = Some e ->
  (nm, ld) ∈ roster e -> pin ld = true -> ~ replaces c nm ->
  exists m, m ∈ models (snd (call c e)) /\ m_name m = nm /\ m_load m = ld /\ in_vram m = true.
Proof.
  intros Hf Hv Hh Hcs Hc Hrun Hin Hp Hr.
  destruct (run_sane Hf cs _ Hcs (sane_new _ _ _ _ Hv Hh)) as (e0&Hrun'&Hs).
  rewrite Hrun in Hrun'. injection Hrun' as <-.
  destruct (safe_call Hf c Hc e Hs) as [Hs' _]. pose proof (roster_call c nm ld e Hr Hin) as Hin'.
  apply list_elem_of_fmap in Hin' as (m&[= -> ->]&Hm). exists m. split_and!; [done..|].
  apply list_elem_of_lookup in Hm as [i Hi]. by destruct (sane_pins _ _ Hs' i m Hi Hp).
Qed.

Lemma pinned_model_stays_witness :
  exists m, m ∈ models (snd (@call sample_world unit sample_detok (CLoad [5] [2] (sample_load false))
                (default sample_engine (@run sample_world unit sample_detok sample_calls sample_engine))))
    /\ m_name m = [1] /\ m_load m = sample_load true /\ in_vram m = true.
Proof.
  destruct (@run sample_world unit sample_detok sample_calls sample_engine) as [e|] eqn:He.
  - apply (@pinned_model_stays sample_world unit sample_detok (Some 450) (Some 100) 1000 1000 sample_calls
      (CLoad [5] [2] (sample_load false)) e [1] (sample_load true)).
    + apply sample_files_ok.
    + done.
    + done.
    + exact (proj2 sample_run_is_some).
    + done.
    + exact He.
    + assert ((roster <$> @run sample_world unit sample_detok sample_calls sample_engine)
              = Some [([1], sample_load true); ([2], sample_load false); ([4], sample_load false)]) as Hr
        by (vm_compute; reflexivity).
      rewrite He in Hr. cbn in Hr. injection Hr as ->. left.
    + done.
    + done.
  - destruct (proj1 sample_run_is_some He).
Defined.


(** The engine of the samples, after its calls. *)
Definition sample_after : Engine :=
  default sample_engine (@run sample_world unit sample_detok sample_calls sample_engine).
Lemma sample_after_sane : sane None sample_after.
Proof.
  destruct (run_sane (W := sample_world) (D := unit) sample_files_ok sample_calls sample_engine) as (e&He&Hs).
  - exact (proj2 sample_run_is_some).
  - by apply sane_new.
  - unfold sample_after. by rewrite He.
Qed.


(** [room] moves out the least recently used first, and never a pinned
    model nor the one it keeps: a model that left was in VRAM, not pinned, not
    the one kept, and was used no later than any model that could go and
    stayed; a model that stayed in VRAM keeps its towers. *)
Theorem room_evicts_in_order `{W : World} n keep e j m m' :
  sane None e -> models e !! j = Some m -> in_vram m = true ->
  models (snd (make_room n keep e)) !! j = Some m' ->
  (in_vram m' = true -> vision m' = vision m /\ audio m' = audio m)
  /\ (in_vram m' = false ->
      Some j <> keep /\ pin (m_load m) = false
      /\ forall k x x', models e !! k = Some x -> models (snd (make_room n keep e)) !! k = Some x' ->
           may_go keep (k, x') = true -> used_at m <= used_at x).
Proof.
  intros He Hj Hv Hj'. destruct (make_room n keep e) as [r e'] eqn:Hr. cbn in *.
  destruct (make_room_spec _ _ _ _ _ (sane_models _ _ He) (sane_host _ _ He) Hr) as (Hmv&_&Hord&_).
  destruct (moves_at _ _ _ _ _ Hmv Hj) as (m0&Hm0&Hmd). rewrite Hj' in Hm0. injection Hm0 as <-.
  split; intros Hv'.
  - by destruct Hmd as [[]|[]]; [|congruence].
  - destruct Hmd as [[]|[]]; [congruence|]. split_and!; [done|done|].
    intros k x x' Hk Hk' Hgo. by apply (Hord j m m' k x x').
Qed.

Lemma room_evicts_in_order_witness :
  exists m m', models sample_after !! 1%nat = Some m /\ in_vram m = true
    /\ models (snd (@make_room sample_world 200 None sample_after)) !! 1%nat = Some m' /\ in_vram m' = false
    /\ Some 1%nat <> None /\ pin (m_load m) = false.
Proof.
  destruct (models sample_after !! 1%nat) as [m|] eqn:Hm; [|by vm_compute in Hm].
  destruct (models (snd (@make_room sample_world 200 None sample_after)) !! 1%nat) as [m'|] eqn:Hm';
    [|by vm_compute in Hm'].
  assert (in_vram m = true /\ in_vram m' = false) as [Hv Hv'].
  { vm_compute in Hm. vm_compute in Hm'. by simplify_eq. }
  exists m, m'. destruct (@room_evicts_in_order sample_world 200 None sample_after 1 m m') as [_ Hout].
  - exact sample_after_sane.
  - done.
  - done.
  - done.
  - destruct (Hout Hv') as (?&?&_). by split_and!.
Defined.

(** An answer says its tokens: with a GPU that does not fail, a caller who
    asks for text until there is none gets what the model's tokens say, up to
    the first end token or as many as the request and the context allow,
    and [finish]'s rest; it takes at most that many calls and two. *)
Theorem answer_says_its_tokens `{W : World} {D : Type} `{!Detok D} nm req e s e1 :
  (forall d, files_ok (disk d)) -> (forall k, driver k = None) -> 0 <= max_tokens req ->
  sane None e -> chat nm req e = (Ok s, e1) ->
  exists m s', models e1 !! s_model s = Some m
    /\ drain (Z.to_nat (left s) + 2) s e1 = Some (full_text (m_dir m) detok_new (answer (ends m) s e1), s')
    /\ tokens s' = zlen (answer (ends m) s e1)
    /\ left s = Z.min (max_tokens req) (context (settings (m_load m)) - zlen (prompt e1))
    /\ zlen (prompt e1) < context (settings (m_load m)).
Proof.
  intros Hf Hgpu Hmax He Hchat. pose proof (chat_spec Hf nm req e He) as Hc. rewrite Hchat in Hc.
  destruct Hc as [(Hs&m0&Hi&Hv) Ht0]. pose proof (chat_left _ _ _ _ _ Hchat) as (m&Hm&Hl&Hp&Hd).
  rewrite Hi in Hm. injection Hm as ->.
  destruct (drain_says Hgpu (Z.to_nat (left s) + 2) s e1 m Hi Hv) as (s'&Hdr&Ht); [lia|lia|].
  exists m, s'. rewrite Hd in Hdr. split_and!; [done|done|lia|done|done].
Qed.

Lemma answer_says_its_tokens_witness :
  exists s e1, @chat sample_world unit sample_detok [2] sample_request sample_after = (Ok s, e1)
    /\ exists m s', models e1 !! s_model s = Some m
    /\ @drain sample_world unit sample_detok (Z.to_nat (left s) + 2) s e1
       = Some (@full_text unit sample_detok (m_dir m) tt (@answer sample_world unit (ends m) s e1), s')
    /\ tokens s' = zlen (@answer sample_world unit (ends m) s e1)
    /\ left s = Z.min 5 (context (settings (m_load m)) - zlen (prompt e1))
    /\ zlen (prompt e1) < context (settings (m_load m)).
Proof.
  destruct (@chat sample_world unit sample_detok [2] sample_request sample_after) as [[s|x|] e1] eqn:Hc;
    [|by vm_compute in Hc|by vm_compute in Hc].
  exists s, e1. split; [done|].
  apply (@answer_says_its_tokens sample_world unit sample_detok [2] sample_request sample_after s e1).
  - exact sample_files_ok.
  - done.
  - done.
  - exact sample_after_sane.
  - exact Hc.
Defined.

(** The listing adds up: the models and encoders listed are those loaded,
    in order, and the VRAM they are listed with is what the engine counts
    against its limit; a model is listed with VRAM only where it is. *)
Theorem listing_adds_up `{W : World} e l e' :
  sane None e -> list_models e = (Ok l, e') ->
  map l_name l = names e /\ zsum l_vram l = used e
  /\ forall x, x ∈ l -> l_tier x <> TVram -> l_vram x = 0.
Proof.
  intros He. unfold list_models. em. intros [= <- _]. cbn. rewrite map_app, !map_map.
  split_and!; [done| |].
  - rewrite zsum_app, used_alt, Z.add_comm. f_equal.
    + rewrite zsum_map. by apply zsum_ext_in.
    + rewrite zsum_map. apply zsum_ext_in. intros i m Hi. cbn.
      pose proof (Forall_lookup_1 _ _ _ _ (sane_models _ _ He) Hi) as Hm.
      destruct (in_vram m) eqn:Hv; [unfold vram_of; rewrite Hv; lia|]. by rewrite (vram_of_out _ Hm Hv).
  - intros x [Hx|Hx]%elem_of_app; apply list_elem_of_fmap in Hx as (m&->&Hm); cbn; [|done].
    destruct (in_vram m) eqn:Hv; [|done]. intros []. apply list_elem_of_lookup in Hm as [i Hi].
    unfold tier. case_bool_decide as Hex; [done|]. cbn [models tick].
    match goal with |- context [list_find ?P (models e)] => destruct (list_find P (models e)) as [[j y]|] eqn:Hy end; cbn;
      [|apply list_find_None in Hy; by destruct (Forall_lookup_1 _ _ _ _ Hy Hi)].
    apply list_find_Some in Hy as (Hj&Hn&_).
    assert (j = i) as ->.
    { pose proof (sane_names _ _ He) as Hnd. unfold names in Hnd. apply NoDup_app in Hnd as (Hnd&_&_).
      eapply (NoDup_lookup _ _ _ (m_name m) Hnd); rewrite list_lookup_fmap; [rewrite Hj|rewrite Hi]; cbn; congruence. }
    simplify_eq. unfold tier_of, in_vram in *. by destruct (at_ m).
Qed.

Lemma listing_adds_up_witness :
  exists l e', @list_models sample_world sample_after = (Ok l, e') /\ map l_name l = names sample_after
    /\ zsum l_vram l = used sample_after /\ forall x, x ∈ l -> l_tier x <> TVram -> l_vram x = 0.
Proof.
  destruct (@list_models sample_world sample_after) as [[l|x|] e'] eqn:Hl; [|done|done].
  exists l, e'. split; [done|].
  apply (@listing_adds_up sample_world sample_after l e'); [exact sample_after_sane|exact Hl].
Defined.

(** [slots] places soft tokens where the prompt has their marks, or fails:
    when it succeeds, the sets are placed in their order, one at the start of
    each maximal run of a mark, whose length times the width is the set's
    length; it fails exactly when runs and sets do not match so. *)
Theorem slots_are_the_runs prompt mk soft width :
  exists rs, StronglySorted (fun a b : Z * Z => fst a < fst b) rs
    /\ (forall p n, (p, n) ∈ rs <-> exists p' n', p = Z.of_nat p' /\ n = Z.of_nat n' /\ is_run mk prompt p' n')
    /\ match slots prompt mk soft width with
       | Ok sl => Forall2 (fun r s => snd r * width = zlen s) rs soft /\ sl = zip (map fst rs) soft
       | Err _ => ~ Forall2 (fun r s => snd r * width = zlen s) rs soft
       | Panic => False
       end.
Proof.
  exists (runs mk 0 None prompt). split_and!; [apply runs_sorted| |].
  - intros p n. etrans; [apply (elem_of_runs mk prompt [] p n)|]. cbn. split; intros (p'&n'&?&?&?); exists p', n'.
    + tauto.
    + split_and!; [done|done|lia|done].
  - unfold slots. generalize (runs mk 0 None prompt). intros rs. pose proof (match_sets rs soft width) as Hm.
    destruct (negb _ || existsb _ _); [by intros ?%Hm|]. assert (Forall2 (fun r s => snd r * width = zlen s) rs soft) as Hf
      by (by apply Hm). split; [done|]. clear -Hf. induction Hf as [|r x rs soft _ _ IH]; [done|]. cbn. by rewrite IH.
Qed.
