(* ===== verification/Shm.v ===== *)
(** * A client's shared memory ([serve/shm.rs], [serve/client.rs])

    The memory the daemon and a client share: a control block, a request
    area, a response ring and a data area. The daemon appends messages to the
    ring as frames, the client takes them out, each in its own process; both
    are modelled step by step, memory access by memory access, so that any
    interleaving of the two is a run of [steps]. The words [ring_head] and
    [ring_tail] are accessed with release and acquire order, each written by
    one side only: runs are interleavings over one memory. *)
From S2P Require Import Prelude Bytes.

(** ** Memory *)
Definition Mem : Type := Z -> Z.

(** [copy_nonoverlapping] into the memory, and a slice of it. *)
Definition blit (m : Mem) (at_ : Z) (b : list Z) : Mem := fun i =>
  if (at_ <=? i) && (i <? at_ + zlen b) then default 0 (zget b (i - at_)) else m i.
Definition peek (m : Mem) (at_ : Z) (n : nat) : list Z :=
  map (fun k => m (at_ + Z.of_nat k)) (seq 0 n).

(** A little-endian word of [n] bytes: [put] and [word]. *)
Definition put (n : nat) (at_ v : Z) (m : Mem) : Mem := blit m at_ (le_bytes n v).
Definition word (n : nat) (at_ : Z) (m : Mem) : Z := le_val (peek m at_ n).
Arguments blit : simpl never.
Arguments peek : simpl never.
Arguments put : simpl never.
Arguments word : simpl never.

(** ** The layout *)
Definition MAGIC : Z := 0x59484354.
Definition VERSION : Z := 1.
Definition WRAP : Z := 2 ^ 32 - 1.
Definition REQUEST : Z := 4096.
Definition REQUEST_BYTES : Z := 2 ^ 20.
Definition RING_BYTES : Z := 2 ^ 20.
Definition HEAD : Z := 64.
Definition SEQ : Z := 128.
Definition TAIL : Z := 192.
Definition RING : Z := REQUEST + REQUEST_BYTES.
Definition DATA : Z := REQUEST + REQUEST_BYTES + RING_BYTES.

Record Shared := mkShared { mem : Mem; size : Z }.

(** [Shared::new]: a zeroed file, its control block written. *)
Definition layout_words (data : Z) : list Z :=
  [REQUEST; REQUEST_BYTES; REQUEST + REQUEST_BYTES; RING_BYTES; REQUEST + REQUEST_BYTES + RING_BYTES; data].
Definition shared_new (data : Z) : Shared :=
  let size := REQUEST + REQUEST_BYTES + RING_BYTES + data in
  let m := put 8 8 size (put 4 4 VERSION (put 4 0 MAGIC (fun _ => 0))) in
  mkShared (fold_left (fun m p => put 8 (16 + 8 * Z.of_nat (fst p)) (snd p) m)
              (imap (fun i v => (i, v)) (layout_words data)) m) size.

(** [Daemon::connect]: the layout the control block gives. *)
Definition connect (s : Shared) (welcome : Z) : option (list Z) :=
  let layout := map (fun at_ => word 8 at_ (mem s)) [16; 24; 32; 40; 48; 56] in
  if negb (wrap 32 (word 8 0 (mem s)) =? MAGIC) || negb (word 8 8 (mem s) =? welcome) then None
  else Some layout.

(** ** The data area *)
Definition data (s : Shared) (offset len : Z) : option Z :=
  e ← checked 64 (offset + len); if e <=? size s - DATA then Some (DATA + offset) else None.
Definition read (s : Shared) (offset len : Z) : option (list Z) :=
  at_ ← data s offset len; Some (peek (mem s) at_ (Z.to_nat len)).
Definition write (s : Shared) (offset room : Z) (bytes : list Z) : bool * Shared :=
  match data s offset room with
  | Some at_ => if zlen bytes <=? room then (true, mkShared (blit (mem s) at_ bytes) (size s)) else (false, s)
  | None => (false, s)
  end.

(** ** The ring: the daemon's side, [Shared::append] *)
Definition need (msg : list Z) : Z := next_multiple_of (4 + zlen msg) 8.
Definition ring_at (pos : Z) : Z := RING + pos mod RING_BYTES.
Definition skip (at_ n : Z) : Z :=
  if at_ mod RING_BYTES + n >? RING_BYTES then RING_BYTES - at_ mod RING_BYTES else 0.

(** Where the daemon is in [append]. *)
Inductive dpc :=
| DIdle                                     (** not in [append] *)
| DWait (msg : list Z)                      (** in the loop that waits for room *)
| DSkip (msg : list Z)                      (** there is room *)
| DLen (msg : list Z) (at_ : Z)             (** the frame starts at [at_] *)
| DCopy (msg : list Z) (at_ : Z) (k : nat)  (** [k] bytes copied *)
| DHead (msg : list Z) (at_ : Z)
| DSeq.

(** One access of the daemon; [gone] says the client left. *)
Definition daemon (gone : bool) (m : Mem) (pc : dpc) : Mem * dpc :=
  match pc with
  | DIdle => (m, DIdle)
  | DWait msg =>
      let at_ := word 8 HEAD m in
      if wrap 64 (at_ + skip at_ (need msg) + need msg - word 8 TAIL m) >? RING_BYTES
      then (m, if gone then DIdle else DWait msg)
      else (m, DSkip msg)
  | DSkip msg =>
      let at_ := word 8 HEAD m in
      let sk := skip at_ (need msg) in
      (if sk >? 0 then put 4 (ring_at at_) WRAP m else m, DLen msg (at_ + sk))
  | DLen msg at_ => (put 4 (ring_at at_) (wrap 32 (zlen msg)) m, DCopy msg at_ 0)
  | DCopy msg at_ k =>
      match msg !! k with
      | Some b => (blit m (ring_at at_ + 4 + Z.of_nat k) [b], DCopy msg at_ (S k))
      | None => (m, DHead msg at_)
      end
  | DHead msg at_ => (put 8 HEAD (at_ + need msg) m, DSeq)
  | DSeq => (put 4 SEQ (word 4 SEQ m + 1) m, DIdle)
  end.

(** ** The ring: the client's side, [Daemon::next] *)
Inductive cpc :=
| CTop                                       (** at the top of the loop *)
| CLen (at_ : Z)                             (** there is a frame at [at_] *)
| CWrap (at_ : Z)                            (** it was a wrap mark *)
| CCopy (at_ : Z) (len : Z) (acc : list Z)   (** its bytes copied so far *)
| CTail (at_ : Z) (len : Z) (msg : list Z).

(** One access of the client, and the message it returned, if it did. *)
Definition client (m : Mem) (pc : cpc) : Mem * cpc * option (list Z) :=
  match pc with
  | CTop =>
      let at_ := word 8 TAIL m in
      (m, if at_ <? word 8 HEAD m then CLen at_ else CTop, None)
  | CLen at_ =>
      let len := word 4 (ring_at at_) m in
      (m, if len =? WRAP then CWrap at_ else CCopy at_ len [], None)
  | CWrap at_ => (put 8 TAIL (at_ + RING_BYTES - at_ mod RING_BYTES) m, CTop, None)
  | CCopy at_ len acc =>
      if zlen acc <? len then (m, CCopy at_ len (acc ++ [m (ring_at at_ + 4 + zlen acc)]), None)
      else (m, CTail at_ len acc, None)
  | CTail at_ len msg => (put 8 TAIL (at_ + next_multiple_of (4 + len) 8) m, CTop, Some msg)
  end.

(** ** Reads and writes *)
Lemma blit_outside m a b i : i < a \/ a + zlen b <= i -> blit m a b i = m i.
Proof. intros H. unfold blit. destruct (Z.leb_spec a i), (Z.ltb_spec i (a + zlen b)); [lia|done..]. Qed.

Lemma blit_inside m a b i : 0 <= i < zlen b -> blit m a b (a + i) = default 0 (zget b i).
Proof.
  intros H. unfold blit. destruct (Z.leb_spec a (a + i)), (Z.ltb_spec (a + i) (a + zlen b)); try lia.
  cbn. do 2 f_equal. lia.
Qed.

Lemma length_peek m a n : length (peek m a n) = n.
Proof. unfold peek. by rewrite length_map, length_seq. Qed.

Lemma lookup_peek m a n k : (k < n)%nat -> peek m a n !! k = Some (m (a + Z.of_nat k)).
Proof.
  intros Hk. unfold peek. change (map ?f ?l) with (f <$> l).
  by rewrite list_lookup_fmap, lookup_seq_lt.
Qed.

Lemma peek_ext m m' a n :
  (forall i, a <= i < a + Z.of_nat n -> m' i = m i) -> peek m' a n = peek m a n.
Proof.
  intros H. apply list_eq. intros k. destruct (decide (k < n)%nat) as [Hk|Hk].
  - rewrite !lookup_peek by done. rewrite H by lia. done.
  - rewrite !lookup_ge_None_2 by (rewrite length_peek; lia). done.
Qed.

Lemma peek_blit_disjoint m a b p n :
  p + Z.of_nat n <= a \/ a + zlen b <= p -> peek (blit m a b) p n = peek m p n.
Proof. intros H. apply peek_ext. intros i Hi. apply blit_outside. lia. Qed.

Lemma peek_blit m a b : peek (blit m a b) a (length b) = b.
Proof.
  apply list_eq. intros k. destruct (decide (k < length b)%nat) as [Hk|Hk].
  - rewrite lookup_peek by done. rewrite blit_inside by (unfold zlen; lia). unfold zget.
    destruct (Z.ltb_spec (Z.of_nat k) 0); [lia|]. rewrite Nat2Z.id.
    by destruct (lookup_lt_is_Some_2 b k Hk) as [x ->].
  - rewrite !lookup_ge_None_2 by (rewrite ?length_peek; lia). done.
Qed.

Lemma word_put n a v m : word n a (put n a v m) = wrap (8 * Z.of_nat n) v.
Proof.
  unfold word, put. rewrite <- le_val_bytes. f_equal.
  rewrite <- (le_bytes_length n v) at 2. apply peek_blit.
Qed.

Lemma word_blit_disjoint n p m a b :
  p + Z.of_nat n <= a \/ a + zlen b <= p -> word n p (blit m a b) = word n p m.
Proof. intros H. unfold word. by rewrite peek_blit_disjoint. Qed.

Lemma word_put_disjoint n p k a v m :
  p + Z.of_nat n <= a \/ a + Z.of_nat k <= p -> word n p (put k a v m) = word n p m.
Proof. intros H. apply word_blit_disjoint. by rewrite le_bytes_zlen. Qed.

(** ** Frames *)
Lemma need_spec msg : 4 + zlen msg <= need msg < 12 + zlen msg /\ need msg mod 8 = 0.
Proof. unfold need. pose proof (next_multiple_of_spec (4 + zlen msg) 8 ltac:(lia)). lia. Qed.

(** [RING_BYTES] is only ever known as a multiple of 8. *)
Lemma ring_spec : 8 <= RING_BYTES /\ RING_BYTES mod 8 = 0.
Proof. done. Qed.
#[local] Opaque RING_BYTES RING.

Lemma mod8_ring z : z mod 8 = 0 -> (z mod RING_BYTES) mod 8 = 0.
Proof.
  intros Hz. destruct ring_spec as [Hr Hr8]. rewrite (Z.mod_eq z RING_BYTES) by lia.
  rewrite Zminus_mod, Hz, Z.mul_mod, Hr8 by lia. done.
Qed.

Lemma skip_spec at_ n :
  0 <= n <= RING_BYTES ->
  let a := at_ + skip at_ n in
  a mod RING_BYTES + n <= RING_BYTES /\ 0 <= skip at_ n <= RING_BYTES
  /\ (0 < skip at_ n -> a = at_ + RING_BYTES - at_ mod RING_BYTES)
  /\ (at_ mod 8 = 0 -> a mod 8 = 0).
Proof.
  intros Hn. destruct ring_spec as [Hr Hr8]. cbn zeta. unfold skip.
  pose proof (Z.mod_pos_bound at_ RING_BYTES ltac:(lia)) as Hb.
  destruct (Z.gtb_spec (at_ mod RING_BYTES + n) RING_BYTES) as [Hgt|Hle].
  - assert ((at_ + (RING_BYTES - at_ mod RING_BYTES)) mod RING_BYTES = 0) as H0.
    { rewrite (Z.mod_eq at_ RING_BYTES) by lia.
      replace (at_ + (RING_BYTES - (at_ - RING_BYTES * (at_ / RING_BYTES))))
        with ((1 + at_ / RING_BYTES) * RING_BYTES) by ring. apply Z.mod_mul. lia. }
    split_and!; [lia|lia|lia|lia|].
    intros H8. pose proof (mod8_ring at_ H8) as Hm.
    rewrite Z.add_mod, Zminus_mod, H8, Hr8, Hm by lia. done.
  - rewrite Z.add_0_r. split_and!; [lia|lia|lia|lia|done].
Qed.

(** ** Runs *)
Record State := mkState {
  s_mem : Mem; dp : dpc; cp : cpc;
  sent : list (list Z);   (** messages appended: their head is stored *)
  got : list (list Z);    (** messages the client returned *)
  hd : Z;                 (** bytes appended, ever *)
}.

Inductive step : State -> State -> Prop :=
| step_append s msg :
    dp s = DIdle -> bytes_ok msg -> zlen msg < 2 ^ 32 ->
    step s (mkState (s_mem s) (DWait msg) (cp s) (sent s) (got s) (hd s))
| step_daemon s gone m' pc' :
    daemon gone (s_mem s) (dp s) = (m', pc') ->
    step s (mkState m' pc' (cp s)
              (match dp s with DHead msg _ => sent s ++ [msg] | _ => sent s end) (got s)
              (match dp s with DHead msg at_ => at_ + need msg | _ => hd s end))
| step_client s m' pc' r :
    client (s_mem s) (cp s) = (m', pc', r) ->
    step s (mkState m' (dp s) pc' (sent s) (got s ++ option_list r) (hd s)).

Definition initial (data_bytes : Z) : State :=
  mkState (mem (shared_new data_bytes)) DIdle CTop [] [] 0.
(** Runs in which fewer than [2^63] bytes are ever appended: the words that
    count them do not wrap. *)
Definition bounded (s s' : State) : Prop := step s s' /\ hd s' < 2 ^ 63.
Definition reachable (data_bytes : Z) (s : State) : Prop := rtc bounded (initial data_bytes) s.

(** The frames from position [at_] to the head. *)
Inductive frames (m : Mem) (h : Z) : Z -> list (list Z) -> Prop :=
| frames_nil : frames m h h []
| frames_wrap at_ ms :
    at_ mod RING_BYTES + 4 <= RING_BYTES -> word 4 (ring_at at_) m = WRAP ->
    at_ + RING_BYTES - at_ mod RING_BYTES <= h ->
    frames m h (at_ + RING_BYTES - at_ mod RING_BYTES) ms -> frames m h at_ ms
| frames_msg at_ msg ms :
    at_ mod RING_BYTES + need msg <= RING_BYTES -> word 4 (ring_at at_) m = zlen msg ->
    zlen msg < WRAP -> peek m (ring_at at_ + 4) (length msg) = msg -> at_ + need msg <= h ->
    frames m h (at_ + need msg) ms -> frames m h at_ (msg :: ms).

(** Two memories that hold the same at the ring's positions from [a] to [b]. *)
Definition agree (m m' : Mem) (a b : Z) : Prop :=
  forall p, a <= p < b -> m' (ring_at p) = m (ring_at p).

Lemma ring_at_add p i : 0 <= i -> p mod RING_BYTES + i < RING_BYTES -> ring_at p + i = ring_at (p + i).
Proof.
  intros Hi Hlt. destruct ring_spec as [Hr _]. unfold ring_at.
  pose proof (Z.mod_pos_bound p RING_BYTES ltac:(lia)).
  rewrite <- (Z.add_mod_idemp_l p i) by lia. rewrite (Z.mod_small (p mod RING_BYTES + i)) by lia. lia.
Qed.

Lemma ring_at_inj p q : ring_at p = ring_at q -> 0 < q - p < RING_BYTES -> False.
Proof.
  intros H Hd. destruct ring_spec as [Hr _]. unfold ring_at in H.
  assert ((q - p) mod RING_BYTES = 0) as H0.
  { rewrite Zminus_mod. replace (q mod RING_BYTES - p mod RING_BYTES) with 0 by lia. done. }
  rewrite Z.mod_small in H0 by lia. lia.
Qed.

Lemma peek_agree m m' p off n :
  0 <= off -> p mod RING_BYTES + off + Z.of_nat n <= RING_BYTES -> agree m m' (p + off) (p + off + Z.of_nat n) ->
  peek m' (ring_at p + off) n = peek m (ring_at p + off) n.
Proof.
  intros Ho Hn Ha. apply peek_ext. intros i Hi.
  replace i with (ring_at p + (i - ring_at p)) by lia.
  rewrite !ring_at_add by lia. apply Ha. lia.
Qed.

Lemma word_agree n m m' p :
  p mod RING_BYTES + Z.of_nat n <= RING_BYTES -> agree m m' p (p + Z.of_nat n) ->
  word n (ring_at p) m' = word n (ring_at p) m.
Proof.
  intros Hn Ha. unfold word. rewrite <- (Z.add_0_r (ring_at p)). f_equal.
  apply peek_agree; [lia|lia|]. by rewrite Z.add_0_r.
Qed.

Lemma frames_agree m m' h at_ ms : agree m m' at_ h -> frames m h at_ ms -> frames m' h at_ ms.
Proof.
  destruct ring_spec as [Hr _]. intros Ha Hf.
  induction Hf as [|at_ ms Hin Hw Hle Hf IH|at_ msg ms Hin Hw Hlt Hp Hle Hf IH]; [constructor|..];
    pose proof (Z.mod_pos_bound at_ RING_BYTES ltac:(lia)).
  - apply frames_wrap; [done| |done|].
    + rewrite (word_agree 4 m m'); [done|lia|]. intros p Hp. apply Ha. lia.
    + apply IH. intros p Hp. apply Ha. lia.
  - pose proof (need_spec msg) as [Hn _]. unfold zlen in Hn. apply frames_msg; try done.
    + rewrite (word_agree 4 m m'); [done|lia|]. intros p Hp'. apply Ha. lia.
    + rewrite (peek_agree m m'); [done|lia|lia|]. intros p Hp'. apply Ha. lia.
    + apply IH. intros p Hp'. apply Ha. lia.
Qed.

(** What the daemon writes past the head does not touch what lies before it. *)
Lemma blit_agree m q off b a h :
  0 <= off -> q mod RING_BYTES + off + zlen b <= RING_BYTES ->
  h <= q + off -> q + off + zlen b <= a + RING_BYTES ->
  agree m (blit m (ring_at q + off) b) a h.
Proof.
  intros Ho Hin Hh Ha p Hp. apply blit_outside.
  destruct (decide (ring_at p < ring_at q + off)) as [|Hge]; [by left|right].
  apply Z.nlt_ge. intros Hlt. apply (ring_at_inj p (q + (ring_at p - ring_at q))).
  - rewrite <- ring_at_add by lia. lia.
  - lia.
Qed.

(** ** The invariant *)
Definition frame_room (tl h : Z) (msg : list Z) (at_ : Z) (m : Mem) : Prop :=
  at_ = h + skip h (need msg) /\ at_ + need msg <= tl + RING_BYTES /\ zlen msg < WRAP
  /\ (0 < skip h (need msg) -> word 4 (ring_at h) m = WRAP).

Definition daemon_ok (m : Mem) (tl h : Z) (pc : dpc) : Prop :=
  match pc with
  | DIdle | DSeq => True
  | DWait msg => zlen msg < 2 ^ 32
  | DSkip msg => h + skip h (need msg) + need msg <= tl + RING_BYTES /\ zlen msg < 2 ^ 32
  | DLen msg at_ => frame_room tl h msg at_ m
  | DCopy msg at_ k =>
      frame_room tl h msg at_ m /\ (k <= length msg)%nat
      /\ word 4 (ring_at at_) m = zlen msg /\ peek m (ring_at at_ + 4) k = take k msg
  | DHead msg at_ =>
      frame_room tl h msg at_ m
      /\ word 4 (ring_at at_) m = zlen msg /\ peek m (ring_at at_ + 4) (length msg) = msg
  end.

Definition client_ok (m : Mem) (tl h : Z) (pend : list (list Z)) (pc : cpc) : Prop :=
  match pc with
  | CTop => True
  | CLen at_ => at_ = tl /\ tl < h
  | CWrap at_ => at_ = tl /\ tl < h /\ word 4 (ring_at tl) m = WRAP
  | CCopy at_ len acc =>
      at_ = tl /\ tl < h /\ word 4 (ring_at tl) m = len /\ len <> WRAP
      /\ acc = take (length acc) (default [] (head pend)) /\ zlen acc <= len
  | CTail at_ len msg =>
      at_ = tl /\ tl < h /\ word 4 (ring_at tl) m = len /\ len <> WRAP /\ head pend = Some msg
  end.

Record inv (s : State) : Prop := {
  inv_head : word 8 HEAD (s_mem s) = hd s;
  inv_order : 0 <= word 8 TAIL (s_mem s) <= hd s /\ hd s <= word 8 TAIL (s_mem s) + RING_BYTES;
  inv_align : word 8 TAIL (s_mem s) mod 8 = 0 /\ hd s mod 8 = 0;
  inv_daemon : daemon_ok (s_mem s) (word 8 TAIL (s_mem s)) (hd s) (dp s);
  inv_frames : exists pend,
    frames (s_mem s) (hd s) (word 8 TAIL (s_mem s)) pend /\ sent s = got s ++ pend
    /\ client_ok (s_mem s) (word 8 TAIL (s_mem s)) (hd s) pend (cp s);
}.

Lemma ring_high p : 4096 <= ring_at p.
Proof.
  unfold ring_at. pose proof (Z.mod_pos_bound p RING_BYTES ltac:(by destruct ring_spec; lia)).
  assert (4096 <= RING) by done. lia.
Qed.

(** The control block and the ring do not touch. *)
Lemma low_word n a m q off b :
  a + Z.of_nat n <= 4096 -> 0 <= off -> word n a (blit m (ring_at q + off) b) = word n a m.
Proof. intros Ha Ho. apply word_blit_disjoint. pose proof (ring_high q). lia. Qed.

Lemma low_agree m k at_ v a h : at_ + Z.of_nat k <= 4096 -> agree m (put k at_ v m) a h.
Proof.
  intros Hk p Hp. apply blit_outside. rewrite le_bytes_zlen. pose proof (ring_high p). lia.
Qed.

Lemma low_peek m k at_ v q off n :
  at_ + Z.of_nat k <= 4096 -> 0 <= off -> peek (put k at_ v m) (ring_at q + off) n = peek m (ring_at q + off) n.
Proof.
  intros Hk Ho. apply peek_blit_disjoint. rewrite le_bytes_zlen. pose proof (ring_high q). lia.
Qed.

Lemma low_ring_word m k at_ v q n :
  at_ + Z.of_nat k <= 4096 -> word n (ring_at q) (put k at_ v m) = word n (ring_at q) m.
Proof. intros Hk. unfold word. rewrite <- (Z.add_0_r (ring_at q)). by rewrite low_peek. Qed.

(** What the client is about to read lies before the head. *)
Lemma client_agree m m' tl h pend pc :
  tl mod 8 = 0 -> h mod 8 = 0 -> agree m m' tl h -> client_ok m tl h pend pc -> client_ok m' tl h pend pc.
Proof.
  intros Ht Hh Ha. destruct ring_spec as [Hr Hr8].
  assert (tl < h -> word 4 (ring_at tl) m' = word 4 (ring_at tl) m) as Hw.
  { intros Hlt. apply (word_agree 4).
    - pose proof (mod8_ring tl Ht). pose proof (Z.mod_pos_bound tl RING_BYTES ltac:(lia)).
      pose proof (Z.div_mod (tl mod RING_BYTES) 8 ltac:(lia)). pose proof (Z.div_mod RING_BYTES 8 ltac:(lia)). lia.
    - intros p Hp. apply Ha. pose proof (Z.div_mod tl 8 ltac:(lia)). pose proof (Z.div_mod h 8 ltac:(lia)). lia. }
  destruct pc; cbn; intros H; rewrite ?Hw by tauto; done.
Qed.

Lemma daemon_low m k at_ v tl h pc :
  at_ + Z.of_nat k <= 4096 -> daemon_ok m tl h pc -> daemon_ok (put k at_ v m) tl h pc.
Proof.
  intros Hk. destruct pc; cbn; unfold frame_room; rewrite ?low_ring_word, ?low_peek by lia; done.
Qed.

Lemma client_low m k at_ v tl h pend pc :
  at_ + Z.of_nat k <= 4096 -> client_ok m tl h pend pc -> client_ok (put k at_ v m) tl h pend pc.
Proof. intros Hk. destruct pc; cbn; rewrite ?low_ring_word by done; done. Qed.

(** The tail only grows: the daemon keeps its room. *)
Lemma daemon_tail m tl tl' h pc : tl <= tl' -> daemon_ok m tl h pc -> daemon_ok m tl' h pc.
Proof. intros Ht. destruct pc; cbn; unfold frame_room; intuition lia. Qed.

(** A frame being written: from a step that writes past the head, the frames
    before it and what the client reads are as they were. *)
Lemma inv_write s m' pc' :
  inv s -> agree (s_mem s) m' (word 8 TAIL (s_mem s)) (hd s) ->
  word 8 HEAD m' = word 8 HEAD (s_mem s) -> word 8 TAIL m' = word 8 TAIL (s_mem s) ->
  daemon_ok m' (word 8 TAIL (s_mem s)) (hd s) pc' ->
  inv (mkState m' pc' (cp s) (sent s) (got s) (hd s)).
Proof.
  intros [Hh Ho [Ha8 Hh8] _ (pend&Hf&Hs&Hc)] Ha HH HT Hd. split; cbn; rewrite ?HT, ?HH; try done.
  exists pend. split_and!; [by eapply frames_agree|done|by eapply client_agree].
Qed.

(** Appending a written frame to the frames. *)
Lemma frames_snoc m tl h pend msg at_ :
  frames m h tl pend -> h mod 8 = 0 -> frame_room tl h msg at_ m -> tl <= h -> need msg <= RING_BYTES ->
  word 4 (ring_at at_) m = zlen msg -> peek m (ring_at at_ + 4) (length msg) = msg ->
  frames m (at_ + need msg) tl (pend ++ [msg]).
Proof.
  intros Hf Hh8 (Hat&Hroom&Hlen&Hwrap) Htl Hn Hw Hp. destruct ring_spec as [Hr Hr8].
  pose proof (need_spec msg) as [Hns _]. pose proof (zlen_nonneg msg).
  destruct (skip_spec h (need msg) ltac:(lia)) as (Hin&Hsk&Hpos&_). cbn zeta in *. rewrite <- Hat in *.
  induction Hf as [|a ms Hia Hwa Hle Hf IH|a x ms Hia Hwa Hlt Hpa Hle Hf IH]; cbn [app].
  - assert (frames m (at_ + need msg) at_ [msg]) as Hlast by (apply frames_msg; try done; apply frames_nil).
    destruct (decide (0 < skip h (need msg))) as [Hs|Hs].
    + apply frames_wrap; [|auto|rewrite <- Hpos; lia|by rewrite <- Hpos].
      pose proof (mod8_ring h Hh8). pose proof (Z.mod_pos_bound h RING_BYTES ltac:(lia)).
      pose proof (Z.div_mod (h mod RING_BYTES) 8 ltac:(lia)). pose proof (Z.div_mod RING_BYTES 8 ltac:(lia)). lia.
    + replace h with at_ by lia. done.
  - apply frames_wrap; [done|done|lia|]. apply IH; lia.
  - pose proof (need_spec x) as [Hnx _]. pose proof (zlen_nonneg x).
    apply frames_msg; try done; [lia|]. apply IH; lia.
Qed.

Lemma wrap64_small z : 0 <= z < 2 ^ 64 -> wrap 64 z = z.
Proof. apply wrap_id. Qed.

Lemma word_low_put k a v n b m :
  b + Z.of_nat n <= a \/ a + Z.of_nat k <= b -> word n b (put k a v m) = word n b m.
Proof. apply word_put_disjoint. Qed.

Lemma skip_bound at_ n : 0 <= skip at_ n <= RING_BYTES.
Proof.
  unfold skip. destruct ring_spec as [Hr _]. pose proof (Z.mod_pos_bound at_ RING_BYTES ltac:(lia)).
  destruct (_ >? RING_BYTES); lia.
Qed.

Lemma put_agree m q n v a h :
  q mod RING_BYTES + Z.of_nat n <= RING_BYTES -> h <= q -> q + Z.of_nat n <= a + RING_BYTES ->
  agree m (put n (ring_at q) v m) a h.
Proof.
  intros. unfold put. rewrite <- (Z.add_0_r (ring_at q)). apply blit_agree; rewrite ?le_bytes_zlen; lia.
Qed.

Lemma put_low n a k q v m : a + Z.of_nat n <= 4096 -> word n a (put k (ring_at q) v m) = word n a m.
Proof. intros. unfold put. rewrite <- (Z.add_0_r (ring_at q)). by apply low_word. Qed.

Lemma aligned_fit z : z mod 8 = 0 -> z mod RING_BYTES + 8 <= RING_BYTES.
Proof.
  intros Hz. destruct ring_spec as [Hr Hr8]. pose proof (mod8_ring z Hz).
  pose proof (Z.mod_pos_bound z RING_BYTES ltac:(lia)).
  pose proof (Z.div_mod (z mod RING_BYTES) 8 ltac:(lia)). pose proof (Z.div_mod RING_BYTES 8 ltac:(lia)). lia.
Qed.

(** The frame at the tail: a wrap mark, or the first message. *)
Lemma frames_head m h at_ pend :
  frames m h at_ pend -> at_ < h -> word 4 (ring_at at_) m <> WRAP ->
  exists msg ms, pend = msg :: ms /\ word 4 (ring_at at_) m = zlen msg
    /\ at_ mod RING_BYTES + need msg <= RING_BYTES /\ at_ + need msg <= h
    /\ peek m (ring_at at_ + 4) (length msg) = msg /\ frames m h (at_ + need msg) ms.
Proof. intros Hf Hlt Hw. destruct Hf as [|at_ ms|at_ msg ms]; [lia|done|]. exists msg, ms. done. Qed.

Lemma client_more m tl h h' pend msg pc :
  frames m h tl pend -> h <= h' -> client_ok m tl h pend pc -> client_ok m tl h' (pend ++ [msg]) pc.
Proof.
  intros Hf Hh Hc.
  assert (tl < h -> word 4 (ring_at tl) m <> WRAP -> head (pend ++ [msg]) = head pend) as Hhead.
  { intros Hlt Hw. destruct (frames_head _ _ _ _ Hf Hlt Hw) as (x&ms&->&_). done. }
  destruct pc; cbn in *; [done|lia|intuition lia|..]; destruct Hc as (?&?&?&?&?); rewrite Hhead by congruence;
    split_and!; try done; intuition lia.
Qed.

(** ** Each step of the daemon *)
Section Daemon.
Context (s : State) (Hi : inv s).
Let tl := word 8 TAIL (s_mem s).

(** A frame with room: it lies in the ring in one piece. *)
Lemma room_fits msg at_ :
  frame_room tl (hd s) msg at_ (s_mem s) ->
  at_ mod RING_BYTES + need msg <= RING_BYTES /\ hd s <= at_ /\ 4 + zlen msg <= need msg <= RING_BYTES
  /\ at_ mod 8 = 0.
Proof.
  intros (Hat&Hroom&_&_). destruct Hi as [_ Ho [_ Hh8] _ _]. fold tl in Ho.
  pose proof (skip_bound (hd s) (need msg)). pose proof (need_spec msg) as [Hn _]. pose proof (zlen_nonneg msg).
  destruct (skip_spec (hd s) (need msg)) as (Hin&_&_&H8); [lia|]. cbn zeta in *. rewrite <- Hat in *.
  split_and!; [done|lia|lia|lia|auto].
Qed.

(** Writes to the frame leave the wrap mark before it alone. *)
Lemma frame_room_blit msg at_ off b :
  frame_room tl (hd s) msg at_ (s_mem s) -> 0 <= off -> off + zlen b <= need msg ->
  frame_room tl (hd s) msg at_ (blit (s_mem s) (ring_at at_ + off) b).
Proof.
  intros Hr Ho Hb. destruct (room_fits _ _ Hr) as (Hin&Hge&Hn&Ha8). destruct Hr as (Hat&Hroom&Hlen&Hw).
  destruct Hi as [_ Hord [_ Hh8] _ _]. fold tl in Hord. split_and!; try done. intros Hs. rewrite <- (Hw Hs).
  apply (word_agree 4); [pose proof (aligned_fit _ Hh8); lia|].
  apply blit_agree; try lia.
  pose proof (Z.div_mod at_ 8 ltac:(lia)). pose proof (Z.div_mod (hd s) 8 ltac:(lia)). lia.
Qed.

Lemma inv_wait gone msg :
  dp s = DWait msg -> hd s < 2 ^ 63 ->
  daemon_ok (s_mem s) tl (hd s) (snd (daemon gone (s_mem s) (DWait msg)))
  /\ fst (daemon gone (s_mem s) (DWait msg)) = s_mem s.
Proof.
  intros Hdp Hlt. destruct Hi as [Hh Ho _ Hd _]. rewrite Hdp in Hd. fold tl in Ho. cbn in *.
  assert (RING_BYTES = 2 ^ 20) as HR by done.
  pose proof (need_spec msg) as [Hn _]. pose proof (zlen_nonneg msg). pose proof (skip_bound (hd s) (need msg)).
  rewrite Hh. fold tl. rewrite wrap64_small by lia.
  destruct (Z.gtb_spec (hd s + skip (hd s) (need msg) + need msg - tl) RING_BYTES); [by destruct gone|].
  cbn. split; [|done]. split; [lia|done].
Qed.

(** Writing at most [need msg] bytes at the frame's place. *)
Lemma inv_frame_write msg at_ off b pc' :
  frame_room tl (hd s) msg at_ (s_mem s) -> 0 <= off -> off + zlen b <= need msg ->
  daemon_ok (blit (s_mem s) (ring_at at_ + off) b) tl (hd s) pc' ->
  inv (mkState (blit (s_mem s) (ring_at at_ + off) b) pc' (cp s) (sent s) (got s) (hd s)).
Proof.
  intros Hr Ho Hb Hd. destruct (room_fits _ _ Hr) as (Hin&Hge&Hn&Ha8). destruct Hr as (Hat&Hroom&_).
  apply inv_write; try done; [|by apply low_word|by apply low_word].
  fold tl. apply blit_agree; lia.
Qed.

Lemma inv_skip msg :
  dp s = DSkip msg ->
  inv (mkState (fst (daemon false (s_mem s) (DSkip msg))) (snd (daemon false (s_mem s) (DSkip msg)))
         (cp s) (sent s) (got s) (hd s)).
Proof.
  intros Hdp. pose proof Hi as [Hh Ho [_ Hh8] Hd _]. rewrite Hdp in Hd. fold tl in Ho, Hd. cbn [daemon_ok] in Hd.
  destruct Hd as [Hroom Hlen]. pose proof (need_spec msg) as [Hn _]. pose proof (zlen_nonneg msg).
  pose proof (skip_bound (hd s) (need msg)) as Hsk. assert (RING_BYTES = 2 ^ 20) as HR by done.
  assert (zlen msg < WRAP) as HW by (unfold WRAP; lia). cbn. rewrite Hh.
  destruct (Z.gtb_spec (skip (hd s) (need msg)) 0) as [Hgt|Hle].
  - apply inv_write; try done; [|by apply put_low|by apply put_low|].
    + fold tl. pose proof (aligned_fit _ Hh8). apply put_agree; lia.
    + cbn. split_and!; [done|fold tl; lia|done|]. intros _. by rewrite word_put.
  - apply inv_write; try done. cbn. split_and!; [done|fold tl; lia|done|lia].
Qed.

Lemma inv_len msg at_ :
  dp s = DLen msg at_ ->
  inv (mkState (put 4 (ring_at at_) (wrap 32 (zlen msg)) (s_mem s)) (DCopy msg at_ 0)
         (cp s) (sent s) (got s) (hd s)).
Proof.
  intros Hdp. pose proof Hi as [_ _ _ Hd _]. rewrite Hdp in Hd. fold tl in Hd. cbn [daemon_ok] in Hd.
  destruct (room_fits _ _ Hd) as (Hin&Hge&Hn&Ha8). pose proof Hd as (_&_&Hlen&_). unfold WRAP in Hlen.
  pose proof (zlen_nonneg msg). unfold put. rewrite <- (Z.add_0_r (ring_at at_)).
  apply (inv_frame_write msg at_ 0); rewrite ?le_bytes_zlen; [done|done|lia|]. cbn [daemon_ok].
  split_and!; [|lia| |done].
  - apply frame_room_blit; rewrite ?le_bytes_zlen; [done|lia|lia].
  - rewrite Z.add_0_r. change (blit ?m ?a (le_bytes 4 ?v)) with (put 4 a v m). rewrite word_put.
    unfold wrap. rewrite Z.mod_mod by lia. apply Z.mod_small. lia.
Qed.

Lemma peek_snoc m a k b :
  peek (blit m (a + Z.of_nat k) [b]) a (S k) = peek m a k ++ [b].
Proof.
  apply list_eq. intros i. destruct (decide (i < S k)%nat) as [Hk|Hk].
  - rewrite lookup_peek by done. destruct (decide (i = k)) as [->|Hne].
    + rewrite lookup_app_r by (rewrite length_peek; lia). rewrite length_peek, Nat.sub_diag. cbn. f_equal.
      rewrite <- (Z.add_0_r (a + Z.of_nat k)) at 1. rewrite Z.add_0_r.
      rewrite <- (Z.add_0_r (a + Z.of_nat k)) at 2. by rewrite blit_inside.
    + rewrite lookup_app_l by (rewrite length_peek; lia). rewrite lookup_peek by lia.
      rewrite blit_outside; [done|]. left. lia.
  - rewrite !lookup_ge_None_2; [done|rewrite length_app, length_peek; cbn; lia|rewrite length_peek; lia].
Qed.

Lemma inv_copy msg at_ k :
  dp s = DCopy msg at_ k ->
  inv (mkState (fst (daemon false (s_mem s) (DCopy msg at_ k))) (snd (daemon false (s_mem s) (DCopy msg at_ k)))
         (cp s) (sent s) (got s) (hd s)).
Proof.
  intros Hdp. pose proof Hi as [_ _ _ Hd _]. rewrite Hdp in Hd. fold tl in Hd. cbn [daemon_ok] in Hd.
  destruct Hd as (Hr&Hk&Hw&Hp). destruct (room_fits _ _ Hr) as (Hin&Hge&Hn&Ha8). cbn.
  destruct (msg !! k) as [b|] eqn:Hb; cbn.
  - apply lookup_lt_Some in Hb as Hlt. unfold zlen in Hn.
    rewrite <- Z.add_assoc. apply (inv_frame_write msg at_ (4 + Z.of_nat k)); [done|lia|change (zlen [b]) with 1; lia|].
    cbn [daemon_ok]. split_and!; [apply frame_room_blit; [done|lia|change (zlen [b]) with 1; lia]|lia| |].
    + rewrite word_blit_disjoint; [done|left; lia].
    + rewrite Z.add_assoc, peek_snoc, Hp. symmetry. by apply take_S_r.
  - apply lookup_ge_None in Hb. apply inv_write; try done. cbn [daemon_ok]. fold tl.
    assert (k = length msg) as -> by lia. split_and!; [done|done|]. by rewrite Hp, firstn_all.
Qed.

Lemma inv_head_store msg at_ :
  dp s = DHead msg at_ -> at_ + need msg < 2 ^ 63 ->
  inv (mkState (put 8 HEAD (at_ + need msg) (s_mem s)) DSeq (cp s) (sent s ++ [msg]) (got s) (at_ + need msg)).
Proof.
  intros Hdp Hlt. pose proof Hi as [_ Ho [Ht8 Hh8] Hd (pend&Hf&Hs&Hc)]. rewrite Hdp in Hd. fold tl in Ho, Ht8, Hd, Hf, Hc.
  cbn [daemon_ok] in Hd. destruct Hd as (Hr&Hw&Hp). destruct (room_fits _ _ Hr) as (Hin&Hge&Hn&Ha8).
  pose proof (need_spec msg) as [_ Hn8]. pose proof (zlen_nonneg msg).
  assert (word 8 TAIL (put 8 HEAD (at_ + need msg) (s_mem s)) = tl) as HT
    by (apply word_put_disjoint; unfold HEAD, TAIL; lia).
  split; cbn; rewrite ?HT.
  - rewrite word_put. apply wrap64_small. lia.
  - destruct Hr as (_&Hroom&_). lia.
  - split; [done|]. rewrite Z.add_mod, Ha8, Hn8 by lia. done.
  - done.
  - exists (pend ++ [msg]). split_and!.
    + apply (frames_agree (s_mem s)); [apply low_agree; done|]. by eapply frames_snoc; eauto; lia.
    + rewrite Hs. by rewrite app_assoc.
    + apply client_low; [done|]. apply (client_more _ _ (hd s)); [done|lia|done].
Qed.

Lemma inv_low_put k a v pc :
  a + Z.of_nat k <= 4096 -> (a + Z.of_nat k <= HEAD \/ HEAD + 8 <= a) -> (a + Z.of_nat k <= TAIL \/ TAIL + 8 <= a) ->
  daemon_ok (s_mem s) tl (hd s) pc ->
  inv (mkState (put k a v (s_mem s)) pc (cp s) (sent s) (got s) (hd s)).
Proof.
  intros Hk HH HT Hd. apply inv_write; [done|by apply low_agree| | |by apply daemon_low];
    apply word_put_disjoint; lia.
Qed.

Lemma inv_daemon_step gone m' pc' :
  daemon gone (s_mem s) (dp s) = (m', pc') ->
  let h' := match dp s with DHead msg at_ => at_ + need msg | _ => hd s end in
  h' < 2 ^ 63 ->
  inv (mkState m' pc' (cp s) (match dp s with DHead msg _ => sent s ++ [msg] | _ => sent s end) (got s) h').
Proof.
  intros Hstep h' Hlt. subst h'. destruct (dp s) as [|msg|msg|msg at_|msg at_ k|msg at_|] eqn:Hdp.
  - injection Hstep as <- <-. by apply inv_write.
  - destruct (inv_wait gone msg Hdp Hlt) as [Hd Hm]. rewrite Hstep in Hd, Hm. cbn in Hd, Hm. subst m'. by apply inv_write.
  - pose proof (inv_skip msg Hdp) as H. cbn [daemon fst snd] in Hstep, H. by injection Hstep as <- <-.
  - injection Hstep as <- <-. by apply inv_len.
  - pose proof (inv_copy msg at_ k Hdp) as H. cbn [daemon] in H, Hstep.
    by destruct (msg !! k); injection Hstep as <- <-.
  - injection Hstep as <- <-. by apply inv_head_store.
  - injection Hstep as <- <-. by apply inv_low_put; unfold SEQ, HEAD, TAIL; lia || done.
Qed.
End Daemon.

(** ** Each step of the client *)
(** The client raises the tail past a frame. *)
Lemma inv_tail s tl' pc' ms r :
  inv s -> hd s < 2 ^ 63 ->
  word 8 TAIL (s_mem s) <= tl' <= hd s -> tl' mod 8 = 0 ->
  frames (s_mem s) (hd s) tl' ms -> sent s = (got s ++ r) ++ ms ->
  client_ok (s_mem s) tl' (hd s) ms pc' ->
  inv (mkState (put 8 TAIL tl' (s_mem s)) (dp s) pc' (sent s) (got s ++ r) (hd s)).
Proof.
  intros [Hh Ho [Ht8 Hh8] Hd _] Hlt Htl H8 Hf Hs Hc.
  assert (word 8 TAIL (put 8 TAIL tl' (s_mem s)) = tl') as HT by (rewrite word_put; apply wrap64_small; lia).
  split; cbn; rewrite ?HT.
  - rewrite word_put_disjoint by (unfold HEAD, TAIL; lia). done.
  - lia.
  - done.
  - apply daemon_low; [done|]. eapply daemon_tail; [|done]. lia.
  - exists ms. split_and!; [|done|by apply client_low].
    apply (frames_agree (s_mem s)); [|done]. by apply low_agree.
Qed.

(** The client's position changes, the memory does not. *)
Lemma inv_client_pc s pc' :
  inv s ->
  (forall pend, frames (s_mem s) (hd s) (word 8 TAIL (s_mem s)) pend ->
     client_ok (s_mem s) (word 8 TAIL (s_mem s)) (hd s) pend (cp s) ->
     client_ok (s_mem s) (word 8 TAIL (s_mem s)) (hd s) pend pc') ->
  inv (mkState (s_mem s) (dp s) pc' (sent s) (got s ++ []) (hd s)).
Proof.
  intros [Hh Ho Ha Hd (pend&Hf&Hs&Hc)] Hpc. split; try done. cbn. rewrite app_nil_r. exists pend.
  split_and!; [done|done|by apply Hpc].
Qed.

Lemma frames_at_wrap m h at_ pend :
  frames m h at_ pend -> at_ < h -> word 4 (ring_at at_) m = WRAP ->
  at_ + RING_BYTES - at_ mod RING_BYTES <= h /\ frames m h (at_ + RING_BYTES - at_ mod RING_BYTES) pend.
Proof. intros Hf Hlt Hw. destruct Hf as [|at_ ms|at_ msg ms ? Hx]; [lia|done|]. rewrite Hx in Hw. lia. Qed.

Lemma inv_client_wrap s at_ :
  inv s -> hd s < 2 ^ 63 -> cp s = CWrap at_ ->
  inv (mkState (put 8 TAIL (at_ + RING_BYTES - at_ mod RING_BYTES) (s_mem s)) (dp s) CTop (sent s) (got s ++ []) (hd s)).
Proof.
  intros Hi Hlt Hcp. pose proof Hi as [_ _ [Ht8 _] _ (pend&Hf&Hs&Hc)]. rewrite Hcp in Hc. destruct Hc as (->&Hc&Hw).
  destruct ring_spec as [Hr Hr8]. set (tl := word 8 TAIL (s_mem s)) in *.
  destruct (frames_at_wrap _ _ _ _ Hf Hc Hw) as [Hle Hf'].
  pose proof (Z.mod_pos_bound tl RING_BYTES ltac:(lia)). pose proof (mod8_ring tl Ht8) as Hm.
  apply (inv_tail s _ CTop pend []); try done; [fold tl; lia| |by rewrite app_nil_r].
  rewrite Zminus_mod, Z.add_mod, Ht8, Hr8, Hm by lia. done.
Qed.

Lemma inv_client_copy s at_ len acc :
  inv s -> hd s < 2 ^ 63 -> cp s = CCopy at_ len acc ->
  inv (mkState (s_mem s) (dp s)
         (if zlen acc <? len then CCopy at_ len (acc ++ [s_mem s (ring_at at_ + 4 + zlen acc)]) else CTail at_ len acc)
         (sent s) (got s ++ []) (hd s)).
Proof.
  intros Hi Hlt Hcp. apply inv_client_pc; [done|]. intros pend Hf. rewrite Hcp.
  set (tl := word 8 TAIL (s_mem s)) in *. intros (->&Hc&Hw&Hne&Hacc&Hle).
  destruct (frames_head _ _ _ _ Hf Hc ltac:(congruence)) as (x&ms&->&Hx&_&_&Hp&_).
  change (default [] (head (x :: ms))) with x in Hacc. rewrite Hw in Hx. rewrite Hx in *. clear Hx.
  destruct (Z.ltb_spec (zlen acc) (zlen x)) as [Hlt'|Hge].
  - cbn. split_and!; try done; [|zlen; lia]. unfold zlen in *.
    assert (x !! length acc = Some (s_mem s (ring_at tl + 4 + Z.of_nat (length acc)))) as Hb.
    { rewrite <- Hp at 1. apply lookup_peek. lia. }
    rewrite length_app. cbn. rewrite Nat.add_1_r, (take_S_r _ _ _ Hb). by rewrite <- Hacc.
  - cbn. split_and!; try done. f_equal. rewrite Hacc. rewrite firstn_all2; [done|]. unfold zlen in *. lia.
Qed.

Lemma inv_client_tail s at_ len msg :
  inv s -> hd s < 2 ^ 63 -> cp s = CTail at_ len msg ->
  inv (mkState (put 8 TAIL (at_ + next_multiple_of (4 + len) 8) (s_mem s)) (dp s) CTop (sent s) (got s ++ [msg]) (hd s)).
Proof.
  intros Hi Hlt Hcp. pose proof Hi as [_ _ [Ht8 _] _ (pend&Hf&Hs&Hc)]. rewrite Hcp in Hc.
  destruct Hc as (->&Hc&Hw&Hne&Hm). set (tl := word 8 TAIL (s_mem s)) in *.
  destruct (frames_head _ _ _ _ Hf Hc ltac:(congruence)) as (x&ms&->&Hx&_&Hle&_&Hf'). cbn in Hm. injection Hm as ->.
  rewrite Hw in Hx. rewrite Hx in *. clear Hx. fold (need msg). pose proof (need_spec msg) as [Hn Hn8]. pose proof (zlen_nonneg msg).
  apply (inv_tail s _ CTop ms [msg]); try done; [fold tl; lia| |by rewrite <- app_assoc].
  rewrite Z.add_mod, Ht8, Hn8 by lia. done.
Qed.

Lemma inv_client_step s m' pc' r :
  inv s -> hd s < 2 ^ 63 -> client (s_mem s) (cp s) = (m', pc', r) ->
  inv (mkState m' (dp s) pc' (sent s) (got s ++ option_list r) (hd s)).
Proof.
  intros Hi Hlt. pose proof Hi as [Hh _ _ _ _].
  destruct (cp s) as [|at_|at_|at_ len acc|at_ len msg] eqn:Hcp; cbn [client].
  - intros [= <- <- <-]. apply inv_client_pc; [done|]. intros p _ _. rewrite Hh.
    by destruct (Z.ltb_spec (word 8 TAIL (s_mem s)) (hd s)).
  - intros [= <- <- <-]. apply inv_client_pc; [done|]. rewrite Hcp. intros p Hp [-> Hc].
    destruct (Z.eqb_spec (word 4 (ring_at (word 8 TAIL (s_mem s))) (s_mem s)) WRAP) as [Hw|Hw]; [done|].
    cbn. split_and!; try done. destruct (frames_head _ _ _ _ Hp Hc Hw) as (x&ms&_&->&_). pose proof (zlen_nonneg x). zlen.
  - intros [= <- <- <-]. by apply inv_client_wrap.
  - pose proof (inv_client_copy s at_ len acc Hi Hlt Hcp) as H. by destruct (zlen acc <? len); intros [= <- <- <-].
  - intros [= <- <- <-]. by apply inv_client_tail.
Qed.

(** ** Every run *)
Lemma inv_step s s' : step s s' -> hd s < 2 ^ 63 -> hd s' < 2 ^ 63 -> inv s -> inv s'.
Proof.
  intros Hst Hlt Hlt' Hi. destruct Hst as [s msg Hdp Hb Hl|s gone m' pc' Hd|s m' pc' r Hc].
  - by apply inv_write.
  - by apply inv_daemon_step with gone.
  - by apply inv_client_step.
Qed.

Lemma word_zero n a : word n a (fun _ => 0) = 0.
Proof.
  unfold word, peek. generalize (seq 0 n). intros l. induction l as [|k l IH]; [done|]. cbn [map le_val]. by rewrite IH.
Qed.

(** The control block is written below the ring's words. *)
Lemma word_new n a data_bytes : 64 <= a -> word n a (mem (shared_new data_bytes)) = 0.
Proof.
  intros Ha. unfold shared_new, layout_words. cbn [imap fold_left mem fst snd].
  cbn -[word put RING_BYTES REQUEST REQUEST_BYTES]. rewrite !word_put_disjoint by lia. apply word_zero.
Qed.

Lemma inv_initial data_bytes : inv (initial data_bytes).
Proof.
  destruct ring_spec as [Hr _].
  assert (forall n, word 8 HEAD (mem (shared_new n)) = 0) as HH by (intros n; by apply word_new).
  assert (forall n, word 8 TAIL (mem (shared_new n)) = 0) as HT by (intros n; by apply word_new).
  split; cbn [initial s_mem hd dp cp sent got]; rewrite ?HH, ?HT; try done.
  exists []. split_and!; [constructor|done|done].
Qed.

Lemma reach_inv s s' : rtc bounded s s' -> inv s -> hd s < 2 ^ 63 -> inv s' /\ hd s' < 2 ^ 63.
Proof.
  induction 1 as [s|s s1 s' [Hst Hlt1] _ IH]; intros Hi Hlt; [done|]. apply IH; [|done]. by eapply inv_step.
Qed.

Lemma reachable_inv data_bytes s : reachable data_bytes s -> inv s /\ hd s < 2 ^ 63.
Proof. intros H. eapply reach_inv; [exact H|apply inv_initial|done]. Qed.

(** An empty ring holds nothing back. *)
Lemma frames_empty m h pend : frames m h h pend -> pend = [].
Proof.
  destruct ring_spec as [Hr _]. intros Hf. pose proof (Z.mod_pos_bound h RING_BYTES ltac:(lia)).
  inversion Hf as [|? ? ? ? Hle|? msg ? ? ? ? ? Hle]; subst; [done|lia|].
  pose proof (need_spec msg) as [Hn _]. pose proof (zlen_nonneg msg). lia.
Qed.

(** ** One side running alone *)
Definition at_daemon (s : State) (m : Mem) (pc : dpc) : State := mkState m pc (cp s) (sent s) (got s) (hd s).

Lemma daemon_copies s msg at_ k :
  dp s = DCopy msg at_ k -> hd s < 2 ^ 63 -> exists m, rtc bounded s (at_daemon s m (DHead msg at_)).
Proof.
  remember (length msg - k)%nat as n eqn:Hn. revert s k Hn. induction n as [|n IH]; intros s k Hn Hdp Hlt.
  - exists (s_mem s). eapply rtc_l; [split|apply rtc_refl]; [|done].
    pose proof (step_daemon s false (s_mem s) (DHead msg at_)) as Hst. rewrite Hdp in Hst. apply Hst.
    cbn. by rewrite lookup_ge_None_2 by lia.
  - destruct (lookup_lt_is_Some_2 msg k ltac:(lia)) as [b Hb].
    set (m1 := blit (s_mem s) (ring_at at_ + 4 + Z.of_nat k) [b]).
    destruct (IH (at_daemon s m1 (DCopy msg at_ (S k))) (S k)) as [m Hm]; [lia|done|done|].
    exists m. eapply rtc_l; [|exact Hm]. split; [|done].
    pose proof (step_daemon s false m1 (DCopy msg at_ (S k))) as Hst. rewrite Hdp in Hst. apply Hst.
    cbn. by rewrite Hb.
Qed.

(** With room, the daemon alone appends its message. *)
Lemma daemon_appends s msg :
  dp s = DSkip msg -> word 8 HEAD (s_mem s) = hd s -> hd s < 2 ^ 63 ->
  hd s + skip (hd s) (need msg) + need msg < 2 ^ 63 ->
  exists s', rtc bounded s s' /\ dp s' = DIdle /\ sent s' = sent s ++ [msg] /\ got s' = got s /\ cp s' = cp s.
Proof.
  intros Hdp Hh Hlt Hfit. set (at_ := hd s + skip (hd s) (need msg)) in *.
  set (m1 := if skip (hd s) (need msg) >? 0 then put 4 (ring_at (hd s)) WRAP (s_mem s) else s_mem s).
  set (m2 := put 4 (ring_at at_) (wrap 32 (zlen msg)) m1).
  destruct (daemon_copies (at_daemon s m2 (DCopy msg at_ 0)) msg at_ 0 eq_refl Hlt) as [m3 Hcopy].
  set (m4 := put 8 HEAD (at_ + need msg) m3).
  eexists. split; [|split_and!]; cycle 1.
  { exact (eq_refl : dp (mkState (put 4 SEQ (word 4 SEQ m4 + 1) m4) DIdle (cp s) (sent s ++ [msg]) (got s) (at_ + need msg)) = DIdle). }
  { done. } { done. } { done. }
  eapply rtc_l with (at_daemon s m1 (DLen msg at_)); [|eapply rtc_l with (at_daemon s m2 (DCopy msg at_ 0))].
  - split; [|done]. pose proof (step_daemon s false m1 (DLen msg at_)) as Hst. rewrite Hdp in Hst. apply Hst.
    cbn. by rewrite Hh.
  - split; [|done]. by apply (step_daemon (at_daemon s m1 (DLen msg at_)) false m2 (DCopy msg at_ 0)).
  - etrans; [exact Hcopy|]. eapply rtc_l; [|eapply rtc_l; [|apply rtc_refl]].
    + split; [by apply (step_daemon (at_daemon s m3 (DHead msg at_)) false m4 DSeq)|]. done.
    + split; [|done].
      by apply (step_daemon (mkState m4 DSeq (cp s) (sent s ++ [msg]) (got s) (at_ + need msg)) false _ DIdle).
Qed.

Definition at_client (s : State) (m : Mem) (pc : cpc) (r : list (list Z)) : State :=
  mkState m (dp s) pc (sent s) (got s ++ r) (hd s).

Lemma client_copies s at_ len acc :
  cp s = CCopy at_ len acc -> hd s < 2 ^ 63 -> exists msg, rtc bounded s (at_client s (s_mem s) (CTail at_ len msg) []).
Proof.
  remember (Z.to_nat (len - zlen acc)) as n eqn:Hn. revert s acc Hn. induction n as [|n IH]; intros s acc Hn Hcp Hlt.
  - exists acc. eapply rtc_l; [split|apply rtc_refl]; [|done].
    apply (step_client s (s_mem s) (CTail at_ len acc) None). rewrite Hcp. cbn.
    destruct (Z.ltb_spec (zlen acc) len); [lia|done].
  - set (acc1 := acc ++ [s_mem s (ring_at at_ + 4 + zlen acc)]).
    destruct (IH (at_client s (s_mem s) (CCopy at_ len acc1) []) acc1) as [msg Hm].
    + subst acc1. rewrite zlen_app. change (zlen [?b]) with 1. lia.
    + done.
    + done.
    + exists msg. eapply rtc_l with (at_client s (s_mem s) (CCopy at_ len acc1) []).
      * split; [|done]. apply (step_client s (s_mem s) (CCopy at_ len acc1) None). rewrite Hcp. cbn.
        destruct (Z.ltb_spec (zlen acc) len); [done|lia].
      * unfold at_client in *. cbn in Hm. rewrite !app_nil_r in Hm. by rewrite !app_nil_r.
Qed.

(** With something in the ring, the client alone takes the next message. *)
Lemma client_takes s :
  inv s -> hd s < 2 ^ 63 -> cp s = CTop -> word 8 TAIL (s_mem s) < hd s ->
  word 4 (ring_at (word 8 TAIL (s_mem s))) (s_mem s) <> WRAP ->
  exists s', rtc bounded s s' /\ cp s' = CTop /\ length (got s') = S (length (got s))
    /\ sent s' = sent s /\ dp s' = dp s.
Proof.
  intros Hi Hlt Hcp Htl Hw. set (tl := word 8 TAIL (s_mem s)) in *. set (len := word 4 (ring_at tl) (s_mem s)) in *.
  destruct (client_copies (at_client s (s_mem s) (CCopy tl len []) []) tl len [] eq_refl Hlt) as [msg Hcopy].
  unfold at_client in Hcopy. cbn in Hcopy. rewrite !app_nil_r in Hcopy.
  eexists (at_client s (put 8 TAIL (tl + next_multiple_of (4 + len) 8) (s_mem s)) CTop [msg]).
  split; [|split_and!; [done|cbn; rewrite length_app; cbn; lia|done|done]].
  eapply rtc_l with (at_client s (s_mem s) (CLen tl) []).
  { split; [|done]. apply (step_client s (s_mem s) (CLen tl) None). rewrite Hcp. cbn.
    rewrite (inv_head _ Hi). fold tl. destruct (Z.ltb_spec tl (hd s)); [done|lia]. }
  eapply rtc_l with (at_client s (s_mem s) (CCopy tl len []) []).
  { split; [|done]. pose proof (step_client (at_client s (s_mem s) (CLen tl) []) (s_mem s) (CCopy tl len []) None) as Hst.
    unfold at_client in *. cbn in Hst. rewrite !app_nil_r in *. apply Hst. fold len. destruct (Z.eqb_spec len WRAP); done. }
  unfold at_client at 1. rewrite app_nil_r. etrans; [exact Hcopy|]. eapply rtc_l; [|apply rtc_refl]. split; [|done].
  by apply (step_client (mkState (s_mem s) (dp s) (CTail tl len msg) (sent s) (got s) (hd s))
    (put 8 TAIL (tl + next_multiple_of (4 + len) 8) (s_mem s)) CTop (Some msg)).
Qed.

(** A wrap mark at the tail is passed. *)
Lemma client_passes_wrap s :
  inv s -> hd s < 2 ^ 63 -> cp s = CTop -> word 8 TAIL (s_mem s) < hd s ->
  word 4 (ring_at (word 8 TAIL (s_mem s))) (s_mem s) = WRAP ->
  exists s', rtc bounded s s' /\ cp s' = CTop /\ got s' = got s /\ sent s' = sent s /\ dp s' = dp s
    /\ hd s' = hd s /\ word 8 TAIL (s_mem s) < word 8 TAIL (s_mem s') /\ word 8 TAIL (s_mem s') mod RING_BYTES = 0.
Proof.
  intros Hi Hlt Hcp Htl Hw. set (tl := word 8 TAIL (s_mem s)) in *. destruct ring_spec as [Hr _].
  pose proof Hi as [Hh Ho _ _ _]. fold tl in Ho. pose proof (Z.mod_pos_bound tl RING_BYTES ltac:(lia)) as Hm.
  assert (RING_BYTES = 2 ^ 20) as HR by done.
  set (tl' := tl + RING_BYTES - tl mod RING_BYTES).
  exists (at_client s (put 8 TAIL tl' (s_mem s)) CTop []).
  assert (word 8 TAIL (put 8 TAIL tl' (s_mem s)) = tl') as HT by (rewrite word_put; apply wrap64_small; lia).
  split; [|split_and!; cbn; rewrite ?HT, ?app_nil_r; try done; [lia|]].
  - eapply rtc_l with (at_client s (s_mem s) (CLen tl) []).
    { split; [|done]. apply (step_client s (s_mem s) (CLen tl) None). rewrite Hcp. cbn.
      rewrite Hh. fold tl. destruct (Z.ltb_spec tl (hd s)); [done|lia]. }
    eapply rtc_l with (at_client s (s_mem s) (CWrap tl) []).
    { split; [|done]. pose proof (step_client (at_client s (s_mem s) (CLen tl) []) (s_mem s) (CWrap tl) None) as Hst.
      unfold at_client in *. cbn in Hst. rewrite !app_nil_r in *. apply Hst. by rewrite Hw. }
    eapply rtc_l; [|apply rtc_refl]. split; [|done].
    pose proof (step_client (at_client s (s_mem s) (CWrap tl) []) (put 8 TAIL tl' (s_mem s)) CTop None) as Hst.
    unfold at_client in *. cbn in Hst |- *. rewrite !app_nil_r in *. by apply Hst.
  - subst tl'. rewrite (Z.mod_eq tl RING_BYTES) by lia.
    replace (tl + RING_BYTES - (tl - RING_BYTES * (tl / RING_BYTES))) with ((1 + tl / RING_BYTES) * RING_BYTES) by ring.
    apply Z.mod_mul. lia.
Qed.

Lemma client_next s :
  inv s -> hd s < 2 ^ 63 -> cp s = CTop -> got s <> sent s ->
  exists s', rtc bounded s s' /\ cp s' = CTop /\ length (got s') = S (length (got s))
    /\ sent s' = sent s /\ dp s' = dp s.
Proof.
  remember (Z.to_nat (hd s - word 8 TAIL (s_mem s))) as n eqn:Hn. revert s Hn.
  induction (lt_wf n) as [n _ IH]; intros s Hn Hi Hlt Hcp Hne.
  assert (word 8 TAIL (s_mem s) < hd s) as Htl.
  { pose proof Hi as [_ Ho _ _ (pend&Hf&Hs&_)]. destruct (decide (word 8 TAIL (s_mem s) = hd s)) as [He|]; [|lia].
    rewrite He in Hf. apply frames_empty in Hf as ->. rewrite app_nil_r in Hs. congruence. }
  destruct (decide (word 4 (ring_at (word 8 TAIL (s_mem s))) (s_mem s) = WRAP)) as [Hw|Hw]; [|by apply client_takes].
  destruct (client_passes_wrap s Hi Hlt Hcp Htl Hw) as (s1&Hrun&Hcp1&Hg&Hs&Hd&Hh&Hlt1&_).
  destruct (reach_inv _ _ Hrun Hi Hlt) as [Hi1 _].
  destruct (IH (Z.to_nat (hd s1 - word 8 TAIL (s_mem s1)))) with (s := s1) as (s2&Hrun2&?&?&?&?); try congruence; [lia|].
  exists s2. split; [by etrans|]. split_and!; congruence.
Qed.

Lemma ring_read_all s : inv s -> word 8 TAIL (s_mem s) = word 8 HEAD (s_mem s) -> got s = sent s.
Proof.
  intros [Hh _ _ _ (pend&Hf&Hs&_)] He. rewrite He, Hh in Hf. apply frames_empty in Hf as ->. by rewrite app_nil_r in Hs.
Qed.

(** On an empty ring, a frame of at most half of it has room. *)
Lemma half_has_room at_ n : 0 <= n <= RING_BYTES / 2 -> skip at_ n + n <= RING_BYTES.
Proof.
  intros Hn. destruct ring_spec as [Hr Hr8]. pose proof (Z.div_mod RING_BYTES 2 ltac:(lia)).
  pose proof (Z.mod_pos_bound RING_BYTES 2 ltac:(lia)). unfold skip.
  destruct (Z.gtb_spec (at_ mod RING_BYTES + n) RING_BYTES); lia.
Qed.

Lemma append_starts s msg :
  inv s -> hd s < 2 ^ 63 -> dp s = DIdle -> word 8 TAIL (s_mem s) = word 8 HEAD (s_mem s) ->
  bytes_ok msg -> need msg <= RING_BYTES / 2 ->
  exists s', rtc bounded s s' /\ dp s' = DSkip msg /\ cp s' = cp s /\ sent s' = sent s /\ got s' = got s /\ hd s' = hd s
    /\ skip (hd s) (need msg) + need msg <= RING_BYTES.
Proof.
  intros Hi Hlt Hdp He Hb Hn. pose proof Hi as [Hh Ho _ _ _]. assert (RING_BYTES = 2 ^ 20) as HR by done.
  pose proof (need_spec msg) as [Hns _]. pose proof (zlen_nonneg msg). pose proof (skip_bound (hd s) (need msg)).
  pose proof (half_has_room (hd s) (need msg) ltac:(lia)) as Hroom.
  assert (RING_BYTES / 2 = 2 ^ 19) as HR2 by done.
  exists (at_daemon s (s_mem s) (DSkip msg)). split; [|by split_and!].
  eapply rtc_l with (at_daemon s (s_mem s) (DWait msg)).
  - split; [|done]. apply step_append; [done|done|lia].
  - eapply rtc_l; [|apply rtc_refl]. split; [|done].
    apply (step_daemon (at_daemon s (s_mem s) (DWait msg)) false (s_mem s) (DSkip msg)). cbn.
    rewrite He, Hh. rewrite wrap64_small by lia.
    destruct (Z.gtb_spec (hd s + skip (hd s) (need msg) + need msg - hd s) RING_BYTES); [lia|done].
Qed.

(** ** Schedules: runs that can be executed *)
Inductive act := AAppend (msg : list Z) | ADaemon | AClient.
Definition perform (s : State) (a : act) : option State :=
  match a with
  | AAppend msg =>
      match dp s with
      | DIdle => if forallb (fun b => (0 <=? b) && (b <? 256)) msg && (zlen msg <? 2 ^ 32) && (hd s <? 2 ^ 63)
                 then Some (at_daemon s (s_mem s) (DWait msg)) else None
      | _ => None
      end
  | ADaemon =>
      let '(m, pc) := daemon false (s_mem s) (dp s) in
      let h := match dp s with DHead msg at_ => at_ + need msg | _ => hd s end in
      if h <? 2 ^ 63 then
        Some (mkState m pc (cp s) (match dp s with DHead msg _ => sent s ++ [msg] | _ => sent s end) (got s) h)
      else None
  | AClient =>
      let '(m, pc, r) := client (s_mem s) (cp s) in
      if hd s <? 2 ^ 63 then Some (mkState m (dp s) pc (sent s) (got s ++ option_list r) (hd s)) else None
  end.
Definition schedule (s : State) (acts : list act) : option State :=
  foldl (fun o a => s ← o; perform s a) (Some s) acts.

Lemma perform_bounded s a s' : perform s a = Some s' -> bounded s s'.
Proof.
  destruct a as [msg| |]; cbn [perform].
  - destruct (dp s) eqn:Hdp; try done. destruct (forallb _ msg) eqn:Hb; [|done].
    destruct (Z.ltb_spec (zlen msg) (2 ^ 32)); [|done]. destruct (Z.ltb_spec (hd s) (2 ^ 63)); [|done].
    intros [= <-]. split; [|done]. apply step_append; [done| |done].
    apply Forall_forall. intros b Hin. rewrite forallb_forall in Hb. apply list_elem_of_In in Hin.
    apply Hb, andb_true_iff in Hin as [?%Z.leb_le ?%Z.ltb_lt]. split; lia.
  - destruct (daemon false (s_mem s) (dp s)) as [m pc] eqn:Hd.
    destruct (Z.ltb_spec (match dp s with DHead msg at_ => at_ + need msg | _ => hd s end) (2 ^ 63)); [|done].
    intros [= <-]. split; [|done]. by apply (step_daemon s false).
  - destruct (client (s_mem s) (cp s)) as [[m pc] r] eqn:Hc. destruct (Z.ltb_spec (hd s) (2 ^ 63)); [|done].
    intros [= <-]. split; [|done]. by apply step_client.
Qed.

Lemma schedule_reachable data_bytes acts s :
  schedule (initial data_bytes) acts = Some s -> reachable data_bytes s.
Proof.
  unfold schedule, reachable. revert s. induction acts as [|a acts IH] using rev_ind; intros s; [by intros [= <-]|].
  rewrite foldl_app. cbn. destruct (foldl _ _ acts) as [s1|] eqn:H1; [|done]. cbn. intros H.
  eapply rtc_r; [by apply IH|]. by eapply perform_bounded.
Qed.

(** Two short messages, the second appended while the first is being read. *)
Definition sample_schedule : list act :=
  [AAppend [1; 2; 3]] ++ replicate 9 ADaemon ++ replicate 3 AClient ++ [AAppend [4]; ADaemon; AClient; ADaemon]
  ++ replicate 3 AClient ++ replicate 5 ADaemon.
Lemma sample_schedule_runs :
  (fun s => (got s, sent s)) <$> schedule (initial 64) sample_schedule = Some ([[1; 2; 3]], [[1; 2; 3]; [4]]).
Proof. vm_compute. reflexivity. Qed.

(** ** Properties *)

(** C3. The ring is a queue: however the daemon's and the client's memory
    accesses interleave, the messages the client has returned are the first
    of those appended, byte for byte and in order; and once the tail has
    reached the head, they are all of them. *)
Theorem ring_is_fifo data_bytes s :
  reachable data_bytes s ->
  got s `prefix_of` sent s
  /\ (word 8 TAIL (s_mem s) = word 8 HEAD (s_mem s) -> got s = sent s).
Proof.
  intros Hr. destruct (reachable_inv _ _ Hr) as [Hi _]. split; [|by apply ring_read_all].
  destruct (inv_frames _ Hi) as (pend&_&Hs&_). by exists pend.
Qed.

Lemma ring_is_fifo_witness :
  exists s, schedule (initial 64) sample_schedule = Some s
    /\ (got s `prefix_of` sent s /\ (word 8 TAIL (s_mem s) = word 8 HEAD (s_mem s) -> got s = sent s)).
Proof.
  destruct (schedule (initial 64) sample_schedule) as [s|] eqn:Hs.
  - exists s. split; [done|]. apply (ring_is_fifo 64 s). apply (schedule_reachable 64 sample_schedule). exact Hs.
  - exfalso. pose proof sample_schedule_runs as H. by rewrite Hs in H.
Defined.



(** ** A message that never gets through *)
(** Steps of the two sides, the client still there. *)
Definition live (s s' : State) : Prop :=
  (exists m' pc', daemon false (s_mem s) (dp s) = (m', pc')
     /\ s' = mkState m' pc' (cp s) (match dp s with DHead msg _ => sent s ++ [msg] | _ => sent s end) (got s)
               (match dp s with DHead msg at_ => at_ + need msg | _ => hd s end))
  \/ (exists m' pc' r, client (s_mem s) (cp s) = (m', pc', r)
     /\ s' = mkState m' (dp s) pc' (sent s) (got s ++ option_list r) (hd s)).

Lemma live_stuck s msg s' :
  dp s = DWait msg -> cp s = CTop -> word 8 TAIL (s_mem s) = word 8 HEAD (s_mem s) ->
  RING_BYTES < skip (word 8 HEAD (s_mem s)) (need msg) + need msg < 2 ^ 64 ->
  live s s' -> s' = s.
Proof.
  intros Hdp Hcp He Hn [(m'&pc'&Hd&->)|(m'&pc'&r&Hc&->)]; destruct s as [m d c snt gt h]; cbn in *; subst.
  - cbn in Hd. rewrite He in Hd. replace (word 8 HEAD m + skip (word 8 HEAD m) (need msg) + need msg - word 8 HEAD m)
      with (skip (word 8 HEAD m) (need msg) + need msg) in Hd by lia.
    destruct ring_spec. rewrite wrap64_small in Hd by lia.
    destruct (Z.gtb_spec (skip (word 8 HEAD m) (need msg) + need msg) RING_BYTES); [|lia]. by injection Hd as <- <-.
  - cbn in Hc. rewrite He, Z.ltb_irrefl in Hc. injection Hc as <- <- <-. cbn. by rewrite app_nil_r.
Qed.

(** The first message takes 8 bytes; the second would fit the ring, but not
    before its end. *)
Definition first_read : list act := [AAppend []] ++ replicate 6 ADaemon ++ replicate 4 AClient.
Definition large : list Z := zrep (2 ^ 20 - 8) 0.

Lemma need_large : need large = 2 ^ 20 /\ zlen large = 2 ^ 20 - 8 /\ bytes_ok large.
Proof.
  unfold need, large. rewrite zlen_zrep by lia. split_and!; [done|done|]. apply Forall_replicate. split; lia.
Qed.

#[local] Opaque large.

Lemma first_read_runs :
  (fun s => (dp s, cp s, word 8 TAIL (s_mem s), word 8 HEAD (s_mem s), hd s))
    <$> schedule (initial 64) first_read = Some (DIdle, CTop, 8, 8, 8).
Proof. vm_compute. reflexivity. Qed.


(** ** What the daemon may write *)
Definition pc_fits (pc : dpc) : Prop :=
  match pc with
  | DIdle | DSeq => True
  | DWait msg | DSkip msg => need msg <= RING_BYTES
  | DLen msg at_ | DCopy msg at_ _ | DHead msg at_ =>
      at_ mod RING_BYTES + need msg <= RING_BYTES /\ at_ mod 8 = 0
  end.
Definition writable (i : Z) : Prop :=
  HEAD <= i < HEAD + 8 \/ SEQ <= i < SEQ + 4 \/ RING <= i < RING + RING_BYTES.

Lemma pc_fits_step gone m pc :
  word 8 HEAD m mod 8 = 0 -> pc_fits pc -> pc_fits (snd (daemon gone m pc)).
Proof.
  intros H8 Hpc. destruct pc as [|msg|msg|msg at_|msg at_ k|msg at_|]; cbn in *; try done.
  - destruct (_ >? _); [by destruct gone|done].
  - pose proof (need_spec msg) as [Hn _]. pose proof (zlen_nonneg msg).
    destruct (skip_spec (word 8 HEAD m) (need msg)) as (?&_&_&?); [lia|]. auto.
  - by destruct (msg !! k).
Qed.

Lemma put_writes n a v m i : put n a v m i <> m i -> a <= i < a + Z.of_nat n.
Proof.
  intros H. apply dec_stable. intros Hout. apply H. apply blit_outside. rewrite le_bytes_zlen. lia.
Qed.

Lemma ring_range q off n i :
  0 <= off -> q mod RING_BYTES + off + n <= RING_BYTES -> ring_at q + off <= i < ring_at q + off + n ->
  RING <= i < RING + RING_BYTES.
Proof.
  intros Ho Hn Hi. unfold ring_at in Hi. destruct ring_spec.
  pose proof (Z.mod_pos_bound q RING_BYTES ltac:(lia)). lia.
Qed.



(** The data area is bounds-checked: [write] succeeds exactly when the
    blob lies inside the area, no sum of 64-bit numbers wrapping, and holds
    the bytes; then [read] returns them, and no byte outside the blob has
    changed; otherwise nothing has changed at all. [read] fails exactly when
    the blob does not lie inside the area. *)
Theorem data_area_is_checked s offset room bytes :
  0 <= offset -> 0 <= room -> DATA <= size s < 2 ^ 64 ->
  let inside := offset + room <= size s - DATA in
  let '(ok_, s') := write s offset room bytes in
  (ok_ = true <-> inside /\ zlen bytes <= room)
  /\ size s' = size s
  /\ (ok_ = true -> read s' offset (zlen bytes) = Some bytes)
  /\ (forall i, mem s' i <> mem s i -> ok_ = true /\ DATA + offset <= i < DATA + offset + zlen bytes /\ i < size s)
  /\ (read s offset room = None <-> ~ inside).
Proof.
  intros Ho Hroom Hs. cbn zeta. assert (0 <= DATA) as HD by done.
  assert (forall len, 0 <= len -> len <= room -> offset + room <= size s - DATA ->
    data s offset len = Some (DATA + offset)) as Hin.
  { intros len Hl Hle Hfit. unfold data. rewrite (proj2 (checked_Some 64 (offset + len) (offset + len))) by (split; [done|lia]).
    cbn. destruct (Z.leb_spec (offset + len) (size s - DATA)); [done|lia]. }
  assert (~ offset + room <= size s - DATA -> data s offset room = None) as Hout.
  { intros Hn. unfold data. destruct (checked 64 (offset + room)) as [e|] eqn:He; [|done]. cbn.
    apply checked_Some in He as [-> _]. destruct (Z.leb_spec (offset + room) (size s - DATA)); [lia|done]. }
  pose proof (zlen_nonneg bytes). unfold write, read.
  destruct (decide (offset + room <= size s - DATA)) as [Hfit|Hn].
  - rewrite (Hin room) by lia. cbn. destruct (Z.leb_spec (zlen bytes) room) as [Hle|Hgt].
    + split_and!; [done|done| |..].
      * intros _. unfold data in *. cbn. specialize (Hin (zlen bytes) ltac:(lia) ltac:(lia) Hfit).
        unfold data in Hin. cbn in Hin. rewrite Hin. cbn. f_equal. unfold zlen. rewrite Nat2Z.id. apply peek_blit.
      * intros i Hi. cbn in Hi. assert (DATA + offset <= i < DATA + offset + zlen bytes) as Hr; [|split_and!; [done|lia..]].
        apply dec_stable. intros Hout'. apply Hi, blit_outside. lia.
      * done.
    + split_and!; [|done|done|done|done]. split; [done|lia].
  - rewrite Hout by done. split_and!; [|done|done|done|done]. split; [done|tauto].
Qed.

Lemma data_area_is_checked_witness :
  let '(ok_, s') := write (shared_new 64) 8 16 [1; 2; 3] in
  (ok_ = true <-> 8 + 16 <= size (shared_new 64) - DATA /\ zlen [1; 2; 3] <= 16)
  /\ size s' = size (shared_new 64)
  /\ (ok_ = true -> read s' 8 (zlen [1; 2; 3]) = Some [1; 2; 3])
  /\ (forall i, mem s' i <> mem (shared_new 64) i -> ok_ = true /\ DATA + 8 <= i < DATA + 8 + zlen [1; 2; 3] /\ i < size (shared_new 64))
  /\ (read (shared_new 64) 8 16 = None <-> ~ 8 + 16 <= size (shared_new 64) - DATA).
Proof. apply (data_area_is_checked (shared_new 64) 8 16 [1; 2; 3]); [done|done|by vm_compute]. Defined.

Lemma peek_app m a n k : peek m a (n + k) = peek m a n ++ peek m (a + Z.of_nat n) k.
Proof.
  apply list_eq. intros i. destruct (decide (i < n)%nat).
  - rewrite lookup_app_l by (by rewrite length_peek). by rewrite !lookup_peek by lia.
  - rewrite lookup_app_r by (rewrite length_peek; lia). rewrite length_peek. destruct (decide (i < n + k)%nat).
    + rewrite !lookup_peek by lia. do 2 f_equal. lia.
    + by rewrite !lookup_ge_None_2 by (rewrite length_peek; lia).
Qed.

Lemma word_low n k a m :
  bytes_ok (peek m a n) -> wrap (8 * Z.of_nat n) (word (n + k) a m) = word n a m.
Proof.
  intros Hb. unfold word. rewrite peek_app, le_val_app. pose proof (le_val_bound _ Hb) as Hv.
  assert (zlen (peek m a n) = Z.of_nat n) as Hz by (unfold zlen; by rewrite length_peek). rewrite Hz in *.
  unfold wrap. rewrite Z.mul_comm, Z.mod_add by lia. by apply Z.mod_small.
Qed.

(** A client that connects finds the memory as the daemon laid it out:
    the control block names the memory, its size, and where the request area,
    the ring and the data area are and how long. *)
Theorem control_block_reads_back data_bytes :
  0 <= data_bytes -> size (shared_new data_bytes) < 2 ^ 64 ->
  connect (shared_new data_bytes) (size (shared_new data_bytes)) = Some (layout_words data_bytes)
  /\ size (shared_new data_bytes) = DATA + data_bytes /\ DATA = RING + RING_BYTES.
Proof.
  intros Hd Hs. assert (0 <= DATA) as HD by done.
  assert (size (shared_new data_bytes) = DATA + data_bytes) as Hsize by done.
  set (m := mem (shared_new data_bytes)).
  assert (m = put 8 56 data_bytes (put 8 48 DATA (put 8 40 RING_BYTES (put 8 32 RING (put 8 24 REQUEST_BYTES
    (put 8 16 REQUEST (put 8 8 (DATA + data_bytes) (put 4 4 VERSION (put 4 0 MAGIC (fun _ => 0)))))))))) as Hm by done.
  assert (wrap 32 (word 8 0 m) = MAGIC) as Hmagic.
  { etrans; [apply (word_low 4 4 0 m)|].
    2: by rewrite Hm, !word_put_disjoint, word_put by lia.
    rewrite Hm. unfold put. rewrite !peek_blit_disjoint by (rewrite le_bytes_zlen; lia).
      rewrite <- (le_bytes_length 4 MAGIC) at 2. rewrite peek_blit. apply le_bytes_ok. }
  assert (forall v, 0 <= v < 2 ^ 64 -> wrap (8 * Z.of_nat 8) v = v) as Hw by (intros v Hv; by apply wrap_id).
  assert (map (fun at_ => word 8 at_ m) [16; 24; 32; 40; 48; 56] = layout_words data_bytes
          /\ word 8 8 m = DATA + data_bytes) as [Hl H8].
  { rewrite Hm. cbn [map]. repeat (rewrite word_put || (rewrite word_put_disjoint by lia)).
    rewrite !Hw by (done || lia). done. }
  unfold connect. fold m. rewrite Hmagic, Hl, H8, Hsize, !Z.eqb_refl. done.
Qed.

Lemma control_block_reads_back_witness :
  connect (shared_new 64) (size (shared_new 64)) = Some (layout_words 64)
  /\ size (shared_new 64) = DATA + 64 /\ DATA = RING + RING_BYTES.
Proof. apply (control_block_reads_back 64); [done|by vm_compute]. Defined.
