(* ===== verification/Sbe.v ===== *)
(** * Messages ([serve/sbe.rs])

    The messages of the daemon's protocol, as SBE lays them out: a header,
    the fixed block, groups, then variable-length data, little-endian. A
    [Reader] is bounds-checked at every step; a [Writer] is the bytes it has
    written. *)
From S2P Require Import Prelude Bytes Utf8.

Definition SCHEMA : Z := 7.
Definition SBE_VERSION : Z := 1.

Record Blob := mkBlob { b_offset : Z; b_length : Z }.

(** A malformed message. *)
Inductive Bad_ := Bad.

Record Reader := mkReader { bytes : list Z; at_ : Z }.

(** Reading: the reader moves along, or the message is refused. *)
Definition RM (A : Type) : Type := Reader -> outcome Bad_ (A * Reader).
#[global] Instance RM_ret : MRet RM := fun A a r => Ok (a, r).
#[global] Instance RM_bind : MBind RM := fun A B k m r =>
  match m r with Ok (a, r) => k a r | Err e => Err e | Panic => Panic end.
Definition refuse {A} : RM A := fun _ => Err Bad.
Definition of_outcome {A} (o : outcome Bad_ A) : RM A := fun r =>
  match o with Ok a => Ok (a, r) | Err e => Err e | Panic => Panic end.

(** [u16_at] and [u32_at]: positions outside panic. *)
Definition u16_at (b : list Z) (at_ : Z) : outcome Bad_ Z :=
  x ← or_panic (zget b at_); y ← or_panic (zget b (at_ + 1)); Ok (le_val [x; y]).
Definition u32_at (b : list Z) (at_ : Z) : outcome Bad_ Z :=
  x ← or_panic (zget b at_); y ← or_panic (zget b (at_ + 1));
  z ← or_panic (zget b (at_ + 2)); w ← or_panic (zget b (at_ + 3)); Ok (le_val [x; y; z; w]).

(** [Reader::take]. *)
Definition take (n : Z) : RM (list Z) := fun r =>
  match checked 64 (at_ r + n) with
  | Some e => match zslice (bytes r) (at_ r) e with
              | Some out => Ok (out, mkReader (bytes r) (at_ r + n))
              | None => Err Bad
              end
  | None => Err Bad
  end.

(** A fixed block: fields at their offsets, a missing one refused. *)
Definition b_u8 (b : list Z) (at_ : Z) : outcome Bad_ Z := ok_or (zget b at_) Bad.
Definition b_u32 (b : list Z) (at_ : Z) : outcome Bad_ Z :=
  s ← ok_or (zslice b at_ (at_ + 4)) Bad; u32_at s 0.
Definition b_u64 (b : list Z) (at_ : Z) : outcome Bad_ Z :=
  s ← ok_or (zslice b at_ (at_ + 8)) Bad; Ok (le_val s).
Definition b_blob (b : list Z) (at_ : Z) : outcome Bad_ Blob :=
  o ← b_u64 b at_; l ← b_u64 b (at_ + 8); Ok (mkBlob o l).

(** [Reader::open]: template, block, and the reader past it. *)
Definition open_ : RM (Z * list Z) :=
  head ← take 8;
  len ← of_outcome (u16_at head 0);
  template ← of_outcome (u16_at head 2);
  schema ← of_outcome (u16_at head 4);
  if schema =? SCHEMA then block ← take len; mret (template, block) else refuse.
Definition open (b : list Z) : outcome Bad_ (Z * list Z * Reader) := open_ (mkReader b 0).

(** [Reader::group], [Reader::entry], [Reader::text]. *)
Definition group : RM (Z * Z) :=
  h ← take 4; a ← of_outcome (u16_at h 0); b ← of_outcome (u16_at h 2); mret (a, b).
Definition entry (len : Z) : RM (list Z) := take len.
Definition text : RM (list Z) :=
  h ← take 4; n ← of_outcome (u32_at h 0); s ← take n;
  if is_text s then mret s else refuse.

(** [(0..n).map(|_| f(r)).collect::<Result<_, _>>()]. *)
Fixpoint collect {A} (n : nat) (f : RM A) : RM (list A) :=
  match n with O => mret [] | S n => x ← f; xs ← collect n f; mret (x :: xs) end.

(** ** Writing *)
Definition w_new (template : Z) (block : list Z) : list Z :=
  le_bytes 2 (zlen block) ++ le_bytes 2 template ++ le_bytes 2 SCHEMA ++ le_bytes 2 SBE_VERSION ++ block.
Definition w_group (len count : Z) (w : list Z) : list Z := w ++ le_bytes 2 len ++ le_bytes 2 count.
Definition w_bytes (b w : list Z) : list Z := w ++ b.
Definition w_text (t w : list Z) : list Z := w ++ le_bytes 4 (zlen t) ++ t.

(** [Fields]: a block built field by field. *)
Definition f_u64 (v : Z) (f : list Z) : list Z := f ++ le_bytes 8 v.
Definition f_u32 (v : Z) (f : list Z) : list Z := f ++ le_bytes 4 v.
Definition f_u16 (v : Z) (f : list Z) : list Z := f ++ le_bytes 2 v.
Definition f_u8 (v : Z) (f : list Z) : list Z := f ++ [v].

(** ** Reading what was written

    [reads m l a k]: where the bytes ahead are [l], [m] reads [a] and leaves
    [k] ahead. *)
Definition ahead (r : Reader) (l : list Z) : Prop :=
  0 <= at_ r <= zlen (bytes r) /\ zlen (bytes r) < 2 ^ 64 /\ zdrop (at_ r) (bytes r) = l.
Definition reads {A} (m : RM A) (l : list Z) (a : A) (k : list Z) : Prop :=
  forall r, ahead r l -> exists r', m r = Ok (a, r') /\ ahead r' k.

Lemma reads_ret {A} (a : A) l : reads (mret a) l a l.
Proof. intros r Hr. by exists r. Qed.
Lemma reads_bind {A B} (m : RM A) (f : A -> RM B) l a k b j :
  reads m l a k -> reads (f a) k b j -> reads (m ≫= f) l b j.
Proof.
  intros Hm Hf r Hr. destruct (Hm r Hr) as (r1&H1&Hr1). destruct (Hf r1 Hr1) as (r2&H2&Hr2).
  exists r2. split; [|done]. unfold mbind, RM_bind. by rewrite H1.
Qed.
Lemma reads_of_outcome {A} (o : outcome Bad_ A) a l : o = Ok a -> reads (of_outcome o) l a l.
Proof. intros -> r Hr. by exists r. Qed.

Lemma reads_take n b l : zlen b = n -> reads (take n) (b ++ l) b l.
Proof.
  intros <- r (Hat&Hb&Hl).
  assert (zlen (bytes r) = at_ r + zlen b + zlen l) as Hlen.
  { rewrite <- (ztake_zdrop (at_ r) (bytes r)) at 1. rewrite zlen_app, Hl, zlen_app, zlen_ztake by lia. lia. }
  pose proof (zlen_nonneg b). pose proof (zlen_nonneg l).
  exists (mkReader (bytes r) (at_ r + zlen b)). unfold take.
  rewrite (proj2 (checked_Some 64 _ (at_ r + zlen b))) by (split; [done|lia]).
  rewrite (proj2 (zslice_Some (bytes r) (at_ r) (at_ r + zlen b) b)).
  - split; [done|]. split; [cbn; lia|]. split; [done|]. cbn. rewrite <- zdrop_zdrop by lia. rewrite Hl. by apply zdrop_app.
  - split; [lia|]. split; [lia|]. rewrite Hl. replace (at_ r + zlen b - at_ r) with (zlen b) by lia.
    by rewrite ztake_app.
Qed.

Lemma u16_at_le v b : fits 16 v -> u16_at (le_bytes 2 v ++ b) 0 = Ok v.
Proof. intros Hv. rewrite <- (le_round_trip 2 v Hv) at 2. done. Qed.
Lemma u32_at_le v : fits 32 v -> u32_at (le_bytes 4 v) 0 = Ok v.
Proof. intros Hv. rewrite <- (le_round_trip 4 v Hv) at 2. done. Qed.

Lemma reads_group len count l :
  fits 16 len -> fits 16 count -> reads group (le_bytes 2 len ++ le_bytes 2 count ++ l) (len, count) l.
Proof.
  intros Hl Hc. rewrite app_assoc. eapply reads_bind; [by apply reads_take|].
  eapply reads_bind; [apply reads_of_outcome; by apply u16_at_le|].
  eapply reads_bind; [apply (reads_of_outcome _ count)|apply reads_ret].
  rewrite <- (le_round_trip 2 count Hc) at 2. done.
Qed.

Lemma reads_text t l : utf8_valid t -> zlen t < 2 ^ 32 -> reads text (le_bytes 4 (zlen t) ++ t ++ l) t l.
Proof.
  intros Ht Hlen. pose proof (zlen_nonneg t). eapply reads_bind; [by apply reads_take|].
  eapply reads_bind; [apply reads_of_outcome, u32_at_le; split; lia|].
  eapply reads_bind; [by apply reads_take|]. apply is_text_valid in Ht as ->. apply reads_ret.
Qed.

(** A group's entries, one after the other. *)
Lemma reads_collect {A} (f : RM A) (enc : A -> list Z) (P : A -> Prop) (xs : list A) l :
  (forall x k, P x -> reads f (enc x ++ k) x k) -> Forall P xs ->
  reads (collect (length xs) f) (concat (map enc xs) ++ l) xs l.
Proof.
  intros Hf. induction 1 as [|x xs Hx _ IH]; cbn; [apply reads_ret|]. rewrite <- app_assoc.
  eapply reads_bind; [by apply Hf|]. eapply reads_bind; [exact IH|]. apply reads_ret.
Qed.

Lemma reads_open template block l :
  fits 16 template -> zlen block < 2 ^ 16 ->
  reads open_ (w_new template block ++ l) (template, block) l.
Proof.
  intros Ht Hb. pose proof (zlen_nonneg block). unfold w_new.
  replace ((le_bytes 2 (zlen block) ++ le_bytes 2 template ++ le_bytes 2 SCHEMA ++ le_bytes 2 SBE_VERSION ++ block) ++ l)
    with ((le_bytes 2 (zlen block) ++ le_bytes 2 template ++ le_bytes 2 SCHEMA ++ le_bytes 2 SBE_VERSION) ++ block ++ l)
    by (by rewrite <- !app_assoc).
  eapply reads_bind; [by apply reads_take|].
  eapply reads_bind; [apply reads_of_outcome, u16_at_le; split; lia|].
  eapply reads_bind; [apply (reads_of_outcome _ template); rewrite <- (le_round_trip 2 template Ht) at 2; done|].
  eapply reads_bind; [apply (reads_of_outcome _ SCHEMA); done|].
  rewrite Z.eqb_refl. eapply reads_bind; [by apply reads_take|]. apply reads_ret.
Qed.

Lemma reads_start {A} (m : RM A) l a k : reads m l a k -> zlen l < 2 ^ 64 -> exists r, m (mkReader l 0) = Ok (a, r) /\ ahead r k.
Proof. intros Hm Hl. apply Hm. split; [cbn; pose proof (zlen_nonneg l); lia|]. done. Qed.

(** ** Fields of a block *)
Lemma b_u64_at pre v post : fits 64 v -> b_u64 (pre ++ le_bytes 8 v ++ post) (zlen pre) = Ok v.
Proof.
  intros Hv. unfold b_u64. change (zlen pre + 8) with (zlen pre + zlen (le_bytes 8 v)).
  rewrite zslice_app. cbn -[le_val le_bytes]. f_equal. by apply le_round_trip.
Qed.
Lemma b_u32_at pre v post : fits 32 v -> b_u32 (pre ++ le_bytes 4 v ++ post) (zlen pre) = Ok v.
Proof.
  intros Hv. unfold b_u32. change (zlen pre + 4) with (zlen pre + zlen (le_bytes 4 v)).
  rewrite zslice_app. cbn -[u32_at le_bytes]. by apply u32_at_le.
Qed.
Lemma b_u8_at pre v post : b_u8 (pre ++ v :: post) (zlen pre) = Ok v.
Proof.
  unfold b_u8, zget. pose proof (zlen_nonneg pre). destruct (Z.ltb_spec (zlen pre) 0); [lia|].
  unfold zlen. rewrite Nat2Z.id. by rewrite list_lookup_middle.
Qed.

Lemma open_new t b l : fits 16 t -> zlen b < 2 ^ 16 -> exists r, open (w_new t b ++ l) = Ok (t, b, r).
Proof.
  intros Ht Hb. pose proof (zlen_nonneg b). set (h := le_bytes 2 (zlen b) ++ le_bytes 2 t ++ le_bytes 2 SCHEMA ++ le_bytes 2 SBE_VERSION).
  assert (w_new t b ++ l = h ++ b ++ l) as -> by (unfold w_new, h; by rewrite <- !app_assoc).
  assert (take 8 (mkReader (h ++ b ++ l) 0) = Ok (h, mkReader (h ++ b ++ l) 8)) as H8.
  { unfold take. cbn [at_ bytes]. change (checked 64 (0 + 8)) with (Some 8). cbv beta iota.
    pose proof (zslice_app [] h (b ++ l)) as Hs. change (zlen (@nil Z) + zlen h) with 8 in Hs.
    change (zlen (@nil Z)) with 0 in Hs. cbn [app] in Hs. by rewrite Hs. }
  assert (take (zlen b) (mkReader (h ++ b ++ l) 8) = Ok (b, mkReader (h ++ b ++ l) (8 + zlen b))) as Hb8.
  { unfold take. cbn [at_ bytes]. rewrite (proj2 (checked_Some 64 _ (8 + zlen b))) by (split; [done|lia]). cbv beta iota.
    pose proof (zslice_app h b l) as Hs. change (zlen h) with 8 in Hs. by rewrite Hs. }
  assert (u16_at h 0 = Ok (zlen b)) as H0 by (apply u16_at_le; split; lia).
  assert (u16_at h 2 = Ok t) as H2 by (pose proof (le_round_trip 2 t Ht) as Hr; unfold h; rewrite <- Hr at 2; done).
  assert (u16_at h 4 = Ok SCHEMA) as H4 by done. clearbody h.
  exists (mkReader (h ++ b ++ l) (8 + zlen b)). unfold open, open_, mbind, RM_bind. rewrite H8. cbv beta iota.
  rewrite H0, H2, H4. unfold of_outcome. cbv beta iota. change (SCHEMA =? SCHEMA) with true. cbv beta iota. by rewrite Hb8.
Qed.
Lemma id_back id b : fits 64 id -> b_u64 (le_bytes 8 id ++ b) 0 = Ok id.
Proof. apply (b_u64_at []). Qed.

(** ** Refused, never trusted

    [yields m Q]: whatever the bytes, [m] does not panic, and what it reads
    satisfies [Q]. *)
Definition sound (r : Reader) : Prop := 0 <= at_ r /\ bytes_ok (bytes r).
Definition yields {A} (m : RM A) (Q : A -> Prop) : Prop := forall r, sound r ->
  match m r with Ok (a, r') => Q a /\ sound r' | Err _ => True | Panic => False end.

Lemma yields_bind {A B} (m : RM A) (f : A -> RM B) (P : A -> Prop) (Q : B -> Prop) :
  yields m P -> (forall a, P a -> yields (f a) Q) -> yields (m ≫= f) Q.
Proof.
  intros Hm Hf r Hr. specialize (Hm r Hr). unfold mbind, RM_bind.
  destruct (m r) as [[a r1]|e|]; [|done|done]. destruct Hm as [Ha Hr1]. by apply Hf.
Qed.
Lemma yields_ret {A} (a : A) (Q : A -> Prop) : Q a -> yields (mret a) Q.
Proof. intros Ha r Hr. done. Qed.
Lemma yields_refuse {A} (Q : A -> Prop) : yields refuse Q.
Proof. by intros r Hr. Qed.
Lemma yields_outcome {A} (o : outcome Bad_ A) (Q : A -> Prop) :
  no_panic o -> (forall a, o = Ok a -> Q a) -> yields (of_outcome o) Q.
Proof. intros Hp Ho r Hr. unfold of_outcome. destruct o; [auto|done|done]. Qed.

Lemma yields_take n : 0 <= n -> yields (take n) (fun b => zlen b = n /\ bytes_ok b).
Proof.
  intros Hn r [Hr Hb]. unfold take. destruct (checked 64 _) as [e|] eqn:He; [|done]. apply checked_Some in He as [-> _].
  destruct (zslice (bytes r) _ _) as [b|] eqn:Hs; [|done]. pose proof (zslice_len _ _ _ _ Hs).
  apply zslice_Some in Hs as (_&_&->). split; [split; [lia|by apply Forall_take, Forall_drop]|]. split; [cbn; lia|done].
Qed.

Lemma zget_ok b i x : bytes_ok b -> zget b i = Some x -> u8 x.
Proof. unfold zget. intros Hb Hx. destruct (i <? 0); [done|]. by eapply Forall_lookup_1. Qed.

Lemma yields_u16 b i : 0 <= i -> i + 2 <= zlen b -> bytes_ok b -> yields (of_outcome (u16_at b i)) (fits 16).
Proof.
  intros Hi Hlen Hb. destruct (zget_is_Some b i ltac:(lia)) as [x Hx]. destruct (zget_is_Some b (i + 1) ltac:(lia)) as [y Hy].
  assert (u16_at b i = Ok (le_val [x; y])) as -> by (unfold u16_at; by rewrite Hx, Hy).
  apply yields_outcome; [done|]. intros a [= <-]. apply (le_val_bound [x; y]).
  constructor; [by eapply zget_ok|]. constructor; [by eapply zget_ok|constructor].
Qed.

Lemma yields_u32 b : 4 <= zlen b -> bytes_ok b -> yields (of_outcome (u32_at b 0)) (fits 32).
Proof.
  intros Hlen Hb. destruct (zget_is_Some b 0 ltac:(lia)) as [x Hx]. destruct (zget_is_Some b (0 + 1) ltac:(lia)) as [y Hy].
  destruct (zget_is_Some b (0 + 2) ltac:(lia)) as [z Hz]. destruct (zget_is_Some b (0 + 3) ltac:(lia)) as [w Hw].
  assert (u32_at b 0 = Ok (le_val [x; y; z; w])) as -> by (unfold u32_at; by rewrite Hx, Hy, Hz, Hw).
  apply yields_outcome; [done|]. intros a [= <-]. apply (le_val_bound [x; y; z; w]).
  repeat (constructor; [by eapply zget_ok|]). constructor.
Qed.

Lemma yields_group : yields group (fun p => fits 16 (fst p) /\ fits 16 (snd p)).
Proof.
  eapply yields_bind; [by apply yields_take|]. intros h [Hh Hb].
  eapply yields_bind; [apply yields_u16; [lia|lia|done]|]. intros a Ha.
  eapply yields_bind; [apply yields_u16; [lia|lia|done]|]. intros b Hb'. by apply yields_ret.
Qed.

Lemma yields_text : yields text utf8_valid.
Proof.
  eapply yields_bind; [by apply yields_take|]. intros h [Hh Hb].
  eapply yields_bind; [apply yields_u32; [lia|done]|]. intros n Hn.
  eapply yields_bind; [apply yields_take; destruct Hn; lia|]. intros t _.
  destruct (is_text t) eqn:Ht; [|apply yields_refuse]. apply yields_ret. by apply is_text_valid.
Qed.

Lemma yields_open : yields open_ (fun p => bytes_ok (snd p)).
Proof.
  eapply yields_bind; [by apply yields_take|]. intros h [Hh Hb].
  do 3 (eapply yields_bind; [apply yields_u16; [lia|lia|done]|]; intros ? ?).
  destruct (_ =? SCHEMA); [|apply yields_refuse].
  eapply yields_bind; [apply yields_take; unfold fits in *; lia|]. intros b [_ Hb']. by apply yields_ret.
Qed.

Lemma yields_collect {A} (f : RM A) (Q : A -> Prop) n :
  yields f Q -> yields (collect n f) (fun l => length l = n /\ Forall Q l).
Proof.
  intros Hf. induction n as [|n IH]; cbn; [by apply yields_ret|].
  eapply yields_bind; [exact Hf|]. intros x Hx. eapply yields_bind; [exact IH|]. intros xs [Hl Hxs].
  apply yields_ret. cbn. auto.
Qed.

Lemma block_no_panic b i : no_panic (b_u8 b i) /\ no_panic (b_u32 b i) /\ no_panic (b_u64 b i) /\ no_panic (b_blob b i).
Proof.
  assert (forall i, no_panic (b_u64 b i)) as H64.
  { intros j. unfold b_u64. apply no_panic_bind; [apply no_panic_ok_or|done]. }
  split_and!; [apply no_panic_ok_or| |done|].
  - unfold b_u32. apply no_panic_bind; [apply no_panic_ok_or|]. intros s Hs%ok_or_Ok. apply zslice_len in Hs.
    destruct (zget_is_Some s 0 ltac:(lia)) as [x Hx]. destruct (zget_is_Some s (0 + 1) ltac:(lia)) as [y Hy].
    destruct (zget_is_Some s (0 + 2) ltac:(lia)) as [z Hz]. destruct (zget_is_Some s (0 + 3) ltac:(lia)) as [w Hw].
    unfold u32_at. by rewrite Hx, Hy, Hz, Hw.
  - unfold b_blob. repeat (apply no_panic_bind; [done|intros ? _]). done.
Qed.
