(* ===== verification/Serve.v ===== *)
(** * Requests of the daemon ([serve/mod.rs], [serve/commands.rs])

    What a request says: the daemon's reading of the request area ([read])
    and the command line's writing of it ([request_of]). *)
From S2P Require Import Prelude Bytes Utf8 Sbe Engine.

(** ** What a request asks *)
Inductive Kind := Choice | Score | Noul.
Record Sampling := mkSampling {
  seed : Z; top_k : Z; temperature : Z; top_p : Z; min_p : Z; penalty : Z;   (** the floats as bits *)
}.
Record Said := mkSaid { said_role : Role; said_text : list Z; attached : list (Z * Blob) }.
Record Chat := mkChat {
  c_model : list Z; c_messages : list Said; c_sampling : Sampling; c_max : Z; c_think : bool; c_keep : option Z;
}.
Record Embed := mkEmbed { e_model : list Z; e_texts : list (list Z); e_dims : Z; e_out : Blob }.
Record Asked := mkAsked { a_kind : Kind; a_instructions : list Z; a_options : list (list Z * list Z) }.
Record Decide := mkDecide {
  d_model : list Z; d_state : list Z; d_conversation : bool; d_questions : list Asked; d_out : Blob;
}.
Inductive Ask :=
| AskChat (c : Chat)
| AskEmbed (e : Embed)
| AskDecide (d : Decide)
| AskLoad (model : list Z) (keep : option Z) (context_ : Z) (pin_ : bool)
| AskUnload (model : list Z)
| AskList
| AskShutdown.

Definition usize_max : Z := 2 ^ 64 - 1.
(** [Duration::MAX] and a duration in milliseconds, in nanoseconds. *)
Definition duration_max : Z := (2 ^ 64 - 1) * 1000000000 + 999999999.
Definition as_i64 (z : Z) : Z := if z <? 2 ^ 63 then z else z - 2 ^ 64.

(** [keep]: −1 the default, −2 (any other negative) for good. *)
Definition keep (ms : Z) : option Z :=
  let ms := as_i64 ms in
  if ms =? -1 then None else if ms <? 0 then Some duration_max else Some (ms * 1000000).

(** ** Reading *)
Definition role_of (b : Z) : outcome Bad_ Role := ok_or (zget [System; User; RModel] b) Bad.
Definition kind_of (b : Z) : outcome Bad_ Kind := ok_or (zget [Choice; Score; Noul] b) Bad.

Definition read_load (b : list Z) : RM Ask :=
  m ← text;
  k ← of_outcome (b_u64 b 8);
  c ← of_outcome (b_u32 b 16);
  p ← of_outcome (b_u8 b 20);
  mret (AskLoad m (keep k) c (negb (p =? 0))).

Definition read_attached (alen : Z) : RM (Z * Blob) :=
  e ← entry alen; m ← of_outcome (b_u8 e 16); b ← of_outcome (b_blob e 0); mret (m, b).
Definition read_said (len : Z) : RM Said :=
  e ← entry len;
  b ← of_outcome (b_u8 e 0);
  role ← of_outcome (role_of b);
  '(alen, an) ← group;
  att ← collect (Z.to_nat an) (read_attached alen);
  t ← text;
  mret (mkSaid role t att).
Definition read_sampling (b : list Z) : outcome Bad_ Sampling :=
  seed ← b_u64 b 8; top_k ← b_u32 b 28; temperature ← b_u32 b 32;
  top_p ← b_u32 b 36; min_p ← b_u32 b 40; penalty ← b_u32 b 44;
  Ok (mkSampling seed top_k temperature top_p min_p penalty).
Definition read_chat (b : list Z) : RM Chat :=
  '(len, n) ← group;
  messages ← collect (Z.to_nat n) (read_said len);
  max ← of_outcome (b_u32 b 24);
  m ← text;
  sampling ← of_outcome (read_sampling b);
  think ← of_outcome (b_u8 b 48);
  k ← of_outcome (b_u64 b 16);
  mret (mkChat m messages sampling (if max =? 0 then usize_max else max) (negb (think =? 0)) (keep k)).

Definition read_embed (b : list Z) : RM Ask :=
  '(len, n) ← group;
  texts ← collect (Z.to_nat n) (entry len ≫= fun _ => text);
  m ← text;
  dims ← of_outcome (b_u32 b 24);
  out ← of_outcome (b_blob b 8);
  mret (AskEmbed (mkEmbed m texts dims out)).

Definition read_asked (len : Z) : RM Asked :=
  e ← entry len;
  b ← of_outcome (b_u8 e 0);
  kind ← of_outcome (kind_of b);
  '(olen, on) ← group;
  options ← collect (Z.to_nat on) (entry olen ≫= fun _ => l ← text; d ← text; mret (l, d));
  t ← text;
  mret (mkAsked kind t options).
Definition read_decide (b : list Z) : RM Ask :=
  '(len, n) ← group;
  questions ← collect (Z.to_nat n) (read_asked len);
  m ← text;
  state ← text;
  conv ← of_outcome (b_u8 b 24);
  out ← of_outcome (b_blob b 8);
  mret (AskDecide (mkDecide m state (negb (conv =? 0)) questions out)).

Definition read_ask (template : Z) (block : list Z) : RM Ask :=
  if template =? 1 then c ← read_chat block; mret (AskChat c)
  else if template =? 2 then read_embed block
  else if template =? 3 then read_decide block
  else if template =? 4 then read_load block
  else if template =? 5 then m ← text; mret (AskUnload m)
  else if template =? 6 then mret AskList
  else if template =? 7 then mret AskShutdown
  else refuse.

(** [read]: the request's number, and what it asks. *)
Definition read (b : list Z) : Z * outcome Bad_ Ask :=
  match open b with
  | Ok (template, block, r) =>
      (match b_u64 block 0 with Ok id => id | _ => 0 end,
       match read_ask template block r with Ok (a, _) => Ok a | Err e => Err e | Panic => Panic end)
  | Err _ => (0, Err Bad)
  | Panic => (0, Panic)
  end.

(** ** Writing: the command line's requests *)
Definition request (template id : Z) (rest : list Z) : list Z := w_new template (f_u64 id [] ++ rest).

Inductive Command :=
| CmdRun (attachments_ : list (Z * Blob)) (prompt_ name : list Z)
| CmdEmbed (room dims : Z) (texts : list (list Z)) (name : list Z)
| CmdDecide (room : Z) (conversation : bool) (asked : list Asked) (name state : list Z)
| CmdLoad (keep_ context_ : Z) (pin_ : bool) (name : list Z)
| CmdUnload (name : list Z)
| CmdPs
| CmdDown.

(** [1f32.to_bits()]. *)
Definition one_f32 : Z := 0x3F800000.
Definition kind_byte (k : Kind) : Z := match k with Choice => 0 | Score => 1 | Noul => 2 end.
Definition flag (b : bool) : Z := if b then 1 else 0.

(** The block of [run]'s Chat: greedy, no thinking, the default keep-alive. *)
Definition run_block : list Z :=
  f_u8 0 (f_u32 one_f32 (f_u32 0 (f_u32 one_f32 (f_u32 0 (f_u32 0 (f_u32 0 (f_u64 usize_max (f_u64 0 [])))))))).
Definition attached_bytes (a : Z * Blob) : list Z :=
  f_u8 (fst a) (f_u64 (b_length (snd a)) (f_u64 (b_offset (snd a)) [])).

(** [asking]: a Decide's questions. *)
Definition asking_one (a : Asked) (w : list Z) : list Z :=
  let w := w_group 0 (zlen (a_options a)) (w_bytes [kind_byte (a_kind a)] w) in
  let w := fold_left (fun w o => w_text (snd o) (w_text (fst o) w)) (a_options a) w in
  w_text (a_instructions a) w.
Definition asking (asked : list Asked) (w : list Z) : list Z :=
  fold_left (fun w a => asking_one a w) asked (w_group 1 (zlen asked) w).

(** The requests of [run], [embed], [decide], [load], [unload], [ps] and
    [down]. *)
Definition run_request (id : Z) (att : list (Z * Blob)) (prompt_ name : list Z) : list Z :=
  let w := w_group 17 (zlen att) (w_bytes [1] (w_group 1 1 (request 1 id run_block))) in
  let w := fold_left (fun w a => w_bytes (attached_bytes a) w) att w in
  w_text name (w_text prompt_ w).
Definition embed_request (id room dims : Z) (texts : list (list Z)) (name : list Z) : list Z :=
  let w := w_group 0 (zlen texts) (request 2 id (f_u32 dims (f_u64 room (f_u64 0 [])))) in
  w_text name (fold_left (fun w t => w_text t w) texts w).
Definition decide_request (id room : Z) (conv : bool) (asked : list Asked) (name state : list Z) : list Z :=
  w_text state (w_text name (asking asked (request 3 id (f_u8 (flag conv) (f_u64 room (f_u64 0 [])))))).
Definition load_request (id k context_ : Z) (pin_ : bool) (name : list Z) : list Z :=
  w_text name (request 4 id (f_u8 (flag pin_) (f_u32 context_ (f_u64 k [])))).
Definition unload_request (id : Z) (name : list Z) : list Z := w_text name (request 5 id []).
Definition ps_request (id : Z) : list Z := request 6 id [].
Definition down_request (id : Z) : list Z := request 7 id [].

Definition request_of (id : Z) (c : Command) : list Z :=
  match c with
  | CmdRun att prompt_ name => run_request id att prompt_ name
  | CmdEmbed room dims texts name => embed_request id room dims texts name
  | CmdDecide room conv asked name state => decide_request id room conv asked name state
  | CmdLoad k context_ pin_ name => load_request id k context_ pin_ name
  | CmdUnload name => unload_request id name
  | CmdPs => ps_request id
  | CmdDown => down_request id
  end.

(** ** Reading what the command line wrote *)
Definition text_ok (t : list Z) : Prop := utf8_valid t /\ zlen t < 2 ^ 32.
Definition blob_ok (b : Blob) : Prop := fits 64 (b_offset b) /\ fits 64 (b_length b).
Definition attached_ok (a : Z * Blob) : Prop := blob_ok (snd a).
Definition asked_ok (a : Asked) : Prop :=
  text_ok (a_instructions a) /\ zlen (a_options a) < 2 ^ 16
  /\ Forall (fun o => text_ok (fst o) /\ text_ok (snd o)) (a_options a).

(** The command line's arguments: texts that are UTF-8, counts that fit
    their fields. *)
Definition command_ok (c : Command) : Prop :=
  match c with
  | CmdRun att prompt_ name => zlen att < 2 ^ 16 /\ Forall attached_ok att /\ text_ok prompt_ /\ text_ok name
  | CmdEmbed room dims texts name =>
      fits 64 room /\ fits 32 dims /\ zlen texts < 2 ^ 16 /\ Forall text_ok texts /\ text_ok name
  | CmdDecide room _ asked name state =>
      fits 64 room /\ zlen asked < 2 ^ 16 /\ Forall asked_ok asked /\ text_ok name /\ text_ok state
  | CmdLoad keep_ context_ _ name => fits 64 keep_ /\ fits 32 context_ /\ text_ok name
  | CmdUnload name => text_ok name
  | CmdPs | CmdDown => True
  end.

(** What each command means. *)
Definition ask_of (c : Command) : Ask :=
  match c with
  | CmdRun att prompt_ name =>
      AskChat (mkChat name [mkSaid User prompt_ att] (mkSampling 0 0 0 one_f32 0 one_f32) usize_max false None)
  | CmdEmbed room dims texts name => AskEmbed (mkEmbed name texts dims (mkBlob 0 room))
  | CmdDecide room conv asked name state => AskDecide (mkDecide name state conv asked (mkBlob 0 room))
  | CmdLoad keep_ context_ pin_ name => AskLoad name (keep keep_) context_ pin_
  | CmdUnload name => AskUnload name
  | CmdPs => AskList
  | CmdDown => AskShutdown
  end.

Lemma fold_writes {A} (f : list Z -> A -> list Z) (enc : A -> list Z) (l : list A) w :
  (forall w x, f w x = w ++ enc x) -> fold_left f l w = w ++ concat (map enc l).
Proof.
  intros Hf. revert w. induction l as [|x l IH]; intros w; cbn; [by rewrite app_nil_r|].
  by rewrite IH, Hf, app_assoc.
Qed.

Definition text_bytes (t : list Z) : list Z := le_bytes 4 (zlen t) ++ t.
Lemma reads_text_ok t l : text_ok t -> reads text (text_bytes t ++ l) t l.
Proof. intros [Ht Hl]. unfold text_bytes. rewrite <- app_assoc. by apply reads_text. Qed.

Lemma reads_nothing {A} (f : list Z -> RM A) l a k : reads (f []) l a k -> reads (entry 0 ≫= f) l a k.
Proof. intros Hf. eapply reads_bind; [|exact Hf]. by apply (reads_take 0 []). Qed.

Lemma reads_attached a l : attached_ok a -> reads (read_attached 17) (attached_bytes a ++ l) a l.
Proof.
  intros [Ho Hl]. destruct a as [m [o n]]. cbn in Ho, Hl. unfold attached_bytes, f_u8, f_u64. cbn [fst snd b_offset b_length].
  eapply reads_bind; [by apply reads_take|].
  eapply reads_bind; [apply reads_of_outcome; change 16 with (zlen (([] ++ le_bytes 8 o) ++ le_bytes 8 n)); apply b_u8_at|].
  eapply reads_bind; [apply reads_of_outcome|apply reads_ret].
  unfold b_blob. rewrite <- !app_assoc. pose proof (b_u64_at [] o (le_bytes 8 n ++ [m]) Ho) as H0.
  pose proof (b_u64_at (le_bytes 8 o) n [m] Hl) as H1.
  change (zlen []) with 0 in H0. change (zlen (le_bytes 8 o)) with (0 + 8) in H1.
  cbn [app] in *. by rewrite H0, H1.
Qed.

Lemma count_fits {A} (l : list A) : zlen l < 2 ^ 16 -> fits 16 (zlen l).
Proof. pose proof (zlen_nonneg l). by split. Qed.
Lemma count_nat {A} (l : list A) : Z.to_nat (zlen l) = length l.
Proof. apply Nat2Z.id. Qed.

Definition said_bytes (att : list (Z * Blob)) (prompt_ : list Z) : list Z :=
  [1] ++ le_bytes 2 17 ++ le_bytes 2 (zlen att) ++ concat (map attached_bytes att) ++ text_bytes prompt_.
Lemma reads_said att prompt_ l : zlen att < 2 ^ 16 -> Forall attached_ok att -> text_ok prompt_ ->
  reads (read_said 1) (said_bytes att prompt_ ++ l) (mkSaid User prompt_ att) l.
Proof.
  intros Hn Ha Hp. unfold said_bytes. rewrite <- !app_assoc. eapply reads_bind; [by apply reads_take|].
  do 2 (eapply reads_bind; [by apply reads_of_outcome|]).
  eapply reads_bind; [apply reads_group; [by split|by apply count_fits]|]. cbn beta iota.
  rewrite count_nat. eapply reads_bind; [apply reads_collect with (P := attached_ok); [intros; by apply reads_attached|done]|].
  eapply reads_bind; [by apply reads_text_ok|]. apply reads_ret.
Qed.

Definition option_bytes (o : list Z * list Z) : list Z := text_bytes (fst o) ++ text_bytes (snd o).
Definition asked_bytes (a : Asked) : list Z :=
  [kind_byte (a_kind a)] ++ le_bytes 2 0 ++ le_bytes 2 (zlen (a_options a))
  ++ concat (map option_bytes (a_options a)) ++ text_bytes (a_instructions a).
Lemma asking_writes asked w : asking asked w = w ++ le_bytes 2 1 ++ le_bytes 2 (zlen asked) ++ concat (map asked_bytes asked).
Proof.
  unfold asking. rewrite (fold_writes _ asked_bytes).
  - unfold w_group. by rewrite <- !app_assoc.
  - intros v a. unfold asking_one, w_text, w_group, w_bytes. rewrite (fold_writes _ option_bytes).
    + unfold asked_bytes, text_bytes. by rewrite <- !app_assoc.
    + intros u o. unfold option_bytes, text_bytes. by rewrite <- !app_assoc.
Qed.

Lemma reads_asked a l : asked_ok a -> reads (read_asked 1) (asked_bytes a ++ l) a l.
Proof.
  intros (Hi&Hn&Ho). destruct a as [k i os]. cbn in Hi, Hn, Ho. unfold asked_bytes. cbn [a_kind a_options a_instructions].
  rewrite <- !app_assoc. eapply reads_bind; [by apply reads_take|].
  eapply reads_bind; [by apply reads_of_outcome|]. eapply reads_bind; [apply (reads_of_outcome _ k); by destruct k|].
  eapply reads_bind; [apply reads_group; [by split|by apply count_fits]|]. cbn beta iota.
  rewrite count_nat. eapply reads_bind.
  { eapply reads_collect; [|exact Ho]. intros [lab desc] j [Hl Hd]. apply reads_nothing. unfold option_bytes. rewrite <- app_assoc.
    eapply reads_bind; [by apply reads_text_ok|]. eapply reads_bind; [by apply reads_text_ok|]. apply reads_ret. }
  eapply reads_bind; [by apply reads_text_ok|]. apply reads_ret.
Qed.

Lemma read_request t id blk l a k :
  fits 16 t -> fits 64 id -> zlen blk < 2 ^ 10 -> zlen (request t id blk ++ l) < 2 ^ 64 ->
  reads (read_ask t (le_bytes 8 id ++ blk)) l a k -> read (request t id blk ++ l) = (id, Ok a).
Proof.
  intros Ht Hid Hb Hl Hr. unfold read, open, request, f_u64 in *. cbn [app] in *.
  destruct (reads_start open_ _ _ l (reads_open t (le_bytes 8 id ++ blk) l Ht ltac:(rewrite zlen_app; change (zlen (le_bytes 8 id)) with 8; lia)) Hl) as (r&Ho&Hr').
  rewrite Ho. destruct (Hr r Hr') as (r2&Ha&_). rewrite Ha. pose proof (b_u64_at [] id blk Hid) as H0. cbn [app] in H0.
  change (zlen []) with 0 in H0. by rewrite H0.
Qed.

(** The texts a command writes after its block. *)
Definition tail_of (c : Command) : list Z :=
  match c with
  | CmdRun att prompt_ name => le_bytes 2 1 ++ le_bytes 2 1 ++ said_bytes att prompt_ ++ text_bytes name
  | CmdEmbed _ _ texts name => le_bytes 2 0 ++ le_bytes 2 (zlen texts) ++ concat (map text_bytes texts) ++ text_bytes name
  | CmdDecide _ _ asked name state =>
      le_bytes 2 1 ++ le_bytes 2 (zlen asked) ++ concat (map asked_bytes asked) ++ text_bytes name ++ text_bytes state
  | CmdLoad _ _ _ name | CmdUnload name => text_bytes name
  | CmdPs | CmdDown => []
  end.
Definition template_of (c : Command) : Z :=
  match c with CmdRun _ _ _ => 1 | CmdEmbed _ _ _ _ => 2 | CmdDecide _ _ _ _ _ => 3 | CmdLoad _ _ _ _ => 4
             | CmdUnload _ => 5 | CmdPs => 6 | CmdDown => 7 end.
Definition block_of (c : Command) : list Z :=
  match c with
  | CmdRun _ _ _ => run_block
  | CmdEmbed room dims _ _ => le_bytes 8 0 ++ le_bytes 8 room ++ le_bytes 4 dims
  | CmdDecide room conv _ _ _ => le_bytes 8 0 ++ le_bytes 8 room ++ [flag conv]
  | CmdLoad k c p _ => le_bytes 8 k ++ le_bytes 4 c ++ [flag p]
  | _ => []
  end.

Lemma request_of_parts id c : request_of id c = request (template_of c) id (block_of c) ++ tail_of c.
Proof.
  destruct c; cbn [request_of template_of block_of tail_of]; [| | | | |symmetry; apply app_nil_r|symmetry; apply app_nil_r];
    unfold run_request, embed_request, decide_request, load_request, unload_request.
  - rewrite (fold_writes _ attached_bytes) by done. unfold w_text, w_group, w_bytes, said_bytes, text_bytes. by rewrite <- !app_assoc.
  - rewrite (fold_writes _ text_bytes) by done. unfold w_text, w_group, text_bytes, f_u32, f_u64. cbn [app]. by rewrite <- !app_assoc.
  - rewrite asking_writes. unfold w_text, text_bytes, f_u8, f_u64. cbn [app]. by rewrite <- !app_assoc.
  - unfold w_text, text_bytes, f_u8, f_u32, f_u64. cbn [app]. by rewrite <- !app_assoc.
  - done.
Qed.

(** The fields of each block, after the eight bytes of the number. *)
Ltac field H := apply reads_of_outcome; first [exact H | by rewrite H].
Lemma blob_fields id v room post : fits 64 v -> fits 64 room ->
  b_blob (le_bytes 8 id ++ le_bytes 8 v ++ le_bytes 8 room ++ post) 8 = Ok (mkBlob v room).
Proof.
  intros Hv Hr. unfold b_blob. pose proof (b_u64_at (le_bytes 8 id) v (le_bytes 8 room ++ post) Hv) as H0.
  pose proof (b_u64_at (le_bytes 8 id ++ le_bytes 8 v) room post Hr) as H1. rewrite <- app_assoc in H1.
  change (zlen (le_bytes 8 id)) with 8 in H0. change (zlen (le_bytes 8 id ++ le_bytes 8 v)) with (8 + 8) in H1.
  by rewrite H0, H1.
Qed.
Lemma flag_back b : negb (flag b =? 0) = b.
Proof. by destruct b. Qed.

Lemma reads_run id att prompt_ name l : fits 64 id -> command_ok (CmdRun att prompt_ name) ->
  reads (read_chat (le_bytes 8 id ++ run_block)) (tail_of (CmdRun att prompt_ name) ++ l)
    (mkChat name [mkSaid User prompt_ att] (mkSampling 0 0 0 one_f32 0 one_f32) usize_max false None) l.
Proof.
  intros Hid (Hn&Ha&Hp&Hm). cbn [tail_of]. rewrite <- !app_assoc.
  eapply reads_bind; [by apply reads_group|]. cbn beta iota. change (Z.to_nat 1) with 1%nat.
  eapply reads_bind.
  { cbn [collect]. eapply reads_bind; [by apply reads_said|]. eapply reads_bind; [apply reads_ret|apply reads_ret]. }
  eapply reads_bind; [by apply (reads_of_outcome _ 0)|]. eapply reads_bind; [by apply reads_text_ok|].
  eapply reads_bind; [by apply (reads_of_outcome _ (mkSampling 0 0 0 one_f32 0 one_f32))|].
  eapply reads_bind; [by apply (reads_of_outcome _ 0)|]. eapply reads_bind; [by apply (reads_of_outcome _ usize_max)|].
  apply reads_ret.
Qed.

Lemma reads_embed id room dims texts name l : fits 64 id -> command_ok (CmdEmbed room dims texts name) ->
  reads (read_embed (le_bytes 8 id ++ block_of (CmdEmbed room dims texts name))) (tail_of (CmdEmbed room dims texts name) ++ l)
    (AskEmbed (mkEmbed name texts dims (mkBlob 0 room))) l.
Proof.
  intros Hid (Hr&Hd&Hn&Ht&Hm). cbn [tail_of block_of]. rewrite <- !app_assoc.
  eapply reads_bind; [apply reads_group; [by split|by apply count_fits]|]. cbn beta iota. rewrite count_nat.
  eapply reads_bind; [eapply reads_collect; [|exact Ht]; intros t j Hx; apply reads_nothing; by apply reads_text_ok|].
  eapply reads_bind; [by apply reads_text_ok|].
  eapply reads_bind; [apply (reads_of_outcome _ dims)|].
  { pose proof (b_u32_at (le_bytes 8 id ++ le_bytes 8 0 ++ le_bytes 8 room) dims [] Hd) as H.
    rewrite <- !app_assoc, app_nil_r in H. exact H. }
  eapply reads_bind; [apply reads_of_outcome, blob_fields; [by split|done]|]. apply reads_ret.
Qed.

Lemma reads_decide id room conv asked name state l : fits 64 id -> command_ok (CmdDecide room conv asked name state) ->
  reads (read_decide (le_bytes 8 id ++ block_of (CmdDecide room conv asked name state)))
    (tail_of (CmdDecide room conv asked name state) ++ l)
    (AskDecide (mkDecide name state conv asked (mkBlob 0 room))) l.
Proof.
  intros Hid (Hr&Hn&Ha&Hm&Hs). cbn [tail_of block_of]. rewrite <- !app_assoc.
  eapply reads_bind; [apply reads_group; [by split|by apply count_fits]|]. cbn beta iota. rewrite count_nat.
  eapply reads_bind; [eapply reads_collect; [|exact Ha]; intros; by apply reads_asked|].
  do 2 (eapply reads_bind; [by apply reads_text_ok|]).
  eapply reads_bind; [apply (reads_of_outcome _ (flag conv))|].
  { pose proof (b_u8_at (le_bytes 8 id ++ le_bytes 8 0 ++ le_bytes 8 room) (flag conv) []) as H. by rewrite <- !app_assoc in H. }
  eapply reads_bind; [apply reads_of_outcome, blob_fields; [by split|done]|]. rewrite flag_back. apply reads_ret.
Qed.

Lemma reads_load id k c p name l : fits 64 id -> command_ok (CmdLoad k c p name) ->
  reads (read_load (le_bytes 8 id ++ block_of (CmdLoad k c p name))) (text_bytes name ++ l) (AskLoad name (keep k) c p) l.
Proof.
  intros Hid (Hk&Hc&Hm). cbn [block_of]. eapply reads_bind; [by apply reads_text_ok|].
  eapply reads_bind; [apply (reads_of_outcome _ k), (b_u64_at (le_bytes 8 id)); done|].
  eapply reads_bind; [apply (reads_of_outcome _ c)|].
  { pose proof (b_u32_at (le_bytes 8 id ++ le_bytes 8 k) c [flag p] Hc) as H. by rewrite <- !app_assoc in H. }
  eapply reads_bind; [apply (reads_of_outcome _ (flag p))|].
  { pose proof (b_u8_at (le_bytes 8 id ++ le_bytes 8 k ++ le_bytes 4 c) (flag p) []) as H. by rewrite <- !app_assoc in H. }
  rewrite flag_back. apply reads_ret.
Qed.

Lemma reads_command id c l : fits 64 id -> command_ok c ->
  reads (read_ask (template_of c) (le_bytes 8 id ++ block_of c)) (tail_of c ++ l) (ask_of c) l.
Proof.
  intros Hid Hc. destruct c; cbn [template_of ask_of tail_of]; cbv delta [read_ask] beta; cbn [Z.eqb Pos.eqb]; cbn beta iota.
  - eapply reads_bind; [by apply reads_run|]. apply reads_ret.
  - by apply reads_embed.
  - by apply reads_decide.
  - by apply reads_load.
  - eapply reads_bind; [by apply reads_text_ok|]. apply reads_ret.
  - apply reads_ret.
  - apply reads_ret.
Qed.



(** ** Requests that are not *)
Definition asked_text (a : Asked) : Prop :=
  utf8_valid (a_instructions a) /\ Forall (fun o => utf8_valid (fst o) /\ utf8_valid (snd o)) (a_options a).
Definition ask_text (a : Ask) : Prop :=
  match a with
  | AskChat c => utf8_valid (c_model c) /\ Forall (fun s => utf8_valid (said_text s)) (c_messages c) /\ 0 < c_max c
  | AskEmbed e => utf8_valid (e_model e) /\ Forall utf8_valid (e_texts e)
  | AskDecide d => utf8_valid (d_model d) /\ utf8_valid (d_state d) /\ Forall asked_text (d_questions d)
  | AskLoad m _ _ _ | AskUnload m => utf8_valid m
  | AskList | AskShutdown => True
  end.

Lemma yields_any {A} (o : outcome Bad_ A) : no_panic o -> yields (of_outcome o) (fun _ => True).
Proof. intros Ho. by apply yields_outcome. Qed.
Lemma yields_weaken {A} (m : RM A) (P Q : A -> Prop) : yields m P -> (forall a, P a -> Q a) -> yields m Q.
Proof. intros Hm H r Hr. specialize (Hm r Hr). destruct (m r) as [[a r']| |]; naive_solver. Qed.
Lemma yields_entry {A} n (f : list Z -> RM A) Q : fits 16 n -> (forall b, yields (f b) Q) -> yields (entry n ≫= f) Q.
Proof. intros Hn Hf. eapply yields_bind; [apply yields_take; apply Hn|]. intros b _. apply Hf. Qed.
(** A group's header, then what its entries are. *)
Lemma yields_counted {A B} (f : Z -> RM A) (k : list A -> RM B) (P : A -> Prop) Q :
  (forall n, fits 16 n -> yields (f n) P) -> (forall xs, Forall P xs -> yields (k xs) Q) ->
  yields ('(len, n) ← group; collect (Z.to_nat n) (f len) ≫= k) Q.
Proof.
  intros Hf Hk. eapply yields_bind; [apply yields_group|]. intros [len n] [Hl _].
  eapply yields_bind; [by apply yields_collect, Hf|]. intros xs [_ Hxs]. by apply Hk.
Qed.
Ltac yield_next := eapply yields_bind; [apply yields_any; first [apply block_no_panic|apply no_panic_ok_or]|]; intros ? _.
Ltac yield_text := eapply yields_bind; [apply yields_text|]; intros ? ?.

Lemma yields_said n : fits 16 n -> yields (read_said n) (fun s => utf8_valid (said_text s)).
Proof.
  intros Hn. apply yields_entry; [done|]. intros e. do 2 yield_next.
  apply yields_counted with (P := fun _ => True).
  - intros k Hk. apply yields_entry; [done|]. intros b. do 2 yield_next. by apply yields_ret.
  - intros att _. yield_text. by apply yields_ret.
Qed.
Lemma yields_asked n : fits 16 n -> yields (read_asked n) asked_text.
Proof.
  intros Hn. apply yields_entry; [done|]. intros e. do 2 yield_next.
  apply yields_counted with (P := fun o => utf8_valid (fst o) /\ utf8_valid (snd o)).
  - intros k Hk. apply yields_entry; [done|]. intros b. do 2 yield_text. by apply yields_ret.
  - intros os Hos. yield_text. by apply yields_ret.
Qed.

Lemma sampling_no_panic b : no_panic (read_sampling b).
Proof. unfold read_sampling. repeat (apply no_panic_bind; [apply block_no_panic|intros ? _]). done. Qed.
Lemma b_u32_fits b i v : bytes_ok b -> b_u32 b i = Ok v -> fits 32 v.
Proof.
  intros Hb H. unfold b_u32 in H. outcome_simpl. pose proof (zslice_len _ _ _ _ H0) as Hl. apply zslice_Some in H0 as (_&_&Hs).
  assert (bytes_ok x) as Hx by (subst; by apply Forall_take, Forall_drop).
  assert (sound (mkReader [] 0)) as H0 by (split; [done|constructor]).
  pose proof (yields_u32 x ltac:(lia) Hx (mkReader [] 0) H0) as Hv. unfold of_outcome in Hv. rewrite H in Hv. apply Hv.
Qed.

Lemma yields_chat b : bytes_ok b -> yields (read_chat b) (fun c => ask_text (AskChat c)).
Proof.
  intros Hb. apply yields_counted with (P := fun s => utf8_valid (said_text s)); [apply yields_said|]. intros ms Hms.
  eapply yields_bind; [apply yields_outcome with (Q := fits 32); [apply block_no_panic|intros a; by apply b_u32_fits]|].
  intros n Hn. yield_text. eapply yields_bind; [apply yields_any, sampling_no_panic|]. intros s _. do 2 yield_next.
  apply yields_ret. split_and!; [done..|]. cbn. destruct Hn. unfold usize_max. destruct (Z.eqb_spec n 0); lia.
Qed.

Lemma yields_ask t b : bytes_ok b -> yields (read_ask t b) ask_text.
Proof.
  intros Hb. unfold read_ask.
  destruct (t =? 1); [eapply yields_bind; [by apply yields_chat|]; intros c Hc; by apply yields_ret|].
  destruct (t =? 2).
  { apply yields_counted with (P := utf8_valid).
    - intros k Hk. apply yields_entry; [done|]. intros _. apply yields_text.
    - intros xs Hxs. yield_text. do 2 yield_next. by apply yields_ret. }
  destruct (t =? 3).
  { apply yields_counted with (P := asked_text); [apply yields_asked|].
    intros xs Hxs. do 2 yield_text. do 2 yield_next. by apply yields_ret. }
  destruct (t =? 4); [yield_text; do 3 yield_next; by apply yields_ret|].
  destruct (t =? 5); [yield_text; by apply yields_ret|].
  do 2 (destruct (t =? _); [by apply yields_ret|]). apply yields_refuse.
Qed.

Lemma b_u64_fits b i v : bytes_ok b -> b_u64 b i = Ok v -> fits 64 v.
Proof.
  intros Hb H. unfold b_u64 in H. outcome_simpl. pose proof (zslice_len _ _ _ _ H0) as Hl. apply zslice_Some in H0 as (_&_&Hs).
  assert (bytes_ok x) as Hx by (subst; by apply Forall_take, Forall_drop). subst v.
  pose proof (le_val_bound x Hx) as Hv. unfold fits. replace (8 * zlen x) with 64 in Hv by lia. exact Hv.
Qed.

Lemma read_sound b :
  bytes_ok b -> fits 64 (fst (read b)) /\ no_panic (snd (read b)) /\ forall a, snd (read b) = Ok a -> ask_text a.
Proof.
  intros Hb. unfold read, open. pose proof (yields_open (mkReader b 0) (conj (Z.le_refl 0) Hb)) as Ho.
  destruct (open_ (mkReader b 0)) as [[[t blk] r]| |]; [|by repeat split|done]. destruct Ho as [Hblk Hr].
  pose proof (yields_ask t blk Hblk r Hr) as Ha. cbn [fst snd]. split.
  { destruct (b_u64 blk 0) eqn:Hid; [by eapply b_u64_fits|by split..]. }
  destruct (read_ask t blk r) as [[a r']| |]; [|by split|done]. split; [done|]. intros a' [= <-]. apply Ha.
Qed.

(** C27. Whatever bytes a client leaves in the request area, reading them ends
    with a request or with a refusal, never in a panic; what is read holds
    only texts that are UTF-8, and a chat's token budget is not zero. *)
Theorem any_request_is_read_or_refused b :
  bytes_ok b ->
  snd (read b) <> Panic /\ forall a, snd (read b) = Ok a -> ask_text a.
Proof. intros Hb. by destruct (read_sound b Hb) as (_&?&?). Qed.
Lemma any_request_is_read_or_refused_witness :
  bytes_ok [1; 2; 3] /\ snd (read [1; 2; 3]) = Err Bad /\ snd (read [1; 2; 3]) <> Panic.
Proof.
  assert (bytes_ok [1; 2; 3]) as Hb by (repeat constructor; lia).
  split; [exact Hb|]. split; [vm_compute; reflexivity|]. exact (proj1 (any_request_is_read_or_refused [1; 2; 3] Hb)).
Defined.
