(* ===== verification/Daemon.v ===== *)
(** * The daemon ([serve/mod.rs])

    One thread serves every client: it reads their doorbells, queues their
    requests and answers them one at a time, streaming the answer into the
    client's ring. The engine is [Engine.v]'s, a request is read by
    [Serve.v], the memory is [Shm.v]'s.

    What the other side of a socket does is a script of the client: what each
    [read] of it gives, and whether it stays for each message appended to its
    ring; past the end of a script a read would block and the client stays. *)
From S2P Require Import Prelude Bytes Utf8 Shm Sbe Engine Memory Calls Serve.

(** ** Messages of errors ([error.rs]) *)
Fixpoint digits (fuel : nat) (z : Z) (acc : list Z) : list Z :=
  match fuel with
  | O => acc
  | S fuel => let acc := 48 + z mod 10 :: acc in if z <? 10 then acc else digits fuel (z / 10) acc
  end.
(** An integer as [{}] shows it; 64-bit integers have at most 20 digits. *)
Definition decimal (z : Z) : list Z := if z <? 0 then 45 :: digits 20 (- z) [] else digits 20 z [].
Fixpoint ascii (s : string) : list Z :=
  match s with EmptyString => [] | String c s => Z.of_nat (Ascii.nat_of_ascii c) :: ascii s end.

(** What the standard library and the driver say: [{:?}] of a string, an
    [io::Error] from an errno, the name of a CUDA error. *)
Class Says := { debug : list Z -> list Z; os_error : Z -> list Z; error_name : Z -> list Z }.

Section Render.
Context `{Y : Says}.
Definition render_piece (p : piece) : list Z :=
  match p with Lit s => ascii s | Disp b => b | Dbg b => debug b | Num z => decimal z end.
Definition render (t : Prelude.text) : list Z := concat (map render_piece t).

(** [Display for Error]. *)
Definition display (e : error) : Prelude.text :=
  match e with
  | NoDriver => [Lit "the NVIDIA driver (libcuda.so.1) was not found; install it or set TACHYON_LIBCUDA to its path"]
  | DriverTooOld v => [Lit "the NVIDIA driver supports CUDA "; Num (Z.quot v 1000); Lit "."; Num (Z.quot (Z.rem v 1000) 10);
                       Lit "; tachyon needs 12.0 or newer (driver R525+)"]
  | UnsupportedGpu major minor => [Lit "compute capability "; Num major; Lit "."; Num minor; Lit " is not supported; tachyon needs 8.0 or newer"]
  | OutOfRange => [Lit "a copy reaches past the end of a buffer"]
  | Ptx log => Lit "the driver rejected the PTX: " :: log
  | Cuda code => [Lit "CUDA error "; Num code; Lit " ("; Disp (error_name code); Lit ")"]
  | Io errno => [Disp (os_error errno)]
  | Format why => Lit "invalid weight file: " :: why
  | TooLong tokens context => [Lit "the prompt has "; Num tokens; Lit " tokens; the context holds "; Num context; Lit " positions"]
  | OutOfMemory need free => [Lit "the model needs "; Num (Z.shiftr need 20); Lit " MiB of VRAM; "; Num (Z.shiftr free 20);
                              Lit " MiB can be freed under the limit"]
  | NoModel name => [Lit "no model named "; Dbg name; Lit " is loaded"]
  | Unsupported what => Lit "the model has " :: what ++ [Lit ", which tachyon does not run yet"]
  | Media what => Lit "media: " :: what
  end.
End Render.

(** ** Clients *)
Definition DOORBELL_REQUEST : Z := 1.
Definition DOORBELL_CANCEL : Z := 2.

(** What [read] of a socket gives; no bytes are the end of the stream. *)
Inductive got := Got (b : list Z) | WouldBlock | Broken.

(** A client, with the scripts of its side, the Welcome it was sent and the
    messages appended to its ring. *)
Record Client := mkClient {
  stream : list got; stays : list bool; shm : Shared; queued : bool; cancel : bool;
  welcome : list Z; out : list (list Z);
}.
Definition set_queued (c : Client) (q : bool) : Client :=
  mkClient (stream c) (stays c) (shm c) q (cancel c) (welcome c) (out c).
Definition set_cancel (c : Client) (x : bool) : Client :=
  mkClient (stream c) (stays c) (shm c) (queued c) x (welcome c) (out c).
Definition set_shm (c : Client) (s : Shared) : Client :=
  mkClient (stream c) (stays c) s (queued c) (cancel c) (welcome c) (out c).

(** [bells]: the doorbells rung so far, [None] once the client has left. *)
Fixpoint bells_from (l : list got) (asked cancel_ : bool) : option bool * bool * list got :=
  match l with
  | [] => (Some asked, cancel_, [])
  | Got [] :: l => (None, cancel_, l)
  | Got b :: l =>
      let '(asked, cancel_) := fold_left (fun '(asked, cancel_) b =>
        (asked || (b =? DOORBELL_REQUEST), (b =? DOORBELL_CANCEL) || cancel_ && negb (b =? DOORBELL_REQUEST)))
        b (asked, cancel_) in
      bells_from l asked cancel_
  | WouldBlock :: l => (Some asked, cancel_, l)
  | Broken :: l => (None, cancel_, l)
  end.
Definition bells (c : Client) : option bool * Client :=
  let '(r, x, l) := bells_from (stream c) false (cancel c) in
  (r, mkClient l (stays c) (shm c) (queued c) x (welcome c) (out c)).

(** [send]: the message is in the ring, or the client left before there was
    room for it. *)
Definition send (c : Client) (msg : list Z) : bool * Client :=
  let ok := default true (head (stays c)) in
  (ok, mkClient (stream c) (tail (stays c)) (shm c) (queued c) (cancel c) (welcome c)
         (if ok then out c ++ [msg] else out c)).

(** [accept]: a client is let in, unless it is another user's or its memory
    cannot be made or sent; it takes the first free slot. *)
Record Options := mkOptions { keep_alive : Z; data : Z; vram : option Z; host : option Z }.
Inductive arrival := NoClient | OtherUser | NoMemory | Arrives (stream_ : list got) (stays_ : list bool).
Fixpoint place (c : Client) (l : list (option Client)) : list (option Client) :=
  match l with [] => [Some c] | None :: l => Some c :: l | x :: l => x :: place c l end.
Definition accept (a : arrival) (opts : Options) (clients : list (option Client)) : list (option Client) :=
  match a with
  | Arrives s k =>
      let shm := shared_new (data opts) in
      place (mkClient s k shm false false (w_new 200 (f_u64 (size shm) [])) []) clients
  | _ => clients
  end.

(** [ring]. *)
Definition ring (slot : option Client) (i : nat) (queue : list nat) : option Client * list nat :=
  match slot with
  | None => (None, queue)
  | Some c =>
      match bells c with
      | (None, _) => (None, queue)
      | (Some true, c) => if queued c then (Some c, queue) else (Some (set_queued c true), queue ++ [i])
      | (Some false, c) => (Some c, queue)
      end
  end.

(** ** Answering *)
Inductive Code := BadRequest | CNoModel | CEngine | Cancelled | TooLarge.
Definition code_u16 (c : Code) : Z :=
  match c with BadRequest => 1 | CNoModel => 2 | CEngine => 3 | Cancelled => 4 | TooLarge => 5 end.
Inductive Failed := mkFailed (code : Code) (why : Prelude.text).

(** What answering changes: the engine, the client, and [STOP]. *)
Record Serving := mkServing { eng : Engine; cl : Client; stop : bool }.
Definition set_eng (s : Serving) (e : Engine) : Serving := mkServing e (cl s) (stop s).
Definition set_cl (s : Serving) (c : Client) : Serving := mkServing (eng s) c (stop s).

Definition DM (A : Type) : Type := Serving -> outcome Failed A * Serving.
#[global] Instance DM_ret : MRet DM := fun A a s => (Ok a, s).
#[global] Instance DM_bind : MBind DM := fun A B k m s =>
  match m s with
  | (Ok a, s) => k a s
  | (Err x, s) => (Err x, s)
  | (Panic, s) => (Panic, s)
  end.
Definition fail {A} (code : Code) (why : Prelude.text) : DM A := fun s => (Err (mkFailed code why), s).

(** Of the system: which directories hold a converted model, where a pulled
    model's is, what decoding an attachment gives, whether a text reads as
    English, and the vectors an encoder computes. *)
Class System := {
  has_weights : list Z -> bool;
  pulled : list Z -> list Z;
  decode : list Z -> result Z;
  decode_wav : list Z -> result Z;
  english : list Z -> bool;
  vectors : nat -> list (list Z);
}.
(** Decoders that return. *)
Definition media_ok `{System} : Prop := (forall b, no_panic (decode b)) /\ (forall b, no_panic (decode_wav b)).

Section Daemon.
Context `{Y : Says} `{W : World} `{S : System} {D : Type} `{!Detok D}.

(** A call of the engine; its error is a failure. *)
Definition ask_engine {A} (m : EM A) (why : error -> Failed) : DM A := fun s =>
  let '(r, e) := m (eng s) in
  (match r with Ok a => Ok a | Err x => Err (why x) | Panic => Panic end, set_eng s e).
Definition failed_engine (e : error) : Failed := mkFailed CEngine (display e).
Definition failed_model (name : list Z) (e : error) : Failed := mkFailed CEngine (Disp name :: Lit ": " :: display e).

Definition dir (name : list Z) : outcome Failed (list Z) :=
  if has_weights (pulled name) then Ok (pulled name)
  else if has_weights name then Ok name
  else Err (mkFailed CNoModel [Lit "no model "; Disp name]).
Definition of_dir (name : list Z) : DM (list Z) := fun s => (dir name, s).

(** [Load::default] with a keep-alive and a pin. *)
Definition load_with (keep_ : Z) (pin_ : bool) (st : Settings) : Load := mkLoad st keep_ pin_ 280.
Definition default_settings : Settings := mkSettings 4096 512.

Definition ready (opts : Options) (name : list Z) (keep_ : option Z) : DM unit := fun s =>
  match tier (eng s) name with
  | Some _ => (Ok tt, s)
  | None =>
      (d ← of_dir name;
       ask_engine (load name d (load_with (default (keep_alive opts) keep_) false default_settings)) (failed_model name)) s
  end.

(** [done]: a Done's message. *)
Definition done_ (id : Z) (block : list Z) : list Z := w_new 102 (f_u64 id [] ++ block).
Definition no_numbers : list Z := f_u32 0 (f_u32 0 (f_u64 0 (f_u64 0 []))).

(** [attachments]: each message's images, then its clips. A decoder's error is
    a failure of the request; its panic is the daemon's. *)
Definition bad (what : string) : Failed :=
  mkFailed BadRequest [Lit "an attachment is not "; Lit what; Lit ", or is out of the data area"].
Definition decoded (dec : list Z -> result Z) (what : string) (sh : Shared) (b : Blob) : outcome Failed Z :=
  bytes ← ok_or (Shm.read sh (b_offset b) (b_length b)) (bad what);
  match dec bytes with Ok x => Ok x | Err _ => Err (bad what) | Panic => Panic end.
Fixpoint all_decoded (dec : list Z -> result Z) (what : string) (sh : Shared) (l : list Blob) : outcome Failed (list Z) :=
  match l with
  | [] => Ok []
  | b :: l =>
      x ← decoded dec what sh b;
      xs ← all_decoded dec what sh l;
      Ok (x :: xs)
  end.
Definition of_media (k : Z) (s : Said) : list Blob := map snd (filter (fun a => fst a = k) (attached s)).
Fixpoint attachments (sh : Shared) (ms : list Said) : outcome Failed (list (list Z * list Z)) :=
  match ms with
  | [] => Ok []
  | m :: ms =>
      images ← all_decoded decode "an image" sh (of_media 0 m);
      audio ← all_decoded decode_wav "a WAV file" sh (of_media 1 m);
      rest ← attachments sh ms;
      Ok ((images, audio) :: rest)
  end.

(** The loop of [chat_answer]: each text is sent; the answer is cancelled if
    the client left or rang its cancel doorbell. *)
Definition text_message (id : Z) (t : list Z) : list Z := w_text t (w_new 101 (f_u64 id [])).
Definition deliver (msg : list Z) (c : Client) : bool * Client :=
  match send c msg with
  | (false, c) => (false, c)
  | (true, c) =>
      match bells c with
      | (None, c) => (false, c)
      | (Some _, c) => (negb (cancel c), c)
      end
  end.
Definition cancelled : Failed := mkFailed Cancelled [Lit "cancelled"].
Fixpoint stream_text (fuel : nat) (id : Z) (s : TokenStream D) (st : Serving) : outcome Failed unit * TokenStream D * Serving :=
  match next_text s (eng st) with
  | (Ok None, s, e) => (Ok tt, s, set_eng st e)
  | (Ok (Some t), s, e) =>
      match fuel with
      | O => (Panic, s, set_eng st e)
      | Datatypes.S fuel =>
          match deliver (text_message id t) (cl st) with
          | (true, c) => stream_text fuel id s (mkServing e c (stop st))
          | (false, c) => (Err cancelled, s, mkServing e (set_cancel c false) (stop st))
          end
      end
  | (Err x, s, e) => (Err (failed_engine x), s, set_eng st e)
  | (Panic, s, e) => (Panic, s, set_eng st e)
  end.
(** The texts of an answer: at most one for each token, and one at the end. *)
Definition texts_of (s : TokenStream D) : nat := Datatypes.S (Z.to_nat (left s)).

(** The stream is dropped whatever its loop gave. *)
Definition drop_after {A} (s : TokenStream D) (r : outcome Failed A) : DM A := fun st =>
  let '(d, e) := drop_stream s (eng st) in
  (match d with Panic => Panic | _ => r end, set_eng st e).

Definition chat_done (id prefill mid : Z) (s : TokenStream D) : DM (list Z) :=
  t ← ask_engine now failed_engine;
  e ← ask_engine get failed_engine;
  mret (w_new 102 (f_u32 (wrap 32 (tokens s)) (f_u32 (wrap 32 (zlen (prompt e)))
    (f_u64 (wrap 64 (Z.max 0 (t - mid))) (f_u64 (wrap 64 prefill) (f_u64 id [])))))).
Definition chat_stream (id prefill mid : Z) (s : TokenStream D) : DM (list Z) := fun st =>
  match stream_text (texts_of s) id s st with
  | (Ok _, s, st) => let '(r, st) := chat_done id prefill mid s st in drop_after s r st
  | (Err x, s, st) => drop_after s (Err x) st
  | (Panic, s, st) => (Panic, st)
  end.
Definition message_of (s : Said) (m : list Z * list Z) : Message :=
  mkMessage (said_role s) (said_text s) (fst m) (snd m).
Definition chat_answer (opts : Options) (id : Z) (c : Chat) : DM (list Z) :=
  ready opts (c_model c) (c_keep c) ≫= fun _ =>
  media_ ← (fun st => (attachments (shm (cl st)) (c_messages c), st));
  let req := mkRequest (zip_with message_of (c_messages c) media_) (c_think c) (c_max c) (c_keep c) in
  start ← ask_engine now failed_engine;
  s ← ask_engine (chat (c_model c) req) failed_engine;
  t ← ask_engine now failed_engine;
  mid ← ask_engine now failed_engine;
  chat_stream id (Z.max 0 (t - start)) mid s.

(** Writing a blob of the data area. *)
Definition write_out (o : Blob) (b : list Z) (what : string) : DM unit := fun st =>
  match Shm.write (shm (cl st)) (b_offset o) (b_length o) b with
  | (true, sh) => (Ok tt, set_cl st (set_shm (cl st) sh))
  | (false, _) => (Err (mkFailed TooLarge [Num (zlen b); Lit " bytes of "; Lit what; Lit " do not fit the blob"]), st)
  end.
(** The vectors of an encoder's answer. *)
Definition encoded (name : list Z) : DM (list (list Z)) :=
  ask_engine (ask_encoder name) failed_engine ≫= fun _ =>
  e ← ask_engine get failed_engine; mret (vectors (ticks e)).
Definition floats (rows : list (list Z)) : list Z := concat (map (le_bytes 4) (concat rows)).

Definition embed (opts : Options) (id : Z) (a : Embed) : DM (list Z) :=
  ready opts (e_model a) None ≫= fun _ =>
  rows ← encoded (e_model a);
  write_out (e_out a) (floats rows) "embeddings" ≫= fun _ =>
  mret (w_new 104 (f_u32 (wrap 32 (default 0 (zlen <$> head rows))) (f_u32 (wrap 32 (zlen rows)) (f_u64 id [])))).

Definition laya (a : Decide) : list Z :=
  if bool_decide (d_model a = ascii "laya") then
    match english (d_state a), dir (ascii "laya-english") with
    | true, Ok _ => ascii "laya-english"
    | _, _ => ascii "laya-multilingual"
    end
  else d_model a.
Definition decide (opts : Options) (id : Z) (a : Decide) : DM (list Z) :=
  let model := laya a in
  ready opts model None ≫= fun _ =>
  probs ← encoded model;
  write_out (d_out a) (floats probs) "probabilities" ≫= fun _ =>
  mret (fold_left (fun w p => w_bytes (le_bytes 4 (wrap 32 (zlen p))) w) probs
          (w_group 4 (wrap 16 (zlen probs)) (w_new 105 (f_u64 id [])))).

(** [list]: the loaded models. *)
Definition tier_u8 (t : Tier) : Z := match t with TVram => 0 | THost => 1 | TDisk => 2 end.
Definition listed (m : Loaded) (w : list Z) : list Z :=
  let left := match l_left m with None => -1 | Some d => Z.min (d / 1000000) (2 ^ 63 - 1) end in
  w_text (l_name m) (w_bytes (f_u8 (tier_u8 (l_tier m)) (f_u64 (wrap 64 left) (f_u64 (wrap 64 (l_vram m)) []))) w).
Definition list_ (id : Z) : DM (list Z) :=
  ms ← ask_engine list_models failed_engine;
  mret (fold_left (fun w m => listed m w) ms (w_group 17 (wrap 16 (zlen ms)) (w_new 106 (f_u64 id [])))).

(** [run]: the answer's last message, or why it failed. *)
Definition load_settings (context_ : Z) : Settings :=
  if 0 <? context_ then mkSettings context_ (Z.min 512 context_) else default_settings.
Definition run (opts : Options) (id : Z) (a : Ask) : DM (list Z) :=
  match a with
  | AskChat c => chat_answer opts id c
  | AskEmbed a => embed opts id a
  | AskDecide a => decide opts id a
  | AskLoad model keep_ context_ pin_ =>
      d ← of_dir model;
      ask_engine (load model d (load_with (default (keep_alive opts) keep_) pin_ (load_settings context_)))
        (failed_model model) ≫= fun _ =>
      mret (done_ id no_numbers)
  | AskUnload model =>
      ask_engine (unload model) failed_engine ≫= fun _ => mret (done_ id no_numbers)
  | AskList => list_ id
  | AskShutdown => fun s => (Ok (done_ id no_numbers), mkServing (eng s) (cl s) true)
  end.

(** [answer]: the request waiting in the request area, to its last message. *)
Definition request_area (c : Client) : list Z := peek (mem (shm c)) REQUEST (Z.to_nat REQUEST_BYTES).
Definition error_message (id : Z) (f : Failed) : list Z :=
  let 'mkFailed code why := f in w_text (render why) (w_new 103 (f_u16 (code_u16 code) (f_u64 id []))).
Definition respond (opts : Options) (id : Z) (a : outcome Bad_ Ask) : DM (list Z) := fun s =>
  let was := cancel (cl s) in
  let s := set_cl s (set_cancel (cl s) false) in
  match a with
  | Panic => (Panic, s)
  | Err _ => if was then (Err cancelled, s)
             else (Err (mkFailed BadRequest [Lit "not a request of tachyon.xml, or out of the shared memory"]), s)
  | Ok a => if was then (Err cancelled, s) else run opts id a s
  end.
Definition answer (opts : Options) (s : Serving) : outcome unit Serving :=
  let '(id, a) := Serve.read (request_area (cl s)) in
  match respond opts id a s with
  | (Panic, _) => Panic
  | (r, s) =>
      let msg := match r with Ok msg => msg | Err f => error_message id f | Panic => [] end in
      Ok (set_cl s (snd (send (cl s) msg)))
  end.

(** [drain]: the queued requests, in order; then whether one was a Shutdown.
    [ans] answers one of them. *)
Fixpoint drain_with (ans : Serving -> outcome unit Serving) (queue : list nat) (e : Engine) (clients : list (option Client))
  (stop_ : bool) : outcome unit (Engine * list (option Client) * bool) :=
  match queue with
  | [] => Ok (e, clients, stop_)
  | i :: queue =>
      slot ← or_panic (clients !! i);
      match slot with
      | Some c =>
          if queued c then
            s ← ans (mkServing e (set_queued c false) stop_);
            drain_with ans queue (eng s) (<[i := Some (cl s)]> clients) (stop s)
          else drain_with ans queue e clients stop_
      | None => drain_with ans queue e clients stop_
      end
  end.
Definition drain (opts : Options) := drain_with (answer opts).

(** One round of [serve]'s loop: who arrived, and the clients whose sockets
    have something to say. *)
Record Daemon := mkDaemon { engine : Engine; clients : list (option Client) }.
Fixpoint ring_all (polled : list nat) (clients : list (option Client)) (queue : list nat)
  : outcome unit (list (option Client) * list nat) :=
  match polled with
  | [] => Ok (clients, queue)
  | i :: polled =>
      slot ← or_panic (clients !! i);
      let '(slot, queue) := ring slot i queue in
      ring_all polled (<[i := slot]> clients) queue
  end.
(** What a round leaves: the daemon goes on, shuts down, or ends with the
    engine's error. *)
Inductive next_round := GoesOn (d : Daemon) | ShutDown (d : Daemon) | Ends (e : error) (d : Daemon).
Definition round (opts : Options) (a : option arrival) (polled : list nat) (d : Daemon) : outcome unit next_round :=
  let cs := match a with Some a => accept a opts (clients d) | None => clients d end in
  '(cs, queue) ← ring_all polled cs [];
  '(e, cs, stop_) ← drain opts queue (engine d) cs false;
  if (stop_ : bool) then Ok (ShutDown (mkDaemon e cs))
  else match expire e with
       | (Ok _, e) => Ok (GoesOn (mkDaemon e cs))
       | (Err x, e) => Ok (Ends x (mkDaemon e cs))
       | (Panic, _) => Panic
       end.
End Daemon.
