(* ===== verification/Answers.v ===== *)
(** * The daemon answers ([serve/mod.rs])

    Every request ends: whatever it asks and whatever the client does
    meanwhile, [answer] does not panic, keeps the engine's invariant and
    appends Texts and then one closing message. *)
From S2P Require Import Prelude Bytes Utf8 Shm Sbe Engine Memory Calls Serve Daemon.

Section Answers.
Context `{Y : Says} `{W : World} `{S : System} {D : Type} `{!Detok D}.

(** ** Answering ends

    [remaining]: the texts a stream may still give. *)
Definition remaining (s : TokenStream D) : nat :=
  if left s =? 0 then (if bool_decide (snd (finish (detok s)) = []) then 0 else 1)%nat
  else Datatypes.S (Z.to_nat (left s)).

Lemma next_loop_left fuel (s : TokenStream D) txt e t s' e' :
  next_loop fuel s txt e = (Ok t, s', e') -> 0 <= left s ->
  0 <= left s' <= left s /\ (txt = [] -> 0 < left s -> left s' < left s).
Proof.
  revert s txt e. induction fuel as [|fuel IH]; intros s txt e; cbn [next_loop];
    destruct (bool_decide (txt = []) && (0 <? left s)) eqn:Hc.
  - done.
  - intros [= _ <- _] Hl. split; [lia|]. intros -> Hpos. apply Z.ltb_lt in Hpos. by rewrite Hpos in Hc.
  - apply andb_true_iff in Hc as [_ Hc%Z.ltb_lt]. destruct (token_and_model s e) as [[[x m]|x|] e1]; [|done|done].
    destruct (bool_decide (x ∈ ends m)); [intros [= _ <- _]; cbn; lia|].
    destruct (push (m_dir m) _ x) as [d o]. intros H Hl. apply IH in H as [H _]; cbn in *; lia.
  - intros [= _ <- _] Hl. split; [lia|]. intros -> Hpos. apply Z.ltb_lt in Hpos. by rewrite Hpos in Hc.
Qed.

Lemma next_text_remaining (s : TokenStream D) e t s' e' :
  next_text s e = (Ok (Some t), s', e') -> 0 <= left s -> (remaining s' < remaining s)%nat.
Proof.
  unfold next_text. intros H Hl. destruct (next_loop (Z.to_nat (left s)) s [] e) as [[[x|x|] s1] e1] eqn:Hn; [|done|done].
  pose proof (next_loop_left _ _ _ _ _ _ _ Hn Hl) as [Hle Hlt]. unfold remaining.
  destruct (Z.eqb_spec (left s1) 0) as [H1|H1].
  - pose proof (finish_finish (detok s1)) as Hff. destruct (finish (detok s1)) as [d o] eqn:Hd. cbn in Hff.
    destruct (bool_decide_reflect (x ++ o = [])) as [|Hne]; [done|]. injection H as _ <- _. cbn [left detok].
    rewrite H1. cbn [Z.eqb]. rewrite bool_decide_true by done. destruct (Z.eqb_spec (left s) 0) as [H0|]; [|lia].
    rewrite H0 in Hn. change (Z.to_nat 0) with 0%nat in Hn. cbn [next_loop] in Hn. rewrite H0 in Hn.
    rewrite andb_false_r in Hn. injection Hn as <- <- <-. rewrite Hd.
    rewrite bool_decide_false by done. lia.
  - destruct (bool_decide (x = [])); [done|]. injection H as _ <- _. destruct (Z.eqb_spec (left s1) 0); [done|].
    specialize (Hlt eq_refl). destruct (Z.eqb_spec (left s) 0); lia.
Qed.

Lemma remaining_texts (s : TokenStream D) : (remaining s <= texts_of s)%nat.
Proof. unfold remaining, texts_of. destruct (left s =? 0); [|done]. case_bool_decide; lia. Qed.

(** ** What answering leaves of a client

    [grows id c c']: the messages appended are Texts numbered [id]; a client
    that stays goes on staying; nothing else the daemon keeps of it changes. *)
Definition staying (c : Client) : Prop := Forall (eq true) (stays c).
(** Its memory holds bytes. *)
Definition holds (c : Client) : Prop := forall i, u8 (mem (shm c) i).
Lemma blit_holds m a b : (forall i, u8 (m i)) -> bytes_ok b -> forall i, u8 (blit m a b i).
Proof.
  intros Hm Hb i. unfold blit. destruct (_ && _); [|done]. destruct (zget b (i - a)) as [x|] eqn:Hx; [by eapply zget_ok|by split].
Qed.
Lemma peek_ok m a n : (forall i, u8 (m i)) -> bytes_ok (peek m a n).
Proof. intros Hm. unfold peek. apply Forall_map, Forall_forall. intros k _. apply Hm. Qed.
Record grows (id : Z) (c c' : Client) : Prop := {
  grows_out : exists ts, out c' = out c ++ map (text_message id) ts;
  grows_queued : queued c' = queued c;
  grows_cancel : cancel c' = cancel c;
  grows_welcome : welcome c' = welcome c;
  grows_stays : staying c -> staying c';
  grows_mem : holds c -> holds c';
}.
#[local] Instance grows_refl id : Reflexive (grows id).
Proof. intros c. split; try done. exists []. by rewrite app_nil_r. Qed.
#[local] Instance grows_trans id : Transitive (grows id).
Proof.
  intros c1 c2 c3 [(ts&H1) ? ? ? ? ?] [(us&H2) ? ? ? ? ?]. split; [|congruence|congruence|congruence|auto|auto].
  exists (ts ++ us). by rewrite H2, H1, map_app, app_assoc.
Qed.

(** [serves id m Q]: from a sane engine and a client that did not cancel, [m]
    never panics, leaves a sane engine and the same [STOP], and what it gives
    satisfies [Q]. *)
Definition serves {A} (id : Z) (m : DM A) (Q : A -> Prop) : Prop := forall st,
  sane None (eng st) -> cancel (cl st) = false ->
  sane None (eng (snd (m st))) /\ grows id (cl st) (cl (snd (m st))) /\ stop (snd (m st)) = stop st
  /\ match fst (m st) with Ok a => Q a | Err _ => True | Panic => False end.

Lemma dm_bind {A B} (m : DM A) (k : A -> DM B) st :
  (m ≫= k) st = match m st with (Ok a, st) => k a st | (Err x, st) => (Err x, st) | (Panic, st) => (Panic, st) end.
Proof. done. Qed.

Lemma serves_bind {A B} id (m : DM A) (k : A -> DM B) (P : A -> Prop) (Q : B -> Prop) :
  serves id m P -> (forall a, P a -> serves id (k a) Q) -> serves id (m ≫= k) Q.
Proof.
  intros Hm Hk st He Hc. rewrite dm_bind. specialize (Hm st He Hc).
  destruct (m st) as [[a|x|] st1]; cbn in Hm; destruct Hm as (He1&Hg1&Hs1&Ha); [|done..].
  pose proof (grows_cancel _ _ _ Hg1) as Hc1. rewrite Hc in Hc1.
  destruct (Hk a Ha st1 He1 Hc1) as (?&?&Hs&?). split_and!; [done|by etrans|congruence|done].
Qed.
Lemma serves_ret {A} id (a : A) (Q : A -> Prop) : Q a -> serves id (mret a) Q.
Proof. intros Ha st He _. split_and!; done. Qed.
Lemma serves_pure {A} id (o : outcome Failed A) (Q : A -> Prop) :
  no_panic o -> (forall a, o = Ok a -> Q a) -> serves id (fun st => (o, st)) Q.
Proof. intros Hp Ho st He _. split_and!; [done..|]. destruct o; cbn; auto. Qed.
Lemma serves_view {A B} id (f : Serving -> A) (m : A -> DM B) Q :
  (forall a, serves id (m a) Q) -> serves id (fun st => m (f st) st) Q.
Proof. intros Hm st. apply Hm. Qed.

Lemma serves_engine {A} id (m : EM A) why : safe m -> serves id (ask_engine m why) (fun _ => True).
Proof.
  intros Hm st He _. unfold ask_engine. destruct (Hm _ He) as [Hs Hp].
  destruct (m (eng st)) as [r e]. split_and!; [done..|]. by destruct r.
Qed.
Lemma safe_get : safe get.
Proof. by intros e He. Qed.
Lemma safe_now : safe now.
Proof. apply keeps_safe, keeps_now. Qed.

(** ** Messages *)
(** A message that ends an answer to request [id]: Done, Error, Embedded,
    Decided or Models, with its number. *)
Definition closes (id : Z) (msg : list Z) : Prop :=
  exists t b r, open msg = Ok (t, b, r) /\ 102 <= t <= 106 /\ b_u64 b 0 = Ok id.
Lemma closes_new id t b l :
  fits 64 id -> 102 <= t <= 106 -> zlen b < 2 ^ 10 -> closes id (w_new t (le_bytes 8 id ++ b) ++ l).
Proof.
  intros Hid Ht Hb. destruct (open_new t (le_bytes 8 id ++ b) l) as [r Hr]; [split; lia| |].
  { rewrite zlen_app. change (zlen (le_bytes 8 id)) with 8. lia. }
  exists t, (le_bytes 8 id ++ b), r. split; [done|]. split; [done|]. by apply id_back.
Qed.
Lemma closes_done id t b : fits 64 id -> 102 <= t <= 106 -> zlen b < 2 ^ 10 -> closes id (w_new t (le_bytes 8 id ++ b)).
Proof. intros. rewrite <- (app_nil_r (w_new _ _)). by apply closes_new. Qed.
Lemma closes_error id f : fits 64 id -> closes id (error_message id f).
Proof.
  intros Hid. destruct f as [c why]. unfold error_message, w_text, f_u16, f_u64. cbn [app]. apply closes_new; [done|lia|].
  by destruct c.
Qed.

(** The request area is not the daemon's to change. *)
Lemma request_area_shm c c' : shm c' = shm c -> request_area c' = request_area c.
Proof. unfold request_area. by intros ->. Qed.
Lemma request_area_queued c b : request_area (set_queued c b) = request_area c.
Proof. by apply request_area_shm. Qed.
Lemma request_area_bells c r c1 : bells c = (r, c1) -> request_area c1 = request_area c.
Proof. intros H. apply request_area_shm. unfold bells in H. destruct (bells_from _ _ _) as [[x y] l]. by injection H as _ <-. Qed.

(** ** Each request is served *)
#[local] Opaque request_area.
Context (Hfiles : forall d, files_ok (disk d)) (Hmedia : media_ok).

Lemma dir_no_panic name : no_panic (dir name).
Proof. unfold dir. by destruct (has_weights (pulled name)), (has_weights name). Qed.
Lemma serves_dir id name : serves id (of_dir name) (fun _ => True).
Proof. by apply serves_pure; [apply dir_no_panic|]. Qed.
Lemma serves_ready id opts name k : serves id (ready opts name k) (fun _ => True).
Proof.
  intros st He Hc. unfold ready. destruct (tier (eng st) name); [by apply (serves_ret id tt)|]. revert st He Hc.
  eapply serves_bind; [apply serves_dir|]. intros d _. apply serves_engine. by apply safe_load.
Qed.

Lemma serves_write id o b what : bytes_ok b -> serves id (write_out o b what) (fun _ => True).
Proof.
  intros Hb st He Hc. unfold write_out. destruct (Shm.write _ _ _ b) as [[] sh] eqn:Hw; [|done].
  split_and!; try done. split; try done; [exists []; by rewrite app_nil_r|]. intros Hm.
  unfold Shm.write in Hw. destruct (Shm.data _ _ _) as [a|]; [|done]. destruct (zlen b <=? _); [|done]. injection Hw as <-.
  intros i. by apply blit_holds.
Qed.
Lemma floats_ok rows : bytes_ok (floats rows).
Proof.
  unfold floats. induction (concat rows) as [|x l IH]; cbn [map concat]; [constructor|]. apply Forall_app. split; [apply le_bytes_ok|done].
Qed.
Lemma serves_encoded id name : serves id (encoded name) (fun _ => True).
Proof.
  eapply serves_bind; [apply serves_engine, keeps_safe, keeps_ask_encoder|]. intros _ _.
  eapply serves_bind; [apply serves_engine, safe_get|]. intros e _. by apply serves_ret.
Qed.
Lemma serves_embed id opts a : fits 64 id -> serves id (embed opts id a) (closes id).
Proof.
  intros Hid. eapply serves_bind; [apply serves_ready|]. intros _ _.
  eapply serves_bind; [apply serves_encoded|]. intros rows _. eapply serves_bind; [apply serves_write, floats_ok|]. intros _ _.
  apply serves_ret. unfold f_u32, f_u64. cbn [app]. rewrite <- app_assoc. by apply closes_done.
Qed.
Lemma serves_decide id opts a : fits 64 id -> serves id (decide opts id a) (closes id).
Proof.
  intros Hid. eapply serves_bind; [apply serves_ready|]. intros _ _.
  eapply serves_bind; [apply serves_encoded|]. intros probs _. eapply serves_bind; [apply serves_write, floats_ok|]. intros _ _.
  apply serves_ret. rewrite (fold_writes _ (fun p => le_bytes 4 (wrap 32 (zlen p)))) by done. unfold w_group, f_u64. cbn [app].
  rewrite <- app_assoc. rewrite <- (app_nil_r (le_bytes 8 id)). by apply closes_new.
Qed.
Lemma serves_list id : fits 64 id -> serves id (list_ id) (closes id).
Proof.
  intros Hid. eapply serves_bind; [apply serves_engine|].
  { intros e He. split; [by apply sane_tick|done]. }
  intros ms _. apply serves_ret.
  rewrite (fold_writes _ (fun m => listed m [])) by (intros w m; unfold listed, w_text, w_bytes; cbn [app]; by rewrite <- !app_assoc).
  unfold w_group, f_u64. cbn [app]. rewrite <- app_assoc. rewrite <- (app_nil_r (le_bytes 8 id)). by apply closes_new.
Qed.

Lemma decoded_no_panic dec what sh b : (forall x, no_panic (dec x)) -> no_panic (decoded dec what sh b).
Proof. intros Hdec. apply no_panic_bind; [apply no_panic_ok_or|]. intros x _. specialize (Hdec x). by destruct (dec x). Qed.
Lemma attachments_no_panic sh ms : no_panic (attachments sh ms).
Proof.
  assert (forall dec what l, (forall x, no_panic (dec x)) -> no_panic (all_decoded dec what sh l)) as Hall.
  { intros dec what l Hdec. induction l as [|b l IH]; [done|]. apply no_panic_bind; [by apply decoded_no_panic|]. intros x _.
    by apply no_panic_bind. }
  induction ms as [|m ms IH]; [done|]. destruct Hmedia as [Himage Hwav]. apply no_panic_bind; [by apply Hall|]. intros images _.
  apply no_panic_bind; [by apply Hall|]. intros audio _. by apply no_panic_bind.
Qed.

(** ** Chat *)
Lemma bells_same c r c' : bells c = (r, c') ->
  out c' = out c /\ queued c' = queued c /\ welcome c' = welcome c /\ stays c' = stays c /\ shm c' = shm c.
Proof. unfold bells. destruct (bells_from _ _ _) as [[x y] l]. by intros [= _ <-]. Qed.

Lemma send_same c msg b c' : send c msg = (b, c') ->
  out c' = (if b then out c ++ [msg] else out c) /\ queued c' = queued c /\ welcome c' = welcome c
  /\ cancel c' = cancel c /\ (staying c -> b = true /\ staying c') /\ shm c' = shm c.
Proof.
  unfold send. intros [= <- <-]. do 4 (split; [done|]). split; [|done]. unfold staying. cbn. destruct (stays c) as [|x l]; [done|].
  intros [<- ?]%Forall_cons. done.
Qed.

Lemma deliver_grows id t c b c' : cancel c = false -> deliver (text_message id t) c = (b, c') ->
  grows id c (if b then c' else set_cancel c' false).
Proof.
  intros Hc. unfold deliver. destruct (send c _) as [[] c1] eqn:Hs; apply send_same in Hs as (Ho&Hq&Hw&Hcc&Hst&Hm).
  - destruct (bells c1) as [[r|] c2] eqn:Hb; apply bells_same in Hb as (Ho2&Hq2&Hw2&Hs2&Hm2);
      assert (exists ts, out c2 = out c ++ map (text_message id) ts) as Hout by (exists [t]; by rewrite Ho2, Ho);
      assert (holds c -> holds c2) as Hmem by (unfold holds; by rewrite Hm2, Hm);
      assert (staying c -> staying c2) as Hstay by (intros H; unfold staying; rewrite Hs2; apply Hst, H).
    + destruct (cancel c2) eqn:Hc2; intros [= <- <-]; split; cbn; try done; congruence.
    + intros [= <- <-]. split; cbn; try done; congruence.
  - intros [= <- <-]. split; cbn; [exists []; by rewrite Ho, app_nil_r|done|congruence|done|intros H; by apply Hst|].
    unfold holds. cbn. by rewrite Hm.
Qed.

Lemma stream_text_serves id i k fuel (s : TokenStream D) st :
  Memory.ready i (eng st) -> stream_ok i k s -> cancel (cl st) = false -> (remaining s <= fuel)%nat ->
  let '(r, s', st') := stream_text fuel id s st in
  Memory.ready i (eng st') /\ stream_ok i k s' /\ grows id (cl st) (cl st') /\ stop st' = stop st /\ no_panic r.
Proof.
  revert s st. induction fuel as [|fuel IH]; intros s st He Hs Hc Hf; cbn [stream_text];
    pose proof (next_text_ready i k s (eng st) He Hs) as Hn;
    destruct (next_text s (eng st)) as [[[[t|]|x|] s1] e1] eqn:Ht; destruct Hn as (He1&Hs1&Hp); try done;
    apply next_text_remaining in Ht; try apply Hs; [lia|].
  destruct (deliver (text_message id t) (cl st)) as [b c] eqn:Hd. pose proof (deliver_grows _ _ _ _ _ Hc Hd) as Hg.
  destruct b; [|done]. pose proof (grows_cancel _ _ _ Hg) as Hcc. rewrite Hc in Hcc.
  specialize (IH s1 (mkServing e1 c (stop st)) He1 Hs1 Hcc ltac:(lia)).
  destruct (stream_text fuel id s1 _) as [[r s2] st2]. destruct IH as (?&?&?&?&?). split_and!; try done. by etrans.
Qed.

Lemma drop_after_serves {A} i k (s : TokenStream D) (r : outcome Failed A) st :
  Memory.ready i (eng st) -> stream_ok i k s -> no_panic r ->
  sane None (eng (snd (drop_after s r st))) /\ cl (snd (drop_after s r st)) = cl st
  /\ stop (snd (drop_after s r st)) = stop st /\ fst (drop_after s r st) = r.
Proof.
  intros He (Hm&_) Hr. unfold drop_after. rewrite <- Hm in He. destruct (drop_stream_safe s (eng st) He) as [Hs Hp].
  destruct (drop_stream s (eng st)) as [[d|x|] e]; done.
Qed.

Lemma chat_stream_serves id i k prefill mid (s : TokenStream D) st :
  fits 64 id -> Memory.ready i (eng st) -> stream_ok i k s -> cancel (cl st) = false ->
  sane None (eng (snd (chat_stream id prefill mid s st))) /\ grows id (cl st) (cl (snd (chat_stream id prefill mid s st)))
  /\ stop (snd (chat_stream id prefill mid s st)) = stop st
  /\ match fst (chat_stream id prefill mid s st) with Ok m => closes id m | Err _ => True | Panic => False end.
Proof.
  intros Hid He Hs Hc. unfold chat_stream.
  pose proof (stream_text_serves id i k (texts_of s) s st He Hs Hc (remaining_texts s)) as H.
  destruct (stream_text (texts_of s) id s st) as [[[[]|x|] s1] st1]; destruct H as (He1&Hs1&Hg&Hst&Hp); [| |done].
  - unfold chat_done, ask_engine, now, get. rewrite !dm_bind. cbn -[drop_after w_new le_bytes wrap].
    set (msg := w_new 102 _). set (st2 := set_eng (set_eng st1 _) _).
    assert (Memory.ready i (eng st2)) as He2 by (by apply (answers_now i (eng st1))).
    assert (closes id msg) as Hmsg.
    { unfold msg, f_u32, f_u64. cbn [app]. rewrite <- !app_assoc. by apply closes_done. }
    clearbody msg. destruct (drop_after_serves i k s1 (Ok msg) st2 He2 Hs1 ltac:(done)) as (?&Hcl&Hso&Hr).
    rewrite Hr, Hcl, Hso. split_and!; done.
  - destruct (drop_after_serves (A := list Z) i k s1 (Err x) st1 He1 Hs1 ltac:(done)) as (?&Hcl&Hso&Hr).
    rewrite Hr, Hcl, Hso. split_and!; done.
Qed.

Lemma ask_now why st : ask_engine now why st = (Ok (clock (ticks (eng st))), set_eng st (tick (eng st))).
Proof. done. Qed.
Lemma serves_chat id opts c : fits 64 id -> 0 < c_max c -> serves id (chat_answer opts id c) (closes id).
Proof.
  intros Hid Hmax. unfold chat_answer. eapply serves_bind; [apply serves_ready|]. intros _ _.
  eapply serves_bind with (P := fun _ => True).
  { intros st He Hc. cbn. pose proof (attachments_no_panic (shm (cl st)) (c_messages c)).
    by destruct (attachments (shm (cl st)) (c_messages c)). }
  intros media_ _. cbv zeta. eapply serves_bind; [apply serves_engine, safe_now|]. intros start _.
  set (req := mkRequest _ _ _ _). intros st He Hc. rewrite dm_bind.
  pose proof (eq_refl : ask_engine (chat (c_model c) req) failed_engine st = let '(r, e) := chat (c_model c) req (eng st) in _) as Hask.
  pose proof (chat_spec Hfiles (c_model c) req (eng st) He) as Hch.
  destruct (chat (c_model c) req (eng st)) as [[s|x|] e1] eqn:Heq; rewrite Hask; [|done|done]. destruct Hch as [Hr _].
  apply chat_left in Heq as (m&_&Hl&Hp&_). rewrite dm_bind, ask_now, dm_bind, ask_now.
  set (st2 := set_eng (set_eng (set_eng st e1) _) _).
  assert (Memory.ready (s_model s) (eng st2)) as He2.
  { by apply (answers_now (s_model s) (tick e1)), (answers_now (s_model s) e1). }
  apply (chat_stream_serves id (s_model s) (s_keep s) _ _ s st2); [done|done| |done].
  split_and!; [done|done|]. change (max_tokens req) with (c_max c) in Hl. lia.
Qed.

Definition shuts (a : Ask) : bool := match a with AskShutdown => true | _ => false end.
Lemma serves_run id opts a : fits 64 id -> ask_text a -> shuts a = false -> serves id (run opts id a) (closes id).
Proof.
  intros Hid Ha Hs. assert (closes id (done_ id no_numbers)) as Hd by (by apply (closes_done id 102)).
  destruct a as [c|a|a|m k c p|m| |]; cbn [run].
  - apply serves_chat; [done|apply Ha].
  - by apply serves_embed.
  - by apply serves_decide.
  - eapply serves_bind; [apply serves_dir|]. intros d _. eapply serves_bind; [by apply serves_engine, safe_load|]. intros _ _.
    by apply serves_ret.
  - eapply serves_bind; [apply serves_engine|intros _ _; by apply serves_ret].
    intros e He. by destruct (unload_spec m e He) as (?&_&_&?).
  - by apply serves_list.
  - done.
Qed.

(** What a request does to the daemon's [STOP]: a Shutdown that was not
    cancelled sets it. *)
Definition wants_stop (c : Client) : bool :=
  match snd (Serve.read (request_area c)) with Ok a => shuts a && negb (cancel c) | _ => false end.
Definition id_of (c : Client) : Z := fst (Serve.read (request_area c)).

(** [answered c c']: Texts, then one closing message, unless the client left. *)
Record answered (c c' : Client) : Prop := {
  answered_out : exists ts last, out c' = out c ++ map (text_message (id_of c)) ts ++ last
    /\ (last = [] \/ exists m, last = [m] /\ closes (id_of c) m) /\ (staying c -> last <> []);
  answered_queued : queued c' = queued c;
  answered_cancel : cancel c' = false;
  answered_stays : staying c -> staying c';
  answered_mem : holds c -> holds c';
}.

Lemma respond_spec opts st : sane None (eng st) -> bytes_ok (request_area (cl st)) ->
  let id := id_of (cl st) in
  let '(r, st') := respond opts id (snd (Serve.read (request_area (cl st)))) st in
  sane None (eng st') /\ grows id (set_cancel (cl st) false) (cl st') /\ stop st' = stop st || wants_stop (cl st)
  /\ match r with Ok m => closes id m | Err _ => True | Panic => False end.
Proof.
  intros He Hb. destruct (Serve.read_sound _ Hb) as (Hid&Hp&Ha). unfold respond, wants_stop, id_of.
  destruct (snd (Serve.read (request_area (cl st)))) as [a|x|]; [|by destruct (cancel (cl st)); rewrite orb_false_r|done].
  destruct (cancel (cl st)); [by rewrite andb_false_r, orb_false_r|]. rewrite andb_true_r.
  destruct (shuts a) eqn:Hsh; [destruct a; try done|].
  - cbn -[done_]. rewrite orb_true_r. split_and!; [done|done|done|]. by apply (closes_done _ 102).
  - rewrite orb_false_r. pose proof (serves_run _ opts a Hid (Ha a eq_refl) Hsh (set_cl st (set_cancel (cl st) false)) He eq_refl) as H.
    by destruct (run opts _ a _) as [[m|y|] st'].
Qed.

Lemma answer_spec opts st : sane None (eng st) -> bytes_ok (request_area (cl st)) ->
  exists st', answer opts st = Ok st' /\ sane None (eng st') /\ answered (cl st) (cl st')
    /\ stop st' = stop st || wants_stop (cl st).
Proof.
  intros He Hb. destruct (Serve.read_sound _ Hb) as (Hid&_). pose proof (respond_spec opts st He Hb) as H. unfold answer.
  cbv zeta in H. assert (fits 64 (id_of (cl st))) as Hid' by exact Hid. clear Hid. rename Hid' into Hid.
  assert (id_of (cl st) = fst (Serve.read (request_area (cl st)))) as Hi by done.
  destruct (Serve.read (request_area (cl st))) as [id a]. cbn [fst snd] in *. rewrite <- Hi. clear Hi id.
  destruct (respond opts _ _ st) as [r st1] eqn:Hr. destruct H as (He1&Hg&Hst&Hq).
  set (id := id_of (cl st)) in *.
  assert (exists m, closes id m /\ (match r with Panic => Panic | _ => Ok (set_cl st1 (snd (send (cl st1)
     (match r with Ok msg => msg | Err f => error_message id f | Panic => [] end)))) end
     : outcome unit Serving) = Ok (set_cl st1 (snd (send (cl st1) m)))) as (m&Hm&Heq).
  { destruct r as [m|f|]; [by exists m|exists (error_message id f); split; [by apply closes_error|done]|done]. }
  exists (set_cl st1 (snd (send (cl st1) m))). split; [rewrite <- Heq; by destruct r|]. split; [done|]. split; [|done].
  destruct Hg as [(ts&Ho) Hq1 Hc1 _ Hs1 Hm1]. destruct (send (cl st1) m) as [b c2] eqn:Hsend.
  apply send_same in Hsend as (Ho2&Hq2&_&Hc2&Hs2&Hm2). cbn in *.
  split; cbn; [|congruence|congruence|intros H; by apply Hs2, Hs1|unfold holds in *; by rewrite Hm2].
  exists ts, (if b then [m] else []). split; [rewrite Ho2, Ho; destruct b; by rewrite <- ?app_assoc, ?app_nil_r|]. split.
  - destruct b; [right; eauto|by left].
  - intros Hst'%Hs1. by destruct (Hs2 Hst') as [-> _].
Qed.

Lemma wants_stop_queued c b : wants_stop (set_queued c b) = wants_stop c.
Proof. unfold wants_stop. by rewrite request_area_queued. Qed.
#[local] Opaque wants_stop id_of.

(** ** The limits stay *)
Definition steady {A} (m : DM A) : Prop := forall st, limits (eng (snd (m st))) = limits (eng st).
Lemma steady_bind {A B} (m : DM A) (k : A -> DM B) : steady m -> (forall a, steady (k a)) -> steady (m ≫= k).
Proof. intros Hm Hk st. rewrite dm_bind. specialize (Hm st). destruct (m st) as [[a|x|] st1]; [by rewrite Hk|done|done]. Qed.
Lemma steady_engine {A} (m : EM A) why : (forall e, limits (snd (m e)) = limits e) -> steady (ask_engine m why).
Proof. intros Hm st. unfold ask_engine. specialize (Hm (eng st)). by destruct (m (eng st)). Qed.
Lemma steady_pure {A} (f : Serving -> outcome Failed A) : steady (fun st => (f st, st)).
Proof. done. Qed.
Lemma steady_load opts name d k p c why : steady (ask_engine (load name d (load_with (default (keep_alive opts) k) p c)) why).
Proof. apply steady_engine. intros e. apply (limits_call (D := D) (CLoad name d _)). Qed.
Lemma steady_ready opts name k : steady (ready opts name k).
Proof.
  intros st. unfold ready. destruct (tier (eng st) name); [done|]. revert st.
  apply steady_bind; [apply steady_pure|]. intros d. apply steady_load.
Qed.
Lemma steady_encoded name : steady (encoded name).
Proof.
  apply steady_bind; [apply steady_engine; intros e; apply (limits_call (D := D) (CAsk name))|]. intros _.
  by apply steady_bind; [apply steady_engine|].
Qed.
Lemma steady_write o b what : steady (write_out o b what).
Proof. intros st. unfold write_out. by destruct (Shm.write _ _ _ b) as [[] sh]. Qed.

Lemma steady_stream_text fuel id (s : TokenStream D) st :
  let '(_, _, st') := stream_text fuel id s st in limits (eng st') = limits (eng st).
Proof.
  revert s st. induction fuel as [|fuel IH]; intros s st; cbn [stream_text]; pose proof (limits_next_text s (eng st)) as Hn;
    destruct (next_text s (eng st)) as [[[[t|]|x|] s1] e1]; try done.
  destruct (deliver _ _) as [[] c]; [|done]. specialize (IH s1 (mkServing e1 c (stop st))).
  destruct (stream_text fuel id s1 _) as [[r s2] st2]. cbn in IH. congruence.
Qed.
Lemma steady_drop {A} (s : TokenStream D) (r : outcome Failed A) : steady (drop_after s r).
Proof. intros st. unfold drop_after. pose proof (limits_drop_stream s (eng st)). by destruct (drop_stream s (eng st)). Qed.
Lemma steady_chat_stream id prefill mid (s : TokenStream D) : steady (chat_stream id prefill mid s).
Proof.
  intros st. unfold chat_stream. pose proof (steady_stream_text (texts_of s) id s st) as H.
  destruct (stream_text _ id s st) as [[[[]|x|] s1] st1]; [|by rewrite steady_drop|done].
  assert (steady (chat_done id prefill mid s1)) as Hd.
  { do 2 (apply steady_bind; [by apply steady_engine|]; intros ?). done. }
  specialize (Hd st1). destruct (chat_done _ _ _ _ st1) as [r st2]. cbn in Hd. by rewrite steady_drop, Hd.
Qed.
Lemma steady_run opts id a : steady (run opts id a).
Proof.
  destruct a as [c|a|a|m k c p|m| |]; cbn [run]; [| | | | | |done].
  - apply steady_bind; [apply steady_ready|]. intros _. apply steady_bind; [apply steady_pure|]. intros media_. cbv zeta.
    apply steady_bind; [by apply steady_engine|]. intros start.
    apply steady_bind; [apply steady_engine; intros e; apply limits_chat|]. intros s.
    do 2 (apply steady_bind; [by apply steady_engine|]; intros ?). apply steady_chat_stream.
  - apply steady_bind; [apply steady_ready|]. intros _. apply steady_bind; [apply steady_encoded|]. intros rows.
    by apply steady_bind; [apply steady_write|].
  - apply steady_bind; [apply steady_ready|]. intros _. apply steady_bind; [apply steady_encoded|]. intros rows.
    by apply steady_bind; [apply steady_write|].
  - apply steady_bind; [apply steady_pure|]. intros d. by apply steady_bind; [apply steady_load|].
  - by apply steady_bind; [apply steady_engine|].
  - by apply steady_bind; [apply steady_engine|].
Qed.
Lemma steady_answer opts st st' : answer opts st = Ok st' -> limits (eng st') = limits (eng st).
Proof.
  unfold answer. destruct (Serve.read _) as [id a].
  assert (steady (respond opts id a)) as Hr.
  { intros s. unfold respond. destruct a as [a|x|]; [|by destruct (cancel (cl s))|done].
    destruct (cancel (cl s)); [done|]. by rewrite steady_run. }
  specialize (Hr st). destruct (respond opts id a st) as [[m|f|] st1]; intros [= <-]; exact Hr.
Qed.
End Answers.
