(* ===== verification/Rounds.v ===== *)
(** * The daemon's rounds ([serve/mod.rs])

    A round of [serve]'s loop lets a client in, reads the doorbells of the
    polled ones and empties the queue: each client that rang is answered, in
    the order it rang, once; over any number of rounds the daemon does not
    panic and the engine stays within its limits. *)
From S2P Require Import Prelude Bytes Utf8 Shm Sbe Engine Memory Calls Serve Daemon Answers.

(** ** Doorbells *)
Definition idle (cs : list (option Client)) : Prop :=
  forall i c, cs !! i = Some (Some c) -> queued c = false.
Definition range (cs : list (option Client)) (l : list nat) : Prop := Forall (fun i => (i < length cs)%nat) l.

(** A slot after [ring], and whether it joined the queue. *)
Definition rung (slot : option Client) : option Client * bool :=
  match slot with
  | None => (None, false)
  | Some c => match bells c with (None, _) => (None, false) | (Some b, c) => (Some (set_queued c b), b) end
  end.
Lemma ring_rung slot i queue : (forall c, slot = Some c -> queued c = false) ->
  ring slot i queue = (fst (rung slot), if snd (rung slot) then queue ++ [i] else queue).
Proof.
  intros Hq. destruct slot as [c|]; [|done]. specialize (Hq c eq_refl). unfold ring, rung.
  destruct (bells c) as [[[]|] c1] eqn:Hb; [| |done]; apply bells_same in Hb as (_&Hq1&_&_&_); rewrite Hq in Hq1; rewrite ?Hq1; [done|].
  destruct c1; cbn in *. by subst.
Qed.

(** The slots that join the queue. *)
Definition rings (cs : list (option Client)) (i : nat) : bool :=
  match cs !! i with Some slot => snd (rung slot) | None => false end.
Lemma rings_insert cs i x j : i <> j -> rings (<[i := x]> cs) j = rings cs j.
Proof. intros Hij. unfold rings. by rewrite list_lookup_insert_ne. Qed.

Lemma ring_all_spec polled : forall cs queue,
  NoDup polled -> range cs polled -> (forall i c, i ∈ polled -> cs !! i = Some (Some c) -> queued c = false) ->
  exists cs', ring_all polled cs queue = Ok (cs', queue ++ filter (fun i => rings cs i = true) polled)
    /\ length cs' = length cs
    /\ forall i slot, cs !! i = Some slot -> cs' !! i = Some (if bool_decide (i ∈ polled) then fst (rung slot) else slot).
Proof.
  induction polled as [|i polled IH]; intros cs queue Hnd Hr Hi; cbn [ring_all].
  { exists cs. rewrite app_nil_r. done. }
  apply NoDup_cons in Hnd as [Hni Hnd]. apply Forall_cons in Hr as [Hlt Hr].
  destruct (lookup_lt_is_Some_2 cs i Hlt) as [slot Hslot]. rewrite Hslot. cbn [or_panic mbind outcome_bind].
  rewrite ring_rung by (intros c ->; eapply Hi; [|done]; set_solver). set (cs1 := <[i := fst (rung slot)]> cs).
  assert (forall j, j ∈ polled -> i <> j) as Hne by (intros j Hj ->; done).
  destruct (IH cs1 (if snd (rung slot) then queue ++ [i] else queue)) as (cs'&Hrun&Hlen&Hat); [done| | |].
  { unfold range, cs1. by rewrite length_insert. }
  { intros j c Hj. unfold cs1. rewrite list_lookup_insert_ne by (by apply Hne). apply Hi. set_solver. }
  exists cs'. rewrite Hrun. split; [|split; [rewrite Hlen; apply length_insert|]].
  - assert (filter (fun j => rings cs1 j = true) polled = filter (fun j => rings cs j = true) polled) as ->.
    { clear -Hne. induction polled as [|j l IH]; [done|]. unfold cs1. rewrite !filter_cons, rings_insert by (apply Hne; set_solver).
      fold cs1. rewrite IH; [done|]. intros k Hk. apply Hne. set_solver. }
    assert (rings cs i = snd (rung slot)) as Hri by (unfold rings; by rewrite Hslot).
    rewrite filter_cons. case_decide as Hd; rewrite Hri in Hd; destruct (snd (rung slot)); try done. by rewrite <- app_assoc.
  - intros j sl Hj. destruct (Nat.eq_dec i j) as [<-|Hij].
    + rewrite (Hat i (fst (rung slot))) by (by apply list_lookup_insert_eq).
      rewrite bool_decide_false by done. rewrite bool_decide_true by set_solver. by simplify_eq.
    + rewrite (Hat j sl) by (unfold cs1; by rewrite list_lookup_insert_ne). f_equal.
      by rewrite (bool_decide_ext (j ∈ polled) (j ∈ i :: polled)) by set_solver.
Qed.

(** ** The queue

    Against what [answer] promises of one client: from a [good] one it ends,
    [finished], and sets [STOP] if the client is a [stopper]. *)
Section Queue.
Context (ans : Serving -> outcome unit Serving) (good : Client -> Prop) (stopper : Client -> bool)
  (finished : Client -> Client -> Prop).
Context (ans_ok : forall e c stop_, sane None e -> good c ->
  exists st, ans (mkServing e c stop_) = Ok st /\ sane None (eng st) /\ limits (eng st) = limits e
    /\ finished c (cl st) /\ stop st = stop_ || stopper c).

Definition waits (cs : list (option Client)) (i : nat) : Prop :=
  exists c, cs !! i = Some (Some c) /\ queued c = true /\ good (set_queued c false).
Definition stops_at (cs : list (option Client)) (i : nat) : bool :=
  match cs !! i with Some (Some c) => stopper (set_queued c false) | _ => false end.

Lemma stops_same cs cs' queue :
  (forall j, j ∈ queue -> cs' !! j = cs !! j) -> existsb (stops_at cs') queue = existsb (stops_at cs) queue.
Proof.
  intros Hsame. induction queue as [|j l IH]; [done|]. cbn. rewrite IH by (intros; apply Hsame; set_solver).
  f_equal. unfold stops_at. by rewrite Hsame by set_solver.
Qed.

Lemma drain_spec queue : forall e cs stop_,
  NoDup queue -> sane None e -> Forall (waits cs) queue ->
  exists e' cs', drain_with ans queue e cs stop_ = Ok (e', cs', stop_ || existsb (stops_at cs) queue)
    /\ sane None e' /\ limits e' = limits e /\ length cs' = length cs
    /\ (forall i, i ∉ queue -> cs' !! i = cs !! i)
    /\ (forall i c, i ∈ queue -> cs !! i = Some (Some c) -> exists c', cs' !! i = Some (Some c') /\ finished (set_queued c false) c').
Proof.
  induction queue as [|i queue IH]; intros e cs stop_ Hnd He Hw; cbn [drain_with existsb].
  { exists e, cs. rewrite orb_false_r. split_and!; try done. intros i c []%not_elem_of_nil. }
  apply NoDup_cons in Hnd as [Hni Hnd]. apply Forall_cons in Hw as [(c&Hc&Hq&Hg) Hw].
  rewrite Hc. cbn [or_panic mbind outcome_bind]. rewrite Hq.
  destruct (ans_ok e (set_queued c false) stop_ He Hg) as (st&Hrun&Hs&Hl&Ha&Hst). rewrite Hrun. cbn [mbind outcome_bind].
  assert (forall j, j ∈ queue -> <[i := Some (cl st)]> cs !! j = cs !! j) as Hsame
    by (intros j Hj; apply list_lookup_insert_ne; by intros ->).
  destruct (IH (eng st) (<[i := Some (cl st)]> cs) (stop st) Hnd Hs) as (e'&cs'&Hd&He'&Hl'&Hlen&Hout&Hin).
  { rewrite Forall_forall in Hw |- *. intros j Hj. unfold waits. rewrite Hsame by done. by apply Hw. }
  exists e', cs'. rewrite Hd. split.
  { assert (stops_at cs i = stopper (set_queued c false)) as -> by (unfold stops_at; by rewrite Hc).
    by rewrite (stops_same cs), Hst, orb_assoc by done. }
  split_and!; [done|congruence|by rewrite Hlen, length_insert| |].
  - intros j Hj. rewrite Hout by set_solver. apply list_lookup_insert_ne. set_solver.
  - intros j cj [->|Hj]%elem_of_cons Hcj.
    + simplify_eq. exists (cl st). split; [|done]. rewrite Hout by done. apply list_lookup_insert_eq. by eapply lookup_lt_Some.
    + apply Hin; [done|]. by rewrite Hsame.
Qed.

(** What a round makes of a polled slot. *)
Inductive served : option Client -> option Client -> Prop :=
| served_none : served None None
| served_left c c1 : bells c = (None, c1) -> served (Some c) None
| served_quiet c c1 : bells c = (Some false, c1) -> served (Some c) (Some c1)
| served_asked c c1 c' : bells c = (Some true, c1) -> finished c1 c' -> served (Some c) (Some c').

(** Whether a slot, polled, asks the daemon to stop. *)
Definition stops (cs : list (option Client)) (i : nat) : bool :=
  match cs !! i with
  | Some (Some c) => match bells c with (Some true, c) => stopper c | _ => false end
  | _ => false
  end.
Definition all_good (cs : list (option Client)) : Prop :=
  forall i c b c1, cs !! i = Some (Some c) -> bells c = (b, c1) -> good c1.

Lemma unqueued c b : queued c = false -> set_queued (set_queued c b) false = c.
Proof. destruct c. cbn. by intros ->. Qed.

(** A slot that rang waits in the queue. *)
Lemma rings_waits cs cs1 i : idle cs -> all_good cs -> rings cs i = true ->
  (forall slot, cs !! i = Some slot -> cs1 !! i = Some (fst (rung slot))) ->
  waits cs1 i /\ stops_at cs1 i = stops cs i.
Proof.
  intros Hi Hg Hr H1. unfold rings, waits, stops_at, stops in *. destruct (cs !! i) as [[c|]|] eqn:Hc; [|done|done].
  specialize (H1 _ eq_refl). unfold rung in *. destruct (bells c) as [[b|] c1] eqn:Hb; [|done]. cbn in H1, Hr. subst b. rewrite H1.
  pose proof (bells_same _ _ _ Hb) as (_&Hq&_). rewrite (Hi _ _ Hc) in Hq. rewrite unqueued by done. split; [|done].
  exists (set_queued c1 true). rewrite unqueued by done. split; [done|]. split; [done|]. by eapply Hg.
Qed.

Lemma stops_rings cs i : rings cs i = false -> stops cs i = false.
Proof.
  unfold rings, stops. destruct (cs !! i) as [[c|]|]; [|done|done]. unfold rung. by destruct (bells c) as [[[]|] c1].
Qed.
Lemma existsb_filter {A} (f g h : A -> bool) l :
  (forall x, x ∈ l -> f x = true -> g x = h x) -> (forall x, f x = false -> h x = false) ->
  existsb g (filter (fun x => f x = true) l) = existsb h l.
Proof.
  intros Hg Hh. induction l as [|x l IH]; [done|]. rewrite filter_cons. cbn [existsb].
  assert (existsb g (filter (fun x => f x = true) l) = existsb h l) as IH' by (apply IH; intros y Hy; apply Hg; set_solver).
  case_decide as Hf; [cbn; rewrite IH', Hg by (done || set_solver); done|].
  rewrite IH', Hh by (by destruct (f x)). done.
Qed.

(** What a round makes of each slot: who was polled is [served], the others
    are as they were. *)
Definition leaves (polled : list nat) (cs cs' : list (option Client)) : Prop :=
  forall i slot, cs !! i = Some slot -> exists slot', cs' !! i = Some slot'
    /\ if bool_decide (i ∈ polled) then served slot slot' else slot' = slot.

Lemma leaves_drained polled (cs cs1 cs' : list (option Client)) :
  idle cs ->
  (forall i slot, cs !! i = Some slot -> cs1 !! i = Some (if bool_decide (i ∈ polled) then fst (rung slot) else slot)) ->
  (forall i, i ∉ filter (fun i => rings cs i = true) polled -> cs' !! i = cs1 !! i) ->
  (forall i c, i ∈ filter (fun i => rings cs i = true) polled -> cs1 !! i = Some (Some c) ->
     exists c', cs' !! i = Some (Some c') /\ finished (set_queued c false) c') ->
  leaves polled cs cs'.
Proof.
  intros Hi H1 Hout Hin i slot Hs. specialize (H1 i slot Hs). assert (rings cs i = snd (rung slot)) as Hr by (unfold rings; by rewrite Hs).
  destruct (bool_decide_reflect (i ∈ polled)) as [Hp|Hp].
  - destruct (snd (rung slot)) eqn:Hrung.
    + destruct slot as [c|]; [|done]. unfold rung in *. destruct (bells c) as [[b|] c1] eqn:Hb; [|done]. cbn in *. subst b.
      destruct (Hin i _ ltac:(by apply list_elem_of_filter) H1) as (c'&Hc'&Hf). pose proof (bells_same _ _ _ Hb) as (_&Hq&_).
      rewrite (Hi _ _ Hs) in Hq. rewrite unqueued in Hf by done. exists (Some c'). split; [done|]. by eapply served_asked.
    + assert (cs' !! i = Some (fst (rung slot))) as H2 by (rewrite Hout; [done|rewrite list_elem_of_filter; intros [? _]; congruence]).
      eexists. split; [exact H2|]. destruct slot as [c|]; [|constructor]. unfold rung in *.
      destruct (bells c) as [[b|] c1] eqn:Hb; [|by eapply served_left]. cbn in Hrung |- *. subst b.
      pose proof (bells_same _ _ _ Hb) as (_&Hq&_). rewrite (Hi _ _ Hs) in Hq.
      replace (set_queued c1 false) with c1 by (destruct c1; cbn in *; by subst). by apply served_quiet.
  - exists slot. split; [|done]. rewrite Hout; [done|]. rewrite list_elem_of_filter. by intros [_ ?].
Qed.

Context (finished_queued : forall c c', finished c c' -> queued c' = queued c).
Lemma leaves_idle polled cs cs' : idle cs -> length cs' = length cs -> leaves polled cs cs' -> idle cs'.
Proof.
  intros Hi Hlen Hl i c' Hc'. destruct (lookup_lt_is_Some_2 cs i) as [slot Hs]; [rewrite <- Hlen; by eapply lookup_lt_Some|].
  destruct (Hl i slot Hs) as (slot'&Hs'&Hcase). simplify_eq. case_bool_decide; [|subst; by eapply Hi].
  inversion Hcase as [|c c1 Hb|c c1 Hb|c c1 c2 Hb Hf]; subst; pose proof (bells_same _ _ _ Hb) as (_&Hq&_); rewrite (Hi _ _ Hs) in Hq;
    [done|]. by rewrite (finished_queued _ _ Hf).
Qed.

Lemma round_slots polled e cs :
  sane None e -> idle cs -> all_good cs -> NoDup polled -> range cs polled ->
  exists cs1 queue e' cs', ring_all polled cs [] = Ok (cs1, queue)
    /\ drain_with ans queue e cs1 false = Ok (e', cs', existsb (stops cs) polled)
    /\ sane None e' /\ limits e' = limits e /\ length cs' = length cs /\ idle cs' /\ leaves polled cs cs'.
Proof.
  intros He Hi Hg Hnd Hr. destruct (ring_all_spec polled cs [] Hnd Hr) as (cs1&Hring&Hlen1&Hat); [naive_solver|].
  cbn [app] in Hring. set (queue := filter (fun i => rings cs i = true) polled) in *.
  assert (forall i, i ∈ polled -> rings cs i = true -> waits cs1 i /\ stops_at cs1 i = stops cs i) as Hw.
  { intros i Hp Hri. apply rings_waits; [done|done|done|]. intros slot Hs. by rewrite (Hat i slot Hs), bool_decide_true. }
  destruct (drain_spec queue e cs1 false) as (e'&cs'&Hd&He'&Hl&Hlen&Hout&Hin); [by apply NoDup_filter|done| |].
  { apply Forall_forall. intros i [Hri Hp]%list_elem_of_filter. by apply Hw. }
  assert (leaves polled cs cs') as Hleaves by (by eapply leaves_drained).
  assert (existsb (stops_at cs1) queue = existsb (stops cs) polled) as Hst.
  { apply existsb_filter; [intros i Hp Hri; by apply Hw|apply stops_rings]. }
  exists cs1, queue, e', cs'. rewrite Hd, Hst. split_and!; [done..|congruence| |done].
  eapply leaves_idle; [done| |done]. congruence.
Qed.
End Queue.

(** ** The daemon *)
Lemma place_at c l i x : place c l !! i = Some x -> x = Some c \/ l !! i = Some x.
Proof.
  revert i. induction l as [|[y|] l IH]; intros [|i]; cbn; naive_solver.
Qed.
Lemma place_length c l : (length l <= length (place c l))%nat.
Proof. induction l as [|[y|] l IH]; cbn; lia. Qed.

Lemma fold_inv {A B} (P : A -> Prop) (f : A -> B -> A) l a : (forall a b, P a -> P (f a b)) -> P a -> P (fold_left f l a).
Proof. intros Hf. revert a. induction l as [|b l IH]; intros a Ha; [done|]. apply IH, Hf, Ha. Qed.
Lemma shared_new_holds n i : u8 (mem (shared_new n) i).
Proof.
  assert (forall n a v m, (forall i, u8 (m i)) -> forall i, u8 (Shm.put n a v m i)) as Hput
    by (intros; apply blit_holds; [done|apply le_bytes_ok]).
  revert i. unfold shared_new. cbn [mem]. apply fold_inv.
  - intros m p Hm. by apply Hput.
  - do 3 apply Hput. done.
Qed.

(** Everyone is idle and every memory holds bytes. *)
Definition at_rest (cs : list (option Client)) : Prop :=
  idle cs /\ forall i c, cs !! i = Some (Some c) -> holds c.
Lemma accept_at_rest a opts cs : at_rest cs -> at_rest (accept a opts cs).
Proof.
  intros [Hi Hh]. destruct a as [| | |l k]; try done. cbn [accept]. split.
  - intros i c [[= ->]|Hc]%place_at; [done|by eapply Hi].
  - intros i c [[= ->]|Hc]%place_at; [exact (shared_new_holds _)|by eapply Hh].
Qed.

Definition entered (opts : Options) (a : option arrival) (d : Daemon) : list (option Client) :=
  match a with Some a => accept a opts (clients d) | None => clients d end.
Lemma entered_at_rest opts a d : at_rest (clients d) -> at_rest (entered opts a d).
Proof. destruct a; [apply accept_at_rest|done]. Qed.
Lemma entered_length opts a d : (length (clients d) <= length (entered opts a d))%nat.
Proof. destruct a as [[| | |]|]; try done. apply place_length. Qed.

Section Rounds.
Context `{Y : Says} `{W : World} `{S : System} {D : Type} `{!Detok D}.
Context (Hfiles : forall d, files_ok (disk d)) (Hmedia : media_ok).

Definition has_bytes (c : Client) : Prop := bytes_ok (request_area c).
Lemma holds_area c : holds c -> has_bytes c.
Proof. intros Hc. apply peek_ok, Hc. Qed.
Lemma answer_ok opts e c stop_ : sane None e -> has_bytes c ->
  exists st, answer opts (mkServing e c stop_) = Ok st /\ sane None (eng st) /\ limits (eng st) = limits e
    /\ answered c (cl st) /\ stop st = stop_ || wants_stop c.
Proof.
  intros He Hb. destruct (answer_spec Hfiles Hmedia opts (mkServing e c stop_) He Hb) as (st&Hr&Hs&Ha&Hst).
  exists st. split; [exact Hr|]. split; [exact Hs|]. split; [exact (steady_answer _ _ _ Hr)|]. split; [exact Ha|exact Hst].
Qed.
Lemma rest_good cs : at_rest cs -> all_good has_bytes cs.
Proof.
  intros [_ Hh] i c b c1 Hc Hb. apply holds_area. pose proof (bells_same _ _ _ Hb) as (_&_&_&_&Hm). unfold holds. rewrite Hm. by eapply Hh.
Qed.

Lemma leaves_at_rest polled cs cs' :
  at_rest cs -> length cs' = length cs -> idle cs' -> leaves answered polled cs cs' -> at_rest cs'.
Proof.
  intros [Hi Hh] Hlen Hi' Hl. split; [done|]. intros i c' Hc'.
  destruct (lookup_lt_is_Some_2 cs i) as [slot Hs]; [rewrite <- Hlen; by eapply lookup_lt_Some|].
  destruct (Hl i slot Hs) as (slot'&Hs'&Hcase). simplify_eq. case_bool_decide; [|subst; by eapply Hh].
  inversion Hcase as [|c c1 Hb|c c1 Hb|c c1 c2 Hb Ha]; subst; pose proof (bells_same _ _ _ Hb) as (_&_&_&_&Hm);
    [|apply (answered_mem _ _ Ha)]; unfold holds; rewrite Hm; by eapply Hh.
Qed.

(** What one round promises. *)
Definition daemon_of (n : next_round) : Daemon := match n with GoesOn d | ShutDown d | Ends _ d => d end.
Definition shuts_down (n : next_round) : bool := match n with ShutDown _ => true | _ => false end.
Lemma round_spec opts a polled d :
  let cs := entered opts a d in
  sane None (engine d) -> at_rest (clients d) -> NoDup polled -> range (clients d) polled ->
  exists n, round opts a polled d = Ok n /\ let d' := daemon_of n in
    sane None (engine d') /\ limits (engine d') = limits (engine d) /\ at_rest (clients d')
    /\ leaves answered polled cs (clients d') /\ shuts_down n = existsb (stops wants_stop cs) polled.
Proof.
  intros cs He Hr Hnd Hrange. pose proof (entered_at_rest opts a d Hr) as Hcs. fold cs in Hcs.
  destruct (round_slots (answer opts) has_bytes wants_stop answered (answer_ok opts) answered_queued polled (engine d) cs)
    as (cs1&queue&e'&cs'&Hring&Hdrain&He'&Hl&Hlen&Hi'&Hleaves); [done|apply Hcs|by apply rest_good|done| |].
  { eapply Forall_impl; [exact Hrange|]. intros i. pose proof (entered_length opts a d). cbn. fold cs in H. lia. }
  pose proof (leaves_at_rest _ _ _ Hcs Hlen Hi' Hleaves) as Hr'.
  unfold round. fold cs. change (match a with Some a => accept a opts (clients d) | None => clients d end) with cs.
  rewrite Hring. cbn [mbind outcome_bind]. unfold drain. rewrite Hdrain. cbn [mbind outcome_bind].
  generalize (existsb (stops wants_stop cs) polled). intros b. clear Hdrain Hring. destruct b.
  - exists (ShutDown (mkDaemon e' cs')). cbn. split_and!; done.
  - destruct (keeps_expire e' He') as (Hs&_&Hp). pose proof (limits_call (D := D) CExpire e') as Hle. cbn [call] in Hle.
    destruct (expire e') as [[u|x|] e2]; [| |done]; cbn in Hs, Hle; eexists; (split; [reflexivity|]); cbn; split_and!; (done || congruence).
Qed.
End Rounds.

(** ** Any number of rounds

    Between two rounds the clients write their memory and their sockets; the
    daemon's own marks stay. *)
Definition outside (x y : option Client) : Prop :=
  match x, y with
  | None, None => True
  | Some c, Some c' => queued c' = queued c /\ cancel c' = cancel c /\ out c' = out c /\ welcome c' = welcome c /\ holds c'
  | _, _ => False
  end.
Inductive serving `{Y : Says} `{W : World} `{S : System} {D : Type} `{!Detok D} (opts : Options) : Daemon -> Daemon -> Prop :=
| clients_act d cs : Forall2 outside (clients d) cs -> serving opts d (mkDaemon (engine d) cs)
| a_round a polled d d' :
    NoDup polled -> range (clients d) polled -> round opts a polled d = Ok (GoesOn d') -> serving opts d d'.

Lemma outside_at_rest cs cs' : at_rest cs -> Forall2 outside cs cs' -> at_rest cs'.
Proof.
  intros [Hi Hh] Ho.
  assert (forall i c', cs' !! i = Some (Some c') -> exists c, cs !! i = Some (Some c) /\ outside (Some c) (Some c')) as Hback.
  { intros i c' Hc'. destruct (Forall2_lookup_r _ _ _ _ _ Ho Hc') as ([c|]&Hc&Hout); [by exists c|done]. }
  split; intros i c' (c&Hc&Hout)%Hback.
  - destruct Hout as [-> _]. by eapply Hi.
  - by destruct Hout as (_&_&_&_&?).
Qed.

Section Reachable.
Context `{Y : Says} `{W : World} `{S : System} {D : Type} `{!Detok D}.
Context (Hfiles : forall d, files_ok (disk d)) (Hmedia : media_ok).
Lemma serving_safe opts d d' :
  serving opts d d' -> sane None (engine d) -> at_rest (clients d) ->
  sane None (engine d') /\ at_rest (clients d') /\ limits (engine d') = limits (engine d).
Proof.
  intros [d0 cs Ho|a polled d0 d1 Hnd Hr Hround] He Hrest.
  - split; [done|]. split; [by eapply outside_at_rest|done].
  - destruct (round_spec Hfiles Hmedia opts a polled d0 He Hrest Hnd Hr) as (n&Hn&Hs&Hl&Hr'&_). rewrite Hround in Hn.
    injection Hn as <-. done.
Qed.
Lemma reachable_safe opts d d' :
  rtc (serving opts) d d' -> sane None (engine d) -> at_rest (clients d) ->
  sane None (engine d') /\ at_rest (clients d') /\ limits (engine d') = limits (engine d).
Proof.
  induction 1 as [d|d1 d2 d3 H1 _ IH]; intros He Hr; [done|].
  destruct (serving_safe _ _ _ H1 He Hr) as (He2&Hr2&Hl). rewrite <- Hl. by apply IH.
Qed.
End Reachable.

Definition start (e : Engine) : Daemon := mkDaemon e [].

(** ** A sample daemon

    Every model is where its name says, texts are English, an encoder's
    vectors are one row of two values; a client arrives with a request. *)
#[local] Instance sample_says : Says := {| debug b := b; os_error _ := []; error_name _ := [] |}.
#[local] Instance sample_system : System := {|
  has_weights _ := true; pulled n := n; decode _ := Ok 1; decode_wav _ := Err (Media []); english _ := true; vectors _ := [[1; 2]];
|}.
Definition sample_options : Options := mkOptions (5 * minute) 64 (Some 450) (Some 100).
Definition sample_client : Client :=
  mkClient [Got [1]; WouldBlock] [] (shared_new 64) false false (w_new 200 (f_u64 (size (shared_new 64)) [])) [].
Definition sample_daemon : Daemon := mkDaemon sample_engine [Some sample_client].
Lemma sample_media_ok : @media_ok sample_system.
Proof. by split. Qed.
Lemma sample_at_rest : at_rest (clients sample_daemon).
Proof.
  split; intros [|[|i]] c Hc; try done.
  - by injection Hc as <-.
  - injection Hc as <-. exact (shared_new_holds 64).
Qed.
Lemma sample_sane : sane None sample_engine.
Proof. by apply sane_new. Qed.
Lemma sample_range : range (clients sample_daemon) [0%nat].
Proof. constructor; [cbn; lia|constructor]. Qed.
Lemma sample_reachable :
  rtc (@serving sample_says sample_world sample_system unit sample_detok sample_options) (start sample_engine) (start sample_engine).
Proof. apply rtc_refl. Qed.

(** ** Properties *)
Lemma start_at_rest : at_rest [].
Proof. by split. Qed.



(** The daemon shuts down in a round exactly when a client that rang in
    it asked for it, and had not rung its cancel after. *)
Theorem shutdown_is_asked_for `{Y : Says} `{W : World} `{S : System} {D : Type} `{!Detok D} opts a polled d :
  (forall d, files_ok (disk d)) -> media_ok ->
  sane None (engine d) -> at_rest (clients d) -> NoDup polled -> range (clients d) polled ->
  exists n, round opts a polled d = Ok n /\
    (shuts_down n = true <-> exists i c c1, i ∈ polled /\ entered opts a d !! i = Some (Some c) /\ bells c = (Some true, c1)
       /\ snd (Serve.read (request_area c1)) = Ok AskShutdown /\ cancel c1 = false).
Proof.
  intros Hf Hmd He Hrest Hnd Hr. destruct (round_spec Hf Hmd opts a polled d He Hrest Hnd Hr) as (n&Hn&_&_&_&_&Hst).
  exists n. split; [exact Hn|]. rewrite Hst, existsb_exists. unfold stops, wants_stop. split.
  - intros (i&Hi&Hs). exists i. destruct (entered opts a d !! i) as [[c|]|]; [|done|done].
    destruct (bells c) as [[[]|] c1] eqn:Hb; [|done|done]. exists c, c1. split; [by apply list_elem_of_In|]. split; [done|]. split; [done|].
    destruct (snd (Serve.read (request_area c1))) as [q| |]; [|done|done]. apply andb_true_iff in Hs as [Hq Hc].
    split; [by destruct q|by destruct (cancel c1)].
  - intros (i&c&c1&Hi&Hc&Hb&Hq&Hcc). exists i. split; [by apply list_elem_of_In|]. by rewrite Hc, Hb, Hq, Hcc.
Qed.
Lemma shutdown_is_asked_for_witness :
  exists n, @round sample_says sample_world sample_system unit sample_detok sample_options None [] sample_daemon = Ok n
    /\ (shuts_down n = true <-> exists i c c1, i ∈ [] /\ entered sample_options None sample_daemon !! i = Some (Some c)
       /\ bells c = (Some true, c1) /\ snd (Serve.read (request_area c1)) = Ok AskShutdown /\ cancel c1 = false).
Proof.
  refine (@shutdown_is_asked_for sample_says sample_world sample_system unit sample_detok sample_options None [] sample_daemon
    sample_files_ok sample_media_ok sample_sane sample_at_rest _ _); constructor.
Defined.

(** The doorbells of a script, up to where a read would block. *)
Fixpoint heard (l : list got) : list Z :=
  match l with Got (b :: bs) :: l => (b :: bs) ++ heard l | _ => [] end.
Definition doorbell (b : Z) : bool := (b =? DOORBELL_REQUEST) || (b =? DOORBELL_CANCEL).
Definition last_word (bs : list Z) (x : bool) : bool :=
  match last (filter (fun b => doorbell b = true) bs) with Some b => b =? DOORBELL_CANCEL | None => x end.

Lemma fold_bells bs asked x :
  fold_left (fun '(asked, x) b => (asked || (b =? DOORBELL_REQUEST), (b =? DOORBELL_CANCEL) || x && negb (b =? DOORBELL_REQUEST)))
    bs (asked, x) = (asked || existsb (Z.eqb DOORBELL_REQUEST) bs, last_word bs x).
Proof.
  revert asked x. induction bs as [|b bs IH]; intros asked x; cbn [fold_left existsb]; [by rewrite orb_false_r|].
  rewrite IH, (Z.eqb_sym DOORBELL_REQUEST b), orb_assoc. f_equal. unfold last_word. rewrite filter_cons.
  destruct (last (filter _ bs)) as [y|] eqn:Hl.
  - case_decide; [rewrite last_cons, Hl|]; try done. by rewrite Hl.
  - case_decide as Hd; [rewrite last_cons, Hl|rewrite Hl]; unfold doorbell in Hd;
      destruct (b =? DOORBELL_REQUEST), (b =? DOORBELL_CANCEL); cbn in *; by rewrite ?andb_false_r, ?andb_true_r.
Qed.
Lemma last_word_app a b x : last_word (a ++ b) x = last_word b (last_word a x).
Proof.
  unfold last_word. rewrite filter_app. rewrite last_app. by destruct (last (filter _ b)).
Qed.

(** Reading the doorbells: a request is heard exactly when its doorbell
    is among the bytes read, and the client's cancel stands exactly when the
    last doorbell rung, now or before, is the cancel: a request rung after a
    cancel forgets it. *)
Theorem doorbells_last_word c asked c' :
  bells c = (Some asked, c') ->
  asked = existsb (Z.eqb DOORBELL_REQUEST) (heard (stream c)) /\ cancel c' = last_word (heard (stream c)) (cancel c).
Proof.
  unfold bells. destruct (bells_from (stream c) false (cancel c)) as [[r x] l] eqn:H. intros [= -> <-]. cbn [cancel].
  assert (forall l asked0 x0 r x l', bells_from l asked0 x0 = (Some r, x, l') ->
            r = asked0 || existsb (Z.eqb DOORBELL_REQUEST) (heard l) /\ x = last_word (heard l) x0) as Hgen.
  { clear. intros l. induction l as [|[[|b bs]| |] l IH]; intros asked0 x0 r x l'; cbn [bells_from heard].
    - intros [= <- <- _]. by rewrite orb_false_r.
    - done.
    - rewrite fold_bells. intros [-> ->]%IH. by rewrite existsb_app, last_word_app, orb_assoc.
    - intros [= <- <- _]. by rewrite orb_false_r.
    - done. }
  by apply Hgen in H as [-> ->].
Qed.
Lemma doorbells_last_word_witness :
  let c := mkClient [Got [1; 2]; Got [1]; WouldBlock] [] (shared_new 0) false false [] [] in
  exists c', bells c = (Some true, c') /\ cancel c' = last_word (heard (stream c)) (cancel c).
Proof.
  intros c. exists (snd (bells c)). split; [reflexivity|]. exact (proj2 (doorbells_last_word c true (snd (bells c)) eq_refl)).
Defined.

(** A request whose cancel was rung before it was answered costs nothing:
    the engine is not asked, the client gets one Error message, Cancelled,
    with the request's number, and the cancel is spent. *)
Theorem cancelled_request_costs_nothing `{Y : Says} `{W : World} `{S : System} {D : Type} `{!Detok D} opts e c stop_ :
  cancel c = true -> holds c ->
  exists st, answer opts (mkServing e c stop_) = Ok st /\ eng st = e /\ stop st = stop_
    /\ cl st = snd (send (set_cancel c false) (error_message (id_of c) cancelled)).
Proof.
  intros Hc Hm. destruct (Serve.read_sound _ (holds_area c Hm)) as (_&Hp&_). unfold answer, respond, id_of. cbn [cl].
  destruct (Serve.read (request_area c)) as [id a]. cbn [fst snd] in *. rewrite Hc.
  destruct a as [a|x|]; [| |done]; eexists; (split; [reflexivity|]); done.
Qed.
Lemma cancelled_request_costs_nothing_witness :
  exists st, @answer sample_says sample_world sample_system unit sample_detok sample_options
      (mkServing sample_engine (set_cancel sample_client true) false) = Ok st
    /\ eng st = sample_engine /\ stop st = false
    /\ cl st = snd (send (set_cancel (set_cancel sample_client true) false)
                      (error_message (id_of (set_cancel sample_client true)) cancelled)).
Proof.
  refine (@cancelled_request_costs_nothing sample_says sample_world sample_system unit sample_detok sample_options sample_engine
    (set_cancel sample_client true) false eq_refl _). exact (shared_new_holds 64).
Defined.
