(* ===== verification/Search.v ===== *)
(** * Binary search, as the standard library does it

    [binary_search_by] on a slice, [partition_point] and the searches the
    sources make with them, with what they give on a sorted slice. *)
From S2P Require Import Prelude.

(** The halving loop: [f i] compares the element at [i] with what is looked
    for; [size] elements from [base] are left. *)
Fixpoint halve (fuel : nat) (f : nat -> comparison) (base size : nat) : nat :=
  match fuel with
  | O => base
  | S fuel =>
      if (1 <? size)%nat then
        let half := Nat.div2 size in
        let mid := (base + half)%nat in
        halve fuel f (match f mid with Gt => base | _ => mid end) (size - half)
      else base
  end.

(** [binary_search_by]: [inl] where it is, [inr] where it would go. *)
Definition binary_search_by (n : nat) (f : nat -> comparison) : nat + nat :=
  match n with
  | O => inr O
  | _ => let base := halve n f 0 n in
         match f base with Eq => inl base | Lt => inr (S base) | Gt => inr base end
  end.

Definition at_list {A} (l : list A) (cmp : A -> comparison) (i : nat) : comparison :=
  match l !! i with Some x => cmp x | None => Gt end.
(** [binary_search_by] on a slice, and [partition_point]. *)
Definition search {A} (l : list A) (cmp : A -> comparison) : nat + nat := binary_search_by (length l) (at_list l cmp).
Definition partition_point {A} (l : list A) (p : A -> bool) : nat :=
  match search l (fun x => if p x then Lt else Gt) with inl i | inr i => i end.

(** ** On a slice whose comparisons never fall: less, then equal, then greater *)
Definition rank (c : comparison) : nat := match c with Lt => 0 | Eq => 1 | Gt => 2 end.
Definition rising (n : nat) (f : nat -> comparison) : Prop :=
  forall i j, (i <= j < n)%nat -> (rank (f i) <= rank (f j))%nat.

(** The loop ends at the last position that is not greater, or at the first
    one. *)
Lemma halve_spec fuel f base size n :
  rising n f -> (1 <= size)%nat -> (base + size <= n)%nat -> (size <= fuel)%nat ->
  (forall i, (base + size <= i < n)%nat -> f i = Gt) -> (base = 0%nat \/ f base <> Gt) ->
  let r := halve fuel f base size in
  (base <= r < n)%nat /\ (r = 0%nat \/ f r <> Gt) /\ (forall i, (r < i < n)%nat -> f i = Gt).
Proof.
  intros Hr. revert base size. induction fuel as [|fuel IH]; intros base size Hs Hb Hf Hgt Hbase; [lia|]. cbn [halve].
  destruct (Nat.ltb_spec 1 size) as [Hlt|Hle].
  - pose proof (Nat.div2_odd size) as Hd. assert (1 <= Nat.div2 size < size)%nat by (destruct (Nat.odd size); cbn [Nat.b2n] in Hd; lia).
    set (half := Nat.div2 size) in *. destruct (f (base + half)%nat) eqn:Hm.
    + assert (forall i, (base + half + (size - half) <= i < n)%nat -> f i = Gt) as Hg by (intros i Hi; apply Hgt; lia).
      specialize (IH (base + half) (size - half) ltac:(lia) ltac:(lia) ltac:(lia) Hg ltac:(right; congruence))%nat.
      cbn zeta in IH |- *. destruct IH as (?&?&?). split; [lia|done].
    + assert (forall i, (base + half + (size - half) <= i < n)%nat -> f i = Gt) as Hg by (intros i Hi; apply Hgt; lia).
      specialize (IH (base + half) (size - half) ltac:(lia) ltac:(lia) ltac:(lia) Hg ltac:(right; congruence))%nat.
      cbn zeta in IH |- *. destruct IH as (?&?&?). split; [lia|done].
    + apply IH; [lia|lia|lia| |done]. intros i Hi. destruct (decide (i < base + size)%nat); [|apply Hgt; lia].
      specialize (Hr (base + half) i ltac:(lia))%nat. rewrite Hm in Hr. by destruct (f i); cbn in Hr; try lia.
  - replace size with 1%nat in * by lia. split; [lia|]. split; [done|]. intros i Hi. apply Hgt. lia.
Qed.

Lemma halve_all n f : rising (S n) f -> let r := halve (S n) f 0 (S n) in
  (0 <= r < S n)%nat /\ (r = 0%nat \/ f r <> Gt) /\ (forall i, (r < i < S n)%nat -> f i = Gt).
Proof. intros Hr. apply (halve_spec _ _ _ _ (S n)); [done|lia|lia|lia|lia|by left]. Qed.

Lemma binary_search_found n f i : rising n f -> binary_search_by n f = inl i -> (i < n)%nat /\ f i = Eq.
Proof.
  intros Hr. destruct n as [|n]; [done|]. unfold binary_search_by.
  destruct (halve_all n f Hr) as (Hlt&_&_).
  set (r := halve (S n) f 0 (S n)) in *. destruct (f r) eqn:Hf; [|done|done]. intros [= <-]. split; [lia|done].
Qed.

Lemma binary_search_missed n f i : rising n f -> binary_search_by n f = inr i ->
  (i <= n)%nat /\ (forall j, (j < i)%nat -> f j = Lt) /\ (forall j, (i <= j < n)%nat -> f j = Gt).
Proof.
  intros Hr. destruct n as [|n]; [intros [= <-]; split; [lia|]; split; intros; lia|]. unfold binary_search_by.
  destruct (halve_all n f Hr) as (Hlt&H0&Hg).
  set (r := halve (S n) f 0 (S n)) in *. destruct (f r) eqn:Hf; intros [= <-].
  - split; [lia|]. split; [|intros j Hj; apply Hg; lia]. intros j Hj. specialize (Hr j r ltac:(lia)). rewrite Hf in Hr.
    by destruct (f j); cbn in Hr; try lia.
  - destruct H0 as [H0|]; [|done]. rewrite H0 in *. split; [lia|]. split; [intros; lia|].
    intros j Hj. destruct (decide (j = 0%nat)) as [->|]; [done|]. apply Hg. lia.
Qed.

(** What [partition_point] gives: the number of leading elements that
    satisfy [p]. *)
Lemma partition_point_spec {A} (l : list A) (p : A -> bool) :
  (forall i j x y, (i <= j)%nat -> l !! i = Some x -> l !! j = Some y -> p y = true -> p x = true) ->
  let k := partition_point l p in
  (k <= length l)%nat /\ Forall (fun x => p x = true) (take k l) /\ Forall (fun x => p x = false) (drop k l).
Proof.
  intros Hp. assert (rising (length l) (at_list l (fun x => if p x then Lt else Gt))) as Hr.
  { intros i j Hij. unfold at_list. destruct (lookup_lt_is_Some_2 l i ltac:(lia)) as [x Hx].
    destruct (lookup_lt_is_Some_2 l j ltac:(lia)) as [y Hy]. rewrite Hx, Hy.
    destruct (p y) eqn:Hpy; [rewrite (Hp i j x y ltac:(lia) Hx Hy Hpy); done|destruct (p x); cbn; lia]. }
  unfold partition_point, search. destruct (binary_search_by _ _) as [i|i] eqn:Hs.
  - apply (binary_search_found _ _ _ Hr) in Hs as [Hi He]. unfold at_list in He. destruct (l !! i) as [x|]; [by destruct (p x)|done].
  - apply (binary_search_missed _ _ _ Hr) in Hs as (Hi&Hlt&Hgt). cbn zeta. split; [done|]. split; apply Forall_lookup; intros j x Hx.
    + apply lookup_take_Some in Hx as [Hx Hj]. specialize (Hlt j Hj). unfold at_list in Hlt. rewrite Hx in Hlt. by destruct (p x).
    + rewrite lookup_drop in Hx. specialize (Hgt (i + j)%nat). unfold at_list in Hgt. rewrite Hx in Hgt.
      apply lookup_lt_Some in Hx. destruct (p x); [|done]. by specialize (Hgt ltac:(lia)).
Qed.

(** ** Sorted slices of integers *)
Definition ascending (l : list Z) : Prop := forall i j x y, (i <= j)%nat -> l !! i = Some x -> l !! j = Some y -> x <= y.

(** [binary_search(&x)]. *)
Definition binary_search (l : list Z) (x : Z) : nat + nat := search l (fun y => Z.compare y x).
Definition found (l : list Z) (x : Z) : bool := match binary_search l x with inl _ => true | inr _ => false end.

Lemma found_spec l x : ascending l -> found l x = true <-> x ∈ l.
Proof.
  intros Ha. assert (rising (length l) (at_list l (fun y => y ?= x))) as Hr.
  { intros i j Hij. unfold at_list. destruct (lookup_lt_is_Some_2 l i ltac:(lia)) as [a Hi].
    destruct (lookup_lt_is_Some_2 l j ltac:(lia)) as [b Hj]. rewrite Hi, Hj. specialize (Ha i j a b ltac:(lia) Hi Hj).
    destruct (Z.compare_spec a x), (Z.compare_spec b x); cbn; lia. }
  unfold found, binary_search, search. destruct (binary_search_by _ _) as [i|i] eqn:Hs.
  - apply (binary_search_found _ _ _ Hr) in Hs as [Hi He]. unfold at_list in He. destruct (l !! i) as [y|] eqn:Hy; [|done].
    apply Z.compare_eq in He as ->. split; [|done]. intros _. by eapply list_elem_of_lookup_2.
  - apply (binary_search_missed _ _ _ Hr) in Hs as (Hi&Hlt&Hgt). split; [done|]. intros (j&Hj)%list_elem_of_lookup_1.
    assert (at_list l (fun y => y ?= x) j = Eq) as He by (unfold at_list; by rewrite Hj, Z.compare_refl).
    destruct (decide (j < i)%nat) as [H|H]; [by rewrite (Hlt j H) in He|].
    apply lookup_lt_Some in Hj. by rewrite (Hgt j ltac:(lia)) in He.
Qed.
