(* ===== verification/Token.v ===== *)
(** * Tokenizers: their data ([token/mod.rs])

    A vocabulary with its tables, the text of each token, the lookup of
    merges and words in open-addressing tables, and the file a tokenizer is
    stored in. Words of 32 bits are kept as integers; an index past the end of
    a table panics. *)
From S2P Require Import Prelude Bytes Utf8 Search.

Definition NONE : Z := 2 ^ 32 - 1.
Definition META : Z := 1.
Definition BYTES : Z := 2.
Definition SPLIT : Z := 4.
Definition PREPEND : Z := 8.
Definition BYTE_LEVEL : Z := 16.
Definition CL100K : Z := 32.
Definition NFC : Z := 64.
Definition O200K : Z := 128.
Definition DIRECT : Z := 0x20000.
(** [b"TACHYTOK"]. *)
Definition TOK_MAGIC : list Z := [84; 65; 67; 72; 89; 84; 79; 75].

Record Tokenizer := mkTokenizer {
  flags : Z; unk : Z; offsets : list Z; t_text : list Z; special : list Z; t_bytes : list Z; chars : list Z;
  rare : list Z; joins : list Z; added : list Z; merges : list Z; words : list Z; frame : Z * Z;
}.
Definition has (t : Tokenizer) (flag : Z) : bool := negb (Z.land (flags t) flag =? 0).

(** ** The text of a token *)

(** [Tokenizer::len]; an empty [offsets] underflows. *)
Definition t_len (t : Tokenizer) : Z := wrap 64 (zlen (offsets t) - 1).
(** [Tokenizer::bytes]: nothing for an unknown token; offsets that are not in
    order, or past the text, panic. *)
Definition token_bytes {E} (t : Tokenizer) (id : Z) : outcome E (list Z) :=
  match zslice (offsets t) id (id + 2) with
  | Some [a; b] => or_panic (zslice (t_text t) a b)
  | _ => Ok []
  end.
Definition is_special (t : Tokenizer) (id : Z) : bool := found (special t) id.

(** A tokenizer whose tables are as [build] leaves them. *)
Record texts_ok (t : Tokenizer) : Prop := {
  offsets_up : ascending (offsets t);
  offsets_in : Forall (fun o => 0 <= o <= zlen (t_text t)) (offsets t);
  text_bytes_ok : bytes_ok (t_text t);
  specials_up : ascending (special t);
}.

(** The text of token [id], of a sound tokenizer. *)
Definition said_by (t : Tokenizer) (id : Z) : list Z := default [] (ok (@token_bytes unit t id)).
Lemma token_bytes_ok {E} t id : texts_ok t -> @token_bytes E t id = Ok (said_by t id) /\ bytes_ok (said_by t id).
Proof.
  intros Ht. unfold said_by, token_bytes. destruct (zslice (offsets t) id (id + 2)) as [l|] eqn:Hs; [|by split; [|constructor]].
  pose proof (zslice_len _ _ _ _ Hs) as Hl. apply zslice_Some in Hs as (Hi&Hle&Hl').
  destruct l as [|a [|b [|c l]]]; [by split; [|constructor]|by split; [|constructor]| |by split; [|constructor]]. clear Hl.
  assert (forall k x, [a; b] !! k = Some x -> offsets t !! (Z.to_nat id + k)%nat = Some x) as Hat.
  { intros k x Hx. rewrite Hl' in Hx. unfold ztake, zdrop in Hx. apply lookup_take_Some in Hx as [Hx _]. by rewrite lookup_drop in Hx. }
  pose proof (Hat 0%nat a eq_refl) as Ha. pose proof (Hat 1%nat b eq_refl) as Hb.
  assert (a <= b) by (eapply (offsets_up t Ht); [|exact Ha|exact Hb]; lia).
  pose proof (Forall_lookup_1 _ _ _ _ (offsets_in t Ht) Ha). pose proof (Forall_lookup_1 _ _ _ _ (offsets_in t Ht) Hb). cbn in *.
  assert (zslice (t_text t) a b = Some (ztake (b - a) (zdrop a (t_text t)))) as -> by (apply zslice_Some; split_and!; lia || done).
  split; [done|]. apply Forall_take, Forall_drop, (text_bytes_ok t Ht).
Qed.

(** ** Turning tokens back into text

    What the bytes at the front of a list are to [str::from_utf8]: a whole
    character of [n] bytes; [n] bytes that begin none ([error_len] is [n]); or
    the beginning of one, cut short. *)
Inductive front := Whole (n : nat) | Broken (n : nat) | Cut.
Definition third (l : list Z) : front :=
  match l with [] => Cut | b2 :: _ => if continuation b2 then Whole 3 else Broken 2 end.
Definition fourth (l : list Z) : front :=
  match l with
  | [] => Cut
  | b2 :: l => if continuation b2 then
                 match l with [] => Cut | b3 :: _ => if continuation b3 then Whole 4 else Broken 3 end
               else Broken 2
  end.
Definition utf8_front (b0 : Z) (l : list Z) : front :=
  if within 0 0x7F b0 then Whole 1
  else if within 0xC2 0xDF b0 then
    match l with [] => Cut | b1 :: _ => if continuation b1 then Whole 2 else Broken 1 end
  else if within 0xE0 0xEF b0 then
    match l with [] => Cut | b1 :: l => if second_ok b0 b1 then third l else Broken 1 end
  else if within 0xF0 0xF4 b0 then
    match l with [] => Cut | b1 :: l => if second_ok b0 b1 then fourth l else Broken 1 end
  else Broken 1.

(** [Utf8Error]: [valid_up_to] and [error_len]; [None] where all is valid. *)
Fixpoint utf8_error (fuel : nat) (l : list Z) : option (nat * option nat) :=
  match fuel, l with
  | O, _ | _, [] => None
  | S fuel, b0 :: l0 =>
      match utf8_front b0 l0 with
      | Whole n => (fun e => (n + fst e, snd e)%nat) <$> utf8_error fuel (drop n l)
      | Broken n => Some (O, Some n)
      | Cut => Some (O, None)
      end
  end.

(** [Detokenizer]: the bytes that are not a whole character yet. *)
Record Detokenizer := mkDetokenizer { pending : list Z }.
Definition fffd (n : nat) : list Z := concat (replicate n (encode_utf8 0xFFFD)).

(** The loop of [flush]: what is said, and what is left. *)
Fixpoint flush_from (fuel : nat) (rest : list Z) (end_ : bool) (out : list Z) : list Z * list Z :=
  match fuel with
  | O => (out, rest)
  | S fuel =>
      match utf8_error (length rest) rest with
      | None => (out ++ rest, [])
      | Some (v, e) =>
          let good := take v rest in let bad := drop v rest in
          match (match e with Some n => Some n | None => if end_ then Some (length bad) else None end) with
          | None => (out ++ good, bad)
          | Some n => flush_from fuel (drop n bad) end_ (out ++ good ++ fffd n)
          end
      end
  end.
Definition flush (d : Detokenizer) (end_ : bool) (out : list Z) : Detokenizer * list Z :=
  let '(out, rest) := flush_from (S (length (pending d))) (pending d) end_ out in
  (mkDetokenizer rest, out).

(** [Detokenizer::push] and [Detokenizer::finish]. *)
Definition detok_push (t : Tokenizer) (d : Detokenizer) (id : Z) (out : list Z) : result (Detokenizer * list Z) :=
  if is_special t id then Ok (d, out)
  else b ← token_bytes t id; Ok (flush (mkDetokenizer (pending d ++ b)) false out).
Definition detok_finish (d : Detokenizer) (out : list Z) : Detokenizer * list Z := flush d true out.

(** ** One pass over the bytes

    [speak l]: what a pass over [l] says, one sequence at a time, and the
    beginning of a character it ends with. *)
Fixpoint speak_from (fuel : nat) (l : list Z) : list Z * list Z :=
  match fuel, l with
  | O, _ => ([], l)
  | _, [] => ([], [])
  | S fuel, b0 :: l0 =>
      match utf8_front b0 l0 with
      | Whole n => let '(o, p) := speak_from fuel (drop n l) in (take n l ++ o, p)
      | Broken n => let '(o, p) := speak_from fuel (drop n l) in (fffd n ++ o, p)
      | Cut => ([], l)
      end
  end.
Definition speak (l : list Z) : list Z * list Z := speak_from (length l) l.

Lemma front_size b0 l n : utf8_front b0 l = Whole n \/ utf8_front b0 l = Broken n -> (1 <= n <= length (b0 :: l))%nat.
Proof.
  unfold utf8_front, third, fourth. repeat case_match; subst; cbn; intros [[= <-]|[= <-]]; lia.
Qed.
Lemma front_app b0 l k : utf8_front b0 l <> Cut -> utf8_front b0 (l ++ k) = utf8_front b0 l.
Proof.
  unfold utf8_front, third, fourth. destruct l as [|b1 [|b2 [|b3 l]]]; cbn [app]; repeat case_match; done.
Qed.
Lemma front_cut_small b0 l : utf8_front b0 l = Cut -> (length (b0 :: l) <= 3)%nat.
Proof.
  unfold utf8_front, third, fourth. destruct l as [|b1 [|b2 [|b3 l]]]; cbn [length]; try lia.
  intros H. exfalso. revert H. repeat case_match; congruence.
Qed.

Lemma speak_from_enough fuel l : (length l <= fuel)%nat -> speak_from fuel l = speak l.
Proof.
  unfold speak. revert fuel. induction l as [l IH] using list_len_ind. intros fuel Hf.
  destruct l as [|b0 l0]; [by destruct fuel|]. destruct fuel as [|fuel]; [cbn in Hf; lia|]. cbn [speak_from length].
  destruct (utf8_front b0 l0) as [n|n|] eqn:Hfr; [| |done]; pose proof (front_size b0 l0 n ltac:(auto)) as Hn;
    (assert (length (drop n (b0 :: l0)) < length (b0 :: l0))%nat by (rewrite length_drop; lia));
    cbn [length] in *; rewrite (IH (drop n (b0 :: l0))) by lia;
    rewrite <- (IH (drop n (b0 :: l0)) ltac:(lia) (length l0)) by lia; done.
Qed.
Lemma speak_cons b0 l0 : speak (b0 :: l0) =
  match utf8_front b0 l0 with
  | Whole n => let '(o, p) := speak (drop n (b0 :: l0)) in (take n (b0 :: l0) ++ o, p)
  | Broken n => let '(o, p) := speak (drop n (b0 :: l0)) in (fffd n ++ o, p)
  | Cut => ([], b0 :: l0)
  end.
Proof.
  unfold speak at 1. cbn [speak_from length]. destruct (utf8_front b0 l0) as [n|n|] eqn:Hfr; [| |done];
    pose proof (front_size b0 l0 n ltac:(auto)) as Hn;
    rewrite speak_from_enough by (rewrite length_drop; cbn [length]; lia); done.
Qed.

(** What was said is not said again: a pass goes on from what was left. *)
Lemma speak_app l k : speak (l ++ k) =
  let '(o, p) := speak l in let '(o', p') := speak (p ++ k) in (o ++ o', p').
Proof.
  induction l as [l IH] using list_len_ind. destruct l as [|b0 l0]; [change (speak []) with (@nil Z, @nil Z); cbn [app]; by destruct (speak k)|].
  rewrite (speak_cons b0 l0). cbn [app]. destruct (utf8_front b0 l0) as [n|n|] eqn:Hfr.
  - pose proof (front_size b0 l0 n ltac:(auto)) as Hn. rewrite speak_cons, front_app, Hfr by congruence.
    change (b0 :: l0 ++ k) with ((b0 :: l0) ++ k). rewrite drop_app_le, take_app_le by lia.
    rewrite IH by (rewrite length_drop; lia). destruct (speak (drop n (b0 :: l0))) as [o p]. destruct (speak (p ++ k)) as [o' p'].
    by rewrite <- app_assoc.
  - pose proof (front_size b0 l0 n ltac:(auto)) as Hn. rewrite speak_cons, front_app, Hfr by congruence.
    change (b0 :: l0 ++ k) with ((b0 :: l0) ++ k). rewrite drop_app_le by lia.
    rewrite IH by (rewrite length_drop; lia). destruct (speak (drop n (b0 :: l0))) as [o p]. destruct (speak (p ++ k)) as [o' p'].
    by rewrite <- app_assoc.
  - change (b0 :: l0 ++ k) with ((b0 :: l0) ++ k). by destruct (speak ((b0 :: l0) ++ k)).
Qed.

(** ** Flushing is one pass *)
Definition ends_with (end_ : bool) (r : list Z * list Z) : list Z * list Z :=
  let '(o, p) := r in if end_ then (o ++ fffd (length p), []) else (o, p).

(** [from_utf8] finds the first sequence that is not a character. *)
Lemma utf8_error_cons fuel b0 l0 : (length (b0 :: l0) <= fuel)%nat ->
  utf8_error fuel (b0 :: l0) =
  match utf8_front b0 l0 with
  | Whole n => (fun e => (n + fst e, snd e)%nat) <$> utf8_error (length (drop n (b0 :: l0))) (drop n (b0 :: l0))
  | Broken n => Some (O, Some n)
  | Cut => Some (O, None)
  end.
Proof.
  assert (forall l f g, (length l <= f)%nat -> (length l <= g)%nat -> utf8_error f l = utf8_error g l) as Hfuel.
  { clear. induction l as [l IH] using list_len_ind. intros f g Hf Hg. destruct l as [|b0 l0]; [by destruct f, g|].
    destruct f as [|f]; [cbn in Hf; lia|]. destruct g as [|g]; [cbn in Hg; lia|]. cbn [utf8_error].
    destruct (utf8_front b0 l0) as [n|n|] eqn:Hfr; [|done|done]. pose proof (front_size b0 l0 n ltac:(auto)) as Hn. cbn [length] in *.
    rewrite (IH (drop n (b0 :: l0)) ltac:(rewrite length_drop; cbn [length]; lia) f g); [done| |]; rewrite length_drop; cbn [length]; lia. }
  intros Hf. destruct fuel as [|fuel]; [cbn in Hf; lia|]. cbn [utf8_error]. destruct (utf8_front b0 l0) as [n|n|] eqn:Hfr; [|done|done].
  pose proof (front_size b0 l0 n ltac:(auto)) as Hn. cbn [length] in *. f_equal. apply Hfuel; rewrite length_drop; cbn [length]; lia.
Qed.

(** What [from_utf8] says of a list, next to a pass over it. *)
Lemma speak_error l :
  match utf8_error (length l) l with
  | None => speak l = (l, [])
  | Some (v, e) => (v <= length l)%nat /\ drop v l <> [] /\
      match e with
      | None => speak l = (take v l, drop v l)
      | Some n => (1 <= n)%nat /\ speak l = let '(o, p) := speak (drop n (drop v l)) in (take v l ++ fffd n ++ o, p)
      end
  end.
Proof.
  induction l as [l IH] using list_len_ind. destruct l as [|b0 l0]; [done|].
  rewrite utf8_error_cons, speak_cons by done. destruct (utf8_front b0 l0) as [n|n|] eqn:Hfr.
  - pose proof (front_size b0 l0 n ltac:(auto)) as Hn. specialize (IH (drop n (b0 :: l0)) ltac:(rewrite length_drop; lia)).
    destruct (utf8_error _ (drop n (b0 :: l0))) as [[v e]|]; cbn [fmap option_fmap option_map fst snd].
    + destruct IH as (Hv&Hne&He). rewrite length_drop in Hv. split; [lia|]. rewrite drop_drop in Hne. split; [done|].
      destruct e as [k|].
      * destruct He as [Hk ->]. split; [done|]. rewrite <- (drop_drop (b0 :: l0) v n).
        destruct (speak (drop k (drop v (drop n (b0 :: l0))))) as [o p].
        rewrite <- (take_take_drop (b0 :: l0) n v), <- app_assoc. done.
      * rewrite He, drop_drop. by rewrite <- (take_take_drop (b0 :: l0) n v).
    + rewrite IH. by rewrite take_drop.
  - pose proof (front_size b0 l0 n ltac:(auto)) as Hn. split; [lia|]. split; [done|]. cbn [take drop app]. split; [lia|done].
  - split; [lia|]. split; [done|]. done.
Qed.

Lemma flush_from_speaks fuel l end_ out : (length l < fuel)%nat ->
  flush_from fuel l end_ out = let '(o, p) := ends_with end_ (speak l) in (out ++ o, p).
Proof.
  revert l out. induction fuel as [|fuel IH]; intros l out Hf; [lia|]. cbn [flush_from].
  pose proof (speak_error l) as Hs. destruct (utf8_error (length l) l) as [[v e]|].
  - destruct Hs as (Hv&Hne&He). destruct e as [n|].
    + destruct He as [Hn ->]. rewrite IH.
      * destruct (speak (drop n (drop v l))) as [o p]. unfold ends_with. destruct end_; by rewrite <- !app_assoc.
      * rewrite !length_drop. destruct (drop v l) eqn:Hd; [done|]. apply (f_equal length) in Hd. rewrite length_drop in Hd. cbn in Hd. lia.
    + rewrite He. destruct end_; [|done]. rewrite drop_all.
      destruct fuel as [|fuel]; [|cbn; by rewrite app_nil_r]. destruct l; cbn in Hf; [by destruct v|lia].
  - rewrite Hs. unfold ends_with. destruct end_; [cbn; by rewrite app_nil_r|done].
Qed.
Lemma flush_speaks d end_ out : flush d end_ out = let '(o, p) := ends_with end_ (speak (pending d)) in (mkDetokenizer p, out ++ o).
Proof. unfold flush. rewrite flush_from_speaks by lia. by destruct (ends_with end_ (speak (pending d))). Qed.

(** ** What is said is text *)
Lemma utf8_valid_app a b : utf8_valid a -> utf8_valid b -> utf8_valid (a ++ b).
Proof.
  intros [cs Ha] [ds Hb]. apply utf8_chars_sound in Ha as [<- Hcs]. apply utf8_chars_sound in Hb as [<- Hds].
  rewrite <- utf8_of_app. eexists. apply utf8_chars_of. by apply Forall_app.
Qed.
Lemma utf8_valid_nil : utf8_valid [].
Proof. by eexists. Qed.
Lemma fffd_valid n : utf8_valid (fffd n).
Proof. induction n as [|n IH]; [apply utf8_valid_nil|]. apply utf8_valid_app; [by eexists|done]. Qed.

Lemma front_whole_valid b0 l n : utf8_front b0 l = Whole n -> utf8_valid (take n (b0 :: l)).
Proof.
  unfold utf8_front, third, fourth, utf8_valid.
  destruct (within 0 0x7F b0) eqn:H0; [intros [= <-]; cbn; rewrite H0; by eexists|].
  destruct (within 0xC2 0xDF b0) eqn:H1.
  { destruct l as [|b1 l]; [done|]. destruct (continuation b1) eqn:Hc; [|done]. intros [= <-]. cbn. rewrite H0, H1, Hc. by eexists. }
  destruct (within 0xE0 0xEF b0) eqn:H2.
  { destruct l as [|b1 [|b2 l]]; [done|by destruct (second_ok b0 b1)|]. destruct (second_ok b0 b1) eqn:Hs; [|done].
    destruct (continuation b2) eqn:Hc; [|done]. intros [= <-]. cbn. rewrite H0, H1, H2, Hs, Hc. by eexists. }
  destruct (within 0xF0 0xF4 b0) eqn:H3; [|done].
  destruct l as [|b1 [|b2 [|b3 l]]]; [done|by destruct (second_ok b0 b1)|by destruct (second_ok b0 b1), (continuation b2)|].
  destruct (second_ok b0 b1) eqn:Hs; [|done]. destruct (continuation b2) eqn:Hc; [|done]. destruct (continuation b3) eqn:Hd; [|done].
  intros [= <-]. cbn. rewrite H0, H1, H2, H3, Hs, Hc, Hd. by eexists.
Qed.

Lemma speak_valid l : utf8_valid (fst (speak l)).
Proof.
  induction l as [l IH] using list_len_ind. destruct l as [|b0 l0]; [apply utf8_valid_nil|]. rewrite speak_cons.
  destruct (utf8_front b0 l0) as [n|n|] eqn:Hfr; [| |apply utf8_valid_nil]; pose proof (front_size b0 l0 n ltac:(auto)) as Hn;
    specialize (IH (drop n (b0 :: l0)) ltac:(rewrite length_drop; lia)); destruct (speak (drop n (b0 :: l0))) as [o p]; cbn in IH |- *;
    apply utf8_valid_app; [by apply front_whole_valid|done|apply fffd_valid|done].
Qed.

(** A text is said as it is. *)
Lemma speak_text l : utf8_valid l -> speak l = (l, []).
Proof.
  induction l as [l IH] using list_len_ind. destruct l as [|b0 l0]; [done|]. rewrite speak_cons. unfold utf8_valid in *. cbn [utf8_chars].
  unfold utf8_front, third, fourth. destruct (within 0 0x7F b0).
  { rewrite fmap_is_Some. intros H. cbn [skipn firstn]; rewrite drop_0. by rewrite (IH l0 ltac:(cbn; lia) H). }
  destruct (within 0xC2 0xDF b0).
  { destruct l0 as [|b1 l1]; [by intros []|]. destruct (continuation b1); [|by intros []].
    rewrite fmap_is_Some. intros H. cbn [skipn firstn]; rewrite drop_0. by rewrite (IH l1 ltac:(cbn; lia) H). }
  destruct (within 0xE0 0xEF b0).
  { destruct l0 as [|b1 [|b2 l2]]; [by intros []..|]. destruct (second_ok b0 b1), (continuation b2); try by intros [].
    cbn [andb]. rewrite fmap_is_Some. intros H. cbn [skipn firstn]; rewrite drop_0. by rewrite (IH l2 ltac:(cbn; lia) H). }
  destruct (within 0xF0 0xF4 b0); [|by intros []]. destruct l0 as [|b1 [|b2 [|b3 l3]]]; [by intros []..|].
  destruct (second_ok b0 b1), (continuation b2), (continuation b3); try by intros [].
  cbn [andb]. rewrite fmap_is_Some. intros H. cbn [skipn firstn]; rewrite drop_0. by rewrite (IH l3 ltac:(cbn; lia) H).
Qed.
