(* ===== verification/Speak.v ===== *)
(** * The detokenizer says what its tokens are ([token/mod.rs])

    The engine asks its text of a [Detok]; the one it has is [Detokenizer],
    over the tokenizer of each model. *)
From S2P Require Import Prelude Bytes Utf8 Search Engine Calls Token.

Section Speak.
Context (tok : list Z -> Tokenizer).

(** [Detokenizer], as the engine uses it: its text starts empty each time. *)
Definition push_text (dir : list Z) (d : Detokenizer) (id : Z) : Detokenizer * list Z :=
  match detok_push (tok dir) d id [] with Ok r => r | _ => (d, []) end.
Lemma detok_finish_finish d : snd (detok_finish (fst (detok_finish d [])) []) = [].
Proof. unfold detok_finish. rewrite !flush_speaks. unfold ends_with. by destruct (speak (pending d)) as [o p]. Qed.
#[global] Instance detokenizer : Detok Detokenizer := {|
  detok_new := mkDetokenizer [];
  push := push_text;
  finish d := detok_finish d [];
  finish_finish := detok_finish_finish;
|}.

(** The bytes of some tokens, special ones aside. *)
Definition bytes_of (dir : list Z) (ts : list Z) : list Z :=
  concat (map (said_by (tok dir)) (filter (fun t => is_special (tok dir) t = false) ts)).

Lemma push_speaks dir d id : texts_ok (tok dir) ->
  push_text dir d id = let '(o, p) := speak (pending d ++ bytes_of dir [id]) in
                       if is_special (tok dir) id then (d, []) else (mkDetokenizer p, o).
Proof.
  intros Hok. unfold push_text, detok_push, bytes_of. rewrite filter_cons. destruct (is_special (tok dir) id); cbn [decide decide_rel].
  - case_decide; [done|]. by destruct (speak (pending d ++ _)).
  - case_decide; [|done]. cbn [map concat filter list_filter]. rewrite app_nil_r.
    destruct (@token_bytes_ok error (tok dir) id Hok) as [-> _]. cbn [mbind outcome_bind]. rewrite flush_speaks. cbn [ends_with pending app].
    by destruct (speak _).
Qed.

(** A detokenizer between two tokens: nothing more of [pending] can be said. *)
Definition settled (d : Detokenizer) : Prop := speak (pending d) = ([], pending d).

Lemma speak_settled l : speak (snd (speak l)) = ([], snd (speak l)).
Proof.
  induction l as [l IH] using list_len_ind. destruct l as [|b0 l0]; [done|]. rewrite speak_cons.
  destruct (utf8_front b0 l0) as [n|n|] eqn:Hfr.
  1,2: pose proof (front_size b0 l0 n ltac:(auto)) as Hn; specialize (IH (drop n (b0 :: l0)) ltac:(rewrite length_drop; lia));
       by destruct (speak (drop n (b0 :: l0))) as [o p].
  cbn [snd]. by rewrite speak_cons, Hfr.
Qed.

(** Saying tokens is one pass over their bytes. *)
Lemma say_speaks dir ts d : texts_ok (tok dir) -> settled d ->
  say dir d ts = let '(o, p) := speak (pending d ++ bytes_of dir ts) in (mkDetokenizer p, o).
Proof.
  intros Hok. revert d. induction ts as [|t ts IH]; intros d Hd; cbn [say].
  { unfold bytes_of. cbn. rewrite app_nil_r, Hd. by destruct d. }
  change (push dir d t) with (push_text dir d t). rewrite push_speaks by done.
  assert (bytes_of dir (t :: ts) = bytes_of dir [t] ++ bytes_of dir ts) as ->.
  { change (t :: ts) with ([t] ++ ts). unfold bytes_of. by rewrite filter_app, map_app, concat_app. }
  rewrite app_assoc, (speak_app (pending d ++ bytes_of dir [t])). destruct (is_special (tok dir) t) eqn:Hs.
  - assert (bytes_of dir [t] = []) as -> by (unfold bytes_of; rewrite filter_cons, Hs; by case_decide).
    rewrite app_nil_r, Hd. cbv beta iota. rewrite IH by done. by destruct (speak _).
  - pose proof (speak_settled (pending d ++ bytes_of dir [t])) as Hset. destruct (speak (pending d ++ bytes_of dir [t])) as [o p].
    cbv beta iota. rewrite IH by exact Hset. cbn [pending]. by destruct (speak (p ++ bytes_of dir ts)).
Qed.
End Speak.

(** What bytes are as text, an unfinished or broken sequence as one U+FFFD a
    byte. *)
Definition spoken (l : list Z) : list Z := fst (ends_with true (speak l)).

(** A sample tokenizer: its tokens are "h", "é"'s two bytes and a turn mark. *)
Definition sample_tokenizer : Tokenizer :=
  mkTokenizer BYTES NONE [0; 1; 2; 3; 6] [104; 195; 169; 60; 47; 62] [3] [] [] [] [] [] [] [] (NONE, NONE).
Lemma sample_texts_ok : texts_ok sample_tokenizer.
Proof.
  split.
  - intros i j x y Hij Hx Hy. do 5 (destruct i as [|i]; [do 5 (destruct j as [|j]; [cbn in *; simplify_eq; lia|]); done|]). done.
  - do 5 (constructor; [vm_compute; split; discriminate|]). constructor.
  - do 6 (constructor; [vm_compute; split; [discriminate|reflexivity]|]). constructor.
  - intros [|i] [|j] x y Hij Hx Hy; cbn in *; simplify_eq; lia.
Qed.

(** C22. Text comes back as it comes: however the tokens are fed, what the
    detokenizer says in all is what their bytes are as text, special tokens
    aside; bytes that are UTF-8 come back exactly; and each piece on its own
    is whole characters. *)
Theorem detokenizer_says_the_bytes (tok : list Z -> Tokenizer) dir ts :
  texts_ok (tok dir) ->
  let full := @full_text Detokenizer (detokenizer tok) dir (mkDetokenizer []) ts in
  full = spoken (bytes_of tok dir ts)
  /\ (utf8_valid (bytes_of tok dir ts) -> full = bytes_of tok dir ts)
  /\ forall pre t post, ts = pre ++ t :: post ->
       utf8_valid (snd (push_text tok dir (fst (@say Detokenizer (detokenizer tok) dir (mkDetokenizer []) pre)) t)).
Proof.
  intros Hok full. assert (full = spoken (bytes_of tok dir ts)) as Hfull.
  { unfold full, full_text. rewrite say_speaks by done. cbn [pending app]. destruct (speak (bytes_of tok dir ts)) as [o p] eqn:Hsp.
    cbn [finish detokenizer]. unfold detok_finish. rewrite flush_speaks. unfold spoken. rewrite Hsp. cbn [pending].
    pose proof (speak_settled (bytes_of tok dir ts)) as Hset. rewrite Hsp in Hset. cbn [snd] in Hset. by rewrite Hset. }
  split; [done|]. split.
  - intros Hv. rewrite Hfull. unfold spoken. rewrite (speak_text _ Hv). cbn. apply app_nil_r.
  - intros pre t post _. rewrite push_speaks by done.
    pose proof (speak_valid (pending (fst (@say Detokenizer (detokenizer tok) dir (mkDetokenizer []) pre)) ++ bytes_of tok dir [t])) as Hv.
    destruct (speak (_ ++ bytes_of tok dir [t])) as [o p]. destruct (is_special _ t); [apply utf8_valid_nil|exact Hv].
Qed.
Lemma detokenizer_says_the_bytes_witness :
  @full_text Detokenizer (detokenizer (fun _ => sample_tokenizer)) [] (mkDetokenizer []) [0; 1; 2; 3] = [104; 195; 169].
Proof.
  apply (proj1 (proj2 (detokenizer_says_the_bytes (fun _ => sample_tokenizer) [] [0; 1; 2; 3] sample_texts_ok))).
  by apply is_text_valid.
Defined.
