(* ===== verification/Bpe.v ===== *)
(** * Merging ([token/mod.rs], [merge_all])

    Byte-pair merging as the tokenizer does it: the symbols in an array with
    links to the live neighbours, the merges' keys in a tournament tree; and
    as it is meant: the leftmost of the lowest-ranked pairs of neighbours
    merges, until none does. The two give the same tokens. What a pair merges
    into is asked of a [merge] function, the lookup in the table of merges. *)
From S2P Require Import Prelude Token.

Definition idx {A} (l : list A) (i : nat) : outcome unit A := or_panic (l !! i).
Definition upd {A} (l : list A) (i : nat) (x : A) : outcome unit (list A) :=
  if (i <? length l)%nat then Ok (<[i := x]> l) else Panic.

Definition U64_MAX : Z := 2 ^ 64 - 1.

(** [Work]: the buffers of a merge. *)
Record Work := mkWork { ids : list Z; next : list Z; prev : list Z; tree : list Z; merged : list Z }.
Definition set_ids (w : Work) (x : list Z) : Work := mkWork x (next w) (prev w) (tree w) (merged w).
Definition set_next (w : Work) (x : list Z) : Work := mkWork (ids w) x (prev w) (tree w) (merged w).
Definition set_prev (w : Work) (x : list Z) : Work := mkWork (ids w) (next w) x (tree w) (merged w).
Definition set_tree (w : Work) (x : list Z) : Work := mkWork (ids w) (next w) (prev w) x (merged w).
Definition set_merged (w : Work) (x : list Z) : Work := mkWork (ids w) (next w) (prev w) (tree w) x.

(** The loop of [Work::set], up from node [k]. *)
Definition sibling (k : nat) : nat := if Nat.even k then S k else pred k.
Fixpoint sift (fuel : nat) (t : list Z) (k : nat) : outcome unit (list Z) :=
  match fuel with
  | O => Ok t
  | S fuel =>
      if (1 <? k)%nat then
        a ← idx t k; b ← idx t (sibling k);
        let least := Z.min a b in
        let k := Nat.div2 k in
        old ← idx t k;
        t ← upd t k least;
        if old =? least then Ok t else sift fuel t k
      else Ok t
  end.
(** [Work::set]. *)
Definition set (w : Work) (i : nat) (key m : Z) : outcome unit Work :=
  me ← upd (merged w) i m;
  let k := (Nat.div2 (length (tree w)) + i)%nat in
  t ← upd (tree w) k key;
  t ← sift (S k) t k;
  Ok (set_tree (set_merged w me) t).

Section Work.
Context (merge : Z -> Z -> outcome unit (option (Z * Z))).

(** [after]: the merge of symbol [i] with the next one. *)
Definition key_of (rank i : Z) : Z := Z.lor (Z.shiftl rank 32) i.
Definition after (w : Work) (i : Z) : outcome unit (Z * Z) :=
  let a := zget (ids w) i in
  let b := zget (next w) i ≫= zget (ids w) in
  x ← (match a, b with Some a, Some b => merge a b | _, _ => Ok None end);
  let '(rank, m) := default (NONE, NONE) x in
  Ok (key_of rank i, m).

(** The first keys: one for each two neighbours. *)
Fixpoint first_keys (i half : nat) (l : list Z) (t me : list Z) : outcome unit (list Z * list Z) :=
  match l with
  | a :: (b :: _) as l =>
      x ← merge a b;
      let '(rank, m) := default (NONE, NONE) x in
      t ← upd t (half + i)%nat (key_of rank (Z.of_nat i));
      first_keys (S i) half l t (me ++ [m])
  | _ => Ok (t, me)
  end.
(** [for k in (1..half).rev()]: the least of its two, for each node. *)
Fixpoint build_tree (k : nat) (t : list Z) : outcome unit (list Z) :=
  match k with
  | O | 1%nat => Ok t
  | S k => a ← idx t (2 * k); b ← idx t (2 * k + 1); t ← upd t k (Z.min a b); build_tree k t
  end.

(** One merge: symbol [i] and the next become one. *)
Definition merge_step (n : Z) (w : Work) (i : nat) : outcome unit Work :=
  j ← idx (next w) i;
  m ← idx (merged w) i;
  nj ← idx (next w) (Z.to_nat j);
  x ← upd (ids w) i m;
  x ← upd x (Z.to_nat j) NONE;
  nx ← upd (next w) i nj;
  let w := set_next (set_ids w x) nx in
  let w := match zget (prev w) nj with
           | Some _ => set_prev w (<[Z.to_nat nj := Z.of_nat i]> (prev w))
           | None => w
           end in
  w ← set w (Z.to_nat j) U64_MAX NONE;
  p ← idx (prev w) i;
  w ← (if p <? n then '(key, m) ← after w p; set w (Z.to_nat p) key m else Ok w);
  if Z.of_nat i <? n then '(key, m) ← after w (Z.of_nat i); set w i key m else Ok w.

(** The loop: while the least key is a merge's. *)
Fixpoint merge_loop (fuel : nat) (n : Z) (w : Work) : outcome unit Work :=
  top ← idx (tree w) 1;
  if Z.shiftr top 32 =? NONE then Ok w
  else match fuel with
       | O => Panic
       | S fuel => w ← merge_step n w (Z.to_nat (wrap 32 top)); merge_loop fuel n w
       end.

Fixpoint pow2_from (fuel n p : nat) : nat :=
  match fuel with O => p | S fuel => if (p <? n)%nat then pow2_from fuel n (2 * p) else p end.
(** [next_power_of_two]. *)
Definition next_power_of_two (n : nat) : nat := pow2_from n n 1.

(** The buffers at the start of a merge. *)
Definition work_of (symbols : list Z) : outcome unit Work :=
  let n := length symbols in
  let half := next_power_of_two n in
  let t := replicate (2 * half) U64_MAX in
  '(t, me) ← first_keys 0 half symbols t [];
  t ← build_tree half t;
  Ok (mkWork symbols (map Z.of_nat (seq 1 n)) (map (fun i => wrap 32 (Z.of_nat i - 1)) (seq 0 n)) t (me ++ [NONE])).

(** [merge_all], from its symbols. *)
Definition live (id : Z) : bool := negb (id =? NONE).
Definition merge_all (symbols : list Z) : outcome unit (list Z) :=
  w ← work_of symbols;
  w ← merge_loop (length symbols) (zlen symbols) w;
  Ok (List.filter live (ids w)).
End Work.

(** ** Merging as it is meant *)
Section Merge.
Context (merge : Z -> Z -> option (Z * Z)).

(** The pairs of neighbours that merge, each with its rank, its place and
    what it becomes. *)
Fixpoint pairs_from (k : nat) (l : list Z) : list (Z * nat * Z) :=
  match l with
  | a :: (b :: _) as l =>
      match merge a b with
      | Some (r, m) => (r, k, m) :: pairs_from (S k) l
      | None => pairs_from (S k) l
      end
  | _ => []
  end.
(** The lowest-ranked pair, the leftmost of them. *)
Fixpoint lowest (l : list (Z * nat * Z)) : option (nat * Z * Z) :=
  match l with
  | [] => None
  | (r, k, m) :: l =>
      match lowest l with
      | Some (k', r', m') => if r' <? r then Some (k', r', m') else Some (k, r, m)
      | None => Some (k, r, m)
      end
  end.
Fixpoint bpe (fuel : nat) (l : list Z) : list Z :=
  match fuel with
  | O => l
  | S fuel =>
      match lowest (pairs_from 0 l) with
      | Some (k, _, m) => bpe fuel (take k l ++ m :: drop (k + 2) l)
      | None => l
      end
  end.
End Merge.
