(* ===== verification/Tournament.v ===== *)
(** * The tournament tree of a merge ([token/mod.rs], [Work::set])

    Each inner node is the least of its two; the root is then the least leaf,
    and setting a leaf keeps it so, even where the walk up stops early. *)
From S2P Require Import Prelude Token Bpe.

Definition tget (t : list Z) (k : nat) : Z := default 0 (t !! k).
Definition node_ok (t : list Z) (k : nat) : Prop := tget t k = Z.min (tget t (2 * k)) (tget t (2 * k + 1)).
Record heap_but (half : nat) (t : list Z) (q : nat) : Prop := {
  heap_len : length t = (2 * half)%nat;
  heap_nodes : forall k, (1 <= k < half)%nat -> k <> q -> node_ok t k;
}.
Definition heap (half : nat) (t : list Z) : Prop := heap_but half t 0.

Lemma tget_idx t k : (k < length t)%nat -> idx t k = Ok (tget t k).
Proof. intros Hk. unfold idx, tget. by destruct (lookup_lt_is_Some_2 t k Hk) as [x ->]. Qed.
Lemma upd_ok {A} (l : list A) i x : (i < length l)%nat -> upd l i x = Ok (<[i := x]> l).
Proof. intros Hi. unfold upd. by destruct (Nat.ltb_spec i (length l)); [|lia]. Qed.
Lemma tget_insert t k x j : (k < length t)%nat -> tget (<[k := x]> t) j = if Nat.eqb j k then x else tget t j.
Proof.
  intros Hk. unfold tget. destruct (Nat.eqb_spec j k) as [->|Hne]; [by rewrite list_lookup_insert_eq|by rewrite list_lookup_insert_ne].
Qed.

Lemma halves k : k = (2 * Nat.div2 k + (if Nat.even k then 0 else 1))%nat.
Proof.
  pose proof (Nat.div2_odd k) as H. rewrite <- Nat.negb_even in H. destruct (Nat.even k); cbn [Nat.b2n negb] in H; lia.
Qed.
Lemma sibling_spec k : let q := Nat.div2 k in
  (k = 2 * q /\ sibling k = 2 * q + 1)%nat \/ (k = 2 * q + 1 /\ sibling k = 2 * q)%nat.
Proof. cbv zeta. pose proof (halves k). unfold sibling. destruct (Nat.even k); lia. Qed.

(** The least of a node's two, written to it. *)
Lemma heap_write half t q :
  heap_but half t q -> (1 <= q < half)%nat ->
  let t' := <[q := Z.min (tget t (2 * q)) (tget t (2 * q + 1))]> t in
  heap_but half t' (Nat.div2 q) /\ (forall l, (half <= l)%nat -> tget t' l = tget t l)
  /\ (tget t q = Z.min (tget t (2 * q)) (tget t (2 * q + 1)) -> heap half t').
Proof.
  intros [Hlen Hok] Hq t'. assert (q < length t)%nat as Hin by lia. pose proof (halves q) as Hh.
  assert (length t' = 2 * half)%nat as Hlen' by (unfold t'; by rewrite length_insert).
  assert (forall k, tget t' k = if Nat.eqb k q then Z.min (tget t (2 * q)) (tget t (2 * q + 1)) else tget t k) as Hget
    by (intros k; by apply tget_insert).
  assert (node_ok t' q) as Hnode.
  { unfold node_ok. rewrite !Hget, Nat.eqb_refl. destruct (Nat.eqb_spec (2 * q) q); [lia|]. destruct (Nat.eqb_spec (2 * q + 1) q); [lia|done]. }
  split; [split; [done|]|split].
  - intros k Hk Hne. destruct (decide (k = q)) as [->|Hkq]; [done|]. specialize (Hok k Hk Hkq). unfold node_ok in *. rewrite !Hget.
    destruct (Nat.eqb_spec k q); [lia|]. destruct (Nat.eqb_spec (2 * k) q); [destruct (Nat.even q); lia|].
    destruct (Nat.eqb_spec (2 * k + 1) q); [destruct (Nat.even q); lia|]. done.
  - intros l Hl. rewrite Hget. destruct (Nat.eqb_spec l q); [lia|done].
  - intros Hsame. split; [done|]. intros k Hk _. destruct (decide (k = q)) as [->|Hkq]; [done|]. specialize (Hok k Hk Hkq).
    assert (forall j, tget t' j = tget t j) as Heq by (intros j; rewrite Hget; destruct (Nat.eqb_spec j q); congruence).
    unfold node_ok in *. by rewrite !Heq.
Qed.

Lemma sift_heap half fuel t k :
  (1 <= k < 2 * half)%nat -> heap_but half t (Nat.div2 k) -> (k <= fuel)%nat ->
  exists t', sift fuel t k = Ok t' /\ heap half t' /\ forall l, (half <= l)%nat -> tget t' l = tget t l.
Proof.
  revert t k. induction fuel as [|fuel IH]; intros t k Hk Hh Hf; [lia|]. cbn [sift].
  pose proof (heap_len _ _ _ Hh) as Hlen.
  destruct (Nat.ltb_spec 1 k) as [Hlt|Hle].
  - pose proof (halves k) as Hhalf. pose proof (sibling_spec k) as Hs. cbv zeta in Hs. set (q := Nat.div2 k) in *.
    assert (1 <= q < half)%nat as Hq by (destruct (Nat.even k); lia).
    rewrite !tget_idx by lia. cbn [mbind outcome_bind]. rewrite upd_ok by lia. cbn [mbind outcome_bind].
    assert (Z.min (tget t k) (tget t (sibling k)) = Z.min (tget t (2 * q)) (tget t (2 * q + 1))) as ->
      by (clearbody q; destruct Hs as [[Hk2 Hs2]|[Hk2 Hs2]]; rewrite Hs2, <- Hk2; [done|apply Z.min_comm]).
    destruct (heap_write half t q Hh Hq) as (Hbut&Hleaf&Hsame). destruct (Z.eqb_spec (tget t q) (Z.min (tget t (2 * q)) (tget t (2 * q + 1)))).
    + eexists. split; [done|]. auto.
    + destruct (IH _ q ltac:(lia) Hbut ltac:(lia)) as (t'&Hr&Hheap&Hl). exists t'. split; [done|]. split; [done|].
      intros l Hlge. by rewrite Hl, Hleaf.
  - assert (k = 1%nat) as -> by lia. exists t. split; [done|]. split; [exact Hh|done].
Qed.

(** [set]: one leaf and what it merges into change. *)
Lemma set_spec half w i key m :
  heap half (tree w) -> (i < half)%nat -> (i < length (merged w))%nat ->
  exists w', set w i key m = Ok w' /\ ids w' = ids w /\ next w' = next w /\ prev w' = prev w
    /\ merged w' = <[i := m]> (merged w) /\ heap half (tree w')
    /\ forall l, (l < half)%nat -> tget (tree w') (half + l) = if Nat.eqb l i then key else tget (tree w) (half + l).
Proof.
  intros Hh Hi Hm. pose proof (heap_len _ _ _ Hh) as Hlen. unfold set. rewrite (upd_ok (merged w)) by done. cbn [mbind outcome_bind].
  assert (Nat.div2 (length (tree w)) = half) as -> by (rewrite Hlen; apply Nat.div2_double).
  rewrite (upd_ok (tree w)) by lia. cbn [mbind outcome_bind]. set (t := <[(half + i)%nat := key]> (tree w)).
  assert (heap_but half t (Nat.div2 (half + i))) as Ht.
  { split; [unfold t; by rewrite length_insert|]. intros k Hk Hne. pose proof (halves (half + i)) as Hd.
    pose proof (heap_nodes _ _ _ Hh k Hk ltac:(lia)) as Hn. unfold node_ok, t in *. rewrite !tget_insert by lia.
    destruct (Nat.eqb_spec k (half + i)); [lia|].
    destruct (Nat.eqb_spec (2 * k) (half + i)); [destruct (Nat.even (half + i)); lia|].
    destruct (Nat.eqb_spec (2 * k + 1) (half + i)); [destruct (Nat.even (half + i)); lia|]. done. }
  destruct (sift_heap half (S (half + i)) t (half + i) ltac:(lia) Ht ltac:(lia)) as (t'&Hs&Hheap&Hleaf).
  rewrite Hs. eexists. split; [done|]. split_and!; try done. intros l Hl. cbn [tree set_tree].
  rewrite Hleaf by lia. unfold t. rewrite tget_insert by lia. destruct (Nat.eqb_spec l i), (Nat.eqb_spec (half + l) (half + i)); lia || done.
Qed.

(** The root is the least leaf. *)
Lemma heap_least half t l : heap half t -> (half <= l < 2 * half)%nat -> tget t 1 <= tget t l.
Proof.
  intros Hh Hl. assert (forall k, (1 <= k < 2 * half)%nat -> tget t 1 <= tget t k) as H; [|apply H; lia].
  intros k. induction k as [k IH] using (well_founded_induction lt_wf). intros Hk.
  destruct (decide (k = 1%nat)) as [->|Hne]; [done|]. pose proof (halves k) as Hd. set (q := Nat.div2 k) in *.
  assert (1 <= q < half)%nat as Hq by (destruct (Nat.even k); lia). etrans; [apply (IH q); lia|].
  pose proof (heap_nodes _ _ _ Hh q Hq ltac:(lia)) as Hn. unfold node_ok in Hn. rewrite Hn, Hd.
  destruct (Nat.even k); [rewrite Nat.add_0_r|]; lia.
Qed.
Lemma heap_attained half t : heap half t -> (1 <= half)%nat -> exists l, (l < half)%nat /\ tget t (half + l) = tget t 1.
Proof.
  intros Hh Hhalf.
  assert (forall d k, (2 * half - k <= d)%nat -> (1 <= k < 2 * half)%nat -> exists l, (l < half)%nat /\ tget t (half + l) = tget t k) as H.
  { intros d. induction d as [|d IH]; intros k Hd Hk; [lia|]. destruct (decide (k < half)%nat) as [Hlt|Hge].
    - pose proof (heap_nodes _ _ _ Hh k ltac:(lia) ltac:(lia)) as Hn. unfold node_ok in Hn.
      destruct (Z.min_spec (tget t (2 * k)) (tget t (2 * k + 1))) as [[_ Hm]|[_ Hm]]; rewrite Hn, Hm; apply IH; lia.
    - exists (k - half)%nat. split; [lia|]. f_equal. lia. }
  apply (H (2 * half)%nat); lia.
Qed.

(** Building the tree over its leaves. *)
Lemma build_tree_heap half k t :
  (k <= half)%nat -> length t = (2 * half)%nat -> (forall q, (k <= q < half)%nat -> node_ok t q) ->
  exists t', build_tree k t = Ok t' /\ heap half t' /\ forall l, (half <= l)%nat -> tget t' l = tget t l.
Proof.
  revert t. induction k as [|k IH]; intros t Hk Hlen Hok.
  { exists t. split; [done|]. split; [|done]. split; [done|]. intros q Hq _. apply Hok. lia. }
  destruct k as [|k].
  { exists t. split; [done|]. split; [|done]. split; [done|]. intros q Hq _. apply Hok. lia. }
  set (q := S k) in *. change (build_tree (S q) t) with
    (a ← idx t (2 * q); b ← idx t (2 * q + 1); t ← upd t q (Z.min a b); build_tree q t).
  rewrite !tget_idx by lia. cbn [mbind outcome_bind]. rewrite upd_ok by lia. cbn [mbind outcome_bind].
  set (t1 := <[q := _]> t).
  assert (forall j, tget t1 j = if Nat.eqb j q then Z.min (tget t (2 * q)) (tget t (2 * q + 1)) else tget t j) as Hget
    by (intros j; unfold t1; apply tget_insert; lia).
  destruct (IH t1) as (t'&Hb&Hh&Hl).
  - lia.
  - unfold t1. by rewrite length_insert.
  - intros p Hp. unfold node_ok. rewrite !Hget. destruct (Nat.eqb_spec (2 * p) q); [lia|]. destruct (Nat.eqb_spec (2 * p + 1) q); [lia|].
    destruct (Nat.eqb_spec p q) as [->|]; [done|]. apply Hok. lia.
  - exists t'. split; [done|]. split; [done|]. intros l Hge. rewrite Hl, Hget by done. destruct (Nat.eqb_spec l q); [lia|done].
Qed.
