(* ===== verification/Merges.v ===== *)
(** * Merging refines its meaning ([token/mod.rs], [merge_all])

    The arrays of [Work] represent a list of live symbols, each at its
    position; a step of the loop is the merge of the leftmost lowest-ranked
    pair of that list. *)
From S2P Require Import Prelude Bytes Token Bpe Tournament.

Section Merges.
Context (merge : Z -> Z -> option (Z * Z)).
Context (lookup_merge : Z -> Z -> outcome unit (option (Z * Z))).
Context (lookup_ok : forall a b, lookup_merge a b = Ok (merge a b)).
Context (merge_ok : forall a b r m, merge a b = Some (r, m) -> 0 <= r < NONE).

(** ** Keys *)
Lemma key_of_add r i : 0 <= r -> 0 <= i < 2 ^ 32 -> key_of r i = r * 2 ^ 32 + i.
Proof. intros Hr Hi. unfold key_of. apply lor_shiftl_add; lia. Qed.
Lemma key_top r i : 0 <= r -> 0 <= i < 2 ^ 32 -> Z.shiftr (key_of r i) 32 = r /\ wrap 32 (key_of r i) = i.
Proof.
  intros Hr Hi. rewrite key_of_add by done. rewrite Z.shiftr_div_pow2 by lia. unfold wrap. split.
  - rewrite Z.div_add_l by lia. rewrite Z.div_small by lia. lia.
  - rewrite Z.add_comm, Z.mod_add by lia. by apply Z.mod_small.
Qed.
Lemma key_lex r i r' i' : 0 <= r -> 0 <= r' -> 0 <= i < 2 ^ 32 -> 0 <= i' < 2 ^ 32 ->
  key_of r i <= key_of r' i' -> r < r' \/ (r = r' /\ i <= i').
Proof. intros. rewrite !key_of_add in * by lia. nia. Qed.

(** A leaf whose pair does not merge, or merges with this rank. *)
Definition no_key (v : Z) : Prop := NONE * 2 ^ 32 <= v <= U64_MAX.
Lemma no_key_top v : 0 <= v <= U64_MAX -> (Z.shiftr v 32 =? NONE) = true <-> NONE * 2 ^ 32 <= v.
Proof.
  intros Hv. rewrite Z.eqb_eq, Z.shiftr_div_pow2 by lia. unfold NONE, U64_MAX in *. split; intros H.
  - pose proof (Z.mul_div_le v (2 ^ 32) ltac:(lia)). lia.
  - apply Z.le_antisymm; [apply Z.lt_succ_r, Z.div_lt_upper_bound; lia|apply Z.div_le_lower_bound; lia].
Qed.
Lemma no_key_max : no_key U64_MAX.
Proof. done. Qed.
Lemma no_key_none i : 0 <= i < 2 ^ 32 -> no_key (key_of NONE i).
Proof. intros Hi. rewrite key_of_add by done. unfold no_key, NONE, U64_MAX. lia. Qed.

(** ** The live symbols *)
Definition pair_of (L : list (nat * Z)) (k : nat) : option (Z * Z) :=
  match L !! k, L !! S k with Some (_, x), Some (_, y) => merge x y | _, _ => None end.
Definition ordered (L : list (nat * Z)) : Prop :=
  forall k k' p p' x x', L !! k = Some (p, x) -> L !! k' = Some (p', x') -> (k < k')%nat -> (p < p')%nat.

(** The links: each live symbol at its position, its neighbours' beside it. *)
Record links (n : nat) (w : Work) (L : list (nat * Z)) : Prop := {
  links_len : length (ids w) = n /\ length (next w) = n /\ length (prev w) = n;
  links_order : ordered L;
  links_in : forall k p x, L !! k = Some (p, x) -> (p < n)%nat;
  links_ids : forall k p x, L !! k = Some (p, x) -> ids w !! p = Some x;
  links_dead : forall p, (p < n)%nat -> p ∉ L.*1 -> ids w !! p = Some NONE;
  links_next : forall k p x, L !! k = Some (p, x) ->
    next w !! p = Some (match L !! S k with Some (q, _) => Z.of_nat q | None => Z.of_nat n end);
  links_prev : forall k p x, L !! k = Some (p, x) ->
    prev w !! p = Some (match k with O => NONE | S k => match L !! k with Some (q, _) => Z.of_nat q | None => 0 end end);
}.

(** The key at position [p], and what its merge makes. *)
Record key_at (half : nat) (w : Work) (L : list (nat * Z)) (p : nat) : Prop := {
  key_live : forall k x, L !! k = Some (p, x) ->
    match pair_of L k with
    | Some (r, m) => tget (tree w) (half + p) = key_of r (Z.of_nat p) /\ merged w !! p = Some m
    | None => no_key (tget (tree w) (half + p))
    end;
  key_dead : p ∉ L.*1 -> no_key (tget (tree w) (half + p));
}.

Record rep (n half : nat) (w : Work) (L : list (nat * Z)) : Prop := {
  rep_links : links n w L;
  rep_size : (n <= half)%nat /\ (1 <= half)%nat /\ Z.of_nat n < 2 ^ 32 /\ (n <= length (merged w))%nat;
  rep_heap : heap half (tree w);
  rep_keys : forall p, (p < half)%nat -> key_at half w L p;
}.

Lemma elem_of_positions (L : list (nat * Z)) p : p ∈ L.*1 <-> exists k x, L !! k = Some (p, x).
Proof.
  rewrite list_elem_of_fmap. split.
  - intros ([q x]&->&(k&Hk)%list_elem_of_lookup_1). by exists k, x.
  - intros (k&x&Hk). exists (p, x). split; [done|]. by eapply list_elem_of_lookup_2.
Qed.
Lemma ordered_inj L k k' p x x' : ordered L -> L !! k = Some (p, x) -> L !! k' = Some (p, x') -> k = k'.
Proof.
  intros Ho Hk Hk'. destruct (Nat.lt_trichotomy k k') as [H|[H|H]]; [|done|].
  - pose proof (Ho _ _ _ _ _ _ Hk Hk' H). lia.
  - pose proof (Ho _ _ _ _ _ _ Hk' Hk H). lia.
Qed.

(** [after] reads the pair off the links. *)
Lemma after_reads n w L k p x : links n w L -> L !! k = Some (p, x) ->
  after lookup_merge w (Z.of_nat p) = let '(r, m) := default (NONE, NONE) (pair_of L k) in Ok (key_of r (Z.of_nat p), m).
Proof.
  intros Hl Hk. unfold after, zget. destruct (Z.ltb_spec (Z.of_nat p) 0); [lia|]. rewrite Nat2Z.id.
  rewrite (links_ids _ _ _ Hl _ _ _ Hk), (links_next _ _ _ Hl _ _ _ Hk). cbn [mbind option_bind]. unfold pair_of. rewrite Hk.
  destruct (L !! S k) as [[q y]|] eqn:Hq.
  - destruct (Z.ltb_spec (Z.of_nat q) 0); [lia|]. rewrite Nat2Z.id. by rewrite (links_ids _ _ _ Hl _ _ _ Hq), lookup_ok.
  - destruct (Z.ltb_spec (Z.of_nat n) 0); [lia|]. rewrite Nat2Z.id.
    rewrite lookup_ge_None_2 by (pose proof (links_len _ _ _ Hl); lia). done.
Qed.

(** ** The lowest pair *)
Lemma elem_of_pairs l k0 r k m :
  (r, k, m) ∈ pairs_from merge k0 l <->
  exists d a b, k = (k0 + d)%nat /\ l !! d = Some a /\ l !! S d = Some b /\ merge a b = Some (r, m).
Proof.
  revert k0. induction l as [|a [|b l] IH]; intros k0.
  - split; [intros []%not_elem_of_nil|intros (d&?&?&_&?&_); done].
  - split; [intros []%not_elem_of_nil|intros ([|d]&?&?&_&_&?&_); done].
  - change (pairs_from merge k0 (a :: b :: l)) with (match merge a b with Some (r, m) => (r, k0, m) :: pairs_from merge (S k0) (b :: l)
                                                   | None => pairs_from merge (S k0) (b :: l) end).
    assert ((r, k, m) ∈ pairs_from merge (S k0) (b :: l) <->
      exists d a' b', k = (k0 + S d)%nat /\ (a :: b :: l) !! S d = Some a' /\ (a :: b :: l) !! S (S d) = Some b' /\ merge a' b' = Some (r, m)) as Hrest.
    { rewrite IH. split; intros (d&a'&b'&Hd&H); exists d, a', b'; (split; [lia|exact H]). }
    destruct (merge a b) as [[r0 m0]|] eqn:Hab; [rewrite elem_of_cons|]; rewrite Hrest; split.
    + intros [[= -> -> ->]|(d&a'&b'&H)]; [exists 0%nat, a, b; split; [lia|done]|exists (S d), a', b'; exact H].
    + intros ([|d]&a'&b'&Hk&Ha&Hb&Hm); [left; cbn in Ha, Hb; simplify_eq; f_equal; f_equal; lia|right; by exists d, a', b'].
    + intros (d&a'&b'&H). by exists (S d), a', b'.
    + intros ([|d]&a'&b'&Hk&Ha&Hb&Hm); [cbn in Ha, Hb; simplify_eq|by exists d, a', b'].
Qed.

Lemma lowest_None l : lowest l = None <-> l = [].
Proof. destruct l as [|[[r k] m] l]; [done|]. cbn. destruct (lowest l) as [[[? ?] ?]|]; [destruct (_ <? _)|]; done. Qed.
Lemma lowest_elem l k r m : lowest l = Some (k, r, m) -> (r, k, m) ∈ l.
Proof.
  revert k r m. induction l as [|[[r0 k0] m0] l IH]; intros k r m; [done|]. cbn [lowest].
  destruct (lowest l) as [[[k1 r1] m1]|]; [destruct (_ <? _)|]; intros [= <- <- <-]; rewrite elem_of_cons; auto.
Qed.
Lemma lowest_least l k r m : lowest l = Some (k, r, m) -> forall r' k' m', (r', k', m') ∈ l -> r <= r'.
Proof.
  revert k r m. induction l as [|[[r0 k0] m0] l IH]; intros k r m; [done|]. cbn [lowest].
  destruct (lowest l) as [[[k1 r1] m1]|] eqn:Hl.
  - intros H r' k' m' [[= -> -> ->]|Hin]%elem_of_cons.
    + destruct (Z.ltb_spec r1 r0); simplify_eq; lia.
    + specialize (IH _ _ _ eq_refl _ _ _ Hin). destruct (Z.ltb_spec r1 r0); simplify_eq; lia.
  - apply lowest_None in Hl as ->. intros [= <- <- <-] r' k' m' [[= -> -> ->]|[]%not_elem_of_nil]%elem_of_cons. lia.
Qed.

(** Of pairs listed by place, the leftmost of the lowest. *)
Lemma lowest_first l k0 k r m :
  lowest (pairs_from merge k0 l) = Some (k, r, m) -> forall k' m', (r, k', m') ∈ pairs_from merge k0 l -> (k <= k')%nat.
Proof.
  revert k0. induction l as [|a [|b l] IH]; intros k0; [done|done|].
  change (pairs_from merge k0 (a :: b :: l)) with (match merge a b with Some (r, m) => (r, k0, m) :: pairs_from merge (S k0) (b :: l)
                                                 | None => pairs_from merge (S k0) (b :: l) end).
  destruct (merge a b) as [[r0 m0]|]; [|apply IH]. cbn [lowest].
  destruct (lowest (pairs_from merge (S k0) (b :: l))) as [[[k1 r1] m1]|] eqn:Hl.
  - intros H k' m' [Heq|Hin]%elem_of_cons.
    + simplify_eq. destruct (Z.ltb_spec r1 r0); simplify_eq; lia.
    + destruct (Z.ltb_spec r1 r0); simplify_eq; [by eapply IH|]. apply elem_of_pairs in Hin as (d&?&?&->&_). lia.
  - intros [= <- <- <-] k' m' [Heq|Hin]%elem_of_cons; simplify_eq; [lia|]. apply elem_of_pairs in Hin as (d&?&?&->&_). lia.
Qed.

Lemma lowest_is l k r m :
  (r, k, m) ∈ pairs_from merge 0 l ->
  (forall r' k' m', (r', k', m') ∈ pairs_from merge 0 l -> r < r' \/ (r = r' /\ (k <= k')%nat)) ->
  lowest (pairs_from merge 0 l) = Some (k, r, m).
Proof.
  intros Hin Hmin. destruct (lowest (pairs_from merge 0 l)) as [[[k1 r1] m1]|] eqn:Hl.
  - pose proof (lowest_elem _ _ _ _ Hl) as H1. pose proof (lowest_least _ _ _ _ Hl _ _ _ Hin) as H2. destruct (Hmin _ _ _ H1) as [H3|[<- H3]]; [lia|].
    pose proof (lowest_first _ _ _ _ _ Hl _ _ Hin) as H4. assert (k1 = k) as -> by lia.
    apply elem_of_pairs in Hin as (d&a&b&->&Ha&Hb&Hm). apply elem_of_pairs in H1 as (d'&a'&b'&Hd&Ha'&Hb'&Hm').
    assert (d' = d) as -> by lia. simplify_eq. done.
  - apply lowest_None in Hl. rewrite Hl in Hin. by apply not_elem_of_nil in Hin.
Qed.

Lemma pairs_of_symbols (L : list (nat * Z)) r k m : (r, k, m) ∈ pairs_from merge 0 L.*2 <-> pair_of L k = Some (r, m).
Proof.
  rewrite elem_of_pairs. unfold pair_of. split.
  - intros (d&a&b&->&Ha&Hb&Hm). cbn [Nat.add]. rewrite list_lookup_fmap in Ha, Hb.
    destruct (L !! d) as [[p x]|]; [|done]. destruct (L !! S d) as [[q y]|]; [|done]. cbn in Ha, Hb. by simplify_eq.
  - intros H. destruct (L !! k) as [[p x]|] eqn:Hk; [|done]. destruct (L !! S k) as [[q y]|] eqn:Hq; [|done].
    exists k, x, y. rewrite !list_lookup_fmap, Hk, Hq. done.
Qed.

(** ** The root is the pair to merge *)
Lemma rep_position n half w L k p x : rep n half w L -> L !! k = Some (p, x) -> (p < half)%nat /\ 0 <= Z.of_nat p < 2 ^ 32.
Proof. intros Hr Hk. pose proof (rep_size _ _ _ _ Hr). pose proof (links_in _ _ _ (rep_links _ _ _ _ Hr) _ _ _ Hk). lia. Qed.

Lemma rep_leaf n half w L p : rep n half w L -> (p < half)%nat ->
  no_key (tget (tree w) (half + p))
  \/ exists k x r m, L !! k = Some (p, x) /\ pair_of L k = Some (r, m) /\ tget (tree w) (half + p) = key_of r (Z.of_nat p)
     /\ merged w !! p = Some m.
Proof.
  intros Hr Hp. pose proof (rep_keys _ _ _ _ Hr p Hp) as [Hlive Hdead]. destruct (decide (p ∈ L.*1)) as [Hin|Hin]; [|left; by apply Hdead].
  apply elem_of_positions in Hin as (k&x&Hk). specialize (Hlive k x Hk). destruct (pair_of L k) as [[r m]|] eqn:Hpair; [|by left].
  right. exists k, x, r, m. destruct Hlive. done.
Qed.

Lemma rep_top n half w L : rep n half w L ->
  idx (tree w) 1 = Ok (tget (tree w) 1) /\
  if Z.shiftr (tget (tree w) 1) 32 =? NONE then lowest (pairs_from merge 0 L.*2) = None
  else exists k p x r m, L !! k = Some (p, x) /\ pair_of L k = Some (r, m) /\ lowest (pairs_from merge 0 L.*2) = Some (k, r, m)
       /\ wrap 32 (tget (tree w) 1) = Z.of_nat p /\ merged w !! p = Some m.
Proof.
  intros Hr. pose proof (rep_heap _ _ _ _ Hr) as Hh. pose proof (rep_size _ _ _ _ Hr) as (Hn&H1&Hlt&_). set (top := tget (tree w) 1).
  split; [apply tget_idx; rewrite (heap_len _ _ _ Hh); lia|].
  assert (forall k r m, pair_of L k = Some (r, m) -> exists p x, L !! k = Some (p, x) /\ 0 <= Z.of_nat p < 2 ^ 32 /\ 0 <= r < NONE
            /\ top <= key_of r (Z.of_nat p)) as Hpairs.
  { intros k r m Hpair. assert (exists p x, L !! k = Some (p, x)) as (p&x&Hk) by (unfold pair_of in Hpair; destruct (L !! k) as [[p x]|]; eauto; done).
    destruct (rep_position _ _ _ _ _ _ _ Hr Hk) as [Hp Hp32]. exists p, x. split; [done|]. split; [done|].
    assert (0 <= r < NONE) as Hrk.
    { unfold pair_of in Hpair. rewrite Hk in Hpair. destruct (L !! S k) as [[q y]|]; [|done]. by eapply merge_ok. }
    split; [done|]. pose proof (key_live _ _ _ _ (rep_keys _ _ _ _ Hr p Hp) k x Hk) as Hkey. rewrite Hpair in Hkey. destruct Hkey as [<- _].
    apply (heap_least half); [done|lia]. }
  destruct (heap_attained half (tree w) Hh H1) as (l&Hl&Htop). fold top in Htop.
  destruct (rep_leaf n half w L l Hr Hl) as [Hno|(k&x&r&m&Hk&Hpair&Hkey&Hm)].
  - rewrite Htop in Hno. rewrite (proj2 (no_key_top top ltac:(unfold no_key, NONE in Hno; lia))) by apply Hno.
    apply lowest_None. destruct (pairs_from merge 0 L.*2) as [|[[r k] m] ps] eqn:Hps; [done|].
    assert ((r, k, m) ∈ pairs_from merge 0 L.*2) as Hin by (rewrite Hps; apply elem_of_cons; by left).
    apply pairs_of_symbols, Hpairs in Hin as (p&x&_&Hp&Hrk&Hle). rewrite key_of_add in Hle by lia. unfold no_key, NONE in *. nia.
  - destruct (rep_position _ _ _ _ _ _ _ Hr Hk) as [_ Hp32]. destruct (Hpairs _ _ _ Hpair) as (_&_&_&_&Hrk&_).
    destruct (key_top r (Z.of_nat l) ltac:(lia) Hp32) as [Hsh Hwr]. rewrite Htop in Hkey. rewrite Hkey, Hsh.
    destruct (Z.eqb_spec r NONE); [lia|]. exists k, l, x, r, m. split_and!; [done|done| |done|done].
    apply lowest_is; [by apply pairs_of_symbols|]. intros r' k' m' Hin%pairs_of_symbols.
    destruct (Hpairs _ _ _ Hin) as (p'&x'&Hk'&Hp'&Hrk'&Hle). rewrite Hkey in Hle.
    destruct (key_lex r (Z.of_nat l) r' (Z.of_nat p') ltac:(lia) ltac:(lia) Hp32 Hp' Hle) as [?|[<- Hpos]]; [by left|right].
    split; [done|]. destruct (decide (k' < k)%nat) as [Hlt'|]; [|lia].
    pose proof (links_order _ _ _ (rep_links _ _ _ _ Hr) _ _ _ _ _ _ Hk' Hk Hlt'). lia.
Qed.

(** ** One merge of the live symbols *)
Definition splice (k p : nat) (m : Z) (L : list (nat * Z)) : list (nat * Z) := take k L ++ (p, m) :: drop (k + 2) L.
Section Splice.
Context (L : list (nat * Z)) (k i j : nat) (x y m : Z).
Context (Hi : L !! k = Some (i, x)) (Hj : L !! S k = Some (j, y)).
Abbreviation L' := (splice k i m L).
Lemma splice_before q : (q < k)%nat -> L' !! q = L !! q.
Proof. intros Hq. unfold splice. pose proof (lookup_lt_Some _ _ _ Hi). rewrite lookup_app_l by (rewrite length_take; lia). by rewrite lookup_take_lt. Qed.
Lemma splice_at : L' !! k = Some (i, m).
Proof. unfold splice. pose proof (lookup_lt_Some _ _ _ Hi). rewrite lookup_app_r by (rewrite length_take; lia). rewrite length_take, Nat.min_l by lia. by rewrite Nat.sub_diag. Qed.
Lemma splice_after q : (k < q)%nat -> L' !! q = L !! S q.
Proof.
  intros Hq. unfold splice. pose proof (lookup_lt_Some _ _ _ Hi). rewrite lookup_app_r by (rewrite length_take; lia).
  rewrite length_take, Nat.min_l by lia. destruct (q - k)%nat as [|d] eqn:Hd; [lia|].
  change (((i, m) :: drop (k + 2) L) !! S d) with (drop (k + 2) L !! d). rewrite lookup_drop. f_equal. lia.
Qed.
Lemma splice_symbols : (L').*2 = take k L.*2 ++ m :: drop (k + 2) L.*2.
Proof. unfold splice. rewrite fmap_app, fmap_cons, fmap_take, fmap_drop. done. Qed.

(** Where a symbol that is left was before. *)
Lemma splice_was q p z : L' !! q = Some (p, z) ->
  (q < k /\ L !! q = Some (p, z))%nat \/ (q = k /\ p = i /\ z = m) \/ (k < q /\ L !! S q = Some (p, z))%nat.
Proof.
  intros Hq. destruct (Nat.lt_trichotomy q k) as [H|[->|H]].
  - left. by rewrite splice_before in Hq.
  - right; left. rewrite splice_at in Hq. by injection Hq as <- <-.
  - right; right. by rewrite splice_after in Hq.
Qed.
Lemma splice_positions p : p ∉ (L').*1 -> p <> j -> p ∉ L.*1.
Proof.
  rewrite !elem_of_positions. intros Hn Hpj (q&z&Hq). apply Hn. destruct (Nat.lt_trichotomy q k) as [H|[->|H]].
  - exists q, z. by rewrite splice_before.
  - exists k, m. rewrite splice_at. congruence.
  - destruct (decide (q = S k)) as [->|]; [congruence|]. exists (pred q), z. rewrite splice_after by lia. by replace (S (pred q)) with q by lia.
Qed.
Context (Ho : ordered L).
Lemma splice_ordered : ordered L'.
Proof.
  intros a b p p' z z' Ha Hb Hab. apply splice_was in Ha. apply splice_was in Hb.
  destruct Ha as [[Hk1 Ha]|[(->&->&->)|[Hk1 Ha]]], Hb as [[Hk2 Hb]|[(->&->&->)|[Hk2 Hb]]]; try lia;
    (eapply Ho; [first [exact Ha|exact Hi]|first [exact Hb|exact Hi]|lia]).
Qed.
Lemma splice_lacks_j : j ∉ (L').*1.
Proof.
  rewrite elem_of_positions. intros (q&z&Hq). apply splice_was in Hq as [[Hlt Hq]|[(->&->&_)|[Hlt Hq]]].
  - pose proof (Ho _ _ _ _ _ _ Hq Hj ltac:(lia)). lia.
  - pose proof (Ho _ _ _ _ _ _ Hi Hj ltac:(lia)). lia.
  - pose proof (Ho _ _ _ _ _ _ Hj Hq ltac:(lia)). lia.
Qed.
End Splice.

(** The links once symbols [i] and [j] are one. *)
Definition joined (n : nat) (w : Work) (i j nj : nat) (m : Z) : Work :=
  mkWork (<[j := NONE]> (<[i := m]> (ids w))) (<[i := Z.of_nat nj]> (next w))
    (if (nj <? n)%nat then <[nj := Z.of_nat i]> (prev w) else prev w) (tree w) (merged w).
Definition next_of (n : nat) (L : list (nat * Z)) (k : nat) : nat := match L !! k with Some (q, _) => q | None => n end.

Lemma joined_links n w L k i j x y m :
  links n w L -> L !! k = Some (i, x) -> L !! S k = Some (j, y) ->
  links n (joined n w i j (next_of n L (S (S k))) m) (splice k i m L).
Proof.
  intros Hl Hi Hj. set (nj := next_of n L (S (S k))). pose proof (links_order _ _ _ Hl) as Ho. destruct (links_len _ _ _ Hl) as (Hli&Hln&Hlp).
  pose proof (links_in _ _ _ Hl _ _ _ Hi) as Hin. pose proof (links_in _ _ _ Hl _ _ _ Hj) as Hjn.
  assert (i < j)%nat as Hij by (eapply (Ho k (S k)); [done|done|lia]).
  assert (j < nj)%nat as Hjnj by (unfold nj, next_of; destruct (L !! S (S k)) as [[q z]|] eqn:Hq; [eapply (Ho (S k) (S (S k))); [done|done|lia]|lia]).
  split.
  - unfold joined; cbn [ids next prev]. rewrite !length_insert. split_and!; [done|done|]. destruct (nj <? n)%nat; [by rewrite length_insert|done].
  - by apply (splice_ordered L k i x m Hi Ho).
  - intros q p z Hq. apply (splice_was L k i x m Hi) in Hq as [[_ Hq]|[(_&->&_)|[_ Hq]]]; [by eapply links_in|done|by eapply links_in].
  - intros q p z Hq. cbn. apply (splice_was L k i x m Hi) in Hq as [[Hlt Hq]|[(->&->&->)|[Hlt Hq]]].
    + pose proof (Ho _ _ _ _ _ _ Hq Hi Hlt). rewrite !list_lookup_insert_ne by lia. by eapply links_ids.
    + rewrite list_lookup_insert_ne by lia. rewrite list_lookup_insert_eq by lia. done.
    + pose proof (Ho _ _ _ _ _ _ Hj Hq ltac:(lia)). rewrite !list_lookup_insert_ne by lia. by eapply links_ids.
  - intros p Hp Hdead. cbn. destruct (decide (p = j)) as [->|Hne]; [rewrite list_lookup_insert_eq; [done|rewrite length_insert; lia]|].
    pose proof (splice_positions L k i j x y m Hi Hj p Hdead Hne) as HpL.
    assert (p <> i) by (intros ->; apply HpL, elem_of_positions; eauto). rewrite !list_lookup_insert_ne by lia. by apply (links_dead _ _ _ Hl).
  - intros q p z Hq. cbn. apply (splice_was L k i x m Hi) in Hq as [[Hlt Hq]|[(->&->&->)|[Hlt Hq]]].
    + pose proof (Ho _ _ _ _ _ _ Hq Hi Hlt). rewrite list_lookup_insert_ne by lia. rewrite (links_next _ _ _ Hl _ _ _ Hq).
      destruct (decide (S q = k)) as [<-|]; [by rewrite Hi, (splice_at L (S q) i x m Hi)|]. by rewrite (splice_before L k i x m Hi) by lia.
    + rewrite list_lookup_insert_eq by lia. rewrite (splice_after L k i x m Hi) by lia. unfold nj, next_of. by destruct (L !! S (S k)) as [[q z]|].
    + pose proof (Ho _ _ _ _ _ _ Hj Hq ltac:(lia)). rewrite list_lookup_insert_ne by lia. rewrite (links_next _ _ _ Hl _ _ _ Hq).
      by rewrite (splice_after L k i x m Hi) by lia.
  - intros q p z Hq. unfold joined; cbn [prev].
    assert (forall p, p <> nj -> (if (nj <? n)%nat then <[nj := Z.of_nat i]> (prev w) else prev w) !! p = prev w !! p) as Hprev
      by (intros p' Hp'; destruct (nj <? n)%nat; [by apply list_lookup_insert_ne|done]).
    apply (splice_was L k i x m Hi) in Hq as [[Hlt Hq]|[(->&->&->)|[Hlt Hq]]].
    + pose proof (Ho _ _ _ _ _ _ Hq Hi Hlt). rewrite Hprev by lia. rewrite (links_prev _ _ _ Hl _ _ _ Hq).
      destruct q as [|q]; [done|]. by rewrite (splice_before L k i x m Hi) by lia.
    + rewrite Hprev by lia. rewrite (links_prev _ _ _ Hl _ _ _ Hi). destruct k as [|k']; [done|]. by rewrite (splice_before L (S k') i x m Hi) by lia.
    + pose proof (links_in _ _ _ Hl _ _ _ Hq) as Hpn. destruct q as [|q]; [lia|]. destruct (decide (q = k)) as [->|Hne].
      * assert (nj = p) as -> by (unfold nj, next_of; by rewrite Hq). destruct (Nat.ltb_spec p n); [|lia].
        rewrite list_lookup_insert_eq by lia. by rewrite (splice_at L k i x m Hi).
      * assert (nj < p)%nat by (unfold nj, next_of; destruct (L !! S (S k)) as [[q' z']|] eqn:Hq';
          [eapply (Ho (S (S k)) (S (S q))); [done|done|lia]|pose proof (lookup_lt_Some _ _ _ Hq); apply lookup_ge_None_1 in Hq'; lia]).
        rewrite Hprev by lia. rewrite (links_prev _ _ _ Hl _ _ _ Hq). by rewrite (splice_after L k i x m Hi) by lia.
Qed.

(** The keys away from the merge stay right. *)
Lemma joined_keys half n w L k i j x y m nj p :
  L !! k = Some (i, x) -> L !! S k = Some (j, y) -> ordered L -> key_at half w L p ->
  p <> i -> p <> j -> (forall q z, L !! q = Some (p, z) -> S q <> k) ->
  key_at half (joined n w i j nj m) (splice k i m L) p.
Proof.
  intros Hi Hj Ho [Hlive Hdead] Hpi Hpj Hbefore. split; cbn [joined tree merged].
  - intros q z Hq. apply (splice_was L k i x m Hi) in Hq as [[Hlt Hq]|[(->&->&_)|[Hlt Hq]]]; [|done|].
    + assert (pair_of (splice k i m L) q = pair_of L q) as ->; [|by eapply Hlive].
      unfold pair_of. specialize (Hbefore _ _ Hq). by rewrite !(splice_before L k i x m Hi) by lia.
    + assert (pair_of (splice k i m L) q = pair_of L (S q)) as ->; [|by eapply Hlive].
      unfold pair_of. by rewrite !(splice_after L k i x m Hi) by lia.
  - intros Hn. apply Hdead. exact (splice_positions L k i j x y m Hi Hj p Hn Hpj).
Qed.

Lemma links_ext n w w' L : links n w L -> ids w' = ids w -> next w' = next w -> prev w' = prev w -> links n w' L.
Proof. intros [] Hi Hn Hp. by split; rewrite ?Hi, ?Hn, ?Hp. Qed.

(** Setting one key leaves the others. *)
Definition ready (n half : nat) (w : Work) (L : list (nat * Z)) : Prop :=
  links n w L /\ heap half (tree w) /\ (n <= half)%nat /\ (n <= length (merged w))%nat /\ Z.of_nat n < 2 ^ 32.
Lemma set_key n half w L i key m :
  ready n half w L -> (i < n)%nat ->
  exists w', set w i key m = Ok w' /\ ready n half w' L /\ prev w' = prev w
    /\ tget (tree w') (half + i) = key /\ merged w' !! i = Some m
    /\ forall p, (p < half)%nat -> p <> i -> key_at half w L p -> key_at half w' L p.
Proof.
  intros (Hl&Hh&Hn&Hm&H32) Hi. destruct (set_spec half w i key m Hh ltac:(lia) ltac:(lia)) as (w'&Hs&Hids&Hnext&Hprev&Hmer&Hheap&Hleaf).
  exists w'. split; [done|]. split; [split_and!; [by eapply links_ext|done|done|rewrite Hmer, length_insert; lia|done]|]. split; [done|].
  split; [rewrite Hleaf, Nat.eqb_refl by lia; done|]. split; [rewrite Hmer; apply list_lookup_insert_eq; lia|].
  intros p Hp Hne [Hlive Hdead].
  assert (tget (tree w') (half + p) = tget (tree w) (half + p)) as Ht by (rewrite Hleaf by done; destruct (Nat.eqb_spec p i); done).
  split; rewrite Ht; [|done]. intros k x Hk. specialize (Hlive k x Hk). destruct (pair_of L k) as [[r m']|]; [|done].
  by rewrite Hmer, list_lookup_insert_ne.
Qed.

(** Setting the key of a live symbol to what [after] says makes it right. *)
Lemma set_after n half w L k p x :
  ready n half w L -> L !! k = Some (p, x) ->
  exists w', ('(key, m) ← after lookup_merge w (Z.of_nat p); set w p key m) = Ok w' /\ ready n half w' L /\ prev w' = prev w
    /\ key_at half w' L p /\ forall q, (q < half)%nat -> q <> p -> key_at half w L q -> key_at half w' L q.
Proof.
  intros Hr Hk. destruct Hr as (Hl&Hr). pose proof (links_in _ _ _ Hl _ _ _ Hk) as Hp. rewrite (after_reads _ _ _ _ _ _ Hl Hk).
  destruct (default (NONE, NONE) (pair_of L k)) as [r m] eqn:Hd.
  destruct (set_key n half w L p (key_of r (Z.of_nat p)) m (conj Hl Hr) Hp) as (w'&Hs&Hr'&Hprev&Ht&Hm&Hothers).
  exists w'. split; [done|]. split; [done|]. split; [done|]. split; [|done]. pose proof (proj1 Hr') as Hl'. split.
  - intros k' x' Hk'. assert (k' = k) as -> by (eapply ordered_inj; [apply (links_order _ _ _ Hl)|done|done]).
    destruct (pair_of L k) as [[r0 m0]|]; cbn in Hd; simplify_eq; [done|]. rewrite Ht. apply no_key_none. destruct Hr as (_&_&_&?). lia.
  - intros Hn. exfalso. apply Hn, elem_of_positions. eauto.
Qed.

(** ** A step of the loop *)

Lemma zget_of_nat {A} (l : list A) i : zget l (Z.of_nat i) = l !! i.
Proof. unfold zget. destruct (Z.ltb_spec (Z.of_nat i) 0); [lia|]. by rewrite Nat2Z.id. Qed.

Lemma idx_some {A} (l : list A) i x : l !! i = Some x -> idx l i = Ok x.
Proof. unfold idx. by intros ->. Qed.

Lemma merge_step_joins n half w L k i j x y m :
  rep n half w L -> L !! k = Some (i, x) -> L !! S k = Some (j, y) -> merged w !! i = Some m ->
  merge_step lookup_merge (Z.of_nat n) w i =
    (w ← set (joined n w i j (next_of n L (S (S k))) m) j U64_MAX NONE;
     p ← idx (prev w) i;
     w ← (if p <? Z.of_nat n then '(key, m) ← after lookup_merge w p; set w (Z.to_nat p) key m else Ok w);
     '(key, m) ← after lookup_merge w (Z.of_nat i); set w i key m).
Proof.
  intros Hr Hi Hj Hm. pose proof (rep_links _ _ _ _ Hr) as Hl. destruct (links_len _ _ _ Hl) as (Hli&Hln&Hlp).
  pose proof (links_in _ _ _ Hl _ _ _ Hi) as Hin. pose proof (links_in _ _ _ Hl _ _ _ Hj) as Hjn.
  assert (next w !! j = Some (Z.of_nat (next_of n L (S (S k))))) as Hnj.
  { rewrite (links_next _ _ _ Hl _ _ _ Hj). unfold next_of. by destruct (L !! S (S k)) as [[q z]|]. }
  pose proof (links_next _ _ _ Hl _ _ _ Hi) as Hni. rewrite Hj in Hni.
  set (nj := next_of n L (S (S k))) in *. unfold merge_step. rewrite (idx_some _ _ _ Hni), (idx_some _ _ _ Hm). cbn [mbind outcome_bind].
  rewrite Nat2Z.id, (idx_some _ _ _ Hnj). cbn [mbind outcome_bind].
  rewrite (upd_ok (ids w) i) by lia. cbn [mbind outcome_bind]. rewrite (upd_ok (<[i := m]> (ids w)) j) by (rewrite length_insert; lia).
  cbn [mbind outcome_bind]. rewrite (upd_ok (next w) i) by lia. cbn [mbind outcome_bind].
  rewrite (proj2 (Z.ltb_lt (Z.of_nat i) (Z.of_nat n))) by lia. rewrite zget_of_nat. cbn [prev set_next set_ids]. rewrite Nat2Z.id.
  unfold joined. destruct (Nat.ltb_spec nj n) as [Hlt|Hge].
  - destruct (lookup_lt_is_Some_2 (prev w) nj ltac:(lia)) as [v ->]. done.
  - rewrite lookup_ge_None_2 by lia. done.
Qed.

Lemma merge_step_spec n half w L k i j x y r m :
  rep n half w L -> L !! k = Some (i, x) -> L !! S k = Some (j, y) -> pair_of L k = Some (r, m) -> merged w !! i = Some m ->
  exists w', merge_step lookup_merge (Z.of_nat n) w i = Ok w' /\ rep n half w' (splice k i m L).
Proof.
  intros Hr Hi Hj Hpair Hm. rewrite (merge_step_joins _ _ _ _ _ _ _ _ _ _ Hr Hi Hj Hm). set (w1 := joined _ _ _ _ _ _).
  pose proof (rep_links _ _ _ _ Hr) as Hl. pose proof (links_order _ _ _ Hl) as Ho. destruct (rep_size _ _ _ _ Hr) as (Hn&Hhalf&H32&Hlm).
  pose proof (links_in _ _ _ Hl _ _ _ Hi) as Hin. pose proof (links_in _ _ _ Hl _ _ _ Hj) as Hjn.
  pose proof (splice_at L k i x m Hi) as Hat. set (L2 := splice k i m L) in *.
  assert (i <> j) as Hne by (pose proof (Ho _ _ _ _ _ _ Hi Hj ltac:(lia)); lia).
  assert (ready n half w1 L2) as Hready1 by (split_and!; [by apply (joined_links n w L k i j x y m)|apply (rep_heap _ _ _ _ Hr)|done|done|done]).
  assert (forall p, (p < half)%nat -> p <> i -> p <> j -> (forall q z, L !! q = Some (p, z) -> S q <> k) -> key_at half w1 L2 p) as Hk1.
  { intros p Hp Hpi Hpj Hq. by apply (joined_keys half n w L k i j x y m); try done; apply (rep_keys _ _ _ _ Hr). }
  destruct (set_key n half w1 L2 j U64_MAX NONE Hready1 Hjn) as (w2&->&Hready2&Hprev2&Ht2&_&Hk2). cbn [mbind outcome_bind].
  assert (key_at half w2 L2 j) as Hkj.
  { split; [|intros _; rewrite Ht2; apply no_key_max]. intros q z Hq. exfalso. apply (splice_lacks_j L k i j x y m Hi Hj Ho). apply elem_of_positions. eauto. }
  pose proof (links_prev _ _ _ (proj1 Hready2) _ _ _ Hat) as Hp. rewrite (idx_some _ _ _ Hp). cbn [mbind outcome_bind].
  assert (exists w3, (if match k with O => NONE | S k => match L2 !! k with Some (q, _) => Z.of_nat q | None => 0 end end <? Z.of_nat n
     then '(key, m) ← after lookup_merge w2 match k with O => NONE | S k => match L2 !! k with Some (q, _) => Z.of_nat q | None => 0 end end;
       set w2 (Z.to_nat match k with O => NONE | S k => match L2 !! k with Some (q, _) => Z.of_nat q | None => 0 end end) key m else Ok w2) = Ok w3
     /\ ready n half w3 L2 /\ forall p, (p < half)%nat -> p <> i -> key_at half w3 L2 p) as (w3&->&Hready3&Hk3).
  { destruct k as [|k].
    - destruct (Z.ltb_spec NONE (Z.of_nat n)); [unfold NONE in *; lia|]. exists w2. split; [done|]. split; [done|].
      intros p Hp' Hpi. destruct (decide (p = j)) as [->|Hpj]; [done|]. apply Hk2; [done|done|]. by apply Hk1.
    - pose proof (lookup_lt_Some _ _ _ Hi). destruct (lookup_lt_is_Some_2 L k ltac:(lia)) as [[q z] Hq].
      assert (L2 !! k = Some (q, z)) as Hq2 by (unfold L2; by rewrite (splice_before L (S k) i x m Hi) by lia). rewrite Hq2.
      pose proof (links_in _ _ _ Hl _ _ _ Hq) as Hqn. destruct (Z.ltb_spec (Z.of_nat q) (Z.of_nat n)); [|lia]. rewrite Nat2Z.id.
      destruct (set_after n half w2 L2 k q z Hready2 Hq2) as (w3&Hs&Hready3&_&Hkq&Hk3). exists w3. split; [done|]. split; [done|].
      intros p Hp' Hpi. destruct (decide (p = q)) as [->|Hpq]; [done|]. apply Hk3; [done|done|].
      destruct (decide (p = j)) as [->|Hpj]; [done|]. apply Hk2; [done|done|]. apply Hk1; [done|done|done|].
      intros q' z' Hq' [= ->]. congruence. }
  cbn [mbind outcome_bind]. destruct (set_after n half w3 L2 k i m Hready3 Hat) as (w4&->&Hready4&_&Hki&Hk4). exists w4. split; [done|].
  destruct Hready4 as (Hl4&Hh4&_&Hm4&_). split; [done|by split_and!|done|].
  intros p Hp'. destruct (decide (p = i)) as [->|Hpi]; [done|]. apply Hk4; [done|done|]. by apply Hk3.
Qed.

(** ** The loop *)

(** The live symbols are those of the array. *)
Lemma live_symbols a o (L : list (nat * Z)) :
  ordered L -> (forall k p x, L !! k = Some (p, x) -> (o <= p)%nat /\ a !! (p - o)%nat = Some x) ->
  (forall p, (p < length a)%nat -> (o + p)%nat ∉ L.*1 -> a !! p = Some NONE) ->
  List.filter live a = List.filter live L.*2.
Proof.
  revert o L. induction a as [|v a IH]; intros o L Ho Hin Hdead.
  - destruct L as [|[p x] L]; [done|]. destruct (Hin 0%nat p x eq_refl) as [_ H]. done.
  - destruct (decide (o ∈ L.*1)) as [Hmem|Hmem].
    + destruct L as [|[p x] L]; [by apply not_elem_of_nil in Hmem|].
      assert (p = o) as ->.
      { destruct (Hin 0%nat p x eq_refl) as [Hop _]. apply elem_of_positions in Hmem as ([|k]&y&Hk); [by injection Hk|].
        pose proof (Ho 0%nat (S k) _ _ _ _ eq_refl Hk ltac:(lia)). lia. }
      destruct (Hin 0%nat o x eq_refl) as [_ Hv]. rewrite Nat.sub_diag in Hv. injection Hv as <-.
      assert (List.filter live a = List.filter live L.*2) as Hrest; [|cbn; by rewrite Hrest].
      apply (IH (S o)).
      * intros k k' p p' y y' Hk Hk' Hlt. apply (Ho (S k) (S k') p p' y y'); [done|done|lia].
      * intros k p y Hk. pose proof (Ho 0%nat (S k) _ _ _ _ eq_refl Hk ltac:(lia)). destruct (Hin (S k) p y Hk) as [_ Hl].
        split; [lia|]. by replace (p - o)%nat with (S (p - S o)) in Hl by lia.
      * intros p Hp Hn. apply (Hdead (S p)); [cbn; lia|]. intros [Heq|H]%elem_of_cons; [cbn in Heq; lia|]. apply Hn. by replace (S o + p)%nat with (o + S p)%nat by lia.
    + pose proof (Hdead 0%nat ltac:(cbn; lia) ltac:(by rewrite Nat.add_0_r)) as Hv. injection Hv as ->. change (List.filter live (NONE :: a)) with (List.filter live a).
      apply (IH (S o)); [done| |].
      * intros k p x Hk. destruct (Hin k p x Hk) as [Hop Hl]. assert (p <> o) by (intros ->; apply Hmem, elem_of_positions; eauto).
        split; [lia|]. by replace (p - o)%nat with (S (p - S o)) in Hl by lia.
      * intros p Hp Hn. apply (Hdead (S p)); [cbn; lia|]. by replace (o + S p)%nat with (S o + p)%nat by lia.
Qed.

Lemma splice_length L k i j x y m : L !! k = Some (i, x) -> L !! S k = Some (j, y) -> S (length (splice k i m L)) = length L.
Proof. intros Hi Hj%lookup_lt_Some. unfold splice. rewrite length_app, length_take. cbn [length]. rewrite length_drop. lia. Qed.

Lemma merge_loop_spec n half fuel w L :
  rep n half w L -> (length L <= S fuel)%nat ->
  exists w', merge_loop lookup_merge fuel (Z.of_nat n) w = Ok w' /\ List.filter live (ids w') = List.filter live (bpe merge fuel L.*2).
Proof.
  assert (forall w L, rep n half w L -> List.filter live (ids w) = List.filter live L.*2) as Hread.
  { intros w' L' Hr. pose proof (rep_links _ _ _ _ Hr) as Hl. apply (live_symbols _ 0).
    - apply (links_order _ _ _ Hl).
    - intros k p x Hk. split; [lia|]. rewrite Nat.sub_0_r. by eapply links_ids.
    - intros p Hp Hn. apply (links_dead _ _ _ Hl); [|done]. pose proof (links_len _ _ _ Hl). lia. }
  revert w L. induction fuel as [|fuel IH]; intros w L Hr Hlen; destruct (rep_top _ _ _ _ Hr) as [Htop Hcase]; cbn [merge_loop bpe];
    rewrite Htop; cbn [mbind outcome_bind]; destruct (Z.shiftr (tget (tree w) 1) 32 =? NONE).
  - exists w. split; [done|by apply Hread].
  - destruct Hcase as (k&p&x&r&m&Hk&Hpair&_). unfold pair_of in Hpair. rewrite Hk in Hpair.
    destruct (L !! S k) as [[q y]|] eqn:Hq; [|done]. apply lookup_lt_Some in Hq. lia.
  - exists w. rewrite Hcase. split; [done|by apply Hread].
  - destruct Hcase as (k&p&x&r&m&Hk&Hpair&Hlow&Hwrap&Hm). rewrite Hlow, Hwrap, Nat2Z.id.
    assert (exists q y, L !! S k = Some (q, y)) as (q&y&Hq) by (unfold pair_of in Hpair; rewrite Hk in Hpair; destruct (L !! S k) as [[q y]|]; eauto; done).
    destruct (merge_step_spec _ _ _ _ _ _ _ _ _ _ _ Hr Hk Hq Hpair Hm) as (w'&->&Hr'). cbn [mbind outcome_bind].
    rewrite <- (splice_symbols L k p m). apply IH; [done|]. pose proof (splice_length L k p q x y m Hk Hq). lia.
Qed.

(** ** The start *)
Lemma first_keys_spec half l i t me :
  length me = i -> (half + i + length l <= length t)%nat ->
  exists t' me', first_keys lookup_merge i half l t me = Ok (t', me ++ me') /\ length t' = length t /\ length me' = pred (length l)
    /\ (forall d a b, l !! d = Some a -> l !! S d = Some b ->
          let '(r, m) := default (NONE, NONE) (merge a b) in
          tget t' (half + (i + d)) = key_of r (Z.of_nat (i + d)) /\ me' !! d = Some m)
    /\ (forall q, (q < half + i \/ half + i + pred (length l) <= q)%nat -> tget t' q = tget t q).
Proof.
  revert i t me. induction l as [|a [|b l] IH]; intros i t me Hme Ht.
  - exists t, []. rewrite app_nil_r. by split_and!.
  - exists t, []. rewrite app_nil_r. by split_and!.
  - change (first_keys lookup_merge i half (a :: b :: l) t me) with
      (x ← lookup_merge a b; let '(rank, m) := default (NONE, NONE) x in t ← upd t (half + i)%nat (key_of rank (Z.of_nat i)); first_keys lookup_merge (S i) half (b :: l) t (me ++ [m])).
    rewrite lookup_ok. cbn [mbind outcome_bind]. destruct (default (NONE, NONE) (merge a b)) as [r m] eqn:Hd. cbn [length] in Ht. rewrite upd_ok by lia. cbn [mbind outcome_bind].
    destruct (IH (S i) (<[(half + i)%nat := key_of r (Z.of_nat i)]> t) (me ++ [m])) as (t'&me'&->&Hlt&Hlm&Hkeys&Hrest);
      [rewrite length_app; cbn; lia|rewrite length_insert; cbn [length]; lia|]. rewrite length_insert in Hlt. cbn [length pred] in *.
    exists t', (m :: me'). rewrite <- app_assoc. split; [done|]. split; [done|]. split; [cbn; lia|]. split.
    + intros [|d] a' b' Ha Hb.
      * cbn in Ha, Hb. simplify_eq. rewrite Hd. rewrite Nat.add_0_r, Hrest by lia. rewrite tget_insert by lia. by rewrite Nat.eqb_refl.
      * specialize (Hkeys d a' b' Ha Hb). by replace (i + S d)%nat with (S i + d)%nat by lia.
    + intros q Hq. rewrite Hrest by lia. rewrite tget_insert by lia. destruct (Nat.eqb_spec q (half + i)); [lia|done].
Qed.

Lemma next_power_of_two_ge n : (n <= next_power_of_two n /\ 1 <= next_power_of_two n)%nat.
Proof.
  unfold next_power_of_two. assert (forall fuel p, (1 <= p -> n <= p + fuel -> n <= pow2_from fuel n p /\ 1 <= pow2_from fuel n p)%nat) as H; [|apply H; lia].
  intros fuel. induction fuel as [|fuel IH]; intros p Hp Hf; cbn [pow2_from]; [lia|].
  destruct (Nat.ltb_spec p n); [apply IH; lia|lia].
Qed.

(** Each symbol at its place. *)
Definition placed (symbols : list Z) : list (nat * Z) := imap pair symbols.
Lemma placed_at symbols k p x : placed symbols !! k = Some (p, x) <-> p = k /\ symbols !! k = Some x.
Proof. unfold placed. rewrite list_lookup_imap. destruct (symbols !! k); cbn; [|naive_solver]. split; [by intros [= <- <-]|by intros [-> [= <-]]]. Qed.
Lemma placed_symbols symbols : (placed symbols).*2 = symbols.
Proof. apply list_eq. intros k. rewrite list_lookup_fmap. unfold placed. rewrite list_lookup_imap. by destruct (symbols !! k). Qed.

Lemma start_links symbols t me :
  zlen symbols < 2 ^ 32 ->
  links (length symbols)
    (mkWork symbols (map Z.of_nat (seq 1 (length symbols))) (map (fun i => wrap 32 (Z.of_nat i - 1)) (seq 0 (length symbols))) t me)
    (placed symbols).
Proof.
  intros H32. unfold zlen in H32. assert (forall o k, (k < length symbols)%nat -> seq o (length symbols) !! k = Some (o + k)%nat) as Hseq
    by (intros o k Hk; by apply lookup_seq_lt).
  assert (forall k x, symbols !! k = Some x -> (k < length symbols)%nat) as Hlt by (intros k x Hk; by eapply lookup_lt_Some).
  split; cbn [ids next prev].
  - by rewrite !length_map, !length_seq.
  - intros k k' p p' x x' [-> _]%placed_at [-> _]%placed_at. done.
  - intros k p x [-> Hk]%placed_at. by eapply Hlt.
  - by intros k p x [-> Hk]%placed_at.
  - intros p Hp Hn. destruct (lookup_lt_is_Some_2 _ _ Hp) as [x Hx]. exfalso. apply Hn, elem_of_positions. exists p, x. by apply placed_at.
  - intros k p x [-> Hk]%placed_at. rewrite list_lookup_fmap, Hseq by (by eapply Hlt). cbn. f_equal. destruct (placed symbols !! S k) as [[q y]|] eqn:Hq.
    + by apply placed_at in Hq as [-> _].
    + f_equal. assert (symbols !! S k = None) as Hn%lookup_ge_None.
      { destruct (symbols !! S k) as [y|] eqn:Hy; [|done]. rewrite (proj2 (placed_at symbols (S k) (S k) y)) in Hq by done. done. }
      specialize (Hlt _ _ Hk). lia.
  - intros k p x [-> Hk]%placed_at. specialize (Hlt _ _ Hk). rewrite list_lookup_fmap, Hseq by done. cbn [fmap option_fmap option_map]. f_equal.
    destruct k as [|k]; [done|]. destruct (lookup_lt_is_Some_2 symbols k ltac:(lia)) as [y Hy].
    rewrite (proj2 (placed_at symbols k k y)) by done. unfold wrap. rewrite Z.mod_small by lia. lia.
Qed.

Lemma work_of_rep symbols :
  zlen symbols < 2 ^ 32 ->
  exists w, work_of lookup_merge symbols = Ok w /\ rep (length symbols) (next_power_of_two (length symbols)) w (placed symbols).
Proof.
  intros H32. destruct (next_power_of_two_ge (length symbols)) as [Hn H1]. unfold work_of. set (half := next_power_of_two (length symbols)) in *.
  destruct (first_keys_spec half symbols 0 (replicate (2 * half) U64_MAX) [] eq_refl) as (t&me&->&Hlt&Hlm&Hkeys&Hrest); [rewrite length_replicate; lia|].
  cbn [mbind outcome_bind app]. rewrite length_replicate in Hlt.
  destruct (build_tree_heap half half t ltac:(lia) Hlt ltac:(intros q Hq; lia)) as (t'&->&Hheap&Hleaves). cbn [mbind outcome_bind].
  eexists. split; [done|]. split.
  - by apply start_links.
  - cbn [merged]. rewrite length_app, Hlm. cbn [length]. unfold zlen in H32. lia.
  - done.
  - intros p Hp. split; cbn [tree merged]; rewrite Hleaves by lia.
    + intros k x [-> Hk]%placed_at. unfold pair_of. rewrite (proj2 (placed_at symbols k k x)) by done.
      destruct (placed symbols !! S k) as [[q y]|] eqn:Hq.
      * apply placed_at in Hq as [-> Hy]. specialize (Hkeys k x y Hk Hy). cbn [Nat.add] in Hkeys. destruct (merge x y) as [[r m]|]; cbn [default] in Hkeys.
        -- destruct Hkeys as [Hkey Hm]. split; [done|]. rewrite lookup_app_l by (by eapply lookup_lt_Some). done.
        -- rewrite (proj1 Hkeys). apply no_key_none. apply lookup_lt_Some in Hk. unfold zlen in H32. lia.
      * rewrite Hrest. { unfold tget. rewrite lookup_replicate_2 by lia. apply no_key_max. }
        assert (symbols !! S k = None) as Hnone%lookup_ge_None.
        { destruct (symbols !! S k) as [y|] eqn:Hy; [|done]. rewrite (proj2 (placed_at symbols (S k) (S k) y)) in Hq by done. done. }
        lia.
    + intros Hdead. rewrite Hrest; [unfold tget; rewrite lookup_replicate_2 by lia; apply no_key_max|].
      right. assert (length symbols <= p)%nat; [|lia]. destruct (decide (length symbols <= p)%nat); [done|].
      destruct (lookup_lt_is_Some_2 symbols p ltac:(lia)) as [x Hx]. exfalso. apply Hdead, elem_of_positions. exists p, x. by apply placed_at.
Qed.

Lemma merge_all_spec symbols :
  zlen symbols < 2 ^ 32 -> merge_all lookup_merge symbols = Ok (List.filter live (bpe merge (length symbols) symbols)).
Proof.
  intros H32. unfold merge_all. destruct (work_of_rep symbols H32) as (w&->&Hr). cbn [mbind outcome_bind].
  assert (length (placed symbols) = length symbols) as Hlen by (unfold placed; apply length_imap).
  destruct (merge_loop_spec _ _ (length symbols) w _ Hr ltac:(lia)) as (w'&Hloop&Hids).
  change (zlen symbols) with (Z.of_nat (length symbols)). rewrite Hloop. cbn [mbind outcome_bind]. by rewrite Hids, placed_symbols.
Qed.

(** Merging ends with nothing left to merge: the result has no pair of
    neighbours that merges. *)
Lemma bpe_settles fuel l : (length l <= S fuel)%nat -> lowest (pairs_from merge 0 (bpe merge fuel l)) = None.
Proof.
  revert l. induction fuel as [|fuel IH]; intros l Hl; cbn [bpe].
  - destruct l as [|a [|b l]]; [done|done|cbn in Hl; lia].
  - destruct (lowest (pairs_from merge 0 l)) as [[[k r] m]|] eqn:Hlow; [|done]. apply IH. apply lowest_elem, elem_of_pairs in Hlow as (d&a&b&->&_&Hb&_).
    apply lookup_lt_Some in Hb. rewrite length_app, length_take. cbn [length]. rewrite length_drop. lia.
Qed.
End Merges.
