(* ===== verification/Table.v ===== *)
(** * Open-addressing tables

    A table of slots, each free or holding an entry, where an entry is put in
    the first free slot on a path that starts at its home and goes round the
    table. A lookup follows the path of the key it looks for to the first
    slot that is free or holds that key. Shown once here, for the tables of
    merges and of words. *)
From S2P Require Import Prelude.

(** The slots from [h] on, round a table of [size]. *)
Definition path (size h : nat) : list nat := map (fun d => (h + d) mod size)%nat (seq 0 size).

Lemma path_all size h i : (i < size)%nat -> i ∈ path size h.
Proof.
  intros Hi. unfold path. apply list_elem_of_fmap. exists ((i + size - h mod size) mod size)%nat. split.
  - pose proof (Nat.mod_upper_bound h size ltac:(lia)). rewrite Nat.Div0.add_mod_idemp_r.
    rewrite <- Nat.Div0.add_mod_idemp_l. replace (h mod size + (i + size - h mod size))%nat with (i + 1 * size)%nat by lia.
    rewrite Nat.Div0.mod_add. by rewrite Nat.mod_small.
  - apply elem_of_seq. pose proof (Nat.mod_upper_bound (i + size - h mod size) size ltac:(lia)). lia.
Qed.
Lemma path_in size h i : (0 < size)%nat -> i ∈ path size h -> (i < size)%nat.
Proof. intros Hs (d&->&_)%list_elem_of_fmap. apply Nat.mod_upper_bound. lia. Qed.

Lemma path_NoDup size h : NoDup (path size h).
Proof.
  unfold path. apply NoDup_fmap_2_strong; [|apply NoDup_seq]. intros x y Hx%elem_of_seq Hy%elem_of_seq Heq.
  pose proof (Nat.div_mod_eq (h + x) size). pose proof (Nat.div_mod_eq (h + y) size).
  rewrite Heq in *. set (q := ((h + x) / size)%nat) in *. set (q' := ((h + y) / size)%nat) in *.
  destruct (Nat.lt_trichotomy q q') as [Hq|[Hq|Hq]]; [nia|rewrite Hq in *; lia|nia].
Qed.

Section Table.
Context {K E : Type} (is_key : K -> E -> bool).
Implicit Types (T : list (option E)) (p : list nat).

(** A lookup: the slot it ends at and what that slot holds. *)
Fixpoint probe T (k : K) p : option (nat * option E) :=
  match p with
  | [] => None
  | i :: p =>
      match T !! i with
      | None => None
      | Some None => Some (i, None)
      | Some (Some e) => if is_key k e then Some (i, Some e) else probe T k p
      end
  end.
(** The first free slot. *)
Fixpoint free T p : option nat :=
  match p with
  | [] => None
  | i :: p => match T !! i with None => None | Some None => Some i | Some (Some _) => free T p end
  end.

Lemma probe_free T k p i : probe T k p = Some (i, None) -> free T p = Some i.
Proof.
  induction p as [|j p IH]; [done|]. cbn. destruct (T !! j) as [[e|]|]; [|by intros [= <-]|done]. destruct (is_key k e); [done|]. exact IH.
Qed.
Lemma free_is_free T p i : free T p = Some i -> T !! i = Some None /\ i ∈ p.
Proof.
  induction p as [|j p IH]; [done|]. cbn. rewrite elem_of_cons. destruct (T !! j) as [[e|]|] eqn:Hj; [|intros [= <-]; auto|done].
  intros H. destruct (IH H). auto.
Qed.
(** Where a slot of the path is free, the lookup ends. *)
Lemma probe_ends T k p : (forall i, i ∈ p -> (i < length T)%nat) -> (exists i, i ∈ p /\ T !! i = Some None) -> is_Some (probe T k p).
Proof.
  induction p as [|j p IH]; intros Hin (i&Hi&Hfree); [by apply not_elem_of_nil in Hi|]. cbn.
  destruct (lookup_lt_is_Some_2 T j) as [[e|] Hj]; [apply Hin, elem_of_cons; by left| |]; rewrite Hj; [|by eexists].
  destruct (is_key k e); [by eexists|]. apply IH; [intros l Hl; apply Hin, elem_of_cons; by right|].
  exists i. split; [|done]. apply elem_of_cons in Hi as [->|Hi]; [congruence|done].
Qed.

(** Filling the first free slot of the path of [k0]. *)
Lemma probe_at T k p i o : probe T k p = Some (i, o) ->
  T !! i = Some o /\ i ∈ p /\ (forall e, o = Some e -> is_key k e = true).
Proof.
  induction p as [|j p IH]; [done|]. cbn. rewrite elem_of_cons. destruct (T !! j) as [[e|]|] eqn:Hj; [|intros [= <- <-]; split_and!; auto; done|done].
  destruct (is_key k e) eqn:Hk; [intros [= <- <-]; split_and!; auto; by intros ? [= <-]|]. intros H. destruct (IH H) as (?&?&?). auto.
Qed.
Lemma free_before T p i : free T p = Some i -> exists p1 p2, p = p1 ++ i :: p2 /\ forall j, j ∈ p1 -> exists e, T !! j = Some (Some e).
Proof.
  induction p as [|j p IH]; [done|]. cbn. destruct (T !! j) as [[e|]|] eqn:Hj; [| |done].
  - intros H. destruct (IH H) as (p1&p2&->&Hocc). exists (j :: p1), p2. split; [done|]. intros l [->|Hl]%elem_of_cons; eauto.
  - intros [= <-]. exists [], p. split; [done|]. intros l []%not_elem_of_nil.
Qed.

Section Fill.
Context (T : list (option E)) (s : nat) (e : E).
Context (Hs : T !! s = Some None).
Abbreviation T' := (<[s := Some e]> T).
Lemma fill_at : T' !! s = Some (Some e).
Proof. apply list_lookup_insert_eq. by eapply lookup_lt_Some. Qed.

(** A lookup that does not end at [s] does not see it. *)
Lemma fill_elsewhere k p i o : probe T k p = Some (i, o) -> i <> s -> probe T' k p = Some (i, o).
Proof.
  induction p as [|j p IH]; [done|]. cbn. intros H Hi. destruct (decide (j = s)) as [->|Hne].
  - rewrite Hs in H. injection H as <- _. done.
  - rewrite list_lookup_insert_ne by done. destruct (T !! j) as [[e'|]|]; [|done|done]. destruct (is_key k e'); [done|by apply IH].
Qed.
(** One that ended at [s] with the key of [e] finds it there. *)
Lemma fill_found k p : is_key k e = true -> probe T k p = Some (s, None) -> probe T' k p = Some (s, Some e).
Proof.
  intros Hk. induction p as [|j p IH]; [done|]. cbn. intros H. destruct (decide (j = s)) as [->|Hne].
  - by rewrite fill_at, Hk.
  - rewrite list_lookup_insert_ne by done. destruct (T !! j) as [[e'|]|]; [|congruence|done]. destruct (is_key k e'); [congruence|by apply IH].
Qed.
(** One that ended there with another key goes on past it. *)
Lemma fill_past k p : is_key k e = false -> probe T k p = Some (s, None) ->
  exists p1 p2, p = p1 ++ s :: p2 /\ probe T' k p = probe T' k p2.
Proof.
  intros Hk. induction p as [|j p IH]; [done|]. cbn. intros H. destruct (decide (j = s)) as [->|Hne].
  - exists [], p. split; [done|]. by rewrite fill_at, Hk.
  - rewrite list_lookup_insert_ne by done. destruct (T !! j) as [[e'|]|]; [|congruence|done]. destruct (is_key k e'); [congruence|].
    destruct (IH H) as (p1&p2&->&Heq). exists (j :: p1), p2. done.
Qed.
End Fill.

(** ** Entries in the order they came *)
Context (home : K -> nat).
(** The first of the entries that has the key. *)
Definition first_of (M : list E) (k : K) : option E := List.find (is_key k) M.

(** No free slot lies on the path before the entry's own. *)
Definition reached T (k : K) (u : nat) : Prop :=
  forall p1 p2, path (length T) (home k) = p1 ++ u :: p2 -> forall i, i ∈ p1 -> exists e, T !! i = Some (Some e).
Record holds T (M : list E) : Prop := {
  holds_find : forall k i o, probe T k (path (length T) (home k)) = Some (i, o) -> o = first_of M k;
  holds_reach : forall k u e, T !! u = Some (Some e) -> is_key k e = true -> reached T k u;
  holds_count : (length (List.filter (fun o => match o with Some _ => true | None => false end) T) <= length M)%nat;
}.

Lemma holds_empty n : holds (replicate n None) [].
Proof.
  split.
  - intros k i o H. cbn. assert (forall p, probe (replicate n None) k p = Some (i, o) -> o = None) as Hp; [|by eapply Hp].
    intros [|j p]; [done|]. cbn. destruct (replicate n None !! j) as [[e|]|] eqn:Hj; [|by intros [= _ <-]|done].
    apply lookup_replicate_1 in Hj as [[=] _].
  - intros k u e Hu. apply lookup_replicate_1 in Hu as [[=] _].
  - induction n; done.
Qed.

Context (key : E -> K).
Context (key_spec : forall k e, is_key k e = true <-> key e = k).

Lemma first_of_app M e k : first_of (M ++ [e]) k = match first_of M k with Some x => Some x | None => if is_key k e then Some e else None end.
Proof. unfold first_of. induction M as [|x M IH]; cbn; [by destruct (is_key k e)|]. by destruct (is_key k x). Qed.

(** A free slot is left while there are fewer entries than slots. *)
Lemma holds_room T M : holds T M -> (length M < length T)%nat -> exists i, T !! i = Some None.
Proof.
  intros Hh Hlt. pose proof (holds_count _ _ Hh) as Hc. clear Hh.
  assert (forall l : list (option E), (length (List.filter (fun o => match o with Some _ => true | None => false end) l) < length l)%nat
            -> exists i, l !! i = Some None) as H; [|apply H; lia].
  induction l as [|[e|] l IH]; cbn; intros H; [lia| |by exists 0%nat]. destruct IH as [i Hi]; [lia|]. by exists (S i).
Qed.
Lemma holds_ends T M k : holds T M -> (length M < length T)%nat ->
  exists i, probe T k (path (length T) (home k)) = Some (i, first_of M k).
Proof.
  intros Hh Hlt. destruct (holds_room T M Hh Hlt) as [j Hj]. pose proof (lookup_lt_Some _ _ _ Hj) as Hjl.
  destruct (probe_ends T k (path (length T) (home k))) as [[i o] Hp].
  - intros i Hi. eapply path_in; [lia|done].
  - exists j. split; [by apply path_all|done].
  - exists i. rewrite Hp. by rewrite (holds_find _ _ Hh _ _ _ Hp).
Qed.

Lemma fill_count (T : list (option E)) s e : T !! s = Some None ->
  length (List.filter (fun o => match o with Some _ => true | None => false end) (<[s := Some e]> T))
  = S (length (List.filter (fun o => match o with Some _ => true | None => false end) T)).
Proof. revert s. induction T as [|[x|] T IH]; intros [|s] Hs; cbn in *; try done; rewrite IH by done; done. Qed.

Lemma fill_find T M e s k i o :
  holds T M -> free T (path (length T) (home (key e))) = Some s ->
  probe (<[s := Some e]> T) k (path (length T) (home k)) = Some (i, o) -> o = first_of (M ++ [e]) k.
Proof.
  intros Hh Hf Hp. destruct (free_is_free _ _ _ Hf) as [Hs _]. pose proof (lookup_lt_Some _ _ _ Hs) as Hsl. rewrite first_of_app.
  destruct (probe_ends T k (path (length T) (home k))) as [[i' o'] Hp'].
  { intros j Hj. eapply path_in; [lia|done]. } { exists s. split; [by apply path_all|done]. }
  pose proof (holds_find _ _ Hh _ _ _ Hp') as Ho. destruct (decide (i' = s)) as [->|Hne].
  - destruct (probe_at _ _ _ _ _ Hp') as (Hat&_&_). assert (o' = None) as -> by congruence. rewrite <- Ho. destruct (is_key k e) eqn:Hk.
    + rewrite (fill_found T s e Hs k _ Hk Hp') in Hp. congruence.
    + destruct (fill_past T s e Hs k _ Hk Hp') as (p1&p2&Hpath&Heq). rewrite Heq in Hp. destruct o as [e2|]; [|done]. exfalso.
      destruct (probe_at _ _ _ _ _ Hp) as (Hat2&Hin&Hkey). specialize (Hkey e2 eq_refl).
      destruct (decide (i = s)) as [->|Hns]; [rewrite (fill_at T s e Hs) in Hat2; congruence|]. rewrite list_lookup_insert_ne in Hat2 by done.
      apply list_elem_of_split in Hin as (q1&q2&->). destruct (holds_reach _ _ Hh k i e2 Hat2 Hkey (p1 ++ s :: q1) q2) with (i := s) as [e3 He3].
      * rewrite Hpath, <- app_assoc. done.
      * apply elem_of_app. right. apply elem_of_cons. by left.
      * congruence.
  - rewrite (fill_elsewhere T s e Hs k _ _ _ Hp' Hne) in Hp. assert (o = o') as -> by congruence. rewrite <- Ho.
    destruct o' as [x|]; [done|]. destruct (is_key k e) eqn:Hk; [|done]. apply key_spec in Hk as <-.
    apply probe_free in Hp'. congruence.
Qed.

Lemma holds_fill T M e s :
  holds T M -> free T (path (length T) (home (key e))) = Some s -> holds (<[s := Some e]> T) (M ++ [e]).
Proof.
  intros Hh Hf. destruct (free_is_free _ _ _ Hf) as [Hs _]. split; rewrite ?length_insert.
  - intros k i o Hp. by eapply fill_find.
  - assert (forall i x, T !! i = Some (Some x) -> exists x', <[s := Some e]> T !! i = Some (Some x')) as Hkept.
    { intros i x Hi. destruct (decide (i = s)) as [->|]; [congruence|]. exists x. by rewrite list_lookup_insert_ne. }
    intros k u x Hu Hkey p1 p2. rewrite length_insert. intros Hpath i Hi. destruct (decide (u = s)) as [->|Hne].
    + rewrite (fill_at T s e Hs) in Hu. injection Hu as <-. apply key_spec in Hkey as <-.
      destruct (free_before _ _ _ Hf) as (q1&q2&Hq&Hocc). pose proof (path_NoDup (length T) (home (key e))) as Hnd. rewrite Hpath in Hq, Hnd.
      assert (p1 = q1) as ->; [|destruct (Hocc i Hi) as [x Hx]; eauto]. clear -Hq Hnd. revert q1 Hq. induction p1 as [|a p1 IH]; intros [|b q1] Hq; cbn in *.
      * done.
      * injection Hq as <- ->. apply NoDup_cons in Hnd as [Hn _]. exfalso. apply Hn. apply elem_of_app. right. apply elem_of_cons. by left.
      * injection Hq as -> <-. apply NoDup_cons in Hnd as [Hn _]. exfalso. apply Hn. apply elem_of_app. right. apply elem_of_cons. by left.
      * injection Hq as -> Hq. apply NoDup_cons in Hnd as [_ Hnd]. f_equal. by apply IH.
    + rewrite list_lookup_insert_ne in Hu by done. destruct (holds_reach _ _ Hh k u x Hu Hkey p1 p2 Hpath i Hi) as [y Hy]. eauto.
  - rewrite fill_count by done. rewrite length_app. cbn. pose proof (holds_count _ _ Hh). lia.
Qed.
End Table.
