(* ===== verification/Lookup.v ===== *)
(** * The tokenizer's tables ([token/mod.rs])

    The merges and the words of a vocabulary, in open-addressing tables of a
    power of two slots: a lookup in the table of merges gives the first merge
    of a pair that was put in it, one in the table of words the first token
    of a text. A lookup that would go round for ever is [Err tt]. *)
From S2P Require Import Prelude Bytes Token Table Bpe.

Definition GOLDEN : Z := 0x9E3779B97F4A7C15.
Definition slot (key mask : Z) : Z := Z.land (Z.shiftr (wrap 64 (key * GOLDEN)) 40) mask.

(** [find]: the entry of a pair, or the free one where it belongs. *)
Fixpoint find_from (fuel : nat) (table : list Z) (mask i a b : Z) : outcome unit (Z * list Z) :=
  e ← or_panic (zslice table (4 * i) (4 * i + 4));
  e0 ← idx e 0; e1 ← idx e 1;
  if (e0 =? NONE) || ((e0 =? a) && (e1 =? b)) then Ok (4 * i, e)
  else match fuel with O => Err tt | S fuel => find_from fuel table mask (Z.land (i + 1) mask) a b end.
Definition find (table : list Z) (a b : Z) : outcome unit (Z * list Z) :=
  let mask := zlen table / 4 - 1 in
  if mask <? 0 then Panic else find_from (length table) table mask (slot (Z.lor (Z.shiftl a 32) b) mask) a b.

(** [Tokenizer::merge]. *)
Definition merge (t : Tokenizer) (a b : Z) : outcome unit (option (Z * Z)) :=
  '(_, e) ← find (merges t) a b;
  e0 ← idx e 0; e2 ← idx e 2; e3 ← idx e 3;
  Ok (if e0 =? NONE then None else Some (e2, e3)).

(** The loop of [build] over the merges, each [[a, b, rank, merged]]: put
    where it belongs, unless the pair has one. *)
Definition put_merge (table : list Z) (key : Z * Z * (Z * Z)) : outcome unit (list Z) :=
  let '(a, b, (r, c)) := key in
  '(at_, e) ← find table a b;
  e0 ← idx e 0;
  if e0 =? NONE then
    _ ← or_panic (zslice table at_ (at_ + 4));
    Ok (ztake at_ table ++ [a; b; r; c] ++ zdrop (at_ + 4) table)
  else Ok table.
Fixpoint put_merges (table : list Z) (keys : list (Z * Z * (Z * Z))) : outcome unit (list Z) :=
  match keys with [] => Ok table | k :: keys => table ← put_merge table k; put_merges table keys end.
(** [vec![NONE; 4 * (2 * n).next_power_of_two().max(2)]]. *)
Definition empty_merges (n : nat) : list Z := replicate (4 * Nat.max (next_power_of_two (2 * n)) 2) NONE.

(** [fnv]: FNV-1a of 64 bits. *)
Definition fnv (b : list Z) : Z := fold_left (fun h x => wrap 64 (Z.lxor h x * 0x100000001B3)) b 0xCBF29CE484222325.

(** [Tokenizer::word]. *)
Fixpoint word_from (fuel : nat) (t : Tokenizer) (mask i : Z) (text : list Z) : outcome unit (option Z) :=
  id ← or_panic (zget (words t) i);
  if id =? NONE then Ok None
  else
    b ← token_bytes t id;
    if bool_decide (b = text) then Ok (Some id)
    else match fuel with O => Err tt | S fuel => word_from fuel t mask (Z.land (i + 1) mask) text end.
Definition word (t : Tokenizer) (text : list Z) : outcome unit (option Z) :=
  if zlen (words t) =? 0 then Ok None
  else let mask := zlen (words t) - 1 in word_from (length (words t)) t mask (slot (fnv text) mask) text.

(** The loop of [index_words] that puts [id] in the first free slot. *)
Fixpoint put_word_from (fuel : nat) (table : list Z) (mask i id : Z) : outcome unit (list Z) :=
  x ← or_panic (zget table i);
  if x =? NONE then Ok (<[Z.to_nat i := id]> table)
  else match fuel with O => Err tt | S fuel => put_word_from fuel table mask (Z.land (i + 1) mask) id end.
Fixpoint put_words (t : Tokenizer) (table : list Z) (ids : list Z) : outcome unit (list Z) :=
  match ids with
  | [] => Ok table
  | id :: ids =>
      let mask := zlen table - 1 in
      b ← token_bytes t id;
      table ← put_word_from (length table) table mask (slot (fnv b) mask) id;
      put_words t table ids
  end.
(** The tokens of [0..len] that [skip] does not hold. *)
Definition wordy (t : Tokenizer) (skip : list Z) : list Z :=
  List.filter (fun id => negb (bool_decide (id ∈ skip))) (map Z.of_nat (seq 0 (Z.to_nat (t_len t)))).
Definition set_words (t : Tokenizer) (w : list Z) : Tokenizer :=
  mkTokenizer (flags t) (unk t) (offsets t) (t_text t) (special t) (t_bytes t) (chars t) (rare t) (joins t) (added t) (merges t) w (frame t).
Definition index_words (t : Tokenizer) (skip : list Z) : outcome unit Tokenizer :=
  w ← put_words t (replicate (Nat.max (next_power_of_two (2 * Z.to_nat (t_len t))) 2) NONE) (wordy t skip);
  Ok (set_words t w).

(** ** Paths of a power of two *)
Definition two_power (n : nat) : Prop := exists k, n = (2 ^ k)%nat.

Lemma land_mask x size : two_power size -> Z.land x (Z.of_nat size - 1) = x mod Z.of_nat size.
Proof.
  intros [k ->]. rewrite Nat2Z.inj_pow. change (Z.of_nat 2) with 2. replace (2 ^ Z.of_nat k - 1) with (Z.ones (Z.of_nat k)) by (rewrite Z.ones_equiv; lia).
  apply Z.land_ones. lia.
Qed.
Lemma two_power_pos n : two_power n -> (0 < n)%nat.
Proof. intros [k ->]. induction k; cbn; lia. Qed.
Lemma pow2_from_power fuel n p : two_power p -> two_power (pow2_from fuel n p).
Proof.
  revert p. induction fuel as [|fuel IH]; intros p Hp; [done|]. cbn [pow2_from]. destruct (p <? n)%nat; [|done].
  apply IH. destruct Hp as [k ->]. by exists (S k).
Qed.
Lemma table_size n : two_power (Nat.max (next_power_of_two (2 * n)) 2) /\ (n < Nat.max (next_power_of_two (2 * n)) 2)%nat.
Proof.
  assert (two_power (next_power_of_two (2 * n))) as H by (apply pow2_from_power; by exists 0%nat).
  assert (2 * n <= next_power_of_two (2 * n))%nat.
  { unfold next_power_of_two. assert (forall fuel p, (1 <= p -> 2 * n <= p + fuel -> 2 * n <= pow2_from fuel (2 * n) p)%nat) as Hge; [|apply Hge; lia].
    intros fuel. induction fuel as [|fuel IH]; intros p Hp Hf; cbn [pow2_from]; [lia|]. destruct (Nat.ltb_spec p (2 * n)); [apply IH; lia|lia]. }
  split; [|lia]. destruct (Nat.max_spec (next_power_of_two (2 * n)) 2) as [[_ ->]|[_ ->]]; [by exists 1%nat|done].
Qed.

(** Where the path of a key starts. *)
Definition home (key : Z) : nat := Z.to_nat (Z.shiftr (wrap 64 (key * GOLDEN)) 40).
Definition step_at (size h d : nat) : nat := ((h + d) mod size)%nat.
Lemma slot_home key size : two_power size -> slot key (Z.of_nat size - 1) = Z.of_nat (step_at size (home key) 0).
Proof.
  intros Hs. unfold slot, step_at, home. rewrite land_mask by done. rewrite Nat.add_0_r, Nat2Z.inj_mod, Z2Nat.id; [done|].
  apply Z.shiftr_nonneg. by apply (wrap_fits 64).
Qed.
Lemma slot_next size h d : two_power size -> Z.land (Z.of_nat (step_at size h d) + 1) (Z.of_nat size - 1) = Z.of_nat (step_at size h (S d)).
Proof.
  intros Hs. rewrite land_mask by done. unfold step_at. rewrite !Nat2Z.inj_mod. pose proof (two_power_pos _ Hs).
  rewrite Z.add_mod_idemp_l by lia. f_equal. lia.
Qed.
Lemma step_lt size h d : two_power size -> (step_at size h d < size)%nat.
Proof. intros Hs%two_power_pos. apply Nat.mod_upper_bound. lia. Qed.

Section Probes.
Context {K E : Type} (is_key : K -> E -> bool).
(** A lookup that goes on past the whole path. *)
Lemma probe_longer T k p q x : probe is_key T k p = Some x -> probe is_key T k (p ++ q) = Some x.
Proof.
  induction p as [|i p IH]; [done|]. cbn. destruct (T !! i) as [[e|]|]; [|done|done]. destruct (is_key k e); [done|exact IH].
Qed.
Lemma probe_path T k h fuel x : (length T <= S fuel)%nat -> probe is_key T k (path (length T) h) = Some x ->
  probe is_key T k (map (step_at (length T) h) (seq 0 (S fuel))) = Some x.
Proof.
  intros Hf Hp. replace (S fuel) with (length T + (S fuel - length T))%nat by lia. rewrite seq_app, map_app. by apply probe_longer.
Qed.
End Probes.

(** ** The table of merges *)
Abbreviation entry := (Z * Z * (Z * Z))%type.
Definition is_pair (k : Z * Z) (e : entry) : bool := (fst (fst e) =? fst k) && (snd (fst e) =? snd k).
Definition row (table : list Z) (i : nat) : list Z := take 4 (drop (4 * i) table).
Definition row_slot (r : list Z) : option entry :=
  match r with [a; b; r; c] => if a =? NONE then None else Some (a, b, (r, c)) | _ => None end.
Definition slots (size : nat) (table : list Z) : list (option entry) := map (fun i => row_slot (row table i)) (seq 0 size).
Definition pair_home (k : Z * Z) : nat := home (Z.lor (Z.shiftl (fst k) 32) (snd k)).

Lemma is_pair_spec k e : is_pair k e = true <-> fst e = k.
Proof. destruct e as [[a b] rc], k as [x y]. unfold is_pair. cbn. rewrite andb_true_iff, !Z.eqb_eq. split; [by intros [-> ->]|by intros [= -> ->]]. Qed.
Lemma slots_at size table i : (i < size)%nat -> slots size table !! i = Some (row_slot (row table i)).
Proof. intros Hi. unfold slots. rewrite list_lookup_fmap, lookup_seq_lt by done. done. Qed.
Lemma row_four size table i : length table = (4 * size)%nat -> (i < size)%nat ->
  exists a b r c, row table i = [a; b; r; c] /\ zslice table (4 * Z.of_nat i) (4 * Z.of_nat i + 4) = Some (row table i).
Proof.
  intros Hl Hi. assert (length (row table i) = 4%nat) as H4 by (unfold row; rewrite length_take, length_drop; lia).
  destruct (row table i) as [|a [|b [|r [|c [|? ?]]]]] eqn:Hr; try done. exists a, b, r, c. split; [done|]. rewrite <- Hr. apply zslice_Some.
  unfold zlen. split_and!; [lia|lia|lia|]. unfold row, ztake, zdrop. f_equal; [lia|f_equal; lia].
Qed.

Lemma find_from_probe size table a b h fuel d :
  two_power size -> length table = (4 * size)%nat ->
  find_from fuel table (Z.of_nat size - 1) (Z.of_nat (step_at size h d)) a b =
  match probe is_pair (slots size table) (a, b) (map (step_at size h) (seq d (S fuel))) with
  | Some (i, _) => Ok (4 * Z.of_nat i, row table i)
  | None => Err tt
  end.
Proof.
  intros Hs Hl. revert d. induction fuel as [|fuel IH]; intros d; pose proof (step_lt size h d Hs) as Hlt;
    destruct (row_four size table (step_at size h d) Hl Hlt) as (x&y&r&c&Hrow&Hsl);
    cbn [find_from seq map probe]; rewrite Hsl, slots_at by done; rewrite Hrow; cbn [or_panic mbind outcome_bind idx lookup list_lookup row_slot].
  - destruct (x =? NONE); cbn [orb]; [by rewrite <- Hrow|]. unfold is_pair; cbn [fst snd]. destruct ((x =? a) && (y =? b)); [by rewrite <- Hrow|done].
  - destruct (x =? NONE); cbn [orb]; [by rewrite <- Hrow|]. unfold is_pair at 1; cbn [fst snd]. destruct ((x =? a) && (y =? b)); [by rewrite <- Hrow|].
    rewrite slot_next by done. apply IH.
Qed.

Lemma slots_length size table : length (slots size table) = size.
Proof. unfold slots. by rewrite length_map, length_seq. Qed.

(** A table of merges that holds these entries. *)
Definition merges_of (size : nat) (table : list Z) (M : list entry) : Prop :=
  two_power size /\ length table = (4 * size)%nat /\ (length M < size)%nat /\ holds is_pair pair_home (slots size table) M.

Lemma find_spec size table M a b : merges_of size table M ->
  exists i, find table a b = Ok (4 * Z.of_nat i, row table i) /\ (i < size)%nat
    /\ probe is_pair (slots size table) (a, b) (path size (pair_home (a, b))) = Some (i, first_of is_pair M (a, b)).
Proof.
  intros (Hs&Hl&Hlt&Hh). destruct (holds_ends is_pair pair_home (slots size table) M (a, b) Hh) as [i Hp]; [by rewrite slots_length|].
  rewrite slots_length in Hp. exists i. pose proof (two_power_pos _ Hs). split.
  - unfold find. assert (zlen table / 4 - 1 = Z.of_nat size - 1) as -> by (unfold zlen; rewrite Hl, Nat2Z.inj_mul, Z.mul_comm, Z.div_mul by lia; lia).
    destruct (Z.ltb_spec (Z.of_nat size - 1) 0); [lia|]. rewrite slot_home by done. rewrite (find_from_probe size) by done.
    pose proof (probe_path is_pair (slots size table) (a, b) (pair_home (a, b)) (length table) (i, first_of is_pair M (a, b))) as Hpp.
    rewrite slots_length in Hpp. unfold pair_home in Hpp at 2. cbn [fst snd] in Hpp. by rewrite Hpp by (lia || done).
  - split; [|done]. apply probe_at in Hp as (_&Hin&_). eapply path_in; [lia|done].
Qed.

(** What the lookup of a pair gives: the first merge of it. *)
Lemma merge_spec t size M a b : merges_of size (merges t) M -> merge t a b = Ok (snd <$> first_of is_pair M (a, b)).
Proof.
  intros HM. destruct (find_spec size _ M a b HM) as (i&Hf&Hi&Hp). unfold merge. rewrite Hf. cbn [mbind outcome_bind].
  destruct HM as (_&Hl&_&_). destruct (row_four size (merges t) i Hl Hi) as (x&y&r&c&Hrow&_).
  apply probe_at in Hp as (Hat&_&_). rewrite slots_at in Hat by done. injection Hat as <-. rewrite Hrow.
  cbn [idx or_panic lookup list_lookup mbind outcome_bind row_slot]. by destruct (x =? NONE).
Qed.

Definition put_row (table : list Z) (i : nat) (e : entry) : list Z :=
  let '(a, b, (r, c)) := e in ztake (4 * Z.of_nat i) table ++ [a; b; r; c] ++ zdrop (4 * Z.of_nat i + 4) table.
Lemma put_row_at size table i e j :
  length table = (4 * size)%nat -> (i < size)%nat -> row (put_row table i e) j = if Nat.eqb j i then [fst (fst e); snd (fst e); fst (snd e); snd (snd e)] else row table j.
Proof.
  intros Hl Hi. destruct e as [[a b] [r c]]. unfold put_row, ztake, zdrop. cbn [fst snd]. set (n := Z.to_nat (4 * Z.of_nat i)).
  assert (n = 4 * i)%nat as Hn by lia. replace (Z.to_nat (4 * Z.of_nat i + 4)) with (n + 4)%nat by lia. clearbody n. subst n.
  assert (length (take (4 * i) table) = 4 * i)%nat as Ht by (rewrite length_take; lia). unfold row.
  destruct (Nat.eqb_spec j i) as [->|Hne].
  - rewrite drop_app_length' by done. cbn. by rewrite take_0.
  - destruct (decide (j < i)%nat) as [Hlt|Hge].
    + rewrite drop_app_le by lia. rewrite take_app_le by (rewrite length_drop; lia).
      apply list_eq. intros q. destruct (decide (q < 4)%nat); [|by rewrite !lookup_take_ge by lia].
      rewrite !lookup_take_lt by lia. rewrite !lookup_drop. by rewrite lookup_take_lt by lia.
    + rewrite drop_app_ge by lia. rewrite Ht. replace (4 * j - 4 * i)%nat with (length [a; b; r; c] + (4 * j - (4 * i + 4)))%nat by (cbn; lia).
      rewrite <- drop_drop. rewrite drop_app_length. rewrite drop_drop. do 2 f_equal. lia.
Qed.
Lemma put_row_slots size table i e :
  length table = (4 * size)%nat -> (i < size)%nat -> fst (fst e) <> NONE ->
  slots size (put_row table i e) = <[i := Some e]> (slots size table).
Proof.
  intros Hl Hi Hne. apply list_eq. intros j. destruct (decide (j < size)%nat) as [Hj|Hj].
  - rewrite slots_at by done. rewrite (put_row_at size) by done. destruct (Nat.eqb_spec j i) as [->|Hji].
    + rewrite list_lookup_insert_eq by (by rewrite slots_length). destruct e as [[a b] [r c]]. cbn in *. by destruct (Z.eqb_spec a NONE).
    + rewrite list_lookup_insert_ne by done. by rewrite slots_at.
  - rewrite !lookup_ge_None_2; [done| |]; rewrite ?length_insert, slots_length; lia.
Qed.
Lemma put_row_length size table i e : length table = (4 * size)%nat -> (i < size)%nat -> length (put_row table i e) = (4 * size)%nat.
Proof.
  intros Hl Hi. destruct e as [[a b] [r c]]. unfold put_row, ztake, zdrop. rewrite !length_app, length_take, length_drop. cbn [length]. lia.
Qed.

(** The entries a table of merges ends up with: the first of each pair. *)
Definition keeps (M keys : list entry) : Prop :=
  (length M <= length keys)%nat /\ (forall e, e ∈ M -> e ∈ keys) /\ forall k, first_of is_pair M k = first_of is_pair keys k.
Lemma put_merge_spec size table M keys e :
  merges_of size table M -> keeps M keys -> fst (fst e) <> NONE -> (S (length keys) < size)%nat ->
  exists table' M', put_merge table e = Ok table' /\ merges_of size table' M' /\ keeps M' (keys ++ [e]).
Proof.
  intros HM (Hlen&Hsub&Hk) Hne Hlt. pose proof HM as (Hs&Hl&_&Hh). destruct e as [[a b] [r c]]. cbn [fst snd] in Hne.
  destruct (find_spec size table M a b HM) as (i&Hf&Hi&Hp). unfold put_merge. rewrite Hf. cbn [mbind outcome_bind].
  destruct (row_four size table i Hl Hi) as (x&y&r0&c0&Hrow&Hsl). rewrite Hsl, Hrow. cbn [or_panic idx lookup list_lookup mbind outcome_bind].
  pose proof (probe_at _ _ _ _ _ _ Hp) as (Hat&_&_). rewrite slots_at, Hrow in Hat by done. cbn [row_slot] in Hat.
  assert (forall k, first_of is_pair (keys ++ [(a, b, (r, c))]) k = match first_of is_pair keys k with Some z => Some z
            | None => if is_pair k (a, b, (r, c)) then Some (a, b, (r, c)) else None end) as Happ by (intros k; apply first_of_app).
  destruct (Z.eqb_spec x NONE) as [->|Hx].
  - injection Hat as Hnone. exists (put_row table i (a, b, (r, c))), (M ++ [(a, b, (r, c))]). split; [done|]. split.
    + split; [done|]. split; [by apply put_row_length|]. split; [rewrite length_app; cbn; lia|]. rewrite put_row_slots by done.
      eapply (holds_fill is_pair pair_home fst is_pair_spec); [done|]. rewrite slots_length. cbn [fst].
      rewrite <- Hnone in Hp. by apply probe_free in Hp.
    + split; [rewrite !length_app; cbn; lia|]. split; [intros e; rewrite !elem_of_app; intros [He|He]; [left; by apply Hsub|by right]|]. intros k. rewrite Happ, first_of_app by apply is_pair_spec. by rewrite Hk.
  - exists table, M. split; [done|]. split; [done|]. split; [rewrite length_app; cbn; lia|].
    split; [intros e He; apply elem_of_app; left; by apply Hsub|]. intros k. rewrite Happ, <- Hk.
    destruct (first_of is_pair M k) eqn:Hfo; [done|]. destruct (is_pair k (a, b, (r, c))) eqn:Hpair; [|done]. apply is_pair_spec in Hpair as <-. cbn in Hfo. congruence.
Qed.

Lemma put_merges_spec size table M done_ keys :
  merges_of size table M -> keeps M done_ -> Forall (fun e => fst (fst e) <> NONE) keys -> (length done_ + length keys < size)%nat ->
  exists table' M', put_merges table keys = Ok table' /\ merges_of size table' M' /\ keeps M' (done_ ++ keys).
Proof.
  revert table M done_. induction keys as [|e keys IH]; intros table M done_ HM Hk Hne Hlt.
  - exists table, M. by rewrite app_nil_r.
  - apply Forall_cons in Hne as [He Hne]. cbn [length] in Hlt. destruct (put_merge_spec size table M done_ e HM Hk He ltac:(lia)) as (table1&M1&Hput&HM1&Hk1).
    cbn [put_merges]. rewrite Hput. cbn [mbind outcome_bind]. destruct (IH table1 M1 (done_ ++ [e]) HM1 Hk1 Hne) as (table2&M2&Hall&HM2&Hk2); [rewrite length_app; cbn; lia|].
    exists table2, M2. rewrite <- app_assoc in Hk2. done.
Qed.
Lemma empty_merges_spec n : merges_of (Nat.max (next_power_of_two (2 * n)) 2) (empty_merges n) [].
Proof.
  destruct (table_size n) as [Hp Hlt]. set (size := Nat.max _ _) in *. split; [done|]. split; [by unfold empty_merges; rewrite length_replicate|].
  split; [cbn; lia|]. assert (slots size (empty_merges n) = replicate size None) as ->; [|apply holds_empty].
  apply list_eq. intros i. destruct (decide (i < size)%nat) as [Hi|Hi]; [|rewrite !lookup_ge_None_2; rewrite ?slots_length, ?length_replicate; (lia || done)].
  rewrite slots_at, lookup_replicate_2 by done. f_equal. unfold row, empty_merges. fold size. rewrite drop_replicate, take_replicate.
  replace (Nat.min 4 (4 * size - 4 * i)) with 4%nat by lia. done.
Qed.

(** The merges of [keys]: each lookup gives the first of its pair. *)
Lemma merges_table keys :
  Forall (fun e => fst (fst e) <> NONE) keys ->
  exists table size M, put_merges (empty_merges (length keys)) keys = Ok table /\ merges_of size table M
    /\ (forall e, e ∈ M -> e ∈ keys) /\ forall k, first_of is_pair M k = first_of is_pair keys k.
Proof.
  intros Hne. pose proof (empty_merges_spec (length keys)) as HM. destruct (table_size (length keys)) as [_ Hlt].
  destruct (put_merges_spec _ _ _ [] keys HM ltac:(done) Hne ltac:(cbn [length]; lia)) as (table&M&Hput&HM'&_&Hsub&Hk). eauto 10.
Qed.

(** ** The table of words *)
Section Words.
Context (t : Tokenizer) (t_ok : texts_ok t).
Definition word_slot (id : Z) : option Z := if id =? NONE then None else Some id.
Definition has_text (text : list Z) (id : Z) : bool := bool_decide (said_by t id = text).
Definition text_home (text : list Z) : nat := home (fnv text).
Lemma has_text_spec text id : has_text text id = true <-> said_by t id = text.
Proof. apply bool_decide_eq_true. Qed.

Lemma zget_at {A} (l : list A) i : zget l (Z.of_nat i) = l !! i.
Proof. unfold zget. destruct (Z.ltb_spec (Z.of_nat i) 0); [lia|]. by rewrite Nat2Z.id. Qed.

Lemma word_from_probe table text h fuel d :
  two_power (length table) ->
  word_from fuel (set_words t table) (zlen table - 1) (Z.of_nat (step_at (length table) h d)) text =
  match probe has_text (map word_slot table) text (map (step_at (length table) h) (seq d (S fuel))) with
  | Some (_, o) => Ok o
  | None => Err tt
  end.
Proof.
  intros Hs. revert d. unfold zlen. induction fuel as [|fuel IH]; intros d; pose proof (step_lt _ h d Hs) as Hlt;
    destruct (lookup_lt_is_Some_2 table _ Hlt) as [id Hid]; cbn [word_from seq map probe words set_words]; rewrite zget_at, Hid, list_lookup_fmap, Hid;
    cbn [or_panic mbind outcome_bind fmap option_fmap option_map]; unfold word_slot at 1; destruct (id =? NONE); try done;
    change (@token_bytes unit (set_words t table) id) with (@token_bytes unit t id); rewrite (proj1 (token_bytes_ok t id t_ok)); cbn [mbind outcome_bind];
    fold (has_text text id); destruct (has_text text id); try done.
  rewrite slot_next by done. apply IH.
Qed.

Fixpoint free_longer (T : list (option Z)) p q i : free T p = Some i -> free T (p ++ q) = Some i.
Proof. destruct p as [|j p]; [done|]. cbn. destruct (T !! j) as [[e|]|]; [|done|done]. apply free_longer. Qed.
Lemma put_word_free table id h fuel d :
  two_power (length table) ->
  put_word_from fuel table (zlen table - 1) (Z.of_nat (step_at (length table) h d)) id =
  match free (map word_slot table) (map (step_at (length table) h) (seq d (S fuel))) with
  | Some i => Ok (<[i := id]> table)
  | None => Err tt
  end.
Proof.
  intros Hs. revert d. unfold zlen. induction fuel as [|fuel IH]; intros d; pose proof (step_lt _ h d Hs) as Hlt;
    destruct (lookup_lt_is_Some_2 table _ Hlt) as [x Hx]; cbn [put_word_from seq map free]; rewrite zget_at, Hx, list_lookup_fmap, Hx;
    cbn [or_panic mbind outcome_bind fmap option_fmap option_map]; unfold word_slot at 1; destruct (x =? NONE); rewrite ?Nat2Z.id; try done.
  rewrite slot_next by done. apply IH.
Qed.

Definition words_of (table : list Z) (M : list Z) : Prop :=
  two_power (length table) /\ (length M < length table)%nat /\ holds has_text text_home (map word_slot table) M.

Lemma words_find table M text : words_of table M -> word (set_words t table) text = Ok (first_of has_text M text).
Proof.
  intros (Hs&Hlt&Hh). destruct (holds_ends has_text text_home _ M text Hh) as [i Hp]; [by rewrite length_map|]. rewrite length_map in Hp.
  unfold word. cbn [words set_words]. destruct (Z.eqb_spec (zlen table) 0) as [Hz|_]; [unfold zlen in Hz; pose proof (two_power_pos _ Hs); lia|].
  change (zlen table - 1) with (Z.of_nat (length table) - 1). rewrite slot_home by done. change (Z.of_nat (length table) - 1) with (zlen table - 1).
  rewrite word_from_probe by done. pose proof (probe_path has_text (map word_slot table) text (text_home text) (length table) (i, first_of has_text M text) ltac:(rewrite length_map; lia)) as Hpp.
  rewrite length_map in Hpp. unfold text_home in Hpp at 2. by rewrite (Hpp Hp).
Qed.

Lemma put_word_spec table M id :
  words_of table M -> id <> NONE -> (S (length M) < length table)%nat ->
  exists table', put_word_from (length table) table (zlen table - 1) (slot (fnv (said_by t id)) (zlen table - 1)) id = Ok table'
    /\ length table' = length table /\ words_of table' (M ++ [id]).
Proof.
  intros (Hs&Hlt&Hh) Hid Hroom. change (zlen table - 1) with (Z.of_nat (length table) - 1). rewrite slot_home by done.
  change (Z.of_nat (length table) - 1) with (zlen table - 1). rewrite put_word_free by done.
  destruct (holds_room has_text text_home _ M Hh) as [j Hj]; [by rewrite length_map|].
  assert (is_Some (free (map word_slot table) (path (length table) (text_home (said_by t id))))) as [i Hi].
  { destruct (probe_ends (fun _ _ => false) (map word_slot table) tt (path (length table) (text_home (said_by t id)))) as [[i o] Hp].
    - intros i Hi. rewrite length_map. eapply path_in; [pose proof (two_power_pos _ Hs); lia|done].
    - exists j. split; [|done]. apply path_all. apply lookup_lt_Some in Hj. by rewrite length_map in Hj.
    - destruct o as [x|]; [|exists i; by eapply probe_free]. apply probe_at in Hp as (_&_&Hk). by specialize (Hk x eq_refl). }
  exists (<[i := id]> table). replace (S (length table)) with (length table + 1)%nat by lia. rewrite seq_app, map_app, (free_longer _ _ _ i) by exact Hi.
  split; [done|]. rewrite length_insert. split; [done|]. split; [by rewrite length_insert|]. split; [rewrite length_insert, length_app; cbn [length]; lia|].
  assert (map word_slot (<[i := id]> table) = <[i := Some id]> (map word_slot table)) as ->.
  { change (word_slot <$> <[i := id]> table = <[i := Some id]> (word_slot <$> table)). rewrite list_fmap_insert. f_equal. unfold word_slot.
    by destruct (Z.eqb_spec id NONE). }
  apply (holds_fill has_text text_home (said_by t) has_text_spec); [done|]. by rewrite length_map.
Qed.

Lemma put_words_spec table M ids :
  words_of table M -> Forall (fun id => id <> NONE) ids -> (length M + length ids < length table)%nat ->
  exists table', put_words t table ids = Ok table' /\ words_of table' (M ++ ids).
Proof.
  revert table M. induction ids as [|id ids IH]; intros table M HM Hids Hlt; [exists table; by rewrite app_nil_r|].
  apply Forall_cons in Hids as [Hid Hids]. cbn [length] in Hlt. cbn [put_words]. rewrite (proj1 (token_bytes_ok t id t_ok)). cbn [mbind outcome_bind].
  destruct (put_word_spec table M id HM Hid ltac:(lia)) as (table1&->&Hl&HM1). cbn [mbind outcome_bind].
  destruct (IH table1 (M ++ [id]) HM1 Hids) as (table2&Hall&HM2); [rewrite length_app; cbn [length]; lia|]. exists table2. rewrite <- app_assoc in HM2. done.
Qed.

(** The words of a vocabulary: each lookup gives the first token of the text. *)
Lemma index_words_spec skip : t_len t < NONE ->
  exists table, index_words t skip = Ok (set_words t table)
    /\ forall text, word (set_words t table) text = Ok (first_of has_text (wordy t skip) text).
Proof.
  intros Hlen. unfold index_words. set (n := Z.to_nat (t_len t)) in *. destruct (table_size n) as [Hp Hlt]. set (size := Nat.max _ _) in *.
  assert (words_of (replicate size NONE) []) as H0.
  { split; [by rewrite length_replicate|]. split; [rewrite length_replicate; cbn [length]; lia|].
    assert (map word_slot (replicate size NONE) = replicate size None) as ->; [|apply holds_empty]. clear. induction size as [|s IH]; cbn; [done|]. by rewrite IH. }
  assert (length (wordy t skip) <= n)%nat as Hw.
  { unfold wordy. fold n. etrans; [apply List.filter_length_le|]. by rewrite length_map, length_seq. }
  destruct (put_words_spec (replicate size NONE) [] (wordy t skip) H0) as (table&Hput&HM).
  - apply Forall_forall. intros id Hid. apply list_elem_of_In, List.filter_In in Hid as [Hid _]. apply list_elem_of_In, list_elem_of_fmap in Hid as (k&->&Hk%elem_of_seq). lia.
  - rewrite length_replicate. cbn [length]. lia.
  - exists table. rewrite Hput. split; [done|]. intros text. by apply words_find.
Qed.
End Words.
