(* ===== verification/TokFile.v ===== *)
(** * The stored tokenizer ([token/mod.rs], [to_bytes] and [from_bytes])

    A tokenizer's tables as a file of little-endian words, section by section,
    each after its length. *)
From S2P Require Import Prelude Bytes Token.

(** Four bytes of text as a word, the last one's missing bytes zero. *)
Definition text_word (c : list Z) : Z := be_fold 32 (rev c).
Definition section_bytes (s : list Z) : list Z := le_bytes 4 (zlen s) ++ concat (map (le_bytes 4) s).
Definition sections_of (t : Tokenizer) : list (list Z) :=
  [[flags t; unk t; wrap 32 (zlen (t_text t)); fst (frame t); snd (frame t)]; offsets t; map text_word (chunks 4 (t_text t));
   special t; t_bytes t; chars t; rare t; joins t; added t; merges t]
  ++ (if zlen (words t) =? 0 then [] else [words t]).
Definition to_bytes (t : Tokenizer) : list Z := TOK_MAGIC ++ concat (map section_bytes (sections_of t)).

Definition damaged : error :=
  Format [Lit "tokenizer.tok: damaged, or written by an older Tachyon; convert the model again"].

(** [chunks_exact(4)] as words. *)
Fixpoint words_in (fuel : nat) (l : list Z) : list Z :=
  match fuel, l with
  | S fuel, a :: b :: c :: d :: l => le_val [a; b; c; d] :: words_in fuel l
  | _, _ => []
  end.
(** [section]: a run of words after its length. *)
Definition section (ws : list Z) : result (list Z * list Z) :=
  match ws with
  | [] => Err damaged
  | n :: ws => let s := ztake n ws in if zlen s =? n then Ok (s, zdrop n ws) else Err damaged
  end.
Fixpoint read_sections (n : nat) (ws : list Z) : result (list (list Z) * list Z) :=
  match n with
  | O => Ok ([], ws)
  | S n => '(s, ws) ← section ws; '(ss, ws) ← read_sections n ws; Ok (s :: ss, ws)
  end.
Definition is_power_of_two (n : Z) : bool := (0 <? n) && (2 ^ Z.log2 n =? n).
Definition strip_prefix (p l : list Z) : option (list Z) :=
  if bool_decide (take (length p) l = p) then Some (drop (length p) l) else None.

Definition from_bytes (data : list Z) : result Tokenizer :=
  data ← ok_or (strip_prefix TOK_MAGIC data) damaged;
  '(s, ws) ← read_sections 10 (words_in (length data) data);
  match s with
  | [head; offsets; text; special; bytes; chars; rare; joins; added; merges] =>
      let text := concat (map (le_bytes 4) text) in
      len ← ok_or (head !! 2%nat) damaged;
      let text := ztake len text in
      words ← (if 0 <? zlen ws then fst <$> section ws else Ok []);
      let frame := (default NONE (head !! 3%nat), default NONE (head !! 4%nat)) in
      f ← or_panic (head !! 0%nat);
      u ← or_panic (head !! 1%nat);
      let t := mkTokenizer f u offsets text special bytes chars rare joins added merges words frame in
      let sound := bool_decide (last offsets = Some (wrap 32 (zlen text))) && (zlen bytes =? 256) && (zlen chars =? DIRECT) in
      if sound && is_power_of_two (zlen merges) then Ok t else Err damaged
  | _ => Panic
  end.

(** ** What is stored comes back *)
Abbreviation words_ok := (Forall u32).
Record storable (t : Tokenizer) : Prop := {
  st_words : Forall (fun s => words_ok s /\ zlen s < 2 ^ 32)
    [offsets t; special t; t_bytes t; chars t; rare t; joins t; added t; merges t; words t];
  st_head : words_ok [flags t; unk t; fst (frame t); snd (frame t)];
  st_text : bytes_ok (t_text t) /\ zlen (t_text t) < 2 ^ 32;
  st_offsets : last (offsets t) = Some (zlen (t_text t));
  st_tables : zlen (t_bytes t) = 256 /\ zlen (chars t) = DIRECT /\ is_power_of_two (zlen (merges t)) = true;
}.

Lemma words_in_app fuel ws l : words_ok ws -> (length ws <= fuel)%nat ->
  words_in fuel (concat (map (le_bytes 4) ws) ++ l) = ws ++ words_in (fuel - length ws) l.
Proof.
  revert fuel. induction ws as [|w ws IH]; intros fuel Hw Hf; [by rewrite Nat.sub_0_r|].
  apply Forall_cons in Hw as [Hw Hws]. destruct fuel as [|fuel]; [cbn in Hf; lia|]. cbn [map concat length]. cbn [length] in Hf.
  rewrite <- app_assoc. pose proof (le_round_trip 4 w Hw) as Hrt. cbn [le_bytes app] in *. cbn [words_in]. rewrite Hrt. cbn [Nat.sub app]. f_equal. apply IH; [done|lia].
Qed.

(** The words of a stored section. *)
Definition section_words (s : list Z) : list Z := zlen s :: s.
Lemma section_bytes_words s : section_bytes s = concat (map (le_bytes 4) (section_words s)).
Proof. done. Qed.
Lemma sections_words ss : concat (map section_bytes ss) = concat (map (le_bytes 4) (concat (map section_words ss))).
Proof.
  induction ss as [|s ss IH]; [done|]. cbn [map concat]. rewrite map_app, concat_app, <- IH. by rewrite section_bytes_words.
Qed.
Lemma section_back s ws : section (section_words s ++ ws) = Ok (s, ws).
Proof.
  cbn [section section_words app]. rewrite ztake_app by done. rewrite Z.eqb_refl. by rewrite zdrop_app.
Qed.
Lemma read_sections_back ss ws : read_sections (length ss) (concat (map section_words ss) ++ ws) = Ok (ss, ws).
Proof.
  induction ss as [|s ss IH]; [done|]. cbn [map concat length read_sections]. rewrite <- app_assoc, section_back. cbn [mbind outcome_bind].
  rewrite IH. done.
Qed.

(** The text comes back from its words, with zeros after it. *)
Lemma text_word_val c : bytes_ok c -> zlen c <= 4 -> text_word c = le_val c.
Proof.
  intros Hc Hl. unfold text_word. rewrite be_fold_val by (lia || by apply Forall_rev). unfold be_val. rewrite rev_involutive. apply wrap_id.
  pose proof (le_val_bound c Hc) as [H0 H1]. split; [done|]. eapply Z.lt_le_trans; [exact H1|]. apply Z.pow_le_mono_r; lia.
Qed.
Lemma le_bytes_pad l n : bytes_ok l -> (length l <= n)%nat -> le_bytes n (le_val l) = l ++ replicate (n - length l) 0.
Proof.
  intros Hl. revert n. induction Hl as [|b l Hb Hl IH]; intros n Hn; cbn [length] in *.
  - cbn. rewrite Nat.sub_0_r. clear. induction n as [|n IH]; [done|]. cbn [le_bytes replicate]. rewrite <- IH. done.
  - destruct n as [|n]; [lia|]. cbn [le_val le_bytes app Nat.sub]. f_equal.
    + unfold wrap, fits in *. rewrite Z.mul_comm, Z.mod_add by lia. by apply Z.mod_small.
    + rewrite <- IH by lia. f_equal. rewrite ?Z.shiftr_div_pow2 by lia. unfold fits in Hb. change (2 ^ 8) with 256 in *.
      rewrite Z.mul_comm, Z.div_add by lia. rewrite Z.div_small by lia. done.
Qed.
Lemma chunks_words fuel l : bytes_ok l -> (length l <= fuel)%nat ->
  exists z, concat (map (le_bytes 4) (map text_word (chunks_fuel fuel 4 l))) = l ++ z.
Proof.
  revert l. induction fuel as [|fuel IH]; intros l Hl Hf; [destruct l; [by exists []|cbn in Hf; lia]|]. cbn [chunks_fuel].
  destruct (Z.eqb_spec (zlen l) 0) as [Hz|Hz]; [apply zlen_zero in Hz as ->; by exists []|]. cbn [map concat].
  assert (bytes_ok (ztake 4 l)) as Ht by by apply Forall_take.
  rewrite text_word_val by (done || (rewrite zlen_ztake by lia; lia)). rewrite le_bytes_pad by (done || (unfold ztake; rewrite length_take; lia)).
  unfold ztake, zdrop in *. change (Z.to_nat 4) with 4%nat in *. destruct (decide (length l <= 4)%nat) as [Hs|Hs].
  - rewrite (drop_ge l 4) by done. rewrite (take_ge l 4) by done. destruct fuel as [|fuel]; eexists; rewrite <- app_assoc; done.
  - destruct (IH (drop 4 l)) as [z Hz']; [by apply Forall_drop|rewrite length_drop; lia|]. exists z. rewrite Hz'.
    rewrite length_take, Nat.min_l by lia. cbn [Nat.sub replicate]. rewrite app_nil_r, app_assoc, take_drop. done.
Qed.

Lemma chunks_fit fuel l : bytes_ok l -> words_ok (map text_word (chunks_fuel fuel 4 l)) /\ (length (chunks_fuel fuel 4 l) <= length l)%nat.
Proof.
  revert l. induction fuel as [|fuel IH]; intros l Hl; cbn [chunks_fuel map]; [split; [constructor|cbn; lia]|].
  destruct (Z.eqb_spec (zlen l) 0) as [Hz|Hz]; [split; [constructor|cbn; lia]|]. cbn [map length].
  destruct (IH (zdrop 4 l)) as [Hw Hlen]; [by apply Forall_drop|]. assert (bytes_ok (ztake 4 l)) as Ht by by apply Forall_take. split.
  - constructor; [|done]. assert (zlen (ztake 4 l) <= 4) as H4 by (rewrite zlen_ztake; lia). rewrite text_word_val by done.
    pose proof (le_val_bound _ Ht) as [H0 H1]. split; [done|]. eapply Z.lt_le_trans; [exact H1|]. apply Z.pow_le_mono_r; lia.
  - assert (length (zdrop 4 l) = length l - 4)%nat by apply length_drop. unfold zlen in Hz. lia.
Qed.

Lemma sections_fit t : storable t -> words_ok (concat (map section_words (sections_of t))).
Proof.
  intros Ht. pose proof (st_words _ Ht) as Hw. destruct (st_text _ Ht) as [Htb Htl]. pose proof (st_head _ Ht) as Hh.
  assert (forall s, words_ok s -> zlen s < 2 ^ 32 -> words_ok (section_words s)) as Hsec.
  { intros s Hs Hl. constructor; [|done]. pose proof (zlen_nonneg s). done. }
  assert (Forall (fun s => words_ok s /\ zlen s < 2 ^ 32) (sections_of t)) as Hall.
  { destruct (chunks_fit (length (t_text t)) (t_text t) Htb) as [Hcw Hcl]. unfold sections_of.
    rewrite !Forall_cons in Hw. destruct Hw as (?&?&?&?&?&?&?&?&Hwords&_). apply Forall_app. split.
    - rewrite !Forall_cons in Hh. destruct Hh as (?&?&?&?&_). pose proof (wrap_fits 32 (zlen (t_text t)) ltac:(lia)).
      destruct_and!. rewrite !Forall_cons. split_and!; try done.
      + unfold zlen in *. rewrite length_map. unfold chunks. lia.
    - destruct (zlen (words t) =? 0); [constructor|]. by constructor. }
  induction Hall as [|s ss [Hs Hl] _ IH]; [constructor|]. cbn [map concat]. apply Forall_app. split; [by apply Hsec|done].
Qed.

Lemma from_to_bytes t : storable t -> from_bytes (to_bytes t) = Ok t.
Proof.
  intros Ht. destruct (st_text _ Ht) as [Htb Htl]. destruct (st_tables _ Ht) as (Hb&Hc&Hm). pose proof (sections_fit t Ht) as Hfit.
  unfold from_bytes, to_bytes, strip_prefix. rewrite take_app_length, drop_app_length. rewrite (bool_decide_true (TOK_MAGIC = TOK_MAGIC)) by done.
  cbn [ok_or mbind outcome_bind].
  rewrite sections_words. set (ws := concat (map section_words (sections_of t))) in *.
  rewrite <- (app_nil_r (concat (map (le_bytes 4) ws))) at 2. rewrite words_in_app; [|done|].
  2: { assert (forall ws, (length ws <= length (concat (map (le_bytes 4) ws)))%nat) as H; [|apply H]. clear.
       induction ws as [|w ws IH]; [done|]. cbn [map concat]. rewrite length_app, le_bytes_length. cbn [length]. lia. }
  assert (forall n, words_in n [] = []) as -> by by intros []. rewrite app_nil_r. unfold ws, sections_of. rewrite map_app, concat_app.
  match goal with |- context [map section_words ?ten] => change 10%nat with (length ten); rewrite (read_sections_back ten) end.
  cbn [mbind outcome_bind lookup list_lookup ok_or or_panic]. rewrite (wrap_id 32 (zlen (t_text t))) by (split; [apply zlen_nonneg|done]).
  destruct (chunks_words (length (t_text t)) (t_text t) Htb ltac:(lia)) as [z Hz]. unfold chunks. rewrite Hz, ztake_app by done.
  assert ((if 0 <? zlen (concat (map section_words (if zlen (words t) =? 0 then [] else [words t])))
           then fst <$> section (concat (map section_words (if zlen (words t) =? 0 then [] else [words t]))) else Ok []) = Ok (words t)) as ->.
  { destruct (Z.eqb_spec (zlen (words t)) 0) as [H0|H0]; [by rewrite (zlen_zero _ H0)|]. cbn [map concat].
    rewrite section_back. destruct (Z.ltb_spec 0 (zlen (section_words (words t) ++ []))) as [_|Hn]; [done|].
    unfold section_words in Hn. rewrite zlen_app, zlen_cons in Hn. pose proof (zlen_nonneg (words t)). pose proof (zlen_nonneg (@nil Z)). lia. }
  cbn [mbind outcome_bind]. rewrite bool_decide_true by (rewrite (st_offsets _ Ht); by rewrite wrap_id by (split; [apply zlen_nonneg|done])).
  rewrite Hb, Hc, Hm. cbn. by destruct t as [? ? ? ? ? ? ? ? ? ? ? ? []].
Qed.

(** C31. A tokenizer written to a file is read back as it was. *)
Theorem stored_tokenizer_comes_back t : storable t -> from_bytes (to_bytes t) = Ok t.
Proof. apply from_to_bytes. Qed.

Definition sample_stored : Tokenizer :=
  mkTokenizer 18 NONE [0; 1; 3] [65; 66; 67] [1] (replicate 256 NONE) (replicate (Z.to_nat DIRECT) 0) [0x20001; 1] [97] [] (replicate 8 NONE) [0; NONE] (0, NONE).
Definition fit_words (s : list Z) : bool := forallb (fun x => (0 <=? x) && (x <? 2 ^ 32)) s && (zlen s <? 2 ^ 32).
Lemma fit_words_spec s : fit_words s = true -> words_ok s /\ zlen s < 2 ^ 32.
Proof.
  unfold fit_words. intros [Hs Hl]%andb_true_iff. split; [|by apply Z.ltb_lt]. apply Forall_forall. intros x Hx%list_elem_of_In.
  apply (proj1 (List.forallb_forall _ _) Hs) in Hx. unfold fits. lia.
Qed.
Lemma sample_stored_ok : storable sample_stored.
Proof.
  split.
  - assert (forallb fit_words [offsets sample_stored; special sample_stored; t_bytes sample_stored; chars sample_stored; rare sample_stored;
      joins sample_stored; added sample_stored; merges sample_stored; words sample_stored] = true) as H by (vm_compute; reflexivity).
    apply Forall_forall. intros s Hs%list_elem_of_In. apply fit_words_spec. by apply (proj1 (List.forallb_forall _ _) H).
  - by apply (fit_words_spec [flags sample_stored; unk sample_stored; fst (frame sample_stored); snd (frame sample_stored)]).
  - split; [by repeat constructor|vm_compute; reflexivity].
  - vm_compute. reflexivity.
  - split_and!; vm_compute; reflexivity.
Qed.
Lemma stored_tokenizer_witness : from_bytes (to_bytes sample_stored) = Ok sample_stored.
Proof. apply (stored_tokenizer_comes_back sample_stored). exact sample_stored_ok. Defined.

(** Reading a tokenizer never panics: a file is refused as damaged, or its
    tables have their sizes and the text ends where the last token does. *)
Theorem tokenizer_is_read_or_refused data :
  from_bytes data = Err damaged \/
  exists t, from_bytes data = Ok t /\ last (offsets t) = Some (wrap 32 (zlen (t_text t)))
    /\ zlen (t_bytes t) = 256 /\ zlen (chars t) = DIRECT /\ is_power_of_two (zlen (merges t)) = true.
Proof.
  unfold from_bytes. destruct (strip_prefix TOK_MAGIC data) as [d|]; [|by left]. cbn [ok_or mbind outcome_bind].
  assert (forall ws, section ws = Err damaged \/ exists s r, section ws = Ok (s, r)) as Hsec.
  { intros [|n ws]; [by left|]. cbn [section]. destruct (zlen (ztake n ws) =? n); [right; by eauto|by left]. }
  assert (forall n ws, read_sections n ws = Err damaged \/ exists ss r, read_sections n ws = Ok (ss, r) /\ length ss = n) as Hread.
  { intros n. induction n as [|n IH]; intros ws; cbn [read_sections]; [right; by exists [], ws|].
    destruct (Hsec ws) as [->|(s&r&->)]; [by left|]. cbn [mbind outcome_bind]. destruct (IH r) as [->|(ss&r'&->&Hl)]; [by left|]. right. exists (s :: ss), r'. cbn. auto. }
  destruct (Hread 10%nat (words_in (length d) d)) as [->|(ss&r&->&Hl)]; [by left|]. cbn [mbind outcome_bind].
  destruct ss as [|head [|o [|x [|sp [|b [|c [|ra [|j [|a [|m [|? ?]]]]]]]]]]]; try done. clear Hl.
  destruct head as [|f [|u [|len head]]]; [by left..|]. cbn [lookup list_lookup ok_or or_panic mbind outcome_bind].
  assert ((if 0 <? zlen r then fst <$> section r else Ok []) = Err damaged \/ exists w, (if 0 <? zlen r then fst <$> section r else Ok []) = Ok w) as [->|[w ->]].
  { destruct (0 <? zlen r); [|right; by eauto]. destruct (Hsec r) as [->|(s&r'&->)]; [by left|right; by eauto]. }
  { by left. }
  cbn [mbind outcome_bind]. set (text := ztake len _). destruct (bool_decide _ && _ && _ && _) eqn:Hs; [|by left]. right. eexists. split; [done|].
  rewrite !andb_true_iff, !Z.eqb_eq, bool_decide_eq_true in Hs. cbn. by destruct Hs as [[[? ?] ?] ?].
Qed.
