(* ===== verification/Unicode.v ===== *)
(** * Unicode tables and normalization ([token/unicode.rs])

    The tables come packed in [unicode.bin], which is generated: its bytes are
    an argument. Text is a list of characters (code points). Arithmetic that a
    checked build traps is [Panic]; a decomposition that never ends is
    [Err tt]. *)
From S2P Require Import Prelude Utf8 Search Bpe.

Definition S0 : Z := 0xAC00.
Definition L0 : Z := 0x1100.
Definition V0 : Z := 0x1161.
Definition T0 : Z := 0x11A7.
Definition LN : Z := 19.
Definition VN : Z := 21.
Definition TN : Z := 28.

Abbreviation triple := (Z * Z * Z)%type.
Record Tables := mkTables { letters : list triple; classes : list triple; decomposed : list triple; composed : list triple }.

(** ** Reading the tables *)
Definition add32 (a b : Z) : outcome unit Z := if a + b <? 2 ^ 32 then Ok (a + b) else Panic.

(** [next]: a number, seven bits a byte, the lowest first; what the end of
    the data cuts short is what was read. *)
Fixpoint next_number (shift v : Z) (data : list Z) : outcome unit (Z * list Z) :=
  match data with
  | [] => Ok (v, [])
  | b :: data =>
      if shift <? 32 then
        let v := Z.lor v (wrap 32 (Z.shiftl (Z.land b 0x7F) shift)) in
        if b <? 0x80 then Ok (v, data) else next_number (shift + 7) v data
      else Panic
  end.
Definition read_number : list Z -> outcome unit (Z * list Z) := next_number 0 0.

(** [section]: triples, those of ranges written as gaps from the last. *)
Fixpoint read_triples (n : nat) (gaps : bool) (last_ : Z) (data : list Z) : outcome unit (list triple * list Z) :=
  match n with
  | O => Ok ([], data)
  | S n =>
      '(a, data) ← read_number data; '(b, data) ← read_number data; '(c, data) ← read_number data;
      if gaps then
        first ← add32 last_ a;
        end_ ← add32 first b;
        skip ← add32 b 1;
        last_ ← add32 first skip;
        '(l, data) ← read_triples n gaps last_ data;
        Ok ((first, end_, c) :: l, data)
      else
        '(l, data) ← read_triples n gaps last_ data;
        Ok ((a, b, c) :: l, data)
  end.
Definition read_section (gaps : bool) (data : list Z) : outcome unit (list triple * list Z) :=
  '(n, data) ← read_number data; read_triples (Z.to_nat n) gaps 0 data.
(** The decompositions' characters are gaps too. *)
Fixpoint ungap (last_ : Z) (l : list triple) : outcome unit (list triple) :=
  match l with
  | [] => Ok []
  | (gap, a, b) :: l => c ← add32 last_ gap; last_ ← add32 c 1; l ← ungap last_ l; Ok ((c, a, b) :: l)
  end.
Definition tables (data : list Z) : outcome unit Tables :=
  '(letters, data) ← read_section true data;
  '(classes, data) ← read_section true data;
  '(d, data) ← read_section false data;
  decomposed ← ungap 0 d;
  '(composed, _) ← read_section false data;
  Ok (mkTables letters classes decomposed composed).

(** ** Looking a character up *)
Definition range_of (e : triple) : Z * Z := fst e.
Definition lookup_range (ranges : list triple) (c : Z) : Z :=
  match ranges !! partition_point ranges (fun e => snd (fst e) <? c) with
  | Some (a, _, v) => if a <=? c then v else 0
  | None => 0
  end.

Section Chars.
Context (tb : Tables).
Definition kind (c : Z) : Z :=
  if within 65 90 c then 1 else if within 97 122 c then 2 else if c <? 0x80 then 0 else lookup_range (letters tb) c.
Definition is_letter (c : Z) : bool := within 1 3 (kind c).

(** ** Canonical decomposition and composition *)
Definition hangul (c : Z) : bool := (S0 <=? c) && (c <? S0 + LN * VN * TN).
Fixpoint decompose (fuel : nat) (c : Z) : outcome unit (list Z) :=
  if hangul c then
    let s := c - S0 in
    Ok ([L0 + s / (VN * TN); V0 + s mod (VN * TN) / TN] ++ (if s mod TN =? 0 then [] else [T0 + s mod TN]))
  else
    match search (decomposed tb) (fun e => Z.compare (fst (fst e)) c) with
    | inl i =>
        match fuel with
        | O => Err tt
        | S fuel =>
            '(_, a, b) ← idx (decomposed tb) i;
            x ← decompose fuel a;
            y ← (if b =? 0 then Ok [] else decompose fuel b);
            Ok (x ++ y)
        end
    | inr _ => Ok [c]
    end.
Definition compare_pair (a b x y : Z) : comparison :=
  match Z.compare a x with Eq => Z.compare b y | o => o end.
Definition compose (a b : Z) : option Z :=
  if (L0 <=? a) && (a <? L0 + LN) && ((V0 <=? b) && (b <? V0 + VN)) then Some (S0 + ((a - L0) * VN + b - V0) * TN)
  else if hangul a && ((a - S0) mod TN =? 0) && ((T0 + 1 <=? b) && (b <? T0 + TN)) then Some (a + b - T0)
  else match search (composed tb) (fun e => compare_pair (fst (fst e)) (snd (fst e)) a b) with
       | inl i => snd <$> composed tb !! i
       | inr _ => None
       end.

(** A stable sort by class. *)
Fixpoint insert_by (key : Z -> Z) (x : Z) (l : list Z) : list Z :=
  match l with [] => [x] | y :: l => if key x <? key y then x :: y :: l else y :: insert_by key x l end.
Definition sort_by (key : Z -> Z) (l : list Z) : list Z := fold_left (fun acc x => insert_by key x acc) l [].

Definition class_of (c : Z) : Z := lookup_range (classes tb) c.
(** Canonical order: each run of marks, from a start to the next character of
    class 0, sorted; a character of class 0 at the start is a run of one. *)
Fixpoint span_marks (l : list Z) : list Z * list Z :=
  match l with
  | [] => ([], [])
  | c :: l => if class_of c =? 0 then ([], c :: l) else let '(a, b) := span_marks l in (c :: a, b)
  end.
Fixpoint canonical_order (fuel : nat) (l : list Z) : list Z :=
  match fuel, l with
  | O, _ | _, [] => l
  | S fuel, c :: l0 =>
      if class_of c =? 0 then c :: canonical_order fuel l0
      else let '(a, b) := span_marks l in sort_by class_of a ++ canonical_order fuel b
  end.
(** One character of the composing loop: what is out, the place of the last
    starter, the class of the last character kept. *)
Definition compose_one (s : list Z * option nat * Z) (c : Z) : list Z * option nat * Z :=
  let '(out, starter, last_) := s in
  let cc := class_of c in
  let open := match starter with
              | Some s => (length out =? S s)%nat || (negb (last_ =? 0) && (last_ <? cc))
              | None => false
              end in
  match (if open then match starter with Some s => a ← out !! s; r ← compose a c; Some (s, r) | None => None end else None) with
  | Some (s, composite) => (<[s := composite]> out, starter, last_)
  | None => (out ++ [c], if cc =? 0 then Some (length out) else starter, cc)
  end.
Fixpoint decompose_all (fuel : nat) (l : list Z) : outcome unit (list Z) :=
  match l with [] => Ok [] | c :: l => x ← decompose fuel c; y ← decompose_all fuel l; Ok (x ++ y) end.

(** [nfc]; the depth of decompositions is [fuel]. *)
Definition nfc (fuel : nat) (text : list Z) : outcome unit (list Z) :=
  if forallb (fun c => c <? 0x300) text then Ok text
  else
    d ← decompose_all fuel text;
    let '(out, _, _) := fold_left compose_one (canonical_order (length d) d) ([], None, 0) in
    Ok (List.filter is_char out).
End Chars.

(** ** Looking up sorted ranges *)
Definition ranges_ok (ranges : list triple) : Prop :=
  forall i j e e', (i < j)%nat -> ranges !! i = Some e -> ranges !! j = Some e' -> snd (fst e) < fst (fst e').
(** The one range that holds the character gives its value. *)
Lemma lookup_range_spec ranges c a b v :
  ranges_ok ranges -> Forall (fun e => fst (fst e) <= snd (fst e)) ranges -> (a, b, v) ∈ ranges -> a <= c <= b -> lookup_range ranges c = v.
Proof.
  intros Hr Hne (i&Hi)%list_elem_of_lookup_1 Hc. unfold lookup_range.
  destruct (partition_point_spec ranges (fun e => snd (fst e) <? c)) as (Hk&Hbefore&Hafter).
  { intros p q x y Hpq Hp Hq Hy. apply Z.ltb_lt in Hy. apply Z.ltb_lt. destruct (decide (p = q)) as [->|]; [congruence|].
    pose proof (Hr p q x y ltac:(lia) Hp Hq). pose proof (Forall_lookup_1 _ _ _ _ Hne Hq). cbn in *. lia. }
  set (k := partition_point _ _) in *. assert (k = i) as ->; [|rewrite Hi; destruct (Z.leb_spec a c); [done|lia]].
  destruct (Nat.lt_trichotomy k i) as [Hlt|[|Hlt]]; [|done|].
  - pose proof (lookup_lt_Some _ _ _ Hi) as Hil. destruct (lookup_lt_is_Some_2 ranges k ltac:(lia)) as [e He].
    assert (drop k ranges !! 0%nat = Some e) as Hd by (by rewrite lookup_drop, Nat.add_0_r). apply (Forall_lookup_1 _ _ _ _ Hafter) in Hd. cbn in Hd.
    pose proof (Hr k i e _ Hlt He Hi). cbn in *. lia.
  - assert (take k ranges !! i = Some (a, b, v)) as Ht by (by rewrite lookup_take_lt). apply (Forall_lookup_1 _ _ _ _ Hbefore) in Ht. cbn in Ht. lia.
Qed.

(** ** Hangul composes by arithmetic *)
Section Hangul.
Context (tb : Tables) (fuel : nat).
(** What the tables say of Hangul: nothing. The conjoining letters are
    starters that no table decomposes, and no table composes a syllable with
    the letter that begins the next. *)
Record hangul_free : Prop := {
  hf_class : forall c, L0 <= c < 0x1200 -> class_of tb c = 0;
  hf_alone : forall c, L0 <= c < 0x1200 -> exists i, search (decomposed tb) (fun e => Z.compare (fst (fst e)) c) = inr i;
  hf_apart : forall a b, hangul a = true -> L0 <= b < L0 + LN ->
    exists i, search (composed tb) (fun e => compare_pair (fst (fst e)) (snd (fst e)) a b) = inr i;
}.
Context (Hf : hangul_free).

(** The letters of a syllable. *)
Definition jamo (c : Z) : list Z :=
  let s := c - S0 in [L0 + s / (VN * TN); V0 + s mod (VN * TN) / TN] ++ (if s mod TN =? 0 then [] else [T0 + s mod TN]).
Lemma jamo_parts c : hangul c = true -> exists l v t, 0 <= l < LN /\ 0 <= v < VN /\ 0 <= t < TN /\ c = S0 + (l * VN + v) * TN + t
  /\ jamo c = [L0 + l; V0 + v] ++ (if t =? 0 then [] else [T0 + t]).
Proof.
  unfold hangul. intros [H1 H2]%andb_true_iff. apply Z.leb_le in H1. apply Z.ltb_lt in H2. unfold jamo, LN, VN, TN in *. change (21 * 28) with 588 in *.
  set (s := c - S0) in *. assert (0 <= s < 19 * 588) as Hs by (unfold s; lia).
  exists (s / 588), (s mod 588 / 28), (s mod 28).
  pose proof (Z.div_mod s 588 ltac:(lia)) as E1. pose proof (Z.mod_pos_bound s 588 ltac:(lia)) as B1.
  pose proof (Z.div_mod (s mod 588) 28 ltac:(lia)) as E2. pose proof (Z.mod_pos_bound (s mod 588) 28 ltac:(lia)) as B2.
  assert (s mod 588 mod 28 = s mod 28) as E3 by (apply Z.mod_mod_divide; by exists 21).
  rewrite E3 in *. split_and!; [apply Z.div_pos; lia|apply Z.div_lt_upper_bound; lia|apply Z.div_pos; lia|apply Z.div_lt_upper_bound; lia|lia|lia| |done].
  unfold s in *. lia.
Qed.

Lemma compose_lv l v : 0 <= l < LN -> 0 <= v < VN -> compose tb (L0 + l) (V0 + v) = Some (S0 + (l * VN + v) * TN).
Proof.
  intros Hl Hv. unfold compose. rewrite (proj2 (andb_true_iff _ _)); [f_equal; lia|]. rewrite !andb_true_iff, !Z.leb_le, !Z.ltb_lt. lia.
Qed.
Lemma compose_lvt l v t : 0 <= l < LN -> 0 <= v < VN -> 0 < t < TN ->
  compose tb (S0 + (l * VN + v) * TN) (T0 + t) = Some (S0 + (l * VN + v) * TN + t).
Proof.
  intros Hl Hv Ht. unfold compose, hangul. set (a := S0 + (l * VN + v) * TN). assert (S0 <= a < S0 + LN * VN * TN) as Ha by (unfold a, LN, VN, TN in *; nia).
  destruct (Z.ltb_spec a (L0 + LN)) as [Hlt|_]; [unfold S0, L0, LN in *; lia|]. rewrite andb_false_r. cbn [andb].
  assert ((a - S0) mod TN = 0) as Hm by (unfold a; replace (S0 + (l * VN + v) * TN - S0) with ((l * VN + v) * TN) by lia; by apply Z.mod_mul).
  rewrite Hm. rewrite (proj2 (andb_true_iff _ _)); [f_equal; lia|]. rewrite !andb_true_iff, !Z.leb_le, !Z.ltb_lt, Z.eqb_eq. lia.
Qed.
Lemma compose_apart a l : hangul a = true -> 0 <= l < LN -> compose tb a (L0 + l) = None.
Proof.
  intros Ha Hl. unfold compose. pose proof Ha as Ha'. unfold hangul in Ha'. rewrite andb_true_iff, Z.leb_le, Z.ltb_lt in Ha'.
  destruct (Z.ltb_spec a (L0 + LN)) as [Hlt|_]; [unfold S0, L0, LN in *; lia|]. rewrite andb_false_r. cbn [andb].
  destruct (Z.leb_spec (T0 + 1) (L0 + l)) as [Hlt|_]; [unfold T0, L0, LN in *; lia|]. rewrite andb_false_r.
  destruct (hf_apart Hf a (L0 + l) Ha ltac:(lia)) as [i ->]. done.
Qed.

(** The state of the loop after whole syllables. *)
Definition after_syllables (out : list Z) : list Z * option nat * Z :=
  (out, match out with [] => None | _ => Some (pred (length out)) end, 0).
Lemma class_zero c : L0 <= c < 0x1200 -> class_of tb c = 0.
Proof. apply (hf_class Hf). Qed.
Lemma compose_letter out l : Forall (fun c => hangul c = true) out -> 0 <= l < LN ->
  compose_one tb (after_syllables out) (L0 + l) = (out ++ [L0 + l], Some (length out), 0).
Proof.
  intros Ho Hl. unfold compose_one, after_syllables. rewrite class_zero by (unfold L0, LN in *; lia). destruct out as [|x out]; [done|].
  cbn [length pred]. rewrite Nat.eqb_refl. cbn [orb]. assert (is_Some ((x :: out) !! length out)) as [a Ha] by (apply lookup_lt_is_Some; cbn; lia).
  rewrite Ha. cbn [mbind option_bind]. rewrite compose_apart; [done| |done]. exact (Forall_lookup_1 _ _ _ _ Ho Ha).
Qed.
Lemma compose_last out a c r : class_of tb c = 0 -> compose tb a c = Some r ->
  compose_one tb (out ++ [a], Some (length out), 0) c = (out ++ [r], Some (length out), 0).
Proof.
  intros Hc Hr. unfold compose_one. rewrite Hc, length_app. cbn [length]. rewrite Nat.add_1_r, Nat.eqb_refl. cbn [orb].
  rewrite lookup_app_r, Nat.sub_diag by lia. cbn [lookup list_lookup mbind option_bind]. rewrite Hr. cbn [mbind option_bind].
  rewrite insert_app_r_alt, Nat.sub_diag by lia. done.
Qed.
Lemma compose_syllable out c : Forall (fun c => hangul c = true) out -> hangul c = true ->
  fold_left (compose_one tb) (jamo c) (after_syllables out) = after_syllables (out ++ [c]).
Proof.
  intros Ho Hc. destruct (jamo_parts c Hc) as (l&v&t&Hl&Hv&Ht&->&->). cbn [app fold_left]. rewrite compose_letter by done.
  rewrite (compose_last out _ _ _ (class_zero (V0 + v) ltac:(unfold L0, V0, VN in *; lia)) (compose_lv l v Hl Hv)).
  assert (forall x, after_syllables (out ++ [x]) = (out ++ [x], Some (length out), 0)) as Hafter.
  { intros x. unfold after_syllables. destruct (out ++ [x]) as [|y o] eqn:Hx; [by destruct out|]. rewrite <- Hx, length_app. cbn [length]. by rewrite Nat.add_1_r. }
  rewrite Hafter. destruct (Z.eqb_spec t 0) as [->|Hne]; cbn [fold_left]; [by rewrite Z.add_0_r|].
  rewrite (compose_last out _ _ _ (class_zero (T0 + t) ltac:(unfold L0, T0, TN in *; lia)) (compose_lvt l v t Hl Hv ltac:(lia))). done.
Qed.
Lemma compose_syllables cs out : Forall (fun c => hangul c = true) out -> Forall (fun c => hangul c = true) cs ->
  fold_left (compose_one tb) (concat (map jamo cs)) (after_syllables out) = after_syllables (out ++ cs).
Proof.
  intros Ho Hcs. revert out Ho. induction Hcs as [|c cs Hc _ IH]; intros out Ho; cbn [map concat]; [by rewrite app_nil_r|].
  rewrite fold_left_app, compose_syllable by done. rewrite IH by (apply Forall_app; split; [done|by constructor]). by rewrite <- app_assoc.
Qed.

Lemma jamo_range c : hangul c = true -> Forall (fun x => L0 <= x < 0x1200) (jamo c).
Proof.
  intros Hc. destruct (jamo_parts c Hc) as (l&v&t&Hl&Hv&Ht&_&->). unfold L0, V0, T0, LN, VN, TN in *.
  apply Forall_app. split; [repeat constructor; lia|]. destruct (t =? 0); repeat constructor; lia.
Qed.
Lemma order_starters d n : Forall (fun x => class_of tb x = 0) d -> (length d <= n)%nat -> canonical_order tb n d = d.
Proof.
  intros Hd. revert n. induction Hd as [|c d Hc _ IH]; intros n Hn; [by destruct n|]. destruct n as [|n]; [cbn in Hn; lia|]. cbn [canonical_order].
  rewrite Hc. cbn. f_equal. apply IH. cbn in Hn. lia.
Qed.
(** Texts that decompose into the letters of syllables are those syllables. *)
Lemma nfc_of_jamo text cs : Forall (fun c => hangul c = true) cs -> decompose_all tb fuel text = Ok (concat (map jamo cs)) ->
  Forall (fun c => 0x300 <= c) text -> nfc tb fuel text = Ok cs.
Proof.
  intros Hcs Hd Ht. unfold nfc. destruct (forallb _ text) eqn:Hlow.
  - destruct text as [|c text]; [|apply Forall_cons in Ht as [Hc _]; cbn in Hlow; apply andb_true_iff in Hlow as [Hlow _]; lia].
    destruct cs as [|c cs]; [done|]. exfalso. cbn [decompose_all map concat] in Hd. assert (jamo c ++ concat (map jamo cs) = []) as He by congruence. destruct (jamo_parts c) as (?&?&?&_&_&_&_&Hj); [by apply Forall_cons in Hcs as [? _]|].
    by rewrite Hj in He.
  - rewrite Hd. cbn [mbind outcome_bind]. rewrite order_starters; [| |done].
    + change (@nil Z, @None nat, 0) with (after_syllables []). rewrite compose_syllables by (done || constructor). cbn [app after_syllables].
      f_equal. clear -Hcs. induction Hcs as [|c cs Hc _ IH]; [done|]. cbn. assert (is_char c = true) as ->; [|by rewrite IH].
      apply is_char_spec. unfold hangul in Hc. rewrite andb_true_iff, Z.leb_le, Z.ltb_lt in Hc. unfold S0, LN, VN, TN in *. lia.
    + clear -Hcs Hf. induction Hcs as [|c cs Hc _ IH]; [constructor|]. cbn [map concat]. apply Forall_app. split; [|done].
      eapply Forall_impl; [by apply jamo_range|]. intros x Hx. by apply class_zero.
Qed.
Lemma hangul_high c : hangul c = true -> 0x300 <= c.
Proof. unfold hangul. rewrite andb_true_iff, Z.leb_le. unfold S0. lia. Qed.
Lemma decompose_hangul c : hangul c = true -> decompose tb fuel c = Ok (jamo c).
Proof. intros Hc. destruct fuel; cbn [decompose]; by rewrite Hc. Qed.
Lemma decompose_jamo c : L0 <= c < 0x1200 -> decompose tb fuel c = Ok [c].
Proof.
  intros Hc. assert (hangul c = false) as Hh by (unfold hangul; apply andb_false_iff; left; apply Z.leb_gt; unfold S0; lia).
  destruct (hf_alone Hf c Hc) as [i Hi]. destruct fuel; cbn [decompose]; by rewrite Hh, Hi.
Qed.
Lemma decompose_all_app a b : decompose_all tb fuel (a ++ b) = (x ← decompose_all tb fuel a; y ← decompose_all tb fuel b; Ok (x ++ y)).
Proof.
  induction a as [|c a IH]; cbn [app decompose_all mbind outcome_bind]; [by destruct (decompose_all tb fuel b)|].
  destruct (decompose tb fuel c); [|done|done]. cbn [mbind outcome_bind]. rewrite IH. destruct (decompose_all tb fuel a); [|done|done]. cbn [mbind outcome_bind].
  destruct (decompose_all tb fuel b); [|done|done]. cbn. by rewrite <- app_assoc.
Qed.
Lemma hangul_both cs : Forall (fun c => hangul c = true) cs -> nfc tb fuel cs = Ok cs /\ nfc tb fuel (concat (map jamo cs)) = Ok cs.
Proof.
  intros Hcs. split; apply nfc_of_jamo; try done.
  - induction Hcs as [|c cs Hc _ IH]; [done|]. cbn [decompose_all]. rewrite decompose_hangul, IH by done. done.
  - eapply Forall_impl; [exact Hcs|]. apply hangul_high.
  - assert (forall d, Forall (fun x => L0 <= x < 0x1200) d -> decompose_all tb fuel d = Ok d) as H.
    { induction 1 as [|x d Hx _ IH]; [done|]. cbn [decompose_all]. by rewrite decompose_jamo, IH by done. }
    apply H. induction Hcs as [|c cs Hc _ IH]; [constructor|]. cbn [map concat]. apply Forall_app. split; [by apply jamo_range|done].
  - induction Hcs as [|c cs Hc _ IH]; [constructor|]. cbn [map concat]. apply Forall_app. split; [|done]. eapply Forall_impl; [by apply jamo_range|]. unfold L0. cbn. lia.
Qed.
End Hangul.

(** Korean text has one form: its syllables, whole or spelled out in
    their letters, normalize to the syllables, with no table of theirs. *)
Theorem hangul_has_one_form tb fuel cs : hangul_free tb -> Forall (fun c => hangul c = true) cs ->
  nfc tb fuel cs = Ok cs /\ nfc tb fuel (concat (map jamo cs)) = Ok cs.
Proof. intros Hf. by apply hangul_both. Qed.

Lemma hangul_witness : nfc (mkTables [] [] [(0xE9, 0x65, 0x301)] [(0x65, 0x301, 0xE9)]) 3 [0xAC00; 0xD7A3] = Ok [0xAC00; 0xD7A3]
  /\ nfc (mkTables [] [] [(0xE9, 0x65, 0x301)] [(0x65, 0x301, 0xE9)]) 3 [0x1100; 0x1161; 0x1112; 0x1175; 0x11C2] = Ok [0xAC00; 0xD7A3].
Proof.
  apply (hangul_has_one_form (mkTables [] [] [(0xE9, 0x65, 0x301)] [(0x65, 0x301, 0xE9)]) 3 [0xAC00; 0xD7A3]); [|by repeat constructor].
  split.
  - reflexivity.
  - intros c Hc. exists 1%nat. unfold search, binary_search_by, at_list. cbn -[Z.compare].
    rewrite (proj2 (Z.compare_lt_iff 233 c)); [done|unfold L0 in *; lia].
  - intros a b Ha _. exists 1%nat. apply hangul_high in Ha. unfold search, binary_search_by, at_list. cbn -[Z.compare].
    unfold compare_pair. rewrite (proj2 (Z.compare_lt_iff 101 a)); [done|lia].
Defined.
