(* ===== verification/Pieces.v ===== *)
(** * Cutting a text into pieces ([token/bytes.rs])

    The three patterns of byte-level tokenizers, matched by hand. A [&str] is
    the list of its characters; an offset counts bytes, and cutting a text at
    an offset that is not between two characters panics. Which characters are
    numbers ([char::is_numeric]) is an argument, as the letter tables are. *)
From S2P Require Import Prelude Utf8 Bpe Unicode.

Inductive Pattern := Gpt2 | Cl100k | O200k.

(** ** Texts by byte offsets *)
Definition len_utf8 (c : Z) : Z := if c <? 0x80 then 1 else if c <? 0x800 then 2 else if c <? 0x10000 then 3 else 4.
Fixpoint str_len (s : list Z) : Z := match s with [] => 0 | c :: s => len_utf8 c + str_len s end.
(** [(&s[..n], &s[n..])]. *)
Fixpoint cut (s : list Z) (n : Z) : outcome unit (list Z * list Z) :=
  if n =? 0 then Ok ([], s)
  else match s with
       | [] => Panic
       | c :: s => if n <? len_utf8 c then Panic else '(a, b) ← cut s (n - len_utf8 c); Ok (c :: a, b)
       end.
(** [s[n..]]. *)
Definition from_ (s : list Z) (n : Z) : outcome unit (list Z) := snd <$> cut s n.

(** [char::is_whitespace]. *)
Definition is_whitespace (c : Z) : bool :=
  within 9 13 c || (c =? 32) || (c =? 0x85) || (c =? 0xA0) || (c =? 0x1680) || within 0x2000 0x200A c
  || (c =? 0x2028) || (c =? 0x2029) || (c =? 0x202F) || (c =? 0x205F) || (c =? 0x3000).

(** ** The characters of a byte-level vocabulary *)
Definition printable (b : Z) : bool := within 33 126 b || within 0xA1 0xAC b || within 0xAE 0xFF b.
Definition unprintable : list Z := List.filter (fun b => negb (printable b)) (map Z.of_nat (seq 0 256)).
Definition byte_of (c : Z) : option Z :=
  if within 0 255 c then if printable c then Some c else None
  else if within 256 323 c then unprintable !! Z.to_nat (c - 256)
  else None.

(** ** Matching *)
Inductive Class := Letter | Number | Space | Other.
#[global] Instance class_eq : EqDecision Class.
Proof. solve_decision. Defined.

(** [run]: the bytes of the longest run of characters that [keep] accepts, at
    most [most] of them. *)
Fixpoint run_len (keep : Z -> bool) (s : list Z) : Z :=
  match s with [] => 0 | c :: s => if keep c then len_utf8 c + run_len keep s else 0 end.
Definition run (s : list Z) (most : option nat) (keep : Z -> bool) : Z :=
  run_len keep (match most with Some n => take n s | None => s end).

Definition to_ascii_lowercase (b : Z) : Z := if within 65 90 b then b + 32 else b.
(** [contraction]: ['s], ['t], ['m], ['d]; ['re], ['ve], ['ll]. *)
Definition contraction (s : list Z) (fold : bool) : option Z :=
  match s with
  | c :: s =>
      if c =? 39 then
        let rest := utf8_of s in
        let lower i := (fun b => if fold then to_ascii_lowercase b else b) <$> rest !! i in
        match lower 0%nat, lower 1%nat with
        | Some b, o =>
            if (b =? 115) || (b =? 116) || (b =? 109) || (b =? 100) then Some 2
            else match o with
                 | Some b1 => if ((b =? 114) || (b =? 118)) && (b1 =? 101) || ((b =? 108) && (b1 =? 108)) then Some 3 else None
                 | None => None
                 end
        | None, _ => None
        end
      else None
  | [] => None
  end.

(** The offset of the last character of a text. *)
Fixpoint last_offset (s : list Z) : option Z :=
  match s with [] => None | [c] => Some 0 | c :: s => Z.add (len_utf8 c) <$> last_offset s end.
(** [rfind(['\r', '\n'])]. *)
Definition line_end (c : Z) : bool := (c =? 13) || (c =? 10).
Fixpoint rfind (p : Z -> bool) (s : list Z) : option Z :=
  match s with
  | [] => None
  | c :: s => match rfind p s with Some n => Some (len_utf8 c + n) | None => if p c then Some 0 else None end
  end.

Definition spaces (s : list Z) : outcome unit Z :=
  let n := run s None is_whitespace in
  '(a, _) ← cut s n;
  match last_offset a with
  | Some last => if (n <? str_len s) && (0 <? last) then Ok last else Ok n
  | None => Ok n
  end.

Section Patterns.
Context (tb : Tables) (is_numeric : Z -> bool).
Definition class (c : Z) : Class :=
  if is_letter tb c then Letter else if is_numeric c then Number else if is_whitespace c then Space else Other.
Definition is_class (k : Class) (c : Z) : bool := bool_decide (class c = k).
Definition starts_with_space (s : list Z) : Z := match s with c :: _ => if c =? 32 then 1 else 0 | [] => 0 end.

Definition gpt2 (s : list Z) : outcome unit Z :=
  match contraction s false with
  | Some n => Ok n
  | None =>
      let skip := starts_with_space s in
      s1 ← from_ s skip;
      match class <$> head s1 with
      | Some Space | None => spaces s
      | Some c => Ok (skip + run s1 None (is_class c))
      end
  end.

(** [rest]: the last alternatives of the other two patterns. *)
Definition rest (s : list Z) (symbols slash : bool) : outcome unit Z :=
  if symbols then
    let skip := starts_with_space s in
    s1 ← from_ s skip;
    let n := skip + run s1 None (is_class Other) in
    s2 ← from_ s n;
    Ok (n + run s2 None (fun c => line_end c || (slash && (c =? 47))))
  else
    let n := run s None is_whitespace in
    '(a, _) ← cut s n;
    match rfind line_end a with Some last => Ok (last + 1) | None => spaces s end.

Definition symbols_at (s : list Z) : bool :=
  let c0 := default 32 (s !! 0%nat) in
  is_class Other c0 || ((c0 =? 32) && match s !! 1%nat with Some c => is_class Other c | None => false end).

Definition cl100k (s : list Z) : outcome unit Z :=
  match contraction s true with
  | Some n => Ok n
  | None =>
      let c0 := default 32 (s !! 0%nat) in
      let letters_from f := s1 ← from_ s f; Ok (f + run s1 None (is_letter tb)) in
      match class c0 with
      | Letter => letters_from 0
      | Number => Ok (run s (Some 3%nat) is_numeric)
      | _ => if negb (line_end c0) && match s !! 1%nat with Some c => is_letter tb c | None => false end then letters_from (len_utf8 c0)
             else rest s (symbols_at s) false
      end
  end.

(** [word]: each character's end and kind, while they are letters or marks. *)
Fixpoint letters_of (at_ : Z) (s : list Z) : list (Z * Z) :=
  match s with
  | [] => []
  | c :: s => let e := at_ + len_utf8 c in if kind tb c =? 0 then [] else (e, kind tb c) :: letters_of e s
  end.
Fixpoint count_while (p : Z -> bool) (l : list (Z * Z)) : nat :=
  match l with (_, k) :: l => if p k then S (count_while p l) else O | [] => O end.
Definition upper (k : Z) : bool := negb (k =? 2).
Definition lower (k : Z) : bool := 2 <=? k.
Definition word_end (l : list (Z * Z)) (a : nat) : nat := (a + count_while lower (drop a l))%nat.
(** The last of [0..=most] after which a lower-case run begins. *)
Fixpoint last_turn (l : list (Z * Z)) (most : nat) : option nat :=
  let e := word_end l most in
  if (most <? e)%nat then Some e else match most with O => None | S most => last_turn l most end.
Definition word_len (s : list Z) (upper_first : bool) : outcome unit (option Z) :=
  let l := letters_of 0 s in
  let most := count_while upper l in
  match (if upper_first then if (0 <? most)%nat then Some (word_end l most) else None else last_turn l most) with
  | None => Ok None
  | Some O => Ok (Some 0)
  | Some (S last) => '(e, _) ← idx l last; Ok (Some e)
  end.

Definition after_word (s : list Z) (start n : Z) : outcome unit Z :=
  let end_ := start + n in s1 ← from_ s end_; Ok (end_ + default 0 (contraction s1 true)).
Fixpoint try_words (s : list Z) (l : list (bool * Z)) : outcome unit (option Z) :=
  match l with
  | [] => Ok None
  | (upper_first, start) :: l =>
      s1 ← from_ s start;
      o ← word_len s1 upper_first;
      match o with Some n => Some <$> after_word s start n | None => try_words s l end
  end.
Definition o200k (s : list Z) : outcome unit Z :=
  let c0 := default 32 (s !! 0%nat) in
  let starts := (if negb (line_end c0) && negb (is_letter tb c0) && negb (is_numeric c0) then [len_utf8 c0] else []) ++ [0] in
  o ← try_words s (map (pair false) starts ++ map (pair true) starts);
  match o with
  | Some n => Ok n
  | None => if is_numeric c0 then Ok (run s (Some 3%nat) is_numeric) else rest s (symbols_at s) true
  end.

Definition piece_len (p : Pattern) : list Z -> outcome unit Z :=
  match p with Gpt2 => gpt2 | Cl100k => cl100k | O200k => o200k end.
(** [pieces]: the pieces of the text; a match of no length would go on for
    ever. *)
Fixpoint pieces_from (fuel : nat) (p : Pattern) (s : list Z) : outcome unit (list (list Z)) :=
  match s with
  | [] => Ok []
  | _ :: _ =>
      n ← piece_len p s;
      '(a, b) ← cut s n;
      match fuel with O => Err tt | S fuel => l ← pieces_from fuel p b; Ok (a :: l) end
  end.
Definition pieces (p : Pattern) (s : list Z) : outcome unit (list (list Z)) := pieces_from (length s) p s.
End Patterns.

(** ** Offsets between characters *)
Lemma len_utf8_bounds c : 1 <= len_utf8 c <= 4.
Proof. unfold len_utf8. repeat case_match; lia. Qed.
Lemma str_len_nonneg s : 0 <= str_len s.
Proof. induction s as [|c s IH]; cbn [str_len]; [done|]. pose proof (len_utf8_bounds c). lia. Qed.
Lemma str_len_app a b : str_len (a ++ b) = str_len a + str_len b.
Proof. induction a as [|c a IH]; cbn [str_len app]; [lia|]. rewrite IH. lia. Qed.
Lemma cut_at a b : cut (a ++ b) (str_len a) = Ok (a, b).
Proof.
  induction a as [|c a IH]; cbn [str_len app]; [by destruct b|]. cbn [cut]. pose proof (len_utf8_bounds c). pose proof (str_len_nonneg a).
  destruct (Z.eqb_spec (len_utf8 c + str_len a) 0); [lia|]. destruct (Z.ltb_spec (len_utf8 c + str_len a) (len_utf8 c)); [lia|].
  replace (len_utf8 c + str_len a - len_utf8 c) with (str_len a) by lia. by rewrite IH.
Qed.
Lemma from_at a b : from_ (a ++ b) (str_len a) = Ok b.
Proof. unfold from_. by rewrite cut_at. Qed.
Lemma from_0 s : from_ s 0 = Ok s.
Proof. by destruct s. Qed.

(** [n] is the length of a beginning of [s] that is not empty. *)
Definition begins (s : list Z) (n : Z) : Prop := exists a b, s = a ++ b /\ str_len a = n /\ a <> [].
(** One past a beginning. *)
Lemma begins_more s a b n : s = a ++ b -> (a <> [] \/ begins b n) -> (n = 0 \/ begins b n) -> begins s (str_len a + n).
Proof.
  intros -> Ha [->|(a'&b'&->&<-&Hne)].
  - rewrite Z.add_0_r. destruct Ha as [Ha|(a'&b'&->&H0&Hne)]; [by exists a, b|].
    exfalso. destruct a' as [|c a']; [done|]. cbn in H0. pose proof (len_utf8_bounds c). pose proof (str_len_nonneg a'). lia.
  - exists (a ++ a'), b'. rewrite <- app_assoc, str_len_app. split_and!; [done|done|]. by destruct a, a'.
Qed.

Lemma run_spec keep s most : exists a b, s = a ++ b /\ str_len a = run s most keep /\ Forall (fun c => keep c = true) a
  /\ (forall c s', s = c :: s' -> keep c = true -> most <> Some 0%nat -> a <> []).
Proof.
  unfold run. assert (forall s, exists a b, s = a ++ b /\ str_len a = run_len keep s /\ Forall (fun c => keep c = true) a
    /\ (forall c s', s = c :: s' -> keep c = true -> a <> [])) as H.
  { clear. induction s as [|c s IH]; cbn [run_len]; [exists [], []; by split_and!|]. destruct (keep c) eqn:Hk.
    - destruct IH as (a&b&->&<-&Ha&_). exists (c :: a), b. split_and!; [done|done|by constructor|by intros].
    - exists [], (c :: s). split_and!; [done|done|done|]. intros c' s' [= <- <-]. congruence. }
  destruct most as [n|].
  - destruct (H (take n s)) as (a&b&Ht&Hl&Ha&Hne). exists a, (b ++ drop n s). rewrite app_assoc, <- Ht, take_drop. split_and!; [done|done|done|].
    intros c s' -> Hk Hn. destruct n as [|n]; [done|]. by eapply Hne.
  - destruct (H s) as (a&b&Hs&Hl&Ha&Hne). exists a, b. split_and!; [done|done|done|]. intros c s' Hc Hk _. by eapply Hne.
Qed.
Lemma run_begins keep c s most : keep c = true -> most <> Some 0%nat -> begins (c :: s) (run (c :: s) most keep).
Proof. intros Hk Hm. destruct (run_spec keep (c :: s) most) as (a&b&Hs&Hl&_&Hne). exists a, b. split_and!; [done|done|]. by eapply Hne. Qed.
Lemma run_either keep s most : run s most keep = 0 \/ begins s (run s most keep).
Proof. destruct (run_spec keep s most) as ([|c a]&b&Hs&Hl&_); [by left|right]. by exists (c :: a), b. Qed.

(** The first byte of a character: its own if it is ASCII, else above. *)
Lemma first_byte c s b : is_char c = true -> utf8_of (c :: s) !! 0%nat = Some b -> b < 0x80 -> c = b /\ len_utf8 c = 1 /\ utf8_of (c :: s) = b :: utf8_of s.
Proof.
  rewrite is_char_spec. intros Hc Hb Hlt. unfold utf8_of in *. cbn [map concat] in *. unfold encode_utf8, len_utf8 in *.
  destruct (Z.ltb_spec c 0x80); [cbn in Hb; by simplify_eq|]. exfalso.
  destruct (Z.ltb_spec c 0x800); [|destruct (Z.ltb_spec c 0x10000)]; cbn [app lookup list_lookup] in Hb; injection Hb as <-.
  - pose proof (Z.div_pos c 64 ltac:(lia) ltac:(lia)). lia.
  - pose proof (Z.div_pos c 4096 ltac:(lia) ltac:(lia)). lia.
  - pose proof (Z.div_pos c 262144 ltac:(lia) ltac:(lia)). lia.
Qed.
Lemma lowercase_ascii fold b n : (if (fold : bool) then to_ascii_lowercase b else b) = n -> n < 0x80 -> b < 0x80.
Proof. unfold to_ascii_lowercase. destruct fold; [|lia]. destruct (within 65 90 b) eqn:Hw; [apply within_true in Hw; lia|lia]. Qed.
Lemma contraction_begins s fold n : Forall (fun c => is_char c = true) s -> contraction s fold = Some n -> begins s n.
Proof.
  intros Hs. destruct s as [|q s]; [done|]. unfold contraction. apply Forall_cons in Hs as [_ Hs]. destruct (Z.eqb_spec q 39) as [->|]; [|done].
  cbv zeta. destruct (utf8_of s !! 0%nat) as [x|] eqn:Hx; [|done]. destruct s as [|c s]; [done|]. apply Forall_cons in Hs as [Hc Hs].
  cbn [fmap option_fmap option_map]. pose proof (lowercase_ascii fold x _ eq_refl) as Hlow. set (y := if fold then to_ascii_lowercase x else x) in *.
  destruct (_ || _ || _ || _) eqn:Hone.
  - intros [= <-]. assert (x < 0x80) as Hlt by (rewrite !orb_true_iff, !Z.eqb_eq in Hone; apply Hlow; clearbody y; lia).
    destruct (first_byte c s x Hc Hx Hlt) as (->&Hl&_). exists [39; x], s. split_and!; [done|cbn [str_len]; rewrite Hl; done|done].
  - destruct (utf8_of (c :: s) !! 1%nat) as [z|] eqn:Hz; [|done]. cbn [fmap option_fmap option_map].
    pose proof (lowercase_ascii fold z _ eq_refl) as Hlow'. set (y' := if fold then to_ascii_lowercase z else z) in *.
    destruct (((y =? 114) || (y =? 118)) && (y' =? 101) || ((y =? 108) && (y' =? 108))) eqn:Htwo; [|done]. intros [= <-].
    rewrite orb_true_iff, !andb_true_iff, orb_true_iff, !Z.eqb_eq in Htwo.
    assert (x < 0x80 /\ z < 0x80) as [Hxlt Hzlt] by (clearbody y y'; split; [apply Hlow|apply Hlow']; lia).
    destruct (first_byte c s x Hc Hx Hxlt) as (->&Hl&Hu). rewrite Hu in Hz. cbn in Hz. destruct s as [|d s]; [done|].
    apply Forall_cons in Hs as [Hd Hs]. destruct (first_byte d s z Hd Hz Hzlt) as (->&Hl'&_).
    exists [39; x; z], s. split_and!; [done|cbn [str_len]; rewrite Hl, Hl'; done|done].
Qed.

(** ** Runs of white space *)
Lemma last_offset_spec a n : last_offset a = Some n -> exists a' c, a = a' ++ [c] /\ str_len a' = n.
Proof.
  revert n. induction a as [|c [|d a] IH]; intros n; [done|intros [= <-]; by exists [], c|].
  change (last_offset (c :: d :: a)) with (Z.add (len_utf8 c) <$> last_offset (d :: a)).
  destruct (last_offset (d :: a)) as [m|]; [|done]. intros [= <-]. destruct (IH m eq_refl) as (a'&e&->&<-). by exists (c :: a'), e.
Qed.
Lemma spaces_begin c s : is_whitespace c = true -> exists n, spaces (c :: s) = Ok n /\ begins (c :: s) n.
Proof.
  intros Hc. unfold spaces. destruct (run_spec is_whitespace (c :: s) None) as (a&b&Hs&<-&_&Hne). specialize (Hne c s eq_refl Hc ltac:(done)).
  rewrite Hs, cut_at. cbn [mbind outcome_bind]. assert (begins (a ++ b) (str_len a)) as Hall by by exists a, b.
  destruct (last_offset a) as [m|] eqn:Hm; [|by eauto]. destruct ((str_len a <? str_len (a ++ b)) && (0 <? m)) eqn:Hb; [|by eauto].
  apply last_offset_spec in Hm as (a'&d&->&<-). exists (str_len a'). split; [done|]. exists a', ([d] ++ b). rewrite <- app_assoc. split_and!; [done|done|].
  intros ->. rewrite andb_true_iff in Hb. by destruct Hb.
Qed.
Lemma rfind_spec p a n : rfind p a = Some n -> exists a1 c a2, a = a1 ++ c :: a2 /\ p c = true /\ str_len a1 = n.
Proof.
  revert n. induction a as [|c a IH]; intros n; [done|]. cbn [rfind]. destruct (rfind p a) as [m|].
  - intros [= <-]. destruct (IH m eq_refl) as (a1&d&a2&->&Hd&<-). by exists (c :: a1), d, a2.
  - destruct (p c) eqn:Hp; [|done]. intros [= <-]. by exists [], c, a.
Qed.
Lemma line_end_len c : line_end c = true -> len_utf8 c = 1.
Proof. unfold line_end. rewrite orb_true_iff, !Z.eqb_eq. by intros [->| ->]. Qed.

Section Match.
Context (tb : Tables) (is_numeric : Z -> bool).
Abbreviation class := (class tb is_numeric).
Abbreviation is_class := (is_class tb is_numeric).
Abbreviation piece_len := (piece_len tb is_numeric).
Lemma is_class_spec k c : is_class k c = true <-> class c = k.
Proof. apply bool_decide_eq_true. Qed.
Lemma class_space c : class c = Space -> is_whitespace c = true.
Proof. unfold Pieces.class. destruct (is_letter tb c), (is_numeric c), (is_whitespace c); done. Qed.
Lemma class_number c : class c = Number -> is_numeric c = true.
Proof. unfold Pieces.class. destruct (is_letter tb c), (is_numeric c), (is_whitespace c); done. Qed.
Lemma class_letter c : class c = Letter <-> is_letter tb c = true.
Proof. unfold Pieces.class. destruct (is_letter tb c), (is_numeric c), (is_whitespace c); done. Qed.

(** The text past an optional space. *)
Lemma optional_space s : exists a b, s = a ++ b /\ str_len a = starts_with_space s
  /\ ((a = [] /\ forall c s', s = c :: s' -> c <> 32) \/ a = [32]).
Proof.
  destruct s as [|c s]; [by exists [], []; split_and!; [done|done|left]|]. cbn. destruct (Z.eqb_spec c 32) as [->|Hne].
  - exists [32], s. auto.
  - exists [], (c :: s). split_and!; [done|done|]. left. split; [done|]. by intros c' s' [= <- _].
Qed.

Lemma gpt2_begins s : Forall (fun c => is_char c = true) s -> s <> [] -> exists n, gpt2 tb is_numeric s = Ok n /\ begins s n.
Proof.
  intros Hs Hne. unfold gpt2. destruct (contraction s false) as [n|] eqn:Hc; [exists n; split; [done|by eapply contraction_begins]|].
  destruct (optional_space s) as (a&b&Hab&<-&Ha). rewrite Hab, from_at. cbn [mbind outcome_bind].
  assert (forall c s', a ++ b = c :: s' -> head b = None \/ (exists d, head b = Some d /\ class d = Space) -> is_whitespace c = true) as Hspace.
  { intros c s' Hcs Hb. destruct Ha as [[-> _]| ->]; [|by injection Hcs as <- _]. cbn in Hcs. rewrite Hcs in Hb. destruct Hb as [|(d&[= <-]&?)]; [done|]. by apply class_space. }
  assert (head b = None \/ (exists d, head b = Some d /\ class d = Space) -> exists n, spaces (a ++ b) = Ok n /\ begins (a ++ b) n) as Hsp.
  { intros Hb. destruct (a ++ b) as [|c s'] eqn:Hcs; [subst; done|]. apply spaces_begin. by eapply Hspace. }
  destruct b as [|d b]; [apply Hsp; by left|]. cbn [head hd_error fmap option_fmap option_map]. 
  assert (forall k, class d = k -> begins (a ++ d :: b) (str_len a + run (d :: b) None (is_class k))) as Hrun.
  { intros k Hk. pose proof (run_begins (is_class k) d b None ltac:(by apply is_class_spec) ltac:(done)) as Hb. eapply begins_more; [done|by right|by right]. }
  destruct (class d) eqn:Hd; [by eauto|by eauto|apply Hsp; right; eauto|by eauto].
Qed.

Lemma rest_begins c s symbols slash :
  (symbols = true -> c = 32 \/ class c = Other) -> (symbols = false -> is_whitespace c = true) ->
  exists n, rest tb is_numeric (c :: s) symbols slash = Ok n /\ begins (c :: s) n.
Proof.
  intros Hy Hn. unfold rest. destruct symbols.
  - specialize (Hy eq_refl). clear Hn. destruct (optional_space (c :: s)) as (a&b&Hab&<-&Ha). rewrite Hab, from_at. cbn [mbind outcome_bind].
    destruct (run_spec (is_class Other) b None) as (a1&b1&->&<-&_&Hne). rewrite app_assoc, <- str_len_app, from_at. cbn [mbind outcome_bind].
    eexists. split; [done|]. eapply begins_more; [done| |apply run_either]. left. destruct Ha as [[-> H32]| ->]; [|done].
    cbn in Hab |- *. eapply Hne; [by symmetry| |done]. apply is_class_spec. destruct Hy as [->|]; [by destruct (H32 32 s eq_refl)|done].
  - specialize (Hn eq_refl). destruct (run_spec is_whitespace (c :: s) None) as (a&b&Hs&Hl&_). rewrite <- Hl, Hs, cut_at. cbn [mbind outcome_bind].
    destruct (rfind line_end a) as [m|] eqn:Hr; [|rewrite <- Hs; by apply spaces_begin].
    apply rfind_spec in Hr as (a1&d&a2&->&Hd&<-). eexists. split; [done|]. exists (a1 ++ [d]), (a2 ++ b). rewrite <- !app_assoc, str_len_app. cbn [str_len app].
    rewrite (line_end_len _ Hd). split_and!; [done|lia|by destruct a1].
Qed.

Lemma cl100k_begins s : Forall (fun c => is_char c = true) s -> s <> [] -> exists n, cl100k tb is_numeric s = Ok n /\ begins s n.
Proof.
  intros Hs Hne. unfold cl100k. destruct (contraction s true) as [n|] eqn:Hc; [exists n; split; [done|by eapply contraction_begins]|].
  destruct s as [|c s]; [done|]. clear Hne Hc. cbn [lookup list_lookup default from_option id]. cbv zeta.
  assert (forall k, class c = k -> k = Space \/ k = Other -> exists n,
    (if negb (line_end c) && match s !! 0%nat with Some c => is_letter tb c | None => false end
     then s1 ← from_ (c :: s) (len_utf8 c); Ok (len_utf8 c + run s1 None (is_letter tb)) else rest tb is_numeric (c :: s) (symbols_at tb is_numeric (c :: s)) false) = Ok n
    /\ begins (c :: s) n) as Hrest.
  { intros k Hk Hkk. destruct (negb (line_end c) && _) eqn:Hlet.
    - apply andb_true_iff in Hlet as [_ Hlet]. destruct s as [|d s]; [done|]. cbn in Hlet. replace (len_utf8 c) with (str_len [c]) by (cbn; lia).
      change (c :: d :: s) with ([c] ++ d :: s). rewrite from_at. cbn [mbind outcome_bind]. eexists. split; [done|].
      eapply begins_more; [done|by left|]. right. by apply run_begins.
    - apply rest_begins; unfold symbols_at; cbn [lookup list_lookup default from_option id].
      + intros [Ho|[H32 _]%andb_true_iff]%orb_true_iff; [right; by apply is_class_spec|left; by apply Z.eqb_eq].
      + intros [Ho _]%orb_false_iff. destruct Hkk as [->| ->]; [by apply class_space|]. by rewrite (proj2 (is_class_spec Other c) Hk) in Ho. }
  destruct (class c) eqn:Hk.
  - rewrite from_0. cbn [mbind outcome_bind]. eexists. split; [done|]. apply run_begins; [by apply class_letter|done].
  - eexists. split; [done|]. apply run_begins; [by apply class_number|done].
  - by apply (Hrest Space); [|left].
  - by apply (Hrest Other); [|right].
Qed.

(** ** Words that end where their case changes *)
Lemma letters_of_at at_ s i e k : letters_of tb at_ s !! i = Some (e, k) ->
  exists a b, s = a ++ b /\ length a = S i /\ e = at_ + str_len a.
Proof.
  revert at_ i. induction s as [|c s IH]; intros at_ i; [done|]. cbn [letters_of]. destruct (kind tb c =? 0); [done|]. destruct i as [|i].
  - intros [= <- <-]. exists [c], s. split_and!; [done|done|]. cbn. lia.
  - intros H. destruct (IH _ _ H) as (a&b&->&Hl&->). exists (c :: a), b. split_and!; [done|cbn; lia|cbn; lia].
Qed.
Lemma count_while_le p l : (count_while p l <= length l)%nat.
Proof. induction l as [|[e k] l IH]; cbn; [lia|]. destruct (p k); cbn; lia. Qed.
Lemma word_end_bounds l a : (a <= length l)%nat -> (a <= word_end l a <= length l)%nat.
Proof. intros Ha. unfold word_end. pose proof (count_while_le lower (drop a l)) as H. rewrite length_drop in H. lia. Qed.
Lemma last_turn_spec l most e : (most <= length l)%nat -> last_turn l most = Some e -> (0 < e <= length l)%nat.
Proof.
  revert e. induction most as [|most IH]; intros e Hm; cbn [last_turn]; pose proof (word_end_bounds l _ Hm).
  - destruct (Nat.ltb_spec 0 (word_end l 0)); [intros [= <-]; lia|done].
  - destruct (Nat.ltb_spec (S most) (word_end l (S most))); [intros [= <-]; lia|]. apply IH. lia.
Qed.
Lemma last_turn_some l most : (0 < count_while lower l)%nat -> is_Some (last_turn l most).
Proof.
  intros Hl. induction most as [|most IH]; cbn [last_turn].
  - unfold word_end. rewrite drop_0. destruct (Nat.ltb_spec 0 (0 + count_while lower l)); [by eexists|lia].
  - destruct (S most <? _)%nat; [by eexists|done].
Qed.

Lemma word_len_spec s uf : exists o, word_len tb s uf = Ok o /\ (forall n, o = Some n -> begins s n).
Proof.
  unfold word_len. set (l := letters_of tb 0 s). set (most := count_while upper l). pose proof (count_while_le upper l) as Hm. fold most in Hm.
  assert (forall e, (if uf then if (0 <? most)%nat then Some (word_end l most) else None else last_turn l most) = Some e -> (0 < e <= length l)%nat) as He.
  { intros e. destruct uf; [|by apply last_turn_spec]. destruct (Nat.ltb_spec 0 most); [|done]. intros [= <-]. pose proof (word_end_bounds l most Hm). lia. }
  destruct (if uf then _ else _) as [[|i]|]; [specialize (He 0%nat eq_refl); lia| |exists None; by split].
  specialize (He (S i) eq_refl). destruct (lookup_lt_is_Some_2 l i ltac:(lia)) as [[e k] Hi]. unfold idx. rewrite Hi. cbn [or_panic mbind outcome_bind].
  exists (Some e). split; [done|]. intros n [= <-]. destruct (letters_of_at _ _ _ _ _ Hi) as (a&b&Hs&Hl&->). exists a, b. split_and!; [done|lia|]. by intros ->.
Qed.
(** A letter begins a word, of one kind or the other. *)
Lemma word_of_letter c s : is_letter tb c = true -> exists uf n, word_len tb (c :: s) uf = Ok (Some n).
Proof.
  intros Hc. apply within_true in Hc as Hk. exists (negb (2 <=? kind tb c)). destruct (word_len_spec (c :: s) (negb (2 <=? kind tb c))) as ([n|]&Hw&_); [by exists n|].
  exfalso. unfold word_len in Hw. cbn [letters_of] in Hw. destruct (Z.eqb_spec (kind tb c) 0); [lia|]. set (l := letters_of tb _ s) in *.
  destruct (Z.leb_spec 2 (kind tb c)) as [H2|H2]; cbn [negb] in Hw.
  - destruct (last_turn_some ((0 + len_utf8 c, kind tb c) :: l) (count_while upper ((0 + len_utf8 c, kind tb c) :: l))) as [e He].
    { cbn [count_while]. unfold lower at 1. destruct (Z.leb_spec 2 (kind tb c)); lia. }
    rewrite He in Hw. destruct e as [|i]; [done|]. destruct (idx _ i) as [[? ?]| |]; done.
  - assert (kind tb c = 1) as H1 by lia. cbn [count_while] in Hw. unfold upper at 1 2 in Hw. rewrite H1 in Hw. cbn in Hw.
    destruct (idx _ _) as [[? ?]| |]; done.
Qed.

Lemma after_word_begins s a b n : Forall (fun c => is_char c = true) s -> s = a ++ b -> begins b n ->
  exists m, after_word s (str_len a) n = Ok m /\ begins s m.
Proof.
  intros Hs -> (a'&b'&->&<-&Hne). unfold after_word. rewrite <- str_len_app, app_assoc, from_at. cbn [mbind outcome_bind]. eexists. split; [done|].
  eapply begins_more; [done|left; by destruct a, a'|]. destruct (contraction b' true) as [m|] eqn:Hc; [|by left]. right.
  eapply contraction_begins; [|done]. rewrite !Forall_app in Hs. apply Hs.
Qed.
Lemma try_words_spec s l : Forall (fun c => is_char c = true) s -> Forall (fun p => exists a b, s = a ++ b /\ str_len a = snd p) l ->
  exists o, try_words tb s l = Ok o /\ (forall n, o = Some n -> begins s n)
    /\ (forall uf n, (uf, 0) ∈ l -> word_len tb s uf = Ok (Some n) -> is_Some o).
Proof.
  intros Hs. induction 1 as [|[uf start] l (a&b&Hab&Hl) _ IH]; [exists None; split_and!; [done|done|intros ? ? []%not_elem_of_nil]|].
  cbn [snd] in Hl. cbn [try_words]. assert (from_ s start = Ok b) as -> by (rewrite <- Hl, Hab; apply from_at). cbn [mbind outcome_bind].
  destruct (word_len_spec b uf) as (o&Ho&Hn). rewrite Ho. cbn [mbind outcome_bind]. destruct o as [n|].
  - destruct (after_word_begins s a b n Hs Hab (Hn n eq_refl)) as (m&Hm&Hb). rewrite <- Hl, Hm. exists (Some m). split_and!; [done|by intros ? [= <-]|by eexists].
  - destruct IH as (o&Htry&Hbegin&Hword). exists o. split_and!; [done|done|]. intros uf' n [[= -> H0]|Hin]%elem_of_cons Hw; [|by eapply Hword].
    exfalso. assert (a = []) as ->. { destruct a as [|c a]; [done|]. cbn in Hl. pose proof (len_utf8_bounds c). pose proof (str_len_nonneg a). lia. }
    cbn in Hab. subst b. congruence.
Qed.
Lemma o200k_begins s : Forall (fun c => is_char c = true) s -> s <> [] -> exists n, o200k tb is_numeric s = Ok n /\ begins s n.
Proof.
  intros Hs Hne. destruct s as [|c s]; [done|]. clear Hne. unfold o200k. cbn [lookup list_lookup default from_option id]. cbv zeta.
  set (starts := (if negb (line_end c) && negb (is_letter tb c) && negb (is_numeric c) then [len_utf8 c] else []) ++ [0]).
  assert (Forall (fun n => exists a b, c :: s = a ++ b /\ str_len a = n) starts) as Hstarts.
  { unfold starts. apply Forall_app. split; [|constructor; [by exists [], (c :: s)|constructor]].
    destruct (_ && _ && _); constructor; [|constructor]. exists [c], s. split; [done|]. cbn. lia. }
  destruct (try_words_spec (c :: s) (map (pair false) starts ++ map (pair true) starts) Hs) as (o&Htry&Hbegin&Hword).
  { apply Forall_app. split; apply Forall_fmap; (eapply Forall_impl; [exact Hstarts|]); intros n Hn; exact Hn. }
  rewrite Htry. cbn [mbind outcome_bind]. destruct o as [n|]; [by eauto|]. destruct (is_numeric c) eqn:Hnum; [eexists; split; [done|]; by apply run_begins|].
  assert (is_letter tb c = false) as Hlet.
  { destruct (is_letter tb c) eqn:Hlet; [|done]. destruct (word_of_letter c s Hlet) as (uf&n&Hw). destruct (Hword uf n) as [? [=]]; [|done].
    assert (0 ∈ starts) by (unfold starts; apply elem_of_app; right; by apply elem_of_cons; left).
    apply elem_of_app. destruct uf; [right|left]; by apply (list_elem_of_fmap_2 (pair _)). }
  apply rest_begins; unfold symbols_at; cbn [lookup list_lookup default from_option id].
  - intros [Ho|[H32 _]%andb_true_iff]%orb_true_iff; [right; by apply is_class_spec|left; by apply Z.eqb_eq].
  - intros [Ho _]%orb_false_iff. unfold Pieces.is_class, Pieces.class in Ho. rewrite Hlet, Hnum in Ho. destruct (is_whitespace c); [done|]. by rewrite bool_decide_eq_false in Ho.
Qed.

(** Every pattern matches at the start of any text. *)
Lemma piece_begins p s : Forall (fun c => is_char c = true) s -> s <> [] -> exists n, piece_len p s = Ok n /\ begins s n.
Proof. destruct p; [apply gpt2_begins|apply cl100k_begins|apply o200k_begins]. Qed.

Lemma pieces_spec p s : Forall (fun c => is_char c = true) s ->
  exists l, pieces tb is_numeric p s = Ok l /\ concat l = s /\ Forall (fun x => x <> []) l.
Proof.
  unfold pieces. intros Hs. assert (forall fuel s, (length s <= fuel)%nat -> Forall (fun c => is_char c = true) s ->
    exists l, pieces_from tb is_numeric fuel p s = Ok l /\ concat l = s /\ Forall (fun x => x <> []) l) as H; [|by apply H].
  clear Hs s. induction fuel as [|fuel IH]; intros s Hf Hs; (destruct s as [|c s]; [by exists []|]); [cbn in Hf; lia|].
  destruct (piece_begins p (c :: s) Hs ltac:(done)) as (n&Hn&a&b&Hab&<-&Hne). cbn [pieces_from]. rewrite Hn. cbn [mbind outcome_bind].
  rewrite Hab, cut_at. cbn [mbind outcome_bind]. rewrite Hab in Hs. apply Forall_app in Hs as [_ Hb].
  destruct (IH b) as (l&Hl&<-&Hall); [|done|].
  - apply (f_equal length) in Hab. rewrite length_app in Hab. destruct a; [done|]. cbn in *. lia.
  - rewrite Hl. exists (a :: l). split_and!; [done|done|by constructor].
Qed.
End Match.

(** C32. Each of the three patterns cuts any text into pieces, none of them
    empty, that are the text end to end; the loop over the text ends, and no
    cut falls inside a character. *)
Theorem pieces_are_the_text tb is_numeric p s : Forall (fun c => is_char c = true) s ->
  exists l, pieces tb is_numeric p s = Ok l /\ concat l = s /\ Forall (fun x => x <> []) l.
Proof. apply pieces_spec. Qed.

Lemma pieces_witness : pieces (mkTables [] [] [] []) (within 48 57) O200k [73; 39; 108; 108; 32; 103; 111; 233] = Ok [[73; 39; 108; 108]; [32; 103; 111]; [233]]
  /\ exists l, pieces (mkTables [] [] [] []) (within 48 57) O200k [73; 39; 108; 108; 32; 103; 111; 233] = Ok l
     /\ concat l = [73; 39; 108; 108; 32; 103; 111; 233] /\ Forall (fun x => x <> []) l.
Proof. split; [vm_compute; reflexivity|]. apply (pieces_are_the_text (mkTables [] [] [] []) (within 48 57) O200k). by repeat constructor. Defined.
