(* ===== verification/Encode.v ===== *)
(** * Tokens of a text ([token/mod.rs], [encode])

    From a text to its tokens: the added tokens found first, the text between
    them cut into pieces, the symbols of each piece merged. A text is the list
    of its characters. *)
From S2P Require Import Prelude Bytes Utf8 Search Token Table Bpe Tournament Merges Lookup Unicode Pieces.

(** The character that stands for a space. *)
Definition BLOCK : Z := 0x2581.

(** ** Symbols *)
Fixpoint rare_id (l : list Z) (c : Z) : Z :=
  match l with a :: b :: l => if a =? c then b else rare_id l c | _ => NONE end.
Definition char_id (t : Tokenizer) (c : Z) : Z :=
  match zget (chars t) c with Some id => id | None => rare_id (rare t) c end.

(** The tokens of the bytes of a character, if the vocabulary falls back on
    bytes and has each. *)
Fixpoint fallback (t : Tokenizer) (b : list Z) : outcome unit (option (list Z)) :=
  match b with
  | [] => Ok (Some [])
  | x :: b =>
      id ← or_panic (zget (t_bytes t) x);
      if negb (id =? NONE) && has t BYTES then o ← fallback t b; Ok (match o with Some l => Some (id :: l) | None => None end) else Ok None
  end.
Fixpoint symbols_from (t : Tokenizer) (text ids : list Z) : outcome unit (list Z) :=
  match text with
  | [] => Ok ids
  | c :: text =>
      let c := if (c =? 32) && has t META then BLOCK else c in
      let id := char_id t c in
      if negb (id =? NONE) then symbols_from t text (ids ++ [id])
      else
        o ← fallback t (encode_utf8 c);
        match o with
        | Some b => symbols_from t text (ids ++ b)
        | None => if negb (bool_decide (last ids = Some (unk t))) && negb (unk t =? NONE) then symbols_from t text (ids ++ [unk t])
                  else symbols_from t text ids
        end
  end.
Definition symbols (t : Tokenizer) (text : list Z) : outcome unit (list Z) := symbols_from t text [].
Fixpoint byte_symbols (t : Tokenizer) (b : list Z) : outcome unit (list Z) :=
  match b with [] => Ok [] | x :: b => id ← or_panic (zget (t_bytes t) x); l ← byte_symbols t b; Ok (id :: l) end.

(** [Tokenizer::merge_all]. *)
Definition merge_piece (t : Tokenizer) (text : list Z) : outcome unit (list Z) :=
  ids ← (if has t BYTE_LEVEL then byte_symbols t (utf8_of text) else symbols t text);
  merge_all (merge t) ids.

(** ** Pieces *)
Definition cuts (t : Tokenizer) (last_ c : Z) : bool :=
  let space := (c =? 32) || (c =? BLOCK) in
  let joined := (last_ =? 32) || (last_ =? BLOCK) || bool_decide (last_ ∈ joins t) in
  space && has t META && (has t SPLIT || negb joined).
(** The loop of [segment]: the pieces between the cuts; [cur] is the text
    since the last one. *)
Fixpoint cut_pieces (t : Tokenizer) (last_ : Z) (cur text : list Z) : list (list Z) :=
  match text with
  | [] => match cur with [] => [] | _ => [cur] end
  | c :: text =>
      match cur with
      | [] => cut_pieces t c [c] text
      | _ => if cuts t last_ c then cur :: cut_pieces t c [c] text else cut_pieces t c (cur ++ [c]) text
      end
  end.
Fixpoint each (f : list Z -> outcome unit (list Z)) (l : list (list Z)) : outcome unit (list Z) :=
  match l with [] => Ok [] | x :: l => a ← f x; b ← each f l; Ok (a ++ b) end.

Section Encode.
Context (tb : Tables) (is_numeric : Z -> bool) (depth : nat).
Definition pattern_of (t : Tokenizer) : outcome unit Pattern :=
  idx [Gpt2; Cl100k; O200k] ((if has t CL100K then 1 else 0) + (if has t O200K then 2 else 0)).
Definition byte_segment (t : Tokenizer) (text : list Z) : outcome unit (list Z) :=
  p ← pattern_of t;
  l ← pieces tb is_numeric p text;
  each (fun piece => w ← word t (utf8_of piece); match w with Some id => Ok [id] | None => merge_piece t piece end) l.
Definition prefixed (t : Tokenizer) (text : list Z) : list Z :=
  match text with
  | c :: _ => if has t PREPEND && negb ((c =? 32) || (c =? BLOCK)) then (if has t BYTE_LEVEL then 32 else BLOCK) :: text else text
  | [] => text
  end.
Definition segment (t : Tokenizer) (text : list Z) : outcome unit (list Z) :=
  let text := prefixed t text in
  if has t BYTE_LEVEL then byte_segment t text else each (merge_piece t) (cut_pieces t BLOCK [] text).

(** ** Added tokens *)

(** [bytes(id)[0]]. *)
Definition first_byte_of (t : Tokenizer) (id : Z) : outcome unit Z := b ← token_bytes t id; idx b 0.
(** [partition_point], its test reading the vocabulary. *)
Fixpoint halve_m (fuel : nat) (f : nat -> outcome unit comparison) (base size : nat) : outcome unit nat :=
  match fuel with
  | O => Ok base
  | S fuel =>
      if (1 <? size)%nat then
        let half := Nat.div2 size in
        let mid := (base + half)%nat in
        c ← f mid;
        halve_m fuel f (match c with Gt => base | _ => mid end) (size - half)
      else Ok base
  end.
Definition partition_point_m {A} (l : list A) (p : A -> outcome unit bool) : outcome unit nat :=
  match length l with
  | O => Ok O
  | _ =>
      let f i := match l !! i with Some x => b ← p x; Ok (if (b : bool) then Lt else Gt) | None => Ok Gt end in
      base ← halve_m (length l) f 0 (length l);
      c ← f base;
      Ok (match c with Eq => base | Lt => S base | Gt => base end)
  end.
Definition starts_with (l p : list Z) : bool := bool_decide (take (length p) l = p).
Fixpoint match_from (t : Tokenizer) (first : Z) (rest l : list Z) : outcome unit (option (Z * Z)) :=
  match l with
  | [] => Ok None
  | id :: l =>
      b0 ← first_byte_of t id;
      if b0 =? first then b ← token_bytes t id; if starts_with rest b then Ok (Some (id, zlen b)) else match_from t first rest l
      else Ok None
  end.
Definition added_at (t : Tokenizer) (rest : list Z) : outcome unit (option (Z * Z)) :=
  match rest with
  | [] => Ok None
  | first :: _ =>
      k ← partition_point_m (added t) (fun id => b ← first_byte_of t id; Ok (b <? first));
      match_from t first rest (drop k (added t))
  end.

(** [Tokenizer::encode]: [cur] is the text since the last added token. *)
Fixpoint encode_from (fuel : nat) (t : Tokenizer) (cur text : list Z) : outcome unit (list Z) :=
  match text with
  | [] => segment t cur
  | c :: rest =>
      o ← added_at t (utf8_of text);
      match fuel with
      | O => Err tt
      | S fuel =>
          match o with
          | Some (id, len) =>
              a ← segment t cur;
              '(_, text) ← cut text len;
              b ← encode_from fuel t [] text;
              Ok (a ++ id :: b)
          | None => encode_from fuel t (cur ++ [c]) rest
          end
      end
  end.
Definition encode (t : Tokenizer) (text : list Z) : outcome unit (list Z) :=
  text ← (if has t NFC then nfc tb depth text else Ok text);
  encode_from (length text) t [] text.
End Encode.

(** ** Finding added tokens *)
Section Added.
Context (t : Tokenizer) (Htexts : texts_ok t) (Hadded : Forall (fun id => said_by t id <> [] /\ utf8_valid (said_by t id)) (added t)).

Lemma first_byte_total id : id ∈ added t -> exists b, first_byte_of t id = Ok b.
Proof.
  intros Hid. destruct (proj1 (Forall_forall _ _) Hadded _ Hid) as [Hne _]. unfold first_byte_of.
  rewrite (proj1 (token_bytes_ok t id Htexts)). cbn [mbind outcome_bind]. destruct (said_by t id) as [|b l]; [done|]. by exists b.
Qed.
Lemma partition_point_total {A} (l : list A) p : (forall x, x ∈ l -> exists b, p x = Ok b) -> exists k, partition_point_m l p = Ok k.
Proof.
  intros Hp. unfold partition_point_m.
  set (f := fun i => match l !! i with Some x => b ← p x; Ok (if (b : bool) then Lt else Gt) | None => Ok Gt end). assert (forall i, exists c, f i = Ok c) as Hf.
  { intros i. unfold f. destruct (l !! i) as [x|] eqn:Hx; [|by eauto]. destruct (Hp x) as [b ->]; [by eapply list_elem_of_lookup_2|]. by eexists. }
  assert (forall fuel base n, exists k, halve_m fuel f base n = Ok k) as Hh.
  { intros fuel. induction fuel as [|fuel IH]; intros base n; cbn [halve_m]; [by eauto|]. destruct (1 <? n)%nat; [|by eauto].
    destruct (Hf (base + Nat.div2 n)%nat) as [c ->]. apply IH. }
  destruct (length l) as [|n]; [by eauto|]. destruct (Hh (S n) 0%nat (S n)) as [k Hk]. rewrite Hk. destruct (Hf k) as [c Hc].
  change (exists k0, (c ← f k; Ok match c with Lt => S k | _ => k end) = Ok k0). rewrite Hc. by eexists.
Qed.

(** What [added_at] finds is an added token the text begins with. *)
Lemma added_at_spec text : exists o, added_at t text = Ok o
  /\ forall id len, o = Some (id, len) -> id ∈ added t /\ len = zlen (said_by t id) /\ exists r, text = said_by t id ++ r.
Proof.
  unfold added_at. destruct text as [|first rest]; [by exists None|].
  destruct (partition_point_total (added t) (fun id => b ← first_byte_of t id; Ok (b <? first))) as [k ->].
  { intros id Hid. destruct (first_byte_total id Hid) as [b ->]. by eexists. }
  cbn [mbind outcome_bind]. assert (forall l, (forall id, id ∈ l -> id ∈ added t) -> exists o, match_from t first (first :: rest) l = Ok o
    /\ forall id len, o = Some (id, len) -> id ∈ added t /\ len = zlen (said_by t id) /\ exists r, first :: rest = said_by t id ++ r) as H.
  { induction l as [|id l IH]; intros Hl; [by exists None|]. cbn [match_from].
    assert (id ∈ added t) as Hid by (apply Hl, elem_of_cons; by left). destruct (first_byte_total id Hid) as [b ->]. cbn [mbind outcome_bind].
    destruct (b =? first); [|by exists None]. rewrite (proj1 (token_bytes_ok t id Htexts)). cbn [mbind outcome_bind].
    destruct (starts_with (first :: rest) (said_by t id)) eqn:Hs; [|apply IH; intros x Hx; apply Hl, elem_of_cons; by right].
    eexists. split; [done|]. intros id' len [= <- <-]. split_and!; [done|done|]. apply bool_decide_eq_true in Hs.
    exists (drop (length (said_by t id)) (first :: rest)). rewrite <- Hs at 1. by rewrite take_drop. }
  apply H. intros id Hid. rewrite <- (take_drop k (added t)). apply elem_of_app. by right.
Qed.
End Added.

(** ** Byte-level vocabularies say back what they encode *)
Definition says (t : Tokenizer) (ids : list Z) : list Z := concat (map (said_by t) ids).
Lemma says_app t a b : says t (a ++ b) = says t a ++ says t b.
Proof. unfold says. by rewrite map_app, concat_app. Qed.

(** A byte-level vocabulary, complete: a token for each byte, merges that
    join texts, words and added tokens with texts of their own. *)
Record byte_complete (t : Tokenizer) (size : nat) (M : list entry) (W : list Z) : Prop := {
  bc_texts : texts_ok t;
  bc_flags : has t BYTE_LEVEL = true /\ has t NFC = false /\ has t PREPEND = false /\ has t CL100K && has t O200K = false;
  bc_bytes : forall b, u8 b -> exists id, zget (t_bytes t) b = Some id /\ id <> NONE /\ said_by t id = [b];
  bc_merges : merges_of size (merges t) M;
  bc_joins : Forall (fun e : entry => let '(a, b, (r, c)) := e in 0 <= r < NONE /\ c <> NONE /\ said_by t c = said_by t a ++ said_by t b) M;
  bc_words : words t = [] \/ words_of t (words t) W;
  bc_added : Forall (fun id => said_by t id <> [] /\ utf8_valid (said_by t id)) (added t);
}.

Section Complete.
Context (t : Tokenizer) (size : nat) (M : list entry) (W : list Z) (Ht : byte_complete t size M W).
Context (tb : Tables) (is_numeric : Z -> bool).

Definition joins_to (a b : Z) : option (Z * Z) := snd <$> first_of is_pair M (a, b).
Lemma joins_to_spec a b r c : joins_to a b = Some (r, c) -> 0 <= r < NONE /\ c <> NONE /\ said_by t c = said_by t a ++ said_by t b.
Proof.
  unfold joins_to. destruct (first_of is_pair M (a, b)) as [[[x y] rc]|] eqn:Hf; [|done]. cbn. intros [= ->].
  apply List.find_some in Hf as [Hin Hp]. apply is_pair_spec in Hp. cbn in Hp. injection Hp as -> ->.
  apply list_elem_of_In in Hin. exact (proj1 (Forall_forall _ _) (bc_joins _ _ _ _ Ht) _ Hin).
Qed.

(** Merging keeps what the tokens say. *)
Lemma bpe_says fuel l : Forall (fun id => id <> NONE) l ->
  says t (bpe joins_to fuel l) = says t l /\ Forall (fun id => id <> NONE) (bpe joins_to fuel l).
Proof.
  revert l. induction fuel as [|fuel IH]; intros l Hl; cbn [bpe]; [done|].
  destruct (lowest (pairs_from joins_to 0 l)) as [[[k r] m]|] eqn:Hlow; [|done].
  apply lowest_elem, elem_of_pairs in Hlow as (d&a&b&->&Ha&Hb&Hm). apply joins_to_spec in Hm as (_&Hm&Hsay). cbn [Nat.add].
  assert (exists u v, l = u ++ a :: b :: v /\ take d l = u /\ drop (d + 2) l = v) as (u&v&->&->&->).
  { exists (take d l), (drop (d + 2) l). split_and!; [|done|done]. rewrite <- (take_drop_middle l d a Ha) at 1. do 2 f_equal.
    rewrite (drop_S l b (S d) Hb). do 2 f_equal. lia. }
  destruct (IH (u ++ m :: v)) as [Hs Hn].
  - rewrite !Forall_app, !Forall_cons in *. naive_solver.
  - split; [|done]. rewrite Hs, !says_app. f_equal. unfold says. cbn [map concat]. rewrite Hsay. by rewrite <- app_assoc.
Qed.

Lemma byte_symbols_spec b : bytes_ok b -> exists ids, byte_symbols t b = Ok ids /\ length ids = length b /\ says t ids = b /\ Forall (fun id => id <> NONE) ids.
Proof.
  induction 1 as [|x b Hx Hb (ids&Hi&Hl&Hs&Hn)]; [by exists []|]. destruct (bc_bytes _ _ _ _ Ht x Hx) as (id&Hid&Hne&Hsay).
  cbn [byte_symbols]. rewrite Hid, Hi. exists (id :: ids). split_and!; [done|cbn; lia| |by constructor]. unfold says in *. cbn [map concat]. by rewrite Hsay, Hs.
Qed.

Lemma merge_piece_says text : Forall (fun c => is_char c = true) text -> zlen (utf8_of text) < 2 ^ 32 ->
  exists ids, merge_piece t text = Ok ids /\ says t ids = utf8_of text.
Proof.
  intros Htext Hlen. unfold merge_piece. rewrite (proj1 (bc_flags _ _ _ _ Ht)).
  destruct (byte_symbols_spec (utf8_of text)) as (ids&->&Hl&Hs&Hn); [apply utf8_valid_ok; eexists; by apply utf8_chars_of|].
  cbn [mbind outcome_bind]. rewrite (merge_all_spec joins_to).
  - destruct (bpe_says (length ids) ids Hn) as [Hsay Hlive]. eexists. split; [done|]. rewrite <- Hs, <- Hsay. f_equal.
    clear -Hlive. induction Hlive as [|id l Hid _ IH]; [done|]. cbn. unfold live at 1. destruct (Z.eqb_spec id NONE); [done|]. cbn. by rewrite IH.
  - intros a b. apply (merge_spec t size). apply (bc_merges _ _ _ _ Ht).
  - intros a b r m Hm. by apply joins_to_spec in Hm as (?&_).
  - unfold zlen in *. lia.
Qed.

Lemma word_says text : exists o, word t text = Ok o /\ forall id, o = Some id -> said_by t id = text.
Proof.
  destruct (bc_words _ _ _ _ Ht) as [Hw|Hw].
  - exists None. split; [|done]. unfold word. by rewrite Hw.
  - exists (first_of (has_text t) W text). split.
    + rewrite <- (words_find t (bc_texts _ _ _ _ Ht) (words t) W text Hw). by destruct t.
    + intros id Hid. apply List.find_some in Hid as [_ Hid]. by apply has_text_spec in Hid.
Qed.

Lemma each_says f l : (forall x, x ∈ l -> exists ids, f x = Ok ids /\ says t ids = utf8_of x) ->
  exists ids, each f l = Ok ids /\ says t ids = utf8_of (concat l).
Proof.
  induction l as [|x l IH]; intros Hf; [by exists []|]. destruct (Hf x) as (a&Ha&Hsa); [apply elem_of_cons; by left|].
  destruct IH as (b&Hb&Hsb); [intros y Hy; apply Hf, elem_of_cons; by right|]. cbn [each concat]. rewrite Ha, Hb. exists (a ++ b).
  split; [done|]. by rewrite says_app, utf8_of_app, Hsa, Hsb.
Qed.

Lemma segment_says text : Forall (fun c => is_char c = true) text -> zlen (utf8_of text) < 2 ^ 32 ->
  exists ids, segment tb is_numeric t text = Ok ids /\ says t ids = utf8_of text.
Proof.
  intros Htext Hlen. destruct (bc_flags _ _ _ _ Ht) as (Hb&_&Hp&Hpat). unfold segment.
  assert (prefixed t text = text) as -> by (unfold prefixed; destruct text; [done|]; by rewrite Hp).
  rewrite Hb. unfold byte_segment. assert (exists p, pattern_of t = Ok p) as [p ->] by (unfold pattern_of; destruct (has t CL100K), (has t O200K); by eauto).
  cbn [mbind outcome_bind]. destruct (pieces_spec tb is_numeric p text Htext) as (l&->&<-&_). cbn [mbind outcome_bind]. apply each_says.
  intros x Hx. apply list_elem_of_split in Hx as (l1&l2&->). rewrite concat_app in *. cbn [concat] in *. rewrite !utf8_of_app, !zlen_app in Hlen.
  rewrite !Forall_app in Htext. destruct (word_says (utf8_of x)) as ([id|]&->&Hid); cbn [mbind outcome_bind].
  - exists [id]. split; [done|]. unfold says. cbn. by rewrite (Hid id eq_refl), app_nil_r.
  - apply merge_piece_says; [apply Htext|]. pose proof (zlen_nonneg (utf8_of (concat l1))). pose proof (zlen_nonneg (utf8_of (concat l2))). lia.
Qed.

(** A text whose bytes begin with those of another begins with it. *)
Lemma utf8_prefix s cs r : Forall (fun c => is_char c = true) s -> Forall (fun c => is_char c = true) cs -> utf8_of s = utf8_of cs ++ r ->
  exists s', s = cs ++ s'.
Proof.
  intros Hs Hcs Heq. assert (forall cs, Forall (fun c => is_char c = true) cs -> utf8_chars (utf8_of cs ++ r) = (app cs) <$> utf8_chars r) as Happ.
  { clear. induction 1 as [|c cs Hc _ IH]; [change (utf8_of [] ++ r) with r; by destruct (utf8_chars r)|]. unfold utf8_of in *. cbn [map concat]. rewrite <- app_assoc, utf8_chars_encode by done.
    rewrite IH. by destruct (utf8_chars r). }
  pose proof (utf8_chars_of s Hs) as H. rewrite Heq, Happ in H by done. destruct (utf8_chars r) as [s'|]; [|done]. cbn in H. exists s'. congruence.
Qed.
Lemma encode_utf8_len c : zlen (encode_utf8 c) = len_utf8 c.
Proof. unfold encode_utf8, len_utf8. destruct (c <? 0x80); [done|]. destruct (c <? 0x800); [done|]. by destruct (c <? 0x10000). Qed.
Lemma utf8_len s : zlen (utf8_of s) = str_len s.
Proof. induction s as [|c s IH]; [done|]. unfold utf8_of in *. cbn [map concat str_len]. by rewrite zlen_app, encode_utf8_len, IH. Qed.

Lemma encode_from_says fuel cur text :
  (length text <= fuel)%nat -> Forall (fun c => is_char c = true) (cur ++ text) -> zlen (utf8_of (cur ++ text)) < 2 ^ 32 ->
  exists ids, encode_from tb is_numeric fuel t cur text = Ok ids /\ says t ids = utf8_of (cur ++ text).
Proof.
  revert cur text. induction fuel as [|fuel IH]; intros cur text Hf Hc Hl; (destruct text as [|c text]; cbn [encode_from]; [rewrite app_nil_r in *; by apply segment_says|]).
  { cbn in Hf. lia. }
  destruct (added_at_spec t (bc_texts _ _ _ _ Ht) (bc_added _ _ _ _ Ht) (utf8_of (c :: text))) as (o&->&Ho). cbn [mbind outcome_bind]. destruct o as [[id len]|].
  - destruct (Ho id len eq_refl) as (Hid&->&r&Hr). destruct (proj1 (Forall_forall _ _) (bc_added _ _ _ _ Ht) _ Hid) as [Hne [cs Hcs]].
    apply utf8_chars_sound in Hcs as [Hcs Hcc]. apply Forall_app in Hc as [Hcur Htext]. rewrite <- Hcs in Hr. destruct (utf8_prefix _ _ _ Htext Hcc Hr) as [s' Hs'].
    rewrite Hs' in *. rewrite !utf8_of_app, !zlen_app in Hl. pose proof (zlen_nonneg (utf8_of cur)). pose proof (zlen_nonneg (utf8_of cs)). pose proof (zlen_nonneg (utf8_of s')).
    destruct (segment_says cur Hcur ltac:(lia)) as (a&->&Hsa). cbn [mbind outcome_bind]. rewrite <- Hcs, utf8_len, cut_at. cbn [mbind outcome_bind].
    destruct (IH [] s') as (b&->&Hsb).
    + destruct cs as [|d cs]; [by rewrite <- Hcs in Hne|]. rewrite length_app in Hf. cbn [length] in *. lia.
    + apply Forall_app in Htext. cbn. apply Htext.
    + cbn [app]. lia.
    + cbn [mbind outcome_bind]. eexists. split; [done|]. rewrite says_app, Hsa. unfold says in *. cbn [map concat]. by rewrite Hsb, <- Hcs, !utf8_of_app.
  - destruct (IH (cur ++ [c]) text) as (b&->&Hsb); [cbn in Hf; lia|by rewrite <- app_assoc|by rewrite <- app_assoc|].
    eexists. split; [done|]. rewrite Hsb. by rewrite <- app_assoc.
Qed.
End Complete.
