(* ===== verification/Vocab.v ===== *)
(** * Building a vocabulary ([token/mod.rs], [build])

    A tokenizer from its vocabulary, merges and added tokens. Names are lists
    of characters. *)
From stdpp Require Import gmap.
From S2P Require Import Prelude Bytes Utf8 Search Token Table Bpe Lookup Unicode Pieces Encode.

(** A loop that would not end does not return, no more than a panic does. *)
Definition run_to {A} (m : outcome unit A) : result A := match m with Ok a => Ok a | _ => Panic end.

Definition set_flags (t : Tokenizer) (f : Z) : Tokenizer :=
  mkTokenizer f (unk t) (offsets t) (t_text t) (special t) (t_bytes t) (chars t) (rare t) (joins t) (added t) (merges t) (words t) (frame t).
Definition set_text (t : Tokenizer) (x : list Z) : Tokenizer :=
  mkTokenizer (flags t) (unk t) (offsets t) x (special t) (t_bytes t) (chars t) (rare t) (joins t) (added t) (merges t) (words t) (frame t).
Definition set_offsets (t : Tokenizer) (x : list Z) : Tokenizer :=
  mkTokenizer (flags t) (unk t) x (t_text t) (special t) (t_bytes t) (chars t) (rare t) (joins t) (added t) (merges t) (words t) (frame t).
Definition set_bytes (t : Tokenizer) (x : list Z) : Tokenizer :=
  mkTokenizer (flags t) (unk t) (offsets t) (t_text t) (special t) x (chars t) (rare t) (joins t) (added t) (merges t) (words t) (frame t).
Definition set_chars (t : Tokenizer) (x : list Z) : Tokenizer :=
  mkTokenizer (flags t) (unk t) (offsets t) (t_text t) (special t) (t_bytes t) x (rare t) (joins t) (added t) (merges t) (words t) (frame t).
Definition set_rare (t : Tokenizer) (x : list Z) : Tokenizer :=
  mkTokenizer (flags t) (unk t) (offsets t) (t_text t) (special t) (t_bytes t) (chars t) x (joins t) (added t) (merges t) (words t) (frame t).
Definition set_joins (t : Tokenizer) (x : list Z) : Tokenizer :=
  mkTokenizer (flags t) (unk t) (offsets t) (t_text t) (special t) (t_bytes t) (chars t) (rare t) x (added t) (merges t) (words t) (frame t).
Definition set_added (t : Tokenizer) (x : list Z) : Tokenizer :=
  mkTokenizer (flags t) (unk t) (offsets t) (t_text t) (special t) (t_bytes t) (chars t) (rare t) (joins t) x (merges t) (words t) (frame t).
Definition set_merges (t : Tokenizer) (x : list Z) : Tokenizer :=
  mkTokenizer (flags t) (unk t) (offsets t) (t_text t) (special t) (t_bytes t) (chars t) (rare t) (joins t) (added t) x (words t) (frame t).

(** ** One token *)

(** [u8::from_str_radix(h, 16)] of two characters: a sign is a digit less. *)
Definition hex (c : Z) : option Z :=
  if within 48 57 c then Some (c - 48) else if within 65 70 c then Some (c - 55) else if within 97 102 c then Some (c - 87) else None.
Definition hex_byte (a b : Z) : option Z :=
  if a =? 43 then hex b else match hex a, hex b with Some x, Some y => Some (16 * x + y) | _, _ => None end.
(** [<0xHH>]. *)
Definition byte_name (name : list Z) : option Z :=
  match name with
  | [x; y; z; a; b; w] =>
      if (x =? 60) && (y =? 48) && (z =? 120) && (w =? 62) && (a <? 0x80) && (b <? 0x80) then hex_byte a b else None
  | _ => None
  end.
Definition unblock (name : list Z) : list Z := map (fun c => if c =? BLOCK then 32 else c) name.

Definition push_text (t : Tokenizer) (x : list Z) : Tokenizer :=
  let text := t_text t ++ x in set_offsets (set_text t text) (offsets t ++ [wrap 32 (zlen text)]).
(** [v[i] = x]. *)
Definition put_at {A} (l : list A) (i : Z) (x : A) : outcome unit (list A) :=
  match zget l i with Some _ => Ok (<[Z.to_nat i := x]> l) | None => Panic end.
Definition add_token (t : Tokenizer) (id : Z) (name : list Z) : outcome unit Tokenizer :=
  let sp := is_special t id in
  t ← match byte_name name with
      | Some b =>
          if has t BYTES && negb sp then x ← put_at (t_bytes t) b id; Ok (push_text (set_bytes t x) [b])
          else Ok (push_text t (utf8_of (if has t META && negb sp then unblock name else name)))
      | None => Ok (push_text t (utf8_of (if has t META && negb sp then unblock name else name)))
      end;
  match name with
  | [c] => if sp then Ok t
           else if c <? DIRECT then x ← put_at (chars t) c id; Ok (set_chars t x) else Ok (set_rare t (rare t ++ [c; id]))
  | _ => Ok t
  end.
(** A name of byte characters, as those bytes. *)
Fixpoint bytes_of_name (name : list Z) : option (list Z) :=
  match name with
  | [] => Some []
  | c :: name => match byte_of c, bytes_of_name name with Some b, Some l => Some (b :: l) | _, _ => None end
  end.
Definition add_byte_token (t : Tokenizer) (id : Z) (name : list Z) : outcome unit Tokenizer :=
  let decoded := bytes_of_name name in
  t ← match decoded with Some [b] => x ← put_at (t_bytes t) b id; Ok (set_bytes t x) | _ => Ok t end;
  Ok (push_text t (match decoded with Some l => l | None => utf8_of name end)).
Definition add (t : Tokenizer) (id : Z) (name : list Z) : outcome unit Tokenizer :=
  if has t BYTE_LEVEL && negb (is_special t id) then add_byte_token t id name else add_token t id name.
Fixpoint add_all (t : Tokenizer) (id : Z) (names : list (list Z)) : outcome unit Tokenizer :=
  match names with [] => Ok t | name :: names => t ← add t id name; add_all t (id + 1) names end.

(** ** The whole vocabulary *)
Fixpoint insert_with (le : Z -> Z -> bool) (x : Z) (l : list Z) : list Z :=
  match l with [] => [x] | y :: l => if le x y then x :: y :: l else y :: insert_with le x l end.
Definition sort_with (le : Z -> Z -> bool) (l : list Z) : list Z := foldr (insert_with le) [] l.
Fixpoint dedup (l : list Z) : list Z :=
  match l with x :: (y :: _) as l => if x =? y then dedup l else x :: dedup l | _ => l end.

Definition names_of (vocab : list (list Z * Z)) : list (list Z) :=
  let n := fold_left (fun m e => Z.max m (snd e + 1)) vocab 0 in
  fold_left (fun names e => <[Z.to_nat (snd e) := fst e]> names) vocab (replicate (Z.to_nat n) []).
Definition ids_of (vocab : list (list Z * Z)) : gmap (list Z) Z :=
  fold_left (fun m e => <[fst e := snd e]> m) vocab ∅.

(** [matched]: by first byte, the longest first, then by number. *)
Definition name_bytes (names : list (list Z)) (id : Z) : list Z := utf8_of (default [] (zget names id)).
Definition added_le (names : list (list Z)) (a b : Z) : bool :=
  let x := name_bytes names a in let y := name_bytes names b in
  match Z.compare (default 0 (head x)) (default 0 (head y)) with
  | Lt => true
  | Gt => false
  | Eq => match Z.compare (zlen y) (zlen x) with Lt => true | Gt => false | Eq => a <=? b end
  end.
Definition matched (names : list (list Z)) (added : list Z) : list Z :=
  sort_with (added_le names)
    (List.filter (fun id => match zget names id with Some n => negb (bool_decide (n = [])) && negb (bool_decide (BLOCK ∈ n)) | None => false end) added).

(** The characters a token joins to a following [BLOCK]. *)
Fixpoint joined_chars (name : list Z) : list Z :=
  match name with
  | c :: (d :: _) as name => if (d =? BLOCK) && negb (c =? BLOCK) then c :: joined_chars name else joined_chars name
  | _ => []
  end.
Definition joins_of (t : Tokenizer) (names : list (list Z)) : list Z :=
  dedup (sort_with Z.leb (concat (imap (fun id name => if is_special t (Z.of_nat id) then [] else joined_chars name) names))).

Definition unknown_token (a b : list Z) : error :=
  Format [Lit "tokenizer: merge "; Disp [34]; Disp (utf8_of a); Disp [34]; Lit " + "; Disp [34]; Disp (utf8_of b); Disp [34]; Lit " names an unknown token"].
Fixpoint merge_keys (ids : gmap (list Z) Z) (rank : Z) (ms : list (list Z * list Z)) (table : list Z) : result (list Z) :=
  match ms with
  | [] => Ok table
  | (a, b) :: ms =>
      let get s := ok_or (ids !! s) (unknown_token a b) in
      x ← get a; y ← get b; z ← get (a ++ b);
      table ← run_to (put_merge table (x, y, (wrap 32 rank, z)));
      merge_keys ids (rank + 1) ms table
  end.

Definition build (vocab : list (list Z * Z)) (ms : list (list Z * list Z)) (special added : list Z) (unk : option (list Z)) (flags : Z) : result Tokenizer :=
  let names := names_of vocab in
  let ids := ids_of vocab in
  let t := mkTokenizer flags (default NONE (unk ≫= fun u => ids !! u)) [0] [] (sort_with Z.leb special) (replicate 256 NONE)
             (replicate (Z.to_nat DIRECT) NONE) [] [] [] (empty_merges (length ms)) [] (NONE, NONE) in
  t ← run_to (add_all t 0 names);
  let t := set_joins t (joins_of t names) in
  let t := set_added t (matched names added) in
  table ← merge_keys ids 0 ms (merges t);
  Ok (set_merges t table).

(** ** The texts of the tokens, end to end *)
Fixpoint ends_of (o : Z) (ps : list (list Z)) : list Z := match ps with [] => [o] | p :: ps => o :: ends_of (o + zlen p) ps end.
Definition texts_of (ps : list (list Z)) (t : Tokenizer) : Prop := t_text t = concat ps /\ offsets t = ends_of 0 ps.

Lemma ends_of_app o ps p : ends_of o (ps ++ [p]) = ends_of o ps ++ [o + zlen (concat ps) + zlen p].
Proof.
  revert o. induction ps as [|q ps IH]; intros o; cbn [app ends_of concat]; [rewrite zlen_nil, Z.add_0_r; done|].
  rewrite IH, zlen_app. by rewrite !Z.add_assoc.
Qed.
Lemma ends_of_at o ps i : (i <= length ps)%nat -> ends_of o ps !! i = Some (o + zlen (concat (take i ps))).
Proof.
  revert o i. induction ps as [|q ps IH]; intros o [|i] Hi; cbn [length] in Hi; cbn [ends_of take concat lookup list_lookup]; rewrite ?zlen_nil, ?Z.add_0_r; try done; [lia|].
  rewrite IH by lia. cbn [concat]. rewrite zlen_app. f_equal. lia.
Qed.
Lemma ends_of_length o ps : length (ends_of o ps) = S (length ps).
Proof. revert o. induction ps as [|q ps IH]; intros o; cbn; [done|]. by rewrite IH. Qed.
Lemma take_concat_le {A} (ps : list (list A)) i j : (i <= j)%nat -> zlen (concat (take i ps)) <= zlen (concat (take j ps)).
Proof.
  intros Hij. replace j with (i + (j - i))%nat by lia. rewrite <- take_take_drop, concat_app, zlen_app. pose proof (zlen_nonneg (concat (take (j - i) (drop i ps)))). lia.
Qed.
Lemma take_concat_all {A} (ps : list (list A)) i : zlen (concat (take i ps)) <= zlen (concat ps).
Proof.
  destruct (decide (i <= length ps)%nat).
  - rewrite <- (firstn_all ps) at 2. by apply take_concat_le.
  - by rewrite take_ge by lia.
Qed.

Lemma texts_of_ok ps t : texts_of ps t -> Forall bytes_ok ps -> ascending (special t) -> texts_ok t.
Proof.
  intros [Ht Ho] Hb Hs. split; [| | |done].
  - intros i j x y Hij Hi Hj. rewrite Ho in Hi, Hj. pose proof (lookup_lt_Some _ _ _ Hj) as Hlt. rewrite ends_of_length in Hlt.
    rewrite ends_of_at in Hi, Hj by lia. simplify_eq. pose proof (take_concat_le ps i j Hij). lia.
  - apply Forall_lookup_2. intros i x Hi. rewrite Ho in Hi. pose proof (lookup_lt_Some _ _ _ Hi) as Hlt. rewrite ends_of_length in Hlt.
    rewrite ends_of_at in Hi by lia. simplify_eq. rewrite Ht. pose proof (take_concat_all ps i). pose proof (zlen_nonneg (concat (take i ps))). lia.
  - rewrite Ht. clear Ht Ho. induction Hb; cbn; [constructor|]. by apply Forall_app.
Qed.
(** Each token says its own. *)
Lemma texts_of_said ps t id : texts_of ps t -> 0 <= id -> said_by t id = default [] (ps !! Z.to_nat id).
Proof.
  intros [Ht Ho] Hid. unfold said_by, token_bytes. rewrite Ho, Ht. destruct (Z_of_nat_complete id Hid) as [i ->]. rewrite Nat2Z.id.
  destruct (ps !! i) as [p|] eqn:Hp.
  - pose proof (lookup_lt_Some _ _ _ Hp) as Hlt.
    assert (zslice (ends_of 0 ps) (Z.of_nat i) (Z.of_nat i + 2) = Some [zlen (concat (take i ps)); zlen (concat (take i ps)) + zlen p]) as ->.
    { assert (zlen (ends_of 0 ps) = Z.of_nat (S (length ps))) as Hz by (unfold zlen; by rewrite ends_of_length).
      apply zslice_Some. rewrite Hz. split_and!; [lia|lia|lia|]. unfold ztake, zdrop. rewrite Nat2Z.id.
      replace (Z.to_nat (Z.of_nat i + 2 - Z.of_nat i)) with 2%nat by lia.
      rewrite (drop_S _ _ _ (ends_of_at 0 ps i ltac:(lia))), (drop_S _ _ _ (ends_of_at 0 ps (S i) ltac:(lia))). cbn [firstn]. rewrite take_0.
      rewrite (take_S_r _ _ _ Hp), concat_app, zlen_app. cbn [concat]. by rewrite app_nil_r. }
    rewrite <- (take_drop_middle ps i p Hp) at 1. rewrite concat_app. cbn [concat].
    by rewrite (zslice_app (concat (take i ps)) p (concat (drop (S i) ps))).
  - apply lookup_ge_None in Hp. assert (zslice (ends_of 0 ps) (Z.of_nat i) (Z.of_nat i + 2) = None) as ->; [|done].
    apply zslice_None; [lia|]. right. unfold zlen. rewrite ends_of_length. lia.
Qed.
Lemma push_texts ps t x : texts_of ps t -> zlen (concat ps) + zlen x < 2 ^ 32 -> texts_of (ps ++ [x]) (push_text t x).
Proof.
  intros [Ht Ho] Hl. unfold push_text. split; cbn [t_text offsets set_offsets set_text].
  - rewrite Ht, concat_app. cbn. by rewrite app_nil_r.
  - rewrite Ho, ends_of_app, Ht, zlen_app. rewrite wrap_id; [done|]. pose proof (zlen_nonneg (concat ps)). pose proof (zlen_nonneg x). split; lia.
Qed.

(** ** Adding tokens *)
Section Adding.
Context (f : Z) (sp mg : list Z).
Definition flagged (x : Z) : bool := negb (Z.land f x =? 0).
(** What token [id] says, from its name. *)
Definition text_of (id : Z) (name : list Z) : list Z :=
  if flagged BYTE_LEVEL && negb (found sp id) then match bytes_of_name name with Some l => l | None => utf8_of name end
  else
    let plain := utf8_of (if flagged META && negb (found sp id) then unblock name else name) in
    match byte_name name with Some b => if flagged BYTES && negb (found sp id) then [b] else plain | None => plain end.

Record vocab_inv (ps : list (list Z)) (t : Tokenizer) : Prop := {
  vi_texts : texts_of ps t;
  vi_same : flags t = f /\ special t = sp /\ merges t = mg /\ words t = [];
  vi_sizes : length (t_bytes t) = 256%nat /\ zlen (chars t) = DIRECT;
  vi_bytes : forall b id, t_bytes t !! b = Some id -> id = NONE \/ (0 <= id /\ ps !! Z.to_nat id = Some [Z.of_nat b]);
}.
#[local] Instance one_byte_dec name : Decision (exists b, bytes_of_name name = Some [b]).
Proof. destruct (bytes_of_name name) as [[|b [|b' l]]|]; [right|left; by eexists|right|right]; by intros [? [=]]. Defined.
(** The bytes that have a token. *)
Definition has_byte (t : Tokenizer) (b : Z) : Prop := exists id, zget (t_bytes t) b = Some id /\ id <> NONE.

Lemma unprintable_bytes : forallb (fun b => (0 <=? b) && (b <? 256)) unprintable = true.
Proof. vm_compute. reflexivity. Qed.
Lemma unprintable_below b : b ∈ unprintable -> u8 b.
Proof.
  intros Hb%list_elem_of_In. pose proof (proj1 (List.forallb_forall _ _) unprintable_bytes b Hb) as H. cbv beta in H. unfold fits. change (2 ^ 8) with 256. lia.
Qed.
#[local] Opaque unprintable.
Lemma byte_of_u8 c b : byte_of c = Some b -> u8 b.
Proof.
  unfold byte_of. destruct (within 0 255 c) eqn:Hw; [apply within_true in Hw; destruct (printable c); [|done]; intros [= <-]; unfold fits; lia|].
  destruct (within 256 323 c); [|done]. intros Hb. apply unprintable_below. by eapply list_elem_of_lookup_2.
Qed.
Lemma hex_bounds c v : hex c = Some v -> 0 <= v < 16.
Proof. unfold hex. repeat (case_match; [rewrite within_true in *; intros [= <-]; lia|]). done. Qed.
Lemma byte_name_u8 name b : byte_name name = Some b -> u8 b.
Proof.
  unfold byte_name. repeat (case_match; try done). unfold hex_byte. case_match; [intros Hh%hex_bounds; unfold fits; lia|].
  destruct (hex _) as [x|] eqn:Hx; [|done]. apply hex_bounds in Hx. destruct (hex _) as [y|] eqn:Hy; [|done]. apply hex_bounds in Hy. intros [= <-]. unfold fits. lia.
Qed.

Lemma put_byte ps t b id : vocab_inv ps t -> u8 b -> put_at (t_bytes t) b id = Ok (<[Z.to_nat b := id]> (t_bytes t)).
Proof. intros Hi Hb. unfold put_at. destruct (zget_is_Some (t_bytes t) b) as [x ->]; [|done]. unfold zlen. rewrite (proj1 (vi_sizes _ _ Hi)). unfold fits in Hb. lia. Qed.

(** The table after byte [b] is given the token that comes next. *)
Lemma vocab_inv_byte ps t b x :
  vocab_inv ps t -> u8 b -> x = [b] -> zlen ps < NONE -> zlen (concat ps) + zlen x < 2 ^ 32 ->
  let t' := push_text (set_bytes t (<[Z.to_nat b := zlen ps]> (t_bytes t))) x in
  vocab_inv (ps ++ [x]) t' /\ (forall c, has_byte t c -> has_byte t' c) /\ has_byte t' b.
Proof.
  intros Hi Hb -> Hn Hl. cbv zeta. destruct (vi_sizes _ _ Hi) as [Hs Hc]. unfold fits in Hb. assert (zget (t_bytes t) b = t_bytes t !! Z.to_nat b) as Hz.
  { unfold zget. destruct (Z.ltb_spec b 0); [lia|done]. }
  assert (zget (<[Z.to_nat b := zlen ps]> (t_bytes t)) b = Some (zlen ps)) as Hat.
  { unfold zget. destruct (Z.ltb_spec b 0); [lia|]. apply list_lookup_insert_eq. lia. }
  split_and!.
  - split; cbn.
    + apply (push_texts ps (set_bytes t _)); [apply (vi_texts _ _ Hi)|done].
    + apply (vi_same _ _ Hi).
    + by rewrite length_insert.
    + intros c id Hc'. destruct (decide (c = Z.to_nat b)) as [->|Hne].
      * rewrite list_lookup_insert_eq in Hc' by lia. injection Hc' as <-. right. split; [apply zlen_nonneg|]. unfold zlen. rewrite Nat2Z.id.
        rewrite lookup_app_r, Nat.sub_diag by lia. cbn. do 2 f_equal. lia.
      * rewrite list_lookup_insert_ne in Hc' by done. destruct (vi_bytes _ _ Hi c id Hc') as [|[H0 Hp]]; [by left|right]. split; [done|]. by apply lookup_app_l_Some.
  - intros c (id&Hid&Hne). unfold has_byte. cbn. destruct (decide (c = b)) as [->|Hcb]; [exists (zlen ps); split; [done|lia]|]. exists id. split; [|done].
    unfold zget in *. destruct (Z.ltb_spec c 0); [done|]. rewrite list_lookup_insert_ne by lia. done.
  - exists (zlen ps). split; [done|lia].
Qed.
Lemma vocab_inv_text ps t x :
  vocab_inv ps t -> zlen (concat ps) + zlen x < 2 ^ 32 -> vocab_inv (ps ++ [x]) (push_text t x).
Proof.
  intros Hi Hl. split; cbn.
  - by apply push_texts; [apply (vi_texts _ _ Hi)|].
  - apply (vi_same _ _ Hi).
  - apply (vi_sizes _ _ Hi).
  - intros b id Hb. destruct (vi_bytes _ _ Hi b id Hb) as [|[H0 Hp]]; [by left|right]. split; [done|]. by apply lookup_app_l_Some.
Qed.

Lemma add_spec ps t name :
  vocab_inv ps t -> Forall (fun c => is_char c = true) name -> zlen ps < NONE -> zlen (concat ps) + zlen (text_of (zlen ps) name) < 2 ^ 32 ->
  exists t', add t (zlen ps) name = Ok t' /\ vocab_inv (ps ++ [text_of (zlen ps) name]) t' /\ (forall b, has_byte t b -> has_byte t' b)
    /\ (forall b, flagged BYTE_LEVEL = true -> found sp (zlen ps) = false -> bytes_of_name name = Some [b] -> has_byte t' b).
Proof.
  intros Hi Hname Hn Hl. destruct (vi_same _ _ Hi) as (Hf&Hsp&_&_). unfold add, is_special. unfold text_of in *.
  assert (forall x, has t x = flagged x) as Hhas by (intros x; unfold has, flagged; by rewrite Hf). rewrite Hhas, Hsp.
  destruct (flagged BYTE_LEVEL && negb (found sp (zlen ps))) eqn:Hbl.
  - unfold add_byte_token. destruct (decide (exists b, bytes_of_name name = Some [b])) as [[b Hdec]|Hno].
    2: { exists (push_text t (match bytes_of_name name with Some l => l | None => utf8_of name end)). split; [destruct (bytes_of_name name) as [[|b [|b' l]]|]; try done; exfalso; eauto|]. split; [by apply vocab_inv_text|].
         split; [done|]. intros b _ _ Hb. exfalso. eauto. }
    rewrite Hdec in *. cbn [mbind outcome_bind].
    assert (u8 b) as Hb.
    { destruct name as [|c [|d name]]; cbn in Hdec; [done| |]; destruct (byte_of c) eqn:Hc; try done.
      - injection Hdec as <-. by eapply byte_of_u8.
      - destruct (byte_of d), (bytes_of_name name); done. }
    rewrite (put_byte ps) by done. cbn [mbind outcome_bind]. destruct (vocab_inv_byte ps t b [b] Hi Hb eq_refl Hn Hl) as (H1&H2&H3).
    eexists. split; [done|]. split; [done|]. split; [done|]. by intros b0 _ _ [= <-].
  - assert (forall b, flagged BYTE_LEVEL = true -> found sp (zlen ps) = false -> bytes_of_name name = Some [b] -> False) as Hno.
    { intros b H1 H2. rewrite H1, H2 in Hbl. done. }
    set (plain := utf8_of (if flagged META && negb (found sp (zlen ps)) then unblock name else name)) in *.
    set (x := match byte_name name with Some b => if flagged BYTES && negb (found sp (zlen ps)) then [b] else plain | None => plain end) in *.
    assert (exists t1, match byte_name name with
       | Some b => if flagged BYTES && negb (found sp (zlen ps)) then y ← put_at (t_bytes t) b (zlen ps); Ok (push_text (set_bytes t y) [b]) else Ok (push_text t plain)
       | None => Ok (push_text t plain) end = Ok t1 /\ vocab_inv (ps ++ [x]) t1 /\ (forall b, has_byte t b -> has_byte t1 b)) as (t1&H1&Hi1&Hb1).
    { unfold x in *. destruct (byte_name name) as [b|] eqn:Hbn; [destruct (flagged BYTES && negb (found sp (zlen ps)))|].
      - apply byte_name_u8 in Hbn. rewrite (put_byte ps) by done. cbn [mbind outcome_bind].
        destruct (vocab_inv_byte ps t b [b] Hi Hbn eq_refl Hn Hl) as (?&?&_). eauto.
      - eexists. split; [done|]. split; [by apply vocab_inv_text|done].
      - eexists. split; [done|]. split; [by apply vocab_inv_text|done]. }
    unfold add_token, is_special. rewrite !Hhas, Hsp. fold plain. rewrite H1. cbn [mbind outcome_bind].
    assert (forall r, vocab_inv (ps ++ [x]) (set_rare t1 r)) as Hrare by (intros r; destruct Hi1; by split).
    assert (forall t2, vocab_inv (ps ++ [x]) t2 -> t_bytes t2 = t_bytes t1 -> exists t', Ok t2 = @Ok unit _ t' /\ vocab_inv (ps ++ [x]) t' /\ (forall b, has_byte t b -> has_byte t' b)
      /\ (forall b, flagged BYTE_LEVEL = true -> found sp (zlen ps) = false -> bytes_of_name name = Some [b] -> has_byte t' b)) as Hend.
    { intros t2 H2 Hb2. exists t2. split; [done|]. split; [done|]. split; [unfold has_byte in *; by rewrite Hb2|]. intros b ? ? ?. exfalso. by eapply Hno. }
    destruct name as [|c [|d name]]; [by apply Hend| |by apply Hend]. destruct (found sp (zlen ps)); [by apply Hend|].
    destruct (Z.ltb_spec c DIRECT) as [Hd|Hd]; [|by apply Hend].
    apply Forall_cons in Hname as [Hchar _]. apply is_char_spec in Hchar. unfold put_at.
    destruct (zget_is_Some (chars t1) c) as [y ->]; [rewrite (proj2 (vi_sizes _ _ Hi1)); lia|]. cbn [mbind outcome_bind]. apply Hend; [|done].
    destruct Hi1 as [? ? [? Hcs] ?]. split; [done|done| |done]. cbn. unfold zlen in *. by rewrite length_insert.
Qed.

Definition texts_from (n : nat) (names : list (list Z)) : list (list Z) := imap (fun i => text_of (Z.of_nat (n + i))) names.
Lemma texts_from_cons n name names : texts_from n (name :: names) = text_of (Z.of_nat n) name :: texts_from (S n) names.
Proof.
  unfold texts_from. rewrite imap_cons. f_equal; [by rewrite Nat.add_0_r|]. apply imap_ext. intros i x _. cbn. do 2 f_equal. lia.
Qed.

Lemma add_all_spec ps t names :
  vocab_inv ps t -> Forall (Forall (fun c => is_char c = true)) names -> zlen ps + zlen names <= NONE ->
  zlen (concat (ps ++ texts_from (length ps) names)) < 2 ^ 32 ->
  exists t', add_all t (zlen ps) names = Ok t' /\ vocab_inv (ps ++ texts_from (length ps) names) t' /\ (forall b, has_byte t b -> has_byte t' b)
    /\ (forall i name b, names !! i = Some name -> flagged BYTE_LEVEL = true -> found sp (Z.of_nat (length ps + i)) = false ->
          bytes_of_name name = Some [b] -> has_byte t' b).
Proof.
  intros Hi Hnames. revert ps t Hi. induction Hnames as [|name names Hname _ IH]; intros ps t Hi Hn Hl.
  - exists t. cbn. rewrite app_nil_r. split_and!; [done|done|done|]. by intros [|i] ? ? [=].
  - rewrite texts_from_cons in Hl |- *. rewrite zlen_cons in Hn. pose proof (zlen_nonneg names). rewrite cons_middle, app_assoc in Hl |- *. rewrite concat_app, zlen_app in Hl.
    destruct (add_spec ps t name Hi Hname ltac:(lia)) as (t1&H1&Hi1&Hb1&Hnew1).
    { rewrite concat_app, zlen_app in Hl. cbn [concat] in Hl. rewrite app_nil_r in Hl. unfold zlen at 3. pose proof (zlen_nonneg (concat (texts_from (S (length ps)) names))). unfold zlen in *. lia. }
    cbn [add_all]. rewrite H1. cbn [mbind outcome_bind]. destruct (IH (ps ++ [text_of (zlen ps) name]) t1 Hi1) as (t2&H2&Hi2&Hb2&Hnew2).
    + rewrite zlen_app, zlen_cons, zlen_nil. lia.
    + rewrite length_app. cbn [length]. rewrite Nat.add_1_r, concat_app, zlen_app. done.
    + rewrite length_app in *. cbn [length] in *. rewrite Nat.add_1_r in *. replace (zlen ps + 1) with (zlen (ps ++ [text_of (zlen ps) name])) by (rewrite zlen_app; done).
      exists t2. split; [done|]. split; [done|]. split; [by auto|]. intros [|i] nm b Hat Hbl Hf Hdec.
      * cbn in Hat. injection Hat as <-. rewrite Nat.add_0_r in Hf. by apply Hb2, Hnew1.
      * apply (Hnew2 i nm b Hat Hbl); [|done]. by replace (S (length ps) + i)%nat with (length ps + S i)%nat by lia.
Qed.
End Adding.

(** ** Names and numbers *)
Definition consistent (vocab : list (list Z * Z)) : Prop :=
  Forall (fun e => 0 <= snd e < NONE /\ Forall (fun c => is_char c = true) (fst e)) vocab
  /\ forall s s' id, (s, id) ∈ vocab -> (s', id) ∈ vocab -> s = s'.

Lemma max_id vocab m : m <= fold_left (fun m e => Z.max m (snd e + 1)) vocab m
  /\ forall e : list Z * Z, e ∈ vocab -> snd e < fold_left (fun m e => Z.max m (snd e + 1)) vocab m.
Proof.
  revert m. induction vocab as [|e vocab IH]; intros m; cbn [fold_left]; [split; [lia|intros ? []%not_elem_of_nil]|].
  destruct (IH (Z.max m (snd e + 1))) as [H1 H2]. split; [lia|]. intros e' [->|He]%elem_of_cons; [lia|by apply H2].
Qed.
Lemma max_id_le vocab m B : m <= B -> Forall (fun e : list Z * Z => snd e < B) vocab -> fold_left (fun m e => Z.max m (snd e + 1)) vocab m <= B.
Proof. intros Hm Hv. revert m Hm. induction Hv as [|e vocab He _ IH]; intros m Hm; cbn [fold_left]; [done|]. apply IH. lia. Qed.

Section Names.
Context (vocab : list (list Z * Z)) (Hv : consistent vocab).
Lemma names_length : zlen (names_of vocab) <= NONE.
Proof.
  unfold names_of. set (n := fold_left _ vocab 0). assert (n <= NONE) as Hn.
  { apply max_id_le; [done|]. eapply Forall_impl; [apply Hv|]. cbn. lia. }
  assert (forall v l, length (fold_left (fun names (e : list Z * Z) => <[Z.to_nat (snd e) := fst e]> names) v l) = length l) as Hl.
  { intros v. induction v as [|e v IH]; intros l; cbn [fold_left]; [done|]. by rewrite IH, length_insert. }
  unfold zlen. rewrite Hl, length_replicate. pose proof (proj1 (max_id vocab 0)). fold n in H. lia.
Qed.
Lemma names_at s id : (s, id) ∈ vocab -> zget (names_of vocab) id = Some s.
Proof.
  intros Hin. pose proof (proj1 (Forall_forall _ _) (proj1 Hv) _ Hin) as [[Hid _] _]. cbn in Hid. unfold zget. destruct (Z.ltb_spec id 0); [lia|].
  unfold names_of. set (n := fold_left _ vocab 0). assert (id < n) as Hn by (by apply (proj2 (max_id vocab 0) (s, id))).
  assert (forall v l, (forall e, e ∈ v -> e ∈ vocab) -> (Z.to_nat id < length l)%nat -> (l !! Z.to_nat id = Some s \/ (s, id) ∈ v) ->
    fold_left (fun names (e : list Z * Z) => <[Z.to_nat (snd e) := fst e]> names) v l !! Z.to_nat id = Some s) as Hfold.
  { intros v. induction v as [|[s' id'] v IH]; intros l Hsub Hl Hor; cbn [fold_left fst snd].
    - destruct Hor as [|[]%not_elem_of_nil]; done.
    - apply IH; [intros e He; apply Hsub, elem_of_cons; by right|by rewrite length_insert|].
      assert ((s', id') ∈ vocab) as Hin' by (apply Hsub, elem_of_cons; by left).
      pose proof (proj1 (Forall_forall _ _) (proj1 Hv) _ Hin') as [[Hid' _] _]. cbn in Hid'. destruct (decide (id' = id)) as [->|Hne].
      + left. rewrite list_lookup_insert_eq by done. f_equal. by eapply Hv.
      + destruct Hor as [Hat|[[= <- <-]|Hin2]%elem_of_cons]; [|done|by right]. left. rewrite list_lookup_insert_ne by lia. done. }
  apply Hfold; [done|rewrite length_replicate; lia|by right].
Qed.
Lemma names_chars : Forall (Forall (fun c => is_char c = true)) (names_of vocab).
Proof.
  unfold names_of. set (n := fold_left _ vocab 0). assert (Forall (Forall (fun c => is_char c = true)) (replicate (Z.to_nat n) [])) as H0
    by (apply Forall_replicate; constructor).
  revert H0. generalize (replicate (Z.to_nat n) (@nil Z)). clear n. destruct Hv as [Hall _]. clear Hv. induction Hall as [|[s id] v [_ Hs] _ IH]; intros l Hl; cbn [fold_left]; [done|].
  apply IH. by apply Forall_insert.
Qed.
Lemma ids_in s id : ids_of vocab !! s = Some id -> (s, id) ∈ vocab.
Proof.
  unfold ids_of. assert (forall v (m : gmap (list Z) Z), fold_left (fun m e => <[fst e := snd e]> m) v m !! s = Some id -> (s, id) ∈ v \/ m !! s = Some id) as H.
  { intros v. induction v as [|[s' id'] v IH]; intros m; cbn [fold_left fst snd]; [by right|]. intros H. destruct (IH _ H) as [|Hm]; [left; apply elem_of_cons; by right|].
    destruct (decide (s' = s)) as [->|Hne]; [rewrite lookup_insert_eq in Hm; injection Hm as <-; left; apply elem_of_cons; by left|].
    rewrite lookup_insert_ne in Hm by done. by right. }
  intros Hs. destruct (H _ _ Hs) as [|Hm]; [done|]. by rewrite lookup_empty in Hm.
Qed.
Lemma ids_some s id : (s, id) ∈ vocab -> exists id', ids_of vocab !! s = Some id'.
Proof.
  unfold ids_of. assert (forall v (m : gmap (list Z) Z), ((s, id) ∈ v \/ is_Some (m !! s)) -> exists x, fold_left (fun m e => <[fst e := snd e]> m) v m !! s = Some x) as H.
  { intros v. induction v as [|[s' id'] v IH]; intros m Hor; cbn [fold_left fst snd]; [destruct Hor as [[]%not_elem_of_nil|[x Hx]]; by exists x|].
    apply IH. destruct (decide (s' = s)) as [->|Hne]; [right; rewrite lookup_insert_eq; by eexists|]. rewrite lookup_insert_ne by done.
    destruct Hor as [[[= -> _]|]%elem_of_cons|]; [done|by left|by right]. }
  intros Hin. apply H. by left.
Qed.
End Names.
