(* ===== verification/Built.v ===== *)
(** * A built vocabulary says back what it encodes ([token/mod.rs])

    From [build] to [encode]: a byte-level vocabulary with a token for each
    byte, whatever its merges and added tokens, turns a text into tokens whose
    texts, end to end, are that text. *)
From stdpp Require Import gmap.
From S2P Require Import Prelude Bytes Utf8 Search Token Table Bpe Merges Lookup Unicode Pieces Encode Vocab.

(** ** Sorting *)
Lemma insert_with_elem le x y l : y ∈ insert_with le x l <-> y = x \/ y ∈ l.
Proof.
  induction l as [|z l IH]; cbn; [rewrite elem_of_cons, elem_of_nil; tauto|]. destruct (le x z); rewrite !elem_of_cons; [done|]. rewrite IH. tauto.
Qed.
Lemma sort_with_elem le y l : y ∈ sort_with le l <-> y ∈ l.
Proof. unfold sort_with. induction l as [|x l IH]; cbn; [done|]. by rewrite insert_with_elem, IH, elem_of_cons. Qed.
Fixpoint up (l : list Z) : Prop := match l with [] => True | x :: l => Forall (Z.le x) l /\ up l end.
Lemma sort_up l : up (sort_with Z.leb l).
Proof.
  assert (forall x l, up l -> up (insert_with Z.leb x l)) as Hi.
  { clear. intros x l. induction l as [|y l IH]; cbn; [by repeat constructor|]. intros [Hy Hl]. destruct (Z.leb_spec x y) as [Hxy|Hxy]; cbn.
    - split; [|done]. constructor; [done|]. eapply Forall_impl; [exact Hy|]. cbn. lia.
    - split; [|by apply IH]. apply Forall_forall. intros z [->|Hz]%insert_with_elem; [lia|]. by eapply Forall_forall in Hy. }
  unfold sort_with. induction l as [|x l IH]; cbn; [done|]. by apply Hi.
Qed.
Lemma up_ascending l : up l -> ascending l.
Proof.
  intros Hu i j x y Hij Hi Hj. revert i j Hij Hi Hj. induction l as [|z l IH]; intros i j Hij Hi Hj; [done|]. destruct Hu as [Hz Hu].
  destruct i as [|i], j as [|j]; cbn in Hi, Hj; simplify_eq; [lia| |lia|].
  - by apply (Forall_lookup_1 _ _ _ _ Hz) in Hj.
  - apply (IH Hu i j); [lia|done|done].
Qed.

(** ** Texts *)
Section Texts.
Context (f : Z) (sp : list Z).
Lemma bytes_of_name_ok name l : bytes_of_name name = Some l -> bytes_ok l.
Proof.
  revert l. induction name as [|c name IH]; intros l; cbn; [intros [= <-]; constructor|]. destruct (byte_of c) eqn:Hc; [|done].
  destruct (bytes_of_name name) as [k|]; [|done]. intros [= <-]. constructor; [by eapply byte_of_u8|by apply IH].
Qed.
Lemma utf8_of_ok name : Forall (fun c => is_char c = true) name -> bytes_ok (utf8_of name).
Proof. intros Hn. apply utf8_valid_ok. eexists. by apply utf8_chars_of. Qed.
Lemma utf8_of_nonempty name : name <> [] -> utf8_of name <> [].
Proof. destruct name as [|c name]; [done|]. intros _. unfold utf8_of. cbn. unfold encode_utf8. repeat case_match; done. Qed.
Lemma text_of_ok id name : Forall (fun c => is_char c = true) name -> bytes_ok (text_of f sp id name).
Proof.
  intros Hn. unfold text_of. assert (forall b : bool, bytes_ok (utf8_of (if b then unblock name else name))) as Hp.
  { intros []; apply utf8_of_ok; [|done]. unfold unblock. apply Forall_fmap. eapply Forall_impl; [exact Hn|]. intros c Hc. cbn. by destruct (c =? BLOCK). }
  destruct (flagged f BYTE_LEVEL && _).
  - destruct (bytes_of_name name) as [l|] eqn:Hl; [by eapply bytes_of_name_ok|by apply utf8_of_ok].
  - destruct (byte_name name) as [b|] eqn:Hb; [|apply Hp]. destruct (flagged f BYTES && _); [|apply Hp]. constructor; [by eapply byte_name_u8|constructor].
Qed.
Lemma text_of_nonempty id name : name <> [] -> text_of f sp id name <> [].
Proof.
  intros Hn. unfold text_of. assert (forall b : bool, utf8_of (if b then unblock name else name) <> []) as Hp.
  { intros []; apply utf8_of_nonempty; [|done]. by destruct name. }
  destruct (flagged f BYTE_LEVEL && _).
  - destruct (bytes_of_name name) as [l|] eqn:Hl; [|by apply utf8_of_nonempty]. destruct name as [|c name]; [done|]. cbn in Hl.
    destruct (byte_of c), (bytes_of_name name); by simplify_eq.
  - destruct (byte_name name) as [b|] eqn:Hb; [|apply Hp]. destruct (flagged f BYTES && _); [done|apply Hp].
Qed.
Lemma texts_at names i : texts_from f sp 0 names !! i = text_of f sp (Z.of_nat i) <$> names !! i.
Proof. unfold texts_from. by rewrite list_lookup_imap. Qed.
End Texts.
Lemma bytes_of_name_app a b x y : bytes_of_name a = Some x -> bytes_of_name b = Some y -> bytes_of_name (a ++ b) = Some (x ++ y).
Proof.
  revert x. induction a as [|c a IH]; intros x; cbn; [by intros [= <-]|]. destruct (byte_of c); [|done]. destruct (bytes_of_name a) as [l|]; [|done].
  intros [= <-] Hb. by rewrite (IH l eq_refl Hb).
Qed.

(** ** Merges *)
Fixpoint keys_of (ids : gmap (list Z) Z) (rank : Z) (ms : list (list Z * list Z)) : list entry :=
  match ms with
  | [] => []
  | (a, b) :: ms => (default 0 (ids !! a), default 0 (ids !! b), (wrap 32 rank, default 0 (ids !! (a ++ b)))) :: keys_of ids (rank + 1) ms
  end.
Lemma merge_keys_put ids rank ms table :
  Forall (fun '(a, b) => is_Some (ids !! a) /\ is_Some (ids !! b) /\ is_Some (ids !! (a ++ b))) ms ->
  merge_keys ids rank ms table = run_to (put_merges table (keys_of ids rank ms)).
Proof.
  intros Hms. revert rank table. induction Hms as [|[a b] ms ([x Hx]&[y Hy]&[z Hz]) _ IH]; intros rank table; [done|].
  cbn [merge_keys keys_of put_merges]. rewrite Hx, Hy, Hz. cbn [ok_or mbind outcome_bind default from_option id].
  destruct (put_merge table _) as [table'| |]; cbn [run_to mbind outcome_bind]; [apply IH|done|done].
Qed.
Lemma keys_of_elem ids ms rank e : 0 <= rank -> rank + zlen ms < NONE -> e ∈ keys_of ids rank ms ->
  exists a b r, (a, b) ∈ ms /\ 0 <= r < NONE /\ e = (default 0 (ids !! a), default 0 (ids !! b), (r, default 0 (ids !! (a ++ b)))).
Proof.
  revert rank. induction ms as [|[a b] ms IH]; intros rank H0 Hr; [intros []%not_elem_of_nil|]. rewrite zlen_cons in Hr. pose proof (zlen_nonneg ms).
  cbn [keys_of]. intros [->|He]%elem_of_cons.
  - exists a, b, rank. split; [apply elem_of_cons; by left|]. split; [lia|]. rewrite wrap_id; [done|]. unfold fits, NONE in *. lia.
  - destruct (IH (rank + 1) ltac:(lia) ltac:(lia) He) as (a'&b'&r&Hin&?&?). exists a', b', r. split; [apply elem_of_cons; by right|done].
Qed.
Lemma keys_of_length ids ms rank : length (keys_of ids rank ms) = length ms.
Proof. revert rank. induction ms as [|[a b] ms IH]; intros rank; cbn; [done|]. by rewrite IH. Qed.

(** ** A byte-level vocabulary *)
Section Built.
Context (vocab : list (list Z * Z)) (ms : list (list Z * list Z)) (spec plain : list Z) (u : option (list Z)) (f : Z).
(** A name that stands for bytes, of a token of the vocabulary that is not a
    special one. *)
Definition spelled (s : list Z) : Prop :=
  is_Some (bytes_of_name s) /\ (exists id, (s, id) ∈ vocab) /\ forall id, (s, id) ∈ vocab -> id ∉ spec.
Record byte_vocab : Prop := {
  bv_vocab : consistent vocab;
  bv_flags : flagged f BYTE_LEVEL = true /\ flagged f NFC = false /\ flagged f PREPEND = false /\ flagged f CL100K && flagged f O200K = false;
  bv_bytes : forall b, u8 b -> exists s id, (s, id) ∈ vocab /\ bytes_of_name s = Some [b] /\ id ∉ spec;
  bv_merges : Forall (fun '(a, b) => spelled a /\ spelled b /\ spelled (a ++ b)) ms;
  bv_added : Forall (fun id => forall s, zget (names_of vocab) id = Some s -> utf8_valid (text_of f (sort_with Z.leb spec) id s)) plain;
  bv_size : zlen (concat (texts_from f (sort_with Z.leb spec) 0 (names_of vocab))) < 2 ^ 32 /\ zlen ms < NONE;
}.
Context (Hb : byte_vocab).
Abbreviation sp := (sort_with Z.leb spec).
Abbreviation ps := (texts_from f sp 0 (names_of vocab)).

Lemma special_found id : found sp id = true <-> id ∈ spec.
Proof. rewrite found_spec by apply up_ascending, sort_up. apply sort_with_elem. Qed.

(** What a token of the vocabulary says. *)
Lemma text_at s id : (s, id) ∈ vocab -> 0 <= id < NONE /\ ps !! Z.to_nat id = Some (text_of f sp id s).
Proof.
  intros Hin. pose proof (proj1 (Forall_forall _ _) (proj1 (bv_vocab Hb)) _ Hin) as [Hid _]. cbn in Hid. split; [done|].
  rewrite texts_at. pose proof (names_at vocab (bv_vocab Hb) s id Hin) as Hn. unfold zget in Hn. destruct (Z.ltb_spec id 0); [lia|].
  rewrite Hn. cbn. rewrite Z2Nat.id by lia. done.
Qed.
Lemma spelled_text s id l : (s, id) ∈ vocab -> id ∉ spec -> bytes_of_name s = Some l -> text_of f sp id s = l.
Proof.
  intros Hin Hs Hl. unfold text_of. rewrite (proj1 (bv_flags Hb)), Hl. destruct (found sp id) eqn:Hf; [by apply special_found in Hf|done].
Qed.

(** The tokenizer before the tokens are added. *)
Definition blank : Tokenizer :=
  mkTokenizer f (default NONE (u ≫= fun u => ids_of vocab !! u)) [0] [] sp (replicate 256 NONE)
    (replicate (Z.to_nat DIRECT) NONE) [] [] [] (empty_merges (length ms)) [] (NONE, NONE).
Lemma blank_inv : vocab_inv f sp (empty_merges (length ms)) [] blank.
Proof.
  split; [done|done| |].
  - unfold blank. cbn [t_bytes chars]. rewrite length_replicate. split; [done|]. unfold zlen. rewrite length_replicate. rewrite Z2Nat.id; [done|]. unfold DIRECT. lia.
  - intros b id Hat. left. unfold blank in Hat. cbn [t_bytes] in Hat. by apply lookup_replicate_1 in Hat as [-> _].
Qed.

Lemma known s : spelled s -> is_Some (ids_of vocab !! s).
Proof. intros (_&(id&Hid)&_). destruct (ids_some vocab s id Hid) as [x Hx]. by exists x. Qed.

(** The merges join texts. *)
Lemma keys_join t e : texts_of ps t -> e ∈ keys_of (ids_of vocab) 0 ms ->
  let '(a, b, (r, c)) := e in a <> NONE /\ 0 <= r < NONE /\ c <> NONE /\ said_by t c = said_by t a ++ said_by t b.
Proof.
  intros Ht He. destruct (keys_of_elem (ids_of vocab) ms 0 e ltac:(lia) (proj2 (bv_size Hb)) He) as (a&b&r&Hin&Hr&->).
  destruct (proj1 (Forall_forall _ _) (bv_merges Hb) _ Hin) as (Ha&Hbb&Hab). assert (forall s l, spelled s -> bytes_of_name s = Some l ->
    default 0 (ids_of vocab !! s) <> NONE /\ said_by t (default 0 (ids_of vocab !! s)) = l) as Hsay.
  { intros s l Hs Hl. destruct (known s Hs) as [k Hk]. rewrite Hk. cbn [default from_option id]. apply ids_in in Hk. destruct (text_at s k Hk) as [Hb0 Hat].
    split; [lia|]. rewrite (texts_of_said ps t k Ht) by lia. rewrite Hat. cbn. apply (spelled_text s k l); [done| |done]. by apply Hs. }
  destruct (proj1 Ha) as [la Hla]. destruct (proj1 Hbb) as [lb Hlb]. destruct (Hsay a la Ha Hla) as [Ha1 ->]. destruct (Hsay b lb Hbb Hlb) as [_ ->].
  destruct (Hsay (a ++ b) (la ++ lb) Hab (bytes_of_name_app _ _ _ _ Hla Hlb)) as [Hc ->]. done.
Qed.

Lemma build_complete : exists t size M, build vocab ms spec plain u f = Ok t /\ byte_complete t size M [].
Proof.
  destruct (add_all_spec f sp (empty_merges (length ms)) [] blank (names_of vocab) blank_inv (names_chars vocab (bv_vocab Hb))) as (t1&H1&Hi1&_&Hnew).
  { rewrite zlen_nil. exact (names_length vocab (bv_vocab Hb)). } { apply (bv_size Hb). }
  cbn [app length] in Hi1. destruct (vi_same _ _ _ _ _ Hi1) as (Hf1&Hsp1&Hm1&Hw1). pose proof (vi_texts _ _ _ _ _ Hi1) as Ht1.
  assert (Forall (fun e => fst (fst e) <> NONE) (keys_of (ids_of vocab) 0 ms)) as Hkeys.
  { apply Forall_forall. intros e He. pose proof (keys_join t1 e Ht1 He) as Hj. destruct e as [[a b] [r c]]. by destruct Hj. }
  destruct (merges_table _ Hkeys) as (table&size&M&Hput&HM&Hsub&_). rewrite keys_of_length in Hput.
  exists (set_merges (set_added (set_joins t1 (joins_of t1 (names_of vocab))) (matched (names_of vocab) plain)) table), size, M. split.
  - unfold build. fold blank. change (add_all blank 0 (names_of vocab)) with (add_all blank (zlen (@nil (list Z))) (names_of vocab)). rewrite H1. cbn [run_to mbind outcome_bind merges set_added set_joins]. rewrite Hm1.
    rewrite merge_keys_put; [by rewrite Hput|]. eapply Forall_impl; [apply (bv_merges Hb)|]. intros [a b] (Ha&Hb'&Hab). split_and!; by apply known.
  - set (t := set_merges _ _). assert (texts_of ps t) as Ht by exact Ht1.
    assert (texts_ok t) as Hok.
    { eapply texts_of_ok; [exact Ht| |].
      - apply Forall_lookup_2. intros i p Hp. rewrite texts_at in Hp. destruct (names_of vocab !! i) as [name|] eqn:Hn; [|done]. cbn in Hp. injection Hp as <-.
        apply text_of_ok. exact (Forall_lookup_1 _ _ _ _ (names_chars vocab (bv_vocab Hb)) Hn).
      - change (special t) with (special t1). rewrite Hsp1. apply up_ascending, sort_up. }
    assert (forall x, has t x = flagged f x) as Hhas by (intros x; unfold has, flagged; change (flags t) with (flags t1); by rewrite Hf1).
    split.
    + done.
    + rewrite !Hhas. apply (bv_flags Hb).
    + intros b Hu8. destruct (bv_bytes Hb b Hu8) as (s&id&Hin&Hdec&Hns). destruct (text_at s id Hin) as [Hid _].
      pose proof (names_at vocab (bv_vocab Hb) s id Hin) as Hn. unfold zget in Hn. destruct (Z.ltb_spec id 0); [lia|].
      destruct (Hnew (Z.to_nat id) s b Hn (proj1 (bv_flags Hb))) as (id'&Hget&Hne); [|done|].
      { cbn [length Nat.add]. rewrite Z2Nat.id by lia. destruct (found sp id) eqn:Hfd; [by apply special_found in Hfd|done]. }
      exists id'. split; [exact Hget|]. split; [done|]. unfold zget in Hget. destruct (Z.ltb_spec b 0); [done|].
      destruct (vi_bytes _ _ _ _ _ Hi1 _ _ Hget) as [|[Hpos Hp]]; [done|]. rewrite (texts_of_said ps t id' Ht Hpos), Hp. cbn. by rewrite Z2Nat.id by lia.
    + exact HM.
    + apply Forall_forall. intros e He. pose proof (keys_join t e Ht (Hsub e He)) as Hj. destruct e as [[a b] [r c]]. by destruct Hj as (_&?&?&?).
    + left. exact Hw1.
    + apply Forall_forall. intros id Hid. apply sort_with_elem, list_elem_of_In, List.filter_In in Hid as [Hid Hname]. apply list_elem_of_In in Hid.
      destruct (zget (names_of vocab) id) as [name|] eqn:Hn; [|done]. apply andb_true_iff in Hname as [Hne _].
      pose proof (proj1 (Forall_forall _ _) (bv_added Hb) id Hid name Hn) as Hvalid. pose proof (zget_Some _ _ _ Hn) as Hrange.
      assert (said_by t id = text_of f sp id name) as ->; [|split; [apply text_of_nonempty; intros ->; done|done]].
      rewrite (texts_of_said ps t id Ht) by lia. unfold zget in Hn. destruct (Z.ltb_spec id 0); [lia|]. rewrite texts_at, Hn. cbn. by rewrite Z2Nat.id by lia.
Qed.
End Built.


(** ** A vocabulary *)
Fixpoint index_of (x : Z) (l : list Z) : Z := match l with [] => 0 | y :: l => if x =? y then 0 else 1 + index_of x l end.
Definition byte_char (b : Z) : Z := if printable b then b else 256 + index_of b unprintable.
Definition sample_vocab : list (list Z * Z) := map (fun b => ([byte_char (Z.of_nat b)], Z.of_nat b)) (seq 0 256) ++ [([72; 105], 256); ([33; 33], 257)].
Lemma sample_vocab_ok : byte_vocab sample_vocab [([72], [105])] [] [257] (BYTE_LEVEL + CL100K).
Proof.
  assert (map snd sample_vocab = map Z.of_nat (seq 0 258)) as Hids by (vm_compute; reflexivity).
  assert (forall s id, (s, id) ∈ sample_vocab -> sample_vocab !! Z.to_nat id = Some (s, id)) as Hat.
  { intros s id (i&Hi)%list_elem_of_lookup_1. pose proof (f_equal (fun l => l !! i) Hids) as H. cbv beta in H. rewrite !list_lookup_fmap, Hi in H.
    cbn [fmap option_fmap option_map snd] in H. destruct (seq 0 258 !! i) as [k|] eqn:Hk; [|done]. apply lookup_seq in Hk as [-> Hk]. cbn in H. injection H as ->. by rewrite Nat2Z.id. }
  split.
  - split; [|intros s s' id H1%Hat H2%Hat; congruence].
    assert (forallb (fun e : list Z * Z => (0 <=? snd e) && (snd e <? NONE) && forallb is_char (fst e)) sample_vocab = true) as Hall by (vm_compute; reflexivity).
    apply Forall_forall. intros e He%list_elem_of_In. apply (proj1 (List.forallb_forall _ _) Hall) in He. rewrite !andb_true_iff in He. destruct He as [[? ?] Hc].
    split; [lia|]. apply Forall_forall. intros c Hc'%list_elem_of_In. by apply (proj1 (List.forallb_forall _ _) Hc).
  - by vm_compute.
  - intros b Hu8. assert (forallb (fun b => bool_decide (bytes_of_name [byte_char b] = Some [b]) && bool_decide (([byte_char b], b) ∈ sample_vocab))
        (map Z.of_nat (seq 0 256)) = true) as Hall by (vm_compute; reflexivity).
    assert (In b (map Z.of_nat (seq 0 256))) as Hin.
    { apply list_elem_of_In, list_elem_of_fmap. exists (Z.to_nat b). unfold fits in Hu8. split; [lia|]. apply elem_of_seq. lia. }
    apply (proj1 (List.forallb_forall _ _) Hall), andb_true_iff in Hin as [Hd Hi]. apply bool_decide_eq_true in Hd, Hi.
    exists [byte_char b], b. split_and!; [done|done|apply not_elem_of_nil].
  - assert (forall s id, bytes_of_name s <> None -> (s, id) ∈ sample_vocab -> spelled sample_vocab [] s) as Hsp.
    { intros s id Hs Hin. split; [|split; [by exists id|intros; apply not_elem_of_nil]]. destruct (bytes_of_name s); [by eexists|done]. }
    constructor; [|constructor]. split_and!; eapply Hsp; try (by vm_compute);
      [apply (list_elem_of_lookup_2 _ 72)|apply (list_elem_of_lookup_2 _ 105)|apply (list_elem_of_lookup_2 _ 256)]; vm_compute; reflexivity.
  - constructor; [|constructor]. intros s Hs. assert (zget (names_of sample_vocab) 257 = Some [33; 33]) as H by (vm_compute; reflexivity).
    rewrite H in Hs. injection Hs as <-. vm_compute. by eexists.
  - split; vm_compute; reflexivity.
Qed.


(** C13. Merging the symbols of a piece, with links between the live ones and a
    tournament of keys over the table of merges, gives what merging means:
    while a pair of neighbours merges, the leftmost of the lowest-ranked does;
    of two merges of a pair the first counts. *)
Theorem merging_takes_the_lowest_rank t keys table symbols :
  Forall (fun e => fst (fst e) <> NONE /\ 0 <= fst (snd e) < NONE) keys ->
  put_merges (empty_merges (length keys)) keys = Ok table -> zlen symbols < 2 ^ 32 ->
  merge_all (merge (set_merges t table)) symbols =
    Ok (List.filter live (bpe (fun a b => snd <$> first_of is_pair keys (a, b)) (length symbols) symbols)).
Proof.
  intros Hkeys Hput Hlen. destruct (merges_table keys) as (table'&size&M&Hput'&HM&_&Hfirst).
  { eapply Forall_impl; [exact Hkeys|]. by intros e [? _]. }
  rewrite Hput in Hput'. injection Hput' as <-. apply merge_all_spec; [|intros a b r m Hm|done].
  - intros a b. rewrite (merge_spec (set_merges t table) size M a b HM). by rewrite Hfirst.
  - destruct (first_of is_pair keys (a, b)) as [e|] eqn:He; [|done]. cbn in Hm. injection Hm as Hm. apply List.find_some in He as [Hin _].
    apply list_elem_of_In in Hin. pose proof (proj1 (Forall_forall _ _) Hkeys e Hin) as [_ Hr]. by rewrite Hm in Hr.
Qed.

Definition sample_keys : list entry := [(1, 2, (0, 3)); (3, 3, (1, 4)); (1, 2, (2, 9)); (4, 5, (0, 6))].
Lemma merging_witness : exists t, merge_all (merge t) [1; 2; 1; 2; 5; 1; 2] = Ok [6; 3].
Proof.
  exists (set_merges (mkTokenizer 0 NONE [0] [] [] [] [] [] [] [] [] [] (NONE, NONE)) (match put_merges (empty_merges 4) sample_keys with Ok l => l | _ => [] end)).
  rewrite (merging_takes_the_lowest_rank _ sample_keys); [vm_compute; reflexivity| |vm_compute; reflexivity|reflexivity].
  repeat constructor; vm_compute; discriminate.
Defined.
