(* ===== verification/Json.v ===== *)
(** * JSON ([json.rs])

    The reader of model files and the writer that turns a state into text. A
    [String] is the list of its characters, the document a list of bytes. A
    number is of a type [F], read and written by [parse_f64] and [show_f64]
    (the standard library's [str::parse] and [Display] of [f64]). The reader
    goes down by [fuel], one for each byte; the error [None] is that it ran
    out of it, which no document makes it do. *)
From S2P Require Import Prelude Bytes Utf8.

Section Json.
Context {F : Type} (parse_f64 : list Z -> option F) (show_f64 : F -> list Z).

Inductive Json :=
| JNull
| JBool (b : bool)
| JNum (n : F)
| JStr (s : list Z)
| JArr (a : list Json)
| JObj (o : list (list Z * Json)).

(** ** Reaching into a value *)
Definition j_str (v : Json) : option (list Z) := match v with JStr s => Some s | _ => None end.
Definition j_num (v : Json) : option F := match v with JNum n => Some n | _ => None end.
Definition j_bool (v : Json) : option bool := match v with JBool b => Some b | _ => None end.
Definition j_arr (v : Json) : option (list Json) := match v with JArr a => Some a | _ => None end.
Definition j_obj (v : Json) : option (list (list Z * Json)) := match v with JObj o => Some o | _ => None end.
Definition j_get (v : Json) (key : list Z) : option Json :=
  o ← j_obj v; snd <$> List.find (fun kv => bool_decide (fst kv = key)) o.

(** ** Writing *)
Definition QUOTE : Z := 34.
Definition BACKSLASH : Z := 92.
Definition OPEN : Z := 123.
Definition CLOSE : Z := 125.
Definition hex_digit (x : Z) : Z := if x <? 10 then 48 + x else 87 + x.
(** [quoted]. *)
Definition escaped (c : Z) : list Z :=
  if (c =? QUOTE) || (c =? BACKSLASH) then [BACKSLASH; c]
  else if c =? 10 then [BACKSLASH; 110]
  else if c =? 13 then [BACKSLASH; 114]
  else if c =? 9 then [BACKSLASH; 116]
  else if c <? 0x20 then [BACKSLASH; 117; 48; 48; hex_digit (c / 16); hex_digit (c mod 16)]
  else [c].
Definition quoted (s : list Z) : list Z := [QUOTE] ++ concat (map escaped s) ++ [QUOTE].
(** [join]. *)
Fixpoint join (sep : list Z) (l : list (list Z)) : list Z :=
  match l with [] => [] | [x] => x | x :: l => x ++ sep ++ join sep l end.
Definition TRUE : list Z := [116; 114; 117; 101].
Definition FALSE : list Z := [102; 97; 108; 115; 101].
Definition NULL : list Z := [110; 117; 108; 108].
(** [Json::dumps]. *)
Fixpoint dumps (v : Json) : list Z :=
  match v with
  | JNull => NULL
  | JBool b => if b then TRUE else FALSE
  | JNum n => show_f64 n
  | JStr s => quoted s
  | JArr a => [91] ++ join [44; 32] (map dumps a) ++ [93]
  | JObj o => [OPEN] ++ join [44; 32] (map (fun kv => quoted (fst kv) ++ [58; 32] ++ dumps (snd kv)) o) ++ [CLOSE]
  end.

(** ** Reading *)

(** [Parser]: where it is, and the bytes from there. *)
Abbreviation St := (Z * list Z)%type.
Abbreviation reads A := (outcome (option error) (A * St)).
Definition fail (what : string) (st : St) : option error := Some (Format [Lit "JSON: "; Lit what; Lit " at byte "; Num (fst st)]).

Definition is_ascii_whitespace (b : Z) : bool := (b =? 32) || (b =? 9) || (b =? 10) || (b =? 12) || (b =? 13).
Fixpoint skip_space (i : Z) (l : list Z) : St :=
  match l with b :: l' => if is_ascii_whitespace b then skip_space (i + 1) l' else (i, l) | [] => (i, []) end.
Definition space (st : St) : St := skip_space (fst st) (snd st).
Definition eat (w : list Z) (st : St) : option St :=
  if bool_decide (take (length w) (snd st) = w) then Some (fst st + zlen w, drop (length w) (snd st)) else None.

(** [word]. *)
Definition word_ (st : St) : reads Json :=
  match eat NULL st, eat TRUE st, eat FALSE st with
  | Some st, _, _ => Ok (JNull, st)
  | None, Some st, _ => Ok (JBool true, st)
  | None, None, Some st => Ok (JBool false, st)
  | None, None, None => Err (fail "expected a value" st)
  end.

Definition number_byte (b : Z) : bool := within 48 57 b || (b =? 43) || (b =? 45) || (b =? 46) || (b =? 101) || (b =? 69).
Fixpoint span_number (l : list Z) : list Z * list Z :=
  match l with b :: l' => if number_byte b then let '(a, r) := span_number l' in (b :: a, r) else ([], l) | [] => ([], []) end.
Definition number (st : St) : reads Json :=
  let '(text, r) := span_number (snd st) in
  let st := (fst st + zlen text, r) in
  match parse_f64 text with Some n => Ok (JNum n, st) | None => Err (fail "expected a value" st) end.

(** [u32::from_str_radix(d, 16)] of four bytes: a [+] may come first. *)
Definition hex_value (b : Z) : option Z :=
  if within 48 57 b then Some (b - 48) else if within 65 70 b then Some (b - 55) else if within 97 102 b then Some (b - 87) else None.
Fixpoint hex_digits (v : Z) (d : list Z) : option Z :=
  match d with [] => Some v | b :: d => x ← hex_value b; hex_digits (16 * v + x) d end.
Definition from_hex (d : list Z) : option Z := match d with b :: d' => if b =? 43 then hex_digits 0 d' else hex_digits 0 d | [] => None end.
Definition hex4 (st : St) : reads Z :=
  let d := take 4 (snd st) in
  let st' := (fst st + 4, drop 4 (snd st)) in
  match (if (length d =? 4)%nat then from_hex d else None) with Some v => Ok (v, st') | None => Err (fail "bad \u escape" st') end.
(** [unicode]: a second escape for a surrogate pair; one that is not the low
    half takes the subtraction below zero. *)
Definition unicode (st : St) : reads Z :=
  '(hi, st) ← hex4 st;
  '(code, st) ← (if within 0xD800 0xDBFF hi then
      match eat [BACKSLASH; 117] st with
      | Some st => '(lo, st) ← hex4 st;
                   if lo <? 0xDC00 then Panic else Ok (0x10000 + Z.shiftl (hi - 0xD800) 10 + (lo - 0xDC00), st)
      | None => Ok (hi, st)
      end
    else Ok (hi, st));
  Ok (default 0xFFFD (char_from_u32 code), st).
Definition escape (st : St) : reads Z :=
  match snd st with
  | [] => Err (fail "unterminated escape" st)
  | c :: l =>
      let st := (fst st + 1, l) in
      if c =? 110 then Ok (10, st) else if c =? 116 then Ok (9, st) else if c =? 114 then Ok (13, st)
      else if c =? 98 then Ok (8, st) else if c =? 102 then Ok (12, st) else if c =? 117 then unicode st
      else Ok (c, st)
  end.
(** The bytes before the next quote or backslash, which of the two it is, and
    what follows. *)
Fixpoint plain_run (l : list Z) : option (list Z * Z * list Z) :=
  match l with
  | [] => None
  | b :: l => if (b =? QUOTE) || (b =? BACKSLASH) then Some ([], b, l) else '(r, c, l) ← plain_run l; Some (b :: r, c, l)
  end.
Fixpoint string_from (fuel : nat) (st : St) (out : list Z) : reads (list Z) :=
  match plain_run (snd st) with
  | None => Err (fail "unterminated string" st)
  | Some (r, c, l) =>
      let out := out ++ r in
      let st := (fst st + zlen r + 1, l) in
      if c =? QUOTE then match utf8_chars out with Some s => Ok (s, st) | None => Err (fail "invalid UTF-8" st) end
      else
        '(e, st) ← escape st;
        match fuel with O => Err None | S fuel => string_from fuel st (out ++ encode_utf8 e) end
  end.
Definition read_string (st : St) : reads (list Z) :=
  match eat [QUOTE] st with
  | None => Err (fail "expected a string" st)
  | Some st => string_from (length (snd st)) st []
  end.

(** [list]: the items after the opening bracket. *)
Fixpoint items {T} (fuel : nat) (close : Z) (item : St -> reads T) (st : St) : reads (list T) :=
  '(x, st) ← item st;
  let st := space st in
  match eat [close] st with
  | Some st => Ok ([x], st)
  | None =>
      match eat [44] st with
      | None => Err (fail "expected ',' or the end of a list" st)
      | Some st => match fuel with O => Err None | S fuel => '(l, st) ← items fuel close item (space st); Ok (x :: l, st) end
      end
  end.
Definition list_of {T} (fuel : nat) (close : Z) (item : St -> reads T) (st : St) : reads (list T) :=
  let st := space (fst st + 1, drop 1 (snd st)) in
  match eat [close] st with Some st => Ok ([], st) | None => items fuel close item st end.
Definition member (value : St -> reads Json) (st : St) : reads (list Z * Json) :=
  '(k, st) ← read_string st;
  let st := space st in
  match eat [58] st with
  | None => Err (fail "expected ':'" st)
  | Some st => '(v, st) ← value st; Ok ((k, v), st)
  end.
Fixpoint value (fuel : nat) (st : St) : reads Json :=
  let st := space st in
  match fuel with
  | O => Err None
  | S fuel =>
      match snd st with
      | [] => word_ st
      | c :: _ =>
          if c =? OPEN then '(o, st) ← list_of fuel CLOSE (member (value fuel)) st; Ok (JObj o, st)
          else if c =? 91 then '(a, st) ← list_of fuel 93 (value fuel) st; Ok (JArr a, st)
          else if c =? QUOTE then '(s, st) ← read_string st; Ok (JStr s, st)
          else if within 48 57 c || (c =? 45) then number st
          else word_ st
      end
  end.
(** [Json::parse]. *)
Definition parse (text : list Z) : outcome (option error) Json :=
  '(v, st) ← value (S (length text)) (0, text);
  let st := space st in
  match snd st with [] => Ok v | _ => Err (fail "trailing characters" st) end.

(** ** What is written reads back *)
Definition gives {A} (m : reads A) (x : A) (r : list Z) : Prop := exists j, m = Ok (x, (j, r)).
Definition json_ind_nested (P : Json -> Prop) (Hnull : P JNull) (Hbool : forall b, P (JBool b)) (Hnum : forall n, P (JNum n)) (Hstr : forall s, P (JStr s))
  (Harr : forall a, Forall P a -> P (JArr a)) (Hobj : forall o, Forall (fun kv => P (snd kv)) o -> P (JObj o)) : forall v, P v :=
  fix go v := match v with
  | JNull => Hnull | JBool b => Hbool b | JNum n => Hnum n | JStr s => Hstr s
  | JArr a => Harr a ((fix all a : Forall P a := match a with [] => Forall_nil_2 P | x :: a => Forall_cons_2 P x a (go x) (all a) end) a)
  | JObj o => Hobj o ((fix all o : Forall (fun kv => P (snd kv)) o := match o with [] => Forall_nil_2 _ | kv :: o => Forall_cons_2 (fun kv => P (snd kv)) kv o (go (snd kv)) (all o) end) o)
  end.

Lemma eat_yes w i l : exists j, eat w (i, w ++ l) = Some (j, l).
Proof. unfold eat. cbn [fst snd]. rewrite take_app_length, drop_app_length, bool_decide_true by done. by eexists. Qed.
Lemma eat_no c w d i l : c <> d -> eat (c :: w) (i, d :: l) = None.
Proof. intros Hne. unfold eat. cbn [fst snd length firstn]. rewrite bool_decide_false; [done|]. intros [= ->]. done. Qed.
Lemma eat_one c i l : eat [c] (i, c :: l) = Some (i + 1, l).
Proof. unfold eat. cbn [fst snd length take]. rewrite bool_decide_true by (by destruct l). cbn. by rewrite drop_0. Qed.
Lemma space_stays i c l : is_ascii_whitespace c = false -> space (i, c :: l) = (i, c :: l).
Proof. intros Hc. unfold space. cbn. by rewrite Hc. Qed.
Lemma utf8_ascii l : Forall (fun c => c < 0x80) l -> utf8_of l = l.
Proof.
  induction 1 as [|c l Hc _ IH]; [done|]. unfold utf8_of in *. cbn [map concat]. rewrite IH. unfold encode_utf8. destruct (Z.ltb_spec c 0x80); [done|lia].
Qed.

(** Strings. *)
Definition plain (b : Z) : bool := negb ((b =? QUOTE) || (b =? BACKSLASH)).
Lemma plain_run_app bs l : Forall (fun b => plain b = true) bs -> plain_run (bs ++ l) = '(r, c, l) ← plain_run l; Some (bs ++ r, c, l).
Proof.
  induction 1 as [|b bs Hb _ IH]; cbn [app plain_run]; [destruct (plain_run l) as [[[? ?] ?]|]; done|]. unfold plain in Hb. apply negb_true_iff in Hb. rewrite Hb, IH.
  by destruct (plain_run l) as [[[? ?] ?]|].
Qed.
Lemma string_plain fuel bs i l out y : Forall (fun b => plain b = true) bs ->
  string_from fuel (i + zlen bs, l) (out ++ bs) = Ok y -> string_from fuel (i, bs ++ l) out = Ok y.
Proof.
  intros Hbs. assert (forall a, i + zlen bs + zlen a + 1 = i + zlen (bs ++ a) + 1) as Hpos by (intros a; rewrite zlen_app; lia).
  destruct fuel as [|fuel]; cbn [string_from snd fst]; rewrite plain_run_app by done; destruct (plain_run l) as [[[a c] l']|]; try done;
    cbn [mbind option_bind]; by rewrite <- app_assoc, Hpos.
Qed.
Lemma encoded_plain c : is_char c = true -> c <> QUOTE -> c <> BACKSLASH -> Forall (fun b => plain b = true) (encode_utf8 c).
Proof.
  rewrite is_char_spec. intros Hc Hq Hb. assert (forall b, (b = c /\ c < 0x80) \/ 0x80 <= b -> plain b = true) as Hp.
  { intros b Hor. unfold plain, QUOTE, BACKSLASH in *. apply negb_true_iff, orb_false_iff. rewrite !Z.eqb_neq. lia. }
  unfold encode_utf8. pose proof (Z.mod_pos_bound c 64 ltac:(lia)). pose proof (Z.mod_pos_bound (c / 64) 64 ltac:(lia)).
  pose proof (Z.mod_pos_bound (c / 4096) 64 ltac:(lia)). pose proof (Z.div_pos c 64 ltac:(lia) ltac:(lia)).
  pose proof (Z.div_pos c 4096 ltac:(lia) ltac:(lia)). pose proof (Z.div_pos c 262144 ltac:(lia) ltac:(lia)).
  destruct (Z.ltb_spec c 0x80); [|destruct (Z.ltb_spec c 0x800); [|destruct (Z.ltb_spec c 0x10000)]]; repeat constructor; apply Hp; lia.
Qed.
(** The characters that are escaped. *)
Definition is_low (c : Z) : bool := (c <? 0x20) || (c =? QUOTE) || (c =? BACKSLASH).
Lemma escapes_back : Forall (fun c => exists e, utf8_of (escaped c) = BACKSLASH :: e /\ forall i l, exists j, escape (i, e ++ l) = Ok (c, (j, l)))
  (QUOTE :: BACKSLASH :: map Z.of_nat (seq 0 32)).
Proof.
  cbn [seq map Z.of_nat Pos.of_succ_nat Pos.succ]. repeat (apply Forall_cons; split; [eexists; split; [vm_compute; reflexivity|intros i l; eexists; reflexivity]|]). constructor.
Qed.
Lemma escape_low c : 0 <= c -> is_low c = true -> exists e, utf8_of (escaped c) = BACKSLASH :: e /\ forall i l, exists j, escape (i, e ++ l) = Ok (c, (j, l)).
Proof.
  intros H0 Hc. apply (proj1 (Forall_forall _ _) escapes_back). unfold is_low in Hc. rewrite !orb_true_iff, Z.ltb_lt, !Z.eqb_eq in Hc. rewrite !elem_of_cons.
  destruct Hc as [[Hc| ->]| ->]; [right; right|by left|by right; left]. apply list_elem_of_fmap. exists (Z.to_nat c). split; [lia|]. apply elem_of_seq. lia.
Qed.
Lemma escaped_high c : is_low c = false -> escaped c = [c].
Proof.
  unfold is_low, escaped. rewrite !orb_false_iff, Z.ltb_ge, !Z.eqb_neq. intros [[H1 H2] H3]. destruct (Z.eqb_spec c QUOTE); [done|]. destruct (Z.eqb_spec c BACKSLASH); [done|].
  cbn [orb]. destruct (Z.eqb_spec c 10); [lia|]. destruct (Z.eqb_spec c 13); [lia|]. destruct (Z.eqb_spec c 9); [lia|]. destruct (Z.ltb_spec c 0x20); [lia|done].
Qed.
Lemma string_back s fuel i l out all :
  Forall (fun c => is_char c = true) s -> (length (utf8_of (concat (map escaped s))) <= fuel)%nat -> utf8_chars (out ++ utf8_of s) = Some all ->
  exists j, string_from fuel (i, utf8_of (concat (map escaped s)) ++ QUOTE :: l) out = Ok (all, (j, l)).
Proof.
  intros Hs. revert fuel i out. induction Hs as [|c s Hc _ IH]; intros fuel i out Hf Hall.
  - change (utf8_of []) with (@nil Z) in Hall. rewrite app_nil_r in Hall. cbn [map concat]. change (utf8_of []) with (@nil Z). cbn [app].
    destruct fuel; cbn [string_from snd fst plain_run]; change ((QUOTE =? QUOTE) || (QUOTE =? BACKSLASH)) with true; cbn [Z.eqb]; rewrite Z.eqb_refl, app_nil_r, Hall; by eexists.
  - cbn [map concat] in *. rewrite utf8_of_app in *. rewrite length_app in Hf. rewrite <- app_assoc.
    change (utf8_of (c :: s)) with (encode_utf8 c ++ utf8_of s) in Hall. pose proof (proj1 (is_char_spec c) Hc) as Hrange.
    destruct (is_low c) eqn:Hlow.
    + destruct (escape_low c ltac:(lia) Hlow) as (e&He&Hesc). rewrite He in *. cbn [app length] in *. destruct fuel as [|fuel]; [lia|].
      cbn [string_from snd fst plain_run]. change ((BACKSLASH =? QUOTE) || (BACKSLASH =? BACKSLASH)) with true. cbv iota beta.
      change (BACKSLASH =? QUOTE) with false. cbv iota. rewrite app_nil_r. destruct (Hesc (i + zlen (@nil Z) + 1) (utf8_of (concat (map escaped s)) ++ QUOTE :: l)) as [j ->].
      cbn [mbind outcome_bind]. apply IH; [lia|]. by rewrite <- app_assoc.
    + rewrite (escaped_high c Hlow) in *. change (utf8_of [c]) with (encode_utf8 c ++ []) in *. rewrite app_nil_r in *.
      destruct (IH fuel (i + zlen (encode_utf8 c)) (out ++ encode_utf8 c)) as [j Hj]; [lia|by rewrite <- app_assoc|]. exists j. apply string_plain; [|done].
      unfold is_low in Hlow. rewrite !orb_false_iff, !Z.eqb_neq in Hlow. destruct Hlow as [[_ ?] ?]. by apply encoded_plain.
Qed.
Lemma quoted_back s i l : Forall (fun c => is_char c = true) s -> gives (read_string (i, utf8_of (quoted s) ++ l)) s l.
Proof.
  intros Hs. unfold read_string, quoted. rewrite !utf8_of_app. change (utf8_of [QUOTE]) with [QUOTE]. rewrite <- !app_assoc. cbn [app]. rewrite eat_one. cbn [snd].
  apply string_back; [done|rewrite length_app; lia|]. by apply utf8_chars_of.
Qed.

(** Lists. *)
Section Items.
Context {T : Type} (item : St -> reads T) (p : T -> list Z) (close : Z) (Hclose : close = 93 \/ close = CLOSE).
Definition ends (l : list Z) : Prop := l = [] \/ exists c l', l = c :: l' /\ (c = 44 \/ c = 93 \/ c = CLOSE).
Definition starts (l : list Z) : Prop := exists c l', l = c :: l' /\ is_ascii_whitespace c = false /\ c <> 93 /\ c <> CLOSE.
Lemma items_back xs fuel i l : xs <> [] -> (length xs <= S fuel)%nat ->
  Forall (fun x => starts (p x) /\ forall i l, ends l -> gives (item (i, p x ++ l)) x l) xs ->
  gives (items fuel close item (i, join [44; 32] (map p xs) ++ close :: l)) xs l.
Proof.
  intros Hne Hf Hx. revert fuel i Hne Hf. induction Hx as [|x xs [Hst Hx] Hxs IH]; intros fuel i Hne Hf; [done|]. clear Hne.
  assert (ends (close :: l)) as Hend by (right; exists close, l; split; [done|]; destruct Hclose as [->| ->]; auto). destruct xs as [|y xs].
  - cbn [map join]. destruct (Hx i (close :: l) Hend) as [j Hj]. destruct fuel; cbn [items]; rewrite Hj; cbn [mbind outcome_bind];
      (rewrite space_stays by (destruct Hclose as [->| ->]; done)); rewrite eat_one; by eexists.
  - change (join [44; 32] (map p (x :: y :: xs))) with (p x ++ [44; 32] ++ join [44; 32] (map p (y :: xs))). rewrite <- !app_assoc. cbn [app].
    set (more := join [44; 32] (map p (y :: xs)) ++ close :: l) in *. destruct (Hx i (44 :: 32 :: more)) as [j Hj]; [right; exists 44, (32 :: more); by auto|].
    destruct fuel as [|fuel]; [cbn in Hf; lia|]. cbn [items]. rewrite Hj. cbn [mbind outcome_bind]. rewrite space_stays by done.
    rewrite eat_no by (destruct Hclose as [->| ->]; done). rewrite eat_one. apply Forall_cons in Hxs as [[Hsty _] _].
    assert (space (j + 1, 32 :: more) = (j + 1 + 1, more)) as ->.
    { unfold space. cbn [skip_space fst snd]. change (is_ascii_whitespace 32) with true. cbv iota. destruct Hsty as (c&l'&Hp&Hws&_). unfold more.
      assert (exists l2, join [44; 32] (map p (y :: xs)) ++ close :: l = c :: l2) as [l2 ->]; [|cbn; by rewrite Hws].
      destruct xs; cbn [map join]; rewrite Hp; by eexists. }
    destruct (IH fuel (j + 1 + 1)) as [k Hk]; [done|cbn in Hf |- *; lia|]. rewrite Hk. by eexists.
Qed.
Lemma list_back open xs fuel i l : (length xs <= S fuel)%nat ->
  Forall (fun x => starts (p x) /\ forall i l, ends l -> gives (item (i, p x ++ l)) x l) xs ->
  gives (list_of fuel close item (i, open :: join [44; 32] (map p xs) ++ close :: l)) xs l.
Proof.
  intros Hf Hx. unfold list_of. cbn [fst snd drop]. rewrite drop_0. destruct xs as [|x xs].
  - cbn [map join app]. rewrite space_stays by (destruct Hclose as [->| ->]; done). rewrite eat_one. by eexists.
  - pose proof Hx as [[(c&l'&Hp&Hws&H93&Hcl) _] _]%Forall_cons.
    assert (exists l2, join [44; 32] (map p (x :: xs)) ++ close :: l = c :: l2) as [l2 Hl2] by (destruct xs; cbn [map join]; rewrite Hp; by eexists).
    rewrite Hl2, space_stays by done. rewrite eat_no by (destruct Hclose as [->| ->]; done). rewrite <- Hl2. by apply items_back.
Qed.
End Items.

(** Values. *)
Section Values.
Context (finite : F -> Prop).
Context (show_back : forall n, finite n -> parse_f64 (show_f64 n) = Some n).
Context (show_digits : forall n, finite n -> exists c l, show_f64 n = c :: l /\ (within 48 57 c || (c =? 45)) = true /\ Forall (fun b => number_byte b = true) (c :: l)).

(** A value that can be written: text of characters, numbers that are. *)
Fixpoint written (v : Json) : Prop :=
  match v with
  | JNull | JBool _ => True
  | JNum n => finite n
  | JStr s => Forall (fun c => is_char c = true) s
  | JArr a => fold_right (fun x P => written x /\ P) True a
  | JObj o => fold_right (fun kv P => Forall (fun c => is_char c = true) (fst kv) /\ written (snd kv) /\ P) True o
  end.
Lemma written_arr a : written (JArr a) -> Forall written a.
Proof. cbn. induction a as [|x a IH]; cbn; [constructor|]. intros [? ?]. constructor; auto. Qed.
Lemma written_obj o : written (JObj o) -> Forall (fun kv => Forall (fun c => is_char c = true) (fst kv) /\ written (snd kv)) o.
Proof. cbn. induction o as [|x o IH]; cbn; [constructor|]. intros (?&?&?). constructor; auto. Qed.
Lemma number_ascii b : number_byte b = true -> 0 <= b < 0x80.
Proof. unfold number_byte, within. lia. Qed.
Lemma utf8_join sep l : utf8_of (join sep l) = join (utf8_of sep) (map utf8_of l).
Proof. induction l as [|x [|y l] IH]; [done|done|]. change (join sep (x :: y :: l)) with (x ++ sep ++ join sep (y :: l)). by rewrite !utf8_of_app, IH. Qed.

Lemma dumps_starts v : written v -> starts (utf8_of (dumps v)).
Proof.
  destruct v as [|[]|n|s|a|o]; intros Hw; cbn [dumps].
  - by exists 110, [117; 108; 108].
  - by exists 116, [114; 117; 101].
  - by exists 102, [97; 108; 115; 101].
  - destruct (show_digits n Hw) as (c&l&->&Hc&Hl). rewrite utf8_ascii by (eapply Forall_impl; [exact Hl|]; intros b Hb%number_ascii; lia).
    exists c, l. split; [done|]. unfold is_ascii_whitespace, CLOSE. rewrite orb_true_iff, within_true, Z.eqb_eq in Hc. lia.
  - unfold quoted. rewrite utf8_of_app. by eexists _, _.
  - rewrite utf8_of_app. by eexists _, _.
  - rewrite utf8_of_app. by eexists _, _.
Qed.
Lemma number_back n i l : finite n -> ends l -> gives (number (i, show_f64 n ++ l)) (JNum n) l.
Proof.
  intros Hn Hl. unfold number. cbn [fst snd]. destruct (show_digits n Hn) as (d&k&Hs&_&Hall). rewrite <- Hs in Hall.
  assert (span_number (show_f64 n ++ l) = (show_f64 n, l)) as ->; [|rewrite show_back by done; by eexists].
  clear Hs. induction Hall as [|b bs Hb _ IH]; cbn [app span_number]; [|by rewrite Hb, IH]. destruct Hl as [->|(c&l'&->&Hc)]; [done|]. cbn.
  assert (number_byte c = false) as ->; [|done]. destruct Hc as [->|[->| ->]]; done.
Qed.
Lemma word_back v w i l : (v = JNull /\ w = NULL) \/ (v = JBool true /\ w = TRUE) \/ (v = JBool false /\ w = FALSE) -> gives (word_ (i, w ++ l)) v l.
Proof.
  unfold word_. intros [[-> ->]|[[-> ->]|[-> ->]]].
  - destruct (eat_yes NULL i l) as [j ->]. by exists j.
  - destruct (eat_yes TRUE i l) as [j ->]. unfold NULL, TRUE. cbn [app]. rewrite eat_no by done. by exists j.
  - destruct (eat_yes FALSE i l) as [j ->]. unfold NULL, TRUE, FALSE. cbn [app]. rewrite !eat_no by done. by exists j.
Qed.

Lemma join_length sep l : (0 < length sep)%nat -> (length l <= S (length (join sep l)))%nat /\ forall x, x ∈ l -> (length x <= length (join sep l))%nat.
Proof.
  intros Hs. induction l as [|x [|y l] [IH1 IH2]].
  - split; [cbn; lia|]. intros x []%not_elem_of_nil.
  - split; [cbn; lia|]. intros z Hz. apply list_elem_of_singleton in Hz as ->. done.
  - change (join sep (x :: y :: l)) with (x ++ sep ++ join sep (y :: l)). rewrite !length_app. cbn [length] in *. split; [lia|].
    intros z [->|Hz]%elem_of_cons; [lia|]. specialize (IH2 z Hz). lia.
Qed.
Lemma value_back v : written v -> forall fuel i l, (length (utf8_of (dumps v)) < fuel)%nat -> ends l -> gives (value fuel (i, utf8_of (dumps v) ++ l)) v l.
Proof.
  induction v as [|b|n|s|a IH|o IH] using json_ind_nested; intros Hw fuel i l Hf Hl; (destruct fuel as [|fuel]; [lia|]); cbn [value].
  - change (gives (word_ (i, NULL ++ l)) JNull l). apply word_back. by left.
  - destruct b; [change (gives (word_ (i, TRUE ++ l)) (JBool true) l)|change (gives (word_ (i, FALSE ++ l)) (JBool false) l)]; apply word_back; auto.
  - cbn [dumps] in *. pose proof (show_digits n Hw) as (c&k&Hs&Hc&Hall).
    rewrite utf8_ascii by (rewrite Hs; eapply Forall_impl; [exact Hall|]; intros b Hb%number_ascii; lia). pose proof (number_back n i l Hw Hl) as Hn.
    rewrite Hs in *. cbn [app] in *. rewrite orb_true_iff, within_true, Z.eqb_eq in Hc. rewrite space_stays by (unfold is_ascii_whitespace; lia). cbn [snd].
    destruct (Z.eqb_spec c OPEN); [unfold OPEN in *; lia|]. destruct (Z.eqb_spec c 91); [lia|]. destruct (Z.eqb_spec c QUOTE); [unfold QUOTE in *; lia|].
    rewrite (proj2 (orb_true_iff _ _)); [done|]. by rewrite within_true, Z.eqb_eq.
  - cbn [dumps]. pose proof (quoted_back s i l Hw) as [j Hj]. unfold quoted in *. rewrite utf8_of_app in *. change (utf8_of [QUOTE]) with [QUOTE] in *. cbn [app] in *.
    rewrite space_stays by done. cbn [snd]. change (QUOTE =? OPEN) with false. change (QUOTE =? 91) with false. rewrite Z.eqb_refl. rewrite Hj. by exists j.
  - cbn [dumps] in *. rewrite !utf8_of_app, utf8_join, map_map in *. change (utf8_of [91]) with [91] in *. change (utf8_of [93]) with [93] in *. change (utf8_of [44; 32]) with [44; 32] in *.
    rewrite <- !app_assoc. cbn [app length] in *. rewrite length_app in Hf. cbn [length] in Hf. destruct (join_length [44; 32] (map (fun x => utf8_of (dumps x)) a) ltac:(cbn; lia)) as [Hlen Hin].
    rewrite length_map in Hlen. rewrite space_stays by done. cbn [snd]. change (91 =? OPEN) with false. change (91 =? 91) with true. cbv iota.
    destruct (list_back (value fuel) (fun x => utf8_of (dumps x)) 93 (or_introl eq_refl) 91 a fuel i l) as [j ->]; [lia| |by exists j].
    apply written_arr in Hw. apply Forall_forall. intros x Hx. pose proof (proj1 (Forall_forall _ _) Hw x Hx) as Hwx. split; [by apply dumps_starts|].
    intros i' l' Hl'. apply (proj1 (Forall_forall _ _) IH x Hx Hwx); [|done]. specialize (Hin (utf8_of (dumps x)) (list_elem_of_fmap_2 (fun x => utf8_of (dumps x)) a x Hx)). lia.
  - cbn [dumps] in *. rewrite !utf8_of_app, utf8_join, map_map in *. change (utf8_of [OPEN]) with [OPEN] in *. change (utf8_of [CLOSE]) with [CLOSE] in *. change (utf8_of [44; 32]) with [44; 32] in *.
    rewrite <- !app_assoc. cbn [app length] in *. rewrite length_app in Hf. cbn [length] in Hf. pose (p := fun kv => utf8_of (quoted (fst kv) ++ [58; 32] ++ dumps (snd kv))).
    match goal with |- context [join [44; 32] (map ?g o)] => change (map g o) with (map p o) in * end.
    destruct (join_length [44; 32] (map p o) ltac:(cbn; lia)) as [Hlen Hin].
    rewrite length_map in Hlen. rewrite space_stays by done. cbn [snd]. change (OPEN =? OPEN) with true. cbv iota.
    destruct (list_back (member (value fuel)) p CLOSE (or_intror eq_refl) OPEN o fuel i l) as [j ->]; [lia| |by exists j].
    apply written_obj in Hw. apply Forall_forall. intros [k x] Hx. pose proof (proj1 (Forall_forall _ _) Hw (k, x) Hx) as [Hk Hwx]. cbn [fst snd] in *.
    specialize (Hin (p (k, x)) (list_elem_of_fmap_2 p o (k, x) Hx)). assert (length (utf8_of (dumps x)) <= length (p (k, x)))%nat as Hpx
      by (unfold p; cbn [fst snd]; rewrite !utf8_of_app, !length_app; lia). unfold p at 1 2. cbn [fst snd]. rewrite !utf8_of_app. split.
    + unfold quoted. rewrite utf8_of_app. by eexists _, _.
    + intros i' l' Hl'. rewrite <- !app_assoc. unfold member. destruct (quoted_back k i' (utf8_of [58; 32] ++ utf8_of (dumps x) ++ l') Hk) as [j ->].
      cbn [mbind outcome_bind]. change (utf8_of [58; 32]) with [58; 32]. cbn [app]. rewrite space_stays by done. rewrite eat_one.
      assert (forall f j, value f (j, 32 :: utf8_of (dumps x) ++ l') = value f (j + 1, utf8_of (dumps x) ++ l')) as Hsp by (intros [|f] j'; reflexivity).
      rewrite Hsp. destruct (proj1 (Forall_forall _ _) IH (k, x) Hx Hwx fuel (j + 1 + 1) l') as [j' Hj']; [|done|cbn [snd] in Hj'; rewrite Hj'; by eexists].
      cbn [snd]. lia.
Qed.
Lemma parse_back v : written v -> parse (utf8_of (dumps v)) = Ok v.
Proof.
  intros Hw. unfold parse. destruct (value_back v Hw (S (length (utf8_of (dumps v)))) 0 []) as [j Hj]; [lia|by left|]. rewrite app_nil_r in Hj. by rewrite Hj.
Qed.
End Values.

(** ** Reading ends *)

(** Of [n] bytes at least one is read, or the error is of the document. *)
Definition consumes {A} (n : nat) (m : reads A) : Prop :=
  match m with Ok (_, st) => (length (snd st) < n)%nat | Err e => e <> None | Panic => True end.
Lemma consumes_bind {A B} n (m : reads A) (k : A * St -> reads B) :
  consumes n m -> (forall x st, (length (snd st) < n)%nat -> consumes n (k (x, st))) -> consumes n (m ≫= k).
Proof. intros Hm Hk. destruct m as [[x st]|e|]; cbn in *; [by apply Hk|done|done]. Qed.
Lemma consumes_le {A} n m (x : reads A) : (n <= m)%nat -> consumes n x -> consumes m x.
Proof. intros Hle. destruct x as [[? ?]|?|]; cbn; [lia|done|done]. Qed.
Lemma space_le st : (length (snd (space st)) <= length (snd st))%nat.
Proof.
  destruct st as [i l]. unfold space. cbn. revert i. induction l as [|b l IH]; intros i; cbn; [lia|]. destruct (is_ascii_whitespace b); [|cbn; lia]. specialize (IH (i + 1)). lia.
Qed.
Lemma eat_lt w st st' : w <> [] -> eat w st = Some st' -> (length (snd st') < length (snd st))%nat.
Proof.
  unfold eat. intros Hw. destruct (bool_decide_reflect (take (length w) (snd st) = w)) as [Hb|]; [|done]. intros [= <-]. cbn. rewrite length_drop.
  apply (f_equal length) in Hb. rewrite length_take in Hb. destruct w; [done|]. cbn [length] in *. lia.
Qed.
Lemma hex4_consumes st : consumes (length (snd st)) (hex4 st).
Proof.
  unfold hex4. destruct (Nat.eqb_spec (length (take 4 (snd st))) 4) as [H4|]; [|done]. destruct (from_hex _); [|done]. cbn. rewrite length_take in H4. rewrite length_drop. lia.
Qed.
Lemma unicode_consumes st : consumes (length (snd st)) (unicode st).
Proof.
  unfold unicode. apply consumes_bind; [apply hex4_consumes|]. intros hi st1 H1. apply consumes_bind; [|by intros].
  destruct (within 0xD800 0xDBFF hi); [|done]. destruct (eat [BACKSLASH; 117] st1) as [st2|] eqn:He; [|done]. apply eat_lt in He; [|done].
  eapply consumes_bind; [eapply consumes_le; [|apply hex4_consumes]; lia|]. intros lo st3 H3. by destruct (lo <? 0xDC00).
Qed.
Lemma escape_consumes st : consumes (length (snd st)) (escape st).
Proof.
  unfold escape. destruct (snd st) as [|c l]; [done|]. destruct (c =? 110); [cbn; lia|]. destruct (c =? 116); [cbn; lia|]. destruct (c =? 114); [cbn; lia|].
  destruct (c =? 98); [cbn; lia|]. destruct (c =? 102); [cbn; lia|]. destruct (c =? 117); [|cbn; lia].
  eapply consumes_le; [|apply unicode_consumes]. cbn. lia.
Qed.
Lemma plain_run_lt l r c l' : plain_run l = Some (r, c, l') -> (length l' < length l)%nat.
Proof.
  revert r c l'. induction l as [|b l IH]; intros r c l'; [done|]. cbn [plain_run]. destruct (_ || _); [intros [= <- <- <-]; cbn; lia|].
  destruct (plain_run l) as [[[r0 c0] l0]|]; [|done]. intros [= <- <- <-]. specialize (IH _ _ _ eq_refl). cbn. lia.
Qed.
Lemma string_consumes fuel st out : (length (snd st) <= fuel)%nat -> consumes (length (snd st)) (string_from fuel st out).
Proof.
  revert st out. induction fuel as [|fuel IH]; intros st out Hf; cbn [string_from]; destruct (plain_run (snd st)) as [[[r c] l]|] eqn:Hr; try done; apply plain_run_lt in Hr;
    (destruct (c =? QUOTE); [destruct (utf8_chars (out ++ r)); [cbn; lia|done]|]); [lia|].
  eapply consumes_bind; [eapply consumes_le; [|apply escape_consumes]; cbn; lia|]. intros e st' H'. eapply consumes_le; [|apply IH]; lia.
Qed.
Lemma read_string_consumes st : consumes (length (snd st)) (read_string st).
Proof.
  unfold read_string. destruct (eat [QUOTE] st) as [st'|] eqn:He; [|done]. apply eat_lt in He; [|done]. eapply consumes_le; [|apply string_consumes]; lia.
Qed.
Lemma items_consumes {T} fuel close (item : St -> reads T) st n :
  (length (snd st) <= fuel)%nat -> (length (snd st) <= n)%nat -> (forall st, (length (snd st) <= n)%nat -> consumes (length (snd st)) (item st)) ->
  consumes (length (snd st)) (items fuel close item st).
Proof.
  intros Hf Hn Hitem. revert st Hf Hn. induction fuel as [|fuel IH]; intros st Hf Hn; cbn [items]; (apply consumes_bind; [by apply Hitem|]); intros x st1 H1; pose proof (space_le st1) as Hs1.
  - lia.
  - destruct (eat [close] (space st1)) as [st2|] eqn:Hc; [apply eat_lt in Hc; [cbn; lia|done]|].
    destruct (eat [44] (space st1)) as [st2|] eqn:Hc2; [|done]. apply eat_lt in Hc2; [|done]. pose proof (space_le st2).
    eapply consumes_bind; [eapply consumes_le; [|apply IH]; lia|]. intros l st3 H3. done.
Qed.
Lemma list_consumes {T} fuel close (item : St -> reads T) st :
  (0 < length (snd st) <= S fuel)%nat -> (forall st', (length (snd st') < length (snd st))%nat -> consumes (length (snd st')) (item st')) ->
  consumes (length (snd st)) (list_of fuel close item st).
Proof.
  intros Hf Hitem. unfold list_of. set (st1 := space _). assert (length (snd st1) < length (snd st))%nat as H1.
  { eapply Nat.le_lt_trans; [apply space_le|]. cbn. rewrite length_drop. lia. }
  destruct (eat [close] st1) as [st2|] eqn:Hc; [apply eat_lt in Hc; [cbn; lia|done]|].
  eapply consumes_le; [|eapply (items_consumes fuel close item st1 (length (snd st1)))]; [lia|lia|done|]. intros st' H'. apply Hitem. lia.
Qed.
Lemma value_consumes fuel st : (length (snd st) < fuel)%nat -> consumes (length (snd st)) (value fuel st).
Proof.
  revert st. induction fuel as [|fuel IH]; intros st Hf; [lia|]. cbn [value]. pose proof (space_le st) as Hs. set (st1 := space st) in *.
  apply (consumes_le (length (snd st1))); [done|]. assert (consumes (length (snd st1)) (word_ st1)) as Hword.
  { unfold word_. destruct (eat NULL st1) eqn:H1; [by apply eat_lt in H1|]. destruct (eat TRUE st1) eqn:H2; [by apply eat_lt in H2|].
    destruct (eat FALSE st1) eqn:H3; [by apply eat_lt in H3|done]. }
  destruct (snd st1) as [|c l] eqn:Hl; [by rewrite <- Hl in *|]. rewrite <- Hl in *. assert (0 < length (snd st1))%nat by (rewrite Hl; cbn; lia).
  destruct (c =? OPEN); [|destruct (c =? 91); [|destruct (c =? QUOTE); [|destruct (within 48 57 c || (c =? 45)) eqn:Hd; [|done]]]].
  - apply consumes_bind; [|by intros]. apply list_consumes; [lia|]. intros st' H'. unfold member. apply consumes_bind; [apply read_string_consumes|]. intros k st2 H2.
    pose proof (space_le st2). destruct (eat [58] (space st2)) as [st3|] eqn:Hc; [|done]. apply eat_lt in Hc; [|done].
    eapply consumes_bind; [eapply consumes_le; [|apply IH]; lia|]. by intros.
  - apply consumes_bind; [|by intros]. apply list_consumes; [lia|]. intros st' H'. apply IH. lia.
  - apply consumes_bind; [apply read_string_consumes|by intros].
  - unfold number. rewrite Hl. cbn [span_number]. assert (number_byte c = true) as ->.
    { unfold number_byte. rewrite orb_true_iff in Hd. destruct Hd as [->|Hd]; [done|]. apply Z.eqb_eq in Hd as ->. done. }
    assert (length (snd (span_number l)) <= length l)%nat as Hle.
    { clear. induction l as [|b l IH]; cbn; [lia|]. destruct (number_byte b); [|cbn; lia]. destruct (span_number l). cbn in *. lia. }
    destruct (span_number l) as [a r]. cbn [snd] in Hle. destruct (parse_f64 (c :: a)); [cbn; lia|done].
Qed.
Lemma parse_ends text : parse text <> Err None.
Proof.
  unfold parse. pose proof (value_consumes (S (length text)) (0, text) ltac:(cbn; lia)) as H. destruct (value _ _) as [[v st]|e|]; cbn in *; [|congruence|done].
  by destruct (snd (space st)).
Qed.
End Json.
Arguments Json F : clear implicits.

(** ** The claims *)

(** C26. What [dumps] writes, [parse] reads back: any value of well-formed text
    and of numbers that their own text gives back. *)
Theorem json_reads_back {F} (parse_f64 : list Z -> option F) (show_f64 : F -> list Z) (finite : F -> Prop) (v : Json F) :
  (forall n, finite n -> parse_f64 (show_f64 n) = Some n) ->
  (forall n, finite n -> exists c l, show_f64 n = c :: l /\ (within 48 57 c || (c =? 45)) = true /\ Forall (fun b => number_byte b = true) (c :: l)) ->
  written finite v -> parse parse_f64 (utf8_of (dumps show_f64 v)) = Ok v.
Proof. intros Hback Hdigits. by apply parse_back. Qed.

(** Whole numbers below ten, as their digit. *)
Definition digit_of (l : list Z) : option Z := match l with [c] => if within 48 57 c then Some (c - 48) else None | _ => None end.
Definition digit (n : Z) : list Z := [48 + n].
Definition sample_json : Json Z :=
  JObj [([97], JArr [JNum 7; JBool true; JNull]); ([0x22; 10; 1], JObj []); ([], JStr [0x1F600; 92; 233])].
Lemma json_reads_back_witness : parse digit_of (utf8_of (dumps digit sample_json)) = Ok sample_json.
Proof.
  apply (json_reads_back digit_of digit (fun n => 0 <= n < 10) sample_json).
  - intros n Hn. unfold digit_of, digit. rewrite (proj2 (within_true 48 57 (48 + n))) by lia. f_equal. lia.
  - intros n Hn. exists (48 + n), []. assert (within 48 57 (48 + n) = true) as H by (apply within_true; lia). split; [done|]. rewrite H. split; [done|].
    constructor; [|constructor]. unfold number_byte. by rewrite H.
  - cbn. split_and!; try done; by repeat constructor.
Defined.

(** Reading ends on any document: each value, list and string takes at
    least one byte, so the reader returns a value, an error that says where,
    or panics on a low surrogate that is none. *)
Theorem json_reading_ends {F} (parse_f64 : list Z -> option F) text : parse parse_f64 text <> Err None.
Proof. apply parse_ends. Qed.

(** A high surrogate followed by an escape that is not a low one takes a
    subtraction below zero: the document ["\ud800\u0041"] makes the reader
    panic, where it returns errors for other malformed documents. *)
Theorem lone_surrogate_panics {F} (parse_f64 : list Z -> option F) :
  parse parse_f64 [34; 92; 117; 100; 56; 48; 48; 92; 117; 48; 48; 52; 49; 34] = Panic.
Proof. reflexivity. Qed.
