(* ===== verification/Sha.v ===== *)
(** * Hashing and key derivation ([net/crypto.rs])

    SHA-256 fed in pieces, HMAC with its pads hashed once, HKDF; and each as
    its standard writes it. The hash is the one of a CPU without the SHA-NI
    instructions. Words are 32-bit integers. *)
From S2P Require Import Prelude Bytes.

(** [ct_eq]. *)
Definition ct_eq (a b : list Z) : bool :=
  (zlen a =? zlen b) && (fold_left (fun d xy => Z.lor d (Z.lxor (fst xy) (snd xy))) (zip a b) 0 =? 0).

(** The round constants, four to a row. *)
Definition K : list Z := concat [
  [0x428a2f98; 0x71374491; 0xb5c0fbcf; 0xe9b5dba5]; [0x3956c25b; 0x59f111f1; 0x923f82a4; 0xab1c5ed5]; [0xd807aa98; 0x12835b01; 0x243185be; 0x550c7dc3]; [0x72be5d74; 0x80deb1fe; 0x9bdc06a7; 0xc19bf174];
  [0xe49b69c1; 0xefbe4786; 0x0fc19dc6; 0x240ca1cc]; [0x2de92c6f; 0x4a7484aa; 0x5cb0a9dc; 0x76f988da]; [0x983e5152; 0xa831c66d; 0xb00327c8; 0xbf597fc7]; [0xc6e00bf3; 0xd5a79147; 0x06ca6351; 0x14292967];
  [0x27b70a85; 0x2e1b2138; 0x4d2c6dfc; 0x53380d13]; [0x650a7354; 0x766a0abb; 0x81c2c92e; 0x92722c85]; [0xa2bfe8a1; 0xa81a664b; 0xc24b8b70; 0xc76c51a3]; [0xd192e819; 0xd6990624; 0xf40e3585; 0x106aa070];
  [0x19a4c116; 0x1e376c08; 0x2748774c; 0x34b0bcb5]; [0x391c0cb3; 0x4ed8aa4a; 0x5b9cca4f; 0x682e6ff3]; [0x748f82ee; 0x78a5636f; 0x84c87814; 0x8cc70208]; [0x90befffa; 0xa4506ceb; 0xbef9a3f7; 0xc67178f2]].

Definition add32 (a b : Z) : Z := wrap 32 (a + b).
Definition rotate_right (x n : Z) : Z := Z.lor (Z.shiftr x n) (wrap 32 (Z.shiftl x (32 - n))).
Definition not32 (x : Z) : Z := Z.lxor x (2 ^ 32 - 1).

(** ** The compression function ([compress_scalar]) *)
Fixpoint be_words (n : nat) (l : list Z) : list Z :=
  match n with O => [] | S n => be_val (ztake 4 l) :: be_words n (zdrop 4 l) end.
(** The message schedule: one more word from the last sixteen. *)
Definition schedule_word (w : list Z) : Z :=
  let at_ k := default 0 (w !! (length w - k)%nat) in
  let s0 := Z.lxor (Z.lxor (rotate_right (at_ 15%nat) 7) (rotate_right (at_ 15%nat) 18)) (Z.shiftr (at_ 15%nat) 3) in
  let s1 := Z.lxor (Z.lxor (rotate_right (at_ 2%nat) 17) (rotate_right (at_ 2%nat) 19)) (Z.shiftr (at_ 2%nat) 10) in
  add32 (add32 (add32 (at_ 16%nat) s0) (at_ 7%nat)) s1.
Fixpoint schedule (n : nat) (w : list Z) : list Z := match n with O => w | S n => schedule n (w ++ [schedule_word w]) end.

Record vars := mkVars { va : Z; vb : Z; vc : Z; vd : Z; ve : Z; vf : Z; vg : Z; vh : Z }.
Definition round_ (s : vars) (kw : Z * Z) : vars :=
  let '(mkVars a b c d e f g h) := s in
  let t1 := add32 (add32 (add32 (add32 h (Z.lxor (Z.lxor (rotate_right e 6) (rotate_right e 11)) (rotate_right e 25)))
                                (Z.lxor (Z.land e f) (Z.land (not32 e) g))) (fst kw)) (snd kw) in
  let t2 := add32 (Z.lxor (Z.lxor (rotate_right a 2) (rotate_right a 13)) (rotate_right a 22))
                  (Z.lxor (Z.lxor (Z.land a b) (Z.land a c)) (Z.land b c)) in
  mkVars (add32 t1 t2) a b c (add32 d t1) e f g.
Definition compress_scalar (s : vars) (block : list Z) : vars :=
  let w := schedule 48 (be_words 16 block) in
  let t := fold_left round_ (zip K w) s in
  mkVars (add32 (va s) (va t)) (add32 (vb s) (vb t)) (add32 (vc s) (vc t)) (add32 (vd s) (vd t))
         (add32 (ve s) (ve t)) (add32 (vf s) (vf t)) (add32 (vg s) (vg t)) (add32 (vh s) (vh t)).
(** [chunks_exact(64)]. *)
Fixpoint blocks (n : nat) (l : list Z) : list (list Z) :=
  match n with O => [] | S n => ztake 64 l :: blocks n (zdrop 64 l) end.
Definition compress (s : vars) (l : list Z) : vars := fold_left compress_scalar (blocks (Z.to_nat (zlen l / 64)) l) s.

(** ** The running hash ([Sha256]) *)
Record Sha256 := mkSha { sha_state : vars; sha_block : list Z; filled : Z; total : Z }.
Definition IV : vars := mkVars 0x6a09e667 0xbb67ae85 0x3c6ef372 0xa54ff53a 0x510e527f 0x9b05688c 0x1f83d9ab 0x5be0cd19.
Definition sha_default : Sha256 := mkSha IV (zrep 64 0) 0 0.
(** [block[at..at + data.len()].copy_from_slice(data)]. *)
Definition overlay (l : list Z) (at_ : Z) (data : list Z) : list Z := ztake at_ l ++ data ++ zdrop (at_ + zlen data) l.
(** The second half of [update], with no block begun. *)
Definition update_whole (h : Sha256) (data : list Z) : Sha256 :=
  let whole := zlen data / 64 * 64 in
  mkSha (compress (sha_state h) (ztake whole data)) (overlay (sha_block h) 0 (zdrop whole data)) (zlen data - whole) (total h).
Definition update (h : Sha256) (data : list Z) : Sha256 :=
  let h := mkSha (sha_state h) (sha_block h) (filled h) (wrap 64 (total h + zlen data)) in
  if 0 <? filled h then
    let take := Z.min (64 - filled h) (zlen data) in
    let block := overlay (sha_block h) (filled h) (ztake take data) in
    let h := mkSha (sha_state h) block (filled h + take) (total h) in
    let data := zdrop take data in
    if filled h <? 64 then h
    else update_whole (mkSha (compress (sha_state h) block) block 0 (total h)) data
  else update_whole h data.
Definition state_bytes (s : vars) : list Z := concat (map (be_bytes 4) [va s; vb s; vc s; vd s; ve s; vf s; vg s; vh s]).
Definition sha_finish (h : Sha256) : list Z :=
  let bits := wrap 64 (total h * 8) in
  let pad := 0x80 :: zrep 63 0 in
  let h := update h (ztake ((119 - filled h) mod 64 + 1) pad) in
  let h := update h (be_bytes 8 bits) in
  state_bytes (sha_state h).
Definition digest (data : list Z) : list Z := sha_finish (update sha_default data).
(** [snapshot]: the digest so far; the hash goes on as it was. *)
Definition snapshot (h : Sha256) : list Z := sha_finish h.

(** ** HMAC and HKDF *)
Record Hmac := mkHmac { inner : Sha256; outer : Sha256 }.
Definition hmac_new (key : list Z) : Hmac :=
  let k := if 64 <? zlen key then overlay (zrep 64 0) 0 (digest key) else overlay (zrep 64 0) 0 key in
  mkHmac (update sha_default (map (fun x => Z.lxor x 0x36) k)) (update sha_default (map (fun x => Z.lxor x 0x5c) k)).
Definition hmac_update (h : Hmac) (data : list Z) : Hmac := mkHmac (update (inner h) data) (outer h).
Definition hmac_finish (h : Hmac) : list Z := sha_finish (update (outer h) (sha_finish (inner h))).
Definition mac (key data : list Z) : list Z := hmac_finish (hmac_update (hmac_new key) data).
Definition hkdf_extract (salt ikm : list Z) : list Z := mac salt ikm.

(** One piece of [hkdf_expand]'s output. *)
Definition expand_piece (prk : list Z) (info : list (list Z)) (i : Z) (t : list Z) : list Z :=
  let h := hmac_new prk in
  let h := if 0 <? i then hmac_update h t else h in
  let h := fold_left hmac_update info h in
  hmac_finish (hmac_update h [wrap 8 (i + 1)]).
Fixpoint expand_from (n : nat) (prk : list Z) (info : list (list Z)) (i : Z) (t : list Z) (len : Z) : list Z :=
  match n with
  | O => []
  | S n => let t := expand_piece prk info i t in ztake (Z.min 32 len) t ++ expand_from n prk info (i + 1) t (len - 32)
  end.
Definition hkdf_expand (prk : list Z) (info : list (list Z)) (len : Z) : outcome unit (list Z) :=
  if len <=? 255 * 32 then Ok (expand_from (Z.to_nat ((len + 31) / 32)) prk info 0 (zrep 32 0) len) else Panic.

(** ** The standards *)

(** FIPS 180-4: the message padded to whole blocks, hashed block by block. *)
Definition padded (m : list Z) : list Z := m ++ [0x80] ++ zrep ((55 - zlen m) mod 64) 0 ++ be_bytes 8 (8 * zlen m).
Definition sha256 (m : list Z) : list Z := state_bytes (compress IV (padded m)).
(** RFC 2104. *)
Definition hmac_key (key : list Z) : list Z := let k := if 64 <? zlen key then sha256 key else key in k ++ zrep (64 - zlen k) 0.
Definition hmac (key m : list Z) : list Z :=
  sha256 (map (fun x => Z.lxor x 0x5c) (hmac_key key) ++ sha256 (map (fun x => Z.lxor x 0x36) (hmac_key key) ++ m)).
(** RFC 5869: [T(i)], and the output made of them. *)
Fixpoint hkdf_t (prk info : list Z) (i : nat) : list Z :=
  match i with O => [] | S i => hmac prk (hkdf_t prk info i ++ info ++ [Z.of_nat (S i)]) end.
Definition hkdf (prk info : list Z) (len : Z) : list Z :=
  ztake len (concat (map (hkdf_t prk info) (seq 1 (Z.to_nat ((len + 31) / 32))))).

(** ** A hash fed in pieces is that of the whole *)
Lemma blocks_app k n a b : zlen a = 64 * Z.of_nat k -> blocks (k + n) (a ++ b) = blocks k a ++ blocks n b.
Proof.
  revert a. induction k as [|k IH]; intros a Ha; [by apply zlen_zero in Ha as ->|]. cbn [Nat.add blocks app]. unfold ztake, zdrop in *. unfold zlen in Ha.
  change (Z.to_nat 64) with 64%nat. rewrite take_app_le, drop_app_le by lia. f_equal. apply IH. unfold zlen. rewrite length_drop. lia.
Qed.
Lemma compress_app s a b : zlen a mod 64 = 0 -> compress s (a ++ b) = compress (compress s a) b.
Proof.
  intros Ha. unfold compress. apply Z.div_exact in Ha; [|lia]. pose proof (zlen_nonneg a). pose proof (zlen_nonneg b).
  assert (0 <= zlen a / 64) by (apply Z.div_pos; lia). assert (0 <= zlen b / 64) by (apply Z.div_pos; lia).
  rewrite zlen_app. replace ((zlen a + zlen b) / 64) with (zlen a / 64 + zlen b / 64) by (rewrite Ha at 2; rewrite (Z.mul_comm 64), Z.div_add_l by lia; done).
  rewrite Z2Nat.inj_add by done. rewrite blocks_app by lia. by rewrite fold_left_app.
Qed.

Lemma overlay_zlen l at_ d : 0 <= at_ -> at_ + zlen d <= zlen l -> zlen (overlay l at_ d) = zlen l.
Proof. intros H0 Hl. unfold overlay. pose proof (zlen_nonneg d). rewrite !zlen_app, zlen_ztake, zlen_zdrop by lia. lia. Qed.
Lemma overlay_front l at_ d : 0 <= at_ -> at_ + zlen d <= zlen l -> ztake (at_ + zlen d) (overlay l at_ d) = ztake at_ l ++ d.
Proof.
  intros H0 Hl. pose proof (zlen_nonneg d). unfold overlay. rewrite app_assoc. apply ztake_app. rewrite zlen_app, zlen_ztake by lia. lia.
Qed.

(** What a running hash stands for. *)
Record hashed (h : Sha256) (m : list Z) : Prop := {
  hs_split : exists whole rest, m = whole ++ rest /\ zlen whole mod 64 = 0 /\ zlen rest = filled h /\ filled h < 64
    /\ sha_state h = compress IV whole /\ ztake (filled h) (sha_block h) = rest;
  hs_block : zlen (sha_block h) = 64;
  hs_total : total h = wrap 64 (zlen m);
}.
Lemma hashed_default : hashed sha_default [].
Proof. split; [|done|done]. exists [], []. done. Qed.

Lemma update_whole_spec h m whole d :
  m = whole ++ d -> zlen whole mod 64 = 0 -> sha_state h = compress IV whole -> zlen (sha_block h) = 64 -> total h = wrap 64 (zlen m) ->
  hashed (update_whole h d) m.
Proof.
  intros -> Hw Hs Hb Ht. unfold update_whole. set (n := zlen d / 64 * 64). pose proof (zlen_nonneg d).
  assert (n <= zlen d < n + 64) as Hn by (unfold n; pose proof (Z.div_mod (zlen d) 64 ltac:(lia)); pose proof (Z.mod_pos_bound (zlen d) 64 ltac:(lia)); lia).
  assert (0 <= n) by (unfold n; pose proof (Z.div_pos (zlen d) 64 ltac:(lia) ltac:(lia)); lia).
  assert (zlen (zdrop n d) = zlen d - n) as Hd by (rewrite zlen_zdrop by lia; lia). split; cbn [sha_state sha_block filled total].
  - exists (whole ++ ztake n d), (zdrop n d). rewrite <- app_assoc, ztake_zdrop, Hs. split_and!; [done| |done|lia| |].
    + rewrite zlen_app, zlen_ztake, Z.min_l by lia. rewrite <- Zplus_mod_idemp_l, Hw. unfold n. rewrite Z.add_0_l. by apply Z.mod_mul.
    + by rewrite compress_app.
    + rewrite <- Hd. rewrite <- (Z.add_0_l (zlen (zdrop n d))). by rewrite overlay_front by lia.
  - rewrite overlay_zlen by lia. done.
  - done.
Qed.
Lemma update_spec h m d : hashed h m -> hashed (update h d) (m ++ d).
Proof.
  intros [(whole&rest&->&Hw&Hr&Hf&Hs&Hb) Hl Ht]. pose proof (zlen_nonneg rest). pose proof (zlen_nonneg d).
  assert (wrap 64 (total h + zlen d) = wrap 64 (zlen ((whole ++ rest) ++ d))) as Htot.
  { rewrite Ht. unfold wrap. rewrite Zplus_mod_idemp_l. by rewrite (zlen_app (whole ++ rest) d). }
  unfold update. cbn [filled sha_state sha_block total]. rewrite Htot. destruct (Z.ltb_spec 0 (filled h)) as [Hpos|Hpos].
  - set (n := Z.min (64 - filled h) (zlen d)). assert (zlen (ztake n d) = n) as Hn by (rewrite zlen_ztake by lia; lia).
    set (block := overlay (sha_block h) (filled h) (ztake n d)).
    assert (ztake (filled h + n) block = rest ++ ztake n d) as Hfront by (unfold block; rewrite <- Hn at 1; rewrite overlay_front by lia; by rewrite Hb).
    assert (zlen block = 64) as Hblock by (unfold block; rewrite overlay_zlen by lia; done). destruct (Z.ltb_spec (filled h + n) 64) as [Hlt|Hge].
    + assert (n = zlen d) as Hnd by lia. split; cbn [sha_state sha_block filled total]; [|done|done].
      exists whole, (rest ++ d). rewrite app_assoc. split_and!; [done|done|rewrite zlen_app; lia|done|done|]. rewrite Hfront, ztake_all by lia. done.
    + assert (filled h + n = 64) as H64 by lia. apply (update_whole_spec _ _ (whole ++ rest ++ ztake n d)); cbn [sha_state sha_block total].
      * rewrite <- !app_assoc. by rewrite ztake_zdrop.
      * rewrite zlen_app, <- Zplus_mod_idemp_l, Hw, zlen_app, Hn, Hr, H64. done.
      * rewrite H64, ztake_all in Hfront by lia. rewrite Hfront, Hs. by rewrite (compress_app IV whole).
      * done.
      * done.
  - assert (rest = []) as -> by (apply zlen_zero; lia). rewrite app_nil_r. by eapply update_whole_spec.
Qed.

Lemma hashed_whole h m : hashed h m -> zlen m mod 64 = 0 -> sha_state h = compress IV m.
Proof.
  intros [(whole&rest&->&Hw&Hr&Hf&Hs&_) _ _] Hm. pose proof (zlen_nonneg rest). rewrite zlen_app, <- Zplus_mod_idemp_l, Hw, Z.add_0_l, Z.mod_small in Hm by lia.
  apply zlen_zero in Hm as ->. by rewrite app_nil_r.
Qed.
Lemma finish_spec h m : hashed h m -> 8 * zlen m < 2 ^ 64 -> sha_finish h = sha256 m.
Proof.
  intros Hh Hlen. unfold sha_finish, sha256. set (k := (119 - filled h) mod 64). pose proof (Z.mod_pos_bound (119 - filled h) 64 ltac:(lia)) as Hk. fold k in Hk.
  assert (k = (55 - zlen m) mod 64) as Hk2.
  { unfold k. destruct (hs_split _ _ Hh) as (whole&rest&->&Hw&Hr&_). rewrite zlen_app, Hr. rewrite (Zminus_mod 55), <- (Zplus_mod_idemp_l (zlen whole)), Hw, Z.add_0_l, <- Zminus_mod.
    replace (119 - filled h) with (55 - filled h + 1 * 64) by lia. apply Z.mod_add. lia. }
  pose proof (zlen_nonneg m). assert (wrap 64 (total h * 8) = 8 * zlen m) as ->.
  { rewrite (hs_total _ _ Hh). rewrite (wrap_id 64 (zlen m)) by (split; lia). rewrite wrap_id by (split; lia). lia. }
  assert (ztake (k + 1) (0x80 :: zrep 63 0) = [0x80] ++ zrep k 0) as ->.
  { unfold ztake, zrep. replace (Z.to_nat (k + 1)) with (S (Z.to_nat k)) by lia. cbn [firstn app]. f_equal. rewrite take_replicate. f_equal. lia. }
  pose proof (update_spec _ _ (be_bytes 8 (8 * zlen m)) (update_spec _ _ ([0x80] ++ zrep k 0) Hh)) as Hd. rewrite (hashed_whole _ _ Hd).
  - unfold padded. rewrite <- Hk2. by rewrite <- !app_assoc.
  - rewrite !zlen_app, be_bytes_zlen, zlen_zrep by lia. rewrite Hk2. change (zlen [0x80]) with 1.
    pose proof (Z.div_mod (55 - zlen m) 64 ltac:(lia)) as E. replace (zlen m + (1 + (55 - zlen m) mod 64) + Z.of_nat 8) with ((1 - (55 - zlen m) / 64) * 64) by lia.
    by apply Z.mod_mul.
Qed.
Lemma state_bytes_zlen s : zlen (state_bytes s) = 32.
Proof. unfold state_bytes. cbn [map concat]. rewrite !zlen_app, !be_bytes_zlen. done. Qed.
Lemma digest_spec m : 8 * zlen m < 2 ^ 64 -> digest m = sha256 m.
Proof. intros Hm. apply finish_spec; [|done]. exact (update_spec _ [] m hashed_default). Qed.

(** ** HMAC and HKDF as their standards write them *)
Lemma overlay_zero d : zlen d <= 64 -> overlay (zrep 64 0) 0 d = d ++ zrep (64 - zlen d) 0.
Proof.
  intros Hd. unfold overlay, ztake, zdrop, zrep. change (Z.to_nat 0) with 0%nat. rewrite take_0, drop_replicate. pose proof (zlen_nonneg d). cbn [app]. do 2 f_equal. lia.
Qed.
Lemma hmac_key_zlen key : zlen (hmac_key key) = 64.
Proof.
  unfold hmac_key. assert (zlen (sha256 key) = 32) as H32 by apply state_bytes_zlen.
  destruct (Z.ltb_spec 64 (zlen key)); rewrite zlen_app, zlen_zrep; lia.
Qed.
Lemma hmac_new_spec key : 8 * zlen key < 2 ^ 64 ->
  hashed (inner (hmac_new key)) (map (fun x => Z.lxor x 0x36) (hmac_key key)) /\ hashed (outer (hmac_new key)) (map (fun x => Z.lxor x 0x5c) (hmac_key key)).
Proof.
  intros Hk. unfold hmac_new. assert ((if 64 <? zlen key then overlay (zrep 64 0) 0 (digest key) else overlay (zrep 64 0) 0 key) = hmac_key key) as ->.
  { unfold hmac_key. destruct (Z.ltb_spec 64 (zlen key)).
    - rewrite digest_spec by done. apply overlay_zero. unfold sha256. rewrite state_bytes_zlen. lia.
    - by apply overlay_zero. }
  split; apply (update_spec _ [] _ hashed_default).
Qed.
Lemma hmac_finish_spec key h m : 8 * zlen key < 2 ^ 64 -> 8 * (64 + zlen m) < 2 ^ 64 ->
  hashed (inner h) (map (fun x => Z.lxor x 0x36) (hmac_key key) ++ m) -> outer h = outer (hmac_new key) -> hmac_finish h = hmac key m.
Proof.
  intros Hk Hm Hi Ho. unfold hmac_finish, hmac. rewrite Ho. rewrite (finish_spec _ _ Hi) by (rewrite zlen_app, zlen_map, hmac_key_zlen; lia).
  apply finish_spec; [apply update_spec; by apply hmac_new_spec|]. rewrite zlen_app, zlen_map, hmac_key_zlen. unfold sha256. rewrite state_bytes_zlen. lia.
Qed.
Lemma hmac_updates parts h m : hashed (inner h) m ->
  hashed (inner (fold_left hmac_update parts h)) (m ++ concat parts) /\ outer (fold_left hmac_update parts h) = outer h.
Proof.
  revert h m. induction parts as [|p parts IH]; intros h m Hh; cbn [fold_left concat]; [by rewrite app_nil_r|].
  destruct (IH (hmac_update h p) (m ++ p)) as [H1 H2]; [by apply update_spec|]. rewrite <- app_assoc in H1. done.
Qed.
Lemma mac_parts key parts : 8 * zlen key < 2 ^ 64 -> 8 * (64 + zlen (concat parts)) < 2 ^ 64 ->
  hmac_finish (fold_left hmac_update parts (hmac_new key)) = hmac key (concat parts).
Proof.
  intros Hk Hm. destruct (hmac_updates parts (hmac_new key) _ (proj1 (hmac_new_spec key Hk))) as [Hi Ho]. by apply (hmac_finish_spec key).
Qed.
Lemma hmac_zlen key m : zlen (hmac key m) = 32.
Proof. unfold hmac, sha256. apply state_bytes_zlen. Qed.

Lemma ztake_split {A} len (t x : list A) : ztake len (t ++ x) = ztake (Z.min (zlen t) len) t ++ ztake (len - zlen t) x.
Proof.
  unfold ztake. rewrite take_app. unfold zlen. f_equal; [|f_equal; lia]. destruct (decide (Z.of_nat (length t) <= len)).
  - by rewrite !take_ge by lia.
  - f_equal. lia.
Qed.
Section Expand.
Context (prk : list Z) (info : list (list Z)).
Context (Hprk : 8 * zlen prk < 2 ^ 64) (Hinfo : 8 * (64 + 32 + zlen (concat info) + 1) < 2 ^ 64).
Lemma expand_piece_spec i t : (i <= 254)%nat -> (i = 0%nat \/ t = hkdf_t prk (concat info) i) ->
  expand_piece prk info (Z.of_nat i) t = hkdf_t prk (concat info) (S i).
Proof.
  intros Hi Ht. unfold expand_piece. rewrite (wrap_id 8) by (unfold fits; lia). replace (Z.of_nat i + 1) with (Z.of_nat (S i)) by lia.
  set (parts := (if 0 <? Z.of_nat i then [t] else []) ++ info ++ [[Z.of_nat (S i)]]).
  assert (hmac_update (fold_left hmac_update info (if 0 <? Z.of_nat i then hmac_update (hmac_new prk) t else hmac_new prk)) [Z.of_nat (S i)]
          = fold_left hmac_update parts (hmac_new prk)) as -> by (unfold parts; rewrite !fold_left_app; by destruct (0 <? Z.of_nat i)).
  assert (concat parts = hkdf_t prk (concat info) i ++ concat info ++ [Z.of_nat (S i)]) as Hparts.
  { unfold parts. rewrite !concat_app. cbn [concat]. rewrite app_nil_r. f_equal. destruct (Z.ltb_spec 0 (Z.of_nat i)).
    - destruct Ht as [->| ->]; [lia|]. cbn. by rewrite app_nil_r.
    - assert (i = 0%nat) as -> by lia. done. }
  rewrite mac_parts; [by rewrite Hparts|done|]. rewrite Hparts, !zlen_app. change (zlen [Z.of_nat (S i)]) with 1.
  assert (zlen (hkdf_t prk (concat info) i) <= 32) by (destruct i; cbn [hkdf_t]; [rewrite zlen_nil|rewrite hmac_zlen]; lia). lia.
Qed.
Lemma expand_from_spec n i t len : (i + n <= 255)%nat -> (i = 0%nat \/ t = hkdf_t prk (concat info) i) ->
  expand_from n prk info (Z.of_nat i) t len = ztake len (concat (map (hkdf_t prk (concat info)) (seq (S i) n))).
Proof.
  revert i t len. induction n as [|n IH]; intros i t len Hi Ht; cbn [expand_from seq map concat]; [unfold ztake; by rewrite take_nil|].
  rewrite expand_piece_spec by (lia || done). rewrite ztake_split. replace (zlen (hkdf_t prk (concat info) (S i))) with 32 by (cbn [hkdf_t]; by rewrite hmac_zlen).
  f_equal. replace (Z.of_nat i + 1) with (Z.of_nat (S i)) by lia. rewrite IH; [|lia|by right]. done.
Qed.
Lemma hkdf_expand_spec len : 0 <= len <= 255 * 32 -> hkdf_expand prk info len = Ok (hkdf prk (concat info) len).
Proof.
  intros Hlen. unfold hkdf_expand, hkdf. destruct (Z.leb_spec len (255 * 32)); [|lia]. f_equal. change 0 with (Z.of_nat 0). apply expand_from_spec; [|by left].
  assert ((len + 31) / 32 < 256) by (apply Z.div_lt_upper_bound; lia). pose proof (Z.div_pos (len + 31) 32 ltac:(lia) ltac:(lia)). lia.
Qed.
End Expand.

(** ** The claims *)



(** C24. [Hmac], its key's pads hashed once and its message fed in parts, is
    RFC 2104's; [hkdf_expand] is RFC 5869's for any length it takes, and takes
    any up to 255 blocks. *)
Theorem keys_are_derived_as_the_standards_say (key : list Z) (parts : list (list Z)) (len : Z) :
  8 * zlen key < 2 ^ 64 -> 8 * (64 + 32 + zlen (concat parts) + 1) < 2 ^ 64 -> 0 <= len ->
  hmac_finish (fold_left hmac_update parts (hmac_new key)) = hmac key (concat parts)
  /\ hkdf_expand key parts len = if len <=? 255 * 32 then Ok (hkdf key (concat parts) len) else Panic.
Proof.
  intros Hk Hp Hlen. split; [apply mac_parts; [done|lia]|]. destruct (Z.leb_spec len (255 * 32)) as [Hle|Hgt].
  - by apply hkdf_expand_spec.
  - unfold hkdf_expand. destruct (Z.leb_spec len (255 * 32)); [lia|done].
Qed.

(** RFC 4231's first test case. *)
Lemma key_derivation_witness :
  be_val (hmac_finish (fold_left hmac_update [[72; 105; 32]; [84; 104; 101; 114; 101]] (hmac_new (zrep 20 0x0b))))
  = 0xb0344c61d8db38535ca8afceaf0bf12b881dc200c9833da726e9376c2e32cff7.
Proof.
  rewrite (proj1 (keys_are_derived_as_the_standards_say (zrep 20 0x0b) [[72; 105; 32]; [84; 104; 101; 114; 101]] 0
    ltac:(vm_compute; reflexivity) ltac:(vm_compute; reflexivity) ltac:(lia))).
  vm_compute. reflexivity.
Defined.
