(* ===== verification/FromJson.v ===== *)
(** * Reading [tokenizer.json] ([token/mod.rs], [from_json])

    The Hugging Face document as flags, a vocabulary, merges and added tokens
    for [build]. What it does not support is refused. A number is read as a
    [u32] by [to_u32] (the cast of an [f64], which saturates). *)
From stdpp Require Import gmap.
From Stdlib Require Import Ascii.
From S2P Require Import Prelude Bytes Utf8 Token Bpe Lookup Pieces Encode Vocab Json.

(** The characters of an ASCII literal. *)
Fixpoint str (s : string) : list Z := match s with EmptyString => [] | String.String c s => Z.of_N (N_of_ascii c) :: str s end.

Definition unsupported (what : string) : error := Format [Lit "tokenizer: "; Lit what; Lit " is not supported"].

(** ** The patterns as documents write them *)
Definition PATTERNS : list (list Z * Pattern) := [
  (str "'s|'t|'re|'ve|'m|'ll|'d| ?\p{L}+| ?\p{N}+| ?[^\s\p{L}\p{N}]+|\s+(?!\S)|\s+", Gpt2);
  (str "(?i:'s|'t|'re|'ve|'m|'ll|'d)|[^\r\n\p{L}\p{N}]?\p{L}+|\p{N}{1,3}| ?[^\s\p{L}\p{N}]+[\r\n]*|\s*[\r\n]+|\s+(?!\S)|\s+", Cl100k);
  (str "[^\r\n\p{L}\p{N}]?[\p{Lu}\p{Lt}\p{Lm}\p{Lo}\p{M}]*[\p{Ll}\p{Lm}\p{Lo}\p{M}]+(?i:'s|'t|'re|'ve|'m|'ll|'d)?|[^\r\n\p{L}\p{N}]?[\p{Lu}\p{Lt}\p{Lm}\p{Lo}\p{M}]+[\p{Ll}\p{Lm}\p{Lo}\p{M}]*(?i:'s|'t|'re|'ve|'m|'ll|'d)?|\p{N}{1,3}| ?[^\s\p{L}\p{N}]+[\r\n/]*|\s*[\r\n]+|\s+(?!\S)|\s+", O200k)].

Section FromJson.
Context {F : Type} (parse_f64 : list Z -> option F) (to_u32 : F -> Z).
Abbreviation json := (Json F).
Definition field (v : json) (k : string) : option json := j_get v (str k).
Definition field_str (v : json) (k : string) : option (list Z) := field v k ≫= j_str.
Definition field_bool (v : json) (k : string) : option bool := field v k ≫= j_bool.
Definition field_arr (v : json) (k : string) : list json := default [] (field v k ≫= j_arr).
Definition says_str (v : json) (k : string) (x : list Z) : bool := bool_decide (field_str v k = Some x).
Definition flag (b : bool) (f : Z) : Z := if b then f else 0.
(** [unwrap_or(-1.0) as u32]: the cast of -1 saturates to 0. *)
Definition id_of (v : option json) : Z := match v ≫= j_num with Some n => to_u32 n | None => 0 end.

(** [normalizer]: whether spaces become blocks, and whether it is NFC. *)
Definition normalizer (n : option json) : result (bool * bool) :=
  match n with
  | None | Some JNull => Ok (false, false)
  | Some n =>
      if says_str n "type" (str "Replace") && says_str n "content" [BLOCK] then Ok (true, false)
      else if says_str n "type" (str "NFC") then Ok (false, true)
      else Err (unsupported "this normalizer")
  end.

(** [byte_level]. *)
Definition byte_level_flags (p : json) (regex : bool) : option Z :=
  let prepend := flag (bool_decide (field_bool p "add_prefix_space" = Some true)) PREPEND in
  if says_str p "type" (str "ByteLevel") && bool_decide (field_bool p "use_regex" = Some regex) then Some (Z.lor BYTE_LEVEL prepend) else None.
Definition pattern_bit (p : Pattern) : Z := match p with Gpt2 => 0 | Cl100k => CL100K | O200k => O200K end.
Definition byte_level (pre : json) : option Z :=
  match byte_level_flags pre true with
  | Some f => Some f
  | None =>
      match field_arr pre "pretokenizers" with
      | [split; last_] =>
          let regex := field split "pattern" ≫= fun p => field_str p "Regex" in
          let kept := match field_str split "behavior", field_bool split "invert" with
                      | Some b, Some i => (bool_decide (b = str "Removed") && i) || (bool_decide (b = str "Isolated") && negb i)
                      | _, _ => false
                      end in
          p ← List.find (fun p => bool_decide (Some (fst p) = regex)) PATTERNS;
          if kept then f ← byte_level_flags last_ false; Some (Z.lor f (pattern_bit (snd p))) else None
      | _ => None
      end
  end.
(** [pre_tokenizer]. *)
Definition pre_tokenizer (pre : option json) (meta : bool) : result Z :=
  match pre with
  | None | Some JNull => Ok 0
  | Some pre =>
      match byte_level pre with
      | Some f => Ok f
      | None =>
          if says_str pre "type" (str "Split") && meta && bool_decide ((field pre "pattern" ≫= fun p => field_str p "String") = Some [32]) then Ok 0
          else if says_str pre "type" (str "Metaspace") && says_str pre "replacement" [BLOCK] then
            let split := flag (negb (bool_decide (field_bool pre "split" = Some false))) SPLIT in
            let first := says_str pre "prepend_scheme" (str "always") || says_str pre "prepend_scheme" (str "first") in
            Ok (Z.lor (Z.lor META split) (flag first PREPEND))
          else Err (unsupported "this pre-tokenizer")
      end
  end.

(** [frame]: the special tokens put before and after a text. *)
Definition frame_id (t item : json) : option Z :=
  name ← (field item "SpecialToken" ≫= fun x => field_str x "id");
  ids ← (field t "special_tokens" ≫= fun x => j_get x name ≫= fun x => field x "ids" ≫= j_arr);
  match ids with [x] => to_u32 <$> j_num x | _ => None end.
Definition frame_side (t : json) (items : list json) : Z := match items with [one] => default NONE (frame_id t one) | _ => NONE end.
Fixpoint position_of (p : json -> bool) (l : list json) : nat := match l with [] => 0 | x :: l => if p x then 0 else S (position_of p l) end.
Definition frame_of (post : option json) : Z * Z :=
  match post ≫= fun p => List.find (fun q => says_str q "type" (str "TemplateProcessing")) (p :: field_arr p "processors") with
  | None => (NONE, NONE)
  | Some t =>
      let single := field_arr t "single" in
      let at_ := position_of (fun i => bool_decide (is_Some (field i "Sequence"))) single in
      (frame_side t (take at_ single), frame_side t (drop (S at_) single))
  end.

(** [added]: the added tokens, with the vocabulary they join. *)
Fixpoint added_tokens (l : list json) (vocab : list (list Z * Z)) (special plain : list Z) : list (list Z * Z) * list Z * list Z :=
  match l with
  | [] => (vocab, special, plain)
  | t :: l =>
      let content := default [] (field_str t "content") in
      let id := id_of (field t "id") in
      if bool_decide (field_bool t "special" = Some true) then added_tokens l (vocab ++ [(content, id)]) (special ++ [id]) plain
      else added_tokens l (vocab ++ [(content, id)]) special (plain ++ [id])
  end.
(** [split_once(' ')]. *)
Fixpoint split_once (s : list Z) : option (list Z * list Z) :=
  match s with [] => None | c :: s => if c =? 32 then Some ([], s) else '(a, b) ← split_once s; Some (c :: a, b) end.
(** [pair]: a merge. *)
Definition pair_of (m : json) : option (list Z * list Z) :=
  match m with
  | JArr (a :: b :: _) => match j_str a, j_str b with Some a, Some b => Some (a, b) | _, _ => None end
  | JStr s => split_once s
  | _ => None
  end.

(** The reader's error [None] is no document's. *)
Definition read_document (text : list Z) : result json :=
  match parse parse_f64 text with Ok v => Ok v | Err (Some e) => Err e | Err None | Panic => Panic end.
Definition set_frame (t : Tokenizer) (x : Z * Z) : Tokenizer :=
  mkTokenizer (flags t) (unk t) (offsets t) (t_text t) (special t) (t_bytes t) (chars t) (rare t) (joins t) (added t) (merges t) (words t) x.
Definition from_json (text : list Z) : result Tokenizer :=
  doc ← read_document text;
  model ← ok_or (match field doc "model" with Some m => if says_str m "type" (str "BPE") then Some m else None | None => None end)
            (unsupported "a model other than BPE");
  '(meta, nfc) ← normalizer (field doc "normalizer");
  pre ← pre_tokenizer (field doc "pre_tokenizer") meta;
  let pre := Z.lor pre (flag nfc NFC) in
  let fallback := bool_decide (field_bool model "byte_fallback" = Some true) in
  let vocab := map (fun kv => (fst kv, id_of (Some (snd kv)))) (default [] (field model "vocab" ≫= j_obj)) in
  let '(vocab, special, plain) := added_tokens (field_arr doc "added_tokens") vocab [] [] in
  let merges := List.concat (map (fun m => match pair_of m with Some p => [p] | None => [] end) (field_arr model "merges")) in
  t ← build vocab merges special plain (field_str model "unk_token") (Z.lor (Z.lor pre (flag meta META)) (flag fallback BYTES));
  let t := set_frame t (frame_of (field doc "post_processor")) in
  if bool_decide (field_bool model "ignore_merges" = Some true) then run_to (index_words t (special ++ plain)) else Ok t.
End FromJson.

(** ** The flags a document gives *)
Lemma put_at_flags t id name t' : add t id name = Ok t' -> flags t' = flags t.
Proof.
  unfold add, add_byte_token, add_token. destruct (has t BYTE_LEVEL && negb (is_special t id)).
  - destruct (match bytes_of_name name with Some [b] => _ | _ => _ end) as [t1| |] eqn:H1; [|done|done]. intros [= <-]. cbn.
    destruct (bytes_of_name name) as [[|b [|? ?]]|]; try (by injection H1 as <-). destruct (put_at (t_bytes t) b id); [|done|done]. by injection H1 as <-.
  - set (plain := utf8_of _). destruct (match byte_name name with Some b => _ | None => _ end) as [t1| |] eqn:H1; [|done|done]. cbn [mbind outcome_bind].
    assert (flags t1 = flags t) as <-.
    { destruct (byte_name name) as [b|]; [|by injection H1 as <-]. destruct (has t BYTES && negb (is_special t id)); [|by injection H1 as <-].
      destruct (put_at (t_bytes t) b id); [|done|done]. by injection H1 as <-. }
    destruct name as [|c [|d name]]; try (by intros [= <-]). destruct (is_special t id); [by intros [= <-]|]. destruct (c <? DIRECT); [|by intros [= <-]].
    destruct (put_at (chars t1) c id); [|done|done]. by intros [= <-].
Qed.
Lemma add_all_flags names id t t' : add_all t id names = Ok t' -> flags t' = flags t.
Proof.
  revert id t. induction names as [|name names IH]; intros id t; cbn [add_all]; [by intros [= <-]|]. intros (t1&H1&H2)%bind_Ok. apply IH in H2 as ->. by eapply put_at_flags.
Qed.
Lemma build_flags vocab ms sp plain u f t : build vocab ms sp plain u f = Ok t -> flags t = f.
Proof.
  unfold build. intros (t1&H1&H)%bind_Ok. apply bind_Ok in H as (table&_&[= <-]). cbn. unfold run_to in H1. destruct (add_all _ 0 _) as [t2| |] eqn:H2; [|done|done].
  injection H1 as <-. by apply add_all_flags in H2.
Qed.

Section Flags.
Context {F : Type} (parse_f64 : list Z -> option F) (to_u32 : F -> Z).
(** The flags of a pre-tokenizer: none, a byte-level one's with at most one
    pattern, or a Metaspace's. *)
Definition pre_flags : list Z :=
  0 :: (b ← [0; PREPEND]; p ← [0; CL100K; O200K]; [Z.lor (Z.lor BYTE_LEVEL b) p]) ++ (s ← [0; SPLIT]; b ← [0; PREPEND]; [Z.lor (Z.lor META s) b]).
Lemma pre_tokenizer_flags (pre : option (Json F)) meta f : pre_tokenizer pre meta = Ok f -> f ∈ pre_flags.
Proof.
  assert (forall p r x, byte_level_flags (F := F) p r = Some x -> x = Z.lor BYTE_LEVEL 0 \/ x = Z.lor BYTE_LEVEL PREPEND) as Hbl.
  { intros p r x. unfold byte_level_flags, flag. destruct (_ && _); [|done]. intros [= <-]. destruct (bool_decide _); auto. }
  assert (forall p x, byte_level (F := F) p = Some x -> x ∈ pre_flags) as Hbyte.
  { intros p x. unfold byte_level. destruct (byte_level_flags p true) as [y|] eqn:Hy.
    - intros [= <-]. apply Hbl in Hy as [->| ->]; vm_compute; set_solver.
    - destruct (field_arr p "pretokenizers") as [|split [|last_ [|? ?]]]; try done. destruct (List.find _ PATTERNS) as [[s q]|]; [|done]. cbn [mbind option_bind snd].
      destruct (match field_str split "behavior", field_bool split "invert" with Some b, Some i => _ | _, _ => _ end); [|done].
      destruct (byte_level_flags last_ false) as [y|] eqn:Hy2; [|done]. cbn. intros [= <-]. apply Hbl in Hy2 as [->| ->]; destruct q; vm_compute; set_solver. }
  assert (0 ∈ pre_flags) as H0 by (apply elem_of_cons; by left).
  unfold pre_tokenizer. destruct pre as [v|]; [|by intros [= <-]].
  assert (forall m : result Z, (m = match byte_level v with Some x => Ok x | None =>
      if says_str v "type" (str "Split") && meta && bool_decide ((field v "pattern" ≫= fun p => field_str p "String") = Some [32]) then Ok 0
      else if says_str v "type" (str "Metaspace") && says_str v "replacement" [BLOCK] then
        Ok (Z.lor (Z.lor META (flag (negb (bool_decide (field_bool v "split" = Some false))) SPLIT))
             (flag (says_str v "prepend_scheme" (str "always") || says_str v "prepend_scheme" (str "first")) PREPEND))
      else Err (unsupported "this pre-tokenizer") end) -> m = Ok f -> f ∈ pre_flags) as Hrest.
  { intros m ->. destruct (byte_level v) as [x|] eqn:Hx; [intros [= <-]; by eapply Hbyte|]. destruct (_ && meta && _); [by intros [= <-]|]. destruct (_ && _); [|done].
    intros [= <-]. unfold flag. destruct (negb _), (_ || _); vm_compute; set_solver. }
  destruct v; try (by eapply Hrest). by intros [= <-].
Qed.
Lemma document_flags text t : from_json parse_f64 to_u32 text = Ok t ->
  exists pre m nf fb, pre ∈ pre_flags /\ flags t = Z.lor (Z.lor (Z.lor pre (flag nf NFC)) (flag m META)) (flag fb BYTES).
Proof.
  unfold from_json. intros (doc&_&H)%bind_Ok. apply bind_Ok in H as (model&_&H). apply bind_Ok in H as ([m nf]&_&H). apply bind_Ok in H as (pre&Hpre&H).
  apply pre_tokenizer_flags in Hpre. destruct (added_tokens _ _ _ _ _) as [[vocab sp] plain]. apply bind_Ok in H as (t1&Hb%build_flags&H).
  exists pre, m, nf, (bool_decide (field_bool model "byte_fallback" = Some true)). split; [done|]. rewrite <- Hb.
  destruct (bool_decide _) in H; [|by injection H as <-]. unfold run_to, index_words in H. destruct (put_words _ _ _) in H; [|done|done]. by injection H as <-.
Qed.
End Flags.

(** Whatever document a tokenizer is read from, its flags are of one
    scheme: at most one pattern, so that [byte_segment] finds it without a
    panic, and a pattern only in a byte-level vocabulary, which no Metaspace
    splits. *)
Theorem document_chooses_one_scheme {F} (parse_f64 : list Z -> option F) (to_u32 : F -> Z) text t :
  from_json parse_f64 to_u32 text = Ok t ->
  (exists p, pattern_of t = Ok p) /\ implb (has t CL100K || has t O200K) (has t BYTE_LEVEL) = true /\ has t BYTE_LEVEL && has t SPLIT = false.
Proof.
  intros H. apply document_flags in H as (pre&m&nf&fb&Hpre&Hf).
  assert (forallb (fun f => negb (negb (Z.land f CL100K =? 0) && negb (Z.land f O200K =? 0))
      && implb (negb (Z.land f CL100K =? 0) || negb (Z.land f O200K =? 0)) (negb (Z.land f BYTE_LEVEL =? 0))
      && negb (negb (Z.land f BYTE_LEVEL =? 0) && negb (Z.land f SPLIT =? 0)))
    (pre ← pre_flags; m ← [true; false]; nf ← [true; false]; fb ← [true; false]; [Z.lor (Z.lor (Z.lor pre (flag nf NFC)) (flag m META)) (flag fb BYTES)]) = true) as Hall
    by (vm_compute; reflexivity).
  assert (flags t ∈ (pre ← pre_flags; m ← [true; false]; nf ← [true; false]; fb ← [true; false]; [Z.lor (Z.lor (Z.lor pre (flag nf NFC)) (flag m META)) (flag fb BYTES)])) as Hin.
  { rewrite Hf. apply list_elem_of_bind. exists pre. split; [|done]. destruct m, nf, fb; cbn [mbind list_bind app]; rewrite !elem_of_cons; auto 12. }
  apply list_elem_of_In in Hin. apply (proj1 (List.forallb_forall _ _) Hall) in Hin. rewrite !andb_true_iff, !negb_true_iff in Hin. destruct Hin as [[H1 H2] H3].
  split; [|done]. unfold pattern_of, has. destruct (negb (Z.land (flags t) CL100K =? 0)), (negb (Z.land (flags t) O200K =? 0)); try done; by eexists.
Qed.

(** A byte-level document with GPT-2's pattern, its quotes written as 39. *)
Definition small_document : list Z :=
  map (fun c => if c =? 39 then 34 else c)
    (str "{'pre_tokenizer':{'type':'ByteLevel','use_regex':true},'model':{'type':'BPE','vocab':{'a':0,'b':1,'ab':2},'merges':['a b']},'added_tokens':[{'content':'<s>','id':3,'special':true}]}").
Definition read_whole (s : list Z) : option Z := Some (foldl (fun n c => 10 * n + (c - 48)) 0 s).
Lemma small_document_reads : match from_json read_whole (fun n => n) small_document with Ok _ => true | _ => false end = true.
Proof. vm_compute. reflexivity. Qed.
Lemma small_document_witness :
  match from_json read_whole (fun n => n) small_document with
  | Ok t => (exists p, pattern_of t = Ok p) /\ implb (has t CL100K || has t O200K) (has t BYTE_LEVEL) = true /\ has t BYTE_LEVEL && has t SPLIT = false
  | _ => False
  end.
Proof.
  pose proof small_document_reads as Hok. destruct (from_json _ _ small_document) as [t| |] eqn:H; [|discriminate|discriminate].
  exact (document_chooses_one_scheme _ _ _ _ H).
Defined.
