(* ===== verification/Inflate.v ===== *)
(** * zlib streams ([media/inflate.rs])

    Deflate blocks (RFC 1951) in a zlib stream (RFC 1950): the bit reader, the
    canonical Huffman codes with their table for short codes, the three kinds
    of block, and the checksum. A loop that would run out of its steps is a
    [Panic], so that a stream that is never one also shows that the loops end.
    [Huffman::new] gets at most 320 lengths, so that its 16- and 32-bit sums
    stay in range. *)
From S2P Require Import Prelude Bytes.

(** [media/mod.rs]. *)
Definition bad (what : string) : error := Media [Lit what; Lit ": the file is damaged or not what it claims"].

Definition FAST : Z := 10.
Definition BASES : list Z := [3; 4; 5; 6; 7; 8; 9; 10; 11; 13; 15; 17; 19; 23; 27; 31; 35; 43; 51; 59; 67; 83; 99; 115; 131; 163; 195; 227; 258].
Definition EXTRA : list Z := [0; 0; 0; 0; 0; 0; 0; 0; 1; 1; 1; 1; 2; 2; 2; 2; 3; 3; 3; 3; 4; 4; 4; 4; 5; 5; 5; 5; 0].
Definition ORDER : list Z := [16; 17; 18; 0; 8; 7; 9; 6; 10; 5; 11; 4; 12; 3; 13; 2; 14; 1; 15].

(** ** The bits of a stream *)

(** [Bits]: [b_rest] is what [data] holds from [b_at] on. *)
Record Bits := mkBits { b_rest : list Z; b_at : Z; b_buf : Z; b_n : Z }.

Fixpoint refill (rest : list Z) (at_ buf n : Z) : Bits :=
  match rest with
  | [] => mkBits [] at_ buf n
  | x :: rest' => if n <=? 56 then refill rest' (at_ + 1) (Z.lor buf (wrap 64 (Z.shiftl x n))) (n + 8) else mkBits rest at_ buf n
  end.
Definition peek (k : Z) (b : Bits) : Z * Bits :=
  let b := refill (b_rest b) (b_at b) (b_buf b) (b_n b) in (Z.land (b_buf b) (Z.ones k), b).
Definition skip (k : Z) (b : Bits) : result Bits :=
  if b_n b <? k then Err (bad "a deflate stream ends early")
  else Ok (mkBits (b_rest b) (b_at b) (Z.shiftr (b_buf b) k) (b_n b - k)).
Definition take_bits (k : Z) (b : Bits) : result (Z * Bits) :=
  let '(v, b) := peek k b in b ← skip k b; Ok (v, b).

(** ** Huffman codes *)
Record Huffman := mkHuffman { h_fast : list Z; h_counts : list Z; h_symbols : list Z }.

(** [v[i] = x], [v[i] += 1]. *)
Definition put (v : list Z) (i x : Z) : result (list Z) := _ ← or_panic (zget v i); Ok (<[Z.to_nat i := x]> v).
Definition bump (v : list Z) (i : Z) : result (list Z) := x ← or_panic (zget v i); put v i (x + 1).
Fixpoint count_lengths (lengths counts : list Z) : result (list Z) :=
  match lengths with [] => Ok counts | l :: lengths => counts ← bump counts l; count_lengths lengths counts end.
(** [offs]: the sums of the counts before each. *)
Fixpoint offs_from (sum : Z) (counts : list Z) : list Z :=
  match counts with [] => [] | c :: counts => sum :: offs_from (sum + c) counts end.
(** [next[1..]]: the first code of each length. *)
Fixpoint next_from (code : Z) (counts : list Z) : list Z :=
  match counts with [] => [] | c :: counts => let code := Z.shiftl (code + c) 1 in code :: next_from code counts end.
Fixpoint reverse_bits (n : nat) (c r : Z) : Z :=
  match n with O => r | S n => reverse_bits n (Z.div2 c) (2 * r + Z.b2z (Z.odd c)) end.
(** The entries of a short code, for what follows it. *)
Fixpoint fill_fast (ks : list Z) (r len e : Z) (fast : list Z) : result (list Z) :=
  match ks with [] => Ok fast | k :: ks => fast ← put fast (Z.lor r (Z.shiftl k len)) e; fill_fast ks r len e fast end.
Record Making := mkMaking { m_offs : list Z; m_symbols : list Z; m_next : list Z; m_fast : list Z }.
Definition place (m : Making) (s l : Z) : result Making :=
  if l =? 0 then Ok m else
  o ← or_panic (zget (m_offs m) l);
  symbols ← put (m_symbols m) o (wrap 16 s);
  offs ← bump (m_offs m) l;
  c ← or_panic (zget (m_next m) l);
  next ← bump (m_next m) l;
  fast ← (if l <=? FAST then
            let r := Z.shiftr (reverse_bits 32 c 0) (32 - l) in
            fill_fast (seqZ 0 (Z.shiftl 1 (FAST - l))) r l (Z.lor (wrap 16 (Z.shiftl (wrap 16 s) 4)) l) (m_fast m)
          else Ok (m_fast m));
  Ok (mkMaking offs symbols next fast).
Fixpoint place_all (s : Z) (lengths : list Z) (m : Making) : result Making :=
  match lengths with [] => Ok m | l :: lengths => m ← place m s l; place_all (s + 1) lengths m end.
Definition huffman_new (lengths : list Z) : result Huffman :=
  counts ← count_lengths lengths (zrep 16 0);
  counts ← put counts 0 0;
  let next := 0 :: next_from 0 (ztake 15 counts) in
  m ← place_all 0 lengths (mkMaking (offs_from 0 counts) (zrep (zlen lengths) 0) next (zrep (Z.shiftl 1 FAST) 0));
  Ok (mkHuffman (m_fast m) counts (m_symbols m)).

Fixpoint decode_from (n : nat) (h : Huffman) (l code first index : Z) (b : Bits) : result (Z * Bits) :=
  match n with
  | O => Err (bad "a deflate stream has an invalid code")
  | S n =>
      '(x, b) ← take_bits 1 b;
      let code := Z.lor code x in
      count ← or_panic (zget (h_counts h) l);
      if code - count <? first then s ← or_panic (zget (h_symbols h) (index + code - first)); Ok (s, b)
      else decode_from n h (l + 1) (Z.shiftl code 1) (Z.shiftl (first + count) 1) (index + count) b
  end.
Definition decode (h : Huffman) (b : Bits) : result (Z * Bits) :=
  let '(i, b) := peek FAST b in
  e ← or_panic (zget (h_fast h) i);
  if negb (e =? 0) then b ← skip (Z.land e 15) b; Ok (Z.shiftr e 4, b)
  else decode_from 15 h 1 0 0 0 b.

(** ** Blocks *)
Fixpoint stored_bytes (n : nat) (b : Bits) (out : list Z) : result (list Z * Bits) :=
  match n with O => Ok (out, b) | S n => '(x, b) ← take_bits 8 b; stored_bytes n b (out ++ [x]) end.
Definition stored (b : Bits) (out : list Z) : result (list Z * Bits) :=
  b ← skip (b_n b mod 8) b;
  '(len, b) ← take_bits 16 b;
  '(nlen, b) ← take_bits 16 b;
  if negb (len =? Z.land (Z.lxor nlen (Z.ones 32)) 0xffff) then Err (bad "a stored deflate block has a bad length")
  else stored_bytes (Z.to_nat len) b out.

Definition length_of (b : Bits) (s : Z) (last : option Z) : result (Z * Z * Bits) :=
  if s <=? 15 then Ok (1, s, b)
  else if s =? 16 then '(x, b) ← take_bits 2 b; v ← ok_or last (bad "a deflate length repeats nothing"); Ok (3 + x, v, b)
  else if s =? 17 then '(x, b) ← take_bits 3 b; Ok (3 + x, 0, b)
  else '(x, b) ← take_bits 7 b; Ok (11 + x, 0, b).
Fixpoint code_lengths (order : list Z) (cl : list Z) (b : Bits) : result (list Z * Bits) :=
  match order with
  | [] => Ok (cl, b)
  | i :: order => '(x, b) ← take_bits 3 b; cl ← put cl i x; code_lengths order cl b
  end.
Fixpoint read_lengths (fuel : nat) (code : Huffman) (total : Z) (lengths : list Z) (b : Bits) : result (list Z * Bits) :=
  match fuel with
  | O => Panic
  | S fuel =>
      if zlen lengths <? total then
        '(s, b) ← decode code b;
        '(repeat, value, b) ← length_of b s (last lengths);
        read_lengths fuel code total (lengths ++ zrep repeat value) b
      else Ok (lengths, b)
  end.
Definition dynamic (b : Bits) : result (Huffman * Huffman * Bits) :=
  '(x, b) ← take_bits 5 b;
  '(y, b) ← take_bits 5 b;
  '(z, b) ← take_bits 4 b;
  let nlit := x + 257 in
  let ndist := y + 1 in
  order ← or_panic (zslice ORDER 0 (z + 4));
  '(cl, b) ← code_lengths order (zrep 19 0) b;
  code ← huffman_new cl;
  '(lengths, b) ← read_lengths (S (Z.to_nat (nlit + ndist))) code (nlit + ndist) [] b;
  if nlit + ndist <? zlen lengths then Err (bad "deflate code lengths overrun")
  else
    lit ← huffman_new (ztake nlit lengths);
    dist ← huffman_new (zdrop nlit lengths);
    Ok (lit, dist, b).

Definition distance (b : Bits) (dist : Huffman) : result (Z * Bits) :=
  '(d, b) ← decode dist b;
  if 30 <=? d then Err (bad "a deflate distance code past 29")
  else
    let extra := if d <? 2 then 0 else d / 2 - 1 in
    let base := if d <? 4 then d + 1 else Z.shiftl (2 + Z.land d 1) extra + 1 in
    '(x, b) ← take_bits extra b;
    Ok (base + x, b).
Fixpoint copy_back (n : nat) (from : Z) (out : list Z) : result (list Z) :=
  match n with O => Ok out | S n => v ← or_panic (zget out from); copy_back n (from + 1) (out ++ [v]) end.
Fixpoint codes (fuel : nat) (b : Bits) (out : list Z) (lit dist : Huffman) : result (list Z * Bits) :=
  match fuel with
  | O => Panic
  | S fuel =>
      '(s, b) ← decode lit b;
      if s <? 256 then codes fuel b (out ++ [s]) lit dist
      else if s =? 256 then Ok (out, b)
      else if s <=? 285 then
        base ← or_panic (zget BASES (s - 257));
        extra ← or_panic (zget EXTRA (s - 257));
        '(x, b) ← take_bits extra b;
        '(back, b) ← distance b dist;
        if zlen out <? back then Err (bad "a deflate distance reaches before the start")
        else out ← copy_back (Z.to_nat (base + x)) (zlen out - back) out; codes fuel b out lit dist
      else Err (bad "a deflate length code past 285")
  end.
(** [l[144..256].fill(9)], [l[256..280].fill(7)] over eights. *)
Definition fixed_lengths : list Z := zrep 144 8 ++ zrep 112 9 ++ zrep 24 7 ++ zrep 8 8.
(** The bits there are to read. *)
Definition steps (b : Bits) : nat := S (Z.to_nat (b_n b + 8 * zlen (b_rest b))).
Definition block (b : Bits) (out : list Z) : result (bool * list Z * Bits) :=
  '(head, b) ← take_bits 3 b;
  let kind := Z.shiftr head 1 in
  '(out, b) ← (if kind =? 0 then stored b out
               else if kind =? 1 then
                 lit ← huffman_new fixed_lengths;
                 dist ← huffman_new (zrep 30 5);
                 codes (steps b) b out lit dist
               else if kind =? 2 then '(lit, dist, b) ← dynamic b; codes (steps b) b out lit dist
               else Err (bad "a deflate block of type 3"));
  Ok (Z.land head 1 =? 1, out, b).

(** ** The stream *)
Fixpoint block_loop (fuel : nat) (b : Bits) (out : list Z) : result (list Z * Bits) :=
  match fuel with O => Panic | S fuel => '(last, out, b) ← block b out; if last : bool then Ok (out, b) else block_loop fuel b out end.
(** A [u32] sum, which a checked build traps past 32 bits. *)
Definition add_u32 (a b : Z) : result Z := if a + b <? 2 ^ 32 then Ok (a + b) else Panic.
Fixpoint adler_chunk (l : list Z) (a b : Z) : result (Z * Z) :=
  match l with
  | [] => Ok (a, b)
  | v :: l => a' ← add_u32 a v; ba ← add_u32 b a; b' ← add_u32 ba v; adler_chunk l a' b'
  end.
Fixpoint adler_chunks (ls : list (list Z)) (a b : Z) : result (Z * Z) :=
  match ls with [] => Ok (a, b) | l :: ls => '(a, b) ← adler_chunk l a b; adler_chunks ls (a mod 65521) (b mod 65521) end.
Definition adler (out : list Z) : result Z := '(a, b) ← adler_chunks (chunks 5552 out) 1 0; Ok (Z.lor (wrap 32 (Z.shiftl b 16)) a).
Definition zlib_header (z : list Z) : bool :=
  match z with
  | z0 :: z1 :: _ => (6 <=? zlen z) && (Z.land z0 15 =? 8) && (Z.lor (Z.shiftl z0 8) z1 mod 31 =? 0) && (Z.land z1 32 =? 0)
  | _ => false
  end.
Definition zlib (z : list Z) : result (list Z) :=
  if negb (zlib_header z) then Err (bad "not a zlib stream")
  else
    let b := mkBits (zdrop 2 z) 0 0 0 in
    '(out, b) ← block_loop (steps b) b [];
    let end_ := 2 + b_at b - b_n b / 8 in
    let want := be_val <$> zslice z end_ (end_ + 4) in
    sum ← adler out;
    if bool_decide (want = Some sum) then Ok out else Err (bad "a zlib stream fails its checksum").
