(* ===== verification/BitStream.v ===== *)
(** * The bits a reader has left ([Bits] of [media/inflate.rs])

    A reader's 64-bit buffer and the bytes it has not read yet are one
    sequence of bits: [take_bits] takes from its front. *)
From S2P Require Import Prelude Bytes Inflate.

(** ** Numbers as bits, the least significant first *)
Fixpoint bits_le (n : nat) (z : Z) : list bool := match n with O => [] | S n => Z.odd z :: bits_le n (Z.div2 z) end.
Fixpoint val_le (l : list bool) : Z := match l with [] => 0 | b :: l => Z.b2z b + 2 * val_le l end.

Lemma bits_le_length n z : length (bits_le n z) = n.
Proof. revert z. induction n; intros z; cbn; auto. Qed.
Lemma val_le_bound l : 0 <= val_le l < 2 ^ zlen l.
Proof.
  induction l as [|b l IH]; [done|]. cbn [val_le]. rewrite zlen_cons, Z.pow_add_r by (pose proof (zlen_nonneg l); lia). destruct b; cbn [Z.b2z]; lia.
Qed.
Lemma val_bits n z : 0 <= z < 2 ^ Z.of_nat n -> val_le (bits_le n z) = z.
Proof.
  revert z. induction n as [|n IH]; intros z Hz; [cbn in *; lia|]. rewrite Nat2Z.inj_succ, Z.pow_succ_r in Hz by lia. cbn [bits_le val_le].
  pose proof (Z.div2_odd z). rewrite IH; [lia|]. rewrite Z.div2_div in *. destruct (Z.odd z); cbn [Z.b2z] in *; lia.
Qed.
Lemma bits_val l : bits_le (length l) (val_le l) = l.
Proof.
  induction l as [|b l IH]; [done|]. cbn [length bits_le val_le]. f_equal.
  - rewrite Z.odd_add_mul_2. by destruct b.
  - replace (Z.div2 _) with (val_le l); [done|]. rewrite Z.div2_div, Z.mul_comm, Z.div_add by lia. by destruct b.
Qed.
Lemma bits_le_add n k z : bits_le (n + k) z = bits_le n z ++ bits_le k (Z.shiftr z (Z.of_nat n)).
Proof.
  revert z. induction n as [|n IH]; intros z; [by rewrite Z.shiftr_0_r|]. cbn [Nat.add bits_le app]. f_equal. rewrite IH. do 2 f_equal.
  rewrite Z.div2_spec, Z.shiftr_shiftr by lia. f_equal. lia.
Qed.
Lemma val_le_app l k : val_le (l ++ k) = val_le l + 2 ^ zlen l * val_le k.
Proof.
  induction l as [|b l IH]; [change (zlen (@nil bool)) with 0; cbn [app val_le]; lia|]. cbn [app val_le]. rewrite IH, zlen_cons, Z.pow_add_r by (pose proof (zlen_nonneg l); lia). lia.
Qed.
Lemma bits_le_high n v z : bits_le n (v + z * 2 ^ Z.of_nat n) = bits_le n v.
Proof.
  revert v z. induction n as [|n IH]; intros v z; [done|]. cbn [bits_le]. rewrite Nat2Z.inj_succ, Z.pow_succ_r by lia.
  replace (z * (2 * 2 ^ Z.of_nat n)) with (2 * (z * 2 ^ Z.of_nat n)) by lia. rewrite Z.odd_add_mul_2. f_equal.
  rewrite <- (IH (Z.div2 v) z). f_equal. rewrite !Z.div2_div, (Z.mul_comm 2), Z.div_add by lia. done.
Qed.
Lemma bits_le_app n k l z : zlen l = Z.of_nat n -> l ++ bits_le k z = bits_le (n + k) (val_le l + 2 ^ Z.of_nat n * z).
Proof.
  intros Hl. assert (n = length l) as -> by (unfold zlen in Hl; lia). rewrite bits_le_add, (Z.mul_comm (2 ^ _)), bits_le_high, bits_val. f_equal.
  pose proof (val_le_bound l) as Hb. rewrite Hl in Hb. by rewrite Z.shiftr_div_pow2, Z.div_add, Z.div_small by lia.
Qed.
Lemma bits_le_low k z : 0 <= k -> bits_le (Z.to_nat k) (Z.land z (Z.ones k)) = bits_le (Z.to_nat k) z.
Proof.
  intros Hk. rewrite Z.land_ones by done. rewrite <- (bits_le_high _ (z mod 2 ^ k) (z / 2 ^ k)). f_equal. rewrite Z2Nat.id by done.
  pose proof (Z.div_mod z (2 ^ k) ltac:(lia)). lia.
Qed.

(** ** The reader *)
Definition stream (b : Bits) : list bool := bits_le (Z.to_nat (b_n b)) (b_buf b) ++ concat (map (bits_le 8) (b_rest b)).
(** A reader of [d] bytes, at a place that its buffer agrees with. *)
Record reads (d : Z) (b : Bits) : Prop := {
  reads_n : 0 <= b_n b <= 64;
  reads_buf : fits (b_n b) (b_buf b);
  reads_rest : bytes_ok (b_rest b);
  reads_at : b_at b + zlen (b_rest b) = d /\ b_n b <= 8 * b_at b
}.
Lemma stream_zlen b : 0 <= b_n b -> zlen (stream b) = b_n b + 8 * zlen (b_rest b).
Proof.
  intros Hn. unfold stream. rewrite zlen_app. unfold zlen at 1. rewrite bits_le_length, Z2Nat.id by done. f_equal. induction (b_rest b) as [|x l IH]; [done|].
  cbn [map concat]. rewrite zlen_app, IH, zlen_cons. unfold zlen at 1. rewrite bits_le_length. lia.
Qed.

Lemma refill_spec rest at_ buf n d : reads d (mkBits rest at_ buf n) ->
  let b := refill rest at_ buf n in reads d b /\ stream b = stream (mkBits rest at_ buf n) /\ (57 <= b_n b \/ b_rest b = []).
Proof.
  revert at_ buf n. induction rest as [|x rest IH]; intros at_ buf n H; cbn [refill]; [auto|].
  destruct (Z.leb_spec n 56) as [Hle|Hgt]; [|split; [done|split; [done|left; cbn; lia]]].
  destruct H as [Hn Hb Hr [Ha Hat]]. cbn in Hn, Hb, Hr, Ha, Hat. apply Forall_cons in Hr as [Hx Hr]. unfold u8, fits in Hx. unfold fits in Hb.
  assert (0 <= x * 2 ^ n < 2 ^ 64) as Hsh.
  { split; [lia|]. apply Z.lt_le_trans with (2 ^ 8 * 2 ^ n); [apply Z.mul_lt_mono_pos_r; lia|]. rewrite <- Z.pow_add_r by lia. apply Z.pow_le_mono_r; lia. }
  assert (Z.lor buf (wrap 64 (Z.shiftl x n)) = buf + 2 ^ n * x) as Hlor.
  { rewrite wrap_id by (unfold fits; rewrite Z.shiftl_mul_pow2; lia). rewrite Z.lor_comm, lor_shiftl_add by (try lia; done). lia. }
  destruct (IH (at_ + 1) (Z.lor buf (wrap 64 (Z.shiftl x n))) (n + 8)) as (H1&H2&H3).
  - split; cbn; [lia| |done|rewrite zlen_cons in Ha; lia]. rewrite Hlor. unfold fits. rewrite Z.pow_add_r by lia. nia.
  - split; [done|]. split; [|done]. rewrite H2. unfold stream. cbn [b_n b_buf b_rest map concat]. rewrite app_assoc. f_equal.
    rewrite (bits_le_app (Z.to_nat n) 8 _ x) by (unfold zlen; by rewrite bits_le_length). rewrite val_bits by (rewrite Z2Nat.id; lia). rewrite Hlor, Z2Nat.inj_add, Z2Nat.id by lia. done.
Qed.

Lemma stream_split d b k : reads d b -> 0 <= k <= b_n b -> stream b = bits_le (Z.to_nat k) (b_buf b) ++ stream (mkBits (b_rest b) (b_at b) (Z.shiftr (b_buf b) k) (b_n b - k)).
Proof.
  intros H Hk. unfold stream. cbn [b_n b_buf b_rest]. rewrite app_assoc. f_equal. replace (Z.to_nat (b_n b)) with (Z.to_nat k + Z.to_nat (b_n b - k))%nat by lia.
  rewrite bits_le_add, Z2Nat.id by lia. done.
Qed.
Lemma skipped_reads d b k : reads d b -> 0 <= k <= b_n b -> reads d (mkBits (b_rest b) (b_at b) (Z.shiftr (b_buf b) k) (b_n b - k)).
Proof.
  intros [Hn Hb Hr [Ha Hat]] Hk. split; cbn; [lia| |done|lia]. unfold fits in *. rewrite Z.shiftr_div_pow2 by lia. split; [apply Z.div_pos; lia|].
  apply Z.div_lt_upper_bound; [lia|]. rewrite <- Z.pow_add_r by lia. replace (k + (b_n b - k)) with (b_n b) by lia. lia.
Qed.
Lemma peek_spec d k b : reads d b -> 0 <= k <= 57 ->
  let '(v, b') := peek k b in reads d b' /\ stream b' = stream b /\ v = val_le (take (Z.to_nat k) (stream b)) /\ (k <= b_n b' \/ zlen (stream b) < k /\ b_n b' = zlen (stream b)).
Proof.
  intros H Hk. unfold peek. destruct b as [rest at_ buf n]. cbn [b_rest b_at b_buf b_n]. destruct (refill_spec rest at_ buf n d H) as (H1&H2&H3). set (b' := refill _ _ _ _) in *.
  split; [done|]. split; [done|]. rewrite <- H2. pose proof (stream_zlen b') as Hl. destruct (Z.le_gt_cases k (b_n b')) as [Hn|Hn].
  - split; [|by left]. rewrite (stream_split d b' k) by (done || lia). rewrite take_app_length' by (by rewrite bits_le_length). rewrite <- bits_le_low by lia. symmetry. apply val_bits.
    rewrite Z2Nat.id, Z.land_ones by lia. apply Z.mod_pos_bound. lia.
  - destruct H3 as [H3|H3]; [lia|]. pose proof (reads_n _ _ H1). specialize (Hl ltac:(lia)). rewrite H3 in Hl. change (zlen (@nil Z)) with 0 in Hl. split; [|right; lia].
    rewrite take_ge by (unfold zlen in Hl; lia). unfold stream. rewrite H3. cbn [map concat]. rewrite app_nil_r. pose proof (reads_buf _ _ H1) as Hb. unfold fits in Hb.
    rewrite val_bits by (rewrite Z2Nat.id; lia). rewrite Z.land_ones, Z.mod_small; [done| |lia]. split; [lia|]. apply Z.lt_le_trans with (2 ^ b_n b'); [lia|apply Z.pow_le_mono_r; lia].
Qed.
(** Taking bits takes them from the front, or fails where there are not as
    many. *)
Lemma take_bits_spec d k b : reads d b -> 0 <= k <= 57 ->
  match take_bits k b with
  | Ok (v, b') => reads d b' /\ stream b = bits_le (Z.to_nat k) v ++ stream b' /\ fits k v
  | Err _ => zlen (stream b) < k
  | Panic => False
  end.
Proof.
  intros H Hk. unfold take_bits. pose proof (peek_spec d k b H Hk) as Hp. destruct (peek k b) as [v b']. destruct Hp as (H1&H2&Hv&Hn). unfold skip.
  pose proof (reads_n _ _ H1). pose proof (stream_zlen b' ltac:(lia)) as Hl. rewrite H2 in Hl.
  destruct (Z.ltb_spec (b_n b') k); cbn [mbind outcome_bind]; [destruct Hn as [?|[? ?]]; lia|]. split; [apply skipped_reads; [done|lia]|].
  assert (zlen (take (Z.to_nat k) (stream b)) = k) as Ht by (rewrite <- H2; pose proof (zlen_nonneg (b_rest b')); change (take (Z.to_nat k) ?l) with (ztake k l); rewrite zlen_ztake, H2; lia).
  assert (fits k v) as Hfit by (pose proof (val_le_bound (take (Z.to_nat k) (stream b))); rewrite Ht in *; subst v; done).
  split; [|done]. rewrite <- H2 at 1. rewrite (stream_split d b' k H1) at 1 by lia. f_equal. rewrite Hv, <- H2, (stream_split d b' k H1) by lia.
  rewrite take_app_length' by (by rewrite bits_le_length). rewrite <- bits_val at 1. by rewrite bits_le_length.
Qed.
Lemma take_bits_back d k v r b : reads d b -> 0 <= k <= 57 -> fits k v -> stream b = bits_le (Z.to_nat k) v ++ r -> exists b', take_bits k b = Ok (v, b') /\ reads d b' /\ stream b' = r.
Proof.
  intros H Hk Hv Hs. pose proof (take_bits_spec d k b H Hk) as Hsp. destruct (take_bits k b) as [[x b']| |].
  - destruct Hsp as (H1&H2&H3). exists b'. rewrite Hs in H2. apply app_inj_1 in H2 as [H2 H4]; [|by rewrite !bits_le_length]. unfold fits in *.
    assert (x = v) as -> by (rewrite <- (val_bits (Z.to_nat k) x), <- (val_bits (Z.to_nat k) v) by (rewrite Z2Nat.id; lia); by rewrite H2). done.
  - rewrite Hs, zlen_app in Hsp. unfold zlen at 1 in Hsp. rewrite bits_le_length in Hsp. pose proof (zlen_nonneg r). lia.
  - done.
Qed.
