(* ===== verification/Huffman.v ===== *)
(** * Canonical Huffman codes ([Huffman] of [media/inflate.rs])

    What [Huffman::new] makes of code lengths: each symbol's code is the next
    of its length (RFC 1951, 3.2.2), the symbols are sorted by it, and the
    table of short codes maps every sequence of ten bits that begins with a
    code to its symbol. [decode] reads back the code of any symbol. *)
From S2P Require Import Prelude Bytes Inflate BitStream.

(** ** Arrays as functions of the index *)
Definition arr (n : nat) (f : nat -> Z) : list Z := map f (seq 0 n).
Lemma arr_zlen n f : zlen (arr n f) = Z.of_nat n.
Proof. unfold arr, zlen. by rewrite length_map, length_seq. Qed.
Lemma arr_lookup n f i : (i < n)%nat -> arr n f !! i = Some (f i).
Proof. intros Hi. unfold arr. change (map f ?l) with (f <$> l). rewrite list_lookup_fmap, lookup_seq_lt by done. done. Qed.
Lemma arr_get n f (i : Z) : 0 <= i < Z.of_nat n -> zget (arr n f) i = Some (f (Z.to_nat i)).
Proof. intros Hi. unfold zget. destruct (Z.ltb_spec i 0); [lia|]. apply arr_lookup. lia. Qed.
Lemma arr_ext n f g : (forall i, (i < n)%nat -> f i = g i) -> arr n f = arr n g.
Proof. intros H. apply map_ext_in. intros i Hi%in_seq. apply H. lia. Qed.
Lemma arr_eq n f l : length l = n -> (forall i, (i < n)%nat -> l !! i = Some (f i)) -> l = arr n f.
Proof.
  intros Hl H. apply list_eq. intros i. destruct (decide (i < n)%nat); [by rewrite H, arr_lookup|]. rewrite !lookup_ge_None_2; [done| |lia].
  unfold arr. rewrite length_map, length_seq. lia.
Qed.
Lemma put_arr n f i x : 0 <= i < Z.of_nat n -> put (arr n f) i x = Ok (arr n (fun j => if decide (j = Z.to_nat i) then x else f j)).
Proof.
  intros Hi. unfold put. rewrite arr_get by done. cbn [or_panic mbind outcome_bind]. f_equal. apply arr_eq.
  - rewrite length_insert. unfold arr. by rewrite length_map, length_seq.
  - intros j Hj. destruct (decide (j = Z.to_nat i)) as [->|Hne].
    + apply list_lookup_insert_eq. unfold arr. by rewrite length_map, length_seq.
    + rewrite list_lookup_insert_ne by done. by apply arr_lookup.
Qed.
Lemma bump_arr n f i : 0 <= i < Z.of_nat n -> bump (arr n f) i = Ok (arr n (fun j => if decide (j = Z.to_nat i) then f j + 1 else f j)).
Proof.
  intros Hi. unfold bump. rewrite arr_get by done. cbn [or_panic mbind outcome_bind]. rewrite put_arr by done. f_equal. apply arr_ext. intros j _. by destruct (decide _) as [->|].
Qed.
Lemma zrep_arr n : zrep (Z.of_nat n) 0 = arr n (fun _ => 0).
Proof. apply arr_eq; [unfold zrep; rewrite length_replicate; lia|]. intros i Hi. unfold zrep. apply lookup_replicate. lia. Qed.

(** ** The canonical code of some lengths *)

(** How many of [p] are [l]; none of length 0 has a code. *)
Fixpoint cnt (p : list Z) (l : nat) : Z :=
  match p with [] => 0 | x :: p => (if (x =? Z.of_nat l) && negb (x =? 0) then 1 else 0) + cnt p l end.
Section Canonical.
Context (F : list Z).
(** The symbols of lengths below [l], and the first code of length [l]. *)
Fixpoint off (l : nat) : Z := match l with O => 0 | S l => off l + cnt F l end.
Fixpoint first (l : nat) : Z := match l with O => 0 | S l => 2 * (first l + cnt F l) end.
Definition len_of (s : nat) : nat := Z.to_nat (nth s F 0).
Definition rank (s : nat) : Z := cnt (take s F) (len_of s).
Definition code (s : nat) : Z := first (len_of s) + rank s.
(** The code is complete or leaves some out: no length has more codes than
    there are. *)
Definition kraft : Prop := first 15 + cnt F 15 <= 2 ^ 15.
End Canonical.

(** The [n] low bits of [c], the most significant first: how a code is sent. *)
Fixpoint msb (n : nat) (c : Z) : list bool := match n with O => [] | S n => Z.testbit c (Z.of_nat n) :: msb n c end.
Definition code_bits (F : list Z) (s : nat) : list bool := msb (len_of F s) (code F s).

Lemma cnt_nonneg p l : 0 <= cnt p l.
Proof. induction p as [|x p IH]; cbn [cnt]; [lia|]. destruct (_ && _); lia. Qed.
Lemma cnt_app p q l : cnt (p ++ q) l = cnt p l + cnt q l.
Proof. induction p as [|x p IH]; cbn [app cnt]; lia. Qed.
Lemma cnt_0 p : cnt p 0 = 0.
Proof. induction p as [|x p IH]; [done|]. cbn [cnt]. rewrite IH. change (Z.of_nat 0) with 0. by destruct (x =? 0). Qed.
Lemma msb_length n c : length (msb n c) = n.
Proof. induction n; cbn; auto. Qed.
Lemma msb_rev n c : msb n c = rev (bits_le n c).
Proof.
  induction n as [|n IH]; [done|]. rewrite <- Nat.add_1_r, bits_le_add, rev_app_distr, <- IH, Nat.add_1_r. cbn [msb bits_le rev app]. f_equal.
  by rewrite <- Z.bit0_odd, Z.shiftr_spec by lia.
Qed.
Lemma reverse_bits_val n c r : 0 <= r -> reverse_bits n c r = val_le (msb n c) + 2 ^ Z.of_nat n * r.
Proof.
  intros Hr. rewrite msb_rev. revert c r Hr. induction n as [|n IH]; intros c r Hr; [cbn [reverse_bits bits_le rev val_le]; lia|].
  cbn [reverse_bits bits_le rev]. rewrite IH by (destruct (Z.odd c); cbn; lia). rewrite val_le_app. unfold zlen. rewrite length_rev, bits_le_length. cbn [val_le].
  rewrite Nat2Z.inj_succ, Z.pow_succ_r by lia. lia.
Qed.
Lemma msb_drop n k c : drop k (msb (k + n) c) = msb n c.
Proof. induction k as [|k IH]; [done|]. by cbn [Nat.add msb skipn]. Qed.
(** [c.reverse_bits() >> (32 - len)] *)
Lemma reversed_code l c : (l <= 32)%nat -> Z.shiftr (reverse_bits 32 c 0) (32 - Z.of_nat l) = val_le (msb l c).
Proof.
  intros Hl. rewrite reverse_bits_val, Z.mul_0_r, Z.add_0_r by lia. rewrite <- (take_drop (32 - l) (msb 32 c)), val_le_app.
  assert (zlen (take (32 - l) (msb 32 c)) = 32 - Z.of_nat l) as Ht by (unfold zlen; rewrite length_take, msb_length; lia).
  rewrite Z.shiftr_div_pow2, Ht by lia. pose proof (val_le_bound (take (32 - l) (msb 32 c))) as Hb. rewrite Ht in Hb. rewrite Z.mul_comm, Z.div_add, Z.div_small by lia.
  replace 32%nat with ((32 - l) + l)%nat at 2 by lia. by rewrite msb_drop.
Qed.

(** ** Lengths, ranks and places *)
Lemma off_cons x p n : 0 <= x -> off (x :: p) n = off p n + (if (0 <? x) && (x <? Z.of_nat n) then 1 else 0).
Proof.
  intros Hx. induction n as [|n IH]; cbn [off cnt].
  - destruct (Z.ltb_spec 0 x), (Z.ltb_spec x (Z.of_nat 0)); cbn; lia.
  - rewrite IH. destruct (Z.eqb_spec x (Z.of_nat n)), (Z.eqb_spec x 0), (Z.ltb_spec 0 x), (Z.ltb_spec x (Z.of_nat n)), (Z.ltb_spec x (Z.of_nat (S n))); cbn; lia.
Qed.
Lemma off_total F n : Forall (fun l => 0 <= l <= 15) F -> off F n <= zlen F.
Proof.
  induction 1 as [|x p Hx Hp IH]; [change (zlen (@nil Z)) with 0; induction n; cbn [off cnt]; lia|]. rewrite off_cons, zlen_cons by lia. destruct (_ && _); lia.
Qed.
Section Places.
Context (F : list Z) (HF : Forall (fun l => 0 <= l <= 15) F) (Hmany : zlen F < 4096).
Lemma off_mono l k : off F l <= off F (l + k).
Proof. induction k as [|k IH]; [by rewrite Nat.add_0_r|]. rewrite Nat.add_succ_r. cbn [off]. pose proof (cnt_nonneg F (l + k)). lia. Qed.
Lemma len_of_small s : (len_of F s <= 15)%nat.
Proof. unfold len_of. destruct (nth_in_or_default s F 0) as [H|H]; [|rewrite H; cbn; lia]. rewrite Forall_forall in HF. apply list_elem_of_In, HF in H. lia. Qed.
Lemma len_of_lookup s l : F !! s = Some l -> len_of F s = Z.to_nat l /\ 0 <= l <= 15.
Proof. intros H. unfold len_of. rewrite (nth_lookup_Some F s 0 l H). split; [done|]. by eapply Forall_lookup_1 in HF. Qed.
Lemma split_at s : (s < length F)%nat -> exists l, F = take s F ++ l :: drop (S s) F /\ F !! s = Some l.
Proof. intros [l Hl]%lookup_lt_is_Some. exists l. split; [by rewrite take_drop_middle|done]. Qed.
Lemma cnt_step p l q : F = p ++ l :: q -> forall k, cnt (p ++ [l]) k = cnt p k + (if bool_decide (k = len_of F (length p)) && negb (l =? 0) then 1 else 0).
Proof.
  intros HF' k. rewrite cnt_app. cbn [cnt]. assert (F !! length p = Some l) as Hl by (rewrite HF'; by apply list_lookup_middle).
  apply len_of_lookup in Hl as [-> Hl]. destruct (Z.eqb_spec l (Z.of_nat k)), (bool_decide_reflect (k = Z.to_nat l)); cbn; lia.
Qed.
Lemma cnt_prefix s : (s < length F)%nat -> (0 < len_of F s)%nat -> cnt (take (S s) F) (len_of F s) = rank F s + 1.
Proof.
  intros Hs Hl. destruct (split_at s Hs) as (l&HF'&Hget). rewrite (take_S_r F s l Hget), (cnt_step (take s F) l (drop (S s) F) HF').
  apply len_of_lookup in Hget as [Hlen ?]. rewrite length_take_le by lia. rewrite bool_decide_true by done. destruct (Z.eqb_spec l 0); [lia|]. done.
Qed.
Lemma cnt_take_mono s s' l : (s <= s')%nat -> cnt (take s F) l <= cnt (take s' F) l.
Proof.
  intros Hs. rewrite <- (take_drop s (take s' F)), take_take, Nat.min_l, cnt_app by done. pose proof (cnt_nonneg (drop s (take s' F)) l). lia.
Qed.
Lemma rank_bound s : (s < length F)%nat -> (0 < len_of F s)%nat -> 0 <= rank F s < cnt F (len_of F s).
Proof.
  intros Hs Hl. split; [apply cnt_nonneg|]. pose proof (cnt_prefix s Hs Hl). pose proof (cnt_take_mono (S s) (length F) (len_of F s) ltac:(lia)) as H1. rewrite (firstn_all F) in H1. lia.
Qed.
Lemma rank_inj s s' : (s < length F)%nat -> (s' < length F)%nat -> (0 < len_of F s)%nat -> len_of F s = len_of F s' -> rank F s = rank F s' -> s = s'.
Proof.
  assert (forall s s', (s < s' < length F)%nat -> (0 < len_of F s)%nat -> len_of F s = len_of F s' -> rank F s < rank F s') as Hlt.
  { intros a b Hab Ha Heq. pose proof (cnt_prefix a ltac:(lia) Ha). pose proof (cnt_take_mono (S a) b (len_of F a) ltac:(lia)). unfold rank in *. rewrite <- Heq. lia. }
  intros Hs Hs' Hl Heq Hr. destruct (Nat.lt_total s s') as [H|[H|H]]; [|done|].
  - pose proof (Hlt s s' ltac:(lia) Hl Heq). lia.
  - pose proof (Hlt s' s ltac:(lia) ltac:(lia) (eq_sym Heq)). lia.
Qed.
(** The place of a symbol among the symbols sorted by code. *)
Definition spot (s : nat) : Z := off F (len_of F s) + rank F s.
Lemma spot_bound s : (s < length F)%nat -> (0 < len_of F s)%nat -> 0 <= spot s < zlen F.
Proof.
  intros Hs Hl. pose proof (rank_bound s Hs Hl). unfold spot. pose proof (off_total F (S (len_of F s)) HF) as H1. cbn [off] in H1. pose proof (off_mono 0 (len_of F s)) as H2. cbn [Nat.add off] in H2. lia.
Qed.
Lemma spot_inj s s' : (s < length F)%nat -> (s' < length F)%nat -> (0 < len_of F s)%nat -> (0 < len_of F s')%nat -> spot s = spot s' -> s = s'.
Proof.
  intros Hs Hs' Hl Hl' Heq. pose proof (rank_bound s Hs Hl). pose proof (rank_bound s' Hs' Hl'). unfold spot in Heq.
  assert (forall a b, (a < b)%nat -> off F a + cnt F a <= off F b) as Hoff.
  { intros a b Hab. replace b with (S a + (b - S a))%nat by lia. pose proof (off_mono (S a) (b - S a)) as H1. cbn [off] in H1. exact H1. }
  destruct (Nat.lt_total (len_of F s) (len_of F s')) as [H1|[H1|H1]].
  - pose proof (Hoff _ _ H1). lia.
  - apply rank_inj; try done. rewrite H1 in Heq. lia.
  - pose proof (Hoff _ _ H1). lia.
Qed.
End Places.

(** ** The tables *)

(** The ten bits of [i] begin with the code of [s]. *)
Definition begins (F : list Z) (s i : nat) : Prop :=
  (0 < len_of F s <= 10)%nat /\ Z.of_nat i mod 2 ^ Z.of_nat (len_of F s) = val_le (code_bits F s).
Definition fast_entry (F : list Z) (n i : nat) (e : Z) : Prop :=
  (e = 0 /\ forall s, (s < n)%nat -> ~ begins F s i) \/ exists s, (s < n)%nat /\ begins F s i /\ e = 16 * Z.of_nat s + Z.of_nat (len_of F s).
(** The tables once the symbols of [p], the first of [F], are placed. *)
Record placed (F p : list Z) (m : Making) : Prop := {
  placed_offs : m_offs m = arr 16 (fun l => off F l + cnt p l);
  placed_next : m_next m = arr 16 (fun l => first F l + cnt p l);
  placed_symbols : exists sym, m_symbols m = arr (length F) sym /\ (forall i, 0 <= sym i) /\
    forall s, (s < length p)%nat -> (0 < len_of F s)%nat -> sym (Z.to_nat (spot F s)) = Z.of_nat s;
  placed_fast : exists f, m_fast m = arr 1024 f /\ forall i, (i < 1024)%nat -> fast_entry F (length p) i (f i)
}.
Record made (F : list Z) (h : Huffman) : Prop := {
  made_counts : h_counts h = arr 16 (cnt F);
  made_symbols : exists sym, h_symbols h = arr (length F) sym /\ (forall i, 0 <= sym i) /\
    forall s, (s < length F)%nat -> (0 < len_of F s)%nat -> sym (Z.to_nat (spot F s)) = Z.of_nat s;
  made_fast : exists f, h_fast h = arr 1024 f /\ forall i, (i < 1024)%nat -> fast_entry F (length F) i (f i)
}.

Lemma fill_fast_spec ks r len e n f : 0 <= len -> 0 <= r < 2 ^ len -> Forall (fun k => 0 <= k /\ r + k * 2 ^ len < Z.of_nat n) ks ->
  fill_fast ks r len e (arr n f) = Ok (arr n (fun i => if existsb (fun k => Z.of_nat i =? r + k * 2 ^ len) ks then e else f i)).
Proof.
  intros Hlen Hr. revert f. induction ks as [|k ks IH]; intros f Hks; [done|]. apply Forall_cons in Hks as [Hk Hks]. cbn [fill_fast existsb].
  rewrite Z.lor_comm, lor_shiftl_add by done. rewrite put_arr by lia. cbn [mbind outcome_bind]. rewrite IH by done. f_equal. apply arr_ext. intros i Hi.
  destruct (existsb _ ks); [by rewrite orb_true_r|]. rewrite orb_false_r. destruct (decide (i = Z.to_nat (k * 2 ^ len + r))), (Z.eqb_spec (Z.of_nat i) (r + k * 2 ^ len)); lia || done.
Qed.
Lemma code_entries len r i n : 0 <= len -> 0 <= r < 2 ^ len -> 0 <= i < n * 2 ^ len ->
  existsb (fun k => i =? r + k * 2 ^ len) (seqZ 0 n) = (i mod 2 ^ len =? r).
Proof.
  intros Hlen Hr Hi. apply eq_iff_eq_true. rewrite existsb_exists, Z.eqb_eq. split.
  - intros (k&_&Hk%Z.eqb_eq). rewrite Hk, Z.mod_add, Z.mod_small by lia. done.
  - intros Hm. pose proof (Z.div_mod i (2 ^ len) ltac:(lia)). exists (i / 2 ^ len). split; [|apply Z.eqb_eq; lia].
    apply list_elem_of_In, elem_of_seqZ. split; [apply Z.div_pos; lia|]. rewrite Z.add_0_l. apply Z.div_lt_upper_bound; lia.
Qed.
(** The entries of one short code. *)
Lemma fill_code l r e f : (0 < l <= 10)%nat -> 0 <= r < 2 ^ Z.of_nat l ->
  fill_fast (seqZ 0 (Z.shiftl 1 (FAST - Z.of_nat l))) r (Z.of_nat l) e (arr 1024 f) = Ok (arr 1024 (fun i => if Z.of_nat i mod 2 ^ Z.of_nat l =? r then e else f i)).
Proof.
  intros Hl Hr. assert (2 ^ (10 - Z.of_nat l) * 2 ^ Z.of_nat l = 1024) as Hp by (rewrite <- Z.pow_add_r by lia; by replace (10 - Z.of_nat l + Z.of_nat l) with 10 by lia).
  rewrite Z.shiftl_1_l. unfold FAST. rewrite fill_fast_spec; [|lia|done|].
  - f_equal. apply arr_ext. intros i Hi. rewrite code_entries by lia. done.
  - apply Forall_forall. intros k Hk%elem_of_seqZ. split; [lia|]. apply Z.lt_le_trans with ((k + 1) * 2 ^ Z.of_nat l); [lia|]. change (Z.of_nat 1024) with 1024. rewrite <- Hp. apply Z.mul_le_mono_nonneg_r; lia.
Qed.

Section Making.
Context (F : list Z) (HF : Forall (fun l => 0 <= l <= 15) F) (Hmany : zlen F < 4096).
Lemma fast_entry_more n i e : fast_entry F n i e -> ~ begins F n i -> fast_entry F (S n) i e.
Proof.
  intros [[He H]|(s&Hs&Hb&He)] Hn; [left|right; exists s; split; [lia|done]]. split; [done|]. intros s Hs. destruct (decide (s = n)) as [->|]; [done|]. apply H. lia.
Qed.
Lemma place_skipped p q m : F = p ++ 0 :: q -> placed F p m -> placed F (p ++ [0]) m.
Proof.
  intros Heq [Ho Hn (sym&Hs&Hpos&Hsym) (f&Hf&Hfast)].
  assert (len_of F (length p) = 0%nat) as H0 by (unfold len_of; rewrite Heq, app_nth2, Nat.sub_diag by lia; done).
  assert (forall k, cnt (p ++ [0]) k = cnt p k) as Hc by (intros k; rewrite cnt_app; cbn [cnt]; rewrite andb_false_r; lia).
  split; [rewrite Ho|rewrite Hn|exists sym|exists f].
  - apply arr_ext. intros k _. by rewrite Hc.
  - apply arr_ext. intros k _. by rewrite Hc.
  - split; [done|]. split; [done|]. intros s Hlt Hl. rewrite length_app in Hlt. cbn in Hlt. apply Hsym; [|done]. destruct (decide (s = length p)) as [->|]; lia.
  - split; [done|]. intros i Hi. rewrite length_app, Nat.add_1_r. apply fast_entry_more; [by apply Hfast|]. intros [? _]. lia.
Qed.
Lemma entry_value s l : 0 <= s < 4096 -> 0 <= l <= 15 -> Z.lor (wrap 16 (Z.shiftl (wrap 16 s) 4)) l = 16 * s + l.
Proof.
  intros Hs Hl. rewrite (wrap_id 16 s) by (unfold fits; lia). rewrite wrap_id by (unfold fits; rewrite Z.shiftl_mul_pow2; lia). rewrite lor_shiftl_add by lia. lia.
Qed.
Lemma place_fast (p : list Z) m l f : (0 < len_of F (length p))%nat -> l = Z.of_nat (len_of F (length p)) -> zlen p < 4096 -> m_fast m = arr 1024 f ->
  (forall i, (i < 1024)%nat -> fast_entry F (length p) i (f i)) ->
  exists f', (if l <=? FAST then
      let r := Z.shiftr (reverse_bits 32 (code F (length p)) 0) (32 - l) in
      fill_fast (seqZ 0 (Z.shiftl 1 (FAST - l))) r l (Z.lor (wrap 16 (Z.shiftl (wrap 16 (zlen p)) 4)) l) (m_fast m)
    else Ok (m_fast m)) = Ok (arr 1024 f') /\ forall i, (i < 1024)%nat -> fast_entry F (S (length p)) i (f' i).
Proof.
  intros Hpos Hl Hp Hm Hfast. pose proof (len_of_small F HF (length p)). pose proof (zlen_nonneg p). rewrite Hm. destruct (Z.leb_spec l FAST) as [Hle|Hgt]; unfold FAST in *.
  - cbv zeta. rewrite Hl, reversed_code by lia. fold (code_bits F (length p)). pose proof (val_le_bound (code_bits F (length p))) as Hb.
    unfold zlen in Hb. unfold code_bits at 3 in Hb. rewrite msb_length in Hb. change 10 with FAST. rewrite fill_code by lia. eexists. split; [done|]. intros i Hi. cbn beta.
    destruct (Z.eqb_spec (Z.of_nat i mod 2 ^ Z.of_nat (len_of F (length p))) (val_le (code_bits F (length p)))) as [Heq|Hne].
    + right. exists (length p). split; [lia|]. split; [split; [lia|done]|]. rewrite entry_value by lia. done.
    + apply fast_entry_more; [by apply Hfast|]. intros [_ ?]. done.
  - exists f. split; [done|]. intros i Hi. apply fast_entry_more; [by apply Hfast|]. intros [? _]. lia.
Qed.
Lemma place_step p l q m : F = p ++ l :: q -> placed F p m -> exists m', place m (zlen p) l = Ok m' /\ placed F (p ++ [l]) m'.
Proof.
  intros Heq Hm. unfold place. destruct (Z.eqb_spec l 0) as [->|Hl0]; [exists m; split; [done|]; by eapply place_skipped|].
  assert (F !! length p = Some l) as Hget by (rewrite Heq; by apply list_lookup_middle). destruct (len_of_lookup F HF _ _ Hget) as [Hlen Hl]. pose proof (lookup_lt_Some _ _ _ Hget) as Hlt.
  assert (rank F (length p) = cnt p (len_of F (length p))) as Hrank by (unfold rank; rewrite Heq at 1; by rewrite take_app_length).
  destruct Hm as [Ho Hn (sym&Hs&Hpos&Hsym) (f&Hf&Hfast)]. destruct (place_fast p m l f) as (f'&Hfill&Hfast'); [lia|lia|unfold zlen in *; lia|done|done|].
  assert (first F (Z.to_nat l) + cnt p (Z.to_nat l) = code F (length p)) as Hcode by (unfold code; rewrite Hrank; by rewrite Hlen).
  pose proof (spot_bound F HF (length p) Hlt ltac:(lia)) as Hspot. unfold spot in Hspot. rewrite Hrank, Hlen in Hspot.
  rewrite Ho, Hn, Hs, !arr_get by lia. cbn [or_panic mbind outcome_bind]. rewrite put_arr by (unfold zlen in *; lia). cbn [mbind outcome_bind]. rewrite !bump_arr by lia. cbn [mbind outcome_bind].
  cbv zeta in Hfill. rewrite Hcode, Hfill. cbn [mbind outcome_bind]. eexists. split; [done|].
  assert (forall g k, (if decide (k = Z.to_nat l) then g k + cnt p k + 1 else g k + cnt p k) = g k + cnt (p ++ [l]) k) as Hcnt.
  { intros g k. rewrite (cnt_step F HF p l q Heq), Hlen. destruct (Z.eqb_spec l 0); [lia|]. rewrite andb_true_r. destruct (decide _), (bool_decide_reflect (k = Z.to_nat l)); lia || done. }
  assert (length (p ++ [l]) = S (length p)) as Hlenp by (rewrite length_app; cbn; lia).
  split; cbn [m_offs m_next m_symbols m_fast].
  - apply arr_ext. intros k _. apply Hcnt.
  - apply arr_ext. intros k _. apply Hcnt.
  - eexists. split; [done|]. rewrite (wrap_id 16) by (unfold fits, zlen in *; pose proof (zlen_nonneg p); lia). cbn beta. split.
    + intros i. destruct (decide _); [apply zlen_nonneg|apply Hpos].
    + intros s Hs' Hls. rewrite Hlenp in Hs'. destruct (decide _) as [He|Hne].
      * unfold zlen. f_equal. symmetry. apply (spot_inj F HF); try lia. pose proof (spot_bound F HF s ltac:(lia) Hls). unfold spot at 2. rewrite Hrank, Hlen. lia.
      * apply Hsym; [|done]. destruct (decide (s = length p)) as [->|]; [|lia]. exfalso. apply Hne. unfold spot. by rewrite Hrank, Hlen.
  - exists f'. split; [done|]. by rewrite Hlenp.
Qed.
Lemma place_all_spec q p m : F = p ++ q -> placed F p m -> exists m', place_all (zlen p) q m = Ok m' /\ placed F F m'.
Proof.
  revert p m. induction q as [|l q IH]; intros p m Heq Hm; [exists m; rewrite app_nil_r in Heq; by subst p|].
  destruct (place_step p l q m Heq Hm) as (m1&H1&Hm1). cbn [place_all]. rewrite H1. cbn [mbind outcome_bind].
  replace (zlen p + 1) with (zlen (p ++ [l])) by (rewrite zlen_app; done). apply IH; [|done]. by rewrite <- app_assoc.
Qed.
End Making.

Lemma count_lengths_spec p f : Forall (fun l => 0 <= l <= 15) p ->
  exists g, count_lengths p (arr 16 f) = Ok (arr 16 g) /\ forall l, (0 < l)%nat -> g l = f l + cnt p l.
Proof.
  intros Hp. revert f. induction Hp as [|x p Hx Hp IH]; intros f; [exists f; split; [done|]; intros; cbn; lia|]. cbn [count_lengths]. rewrite bump_arr by lia. cbn [mbind outcome_bind].
  destruct (IH (fun j => if decide (j = Z.to_nat x) then f j + 1 else f j)) as (g&Hg&Hl). exists g. split; [done|]. intros l Hpos. rewrite Hl by done. cbn [cnt].
  destruct (decide (l = Z.to_nat x)), (Z.eqb_spec x (Z.of_nat l)), (Z.eqb_spec x 0); cbn; lia.
Qed.
Lemma offs_from_spec F n a : offs_from (off F a) (map (cnt F) (seq a n)) = map (off F) (seq a n).
Proof. revert a. induction n as [|n IH]; intros a; [done|]. cbn [seq map offs_from]. f_equal. apply (IH (S a)). Qed.
Lemma next_from_spec F n a : next_from (first F a) (map (cnt F) (seq a n)) = map (first F) (seq (S a) n).
Proof.
  revert a. induction n as [|n IH]; intros a; [done|]. cbn [seq map next_from]. cbv zeta. replace (Z.shiftl (first F a + cnt F a) 1) with (first F (S a)) by (rewrite Z.shiftl_mul_pow2; cbn [first]; lia).
  f_equal. apply (IH (S a)).
Qed.
(** [Huffman::new] makes the tables of the canonical code, whatever the
    lengths. *)
Lemma huffman_new_spec F : Forall (fun l => 0 <= l <= 15) F -> zlen F < 4096 -> exists h, huffman_new F = Ok h /\ made F h.
Proof.
  intros HF Hmany. unfold huffman_new. change (zrep 16 0) with (zrep (Z.of_nat 16) 0). rewrite zrep_arr. destruct (count_lengths_spec F (fun _ => 0) HF) as (g&Hg&Hcnt).
  rewrite Hg. cbn [mbind outcome_bind]. rewrite put_arr by lia. cbn [mbind outcome_bind].
  rewrite (arr_ext 16 _ (cnt F)) by (intros l Hl; destruct (decide _) as [->|]; [cbn; by rewrite cnt_0|apply Hcnt; lia]).
  assert (offs_from 0 (arr 16 (cnt F)) = arr 16 (off F)) as -> by exact (offs_from_spec F 16 0).
  assert (0 :: next_from 0 (ztake 15 (arr 16 (cnt F))) = arr 16 (first F)) as -> by (change (0 :: next_from (first F 0) (map (cnt F) (seq 0 15)) = arr 16 (first F)); by rewrite next_from_spec).
  edestruct (place_all_spec F HF Hmany F [] (mkMaking (arr 16 (off F)) (zrep (zlen F) 0) (arr 16 (first F)) (zrep (Z.shiftl 1 FAST) 0)) eq_refl) as (m&Hm&Hp).
  - split; cbn [m_offs m_next m_symbols m_fast].
    + apply arr_ext. intros. cbn [cnt]. lia.
    + apply arr_ext. intros. cbn [cnt]. lia.
    + exists (fun _ => 0). unfold zlen. rewrite zrep_arr. split; [done|]. split; [done|]. intros s Hs. cbn in Hs. lia.
    + exists (fun _ => 0). change (Z.shiftl 1 FAST) with (Z.of_nat 1024). rewrite zrep_arr. split; [done|]. intros i _. left. split; [done|]. intros s Hs. cbn in Hs. lia.
  - change (zlen (@nil Z)) with 0 in Hm. rewrite Hm. cbn [mbind outcome_bind]. eexists. split; [done|]. destruct Hp as [_ _ Hs Hf]. by split.
Qed.

(** ** Decoding *)
Lemma bits_skip_spec d k b : reads d b -> 0 <= k ->
  match skip k b with
  | Ok b' => reads d b' /\ stream b = take (Z.to_nat k) (stream b) ++ stream b' /\ zlen (stream b) = k + zlen (stream b')
  | Err _ => b_n b < k
  | Panic => False
  end.
Proof.
  intros H Hk. unfold skip. destruct (Z.ltb_spec (b_n b) k); [lia|]. pose proof (stream_split d b k H ltac:(lia)) as Hs. split; [apply skipped_reads; [done|lia]|].
  split; [rewrite Hs at 2; rewrite take_app_length' by (by rewrite bits_le_length); done|]. rewrite Hs, zlen_app. unfold zlen at 1. rewrite bits_le_length. lia.
Qed.
Lemma peek_index b k v b' d : reads d b -> 0 <= k <= 57 -> peek k b = (v, b') -> 0 <= v < 2 ^ k.
Proof.
  intros H Hk Hp. pose proof (peek_spec d k b H Hk) as Hs. rewrite Hp in Hs. destruct Hs as (_&_&->&_). pose proof (val_le_bound (take (Z.to_nat k) (stream b))) as Hb. split; [lia|].
  apply Z.lt_le_trans with (2 ^ zlen (take (Z.to_nat k) (stream b))); [lia|]. apply Z.pow_le_mono_r; [lia|]. unfold zlen. rewrite length_take. lia.
Qed.
Lemma fast_parts s l : 0 <= s -> 0 <= l <= 15 -> Z.land (16 * s + l) 15 = l /\ Z.shiftr (16 * s + l) 4 = s.
Proof.
  intros Hs Hl. change 15 with (Z.ones 4) at 1. rewrite Z.land_ones, Z.shiftr_div_pow2 by lia. change (2 ^ 4) with 16.
  rewrite (Z.mul_comm 16), Z.add_comm, Z.mod_add, Z.div_add, Z.mod_small, Z.div_small by lia. done.
Qed.
Lemma lor_bit c x : 0 <= x < 2 -> Z.lor (Z.shiftl c 1) x = 2 * c + x.
Proof. intros Hx. rewrite lor_shiftl_add by lia. lia. Qed.

Section Decode.
Context (F : list Z) (HF : Forall (fun l => 0 <= l <= 15) F) (h : Huffman) (Hh : made F h) (d : Z).
(** Decoding takes at least a bit, and never panics. *)
Lemma decode_from_safe n l c f b : (l + n = 16)%nat -> reads d b -> 0 <= f <= 2 * c ->
  match decode_from n h (Z.of_nat l) (Z.shiftl c 1) f (off F l) b with
  | Ok (s, b') => reads d b' /\ zlen (stream b') < zlen (stream b) /\ 0 <= s
  | Err _ => True
  | Panic => False
  end.
Proof.
  revert l c f b. induction n as [|n IH]; intros l c f b Hn Hb Hf; [done|]. cbn [decode_from]. pose proof (take_bits_spec d 1 b Hb ltac:(lia)) as Ht.
  destruct (take_bits 1 b) as [[x b1]| |]; [|done|done]. destruct Ht as (Hb1&Hs&Hx). unfold fits in Hx. cbn [mbind outcome_bind]. rewrite lor_bit by lia.
  assert (zlen (stream b1) < zlen (stream b)) as Hlt by (rewrite Hs, zlen_app; unfold zlen at 2; rewrite bits_le_length; lia).
  rewrite (made_counts _ _ Hh), arr_get, Nat2Z.id by lia. cbn [or_panic mbind outcome_bind]. destruct (made_symbols _ _ Hh) as (sym&Hsym&Hpos&_). pose proof (cnt_nonneg F l).
  destruct (Z.ltb_spec (2 * c + x - cnt F l) f).
  - rewrite Hsym, arr_get; [done|]. pose proof (off_total F (S l) HF) as Ht. cbn [off] in Ht. pose proof (off_mono F 0 l) as Hm. cbn [Nat.add off] in Hm. unfold zlen in Ht. lia.
  - replace (Z.of_nat l + 1) with (Z.of_nat (S l)) by lia. change (off F l + cnt F l) with (off F (S l)).
    specialize (IH (S l) (2 * c + x) (Z.shiftl (f + cnt F l) 1) b1 ltac:(lia) Hb1 ltac:(rewrite Z.shiftl_mul_pow2 by lia; lia)).
    destruct (decode_from _ _ _ _ _ _ _) as [[s b2]| |]; [|done|done]. destruct IH as (?&?&?). split; [done|]. lia.
Qed.
Lemma decode_safe b : reads d b -> match decode h b with Ok (s, b') => reads d b' /\ zlen (stream b') < zlen (stream b) /\ 0 <= s | Err _ => True | Panic => False end.
Proof.
  intros Hb. unfold decode. pose proof (peek_spec d FAST b Hb ltac:(unfold FAST; lia)) as Hp. destruct (peek FAST b) as [i b1] eqn:Hpeek. destruct Hp as (Hb1&Hs&_&_).
  apply (peek_index b FAST i b1 d Hb ltac:(unfold FAST; lia)) in Hpeek. unfold FAST in Hpeek. change (2 ^ 10) with 1024 in Hpeek.
  destruct (made_fast _ _ Hh) as (f&->&Hf). rewrite arr_get by lia. cbn [or_panic mbind outcome_bind]. destruct (Hf (Z.to_nat i) ltac:(lia)) as [[-> _]|(s&Hlt&[Hl _]&->)].
  - cbn [Z.eqb negb]. pose proof (decode_from_safe 15 1 0 0 b1 eq_refl Hb1 ltac:(lia)) as H. change (off F 1) with (0 + cnt F 0) in H. rewrite cnt_0, Hs in H. exact H.
  - destruct (Z.eqb_spec (16 * Z.of_nat s + Z.of_nat (len_of F s)) 0); [lia|]. cbn [negb]. destruct (fast_parts (Z.of_nat s) (Z.of_nat (len_of F s))) as [-> ->]; [lia|lia|].
    pose proof (bits_skip_spec d (Z.of_nat (len_of F s)) b1 Hb1 ltac:(lia)) as H. destruct (skip _ b1) as [b2| |]; [|done|done]. cbn [mbind outcome_bind]. destruct H as (?&_&H). rewrite Hs in H. split; [done|]. lia.
Qed.
End Decode.

(** ** No code begins another *)
Lemma msb_take n k c : take n (msb (n + k) c) = msb n (Z.shiftr c (Z.of_nat k)).
Proof.
  induction n as [|n IH]; [done|]. cbn [Nat.add msb firstn]. f_equal; [|done]. rewrite Z.shiftr_spec by lia. f_equal. lia.
Qed.
Lemma msb_inj n a b : fits (Z.of_nat n) a -> fits (Z.of_nat n) b -> msb n a = msb n b -> a = b.
Proof. intros Ha Hb H. rewrite !msb_rev in H. apply rev_inj in H. rewrite <- (val_bits n a), <- (val_bits n b) by done. by rewrite H. Qed.
Lemma val_le_inj l k : length l = length k -> val_le l = val_le k -> l = k.
Proof. intros Hl Hv. rewrite <- (bits_val l), <- (bits_val k). by rewrite Hl, Hv. Qed.
Lemma val_le_pad l n : val_le (l ++ replicate n false) = val_le l.
Proof. rewrite val_le_app. assert (val_le (replicate n false) = 0) as -> by (induction n; cbn [replicate val_le Z.b2z]; lia). lia. Qed.
Lemma val_le_take n l : (n <= length l)%nat -> val_le l mod 2 ^ Z.of_nat n = val_le (take n l).
Proof.
  intros Hn. rewrite <- (take_drop n l) at 1. rewrite val_le_app. assert (zlen (take n l) = Z.of_nat n) as H by (unfold zlen; rewrite length_take; lia).
  pose proof (val_le_bound (take n l)) as Hb. rewrite H in *. rewrite Z.mul_comm, Z.mod_add, Z.mod_small by lia. done.
Qed.
Lemma first_grows F l k : (first F l + cnt F l) * 2 ^ Z.of_nat (S k) <= first F (l + S k).
Proof.
  induction k as [|k IH]; [rewrite Nat.add_1_r; cbn [first]; lia|]. rewrite (Nat.add_succ_r l (S k)), Nat2Z.inj_succ, Z.pow_succ_r by lia. cbn [first]. pose proof (cnt_nonneg F (l + S k)). lia.
Qed.
Lemma first_nonneg F l : 0 <= first F l.
Proof. induction l as [|l IH]; cbn [first]; [lia|]. pose proof (cnt_nonneg F l). lia. Qed.

Section Prefix.
Context (F : list Z) (HF : Forall (fun l => 0 <= l <= 15) F) (Hkraft : kraft F).
Lemma first_fits l : (l <= 15)%nat -> first F l + cnt F l <= 2 ^ Z.of_nat l.
Proof.
  intros Hl. unfold kraft in Hkraft. destruct (decide (l = 15%nat)) as [->|Hne]; [done|]. pose proof (first_grows F l (14 - l)) as H. replace (l + S (14 - l))%nat with 15%nat in H by lia.
  pose proof (cnt_nonneg F 15). assert (2 ^ 15 = 2 ^ Z.of_nat l * 2 ^ Z.of_nat (S (14 - l))) as Hp by (rewrite <- Z.pow_add_r by lia; f_equal; lia).
  apply Z.mul_le_mono_pos_r with (2 ^ Z.of_nat (S (14 - l))); lia.
Qed.
Definition symbol (s : nat) : Prop := (s < length F)%nat /\ (0 < len_of F s)%nat.
Lemma code_fits s : symbol s -> fits (Z.of_nat (len_of F s)) (code F s).
Proof.
  intros [Hs Hl]. pose proof (rank_bound F HF s Hs Hl). pose proof (first_nonneg F (len_of F s)). pose proof (first_fits (len_of F s) (len_of_small F HF s)). unfold fits, code. lia.
Qed.
Lemma code_prefix s l k : symbol s -> (l + S k = len_of F s)%nat -> first F l + cnt F l <= Z.shiftr (code F s) (Z.of_nat (S k)).
Proof.
  intros [Hs Hl] Hk. rewrite Z.shiftr_div_pow2 by lia. apply Z.div_le_lower_bound; [lia|]. pose proof (rank_bound F HF s Hs Hl). pose proof (first_grows F l k). unfold code. rewrite <- Hk in *. lia.
Qed.
Lemma prefix_free s s' w w' : symbol s -> symbol s' -> code_bits F s ++ w = code_bits F s' ++ w' -> s = s'.
Proof.
  assert (forall s s' w w', symbol s -> symbol s' -> (len_of F s <= len_of F s')%nat -> code_bits F s ++ w = code_bits F s' ++ w' -> s = s') as Hle.
  { clear s s' w w'. intros s s' w w' Hs Hs' Hlen Heq. pose proof (code_fits s Hs) as Hf. pose proof (code_fits s' Hs') as Hf'.
    apply (f_equal (take (len_of F s))) in Heq. rewrite take_app_length' in Heq by (by unfold code_bits; rewrite msb_length). rewrite take_app_le in Heq by (unfold code_bits; rewrite msb_length; lia).
    unfold code_bits in Heq. set (k := (len_of F s' - len_of F s)%nat). replace (len_of F s') with (len_of F s + k)%nat in Heq by lia. rewrite msb_take in Heq.
    apply msb_inj in Heq; [|done|].
    - unfold k in Heq. destruct (len_of F s' - len_of F s)%nat as [|j] eqn:Hj.
      + change (Z.of_nat 0) with 0 in Heq. rewrite Z.shiftr_0_r in Heq. assert (len_of F s = len_of F s') as Hll by lia. destruct Hs, Hs'. apply (rank_inj F HF); try done. unfold code in Heq. rewrite Hll in Heq. lia.
      + exfalso. pose proof (code_prefix s' (len_of F s) j Hs' ltac:(lia)). destruct Hs as [Hs1 Hs2]. pose proof (rank_bound F HF s Hs1 Hs2). unfold code in Heq at 1. lia.
    - unfold fits in *. rewrite Z.shiftr_div_pow2 by lia. split; [apply Z.div_pos; lia|]. apply Z.div_lt_upper_bound; [lia|]. rewrite <- Z.pow_add_r by lia. unfold k.
      replace (Z.of_nat (len_of F s' - len_of F s) + Z.of_nat (len_of F s)) with (Z.of_nat (len_of F s')) by lia. lia. }
  intros Hs Hs' Heq. destruct (Nat.le_ge_cases (len_of F s) (len_of F s')) as [H|H]; [by eapply Hle|]. symmetry. by eapply Hle.
Qed.
Lemma begins_code s i v : begins F s i -> length v = 10%nat -> Z.of_nat i = val_le v -> exists r, v = code_bits F s ++ r.
Proof.
  intros [Hl Hm] Hv Hi. exists (drop (len_of F s) v). rewrite <- (take_drop (len_of F s) v) at 1. f_equal. rewrite Hi, val_le_take in Hm by lia.
  apply val_le_inj; [|done]. unfold code_bits. rewrite length_take, msb_length. lia.
Qed.

Context (h : Huffman) (Hh : made F h) (d : Z).
Lemma decode_from_back n s m l b r : symbol s -> (l + m = len_of F s)%nat -> (l + n = 16)%nat -> reads d b -> stream b = msb (S m) (code F s) ++ r ->
  exists b', decode_from n h (Z.of_nat l) (Z.shiftl (Z.shiftr (code F s) (Z.of_nat (S m))) 1) (first F l) (off F l) b = Ok (Z.of_nat s, b') /\ reads d b' /\ stream b' = r.
Proof.
  intros Hs. revert m l b. induction n as [|n IH]; intros m l b Hm Hn Hb Hst; [pose proof (len_of_small F HF s); lia|]. cbn [decode_from].
  set (x := Z.b2z (Z.testbit (code F s) (Z.of_nat m))). assert (fits 1 x) as Hx by (unfold x, fits; destruct (Z.testbit _ _); cbn; lia).
  destruct (take_bits_back d 1 x (msb m (code F s) ++ r) b) as (b1&->&Hb1&Hs1); [done|lia|done|rewrite Hst; cbn [msb]; unfold x; by destruct (Z.testbit _ _)|].
  cbn [mbind outcome_bind]. rewrite lor_bit by done. rewrite (made_counts _ _ Hh), arr_get, Nat2Z.id by lia. cbn [or_panic mbind outcome_bind].
  assert (2 * Z.shiftr (code F s) (Z.of_nat (S m)) + x = Z.shiftr (code F s) (Z.of_nat m)) as ->.
  { rewrite Nat2Z.inj_succ, <- Z.add_1_r, <- Z.shiftr_shiftr, <- Z.div2_spec by lia. unfold x. rewrite (Z.div2_odd (Z.shiftr (code F s) (Z.of_nat m))) at 2. f_equal.
    rewrite <- Z.bit0_odd, Z.shiftr_spec by lia. done. }
  destruct m as [|m].
  - rewrite Nat.add_0_r in Hm. change (Z.of_nat 0) with 0. rewrite Z.shiftr_0_r. destruct Hs as [Hs0 Hs2]. pose proof (rank_bound F HF s Hs0 Hs2). unfold code. rewrite Hm.
    destruct (Z.ltb_spec (first F (len_of F s) + rank F s - cnt F (len_of F s)) (first F (len_of F s))); [|lia]. destruct (made_symbols _ _ Hh) as (sym&->&_&Hsym).
    replace (off F (len_of F s) + (first F (len_of F s) + rank F s) - first F (len_of F s)) with (spot F s) by (unfold spot; lia). pose proof (spot_bound F HF s Hs0 Hs2) as Hsp.
    rewrite arr_get by done. cbn [or_panic mbind outcome_bind]. rewrite Hsym by done. by exists b1.
  - pose proof (code_prefix s l m Hs Hm). destruct (Z.ltb_spec (Z.shiftr (code F s) (Z.of_nat (S m)) - cnt F l) (first F l)); [lia|].
    replace (Z.of_nat l + 1) with (Z.of_nat (S l)) by lia. change (off F l + cnt F l) with (off F (S l)).
    replace (Z.shiftl (first F l + cnt F l) 1) with (first F (S l)) by (rewrite Z.shiftl_mul_pow2 by lia; cbn [first]; lia). apply (IH m (S l)); (lia || done).
Qed.
(** The bits of a symbol's code are read as that symbol, through the table or
    bit by bit, whatever follows. *)
Lemma decode_back s r b : symbol s -> reads d b -> stream b = code_bits F s ++ r -> exists b', decode h b = Ok (Z.of_nat s, b') /\ reads d b' /\ stream b' = r.
Proof.
  intros Hs Hb Hst. unfold decode. pose proof (peek_spec d FAST b Hb ltac:(unfold FAST; lia)) as Hp. destruct (peek FAST b) as [i b1] eqn:Hpeek. destruct Hp as (Hb1&Hs1&Hi&Hn).
  apply (peek_index b FAST i b1 d Hb ltac:(unfold FAST; lia)) in Hpeek. unfold FAST in *. change (2 ^ 10) with 1024 in Hpeek. change (Z.to_nat 10) with 10%nat in Hi.
  set (v := take 10 (stream b ++ replicate 10 false)). assert (length v = 10%nat) as Hv by (unfold v; rewrite length_take, length_app, length_replicate; lia).
  assert (i = val_le v) as Hiv by (unfold v; rewrite take_app, val_le_app, take_replicate, <- (Z.add_0_r i), Hi; f_equal; rewrite <- (app_nil_l (replicate _ false)), val_le_pad; cbn [val_le]; lia).
  destruct (made_fast _ _ Hh) as (f&->&Hf). rewrite arr_get by lia. cbn [or_panic mbind outcome_bind].
  assert (forall s', (s' < length F)%nat -> begins F s' (Z.to_nat i) -> s' = s) as Huniq.
  { intros s' Hs' Hbeg. destruct (begins_code s' (Z.to_nat i) v Hbeg Hv ltac:(lia)) as [w Hw]. destruct Hbeg as [Hl _].
    apply (prefix_free s' s (w ++ drop 10 (stream b ++ replicate 10 false)) (r ++ replicate 10 false)); [split; [done|lia]|done|]. rewrite !app_assoc, <- Hw, <- Hst. apply take_drop. }
  destruct (Hf (Z.to_nat i) ltac:(lia)) as [[-> Hno]|(s'&Hlt&Hbeg&->)].
  - cbn [Z.eqb negb]. destruct Hs as [Hs0 Hs2]. destruct (decode_from_back 15 s (len_of F s - 1) 1 b1 r) as (b'&Hd&Hb'); [done|lia|lia|done|rewrite Hs1, Hst; unfold code_bits; do 2 f_equal; lia|].
    change (first F 1) with (2 * (0 + cnt F 0)) in Hd. change (off F 1) with (0 + cnt F 0) in Hd. rewrite cnt_0 in Hd. change (2 * (0 + 0)) with 0 in Hd. change (0 + 0) with 0 in Hd.
    pose proof (code_fits s (conj Hs0 Hs2)) as Hfit. unfold fits in Hfit. replace (Z.of_nat (S (len_of F s - 1))) with (Z.of_nat (len_of F s)) in Hd by lia.
    rewrite (Z.shiftr_div_pow2 (code F s)), Z.div_small in Hd by lia. change (Z.shiftl 0 1) with 0 in Hd. by exists b'.
  - pose proof (Huniq s' Hlt Hbeg) as ->. destruct Hbeg as [Hl _]. destruct (Z.eqb_spec (16 * Z.of_nat s + Z.of_nat (len_of F s)) 0); [lia|]. cbn [negb].
    destruct (fast_parts (Z.of_nat s) (Z.of_nat (len_of F s))) as [-> ->]; [lia|lia|]. pose proof (bits_skip_spec d (Z.of_nat (len_of F s)) b1 Hb1 ltac:(lia)) as H.
    pose proof (reads_n _ _ Hb1). pose proof (stream_zlen b1 ltac:(lia)) as Hz. destruct (skip _ b1) as [b2|e|]; cbn [mbind outcome_bind].
    + destruct H as (H1&H2&_). exists b2. split; [done|]. split; [done|]. rewrite Hs1, Hst, Nat2Z.id in H2. rewrite take_app_length' in H2 by (unfold code_bits; by rewrite msb_length).
      by apply app_inv_head in H2.
    + exfalso. assert (Z.of_nat (len_of F s) <= zlen (stream b)) as Hle by (rewrite Hst, zlen_app; unfold zlen, code_bits; rewrite msb_length; lia). destruct Hn as [Hn|[? Hn]]; lia.
    + done.
Qed.
End Prefix.
