(* ===== verification/Deflate.v ===== *)
(** * Deflate blocks and the zlib stream ([media/inflate.rs])

    Any bytes are read as a zlib stream or refused: no index is out of range,
    no sum overflows and every loop ends. And what RFC 1951 says a sequence of
    blocks means is what [zlib] reads from their bits. *)
From S2P Require Import Prelude Bytes Inflate BitStream Huffman.

(** ** Reading never panics *)

(** Reading from [b] leaves a reader of no more bits, and a value [P] holds
    of; or it fails. *)
Definition safely {A} (d : Z) (b : Bits) (P : A -> Prop) (m : result (A * Bits)) : Prop :=
  match m with Ok (x, b') => reads d b' /\ zlen (stream b') <= zlen (stream b) /\ P x | Err _ => True | Panic => False end.
Lemma safely_bind {A B} d b (P : A -> Prop) (Q : B -> Prop) (m : result (A * Bits)) (k : A * Bits -> result (B * Bits)) :
  safely d b P m -> (forall x b', reads d b' -> zlen (stream b') <= zlen (stream b) -> P x -> safely d b' Q (k (x, b'))) -> safely d b Q (m ≫= k).
Proof.
  intros Hm Hk. destruct m as [[x b']| |]; [|done|done]. destruct Hm as (Hb&Hl&Hx). cbn [mbind outcome_bind]. specialize (Hk x b' Hb Hl Hx). unfold safely in *.
  destruct (k (x, b')) as [[y b2]| |]; [|done|done]. destruct Hk as (?&?&?). split; [done|]. split; [lia|done].
Qed.
Lemma safely_weaken {A} d b b' (P : A -> Prop) m : zlen (stream b') <= zlen (stream b) -> safely d b' P m -> safely d b P m.
Proof. unfold safely. destruct m as [[x b2]| |]; [|done|done]. intros ? (?&?&?). split; [done|]. split; [lia|done]. Qed.
Lemma take_bits_safely d k b : reads d b -> 0 <= k <= 57 -> safely d b (fits k) (take_bits k b).
Proof.
  intros Hb Hk. pose proof (take_bits_spec d k b Hb Hk) as H. unfold safely. destruct (take_bits k b) as [[v b']| |]; [|done|done]. destruct H as (?&->&?). rewrite zlen_app.
  split; [done|]. split; [|done]. pose proof (zlen_nonneg (bits_le (Z.to_nat k) v)). lia.
Qed.
Lemma decode_safely d F h b : Forall (fun l => 0 <= l <= 15) F -> made F h -> reads d b -> safely d b (fun s => 0 <= s) (decode h b).
Proof.
  intros HF Hh Hb. pose proof (decode_safe F HF h Hh d b Hb) as H. unfold safely. destruct (decode h b) as [[s b']| |]; [|done|done]. destruct H as (?&?&?). split; [done|]. split; [lia|done].
Qed.
Ltac takes := eapply safely_bind; [apply take_bits_safely; [eassumption|cbn; lia]|intros ? ? ? ? ?].

Lemma stored_bytes_safely d n b out : reads d b -> bytes_ok out -> safely d b bytes_ok (stored_bytes n b out).
Proof.
  revert b out. induction n as [|n IH]; intros b out Hb Hout; [done|]. cbn [stored_bytes]. takes. apply IH; [done|]. apply Forall_app. split; [done|]. by apply Forall_singleton.
Qed.
Lemma stored_safely d b out : reads d b -> bytes_ok out -> safely d b bytes_ok (stored b out).
Proof.
  intros Hb Hout. unfold stored. pose proof (reads_n _ _ Hb). pose proof (Z.mod_pos_bound (b_n b) 8 ltac:(lia)). pose proof (bits_skip_spec d (b_n b mod 8) b Hb ltac:(lia)) as Hs.
  destruct (skip _ b) as [b1| |]; [|done|done]. destruct Hs as (Hb1&_&Hl). cbn [mbind outcome_bind].
  assert (safely d b1 bytes_ok ('(len, b) ← take_bits 16 b1; '(nlen, b) ← take_bits 16 b;
    if negb (len =? Z.land (Z.lxor nlen (Z.ones 32)) 0xffff) then Err (bad "a stored deflate block has a bad length") else stored_bytes (Z.to_nat len) b out)) as Hk.
  { takes. takes. destruct (negb _); [done|]. by apply stored_bytes_safely. }
  apply (safely_weaken d b b1); [lia|done].
Qed.

Abbreviation small := (Forall (fun l => 0 <= l <= 15)).
Lemma length_of_safely d b s lengths : reads d b -> 0 <= s -> small lengths ->
  match length_of b s (last lengths) with
  | Ok (n, v, b') => reads d b' /\ zlen (stream b') <= zlen (stream b) /\ 1 <= n /\ 0 <= v <= 15
  | Err _ => True
  | Panic => False
  end.
Proof.
  intros Hb Hs Hl. unfold length_of. destruct (Z.leb_spec s 15); [split; [done|lia]|].
  assert (forall k n v, 0 <= k <= 57 -> 1 <= n -> (forall x, v = Some x -> 0 <= x <= 15) ->
    match '(x, b) ← take_bits k b; v ← ok_or v (bad "a deflate length repeats nothing"); Ok (n + x, v, b) with
    | Ok (n, v, b') => reads d b' /\ zlen (stream b') <= zlen (stream b) /\ 1 <= n /\ 0 <= v <= 15 | Err _ => True | Panic => False end) as Hrun.
  { intros k n v Hk Hn Hv. pose proof (take_bits_safely d k b Hb Hk) as Ht. destruct (take_bits k b) as [[x b1]| |]; [|done|done]. destruct Ht as (?&?&Hx). unfold fits in Hx.
    destruct v as [v|]; [|done]. cbn. specialize (Hv v eq_refl). split; [done|]. lia. }
  destruct (Z.eqb_spec s 16); [|destruct (Z.eqb_spec s 17)].
  - apply Hrun; [lia|lia|]. intros x Hx%last_Some_elem_of. rewrite Forall_forall in Hl. by apply Hl.
  - apply (Hrun 3 3 (Some 0)); [lia|lia|]. intros x [= <-]. lia.
  - apply (Hrun 7 11 (Some 0)); [lia|lia|]. intros x [= <-]. lia.
Qed.
Lemma put_len l i x l' : put l i x = Ok l' -> zlen l' = zlen l.
Proof. unfold put. intros (y&_&[= <-])%bind_Ok. unfold zlen. by rewrite length_insert. Qed.
Lemma code_lengths_safely d order cl b : reads d b -> small cl -> Forall (fun i => 0 <= i < zlen cl) order -> safely d b (fun cl' => small cl' /\ zlen cl' = zlen cl) (code_lengths order cl b).
Proof.
  revert cl b. induction order as [|i order IH]; intros cl b Hb Hcl Ho; [done|]. apply Forall_cons in Ho as [Hi Ho]. cbn [code_lengths]. eapply safely_bind; [by apply take_bits_safely|].
  intros x b' Hb' Hlt Hx. unfold put. destruct (zget_is_Some cl i Hi) as [y Hy]. rewrite Hy. cbn [or_panic mbind outcome_bind].
  assert (zlen (<[Z.to_nat i := x]> cl) = zlen cl) as Hlen by (unfold zlen; by rewrite length_insert). rewrite <- Hlen. apply IH; [done| |by rewrite Hlen].
  apply Forall_insert; [done|]. unfold fits in Hx. lia.
Qed.
Lemma read_lengths_S fuel code total lengths b : read_lengths (S fuel) code total lengths b =
  if zlen lengths <? total then '(s, b) ← decode code b; '(repeat, value, b) ← length_of b s (last lengths); read_lengths fuel code total (lengths ++ zrep repeat value) b
  else Ok (lengths, b).
Proof. done. Qed.
Lemma read_lengths_safely d F code fuel total lengths b : small F -> made F code -> reads d b -> small lengths -> total - zlen lengths <= Z.of_nat fuel ->
  safely d b (fun l => small l /\ total <= zlen l) (read_lengths (S fuel) code total lengths b).
Proof.
  intros HF Hcode. revert lengths b. induction fuel as [|fuel IH]; intros lengths b Hb Hl Hfuel; rewrite read_lengths_S.
  - destruct (Z.ltb_spec (zlen lengths) total); [lia|]. split; [done|]. split; [lia|done].
  - destruct (Z.ltb_spec (zlen lengths) total); [|split; [done|]; split; [lia|done]].
    eapply safely_bind; [by apply (decode_safely d F)|]. intros s b1 Hb1 Hle Hs. pose proof (length_of_safely d b1 s lengths Hb1 Hs Hl) as Hr.
    destruct (length_of b1 s (last lengths)) as [[[n v] b2]| |]; [|done|done]. destruct Hr as (Hb2&Hle2&Hn&Hv). cbn [mbind outcome_bind]. apply (safely_weaken d b1 b2); [done|].
    apply IH; [done| |rewrite zlen_app, zlen_zrep by lia; lia]. apply Forall_app. split; [done|]. by apply Forall_replicate.
Qed.
Lemma dynamic_safely d b : reads d b ->
  safely d b (fun t : Huffman * Huffman => (exists F, small F /\ made F (fst t)) /\ exists D, small D /\ made D (snd t)) (dynamic b).
Proof.
  intros Hb. unfold dynamic. takes. takes. takes. unfold fits in *. destruct (zslice ORDER 0 (x1 + 4)) as [order|] eqn:Ho; [|apply zslice_None in Ho; [change (zlen ORDER) with 19 in Ho; lia|lia]].
  cbn [or_panic mbind outcome_bind]. apply zslice_Some in Ho as (_&_&->). eapply safely_bind.
  - apply (code_lengths_safely d); [done|by apply Forall_replicate|]. apply Forall_take, Forall_drop. by vm_compute; repeat (constructor; [split; [intros [=]|reflexivity]|]).
  - intros cl b3 Hb3 Hle3 [Hcl Hclen]. destruct (huffman_new_spec cl Hcl) as (code&->&Hcode); [rewrite Hclen; by vm_compute|]. cbn [mbind outcome_bind].
    eapply safely_bind; [apply (read_lengths_safely d cl); [done|done|done|constructor|change (zlen (@nil Z)) with 0; lia]|]. intros lengths b4 Hb4 Hle4 [Hl Hlen].
    destruct (Z.ltb_spec (x + 257 + (x0 + 1)) (zlen lengths)); [done|].
    destruct (huffman_new_spec (ztake (x + 257) lengths)) as (lit&->&Hlit); [by apply Forall_take|rewrite zlen_ztake; lia|].
    destruct (huffman_new_spec (zdrop (x + 257) lengths)) as (dist&->&Hdist); [by apply Forall_drop|rewrite zlen_zdrop; lia|]. cbn [mbind outcome_bind]. split; [done|]. split; [lia|].
    split; eexists; (split; [|done]); [by apply Forall_take|by apply Forall_drop].
Qed.
(** The extra bits of a distance code and where its distances start. *)
Definition dist_extra (t : Z) : Z := if t <? 2 then 0 else t / 2 - 1.
Definition dist_base (t : Z) : Z := if t <? 4 then t + 1 else Z.shiftl (2 + Z.land t 1) (dist_extra t) + 1.
Lemma dist_ok t : 0 <= t < 30 -> 0 <= dist_extra t <= 13 /\ 1 <= dist_base t.
Proof.
  intros Ht. assert (forallb (fun t => (0 <=? dist_extra t) && (dist_extra t <=? 13) && (1 <=? dist_base t)) (seqZ 0 30) = true) as H by by vm_compute.
  rewrite List.forallb_forall in H. specialize (H t ltac:(apply list_elem_of_In, elem_of_seqZ; lia)). rewrite !andb_true_iff, !Z.leb_le in H. lia.
Qed.
Lemma distance_safely d D dist b : small D -> made D dist -> reads d b -> safely d b (fun x => 1 <= x) (distance b dist).
Proof.
  intros HD Hd Hb. unfold distance. eapply safely_bind; [by apply (decode_safely d D)|]. intros t b1 Hb1 _ Ht. cbn beta in Ht. destruct (Z.leb_spec 30 t); [done|].
  pose proof (dist_ok t ltac:(lia)) as [He Hbase]. fold (dist_extra t). fold (dist_base t). eapply safely_bind; [apply take_bits_safely; [done|lia]|]. intros x b2 Hb2 Hle Hx. unfold fits in Hx. split; [done|]. split; [lia|]. lia.
Qed.
Lemma copy_back_ok n from out : 0 <= from < zlen out -> bytes_ok out -> exists out', copy_back n from out = Ok out' /\ bytes_ok out'.
Proof.
  revert from out. induction n as [|n IH]; intros from out Hf Hout; [by exists out|]. cbn [copy_back]. destruct (zget_is_Some out from Hf) as [v Hv]. rewrite Hv. cbn [or_panic mbind outcome_bind].
  apply IH; [rewrite zlen_app; change (zlen [v]) with 1; lia|]. apply Forall_app. split; [done|]. apply Forall_singleton.
  unfold zget in Hv. destruct (from <? 0); [done|]. by eapply Forall_lookup_1 in Hv.
Qed.
Lemma length_codes s : 257 <= s <= 285 -> exists base extra, zget BASES (s - 257) = Some base /\ zget EXTRA (s - 257) = Some extra /\ 3 <= base /\ 0 <= extra <= 5.
Proof.
  intros Hs. destruct (zget_is_Some BASES (s - 257)) as [base Hb]; [change (zlen BASES) with 29; lia|]. destruct (zget_is_Some EXTRA (s - 257)) as [extra He]; [change (zlen EXTRA) with 29; lia|].
  exists base, extra. split; [done|]. split; [done|]. unfold zget in *. destruct (s - 257 <? 0); [done|]. apply list_elem_of_lookup_2 in Hb, He.
  assert (forallb (fun x => 3 <=? x) BASES = true) as H1 by done. assert (forallb (fun x => (0 <=? x) && (x <=? 5)) EXTRA = true) as H2 by done.
  rewrite List.forallb_forall in H1, H2. specialize (H1 base ltac:(by apply list_elem_of_In)). specialize (H2 extra ltac:(by apply list_elem_of_In)). rewrite andb_true_iff, !Z.leb_le in *. lia.
Qed.
Lemma codes_safely d F D lit dist fuel b out : small F -> made F lit -> small D -> made D dist -> reads d b -> bytes_ok out -> zlen (stream b) < Z.of_nat fuel ->
  safely d b bytes_ok (codes fuel b out lit dist).
Proof.
  intros HF Hlit HD Hdist. revert b out. induction fuel as [|fuel IH]; intros b out Hb Hout Hfuel; [pose proof (zlen_nonneg (stream b)); lia|]. cbn [codes].
  pose proof (decode_safe F HF lit Hlit d b Hb) as Hd. destruct (decode lit b) as [[s b1]| |]; [|done|done]. destruct Hd as (Hb1&Hlt&Hs). cbn [mbind outcome_bind].
  apply (safely_weaken d b b1); [lia|]. destruct (Z.ltb_spec s 256).
  { apply IH; [done| |lia]. apply Forall_app. split; [done|]. apply Forall_singleton. unfold u8, fits. lia. }
  destruct (Z.eqb_spec s 256); [by split|]. destruct (Z.leb_spec s 285); [|done]. destruct (length_codes s ltac:(lia)) as (base&extra&->&->&Hbase&Hextra). cbn [or_panic mbind outcome_bind].
  eapply safely_bind; [apply take_bits_safely; [done|lia]|]. intros x b2 Hb2 Hle2 Hx. eapply safely_bind; [by apply (distance_safely d D)|]. intros back b3 Hb3 Hle3 Hback. cbn beta in Hback.
  destruct (Z.ltb_spec (zlen out) back); [done|]. destruct (copy_back_ok (Z.to_nat (base + x)) (zlen out - back) out) as (out'&->&Hout'); [lia|done|]. cbn [mbind outcome_bind]. apply IH; [done|done|lia].
Qed.
Lemma steps_enough d b : reads d b -> zlen (stream b) < Z.of_nat (steps b).
Proof. intros Hb. pose proof (reads_n _ _ Hb). rewrite stream_zlen by lia. unfold steps. pose proof (zlen_nonneg (b_rest b)). lia. Qed.
Lemma fixed_codes : exists lit dist, huffman_new fixed_lengths = Ok lit /\ made fixed_lengths lit /\ huffman_new (zrep 30 5) = Ok dist /\ made (zrep 30 5) dist.
Proof.
  destruct (huffman_new_spec fixed_lengths) as (lit&?&?); [|done|].
  - unfold fixed_lengths. rewrite !Forall_app. repeat split; by apply Forall_replicate.
  - destruct (huffman_new_spec (zrep 30 5)) as (dist&?&?); [apply Forall_replicate; lia|reflexivity|]. exists lit, dist. auto.
Qed.
Lemma fixed_small : small fixed_lengths /\ small (zrep 30 5).
Proof. unfold fixed_lengths. rewrite !Forall_app. repeat split; by apply Forall_replicate. Qed.
Lemma block_safely d b out : reads d b -> bytes_ok out ->
  match block b out with
  | Ok (_, out', b') => reads d b' /\ zlen (stream b') < zlen (stream b) /\ bytes_ok out'
  | Err _ => True
  | Panic => False
  end.
Proof.
  intros Hb Hout. unfold block. pose proof (take_bits_spec d 3 b Hb ltac:(lia)) as Ht. destruct (take_bits 3 b) as [[head b1]| |]; [|done|done]. destruct Ht as (Hb1&Hs&_). cbn [mbind outcome_bind].
  assert (zlen (stream b1) < zlen (stream b)) as Hlt by (rewrite Hs, zlen_app; unfold zlen at 2; rewrite bits_le_length; lia).
  match goal with |- match (?m ≫= _) with _ => _ end => assert (safely d b1 bytes_ok m) as Hm end.
  { destruct (Z.shiftr head 1 =? 0); [by apply stored_safely|]. destruct (Z.shiftr head 1 =? 1).
    - destruct fixed_codes as (lit&dist&->&Hlit&->&Hdist). destruct fixed_small. cbn [mbind outcome_bind]. apply (codes_safely d fixed_lengths (zrep 30 5)); try done. by apply (steps_enough d).
    - destruct (Z.shiftr head 1 =? 2); [|done]. eapply (safely_bind (A := Huffman * Huffman)); [by apply dynamic_safely|]. intros [lit dist] b2 Hb2 Hle [(F&HF&Hlit) (D&HD&Hdist)].
      apply (codes_safely d F D); try done. by apply (steps_enough d). }
  unfold safely in Hm. destruct (if _ =? 0 then _ else _) as [[out' b2]| |]; [|done|done]. destruct Hm as (?&?&?). cbn [mbind outcome_bind]. split; [done|]. split; [lia|done].
Qed.
Lemma block_loop_safely d fuel b out : reads d b -> bytes_ok out -> zlen (stream b) < Z.of_nat fuel -> safely d b bytes_ok (block_loop fuel b out).
Proof.
  revert b out. induction fuel as [|fuel IH]; intros b out Hb Hout Hfuel; [pose proof (zlen_nonneg (stream b)); lia|]. cbn [block_loop]. pose proof (block_safely d b out Hb Hout) as Hs.
  destruct (block b out) as [[[last out'] b1]| |]; [|done|done]. destruct Hs as (Hb1&Hlt&Hout'). cbn [mbind outcome_bind]. destruct last; [split; [done|]; split; [lia|done]|].
  apply (safely_weaken d b b1); [lia|]. apply IH; [done|done|lia].
Qed.

(** ** The checksum *)
Lemma chunks_fuel_spec {A} fuel n (l : list A) : 0 < n -> (length l <= fuel)%nat -> concat (chunks_fuel fuel n l) = l /\ Forall (fun c => zlen c <= n) (chunks_fuel fuel n l).
Proof.
  intros Hn. revert l. induction fuel as [|fuel IH]; intros l Hl; cbn [chunks_fuel]; [destruct l; [by split|cbn in Hl; lia]|].
  destruct (Z.eqb_spec (zlen l) 0) as [->%zlen_zero|Hne]; [by split|]. destruct (IH (zdrop n l)) as [H1 H2].
  - unfold zdrop. rewrite length_drop. unfold zlen in Hne. lia.
  - cbn [concat]. rewrite H1, ztake_zdrop. split; [done|]. constructor; [rewrite zlen_ztake; lia|done].
Qed.
(** Adler-32 (RFC 1950): both sums modulo 65521 at each byte. *)
Definition adler_step (s : Z * Z) (v : Z) : Z * Z := ((fst s + v) mod 65521, (snd s + fst s + v) mod 65521).
Definition adler32 (l : list Z) : Z := let s := fold_left adler_step l (1, 0) in snd s * 65536 + fst s.
Lemma adler_chunk_spec l a b : bytes_ok l -> 0 <= a -> 0 <= b -> 2 * b + 2 * zlen l * a + 255 * zlen l * (zlen l + 1) < 2 ^ 33 ->
  exists a' b', adler_chunk l a b = Ok (a', b') /\ fold_left adler_step l (a mod 65521, b mod 65521) = (a' mod 65521, b' mod 65521).
Proof.
  intros Hl. revert a b. induction Hl as [|v l Hv Hl IH]; intros a b Ha Hb Hn; [by exists a, b|]. rewrite zlen_cons in Hn. unfold u8, fits in Hv. pose proof (zlen_nonneg l) as Hz. cbn [adler_chunk fold_left].
  unfold add_u32. assert (b + a + v < 2 ^ 32 /\ a + v < 2 ^ 32) as [Hs1 Hs2] by nia.
  destruct (Z.ltb_spec (a + v) (2 ^ 32)); [|lia]. cbn [mbind outcome_bind]. destruct (Z.ltb_spec (b + a) (2 ^ 32)); [|lia]. cbn [mbind outcome_bind]. destruct (Z.ltb_spec (b + a + v) (2 ^ 32)); [|lia]. cbn [mbind outcome_bind].
  destruct (IH (a + v) (b + a + v)) as (a'&b'&->&Hf); [lia|lia|nia|]. exists a', b'. split; [done|]. rewrite <- Hf. f_equal. unfold adler_step. cbn [fst snd]. f_equal.
  - by rewrite Z.add_mod_idemp_l by lia.
  - rewrite <- Z.add_mod_idemp_l, <- Z.add_mod, Z.add_mod_idemp_l by lia. done.
Qed.
Lemma adler_chunks_spec ls a b : Forall bytes_ok ls -> Forall (fun c => zlen c <= 5552) ls -> 0 <= a < 65521 -> 0 <= b < 65521 ->
  adler_chunks ls a b = Ok (fold_left adler_step (concat ls) (a, b)).
Proof.
  intros Hls. revert a b. induction Hls as [|l ls Hl Hls IH]; intros a b Hlen Ha Hb; [done|]. apply Forall_cons in Hlen as [Hn Hlen]. cbn [adler_chunks concat]. pose proof (zlen_nonneg l).
  destruct (adler_chunk_spec l a b Hl) as (a'&b'&->&Hf); [lia|lia|nia|]. cbn [mbind outcome_bind]. rewrite fold_left_app. rewrite !Z.mod_small in Hf by lia. rewrite Hf.
  apply IH; [done| |]; apply Z.mod_pos_bound; lia.
Qed.
Lemma adler_sums l s : 0 <= fst s < 65521 -> 0 <= snd s < 65521 -> let t := fold_left adler_step l s in 0 <= fst t < 65521 /\ 0 <= snd t < 65521.
Proof.
  revert s. induction l as [|v l IH]; intros s H1 H2; [done|]. cbn [fold_left]. apply IH; unfold adler_step; cbn [fst snd]; apply Z.mod_pos_bound; lia.
Qed.
(** Summing 5552 bytes before each remainder fits 32 bits and is Adler-32. *)
Lemma adler_spec l : bytes_ok l -> adler l = Ok (adler32 l) /\ fits 32 (adler32 l).
Proof.
  intros Hl. unfold adler, chunks. destruct (chunks_fuel_spec (length l) 5552 l ltac:(lia) ltac:(lia)) as [Hc Hn]. rewrite adler_chunks_spec; [|by apply Forall_concat; rewrite Hc|done|lia|lia]. rewrite Hc.
  unfold adler32. pose proof (adler_sums l (1, 0) ltac:(cbn; lia) ltac:(cbn; lia)) as [H1 H2]. destruct (fold_left adler_step l (1, 0)) as [a b]. cbn [fst snd mbind outcome_bind] in *.
  split; [|unfold fits; lia]. rewrite wrap_id by (unfold fits; rewrite Z.shiftl_mul_pow2; lia). rewrite lor_shiftl_add by lia. done.
Qed.

(** ** The stream *)
Lemma start_reads z : bytes_ok z -> reads (zlen z) (mkBits z 0 0 0).
Proof. intros Hz. split; cbn; [lia|unfold fits; lia|done|lia]. Qed.
(** The byte after the bits read, where the checksum is. *)
Lemma end_of_bits d b : reads d b -> 2 + b_at b - b_n b / 8 = 2 + d - zlen (stream b) / 8.
Proof.
  intros [Hn _ _ [Ha _]]. rewrite stream_zlen by lia. rewrite Z.mul_comm, Z.div_add by lia. lia.
Qed.

Lemma zlib_cases z : bytes_ok z ->
  match zlib z with
  | Ok out => bytes_ok out /\ exists at_, zslice z at_ (at_ + 4) = Some (be_bytes 4 (adler32 out))
  | Err _ => True
  | Panic => False
  end.
Proof.
  intros Hz. unfold zlib. destruct (negb _); [done|]. set (b := mkBits (zdrop 2 z) 0 0 0). assert (reads (zlen (zdrop 2 z)) b) as Hb by by apply start_reads, Forall_drop.
  pose proof (block_loop_safely _ (steps b) b [] Hb ltac:(constructor) (steps_enough _ b Hb)) as Hs. destruct (block_loop (steps b) b []) as [[out b1]| |]; [|done|done]. destruct Hs as (Hb1&_&Hout).
  cbn [mbind outcome_bind]. destruct (adler_spec out Hout) as [-> Hfit]. cbn [mbind outcome_bind]. destruct (bool_decide_reflect (be_val <$> zslice z (2 + b_at b1 - b_n b1 / 8) (2 + b_at b1 - b_n b1 / 8 + 4) = Some (adler32 out))) as [Hw|]; [|done].
  split; [done|]. eexists. destruct (zslice z _ _) as [w|] eqn:Hsl; [|done]. rewrite Hsl. f_equal. injection Hw as <-. pose proof (zslice_len _ _ _ _ Hsl) as Hlen. symmetry.
  replace 4%nat with (length w) by (unfold zlen in Hlen; lia). apply be_bytes_val. apply zslice_Some in Hsl as (_&_&->). by apply Forall_take, Forall_drop.
Qed.
(** C21. Whatever bytes it is given, [zlib] returns: it refuses them, or gives
    bytes whose Adler-32 is in the stream. No table or buffer is read out of
    range, whatever code lengths the stream declares, no sum of the checksum
    passes 32 bits, and each loop ends, since each turn takes a bit. *)
Theorem any_stream_is_read_or_refused z : bytes_ok z ->
  match zlib z with
  | Ok out => bytes_ok out /\ exists at_, zslice z at_ (at_ + 4) = Some (be_bytes 4 (adler32 out))
  | Err _ => True
  | Panic => False
  end.
Proof. exact (zlib_cases z). Qed.
Lemma small_stream_witness :
  match zlib [120; 156; 75; 76; 74; 78; 73; 77; 132; 19; 0; 46; 89; 5; 206] with
  | Ok out => bytes_ok out /\ exists at_, zslice [120; 156; 75; 76; 74; 78; 73; 77; 132; 19; 0; 46; 89; 5; 206] at_ (at_ + 4) = Some (be_bytes 4 (adler32 out))
  | Err _ => True
  | Panic => False
  end.
Proof. apply (any_stream_is_read_or_refused [120; 156; 75; 76; 74; 78; 73; 77; 132; 19; 0; 46; 89; 5; 206]). apply Forall_forall. intros x Hx. unfold u8, fits. rewrite !elem_of_cons, elem_of_nil in Hx. lia. Defined.
