(* ===== verification/Deflated.v ===== *)
(** * What deflate blocks mean, and that it is what is read ([media/inflate.rs])

    RFC 1951 from the writer's side: literals and references back in the codes
    of some lengths, the tables of a dynamic block as runs of lengths, stored
    bytes, and a sequence of blocks. [zlib] reads back the bytes they mean. *)
From S2P Require Import Prelude Bytes Inflate BitStream Huffman Deflate.

(** ** Literals and references *)

(** A literal; or a length code with its extra bits, and a distance code with
    its own. *)
Inductive token := Literal (s : nat) | Back (s : nat) (x : Z) (t : nat) (y : Z).
Definition len_base (s : nat) : Z := nth (s - 257) BASES 0.
Definition len_extra (s : nat) : Z := nth (s - 257) EXTRA 0.
Definition reach (t : nat) (y : Z) : Z := dist_base (Z.of_nat t) + y.
(** [n] bytes from [dist] back, around again where there are not as many. *)
Definition repeated (n dist : nat) (out : list Z) : list Z := map (fun i => nth (length out - dist + i mod dist) out 0) (seq 0 n).
Definition token_means (out : list Z) (k : token) : list Z :=
  match k with
  | Literal s => out ++ [Z.of_nat s]
  | Back s x t y => out ++ repeated (Z.to_nat (len_base s + x)) (Z.to_nat (reach t y)) out
  end.

Section Tokens.
Context (F D : list Z).
Definition token_bits (k : token) : list bool :=
  match k with
  | Literal s => code_bits F s
  | Back s x t y => code_bits F s ++ bits_le (Z.to_nat (len_extra s)) x ++ code_bits D t ++ bits_le (Z.to_nat (dist_extra (Z.of_nat t))) y
  end.
Definition token_ok (out : list Z) (k : token) : Prop :=
  match k with
  | Literal s => (s < 256)%nat /\ symbol F s
  | Back s x t y => ((257 <= s <= 285)%nat /\ symbol F s) /\ fits (len_extra s) x /\ ((t < 30)%nat /\ symbol D t) /\ fits (dist_extra (Z.of_nat t)) y /\ reach t y <= zlen out
  end.
Fixpoint tokens_ok (out : list Z) (ks : list token) : Prop :=
  match ks with [] => True | k :: ks => token_ok out k /\ tokens_ok (token_means out k) ks end.
Definition tokens_bits (ks : list token) : list bool := concat (map token_bits ks) ++ code_bits F 256.
End Tokens.

Lemma repeated_S n dist out : repeated (S n) dist out = repeated n dist out ++ [nth (length out - dist + n mod dist) out 0].
Proof. unfold repeated. by rewrite seq_S, map_app. Qed.
Lemma repeated_get n dist out : (1 <= dist <= length out)%nat ->
  (out ++ repeated n dist out) !! (length out - dist + n)%nat = Some (nth (length out - dist + n mod dist) out 0).
Proof.
  intros Hd. pose proof (Nat.mod_upper_bound n dist ltac:(lia)). destruct (decide (n < dist)%nat) as [Hn|Hn].
  - rewrite lookup_app_l by lia. rewrite Nat.mod_small by done. destruct (lookup_lt_is_Some_2 out (length out - dist + n)) as [x Hx]; [lia|]. by rewrite Hx, (nth_lookup_Some _ _ _ _ Hx).
  - rewrite lookup_app_r by lia. replace (length out - dist + n - length out)%nat with (n - dist)%nat by lia. unfold repeated. change (map ?f ?l) with (f <$> l). rewrite list_lookup_fmap, lookup_seq_lt by lia. cbn.
    do 3 f_equal. replace n with (n - dist + 1 * dist)%nat at 2 by lia. by rewrite Nat.Div0.mod_add.
Qed.
(** A copy that overlaps what it writes repeats it. *)
Lemma copy_back_repeats n m dist out : (1 <= dist <= length out)%nat ->
  copy_back m (zlen out - Z.of_nat dist + Z.of_nat n) (out ++ repeated n dist out) = Ok (out ++ repeated (n + m) dist out).
Proof.
  intros Hd. revert n. induction m as [|m IH]; intros n; [by rewrite Nat.add_0_r|]. cbn [copy_back]. unfold zget. destruct (Z.ltb_spec (zlen out - Z.of_nat dist + Z.of_nat n) 0); [unfold zlen in *; lia|].
  replace (Z.to_nat (zlen out - Z.of_nat dist + Z.of_nat n)) with (length out - dist + n)%nat by (unfold zlen; lia). rewrite repeated_get by done. cbn [or_panic mbind outcome_bind].
  rewrite <- app_assoc, <- repeated_S. replace (zlen out - Z.of_nat dist + Z.of_nat n + 1) with (zlen out - Z.of_nat dist + Z.of_nat (S n)) by lia. rewrite IH. do 3 f_equal. lia.
Qed.
Lemma length_code s : (257 <= s <= 285)%nat -> zget BASES (Z.of_nat s - 257) = Some (len_base s) /\ zget EXTRA (Z.of_nat s - 257) = Some (len_extra s) /\ 3 <= len_base s /\ 0 <= len_extra s <= 5.
Proof.
  intros Hs. destruct (length_codes (Z.of_nat s) ltac:(lia)) as (base&extra&Hb&He&Hr). rewrite Hb, He. unfold len_base, len_extra. unfold zget in Hb, He. destruct (Z.ltb_spec (Z.of_nat s - 257) 0); [lia|].
  replace (Z.to_nat (Z.of_nat s - 257)) with (s - 257)%nat in * by lia. by rewrite (nth_lookup_Some _ _ _ _ Hb), (nth_lookup_Some _ _ _ _ He).
Qed.

(** ** Reading them back *)

(** Reading gives [x] and leaves the bits [r]. *)
Definition gives {A} (d : Z) (m : result (A * Bits)) (x : A) (r : list bool) : Prop := exists b, m = Ok (x, b) /\ reads d b /\ stream b = r.
Lemma gives_bind {A B} d (m : result (A * Bits)) (k : A * Bits -> result (B * Bits)) x y r r' :
  gives d m x r -> (forall b, reads d b -> stream b = r -> gives d (k (x, b)) y r') -> gives d (m ≫= k) y r'.
Proof. intros (b&->&Hb&Hs) Hk. by apply Hk. Qed.
Lemma gives_bits d k v r b : reads d b -> 0 <= k <= 57 -> fits k v -> stream b = bits_le (Z.to_nat k) v ++ r -> gives d (take_bits k b) v r.
Proof. intros. destruct (take_bits_back d k v r b) as (b'&?&?&?); try done. by exists b'. Qed.

Section Codes.
Context (F D : list Z) (HF : small F) (HD : small D) (KF : kraft F) (KD : kraft D) (lit dist : Huffman) (Hlit : made F lit) (Hdist : made D dist) (d : Z).
Lemma gives_symbol s r b : symbol F s -> reads d b -> stream b = code_bits F s ++ r -> gives d (decode lit b) (Z.of_nat s) r.
Proof. intros. by apply (decode_back F HF KF lit Hlit d). Qed.
Lemma gives_distance t y r b : (t < 30)%nat -> symbol D t -> fits (dist_extra (Z.of_nat t)) y -> reads d b -> stream b = code_bits D t ++ bits_le (Z.to_nat (dist_extra (Z.of_nat t))) y ++ r ->
  gives d (distance b dist) (reach t y) r.
Proof.
  intros Ht Hs Hy Hb Hst. unfold distance. pose proof (dist_ok (Z.of_nat t) ltac:(lia)) as [He _]. eapply gives_bind; [by apply (decode_back D HD KD dist Hdist d t)|]. intros b1 Hb1 Hs1.
  destruct (Z.leb_spec 30 (Z.of_nat t)); [lia|]. fold (dist_extra (Z.of_nat t)). fold (dist_base (Z.of_nat t)). eapply gives_bind; [apply (gives_bits d _ y); try done; lia|].
  intros b2 Hb2 Hs2. by exists b2.
Qed.
Lemma codes_back fuel b out ks r : symbol F 256 -> tokens_ok F D out ks -> reads d b -> stream b = tokens_bits F D ks ++ r -> zlen (stream b) < Z.of_nat fuel ->
  gives d (codes fuel b out lit dist) (fold_left token_means ks out) r.
Proof.
  intros H256. revert b out ks. induction fuel as [|fuel IH]; intros b out ks Hks Hb Hst Hfuel; [pose proof (zlen_nonneg (stream b)); lia|].
  assert (forall s b' w, symbol F s -> stream b = code_bits F s ++ w ++ stream b' -> zlen (stream b') < Z.of_nat fuel) as Hless.
  { intros s b' w [_ Hs] Heq. rewrite Heq, !zlen_app in Hfuel. pose proof (zlen_nonneg w). unfold zlen at 1 in Hfuel. unfold code_bits in Hfuel. rewrite msb_length in Hfuel. lia. }
  destruct ks as [|[s|s x t y] ks]; unfold tokens_bits in Hst; cbn [map concat] in Hst.
  - cbn [codes]. eapply gives_bind; [by apply (gives_symbol 256)|]. intros b1 Hb1 Hs1. by exists b1.
  - destruct Hks as [[Hs Hsym] Hks]. rewrite <- !app_assoc in Hst. cbn [codes]. eapply gives_bind; [by apply (gives_symbol s)|]. intros b1 Hb1 Hs1. destruct (Z.ltb_spec (Z.of_nat s) 256); [|lia].
    apply (IH b1 (out ++ [Z.of_nat s]) ks); try done; [unfold tokens_bits; by rewrite Hs1, <- app_assoc|]. apply (Hless s b1 []); [done|]. by rewrite Hst, Hs1.
  - destruct Hks as [([Hs Hsym]&Hx&[Ht Htsym]&Hy&Hreach) Hks]. cbn [token_bits] in Hst. rewrite <- !app_assoc in Hst. cbn [codes]. eapply gives_bind; [by apply (gives_symbol s)|]. intros b1 Hb1 Hs1.
    destruct (Z.ltb_spec (Z.of_nat s) 256); [lia|]. destruct (Z.eqb_spec (Z.of_nat s) 256); [lia|]. destruct (Z.leb_spec (Z.of_nat s) 285); [|lia].
    destruct (length_code s Hs) as (->&->&Hbase&Hextra). cbn [or_panic mbind outcome_bind]. eapply gives_bind; [apply (gives_bits d _ x); try done; lia|]. intros b2 Hb2 Hs2.
    eapply gives_bind; [by apply (gives_distance t y)|]. intros b3 Hb3 Hs3. destruct (Z.ltb_spec (zlen out) (reach t y)); [lia|].
    pose proof (dist_ok (Z.of_nat t) ltac:(lia)) as [_ Hpos]. unfold fits in Hx, Hy. assert (1 <= reach t y) as Hr by (unfold reach; lia).
    pose proof (copy_back_repeats 0 (Z.to_nat (len_base s + x)) (Z.to_nat (reach t y)) out ltac:(unfold zlen in *; lia)) as Hcopy. change (repeated 0 _ out) with (@nil Z) in Hcopy.
    rewrite app_nil_r, Z.add_0_r, Z2Nat.id in Hcopy by lia. rewrite Hcopy. cbn [mbind outcome_bind Nat.add].
    apply (IH b3 _ ks); try done; [unfold tokens_bits; by rewrite Hs3, <- app_assoc|]. apply (Hless s b3 (bits_le (Z.to_nat (len_extra s)) x ++ code_bits D t ++ bits_le (Z.to_nat (dist_extra (Z.of_nat t))) y)); [done|].
    rewrite Hst, Hs3, <- !app_assoc. done.
Qed.
End Codes.

(** ** The tables of a dynamic block *)

(** Runs of lengths: a length, the last again, zeros in two widths. *)
Inductive run := One (v : nat) | Same (x : Z) | Zeros (x : Z) | ManyZeros (x : Z).
Definition run_symbol (k : run) : nat := match k with One v => v | Same _ => 16 | Zeros _ => 17 | ManyZeros _ => 18 end.
Definition run_extra (k : run) : Z * Z := match k with One _ => (0, 0) | Same x => (2, x) | Zeros x => (3, x) | ManyZeros x => (7, x) end.
Definition run_means (l : list Z) (k : run) : list Z :=
  match k with
  | One v => l ++ [Z.of_nat v]
  | Same x => l ++ zrep (3 + x) (default 0 (last l))
  | Zeros x => l ++ zrep (3 + x) 0
  | ManyZeros x => l ++ zrep (11 + x) 0
  end.
Definition run_bits (C : list Z) (k : run) : list bool := code_bits C (run_symbol k) ++ bits_le (Z.to_nat (fst (run_extra k))) (snd (run_extra k)).
Definition run_ok (C l : list Z) (k : run) : Prop :=
  symbol C (run_symbol k) /\ fits (fst (run_extra k)) (snd (run_extra k)) /\ match k with One v => (v <= 15)%nat | Same _ => l <> [] | _ => True end.
Fixpoint runs_ok (C l : list Z) (ks : list run) : Prop :=
  match ks with [] => True | k :: ks => run_ok C l k /\ runs_ok C (run_means l k) ks end.
Lemma run_grows C l k : run_ok C l k -> zlen l < zlen (run_means l k).
Proof.
  intros (_&Hx&_). unfold fits in Hx. destruct k; cbn [run_means run_extra fst snd] in *; rewrite zlen_app, ?zlen_zrep by lia; try lia. change (zlen [Z.of_nat v]) with 1. lia.
Qed.
Lemma runs_grow C ks l : runs_ok C l ks -> zlen l <= zlen (fold_left run_means ks l).
Proof.
  revert l. induction ks as [|k ks IH]; intros l Hks; [done|]. destruct Hks as [Hk Hks]. apply IH in Hks. apply run_grows in Hk. cbn [fold_left]. lia.
Qed.
Lemma length_of_back d C l k b r : run_ok C l k -> reads d b -> stream b = bits_le (Z.to_nat (fst (run_extra k))) (snd (run_extra k)) ++ r ->
  exists n v b', length_of b (Z.of_nat (run_symbol k)) (last l) = Ok (n, v, b') /\ l ++ zrep n v = run_means l k /\ reads d b' /\ stream b' = r.
Proof.
  intros (_&Hx&Hk) Hb Hst. unfold length_of. destruct k as [v|x|x|x]; cbn [run_symbol run_extra fst snd run_means] in *.
  - destruct (Z.leb_spec (Z.of_nat v) 15); [|lia]. by exists 1, (Z.of_nat v), b.
  - destruct (gives_bits d 2 x r b) as (b1&->&Hb1&Hs1); [done|lia|done|done|]. cbn. destruct (last l) as [v|] eqn:Hl; [|apply last_None in Hl; done]. cbn. by exists (3 + x), v, b1.
  - destruct (gives_bits d 3 x r b) as (b1&->&Hb1&Hs1); [done|lia|done|done|]. cbn. by exists (3 + x), 0, b1.
  - destruct (gives_bits d 7 x r b) as (b1&->&Hb1&Hs1); [done|lia|done|done|]. cbn. by exists (11 + x), 0, b1.
Qed.
Lemma read_lengths_back d C code ks l b r total fuel : small C -> kraft C -> made C code -> runs_ok C l ks -> zlen (fold_left run_means ks l) = total -> total - zlen l <= Z.of_nat fuel ->
  reads d b -> stream b = concat (map (run_bits C) ks) ++ r -> gives d (read_lengths (S fuel) code total l b) (fold_left run_means ks l) r.
Proof.
  intros HC KC Hcode. revert fuel l b. induction ks as [|k ks IH]; intros fuel l b Hks Htot Hfuel Hb Hst; rewrite read_lengths_S.
  - cbn [fold_left] in *. destruct (Z.ltb_spec (zlen l) total); [lia|]. by exists b.
  - destruct Hks as [Hk Hks]. cbn [map concat fold_left] in *. pose proof (run_grows C l k Hk). pose proof (runs_grow C ks _ Hks). destruct (Z.ltb_spec (zlen l) total); [|lia]. rewrite <- app_assoc in Hst.
    unfold run_bits at 1 in Hst. rewrite <- app_assoc in Hst. eapply gives_bind; [apply (decode_back C HC KC code Hcode d (run_symbol k)); [apply Hk|done|exact Hst]|]. intros b1 Hb1 Hs1.
    destruct (length_of_back d C l k b1 _ Hk Hb1 Hs1) as (n&v&b2&->&Hmean&Hb2&Hs2). cbn [mbind outcome_bind]. rewrite Hmean. destruct fuel as [|fuel]; [lia|]. by apply IH; [| |lia| |].
Qed.

Definition length_bits (C : list Z) (order : list Z) : list bool := concat (map (fun i => bits_le 3 (nth (Z.to_nat i) C 0)) order).
Lemma code_lengths_back d C order cl b r : Forall (fun l => 0 <= l <= 7) C -> Forall (fun i => 0 <= i < zlen cl) order -> reads d b -> stream b = length_bits C order ++ r ->
  gives d (code_lengths order cl b) (fold_left (fun cl i => <[Z.to_nat i := nth (Z.to_nat i) C 0]> cl) order cl) r.
Proof.
  intros HC. revert cl b. induction order as [|i order IH]; intros cl b Ho Hb Hst; [by exists b|]. apply Forall_cons in Ho as [Hi Ho]. unfold length_bits in Hst. cbn [map concat] in Hst. rewrite <- app_assoc in Hst.
  cbn [code_lengths fold_left]. eapply gives_bind; [apply (gives_bits d 3 (nth (Z.to_nat i) C 0)); [done|lia| |exact Hst]|].
  - unfold fits. destruct (nth_in_or_default (Z.to_nat i) C 0) as [H| ->]; [|lia]. rewrite Forall_forall in HC. apply list_elem_of_In, HC in H. lia.
  - intros b1 Hb1 Hs1. unfold put. destruct (zget_is_Some cl i Hi) as [y ->]. cbn [or_panic mbind outcome_bind]. apply IH; [|done|done].
    eapply Forall_impl; [exact Ho|]. intros j Hj. unfold zlen in *. by rewrite length_insert.
Qed.
Lemma filled_lengths C order : length C = 19%nat -> Forall (fun i => 0 <= i < 19) order -> (forall i, (i < 19)%nat -> Z.of_nat i ∉ order -> nth i C 0 = 0) ->
  fold_left (fun cl i => <[Z.to_nat i := nth (Z.to_nat i) C 0]> cl) order (zrep 19 0) = C.
Proof.
  intros HC Ho Hz. assert (forall order cl, length cl = 19%nat -> Forall (fun i => 0 <= i < 19) order -> forall i, (i < 19)%nat -> (Z.of_nat i ∉ order -> cl !! i = Some (nth i C 0)) ->
    length (fold_left (fun cl i => <[Z.to_nat i := nth (Z.to_nat i) C 0]> cl) order cl) = 19%nat /\ fold_left (fun cl i => <[Z.to_nat i := nth (Z.to_nat i) C 0]> cl) order cl !! i = Some (nth i C 0)) as Hfold.
  { clear. induction order as [|j order IH]; intros cl Hcl Ho i Hi Hin; [split; [done|]; apply Hin; set_solver|]. apply Forall_cons in Ho as [Hj Ho]. cbn [fold_left].
    apply IH; [by rewrite length_insert|done|done|]. intros Hni. destruct (decide (Z.to_nat j = i)) as [->|Hne]; [apply list_lookup_insert_eq; lia|].
    rewrite list_lookup_insert_ne by done. apply Hin. rewrite elem_of_cons. intros [Heq|?]; [lia|done]. }
  assert (forall i, (i < 19)%nat -> Z.of_nat i ∉ order -> zrep 19 0 !! i = Some (nth i C 0)) as H0 by (intros i Hi Hni; rewrite Hz by done; apply lookup_replicate; split; [done|cbn; lia]).
  apply list_eq. intros i. destruct (decide (i < 19)%nat) as [Hi|Hi].
  - destruct (Hfold order (zrep 19 0) eq_refl Ho i Hi (H0 i Hi)) as [_ ->]. destruct (lookup_lt_is_Some_2 C i) as [x Hx]; [lia|]. by rewrite Hx, (nth_lookup_Some _ _ _ _ Hx).
  - destruct (Hfold order (zrep 19 0) eq_refl Ho 0%nat ltac:(lia) (H0 0%nat ltac:(lia))) as [Hl _]. rewrite !lookup_ge_None_2; [done|lia|lia].
Qed.

(** The tables: literal and distance lengths, the code their runs are in, how
    many of its lengths are written, the runs. *)
Record Tables := mkTables { t_lit : list Z; t_dist : list Z; t_code : list Z; t_ncode : Z; t_runs : list run }.
Definition tables_bits (t : Tables) : list bool :=
  bits_le 5 (zlen (t_lit t) - 257) ++ bits_le 5 (zlen (t_dist t) - 1) ++ bits_le 4 (t_ncode t - 4) ++
  length_bits (t_code t) (ztake (t_ncode t) ORDER) ++ concat (map (run_bits (t_code t)) (t_runs t)).
Record tables_ok (t : Tables) : Prop := {
  ok_lit : 257 <= zlen (t_lit t) <= 288;
  ok_dist : 1 <= zlen (t_dist t) <= 32;
  ok_ncode : 4 <= t_ncode t <= 19;
  ok_code : length (t_code t) = 19%nat /\ Forall (fun l => 0 <= l <= 7) (t_code t) /\ kraft (t_code t);
  ok_zeros : forall i, (i < 19)%nat -> Z.of_nat i ∉ ztake (t_ncode t) ORDER -> nth i (t_code t) 0 = 0;
  ok_runs : runs_ok (t_code t) [] (t_runs t) /\ fold_left run_means (t_runs t) [] = t_lit t ++ t_dist t;
  ok_small : small (t_lit t) /\ small (t_dist t);
  ok_kraft : kraft (t_lit t) /\ kraft (t_dist t)
}.
Lemma dynamic_back d t b r : tables_ok t -> reads d b -> stream b = tables_bits t ++ r ->
  exists lit dist, made (t_lit t) lit /\ made (t_dist t) dist /\ gives d (dynamic b) (lit, dist) r.
Proof.
  intros [Hlit Hdist Hn (HCl&HC&KC) Hz [Hruns Hmean] [SL SD] _] Hb Hst. unfold tables_bits in Hst. rewrite <- !app_assoc in Hst.
  destruct (huffman_new_spec (t_lit t) SL) as (lit&Hnl&Hml); [lia|]. destruct (huffman_new_spec (t_dist t) SD) as (dist&Hnd&Hmd); [lia|]. exists lit, dist. split; [done|]. split; [done|].
  unfold dynamic. eapply gives_bind; [apply (gives_bits d 5 _ _ b Hb ltac:(lia)); [|exact Hst]; unfold fits; lia|]. clear Hst. intros b1 Hb1 Hs1.
  eapply gives_bind; [apply (gives_bits d 5 _ _ b1 Hb1 ltac:(lia)); [|exact Hs1]; unfold fits; lia|]. intros b2 Hb2 Hs2.
  eapply gives_bind; [apply (gives_bits d 4 _ _ b2 Hb2 ltac:(lia)); [|exact Hs2]; unfold fits; lia|]. intros b3 Hb3 Hs3. replace (t_ncode t - 4 + 4) with (t_ncode t) by lia.
  assert (zslice ORDER 0 (t_ncode t) = Some (ztake (t_ncode t) ORDER)) as -> by (apply zslice_Some; change (zlen ORDER) with 19; rewrite Z.sub_0_r; split; [lia|split; [lia|done]]). cbn [or_panic mbind outcome_bind].
  assert (Forall (fun i => 0 <= i < 19) (ztake (t_ncode t) ORDER)) as Hord.
  { apply Forall_take. assert (forallb (fun i => (0 <=? i) && (i <? 19)) ORDER = true) as H by done. apply Forall_forall. intros i Hi%list_elem_of_In. rewrite List.forallb_forall in H. apply H in Hi. lia. }
  eapply gives_bind; [apply (code_lengths_back d (t_code t) _ _ b3 _ HC); [exact Hord|done|exact Hs3]|]. intros b4 Hb4 Hs4. rewrite filled_lengths by done.
  assert (small (t_code t)) as HCs by (eapply Forall_impl; [exact HC|]; cbn; lia). destruct (huffman_new_spec (t_code t) HCs) as (code&->&Hcode); [unfold zlen; lia|]. cbn [mbind outcome_bind].
  assert (zlen (t_lit t) - 257 + 257 + (zlen (t_dist t) - 1 + 1) = zlen (t_lit t ++ t_dist t)) as Htot by (rewrite zlen_app; lia). rewrite Htot.
  eapply gives_bind; [apply (read_lengths_back d (t_code t) code (t_runs t) []); try done; [by rewrite Hmean|change (zlen (@nil Z)) with 0; lia]|]. intros b5 Hb5 Hs5. rewrite Hmean.
  rewrite Z.ltb_irrefl. replace (zlen (t_lit t) - 257 + 257) with (zlen (t_lit t)) by lia. rewrite ztake_app, zdrop_app by done. rewrite Hnl, Hnd. cbn [mbind outcome_bind]. by exists b5.
Qed.

(** ** Blocks *)
Inductive Block := Stored (pad : list bool) (data : list Z) | Fixed (ks : list token) | Dynamic (t : Tables) (ks : list token).
Definition kind_of (k : Block) : Z := match k with Stored _ _ => 0 | Fixed _ => 1 | Dynamic _ _ => 2 end.
Definition byte_bits (l : list Z) : list bool := concat (map (bits_le 8) l).
Definition fixed_dist : list Z := zrep 30 5.
Definition body_bits (k : Block) : list bool :=
  match k with
  | Stored pad data => pad ++ bits_le 16 (zlen data) ++ bits_le 16 (65535 - zlen data) ++ byte_bits data
  | Fixed ks => tokens_bits fixed_lengths fixed_dist ks
  | Dynamic t ks => tables_bits t ++ tokens_bits (t_lit t) (t_dist t) ks
  end.
Definition block_bits (last : bool) (k : Block) : list bool := bits_le 3 (2 * kind_of k + Z.b2z last) ++ body_bits k.
Definition block_means (out : list Z) (k : Block) : list Z :=
  match k with Stored _ data => out ++ data | Fixed ks => fold_left token_means ks out | Dynamic _ ks => fold_left token_means ks out end.
(** A block that begins after [pos] bits: stored bytes begin at a byte. *)
Definition block_ok (pos : Z) (out : list Z) (k : Block) : Prop :=
  match k with
  | Stored pad data => zlen pad = (- (pos + 3)) mod 8 /\ zlen data < 2 ^ 16 /\ bytes_ok data
  | Fixed ks => tokens_ok fixed_lengths fixed_dist out ks
  | Dynamic t ks => tables_ok t /\ symbol (t_lit t) 256 /\ tokens_ok (t_lit t) (t_dist t) out ks
  end.
Fixpoint blocks_bits (ks : list Block) : list bool :=
  match ks with [] => [] | [k] => block_bits true k | k :: ks => block_bits false k ++ blocks_bits ks end.
Fixpoint blocks_ok (pos : Z) (out : list Z) (ks : list Block) : Prop :=
  match ks with
  | [] => False
  | [k] => block_ok pos out k
  | k :: ks => block_ok pos out k /\ blocks_ok (pos + zlen (block_bits false k)) (block_means out k) ks
  end.

Lemma complement_ok len : 0 <= len < 2 ^ 16 -> Z.land (Z.lxor (65535 - len) (Z.ones 32)) 65535 = len.
Proof.
  intros Hl. change 65535 with (Z.ones 16). replace (Z.ones 16 - len) with (Z.lxor len (Z.ones 16)).
  - apply Z.bits_inj'. intros i Hi. rewrite Z.land_spec, !Z.lxor_spec. destruct (Z.lt_ge_cases i 16).
    + rewrite !Z.ones_spec_low by lia. by destruct (Z.testbit len i).
    + rewrite (Z.ones_spec_high 16), andb_false_r by lia. symmetry. apply (testbit_high len 16); lia.
  - rewrite Z.sub_nocarry_ldiff.
    + apply Z.bits_inj'. intros i Hi. rewrite Z.ldiff_spec, Z.lxor_spec. destruct (Z.lt_ge_cases i 16).
      * rewrite Z.ones_spec_low by lia. by destruct (Z.testbit len i).
      * rewrite Z.ones_spec_high, (testbit_high len 16) by lia. done.
    + apply Z.bits_inj'. intros i Hi. rewrite Z.ldiff_spec, Z.bits_0. destruct (Z.lt_ge_cases i 16).
      * rewrite Z.ones_spec_low by lia. by rewrite andb_false_r.
      * by rewrite (testbit_high len 16) by lia.
Qed.
Lemma stored_bytes_back d data out b r : bytes_ok data -> reads d b -> stream b = byte_bits data ++ r -> gives d (stored_bytes (length data) b out) (out ++ data) r.
Proof.
  intros Hd. revert out b. induction Hd as [|x data Hx Hd IH]; intros out b Hb Hst; [rewrite app_nil_r; by exists b|]. unfold byte_bits in Hst. cbn [map concat] in Hst. rewrite <- app_assoc in Hst.
  cbn [length stored_bytes]. eapply gives_bind; [apply (gives_bits d 8 x); [done|lia|done|exact Hst]|]. intros b1 Hb1 Hs1. replace (out ++ x :: data) with ((out ++ [x]) ++ data) by (by rewrite <- app_assoc). by apply IH.
Qed.
Lemma stored_back d pos pad data out b r : block_ok pos out (Stored pad data) -> reads d b -> zlen (stream b) = 8 * d - (pos + 3) -> stream b = body_bits (Stored pad data) ++ r ->
  gives d (stored b out) (out ++ data) r.
Proof.
  intros (Hpad&Hlen&Hdata) Hb Hpos Hst. unfold stored. cbn [body_bits] in Hst. rewrite <- !app_assoc in Hst. pose proof (reads_n _ _ Hb).
  assert (b_n b mod 8 = zlen pad) as Hmod.
  { rewrite Hpad. rewrite stream_zlen in Hpos by lia. replace (- (pos + 3)) with (b_n b + (zlen (b_rest b) - d) * 8) by lia. by rewrite Z.mod_add. }
  rewrite Hmod. pose proof (bits_skip_spec d (zlen pad) b Hb ltac:(apply zlen_nonneg)) as Hs. pose proof (Z.mod_le (b_n b) 8 ltac:(lia) ltac:(lia)). destruct (skip (zlen pad) b) as [b1| |]; [|lia|done]. destruct Hs as (Hb1&Hs1&_).
  rewrite Hst in Hs1. rewrite take_app_length' in Hs1 by (unfold zlen; lia). apply app_inv_head in Hs1. symmetry in Hs1. cbn [mbind outcome_bind]. pose proof (zlen_nonneg data).
  eapply gives_bind; [apply (gives_bits d 16 _ _ b1 Hb1 ltac:(lia)); [|exact Hs1]; unfold fits; lia|]. intros b2 Hb2 Hs2.
  eapply gives_bind; [apply (gives_bits d 16 _ _ b2 Hb2 ltac:(lia)); [|exact Hs2]; unfold fits; lia|]. intros b3 Hb3 Hs3.
  rewrite complement_ok by lia. rewrite Z.eqb_refl. cbn [negb]. unfold zlen. rewrite Nat2Z.id. by apply stored_bytes_back.
Qed.
Lemma fixed_kraft : kraft fixed_lengths /\ kraft fixed_dist /\ symbol fixed_lengths 256.
Proof. split; [|split]; [by vm_compute|by vm_compute|]. split; apply Nat.ltb_lt; by vm_compute. Qed.
Lemma block_back d pos last k out b r : block_ok pos out k -> reads d b -> zlen (stream b) = 8 * d - pos -> stream b = block_bits last k ++ r ->
  exists b', block b out = Ok (last, block_means out k, b') /\ reads d b' /\ stream b' = r.
Proof.
  intros Hk Hb Hpos Hst. unfold block. unfold block_bits in Hst. rewrite <- app_assoc in Hst. set (head := 2 * kind_of k + Z.b2z last) in *.
  assert (0 <= kind_of k <= 2 /\ Z.shiftr head 1 = kind_of k /\ (Z.land head 1 =? 1) = last /\ fits 3 head) as (Hkind&Hshift&Hland&Hfit) by (unfold head, fits; by destruct k, last).
  destruct (gives_bits d 3 head _ b Hb ltac:(lia) Hfit Hst) as (b1&->&Hb1&Hs1). cbn [mbind outcome_bind]. rewrite Hshift, Hland.
  assert (zlen (stream b1) = 8 * d - (pos + 3)) as Hpos1 by (rewrite Hst, zlen_app in Hpos; unfold zlen at 1 in Hpos; rewrite bits_le_length in Hpos; rewrite Hs1; lia).
  match goal with |- exists _, (?m ≫= _) = _ /\ _ => assert (gives d m (block_means out k) r) as (b2&->&Hb2&Hs2) end; [|by exists b2].
  destruct k as [pad data|ks|t ks]; cbn [kind_of Z.eqb Pos.eqb block_means body_bits] in *.
  - by eapply stored_back.
  - destruct fixed_codes as (lit&dist&->&Hlit&->&Hdist). destruct fixed_small as [SF SD]. destruct fixed_kraft as (KF&KD&H256). cbn [mbind outcome_bind].
    apply (codes_back fixed_lengths fixed_dist SF SD KF KD lit dist Hlit Hdist); [done|done|done|done|by apply (steps_enough d)].
  - destruct Hk as (Ht&H256&Hks). rewrite <- app_assoc in Hs1. destruct (dynamic_back d t b1 _ Ht Hb1 Hs1) as (lit&dist&Hlit&Hdist&Hd). destruct (ok_small t Ht), (ok_kraft t Ht).
    eapply (gives_bind (A := Huffman * Huffman)); [exact Hd|]. intros b2 Hb2 Hs2. apply (codes_back (t_lit t) (t_dist t)); try done. by apply (steps_enough d).
Qed.
Lemma block_loop_back d ks fuel pos out b r : blocks_ok pos out ks -> reads d b -> zlen (stream b) = 8 * d - pos -> stream b = blocks_bits ks ++ r -> zlen (stream b) < Z.of_nat fuel ->
  gives d (block_loop fuel b out) (fold_left block_means ks out) r.
Proof.
  revert fuel pos out b. induction ks as [|k ks IH]; intros fuel pos out b Hks Hb Hpos Hst Hfuel; [done|]. destruct fuel as [|fuel]; [pose proof (zlen_nonneg (stream b)); lia|]. cbn [block_loop fold_left].
  destruct ks as [|k' ks].
  - destruct (block_back d pos true k out b r Hks Hb Hpos Hst) as (b1&->&Hb1&Hs1). by exists b1.
  - destruct Hks as [Hk Hks]. change (blocks_bits (k :: k' :: ks)) with (block_bits false k ++ blocks_bits (k' :: ks)) in Hst. rewrite <- app_assoc in Hst.
    destruct (block_back d pos false k out b _ Hk Hb Hpos Hst) as (b1&->&Hb1&Hs1). cbn [mbind outcome_bind].
    assert (zlen (stream b) = zlen (block_bits false k) + zlen (stream b1)) as Hlen by (rewrite Hst, zlen_app; by rewrite Hs1).
    assert (3 <= zlen (block_bits false k)) by (unfold block_bits; rewrite zlen_app; unfold zlen at 1; rewrite bits_le_length; pose proof (zlen_nonneg (body_bits k)); lia).
    apply (IH fuel (pos + zlen (block_bits false k))); [done|done|lia|done|lia].
Qed.

Lemma start_stream z : stream (mkBits z 0 0 0) = byte_bits z.
Proof. done. Qed.
(** C4. What RFC 1951 says blocks mean, [zlib] reads: for any blocks, stored,
    in the fixed codes or in codes of their own, whose codes are not
    over-subscribed and whose references stay within what was written, and any
    bytes that hold their bits, the stream of those bytes with its Adler-32 is
    read back as the bytes the blocks mean. So the tables of short codes and
    the search of longer ones decode the canonical code of any lengths. *)
Theorem deflated_bytes_read_back z0 z1 body pad ks :
  let out := fold_left block_means ks [] in
  Z.land z0 15 = 8 -> Z.lor (Z.shiftl z0 8) z1 mod 31 = 0 -> Z.land z1 32 = 0 ->
  bytes_ok body -> byte_bits body = blocks_bits ks ++ pad -> zlen pad < 8 -> blocks_ok 0 [] ks ->
  zlib (z0 :: z1 :: body ++ be_bytes 4 (adler32 out)) = Ok out.
Proof.
  intros out H0 H1 H2 Hbody Hbits Hpad Hks. set (sum := be_bytes 4 (adler32 out)). assert (zlen sum = 4) as Hsum by apply be_bytes_zlen. pose proof (zlen_nonneg body).
  unfold zlib, zlib_header. rewrite !zlen_cons, zlen_app, Hsum, H0, H1, H2. destruct (Z.leb_spec 6 (1 + (1 + (zlen body + 4)))); [|lia]. cbn [Z.eqb Pos.eqb andb negb].
  change (zdrop 2 (z0 :: z1 :: body ++ sum)) with (body ++ sum). set (b := mkBits (body ++ sum) 0 0 0).
  assert (reads (zlen (body ++ sum)) b) as Hb by (apply start_reads, Forall_app; split; [done|apply be_bytes_ok]).
  assert (stream b = blocks_bits ks ++ (pad ++ byte_bits sum)) as Hst by (unfold b; rewrite start_stream; unfold byte_bits in *; rewrite map_app, concat_app, Hbits, <- app_assoc; done).
  destruct (block_loop_back _ ks (steps b) 0 [] b (pad ++ byte_bits sum) Hks Hb) as (b1&Hloop&Hb1&Hs1); [rewrite stream_zlen by (cbn; lia); cbn; lia|done|by apply (steps_enough (zlen (body ++ sum)))|].
  pose proof (block_loop_safely _ (steps b) b [] Hb ltac:(constructor) (steps_enough _ b Hb)) as Hsafe. rewrite Hloop in Hsafe |- *. destruct Hsafe as (_&_&Hout). cbn [mbind outcome_bind]. fold out in Hout |- *.
  destruct (adler_spec out Hout) as [-> Hfit]. cbn [mbind outcome_bind]. rewrite (end_of_bits _ _ Hb1), Hs1, !zlen_app, Hsum.
  assert (zlen (byte_bits sum) = 32) as -> by (unfold zlen; rewrite <- (start_stream sum); change (Z.of_nat (length ?l)) with (zlen l); rewrite stream_zlen by (cbn; lia); cbn [b_n b_rest]; rewrite Hsum; lia).
  pose proof (zlen_nonneg pad). change 32 with (4 * 8). rewrite Z.div_add, Z.div_small by lia. replace (2 + (zlen body + 4) - (0 + 4)) with (2 + zlen body) by lia.
  assert (zslice (z0 :: z1 :: body ++ sum) (2 + zlen body) (2 + zlen body + 4) = Some sum) as ->.
  { rewrite <- Hsum. pose proof (zslice_app (z0 :: z1 :: body) sum []) as Hz. rewrite app_nil_r, !zlen_cons in Hz. cbn [app] in Hz. replace (2 + zlen body) with (1 + (1 + zlen body)) by lia. exact Hz. }
  rewrite bool_decide_true; [done|]. cbn [fmap option_fmap option_map]. f_equal. by apply be_round_trip.
Qed.

(** Three blocks, one of each kind. *)
Definition sample_tables : Tables :=
  mkTables (zrep 97 0 ++ [1] ++ zrep 158 0 ++ [1]) [0] (<[0%nat := 2]> (<[1%nat := 2]> (<[18%nat := 1]> (zrep 19 0)))) 18 [ManyZeros 86; One 1; ManyZeros 127; ManyZeros 9; One 1; One 0].
Definition sample_blocks : list Block := [Stored [false; false; false; false; false] [1; 2; 255]; Fixed [Literal 104; Back 258 0 1 0; Back 265 1 0 0]; Dynamic sample_tables [Literal 97; Literal 97]].
Ltac in_code := split; apply Nat.ltb_lt; vm_compute; reflexivity.
Lemma sample_tables_ok : tables_ok sample_tables.
Proof.
  split; [by vm_compute|by vm_compute|by vm_compute| | | | |by vm_compute].
  - split; [done|]. split; [|by vm_compute]. apply Forall_forall. intros x Hx%list_elem_of_In. assert (forallb (fun l => (0 <=? l) && (l <=? 7)) (t_code sample_tables) = true) as H by done.
    rewrite List.forallb_forall in H. apply H in Hx. lia.
  - intros i Hi Hn. do 19 (destruct i as [|i]; [try done; exfalso; apply Hn; vm_compute; set_solver|]). lia.
  - split; [|by vm_compute]. cbn [runs_ok sample_tables t_runs t_code]. repeat split; try (by vm_compute); apply Nat.ltb_lt || apply Nat.leb_le; by vm_compute.
  - cbn [sample_tables t_lit t_dist]. rewrite !Forall_app. repeat split; try (by apply Forall_replicate); by repeat constructor.
Qed.
Lemma sample_blocks_ok : blocks_ok 0 [] sample_blocks.
Proof.
  cbn [sample_blocks blocks_ok block_ok]. split; [split; [by vm_compute|]; split; [by vm_compute|]; repeat constructor; unfold fits; lia|]. split.
  - cbn [tokens_ok token_ok]. repeat split; try (by vm_compute); try lia; apply Nat.ltb_lt; by vm_compute.
  - split; [apply sample_tables_ok|]. split; [in_code|]. cbn [tokens_ok token_ok]. repeat split; try lia; apply Nat.ltb_lt; by vm_compute.
Qed.
Lemma deflated_bytes_witness :
  zlib (120 :: 156 :: [0; 3; 0; 252; 255; 1; 2; 255; 202; 0; 65; 100; 0; 40; 0; 14; 68; 0; 0; 0; 0; 0; 177; 238; 47; 113; 4] ++ be_bytes 4 (adler32 (fold_left block_means sample_blocks [])))
  = Ok (fold_left block_means sample_blocks []).
Proof.
  apply (deflated_bytes_read_back 120 156 [0; 3; 0; 252; 255; 1; 2; 255; 202; 0; 65; 100; 0; 40; 0; 14; 68; 0; 0; 0; 0; 0; 177; 238; 47; 113; 4] [false; false; false; false; false] sample_blocks).
  - reflexivity.
  - reflexivity.
  - reflexivity.
  - repeat constructor; unfold fits; lia.
  - vm_compute. reflexivity.
  - reflexivity.
  - exact sample_blocks_ok.
Defined.
