(* ===== verification/X25519.v ===== *)
(** * X25519 ([net/x25519.rs])

    Field elements as five 51-bit limbs, with sums and products at the width
    the code has, and the Montgomery ladder with masked swaps. A sum or a
    product that its width does not hold is a [Panic]. Erasing the secrets
    afterwards ([wipe]) is left out: no result depends on it. *)
From Stdlib Require Import Zpow_facts.
From S2P Require Import Prelude Bytes.

Abbreviation computes := (outcome unit).
(** What a [w]-bit operation gives. *)
Definition fit (w z : Z) : computes Z := if (0 <=? z) && (z <? 2 ^ w) then Ok z else Panic.

Record Fe := mkFe { l0 : Z; l1 : Z; l2 : Z; l3 : Z; l4 : Z }.
Definition MASK : Z := 2 ^ 51 - 1.
Definition BASE : list Z := 9 :: zrep 31 0.

(** [word(i)]: eight bytes as a [u64]. *)
Definition word_at (b : list Z) (i : Z) : Z := le_val (ztake 8 (zdrop i b)).
Definition fe_decode (b : list Z) : Fe :=
  mkFe (Z.land (word_at b 0) MASK) (Z.land (Z.shiftr (word_at b 6) 3) MASK) (Z.land (Z.shiftr (word_at b 12) 6) MASK)
    (Z.land (Z.shiftr (word_at b 19) 1) MASK) (Z.land (Z.shiftr (word_at b 24) 12) MASK).

(** The carries between limbs, which [carry] and [encode] share. *)
Definition carry_up (h : Fe) : computes Fe :=
  h1 ← fit 64 (l1 h + Z.shiftr (l0 h) 51);
  h2 ← fit 64 (l2 h + Z.shiftr h1 51);
  h3 ← fit 64 (l3 h + Z.shiftr h2 51);
  h4 ← fit 64 (l4 h + Z.shiftr h3 51);
  Ok (mkFe (Z.land (l0 h) MASK) (Z.land h1 MASK) (Z.land h2 MASK) (Z.land h3 MASK) h4).
Definition carry (h : Fe) : computes Fe :=
  h ← carry_up h;
  c ← fit 64 (19 * Z.shiftr (l4 h) 51);
  h0 ← fit 64 (l0 h + c);
  Ok (mkFe h0 (l1 h) (l2 h) (l3 h) (Z.land (l4 h) MASK)).

Definition fe_encode (f : Fe) : computes (list Z) :=
  h ← carry f;
  h ← carry h;
  q ← fit 64 (l0 h + 19); let q := Z.shiftr q 51 in
  q ← fit 64 (l1 h + q); let q := Z.shiftr q 51 in
  q ← fit 64 (l2 h + q); let q := Z.shiftr q 51 in
  q ← fit 64 (l3 h + q); let q := Z.shiftr q 51 in
  q ← fit 64 (l4 h + q); let q := Z.shiftr q 51 in
  q ← fit 64 (19 * q);
  h0 ← fit 64 (l0 h + q);
  h ← carry_up (mkFe h0 (l1 h) (l2 h) (l3 h) (l4 h));
  let h4 := Z.land (l4 h) MASK in
  let words := [Z.lor (l0 h) (wrap 64 (Z.shiftl (l1 h) 51)); Z.lor (Z.shiftr (l1 h) 13) (wrap 64 (Z.shiftl (l2 h) 38));
                Z.lor (Z.shiftr (l2 h) 26) (wrap 64 (Z.shiftl (l3 h) 25)); Z.lor (Z.shiftr (l3 h) 39) (wrap 64 (Z.shiftl h4 12))] in
  Ok (concat (map (le_bytes 8) words)).

Definition fe_add (a b : Fe) : computes Fe :=
  h0 ← fit 64 (l0 a + l0 b); h1 ← fit 64 (l1 a + l1 b); h2 ← fit 64 (l2 a + l2 b); h3 ← fit 64 (l3 a + l3 b); h4 ← fit 64 (l4 a + l4 b);
  Ok (mkFe h0 h1 h2 h3 h4).
Definition TWO_P : Fe := mkFe 0xfffffffffffda 0xffffffffffffe 0xffffffffffffe 0xffffffffffffe 0xffffffffffffe.
Definition sub_limb (a t b : Z) : computes Z := x ← fit 64 (a + t); fit 64 (x - b).
Definition fe_sub (a b : Fe) : computes Fe :=
  h0 ← sub_limb (l0 a) (l0 TWO_P) (l0 b);
  h1 ← sub_limb (l1 a) (l1 TWO_P) (l1 b);
  h2 ← sub_limb (l2 a) (l2 TWO_P) (l2 b);
  h3 ← sub_limb (l3 a) (l3 TWO_P) (l3 b);
  h4 ← sub_limb (l4 a) (l4 TWO_P) (l4 b);
  carry (mkFe h0 h1 h2 h3 h4).

(** A sum of products, each a [u128]. *)
Fixpoint sum_128 (acc : Z) (l : list (Z * Z)) : computes Z :=
  match l with [] => Ok acc | (x, y) :: l => m ← fit 128 (x * y); acc ← fit 128 (acc + m); sum_128 acc l end.
Definition fe_mul (a b : Fe) : computes Fe :=
  b1 ← fit 64 (l1 b * 19); b2 ← fit 64 (l2 b * 19); b3 ← fit 64 (l3 b * 19); b4 ← fit 64 (l4 b * 19);
  r0 ← sum_128 0 [(l0 a, l0 b); (l1 a, b4); (l2 a, b3); (l3 a, b2); (l4 a, b1)];
  r1 ← sum_128 0 [(l0 a, l1 b); (l1 a, l0 b); (l2 a, b4); (l3 a, b3); (l4 a, b2)];
  r2 ← sum_128 0 [(l0 a, l2 b); (l1 a, l1 b); (l2 a, l0 b); (l3 a, b4); (l4 a, b3)];
  r3 ← sum_128 0 [(l0 a, l3 b); (l1 a, l2 b); (l2 a, l1 b); (l3 a, l0 b); (l4 a, b4)];
  r4 ← sum_128 0 [(l0 a, l4 b); (l1 a, l3 b); (l2 a, l2 b); (l3 a, l1 b); (l4 a, l0 b)];
  r1 ← fit 128 (r1 + Z.shiftr r0 51);
  r2 ← fit 128 (r2 + Z.shiftr r1 51);
  r3 ← fit 128 (r3 + Z.shiftr r2 51);
  r4 ← fit 128 (r4 + Z.shiftr r3 51);
  c ← fit 128 (Z.shiftr r4 51 * 19);
  h0 ← fit 128 (Z.land (wrap 64 r0) MASK + c);
  h1 ← fit 64 (Z.land (wrap 64 r1) MASK + wrap 64 (Z.shiftr h0 51));
  Ok (mkFe (Z.land (wrap 64 h0) MASK) h1 (Z.land (wrap 64 r2) MASK) (Z.land (wrap 64 r3) MASK) (Z.land (wrap 64 r4) MASK)).
Fixpoint fe_square (a : Fe) (times : nat) : computes Fe :=
  match times with O => Ok a | S times => x ← fe_mul a a; fe_square x times end.
Definition square_mul (a : Fe) (times : nat) (b : Fe) : computes Fe := x ← fe_square a times; fe_mul x b.
Definition fe_invert (z : Fe) : computes Fe :=
  z2 ← fe_square z 1;
  z9 ← square_mul z2 2 z;
  z11 ← fe_mul z9 z2;
  z_5 ← square_mul z11 1 z9;
  z_10 ← square_mul z_5 5 z_5;
  z_20 ← square_mul z_10 10 z_10;
  z_40 ← square_mul z_20 20 z_20;
  z_50 ← square_mul z_40 10 z_10;
  z_100 ← square_mul z_50 50 z_50;
  z_200 ← square_mul z_100 100 z_100;
  z_250 ← square_mul z_200 50 z_50;
  square_mul z_250 5 z11.

Definition swap_limb (mask a b : Z) : Z * Z := let t := Z.land mask (Z.lxor a b) in (Z.lxor a t, Z.lxor b t).
Definition fe_swap (choice : Z) (a b : Fe) : Fe * Fe :=
  let mask := wrap 64 (0 - choice) in
  let s := swap_limb mask in
  let '(a0, b0) := s (l0 a) (l0 b) in let '(a1, b1) := s (l1 a) (l1 b) in let '(a2, b2) := s (l2 a) (l2 b) in
  let '(a3, b3) := s (l3 a) (l3 b) in let '(a4, b4) := s (l4 a) (l4 b) in
  (mkFe a0 a1 a2 a3 a4, mkFe b0 b1 b2 b3 b4).

(** ** The ladder *)
Record Ladder := mkLadder { x2 : Fe; z2 : Fe; x3 : Fe; z3 : Fe; swapped : Z }.
Definition swap_both (choice : Z) (s : Ladder) : Ladder :=
  let '(a, b) := fe_swap choice (x2 s) (x3 s) in
  let '(c, d) := fe_swap choice (z2 s) (z3 s) in
  mkLadder a c b d (swapped s).
(** The arithmetic of a turn. *)
Definition ladder_arith (u x2 z2 x3 z3 : Fe) : computes (Fe * Fe * Fe * Fe) :=
  a ← fe_add x2 z2;
  aa ← fe_mul a a;
  b ← fe_sub x2 z2;
  bb ← fe_mul b b;
  e ← fe_sub aa bb;
  c ← fe_add x3 z3;
  d ← fe_sub x3 z3;
  da ← fe_mul d a;
  cb ← fe_mul c b;
  sum ← fe_add da cb;
  x3 ← fe_mul sum sum;
  diff ← fe_sub da cb;
  dd ← fe_mul diff diff;
  z3 ← fe_mul u dd;
  x2 ← fe_mul aa bb;
  ee ← fe_mul (mkFe 121665 0 0 0 0) e;
  s ← fe_add aa ee;
  z2 ← fe_mul e s;
  Ok (x2, z2, x3, z3).
Definition ladder_turn (u : Fe) (s : Ladder) (bit : Z) : computes Ladder :=
  let s := swap_both (Z.lxor (swapped s) bit) s in
  '(x2, z2, x3, z3) ← ladder_arith u (x2 s) (z2 s) (x3 s) (z3 s);
  Ok (mkLadder x2 z2 x3 z3 bit).
Fixpoint ladder_from (u : Fe) (bits : list Z) (s : Ladder) : computes Ladder :=
  match bits with [] => Ok s | bit :: bits => s ← ladder_turn u s bit; ladder_from u bits s end.

Definition byte_at (k : list Z) (i : Z) : Z := default 0 (zget k i).
Definition clamp (scalar : list Z) : list Z :=
  let k := <[0%nat := Z.land (byte_at scalar 0) 0xf8]> scalar in
  <[31%nat := Z.lor (Z.land (byte_at k 31) 127) 64]> k.
(** [k[t / 8] >> (t % 8) & 1], from the highest. *)
Definition key_bit (k : list Z) (t : Z) : Z := Z.land (Z.shiftr (byte_at k (t / 8)) (t mod 8)) 1.
Definition key_bits (k : list Z) : list Z := map (key_bit k) (rev (seqZ 0 255)).
Definition x25519 (scalar point : list Z) : computes (list Z) :=
  let k := clamp scalar in
  let u := fe_decode point in
  let one := mkFe 1 0 0 0 0 in
  s ← ladder_from u (key_bits k) (mkLadder one (mkFe 0 0 0 0 0) u one 0);
  let s := swap_both (swapped s) s in
  i ← fe_invert (z2 s);
  x ← fe_mul (x2 s) i;
  fe_encode x.
Definition public (secret : list Z) : computes (list Z) := x25519 secret BASE.
