(* ===== verification/Field25519.v ===== *)
(** * The field of [net/x25519.rs] is the integers modulo 2^255 - 19

    Each operation on limbs computes that operation modulo [p], within its
    words, on limbs of the sizes the ladder meets. *)
From Stdlib Require Import Zpow_facts.
From S2P Require Import Prelude Bytes X25519.

Definition p : Z := 2 ^ 255 - 19.
Definition val (f : Fe) : Z := l0 f + 2 ^ 51 * l1 f + 2 ^ 102 * l2 f + 2 ^ 153 * l3 f + 2 ^ 204 * l4 f.
Definition below (k : Z) (f : Fe) : Prop := 0 <= l0 f < k /\ 0 <= l1 f < k /\ 0 <= l2 f < k /\ 0 <= l3 f < k /\ 0 <= l4 f < k.
(** What multiplications and subtractions give. *)
Definition tight : Fe -> Prop := below (2 ^ 51 + 2 ^ 30).

Lemma fit_ok w z : 0 <= z < 2 ^ w -> fit w z = Ok z.
Proof. intros H. unfold fit. destruct (Z.leb_spec 0 z), (Z.ltb_spec z (2 ^ w)); (done || lia). Qed.
Lemma low_limb x : Z.land x MASK = x mod 2 ^ 51.
Proof. change MASK with (Z.ones 51). by apply Z.land_ones. Qed.
Lemma low_limb_of_word x : Z.land (wrap 64 x) MASK = x mod 2 ^ 51.
Proof. rewrite low_limb. unfold wrap. change (2 ^ 64) with (2 ^ 51 * 2 ^ 13). by rewrite Z.rem_mul_r, Z.mul_comm, Z.mod_add, Z.mod_mod by done. Qed.
Lemma high_limb x : Z.shiftr x 51 = x / 2 ^ 51.
Proof. by apply Z.shiftr_div_pow2. Qed.
Lemma same_mod x y c : x = y - c * p -> x mod p = y mod p.
Proof. intros ->. rewrite <- (Z_mod_plus_full (y - c * p) c p). f_equal. lia. Qed.
Lemma below_weaken k k' f : k <= k' -> below k f -> below k' f.
Proof. unfold below. lia. Qed.
(** A limb as what it keeps and what it carries. *)
Ltac split_limb x q r :=
  let H1 := fresh in let H2 := fresh in
  pose proof (Z.div_mod x (2 ^ 51) ltac:(lia)) as H1; pose proof (Z.mod_pos_bound x (2 ^ 51) ltac:(lia)) as H2;
  set (q := x / 2 ^ 51) in *; set (r := x mod 2 ^ 51) in *; clearbody q r.
Ltac fits_now := rewrite fit_ok by lia; cbn [mbind outcome_bind].

Lemma carry_up_spec h : below (2 ^ 62) h ->
  exists h', carry_up h = Ok h' /\ val h' = val h /\ (0 <= l0 h' < 2 ^ 51 /\ 0 <= l1 h' < 2 ^ 51 /\ 0 <= l2 h' < 2 ^ 51 /\ 0 <= l3 h' < 2 ^ 51) /\ l4 h <= l4 h' <= l4 h + 2 ^ 12.
Proof.
  unfold below, carry_up, val. destruct h as [a0 a1 a2 a3 a4]. cbn [l0 l1 l2 l3 l4]. intros Hb. rewrite !high_limb, !low_limb.
  split_limb a0 q0 r0. fits_now. rewrite ?high_limb, ?low_limb. split_limb (a1 + q0) q1 r1. fits_now. rewrite ?high_limb, ?low_limb. split_limb (a2 + q1) q2 r2. fits_now.
  rewrite ?high_limb, ?low_limb. split_limb (a3 + q2) q3 r3. fits_now. eexists. split; [done|]. cbn [l0 l1 l2 l3 l4]. lia.
Qed.
Lemma carry_spec h : below (2 ^ 62) h ->
  exists h' c, carry h = Ok h' /\ val h' = val h - c * p /\ 0 <= c <= (l4 h + 2 ^ 12) / 2 ^ 51 /\ (0 <= l0 h' < 2 ^ 51 + 19 * c) /\
    (0 <= l1 h' < 2 ^ 51 /\ 0 <= l2 h' < 2 ^ 51 /\ 0 <= l3 h' < 2 ^ 51 /\ 0 <= l4 h' < 2 ^ 51).
Proof.
  intros Hb. unfold carry. destruct (carry_up_spec h Hb) as (h1&->&Hv&Hl&H4). cbn [mbind outcome_bind]. unfold below in Hb. rewrite high_limb.
  assert (l4 h1 / 2 ^ 51 <= (l4 h + 2 ^ 12) / 2 ^ 51) as Hc by (apply Z.div_le_mono; lia). rewrite low_limb. split_limb (l4 h1) q r. fits_now. fits_now.
  eexists _, q. split; [done|]. unfold val, p in *. cbn [l0 l1 l2 l3 l4]. lia.
Qed.
Lemma carry_tight h : below (2 ^ 62) h -> exists h', carry h = Ok h' /\ tight h' /\ val h' mod p = val h mod p.
Proof.
  intros Hb. destruct (carry_spec h Hb) as (h'&c&Hc&Hv&Hcb&H0&Hr). exists h'. split; [done|]. split; [|by apply (same_mod _ _ c)].
  assert ((l4 h + 2 ^ 12) / 2 ^ 51 < 2 ^ 12) by (apply Z.div_lt_upper_bound; [lia|]; unfold below in Hb; lia). unfold tight, below. lia.
Qed.
Lemma limbs_add_spec a b : below (2 ^ 61) a -> below (2 ^ 61) b -> exists h, fe_add a b = Ok h /\ val h = val a + val b /\
  (l0 h = l0 a + l0 b /\ l1 h = l1 a + l1 b /\ l2 h = l2 a + l2 b /\ l3 h = l3 a + l3 b /\ l4 h = l4 a + l4 b).
Proof.
  unfold below, fe_add. intros Ha Hb. do 5 fits_now. eexists. split; [done|]. unfold val. cbn [l0 l1 l2 l3 l4]. lia.
Qed.
Lemma sub_spec a b : tight a -> tight b -> exists h, fe_sub a b = Ok h /\ tight h /\ val h mod p = (val a - val b) mod p.
Proof.
  unfold tight, below, fe_sub, sub_limb. intros Ha Hb. cbn [TWO_P l0 l1 l2 l3 l4].
  do 10 fits_now. edestruct carry_tight as (h&Hc&Ht&Hv); [|exists h; split; [exact Hc|]; split; [done|]]; [unfold below; cbn [l0 l1 l2 l3 l4]; lia|].
  rewrite Hv, <- (Z_mod_plus_full (val a - val b) 2 p). f_equal. unfold val, p. cbn [l0 l1 l2 l3 l4]. lia.
Qed.

Lemma sum_128_ok l acc : 0 <= acc -> Forall (fun xy => 0 <= fst xy /\ 0 <= snd xy) l -> fold_left (fun s xy => s + fst xy * snd xy) l acc < 2 ^ 128 ->
  sum_128 acc l = Ok (fold_left (fun s xy => s + fst xy * snd xy) l acc).
Proof.
  intros Ha Hl. revert acc Ha. induction Hl as [|[x y] l [Hx Hy] Hl IH]; intros acc Ha Hs; [done|]. cbn [fst snd] in *. cbn [sum_128 fold_left fst snd] in *.
  assert (forall l acc, Forall (fun xy : Z * Z => 0 <= fst xy /\ 0 <= snd xy) l -> acc <= fold_left (fun s xy => s + fst xy * snd xy) l acc) as Hmono.
  { clear. intros l. induction l as [|[x y] l IH]; intros acc Hl; [done|]. apply Forall_cons in Hl as [[Hx Hy] Hl]. cbn [fold_left fst snd] in *. specialize (IH (acc + x * y) Hl). nia. }
  specialize (Hmono l (acc + x * y) Hl). rewrite fit_ok by nia. cbn [mbind outcome_bind]. rewrite fit_ok by nia. cbn [mbind outcome_bind]. apply IH; [nia|done].
Qed.
(** A product of limbs and what bounds it. *)
Lemma mul_bound k x y : 0 <= x < k -> 0 <= y < k -> 0 <= x * y < k * k.
Proof. nia. Qed.
(** The five sums of products, with the high limbs folded back by 19. *)
Definition prod0 (a b : Fe) : Z := l0 a * l0 b + 19 * (l1 a * l4 b) + 19 * (l2 a * l3 b) + 19 * (l3 a * l2 b) + 19 * (l4 a * l1 b).
Definition prod1 (a b : Fe) : Z := l0 a * l1 b + l1 a * l0 b + 19 * (l2 a * l4 b) + 19 * (l3 a * l3 b) + 19 * (l4 a * l2 b).
Definition prod2 (a b : Fe) : Z := l0 a * l2 b + l1 a * l1 b + l2 a * l0 b + 19 * (l3 a * l4 b) + 19 * (l4 a * l3 b).
Definition prod3 (a b : Fe) : Z := l0 a * l3 b + l1 a * l2 b + l2 a * l1 b + l3 a * l0 b + 19 * (l4 a * l4 b).
Definition prod4 (a b : Fe) : Z := l0 a * l4 b + l1 a * l3 b + l2 a * l2 b + l3 a * l1 b + l4 a * l0 b.
Definition overflow (a b : Fe) : Z :=
  l1 a * l4 b + l2 a * l3 b + l3 a * l2 b + l4 a * l1 b + 2 ^ 51 * (l2 a * l4 b + l3 a * l3 b + l4 a * l2 b) + 2 ^ 102 * (l3 a * l4 b + l4 a * l3 b) + 2 ^ 153 * (l4 a * l4 b).
Lemma products_val a b : prod0 a b + 2 ^ 51 * prod1 a b + 2 ^ 102 * prod2 a b + 2 ^ 153 * prod3 a b + 2 ^ 204 * prod4 a b = val a * val b - overflow a b * p.
Proof. unfold prod0, prod1, prod2, prod3, prod4, overflow, val, p. ring. Qed.
Lemma products_bound a b : below (2 ^ 53) a -> below (2 ^ 53) b ->
  0 <= prod0 a b < 2 ^ 113 /\ 0 <= prod1 a b < 2 ^ 113 /\ 0 <= prod2 a b < 2 ^ 113 /\ 0 <= prod3 a b < 2 ^ 113 /\ 0 <= prod4 a b < 2 ^ 113.
Proof.
  intros (A0&A1&A2&A3&A4) (B0&B1&B2&B3&B4). unfold prod0, prod1, prod2, prod3, prod4.
  repeat match goal with |- context [?x * ?y] => lazymatch x with 19 => fail | 2 ^ _ => fail | _ =>
    let H := fresh in assert (0 <= x * y < 2 ^ 53 * 2 ^ 53) as H by (apply mul_bound; assumption); let m := fresh "m" in set (m := x * y) in *; clearbody m end end.
  lia.
Qed.
Lemma sum_is l s : Forall (fun xy => 0 <= fst xy /\ 0 <= snd xy) l -> fold_left (fun s xy => s + fst xy * snd xy) l 0 = s -> s < 2 ^ 128 -> sum_128 0 l = Ok s.
Proof. intros Hl <- Hs. by apply sum_128_ok. Qed.
Ltac all_pos := repeat (apply Forall_cons_2; [cbn [fst snd]; lia|]); apply Forall_nil_2.
Lemma mul_spec a b : below (2 ^ 53) a -> below (2 ^ 53) b -> exists h, fe_mul a b = Ok h /\ tight h /\ val h mod p = (val a * val b) mod p.
Proof.
  intros Ha Hb. pose proof (products_bound a b Ha Hb) as Hp. pose proof (products_val a b) as Hv. unfold fe_mul. assert (below (2 ^ 53) a /\ below (2 ^ 53) b) as [Ha' Hb'] by done. unfold below in Ha', Hb'. do 4 fits_now.
  rewrite (sum_is _ (prod4 a b)); [|all_pos|cbn [fold_left fst snd]; unfold prod4; ring|lia].
  rewrite (sum_is _ (prod3 a b)); [|all_pos|cbn [fold_left fst snd]; unfold prod3; ring|lia].
  rewrite (sum_is _ (prod2 a b)); [|all_pos|cbn [fold_left fst snd]; unfold prod2; ring|lia].
  rewrite (sum_is _ (prod1 a b)); [|all_pos|cbn [fold_left fst snd]; unfold prod1; ring|lia].
  rewrite (sum_is _ (prod0 a b)); [|all_pos|cbn [fold_left fst snd]; unfold prod0; ring|lia].
  cbn [mbind outcome_bind]. clear Ha' Hb' Ha Hb. generalize dependent (prod0 a b). generalize dependent (prod1 a b). generalize dependent (prod2 a b). generalize dependent (prod3 a b). generalize dependent (prod4 a b).
  intros r4 r3 r2 r1 r0 Hp Hv. rewrite !high_limb, !low_limb_of_word. split_limb r0 q0 s0. fits_now. rewrite ?high_limb, ?low_limb_of_word. split_limb (r1 + q0) q1 s1. fits_now.
  rewrite ?high_limb, ?low_limb_of_word. split_limb (r2 + q1) q2 s2. fits_now. rewrite ?high_limb, ?low_limb_of_word. split_limb (r3 + q2) q3 s3. fits_now. rewrite ?high_limb, ?low_limb_of_word. split_limb (r4 + q3) q4 s4. fits_now. fits_now.
  rewrite ?high_limb, ?low_limb_of_word. split_limb (s0 + q4 * 19) q5 s5. rewrite wrap_id by (unfold fits; lia). fits_now. eexists. split; [done|]. split; [unfold tight, below; cbn [l0 l1 l2 l3 l4]; lia|].
  apply (same_mod _ _ (overflow a b + q4)). rewrite Z.mul_add_distr_r, Z.sub_add_distr, <- Hv. unfold val, p. cbn [l0 l1 l2 l3 l4]. lia.
Qed.

(** ** Elements that stand for integers *)
Definition rep (k : Z) (f : Fe) (x : Z) : Prop := below k f /\ val f mod p = x mod p.
Abbreviation T := (2 ^ 51 + 2 ^ 30).
Lemma rep_mod k f x : rep k f x -> rep k f (x mod p).
Proof. intros [Hb Hv]. split; [done|]. by rewrite Zmod_mod. Qed.
Lemma rep_loose f x : rep T f x -> rep (2 ^ 53) f x.
Proof. intros [Hb Hv]. split; [|done]. eapply below_weaken; [|exact Hb]. lia. Qed.
Lemma rep_add a b x y : rep T a x -> rep T b y -> exists h, fe_add a b = Ok h /\ rep (2 ^ 53) h (x + y).
Proof.
  intros [Ha Hx] [Hb Hy]. unfold below in *. destruct (limbs_add_spec a b) as (h&Hh&Hv&Hl); [unfold below; lia|unfold below; lia|]. exists h. split; [done|]. split; [unfold below; lia|].
  by rewrite Hv, Zplus_mod, Hx, Hy, <- Zplus_mod.
Qed.
Lemma rep_sub a b x y : rep T a x -> rep T b y -> exists h, fe_sub a b = Ok h /\ rep T h (x - y).
Proof.
  intros [Ha Hx] [Hb Hy]. destruct (sub_spec a b Ha Hb) as (h&Hh&Ht&Hv). exists h. split; [done|]. split; [done|]. by rewrite Hv, Zminus_mod, Hx, Hy, <- Zminus_mod.
Qed.
Lemma rep_mul a b x y : rep (2 ^ 53) a x -> rep (2 ^ 53) b y -> exists h, fe_mul a b = Ok h /\ rep T h (x * y).
Proof.
  intros [Ha Hx] [Hb Hy]. destruct (mul_spec a b Ha Hb) as (h&Hh&Ht&Hv). exists h. split; [done|]. split; [done|]. by rewrite Hv, Zmult_mod, Hx, Hy, <- Zmult_mod.
Qed.

(** ** Powers and the inverse *)
Section Powers.
Context (x : Z).
Definition power (f : Fe) (e : Z) : Prop := rep T f (x ^ e).
Lemma power_mul f g e e' : 0 <= e -> 0 <= e' -> power f e -> power g e' -> exists h, fe_mul f g = Ok h /\ power h (e + e').
Proof. intros He He' Hf Hg. unfold power. rewrite Z.pow_add_r by done. apply rep_mul; by apply rep_loose. Qed.
Lemma power_square n f e : 0 <= e -> power f e -> exists h, fe_square f n = Ok h /\ power h (e * 2 ^ Z.of_nat n).
Proof.
  revert f e. induction n as [|n IH]; intros f e He Hf; [exists f; rewrite Z.mul_1_r; done|]. cbn [fe_square]. destruct (power_mul f f e e He He Hf Hf) as (g&->&Hg). cbn [mbind outcome_bind].
  destruct (IH g (e + e) ltac:(lia) Hg) as (h&->&Hh). exists h. split; [done|]. rewrite Nat2Z.inj_succ, Z.pow_succ_r by lia. by replace (e * (2 * 2 ^ Z.of_nat n)) with ((e + e) * 2 ^ Z.of_nat n) by lia.
Qed.
Lemma power_square_mul n f g e e' : 0 <= e -> 0 <= e' -> power f e -> power g e' -> exists h, square_mul f n g = Ok h /\ power h (e * 2 ^ Z.of_nat n + e').
Proof.
  intros He He' Hf Hg. unfold square_mul. destruct (power_square n f e He Hf) as (a&->&Ha). cbn [mbind outcome_bind]. apply power_mul; [|done|done|done]. pose proof (Z.pow_nonneg 2 (Z.of_nat n)). nia.
Qed.
(** A step of the chain, from exponents [e] and [e1] to [e2]. *)
Lemma chain_step n f g e e1 e2 : power f e -> power g e1 -> (0 <=? e) && (0 <=? e1) && (e * 2 ^ Z.of_nat n + e1 =? e2) = true -> exists h, square_mul f n g = Ok h /\ power h e2.
Proof.
  intros Hf Hg H. apply andb_true_iff in H as [[H1%Z.leb_le H2%Z.leb_le]%andb_true_iff <-%Z.eqb_eq]. by apply power_square_mul.
Qed.
(** The addition chain is Fermat's inverse. *)
Lemma invert_spec z : power z 1 -> exists h, fe_invert z = Ok h /\ power h (p - 2).
Proof.
  intros Hz. unfold fe_invert.
  destruct (power_square 1 z 1 ltac:(lia) Hz) as (z2&->&H2). cbn [mbind outcome_bind].
  destruct (chain_step 2 z2 z (2) (1) (9) H2 Hz eq_refl) as (z9&->&H9). cbn [mbind outcome_bind].
  destruct (power_mul z9 z2 9 2 ltac:(lia) ltac:(lia) H9 H2) as (z11&->&H11). cbn [mbind outcome_bind].
  destruct (chain_step 1 z11 z9 (11) (9) (2 ^ 5 - 1) H11 H9 eq_refl) as (a5&->&A5). cbn [mbind outcome_bind].
  destruct (chain_step 5 a5 a5 (2 ^ 5 - 1) (2 ^ 5 - 1) (2 ^ 10 - 1) A5 A5 eq_refl) as (a10&->&A10). cbn [mbind outcome_bind].
  destruct (chain_step 10 a10 a10 (2 ^ 10 - 1) (2 ^ 10 - 1) (2 ^ 20 - 1) A10 A10 eq_refl) as (a20&->&A20). cbn [mbind outcome_bind].
  destruct (chain_step 20 a20 a20 (2 ^ 20 - 1) (2 ^ 20 - 1) (2 ^ 40 - 1) A20 A20 eq_refl) as (a40&->&A40). cbn [mbind outcome_bind].
  destruct (chain_step 10 a40 a10 (2 ^ 40 - 1) (2 ^ 10 - 1) (2 ^ 50 - 1) A40 A10 eq_refl) as (a50&->&A50). cbn [mbind outcome_bind].
  destruct (chain_step 50 a50 a50 (2 ^ 50 - 1) (2 ^ 50 - 1) (2 ^ 100 - 1) A50 A50 eq_refl) as (a100&->&A100). cbn [mbind outcome_bind].
  destruct (chain_step 100 a100 a100 (2 ^ 100 - 1) (2 ^ 100 - 1) (2 ^ 200 - 1) A100 A100 eq_refl) as (a200&->&A200). cbn [mbind outcome_bind].
  destruct (chain_step 50 a200 a50 (2 ^ 200 - 1) (2 ^ 50 - 1) (2 ^ 250 - 1) A200 A50 eq_refl) as (a250&->&A250). cbn [mbind outcome_bind].
  exact (chain_step 5 a250 z11 (2 ^ 250 - 1) 11 (p - 2) A250 H11 eq_refl).
Qed.
End Powers.

(** ** Masked swaps *)
Lemma swap_limb_0 a b : swap_limb (wrap 64 (0 - 0)) a b = (a, b).
Proof. unfold swap_limb. change (wrap 64 (0 - 0)) with 0. by rewrite Z.land_0_l, !Z.lxor_0_r. Qed.
Lemma swap_limb_1 a b : fits 64 a -> fits 64 b -> swap_limb (wrap 64 (0 - 1)) a b = (b, a).
Proof.
  intros Ha Hb. unfold swap_limb. change (wrap 64 (0 - 1)) with (Z.ones 64). rewrite Z.land_comm, land_ones_wrap by lia. rewrite wrap_id by (apply lxor_fits; (lia || done)).
  f_equal; [by rewrite <- Z.lxor_assoc, Z.lxor_nilpotent, Z.lxor_0_l|by rewrite (Z.lxor_comm a b), <- Z.lxor_assoc, Z.lxor_nilpotent, Z.lxor_0_l].
Qed.
Lemma swap_spec (c : bool) a b : below (2 ^ 64) a -> below (2 ^ 64) b -> fe_swap (Z.b2z c) a b = if c then (b, a) else (a, b).
Proof.
  intros (A0&A1&A2&A3&A4) (B0&B1&B2&B3&B4). unfold fe_swap. destruct a as [a0 a1 a2 a3 a4], b as [b0 b1 b2 b3 b4]. cbn [l0 l1 l2 l3 l4] in *. destruct c; cbn [Z.b2z].
  - by rewrite !swap_limb_1 by done.
  - by rewrite !swap_limb_0.
Qed.

(** ** Bytes in and out *)
Lemma word_at_spec b i : bytes_ok b -> 0 <= i -> i + 8 <= zlen b -> word_at b i = le_val b / 2 ^ (8 * i) mod 2 ^ 64.
Proof.
  intros Hb Hi Hl. unfold word_at. pose proof (ztake_zdrop i b) as H1. pose proof (ztake_zdrop 8 (zdrop i b)) as H2. set (w := ztake 8 (zdrop i b)) in *.
  assert (zlen (ztake i b) = i) as Ht by (rewrite zlen_ztake; lia). assert (zlen w = 8) as Hw by (unfold w; rewrite zlen_ztake, zlen_zdrop; lia).
  assert (bytes_ok (ztake i b) /\ bytes_ok w) as [Ot Ow] by (split; [by apply Forall_take|by apply Forall_take, Forall_drop]).
  rewrite <- H1, <- H2, !le_val_app, Ht, Hw. pose proof (le_val_bound _ Ot) as B1. pose proof (le_val_bound _ Ow) as B2. rewrite Ht in B1. rewrite Hw in B2.
  rewrite (Z.mul_comm (2 ^ (8 * i))), Z.div_add, Z.div_small, Z.add_0_l by lia. change (8 * 8) with 64 in *. by rewrite (Z.mul_comm (2 ^ 64)), Z.mod_add, Z.mod_small by lia.
Qed.
Lemma limb_spec n i s : 0 <= i -> 0 <= s <= 13 -> Z.land (Z.shiftr (n / 2 ^ i mod 2 ^ 64) s) MASK = n / 2 ^ (i + s) mod 2 ^ 51.
Proof.
  intros Hi Hs. rewrite low_limb, Z.shiftr_div_pow2 by lia. replace (2 ^ 64) with (2 ^ s * 2 ^ (64 - s)) by (rewrite <- Z.pow_add_r by lia; f_equal; lia).
  rewrite Z.rem_mul_r, Z.mul_comm, Z.div_add, (Z.div_small (_ mod _)), Z.add_0_l by (try apply Z.mod_pos_bound; lia). rewrite Z.div_div, <- Z.pow_add_r by lia.
  replace (2 ^ (64 - s)) with (2 ^ 51 * 2 ^ (13 - s)) by (rewrite <- Z.pow_add_r by lia; f_equal; lia). by rewrite Z.rem_mul_r, Z.mul_comm, Z.mod_add, Z.mod_mod by lia.
Qed.
Lemma decode_spec b : bytes_ok b -> zlen b = 32 -> below (2 ^ 51) (fe_decode b) /\ val (fe_decode b) = le_val b mod 2 ^ 255.
Proof.
  intros Hb Hl. unfold fe_decode. rewrite !word_at_spec by (done || lia). rewrite <- (Z.shiftr_0_r (le_val b / 2 ^ (8 * 0) mod 2 ^ 64)), !limb_spec by lia. change (8 * 0 + 0) with 0. change (8 * 6 + 3) with 51. change (8 * 12 + 6) with 102. change (8 * 19 + 1) with 153. change (8 * 24 + 12) with 204. set (n := le_val b).
  assert (forall k, 0 <= n / 2 ^ k mod 2 ^ 51 < 2 ^ 51) as Hd by (intros k; apply Z.mod_pos_bound; lia). split; [repeat split; cbn [l0 l1 l2 l3 l4]; apply Hd|]. unfold val. cbn [l0 l1 l2 l3 l4].
  assert (forall k m, 0 <= k -> 0 <= m -> n / 2 ^ k mod 2 ^ (51 + m) = n / 2 ^ k mod 2 ^ 51 + 2 ^ 51 * (n / 2 ^ (k + 51) mod 2 ^ m)) as Hsplit.
  { intros k m Hk Hm. rewrite Z.pow_add_r, Z.rem_mul_r by lia. by rewrite Z.div_div, <- Z.pow_add_r by lia. }
  pose proof (Hsplit 0 204 ltac:(lia) ltac:(lia)) as S0. pose proof (Hsplit 51 153 ltac:(lia) ltac:(lia)) as S1. pose proof (Hsplit 102 102 ltac:(lia) ltac:(lia)) as S2. pose proof (Hsplit 153 51 ltac:(lia) ltac:(lia)) as S3.
  change (51 + 204) with 255 in S0. change (0 + 51) with 51 in S0. change (51 + 153) with 204 in S1. change (51 + 51) with 102 in S1. change (51 + 102) with 153 in S2. change (102 + 51) with 153 in S2.
  change (51 + 51) with 102 in S3. change (153 + 51) with 204 in S3. change (2 ^ 0) with 1 in *. rewrite Z.div_1_r in *. rewrite S0, S1, S2, S3. ring.
Qed.
(** Two limbs that share a word. *)
Lemma word_join a b s : 0 <= s <= 64 -> 0 <= a < 2 ^ s -> Z.lor a (wrap 64 (Z.shiftl b s)) = a + 2 ^ s * (b mod 2 ^ (64 - s)).
Proof.
  intros Hs Ha. unfold wrap. rewrite Z.shiftl_mul_pow2 by lia. replace (2 ^ 64) with (2 ^ (64 - s) * 2 ^ s) by (rewrite <- Z.pow_add_r by lia; f_equal; lia).
  rewrite Z.mul_mod_distr_r by lia. rewrite <- Z.shiftl_mul_pow2, Z.lor_comm, lor_shiftl_add by (done || lia). lia.
Qed.
Lemma words_bytes w0 w1 w2 w3 : fits 64 w0 -> fits 64 w1 -> fits 64 w2 -> fits 64 w3 -> concat (map (le_bytes 8) [w0; w1; w2; w3]) = le_bytes 32 (w0 + 2 ^ 64 * w1 + 2 ^ 128 * w2 + 2 ^ 192 * w3).
Proof.
  intros H0 H1 H2 H3. cbn [map concat]. set (l := _ ++ _). assert (bytes_ok l) as Hl by (unfold l; rewrite !Forall_app; repeat split; (apply le_bytes_ok || done)).
  assert (length l = 32%nat) as Hlen by (unfold l; rewrite !length_app, !le_bytes_length; done). rewrite <- (le_bytes_val l Hl), Hlen. f_equal. unfold l. rewrite !le_val_app, !le_bytes_zlen, !le_round_trip by done. change (le_val []) with 0. change (8 * Z.of_nat 8) with 64. ring.
Qed.
Lemma packed h : below (2 ^ 51) h ->
  concat (map (le_bytes 8) [Z.lor (l0 h) (wrap 64 (Z.shiftl (l1 h) 51)); Z.lor (Z.shiftr (l1 h) 13) (wrap 64 (Z.shiftl (l2 h) 38));
    Z.lor (Z.shiftr (l2 h) 26) (wrap 64 (Z.shiftl (l3 h) 25)); Z.lor (Z.shiftr (l3 h) 39) (wrap 64 (Z.shiftl (l4 h) 12))]) = le_bytes 32 (val h).
Proof.
  unfold below. intros (H0&H1&H2&H3&H4). rewrite !Z.shiftr_div_pow2 by lia.
  assert (forall x k, 0 <= k <= 51 -> 0 <= x < 2 ^ 51 -> x = 2 ^ k * (x / 2 ^ k) + x mod 2 ^ k /\ 0 <= x / 2 ^ k < 2 ^ (51 - k) /\ 0 <= x mod 2 ^ k < 2 ^ k) as Hdiv.
  { intros x k Hk Hx. split; [apply Z.div_mod; lia|]. split; [|apply Z.mod_pos_bound; lia]. split; [apply Z.div_pos; lia|]. apply Z.div_lt_upper_bound; [lia|]. rewrite <- Z.pow_add_r by lia. replace (k + (51 - k)) with 51 by lia. lia. }
  destruct (Hdiv (l1 h) 13 ltac:(lia) H1) as (E1&Q1&R1). destruct (Hdiv (l2 h) 26 ltac:(lia) H2) as (E2&Q2&R2). destruct (Hdiv (l3 h) 39 ltac:(lia) H3) as (E3&Q3&R3).
  rewrite !word_join by lia. change (64 - 51) with 13. change (64 - 38) with 26. change (64 - 25) with 39. rewrite (Z.mod_small (l4 h)) by lia.
  rewrite words_bytes by (unfold fits; lia). f_equal. unfold val. lia.
Qed.
Lemma encode_spec f : tight f -> fe_encode f = Ok (le_bytes 32 (val f mod p)).
Proof.
  intros Hf. unfold tight, below in Hf. unfold fe_encode. destruct (carry_spec f) as (h1&c1&->&V1&C1&L1&R1); [unfold below; lia|]. cbn [mbind outcome_bind].
  assert (0 <= c1 <= 1) as C1' by (assert ((l4 f + 2 ^ 12) / 2 ^ 51 < 2) by (apply Z.div_lt_upper_bound; lia); lia).
  destruct (carry_spec h1) as (h2&c2&->&V2&C2&L2&R2); [unfold below; lia|]. cbn [mbind outcome_bind].
  assert (0 <= c2 <= 1) as C2' by (assert ((l4 h1 + 2 ^ 12) / 2 ^ 51 < 2) by (apply Z.div_lt_upper_bound; lia); lia).
  assert (val f mod p = val h2 mod p) as -> by (rewrite (same_mod _ _ _ V2), (same_mod _ _ _ V1); done).
  assert (0 <= l0 h2 < 2 ^ 51) as L2' by (unfold val, p in *; lia). clear V1 V2 L1 R1 C1 C2 C1' C2' Hf L2.
  fits_now. rewrite high_limb. split_limb (l0 h2 + 19) q0 r0. fits_now. rewrite high_limb. split_limb (l1 h2 + q0) q1 r1. fits_now. rewrite high_limb. split_limb (l2 h2 + q1) q2 r2. fits_now.
  rewrite high_limb. split_limb (l3 h2 + q2) q3 r3. fits_now. rewrite high_limb. split_limb (l4 h2 + q3) q r4. fits_now. fits_now.
  edestruct carry_up_spec as (h3&Hh3&V3&L3&L4); [|rewrite Hh3]; [unfold below; cbn [l0 l1 l2 l3 l4]; lia|]. cbn [mbind outcome_bind]. rewrite low_limb.
  unfold val in V3. cbn [l0 l1 l2 l3 l4] in V3, L4. split_limb (l4 h3) q5 r5.
  pose proof (packed (mkFe (l0 h3) (l1 h3) (l2 h3) (l3 h3) r5) ltac:(unfold below; cbn [l0 l1 l2 l3 l4]; lia)) as Hpack. cbn [l0 l1 l2 l3 l4] in Hpack. cbv zeta. rewrite Hpack. do 2 f_equal. unfold val. cbn [l0 l1 l2 l3 l4].
  apply (Zmod_unique _ _ q); unfold p; lia.
Qed.
