(* ===== verification/Ladder.v ===== *)
(** * The ladder of [net/x25519.rs] computes X25519

    The function of RFC 7748 over the integers modulo [p], written without
    masks, limbs or deferred swaps, and that the code computes it on all keys
    and points. *)
From Stdlib Require Import Zpow_facts.
From S2P Require Import Prelude Bytes X25519 Field25519.

(** ** The function *)
Abbreviation xz := (Z * Z)%type.
(** Twice a point, and the sum of two whose difference has coordinate [u]. *)
Definition double (q : xz) : xz :=
  let aa := (fst q + snd q) ^ 2 mod p in
  let bb := (fst q - snd q) ^ 2 mod p in
  let e := aa - bb in
  (aa * bb mod p, e * (aa + 121665 * e) mod p).
Definition dadd (u : Z) (q r : xz) : xz :=
  let da := (fst r - snd r) * (fst q + snd q) in
  let cb := (fst r + snd r) * (fst q - snd q) in
  ((da + cb) ^ 2 mod p, u * (da - cb) ^ 2 mod p).
Definition rung (u : Z) (qr : xz * xz) (bit : bool) : xz * xz :=
  let '(q, r) := qr in if bit then (dadd u q r, double r) else (double q, dadd u q r).
(** The bits of a scalar from the highest, its three lowest cleared and bit 254
    set. *)
Definition scalar_of (n : Z) : Z := Z.lor (2 ^ 254) (Z.shiftl (Z.land (Z.shiftr n 3) (Z.ones 251)) 3).
Definition scalar_bits (k : Z) : list bool := map (Z.testbit k) (rev (seqZ 0 255)).
Definition X25519 (k u : Z) : Z :=
  let q := fst (fold_left (rung u) (scalar_bits (scalar_of k)) ((1, 0), (u, 1))) in
  fst q * Zpow_mod (snd q) (p - 2) p mod p.

(** ** A turn *)
Lemma power_2 x : x * x = x ^ 2.
Proof. lia. Qed.
#[local] Opaque p.
Lemma ladder_arith_spec fu fx2 fz2 fx3 fz3 u q r : rep T fu u -> rep T fx2 (fst q) -> rep T fz2 (snd q) -> rep T fx3 (fst r) -> rep T fz3 (snd r) ->
  exists a b c d, ladder_arith fu fx2 fz2 fx3 fz3 = Ok (a, b, c, d) /\ rep T a (fst (double q)) /\ rep T b (snd (double q)) /\ rep T c (fst (dadd u q r)) /\ rep T d (snd (dadd u q r)).
Proof.
  intros Hu Hx2 Hz2 Hx3 Hz3. unfold ladder_arith.
  destruct (rep_add _ _ _ _ Hx2 Hz2) as (a&->&Ra). cbn [mbind outcome_bind].
  destruct (rep_mul _ _ _ _ Ra Ra) as (aa&->&Raa). cbn [mbind outcome_bind].
  destruct (rep_sub _ _ _ _ Hx2 Hz2) as (b&->&Rb). cbn [mbind outcome_bind].
  destruct (rep_mul _ _ _ _ (rep_loose _ _ Rb) (rep_loose _ _ Rb)) as (bb&->&Rbb). cbn [mbind outcome_bind].
  rewrite power_2 in Raa, Rbb. apply rep_mod in Raa, Rbb.
  destruct (rep_sub _ _ _ _ Raa Rbb) as (e&->&Re). cbn [mbind outcome_bind].
  destruct (rep_add _ _ _ _ Hx3 Hz3) as (c&->&Rc). cbn [mbind outcome_bind].
  destruct (rep_sub _ _ _ _ Hx3 Hz3) as (d&->&Rd). cbn [mbind outcome_bind].
  destruct (rep_mul _ _ _ _ (rep_loose _ _ Rd) Ra) as (da&->&Rda). cbn [mbind outcome_bind].
  destruct (rep_mul _ _ _ _ Rc (rep_loose _ _ Rb)) as (cb&->&Rcb). cbn [mbind outcome_bind].
  destruct (rep_add _ _ _ _ Rda Rcb) as (sum&->&Rsum). cbn [mbind outcome_bind].
  destruct (rep_mul _ _ _ _ Rsum Rsum) as (x3&->&Rx3). cbn [mbind outcome_bind].
  destruct (rep_sub _ _ _ _ Rda Rcb) as (diff&->&Rdiff). cbn [mbind outcome_bind].
  destruct (rep_mul _ _ _ _ (rep_loose _ _ Rdiff) (rep_loose _ _ Rdiff)) as (dd&->&Rdd). cbn [mbind outcome_bind].
  destruct (rep_mul _ _ _ _ (rep_loose _ _ Hu) (rep_loose _ _ Rdd)) as (z3&->&Rz3). cbn [mbind outcome_bind].
  destruct (rep_mul _ _ _ _ (rep_loose _ _ Raa) (rep_loose _ _ Rbb)) as (x2&->&Rx2). cbn [mbind outcome_bind].
  assert (rep T (mkFe 121665 0 0 0 0) 121665) as Rk by (split; [unfold below; cbn; lia|done]).
  destruct (rep_mul _ _ _ _ (rep_loose _ _ Rk) (rep_loose _ _ Re)) as (ee&->&Ree). cbn [mbind outcome_bind].
  destruct (rep_add _ _ _ _ Raa Ree) as (s&->&Rs). cbn [mbind outcome_bind].
  destruct (rep_mul _ _ _ _ (rep_loose _ _ Re) Rs) as (z2&->&Rz2). cbn [mbind outcome_bind].
  rewrite power_2 in Rx3, Rz3. exists x2, z2, x3, z3. split; [done|]. unfold double, dadd. cbn [fst snd]. split_and!; by apply rep_mod.
Qed.
(** Adding two points does not depend on their order. *)
Lemma dadd_comm u q r : dadd u q r = dadd u r q.
Proof. unfold dadd. f_equal; f_equal; ring. Qed.

(** ** The swaps *)

(** The four elements stand for two points, the second first when swapped. *)
Definition stands (s : Ladder) (c : bool) (qr : xz * xz) : Prop :=
  let '(q, r) := if c then (snd qr, fst qr) else qr in
  rep T (x2 s) (fst q) /\ rep T (z2 s) (snd q) /\ rep T (x3 s) (fst r) /\ rep T (z3 s) (snd r).
Lemma rep_fits f x : rep T f x -> below (2 ^ 64) f.
Proof. intros [H _]. eapply below_weaken; [|exact H]. lia. Qed.
Lemma swap_both_spec s c d qr : stands s c qr -> stands (swap_both (Z.b2z d) s) (xorb c d) qr.
Proof.
  unfold stands, swap_both. intros H. destruct qr as [q r]. assert (below (2 ^ 64) (x2 s) /\ below (2 ^ 64) (z2 s) /\ below (2 ^ 64) (x3 s) /\ below (2 ^ 64) (z3 s)) as (B1&B2&B3&B4).
  { destruct c; destruct H as (H1&H2&H3&H4); split_and!; by eapply rep_fits. }
  rewrite !swap_spec by done. destruct c, d; cbn in *; tauto.
Qed.
Lemma ladder_turn_spec fu u s c qr bit : rep T fu u -> swapped s = Z.b2z c -> stands s c qr ->
  exists s', ladder_turn fu s (Z.b2z bit) = Ok s' /\ swapped s' = Z.b2z bit /\ stands s' bit (rung u qr bit).
Proof.
  intros Hu Hc Hs. unfold ladder_turn. rewrite Hc. assert (Z.lxor (Z.b2z c) (Z.b2z bit) = Z.b2z (xorb c bit)) as -> by by destruct c, bit.
  apply (swap_both_spec s c (xorb c bit)) in Hs. replace (xorb c (xorb c bit)) with bit in Hs by by destruct c, bit. cbv zeta. destruct qr as [q r]. unfold stands in Hs.
  destruct bit; cbn [fst snd] in Hs; destruct Hs as (H1&H2&H3&H4).
  - destruct (ladder_arith_spec _ _ _ _ _ u r q Hu H1 H2 H3 H4) as (a&b&c'&d&->&R1&R2&R3&R4). cbn [mbind outcome_bind]. eexists. split; [done|]. split; [done|]. unfold stands, rung. cbn [fst snd x2 z2 x3 z3].
    rewrite (dadd_comm u q r). done.
  - destruct (ladder_arith_spec _ _ _ _ _ u q r Hu H1 H2 H3 H4) as (a&b&c'&d&->&R1&R2&R3&R4). cbn [mbind outcome_bind]. eexists. split; [done|]. split; [done|]. done.
Qed.
Lemma ladder_from_spec fu u bits s c qr : rep T fu u -> swapped s = Z.b2z c -> stands s c qr ->
  exists s' c', ladder_from fu (map Z.b2z bits) s = Ok s' /\ swapped s' = Z.b2z c' /\ stands s' c' (fold_left (rung u) bits qr).
Proof.
  intros Hu. revert s c qr. induction bits as [|bit bits IH]; intros s c qr Hc Hs; [by exists s, c|]. cbn [map ladder_from fold_left].
  destruct (ladder_turn_spec fu u s c qr bit Hu Hc Hs) as (s1&->&Hc1&Hs1). cbn [mbind outcome_bind]. by apply (IH s1 bit).
Qed.

(** ** The bits of the scalar *)
Lemma byte_at_0 b l : byte_at (b :: l) 0 = b.
Proof. done. Qed.
Lemma byte_at_cons b l i : 0 < i -> byte_at (b :: l) i = byte_at l (i - 1).
Proof.
  intros Hi. unfold byte_at, zget. destruct (Z.ltb_spec i 0), (Z.ltb_spec (i - 1) 0); try lia. replace (Z.to_nat i) with (S (Z.to_nat (i - 1))) by lia. done.
Qed.
Lemma testbit_bytes l t : bytes_ok l -> 0 <= t -> Z.testbit (le_val l) t = Z.testbit (byte_at l (t / 8)) (t mod 8).
Proof.
  intros Hl. revert t. induction Hl as [|b l Hb Hl IH]; intros t Ht; [unfold byte_at, zget; cbn [le_val]; destruct (_ <? 0); by rewrite !Z.bits_0|].
  unfold u8, fits in Hb. pose proof (Z.div_mod t 8 ltac:(lia)) as Hd. pose proof (Z.mod_pos_bound t 8 ltac:(lia)) as Hm. cbn [le_val]. change 256 with (2 ^ 8). destruct (Z.lt_ge_cases t 8) as [Hlt|Hge].
  - rewrite Z.div_small, Z.mod_small, byte_at_0 by lia. rewrite <- (Z.mod_pow2_bits_low _ 8 t), (Z.mul_comm (2 ^ 8)), Z.mod_add, Z.mod_small by lia. done.
  - assert (0 < t / 8) by (apply Z.div_str_pos; lia). rewrite byte_at_cons by done. replace t with (t - 8 + 8) at 1 by lia. rewrite <- Z.div_pow2_bits by lia. rewrite (Z.mul_comm (2 ^ 8)), Z.div_add, Z.div_small, Z.add_0_l, IH by lia.
    replace t with ((t - 8) + 1 * 8) at 3 4 by lia. rewrite Z.div_add, Z.mod_add by lia. f_equal. f_equal. lia.
Qed.
Lemma key_bit_spec k t : key_bit k t = Z.b2z (Z.testbit (byte_at k (t / 8)) (t mod 8)).
Proof.
  unfold key_bit. change 1 with (Z.ones 1). rewrite Z.land_ones by lia. change (2 ^ 1) with 2. rewrite <- Z.bit0_mod, Z.shiftr_spec, Z.add_0_l by lia. done.
Qed.
Lemma byte_at_insert l i j x : 0 <= i < zlen l -> 0 <= j -> byte_at (<[Z.to_nat i := x]> l) j = if j =? i then x else byte_at l j.
Proof.
  intros Hi Hj. unfold byte_at, zget, zlen in *. destruct (Z.ltb_spec j 0); [lia|]. destruct (Z.eqb_spec j i) as [->|Hne]; [by rewrite list_lookup_insert_eq by lia|]. by rewrite list_lookup_insert_ne by lia.
Qed.
Lemma clamp_bytes s i : zlen s = 32 -> 0 <= i -> byte_at (clamp s) i = if i =? 31 then Z.lor (Z.land (byte_at s 31) 127) 64 else if i =? 0 then Z.land (byte_at s 0) 0xf8 else byte_at s i.
Proof.
  intros Hs Hi. unfold clamp. change 31%nat with (Z.to_nat 31). change 0%nat with (Z.to_nat 0). rewrite !byte_at_insert; [|lia|lia|lia|lia|unfold zlen in *; rewrite length_insert; lia|lia]. done.
Qed.
Lemma key_bits_spec s : bytes_ok s -> zlen s = 32 -> key_bits (clamp s) = map Z.b2z (scalar_bits (scalar_of (le_val s))).
Proof.
  intros Hs Hl. unfold key_bits, scalar_bits. rewrite map_map. apply map_ext_in. intros t Ht%in_rev%list_elem_of_In%elem_of_seqZ. rewrite key_bit_spec. f_equal.
  pose proof (Z.div_mod t 8 ltac:(lia)) as Hd. pose proof (Z.mod_pos_bound t 8 ltac:(lia)) as Hm. rewrite clamp_bytes by (done || apply Z.div_pos; lia). unfold scalar_of. rewrite Z.lor_spec.
  assert (3 <= t -> Z.testbit (Z.shiftl (Z.land (Z.shiftr (le_val s) 3) (Z.ones 251)) 3) t = (t <? 254) && Z.testbit (byte_at s (t / 8)) (t mod 8)) as Hmid.
  { intros H3. rewrite Z.shiftl_spec, Z.land_spec, Z.shiftr_spec by lia. replace (t - 3 + 3) with t by lia. rewrite testbit_bytes by (done || lia). destruct (Z.ltb_spec t 254).
    - rewrite Z.ones_spec_low by lia. by rewrite andb_comm.
    - rewrite Z.ones_spec_high by lia. by rewrite andb_false_r. }
  destruct (Z.eqb_spec (t / 8) 31) as [H31|H31].
  - rewrite H31 in *. rewrite Hmid by lia. rewrite Z.lor_spec, Z.land_spec. destruct (Z.ltb_spec t 254).
    + rewrite Z.pow2_bits_false by lia. change 64 with (2 ^ 6). rewrite Z.pow2_bits_false by lia. change 127 with (Z.ones 7). rewrite Z.ones_spec_low by lia. cbn [orb andb]. by rewrite orb_false_r, andb_true_r.
    + assert (t = 254) as -> by lia. change (254 mod 8) with 6. change (Z.testbit 64 6) with true. rewrite orb_true_r. by rewrite Z.pow2_bits_true by lia.
  - rewrite Z.pow2_bits_false by lia. cbn [orb]. destruct (Z.eqb_spec (t / 8) 0) as [H0|H0].
    + rewrite Z.land_spec. destruct (Z.lt_ge_cases t 3).
      * rewrite Z.shiftl_spec_low by lia. assert (t = 0 \/ t = 1 \/ t = 2) as [->|[->| ->]] by lia; by rewrite andb_false_r.
      * rewrite Hmid by done. destruct (Z.ltb_spec t 254); [|lia]. rewrite H0 in *. assert (t = 3 \/ t = 4 \/ t = 5 \/ t = 6 \/ t = 7) as [->|[->|[->|[->| ->]]]] by lia; by rewrite andb_true_r.
    + assert (8 <= t) by (assert (1 <= t / 8) by (pose proof (Z.div_pos t 8); lia); lia). rewrite Hmid by lia. destruct (Z.ltb_spec t 254); [done|]. exfalso. apply H31. symmetry. apply (Zdiv_unique t 8 31 (t - 248)); lia.
Qed.

(** ** The function the code computes *)
Lemma fold_stands s c qr : swapped s = Z.b2z c -> stands s c qr -> let t := swap_both (swapped s) s in rep T (x2 t) (fst (fst qr)) /\ rep T (z2 t) (snd (fst qr)).
Proof.
  intros Hc Hs. rewrite Hc. apply (swap_both_spec s c c) in Hs. rewrite xorb_nilpotent in Hs. destruct qr as [q r]. cbn zeta. unfold stands in Hs. tauto.
Qed.
Lemma x25519_spec scalar point : bytes_ok scalar -> zlen scalar = 32 -> bytes_ok point -> zlen point = 32 ->
  x25519 scalar point = Ok (le_bytes 32 (X25519 (le_val scalar) (le_val point mod 2 ^ 255))).
Proof.
  intros Hs Ls Hp Lp. unfold x25519, X25519. rewrite key_bits_spec by done. set (u := le_val point mod 2 ^ 255). destruct (decode_spec point Hp Lp) as [Hb Hv]. fold u in Hv.
  assert (rep T (fe_decode point) u) as Hu by (split; [eapply below_weaken; [|exact Hb]; lia|by rewrite Hv]).
  assert (forall x, 0 <= x < 2 ^ 30 -> rep T (mkFe x 0 0 0 0) x) as Hsmall by (intros x Hx; split; [unfold below; cbn [l0 l1 l2 l3 l4]; lia|f_equal; unfold val; cbn [l0 l1 l2 l3 l4]; lia]).
  destruct (ladder_from_spec (fe_decode point) u (scalar_bits (scalar_of (le_val scalar))) (mkLadder (mkFe 1 0 0 0 0) (mkFe 0 0 0 0 0) (fe_decode point) (mkFe 1 0 0 0 0) 0) false ((1, 0), (u, 1)) Hu eq_refl) as (s&c&->&Hc&Hst).
  { unfold stands. cbn [fst snd x2 z2 x3 z3]. split_and!; [by apply Hsmall|by apply Hsmall|done|by apply Hsmall]. }
  cbn [mbind outcome_bind]. cbv zeta. destruct (fold_stands s c _ Hc Hst) as [Hx Hz]. set (q := fst (fold_left _ _ _)) in *.
  destruct (invert_spec (snd q) (z2 (swap_both (swapped s) s))) as (i&->&Hi); [unfold power; by rewrite Z.pow_1_r|]. cbn [mbind outcome_bind].
  destruct (rep_mul _ _ _ _ (rep_loose _ _ Hx) (rep_loose _ _ Hi)) as (x&->&Rx). cbn [mbind outcome_bind]. destruct Rx as [Ht Hvx]. rewrite encode_spec by done. rewrite Hvx.
  rewrite Zpow_mod_correct by done. by rewrite Z.mul_mod_idemp_r by done.
Qed.
(** C5. For any key and any point of 32 bytes, the limbs, the masks and the
    addition chain of [x25519] compute X25519 as RFC 7748 defines it over the
    integers modulo 2^255 - 19: no sum or product passes its word, and the
    result is the reduced coordinate in little-endian bytes. *)
Theorem x25519_is_the_function scalar point : bytes_ok scalar -> zlen scalar = 32 -> bytes_ok point -> zlen point = 32 ->
  x25519 scalar point = Ok (le_bytes 32 (X25519 (le_val scalar) (le_val point mod 2 ^ 255))).
Proof. apply x25519_spec. Qed.
(** The first vector of RFC 7748, section 6.1. *)
Definition alice : list Z := [0x77; 0x07; 0x6d; 0x0a; 0x73; 0x18; 0xa5; 0x7d; 0x3c; 0x16; 0xc1; 0x72; 0x51; 0xb2; 0x66; 0x45; 0xdf; 0x4c; 0x2f; 0x87; 0xeb; 0xc0; 0x99; 0x2a; 0xb1; 0x77; 0xfb; 0xa5; 0x1d; 0xb9; 0x2c; 0x2a].
Lemma x25519_witness : x25519 alice BASE = Ok (le_bytes 32 (X25519 (le_val alice) (le_val BASE mod 2 ^ 255))).
Proof.
  apply (x25519_is_the_function alice BASE).
  - repeat (apply Forall_cons_2; [unfold u8, fits; lia|]). apply Forall_nil_2.
  - reflexivity.
  - apply Forall_cons_2; [unfold u8, fits; lia|]. apply Forall_replicate. unfold u8, fits. lia.
  - reflexivity.
Defined.
