(* ===== verification/Png.v ===== *)
(** * PNG files ([media/png.rs])

    The chunks of a PNG file, its header, the image data through [zlib], the
    row filters undone, and the pixels as RGB. [get] is checked, a slice out of
    range panics; the loop over chunks that would run out of its steps is a
    [Panic] too. *)
From S2P Require Import Prelude Bytes Inflate BitStream Huffman Deflate.

(** ** [media/mod.rs] *)
Definition MAX_PIXELS : Z := 2 ^ 26.
Record Image := mkImage { i_width : Z; i_height : Z; rgb : list Z }.
Definition refuse (what : string) : error := Media [Lit what; Lit ", which tachyon does not decode"].
(** [saturating_mul] and [saturating_add] of a [usize]. *)
Definition sat (z : Z) : Z := Z.min z (2 ^ 64 - 1).
Definition check_size (width height : Z) : result unit :=
  if (width =? 0) || (height =? 0) || (MAX_PIXELS <? sat (width * height))
  then Err (Media [Lit "a "; Num width; Lit "×"; Num height; Lit " image: at most "; Num MAX_PIXELS; Lit " pixels, none empty"])
  else Ok tt.

(** ** The header *)
Record Header := mkHeader { width : Z; height : Z; depth : Z; color : Z }.
Definition channels (h : Header) : Z := if (color h =? 0) || (color h =? 3) then 1 else if color h =? 4 then 2 else if color h =? 2 then 3 else 4.
Definition div_ceil (a b : Z) : Z := (a + b - 1) / b.
Definition stride (h : Header) : Z := div_ceil (width h * channels h * depth h) 8.
Definition one_of (l : list Z) (x : Z) : bool := existsb (Z.eqb x) l.
Definition valid_depth (h : Header) : bool :=
  if color h =? 0 then one_of [1; 2; 4; 8; 16] (depth h)
  else if color h =? 3 then one_of [1; 2; 4; 8] (depth h)
  else if one_of [2; 4; 6] (color h) then one_of [8; 16] (depth h)
  else false.
Definition parse_header (d : list Z) : result Header :=
  if zlen d <? 13 then Err (bad "a short PNG header")
  else
    w ← or_panic (zslice d 0 4); ht ← or_panic (zslice d 4 8);
    dp ← or_panic (zget d 8); cl ← or_panic (zget d 9); d10 ← or_panic (zget d 10); d11 ← or_panic (zget d 11); d12 ← or_panic (zget d 12);
    let h := mkHeader (be_val w) (be_val ht) dp cl in
    if negb (valid_depth h) || negb (d10 =? 0) || negb (d11 =? 0) then Err (bad "a PNG header with an invalid color type, depth, compression or filter")
    else if negb (d12 =? 0) then Err (refuse "an interlaced PNG")
    else _ ← check_size (width h) (height h); Ok h.

(** ** The chunks *)
Definition IHDR : list Z := [73; 72; 68; 82].
Definition PLTE : list Z := [80; 76; 84; 69].
Definition IDAT : list Z := [73; 68; 65; 84].
Definition IEND : list Z := [73; 69; 78; 68].
Fixpoint chunks_from (fuel : nat) (bytes : list Z) (at_ : Z) (out : list (list Z * list Z)) : result (list (list Z * list Z)) :=
  match fuel with
  | O => Panic
  | S fuel =>
      len ← ok_or (be_val <$> zslice bytes at_ (at_ + 4)) (bad "a PNG ends early");
      data ← ok_or (zslice bytes (at_ + 8) (sat (at_ + 8 + len))) (bad "a PNG chunk ends early");
      kind ← or_panic (zslice bytes (at_ + 4) (at_ + 8));
      if bool_decide (kind = IEND) then Ok out else chunks_from fuel bytes (at_ + (12 + len)) (out ++ [(kind, data)])
  end.
Definition chunks (bytes : list Z) : result (list (list Z * list Z)) := chunks_from (S (length bytes)) bytes 8 [].

(** ** The filters *)
Definition paeth (a b c : Z) : Z :=
  let p := a + b - c in
  let pa := Z.abs (p - a) in let pb := Z.abs (p - b) in let pc := Z.abs (p - c) in
  if (pa <=? pb) && (pa <=? pc) then a else if pb <=? pc then b else c.
Definition predict (filter a b c : Z) : result Z :=
  if filter =? 0 then Ok 0 else if filter =? 1 then Ok a else if filter =? 2 then Ok b else if filter =? 3 then Ok ((a + b) / 2) else if filter =? 4 then Ok (paeth a b c)
  else Err (bad "a PNG row filter past 4").
(** A row from left to right: [row] is what is done of it. *)
Fixpoint unfilter_row (filter bpp : Z) (up src row : list Z) : result (list Z) :=
  match src with
  | [] => Ok row
  | x :: src =>
      let i := zlen row in
      let b := default 0 (zget up i) in
      '(a, c) ← (if i <? bpp then Ok (0, 0) else a ← or_panic (zget row (i - bpp)); Ok (a, default 0 (zget up (i - bpp))));
      v ← predict filter a b c;
      unfilter_row filter bpp up src (row ++ [wrap 8 (x + v)])
  end.
Fixpoint unfilter_from (n : nat) (st bpp : Z) (raw : list Z) (y : Z) (up out : list Z) : result (list Z) :=
  match n with
  | O => Ok out
  | S n =>
      filter ← or_panic (zget raw (y * (st + 1)));
      src ← or_panic (zslice raw (y * (st + 1) + 1) ((y + 1) * (st + 1)));
      row ← unfilter_row filter bpp up src [];
      unfilter_from n st bpp raw (y + 1) row (out ++ row)
  end.
Definition pixel_bytes (h : Header) : Z := div_ceil (channels h * depth h) 8.
Definition unfilter (h : Header) (raw : list Z) : result (list Z) := unfilter_from (Z.to_nat (height h)) (stride h) (pixel_bytes h) raw 0 [] [].

(** ** The pixels *)
Definition sample (h : Header) (row : list Z) (i : Z) : result Z :=
  if depth h =? 8 then or_panic (zget row i)
  else if depth h =? 16 then or_panic (zget row (2 * i))
  else
    x ← or_panic (zget row (i * depth h / 8));
    let v := Z.land (Z.shiftr x (8 - depth h - i * depth h mod 8)) (Z.ones (depth h)) in
    Ok (if color h =? 3 then v else v * (255 / Z.ones (depth h))).
Definition pixel (h : Header) (palette row : list Z) (x : Z) : result (list Z) :=
  let n := channels h in
  if (color h =? 0) || (color h =? 4) then s ← sample h row (x * n); Ok [s; s; s]
  else if color h =? 3 then s ← sample h row x; Ok (default [0; 0; 0] (zslice palette (s * 3) (s * 3 + 3)))
  else r ← sample h row (x * n); g ← sample h row (x * n + 1); b ← sample h row (x * n + 2); Ok [r; g; b].
Fixpoint pixels (h : Header) (palette row : list Z) (xs out : list Z) : result (list Z) :=
  match xs with [] => Ok out | x :: xs => p ← pixel h palette row x; pixels h palette row xs (out ++ p) end.
Fixpoint row_pixels (h : Header) (palette : list Z) (rows : list (list Z)) (out : list Z) : result (list Z) :=
  match rows with [] => Ok out | row :: rows => out ← pixels h palette row (seqZ 0 (width h)) out; row_pixels h palette rows out end.
Definition to_rgb (h : Header) (rows palette : list Z) : result (list Z) := row_pixels h palette (Prelude.chunks (stride h) rows) [].

(** ** The file *)
Definition find_chunk (kind : list Z) (l : list (list Z * list Z)) : option (list Z) := snd <$> List.find (fun c => bool_decide (fst c = kind)) l.
Definition png_decode (bytes : list Z) : result Image :=
  cs ← chunks bytes;
  hd ← ok_or (find_chunk IHDR cs) (bad "a PNG without a header");
  h ← parse_header hd;
  let idat := concat (map snd (List.filter (fun c => bool_decide (fst c = IDAT)) cs)) in
  raw ← zlib idat;
  if zlen raw <? height h * (stride h + 1) then Err (bad "a PNG's image data is short")
  else
    rows ← unfilter h raw;
    px ← to_rgb h rows (default [] (find_chunk PLTE cs));
    Ok (mkImage (width h) (height h) px).
