(* ===== verification/PngFile.v ===== *)
(** * Reading a PNG file ([media/png.rs])

    Any bytes are an image or refused; and an image written as PNG, whatever
    its rows' filters, reads back. *)
From S2P Require Import Prelude Bytes Inflate BitStream Huffman Deflate Png.

(** ** No file makes it panic *)
Definition chunk_ok (c : list Z * list Z) : Prop := bytes_ok (snd c).
Lemma slice_ok l a b s : bytes_ok l -> zslice l a b = Some s -> bytes_ok s.
Proof. intros Hl (_&_&->)%zslice_Some. by apply Forall_take, Forall_drop. Qed.
Lemma get_ok l i x : bytes_ok l -> zget l i = Some x -> u8 x.
Proof. intros Hl. unfold zget. destruct (i <? 0); [done|]. intros H. by eapply Forall_lookup_1 in H. Qed.
Lemma chunks_from_safe fuel bytes at_ out : bytes_ok bytes -> 0 <= at_ -> zlen bytes - at_ + 4 < Z.of_nat fuel -> 0 < Z.of_nat fuel -> Forall chunk_ok out ->
  match chunks_from fuel bytes at_ out with Ok cs => Forall chunk_ok cs | Err _ => True | Panic => False end.
Proof.
  intros Hb. revert at_ out. induction fuel as [|fuel IH]; intros at_ out Ha Hf H0 Hout; [lia|]. cbn [chunks_from].
  destruct (zslice bytes at_ (at_ + 4)) as [l|] eqn:Hl; [|done]. cbn [fmap option_fmap option_map ok_or mbind outcome_bind]. pose proof (be_val_bound l (slice_ok _ _ _ _ Hb Hl)) as [Hv _].
  destruct (zslice bytes (at_ + 8) (sat (at_ + 8 + be_val l))) as [data|] eqn:Hd; [|done]. cbn [ok_or mbind outcome_bind]. pose proof (proj1 (zslice_Some _ _ _ _) Hd) as (H1&H2&_).
  destruct (zslice bytes (at_ + 4) (at_ + 8)) as [kind|] eqn:Hk; [|apply zslice_None in Hk; lia]. cbn [or_panic mbind outcome_bind]. destruct (bool_decide _); [done|].
  apply IH; [lia|lia|lia|]. apply Forall_app. split; [done|]. apply Forall_singleton. by eapply slice_ok.
Qed.
Lemma chunks_safe bytes : bytes_ok bytes -> match chunks bytes with Ok cs => Forall chunk_ok cs | Err _ => True | Panic => False end.
Proof. intros Hb. apply chunks_from_safe; [done|lia|unfold zlen; lia|lia|constructor]. Qed.

Record header_ok (h : Header) : Prop := {
  ok_size : 0 < width h /\ 0 < height h /\ width h * height h <= MAX_PIXELS;
  ok_depth : valid_depth h = true
}.
Lemma check_size_ok w h : 0 <= w -> 0 <= h -> check_size w h = Ok tt -> 0 < w /\ 0 < h /\ w * h <= MAX_PIXELS.
Proof.
  unfold check_size, sat. intros Hw Hh. destruct (Z.eqb_spec w 0), (Z.eqb_spec h 0), (Z.ltb_spec MAX_PIXELS (Z.min (w * h) (2 ^ 64 - 1))); cbn; try done. unfold MAX_PIXELS in *. lia.
Qed.
Lemma parse_header_safe d : bytes_ok d -> match parse_header d with Ok h => header_ok h | Err _ => True | Panic => False end.
Proof.
  intros Hd. unfold parse_header. destruct (Z.ltb_spec (zlen d) 13); [done|].
  destruct (zslice d 0 4) as [w|] eqn:Hw; [|apply zslice_None in Hw; lia]. destruct (zslice d 4 8) as [ht|] eqn:Hh; [|apply zslice_None in Hh; lia].
  destruct (zget_is_Some d 8 ltac:(lia)) as [dp ->]. destruct (zget_is_Some d 9 ltac:(lia)) as [cl ->]. destruct (zget_is_Some d 10 ltac:(lia)) as [d10 ->].
  destruct (zget_is_Some d 11 ltac:(lia)) as [d11 ->]. destruct (zget_is_Some d 12 ltac:(lia)) as [d12 ->]. cbn [or_panic mbind outcome_bind].
  destruct (valid_depth _) eqn:Hv; cbn [negb orb]; [|done]. destruct (negb (d10 =? 0) || negb (d11 =? 0)); [done|]. destruct (negb (d12 =? 0)); [done|]. cbn [width height].
  destruct (check_size (be_val w) (be_val ht)) as [[]| |] eqn:Hc; cbn [mbind outcome_bind]; [|done|unfold check_size in Hc; destruct (_ || _); done].
  pose proof (be_val_bound w (slice_ok _ _ _ _ Hd Hw)). pose proof (be_val_bound ht (slice_ok _ _ _ _ Hd Hh)). apply check_size_ok in Hc; [|lia|lia]. by split.
Qed.
(** The shapes a header can have: channels and depth. *)
Lemma shapes h : valid_depth h = true -> (color h = 0 /\ channels h = 1 /\ (depth h = 1 \/ depth h = 2 \/ depth h = 4 \/ depth h = 8 \/ depth h = 16)) \/
  (color h = 3 /\ channels h = 1 /\ (depth h = 1 \/ depth h = 2 \/ depth h = 4 \/ depth h = 8)) \/
  ((color h = 2 /\ channels h = 3 \/ color h = 4 /\ channels h = 2 \/ color h = 6 /\ channels h = 4) /\ (depth h = 8 \/ depth h = 16)).
Proof.
  unfold valid_depth, channels, one_of. cbn [existsb].
  destruct (Z.eqb_spec (color h) 0) as [->|?]; [cbn; intros H; left; split; [done|split; [done|]]; lia|]. destruct (Z.eqb_spec (color h) 3) as [->|?]; [cbn; intros H; right; left; split; [done|split; [done|]]; lia|].
  destruct (Z.eqb_spec (color h) 2) as [->|?]; [cbn; intros H; right; right; split; [by left|]; lia|]. destruct (Z.eqb_spec (color h) 4) as [->|?]; [cbn; intros H; right; right; split; [by right; left|]; lia|].
  destruct (Z.eqb_spec (color h) 6) as [->|?]; [cbn; intros H; right; right; split; [by right; right|]; lia|done].
Qed.
Lemma div_ceil_spec a b : 0 < b -> a <= b * div_ceil a b < a + b.
Proof. intros Hb. unfold div_ceil. pose proof (Z.div_mod (a + b - 1) b ltac:(lia)). pose proof (Z.mod_pos_bound (a + b - 1) b Hb). lia. Qed.

Lemma predict_safe f a b c : u8 a -> u8 b -> u8 c -> match predict f a b c with Ok v => u8 v | Err _ => True | Panic => False end.
Proof.
  unfold u8, fits, predict, paeth. intros Ha Hb Hc. destruct (f =? 0); [lia|]. destruct (f =? 1); [lia|]. destruct (f =? 2); [lia|].
  destruct (f =? 3); [split; [apply Z.div_pos; lia|apply Z.div_lt_upper_bound; lia]|]. destruct (f =? 4); [|done]. destruct (_ && _); [lia|]. destruct (_ <=? _); lia.
Qed.
Lemma default_ok l i : bytes_ok l -> u8 (default 0 (zget l i)).
Proof. intros Hl. destruct (zget l i) as [x|] eqn:H; [by eapply get_ok|unfold u8, fits; cbn; lia]. Qed.
Lemma unfilter_row_safe f bpp up src row : 1 <= bpp -> bytes_ok up -> bytes_ok row ->
  match unfilter_row f bpp up src row with Ok r => zlen r = zlen row + zlen src /\ bytes_ok r | Err _ => True | Panic => False end.
Proof.
  intros Hbpp Hup. revert row. induction src as [|x src IH]; intros row Hrow; [cbn [unfilter_row]; split; [change (zlen (@nil Z)) with 0; lia|done]|]. cbn [unfilter_row]. pose proof (zlen_nonneg row).
  assert (exists a c, (if zlen row <? bpp then Ok (0, 0) else a ← or_panic (zget row (zlen row - bpp)); Ok (a, default 0 (zget up (zlen row - bpp)))) = (Ok (a, c) : result (Z * Z)) /\ u8 a /\ u8 c) as (a&c&->&Ha&Hc).
  { destruct (Z.ltb_spec (zlen row) bpp); [exists 0, 0; unfold u8, fits; split; [done|lia]|]. destruct (zget_is_Some row (zlen row - bpp) ltac:(lia)) as [y Hy]. rewrite Hy. eexists _, _. split; [done|]. split; [by eapply get_ok|by apply default_ok]. }
  cbn [mbind outcome_bind]. pose proof (predict_safe f a _ c Ha (default_ok up (zlen row) Hup) Hc) as Hp. destruct (predict _ _ _ _) as [v| |]; [|done|done]. cbn [mbind outcome_bind].
  specialize (IH (row ++ [wrap 8 (x + v)])). destruct (unfilter_row _ _ _ _ _) as [r| |]; [|done|].
  - destruct IH as [-> ?]; [|split; [rewrite zlen_app, !zlen_cons; change (zlen (@nil Z)) with 0; lia|done]]. apply Forall_app. split; [done|]. apply Forall_singleton. by apply wrap_fits.
  - apply IH. apply Forall_app. split; [done|]. apply Forall_singleton. by apply wrap_fits.
Qed.
Lemma unfilter_from_safe n st bpp raw y up out : 1 <= bpp -> 0 <= st -> 0 <= y -> bytes_ok raw -> bytes_ok up -> (y + Z.of_nat n) * (st + 1) <= zlen raw ->
  match unfilter_from n st bpp raw y up out with
  | Ok r => exists rows, r = out ++ concat rows /\ length rows = n /\ Forall (fun row => zlen row = st /\ bytes_ok row) rows
  | Err _ => True
  | Panic => False
  end.
Proof.
  intros Hbpp Hst. revert y up out. induction n as [|n IH]; intros y up out Hy Hraw Hup Hlen; [exists []; by rewrite app_nil_r|]. cbn [unfilter_from].
  destruct (zget_is_Some raw (y * (st + 1))) as [f ->]; [nia|]. cbn [or_panic mbind outcome_bind]. destruct (zslice raw (y * (st + 1) + 1) ((y + 1) * (st + 1))) as [src|] eqn:Hs; [|apply zslice_None in Hs; nia].
  cbn [or_panic mbind outcome_bind]. pose proof (unfilter_row_safe f bpp up src [] Hbpp Hup ltac:(constructor)) as Hr. destruct (unfilter_row f bpp up src []) as [row| |]; [|done|done]. destruct Hr as [Hl Hrow]. cbn [mbind outcome_bind].
  apply zslice_len in Hs. change (zlen (@nil Z)) with 0 in Hl. specialize (IH (y + 1) row (out ++ row) ltac:(lia) Hraw Hrow ltac:(nia)). destruct (unfilter_from _ _ _ _ _ _ _) as [r| |]; [|done|done].
  destruct IH as (rows&->&Hn&Hrows). exists (row :: rows). cbn [concat length]. rewrite app_assoc. split; [done|]. split; [lia|]. constructor; [split; [lia|done]|done].
Qed.
Lemma chunks_exact {A} n (rows : list (list A)) fuel : 0 < n -> Forall (fun r => zlen r = n) rows -> (length (concat rows) <= fuel)%nat -> chunks_fuel fuel n (concat rows) = rows.
Proof.
  intros Hn Hr. revert fuel. induction Hr as [|r rows Hr Hrs IH]; intros fuel Hf; [by destruct fuel|]. cbn [concat] in *. rewrite length_app in Hf. destruct fuel as [|fuel]; [unfold zlen in Hr; lia|]. cbn [chunks_fuel].
  destruct (Z.eqb_spec (zlen (r ++ concat rows)) 0) as [H0|_]; [rewrite zlen_app in H0; pose proof (zlen_nonneg (concat rows)); lia|]. rewrite ztake_app, zdrop_app by done. f_equal. apply IH. unfold zlen in Hr. lia.
Qed.

Lemma three_ok a b c : u8 a -> u8 b -> u8 c -> bytes_ok [a; b; c].
Proof. intros. do 3 (apply Forall_cons_2; [done|]). apply Forall_nil_2. Qed.
Section Pixels.
Context (h : Header) (Hh : header_ok h).
Lemma stride_pos : 0 < stride h /\ 1 <= pixel_bytes h /\ width h * channels h * depth h <= 8 * stride h.
Proof.
  destruct Hh as [[Hw [Hht _]] Hv]. unfold stride, pixel_bytes. pose proof (div_ceil_spec (width h * channels h * depth h) 8 ltac:(lia)). pose proof (div_ceil_spec (channels h * depth h) 8 ltac:(lia)).
  destruct (shapes h Hv) as [(?&?&?)|[(?&?&?)|(?&?)]]; nia.
Qed.
Lemma sample_safe row i : zlen row = stride h -> bytes_ok row -> 0 <= i < width h * channels h -> exists s, sample h row i = Ok s /\ u8 s.
Proof.
  intros Hl Hrow Hi. destruct stride_pos as (_&_&Hs). unfold sample. destruct (Z.eqb_spec (depth h) 8) as [Hd|Hd].
  - destruct (zget_is_Some row i) as [x Hx]; [rewrite Hl, Hd in *; lia|]. rewrite Hx. exists x. split; [done|by eapply get_ok].
  - destruct (Z.eqb_spec (depth h) 16) as [Hd2|Hd2]; [destruct (zget_is_Some row (2 * i)) as [x Hx]; [rewrite Hl, Hd2 in *; lia|]; rewrite Hx; exists x; split; [done|by eapply get_ok]|].
    assert (depth h = 1 \/ depth h = 2 \/ depth h = 4) as Hd3 by (destruct Hh as [_ Hv]; destruct (shapes h Hv) as [(?&?&?)|[(?&?&?)|(?&?)]]; lia).
    destruct (zget_is_Some row (i * depth h / 8)) as [x Hx]; [rewrite Hl; split; [apply Z.div_pos; nia|apply Z.div_lt_upper_bound; nia]|]. rewrite Hx. cbn [or_panic mbind outcome_bind]. eexists. split; [done|].
    apply (get_ok row) in Hx; [|done]. unfold u8, fits in *. set (v := Z.land _ _). assert (0 <= v < 2 ^ depth h) as Hv by (unfold v; rewrite Z.land_ones by lia; apply Z.mod_pos_bound; lia).
    clearbody v. destruct Hd3 as [Hd3|[Hd3|Hd3]]; rewrite Hd3 in *; [change (255 / Z.ones 1) with 255|change (255 / Z.ones 2) with 85|change (255 / Z.ones 4) with 17]; destruct (color h =? 3); lia.
Qed.
Lemma pixel_safe palette row x : bytes_ok palette -> zlen row = stride h -> bytes_ok row -> 0 <= x < width h -> exists l, pixel h palette row x = Ok l /\ zlen l = 3 /\ bytes_ok l.
Proof.
  intros Hp Hl Hrow Hx. unfold pixel. pose proof (shapes h (ok_depth h Hh)) as Hsh.
  assert (forall c, 0 <= c < channels h -> exists s, sample h row (x * channels h + c) = Ok s /\ u8 s) as Hs by (intros c Hc; apply sample_safe; [done|done|nia]).
  destruct (Z.eqb_spec (color h) 0) as [H0|H0]; [|destruct (Z.eqb_spec (color h) 4) as [H4|H4]]; cbn [orb].
  - destruct (Hs 0 ltac:(lia)) as (s&Hs0&Hu). rewrite Z.add_0_r in Hs0. rewrite Hs0. eexists. split; [done|]. split; [done|]. by apply three_ok.
  - destruct (Hs 0 ltac:(lia)) as (s&Hs0&Hu). rewrite Z.add_0_r in Hs0. rewrite Hs0. eexists. split; [done|]. split; [done|]. by apply three_ok.
  - destruct (Z.eqb_spec (color h) 3) as [H3|H3].
    + destruct (Hs 0 ltac:(lia)) as (s&Hs0&Hu). assert (channels h = 1) as Hc by lia. rewrite Hc, Z.mul_1_r, Z.add_0_r in Hs0. rewrite Hs0. eexists. split; [done|].
      destruct (zslice palette (s * 3) (s * 3 + 3)) as [l|] eqn:Hsl; cbn [from_option]; [split; [change (zlen l = 3); apply zslice_len in Hsl; lia|change (bytes_ok l); exact (slice_ok _ _ _ _ Hp Hsl)]|]. split; [done|]. by apply three_ok.
    + destruct (Hs 0 ltac:(lia)) as (r&Hr&Ur). destruct (Hs 1 ltac:(lia)) as (g&Hg&Ug). destruct (Hs 2 ltac:(lia)) as (b&Hb&Ub). rewrite Z.add_0_r in Hr. rewrite Hr, Hg, Hb. eexists. split; [done|]. split; [done|]. by apply three_ok.
Qed.
Lemma pixels_safe palette row xs out : bytes_ok palette -> zlen row = stride h -> bytes_ok row -> Forall (fun x => 0 <= x < width h) xs -> bytes_ok out ->
  exists l, pixels h palette row xs out = Ok l /\ zlen l = zlen out + 3 * zlen xs /\ bytes_ok l.
Proof.
  intros Hp Hl Hrow Hxs. revert out. induction Hxs as [|x xs Hx Hxs IH]; intros out Hout; [exists out; split; [done|]; split; [change (zlen (@nil Z)) with 0; lia|done]|]. cbn [pixels].
  destruct (pixel_safe palette row x Hp Hl Hrow Hx) as (l&->&H3&Hlb). cbn [mbind outcome_bind]. destruct (IH (out ++ l)) as (l2&->&Hl2&Hb2); [by apply Forall_app|]. exists l2. split; [done|]. rewrite Hl2, zlen_app, zlen_cons. split; [lia|done].
Qed.
Lemma row_pixels_safe palette rows out : bytes_ok palette -> Forall (fun row => zlen row = stride h /\ bytes_ok row) rows -> bytes_ok out ->
  exists l, row_pixels h palette rows out = Ok l /\ zlen l = zlen out + 3 * width h * zlen rows /\ bytes_ok l.
Proof.
  intros Hp Hrows. revert out. induction Hrows as [|row rows [Hl Hrow] Hrows IH]; intros out Hout; [exists out; split; [done|]; split; [change (zlen (@nil (list Z))) with 0; lia|done]|]. cbn [row_pixels].
  destruct Hh as [[Hw _] _]. destruct (pixels_safe palette row (seqZ 0 (width h)) out Hp Hl Hrow) as (l&->&H3&Hlb); [apply Forall_forall; intros x Hx%elem_of_seqZ; lia|done|]. cbn [mbind outcome_bind].
  destruct (IH l Hlb) as (l2&->&Hl2&Hb2). exists l2. split; [done|]. rewrite Hl2, H3, zlen_cons. assert (zlen (seqZ 0 (width h)) = width h) as -> by (unfold zlen; rewrite length_seqZ; lia). split; [lia|done].
Qed.
End Pixels.

(** Whatever bytes it is given, the PNG reader returns: it refuses them, or
    gives an image of at most 2^26 pixels whose bytes are three for each
    pixel. No chunk length, header, filter, depth or palette makes it read out
    of range. *)
Lemma png_cases bytes : bytes_ok bytes ->
  match png_decode bytes with
  | Ok i => 0 < i_width i /\ 0 < i_height i /\ i_width i * i_height i <= MAX_PIXELS /\ zlen (rgb i) = 3 * i_width i * i_height i /\ bytes_ok (rgb i)
  | Err _ => True
  | Panic => False
  end.
Proof.
  intros Hb. unfold png_decode. pose proof (chunks_safe bytes Hb) as Hc. destruct (chunks bytes) as [cs| |]; [|done|done]. cbn [mbind outcome_bind].
  assert (forall kind d, find_chunk kind cs = Some d -> bytes_ok d) as Hfind.
  { intros kind d. unfold find_chunk. destruct (List.find _ cs) as [c|] eqn:Hf; [|done]. intros [= <-]. apply List.find_some in Hf as [Hin _]. rewrite Forall_forall in Hc. by apply Hc, list_elem_of_In. }
  destruct (find_chunk IHDR cs) as [hd|] eqn:Hhd; [|done]. cbn [ok_or mbind outcome_bind]. pose proof (parse_header_safe hd (Hfind _ _ Hhd)) as Hp. destruct (parse_header hd) as [h| |]; [|done|done]. cbn [mbind outcome_bind].
  set (idat := concat _). assert (bytes_ok idat) as Hi.
  { apply Forall_concat, Forall_forall. intros d (c&<-&Hin%List.filter_In)%list_elem_of_In%in_map_iff. rewrite Forall_forall in Hc. apply Hc, list_elem_of_In. tauto. }
  pose proof (zlib_cases idat Hi) as Hz. destruct (zlib idat) as [raw| |]; [|done|done]. destruct Hz as [Hraw _]. cbn [mbind outcome_bind]. destruct (Z.ltb_spec (zlen raw) (height h * (stride h + 1))); [done|].
  destruct (stride_pos h Hp) as (Hst&Hbpp&_). destruct (ok_size h Hp) as (Hw&Hht&Hmax). unfold unfilter. pose proof (unfilter_from_safe (Z.to_nat (height h)) (stride h) (pixel_bytes h) raw 0 [] [] Hbpp ltac:(lia) ltac:(lia) Hraw ltac:(constructor) ltac:(rewrite Z2Nat.id; lia)) as Hu.
  destruct (unfilter_from _ _ _ _ _ _ _) as [rows| |]; [|done|done]. destruct Hu as (rs&->&Hn&Hrs). cbn [mbind outcome_bind app]. unfold to_rgb, Prelude.chunks.
  rewrite chunks_exact; [|lia|by eapply Forall_impl; [exact Hrs|]; intros ? []|done].
  destruct (row_pixels_safe h Hp (default [] (find_chunk PLTE cs)) rs []) as (px&->&Hl&Hpx); [destruct (find_chunk PLTE cs) eqn:E; [by eapply Hfind|constructor]|done|constructor|]. cbn [mbind outcome_bind i_width i_height rgb].
  split; [done|]. split; [done|]. split; [done|]. split; [|done]. rewrite Hl. change (zlen (@nil Z)) with 0. unfold zlen. rewrite Hn. lia.
Qed.

(** ** An image written as PNG *)

(** A row filtered: each byte less what the filter predicts of it. *)
Definition predicted (f a b c : Z) : Z := match predict f a b c with Ok v => v | _ => 0 end.
Fixpoint filter_row (f bpp : Z) (up row src : list Z) : list Z :=
  match src with
  | [] => []
  | x :: src =>
      let i := zlen row in
      let a := if i <? bpp then 0 else default 0 (zget row (i - bpp)) in
      let c := if i <? bpp then 0 else default 0 (zget up (i - bpp)) in
      wrap 8 (x - predicted f a (default 0 (zget up i)) c) :: filter_row f bpp up (row ++ [x]) src
  end.
(** Rows with the filter each is written with. *)
Fixpoint filtered (bpp : Z) (up : list Z) (rows : list (Z * list Z)) : list Z :=
  match rows with [] => [] | (f, row) :: rows => (f :: filter_row f bpp up [] row) ++ filtered bpp row rows end.
Record Chunk := mkChunk { c_kind : list Z; c_data : list Z; c_crc : list Z }.
Definition chunk_bytes (c : Chunk) : list Z := be_bytes 4 (zlen (c_data c)) ++ c_kind c ++ c_data c ++ c_crc c.
Definition chunk_wf (c : Chunk) : Prop := zlen (c_kind c) = 4 /\ c_kind c <> IEND /\ fits 32 (zlen (c_data c)) /\ zlen (c_crc c) = 4.
Definition contents (c : Chunk) : list Z * list Z := (c_kind c, c_data c).
Definition png_file (signature : list Z) (cs : list Chunk) (tail : list Z) : list Z :=
  signature ++ concat (map chunk_bytes cs) ++ be_bytes 4 0 ++ IEND ++ tail.
Definition rgb8_header (w h : Z) : list Z := be_bytes 4 w ++ be_bytes 4 h ++ [8; 2; 0; 0; 0].

Lemma unfilter_filter f bpp up src row : 0 <= f <= 4 -> 1 <= bpp -> bytes_ok src -> unfilter_row f bpp up (filter_row f bpp up row src) row = Ok (row ++ src).
Proof.
  intros Hf Hbpp Hsrc. revert row. induction Hsrc as [|x src Hx Hsrc IH]; intros row; [by rewrite app_nil_r|]. cbn [filter_row unfilter_row]. pose proof (zlen_nonneg row).
  set (a := if zlen row <? bpp then 0 else default 0 (zget row (zlen row - bpp))). set (c := if zlen row <? bpp then 0 else default 0 (zget up (zlen row - bpp))).
  assert ((if zlen row <? bpp then Ok (0, 0) else a ← or_panic (zget row (zlen row - bpp)); Ok (a, default 0 (zget up (zlen row - bpp)))) = (Ok (a, c) : result (Z * Z))) as ->.
  { unfold a, c. destruct (Z.ltb_spec (zlen row) bpp); [done|]. by destruct (zget_is_Some row (zlen row - bpp) ltac:(lia)) as [y ->]. }
  cbn [mbind outcome_bind]. set (b := default 0 (zget up (zlen row))). assert (predict f a b c = Ok (predicted f a b c)) as ->.
  { unfold predicted, predict. assert (f = 0 \/ f = 1 \/ f = 2 \/ f = 3 \/ f = 4) as [->|[->|[->|[->| ->]]]] by lia; done. }
  cbn [mbind outcome_bind]. assert (wrap 8 (wrap 8 (x - predicted f a b c) + predicted f a b c) = x) as -> by (unfold wrap; rewrite Z.add_mod_idemp_l, Z.sub_add by lia; by apply wrap_id).
  rewrite IH. by rewrite <- app_assoc.
Qed.
Lemma filter_row_zlen f bpp up src row : zlen (filter_row f bpp up row src) = zlen src.
Proof. revert row. induction src as [|x src IH]; intros row; [done|]. cbn [filter_row]. by rewrite !zlen_cons, IH. Qed.
Lemma unfilter_from_back rows st bpp pre y up out : 1 <= bpp -> 0 <= st -> 0 <= y -> zlen pre = y * (st + 1) -> Forall (fun r => 0 <= fst r <= 4 /\ zlen (snd r) = st /\ bytes_ok (snd r)) rows ->
  unfilter_from (length rows) st bpp (pre ++ filtered bpp up rows) y up out = Ok (out ++ concat (map snd rows)).
Proof.
  intros Hbpp Hst. revert pre y up out. induction rows as [|[f row] rows IH]; intros pre y up out Hy Hpre Hrows; [cbn; by rewrite app_nil_r|]. apply Forall_cons in Hrows as [(Hf&Hl&Hrow) Hrows]. cbn [fst snd] in *.
  cbn [length unfilter_from filtered map concat snd app]. rewrite <- Hpre. pose proof (zlen_nonneg pre).
  assert (zget (pre ++ f :: filter_row f bpp up [] row ++ filtered bpp row rows) (zlen pre) = Some f) as -> by (unfold zget, zlen; destruct (Z.ltb_spec (Z.of_nat (length pre)) 0); [lia|]; rewrite Nat2Z.id; by apply list_lookup_middle).
  cbn [or_panic mbind outcome_bind]. pose proof (zslice_app (pre ++ [f]) (filter_row f bpp up [] row) (filtered bpp row rows)) as Hs. rewrite <- app_assoc, filter_row_zlen, zlen_app, Hl in Hs. cbn [app] in Hs. change (zlen [f]) with 1 in Hs.
  replace ((y + 1) * (st + 1)) with (zlen pre + 1 + st) by lia. rewrite Hs. cbn [or_panic mbind outcome_bind]. rewrite unfilter_filter by done. cbn [mbind outcome_bind app].
  replace (pre ++ f :: filter_row f bpp up [] row ++ filtered bpp row rows) with ((pre ++ f :: filter_row f bpp up [] row) ++ filtered bpp row rows) by (by rewrite <- app_assoc).
  rewrite IH; [by rewrite <- app_assoc|lia| |done]. rewrite zlen_app, zlen_cons, filter_row_zlen. lia.
Qed.
Lemma chunks_from_back cs fuel pre out tail : (length cs < fuel)%nat -> Forall chunk_wf cs -> zlen (pre ++ concat (map chunk_bytes cs) ++ be_bytes 4 0 ++ IEND ++ tail) < 2 ^ 63 ->
  chunks_from fuel (pre ++ concat (map chunk_bytes cs) ++ be_bytes 4 0 ++ IEND ++ tail) (zlen pre) out = Ok (out ++ map contents cs).
Proof.
  revert fuel pre out. induction cs as [|c cs IH]; intros fuel pre out Hf Hcs Hlen; (destruct fuel as [|fuel]; [cbn in Hf; lia|]); cbn [chunks_from map concat app].
  - pose proof (zslice_app pre (be_bytes 4 0) (IEND ++ tail)) as H1. pose proof (zslice_app (pre ++ be_bytes 4 0) IEND tail) as H2. pose proof (zslice_app (pre ++ be_bytes 4 0 ++ IEND) [] tail) as H3.
    rewrite <- ?app_assoc, ?zlen_app, ?be_bytes_zlen in *. change (zlen IEND) with 4 in *. change (zlen (@nil Z)) with 0 in *. cbn [app] in *. change (Z.of_nat 4) with 4 in *. rewrite H1. cbn [fmap option_fmap option_map ok_or mbind outcome_bind].
    change (be_val (be_bytes 4 0)) with 0. cbn [concat map] in Hlen. change (zlen (@nil Z)) with 0 in Hlen. pose proof (zlen_nonneg tail).
    rewrite Z.add_0_r in H3. unfold sat. rewrite Z.min_l, (Z.add_0_r (zlen pre + 8)) by lia. replace (zlen pre + (4 + 4)) with (zlen pre + 8) in H3 by lia. rewrite H3. cbn [ok_or mbind outcome_bind].
    replace (zlen pre + 4 + 4) with (zlen pre + 8) in H2 by lia. rewrite H2. cbn [or_panic mbind outcome_bind]. by rewrite bool_decide_true, app_nil_r.
  - apply Forall_cons in Hcs as [(Hk&Hne&Hd&Hc) Hcs]. cbn [map concat length] in *. set (rest := concat (map chunk_bytes cs) ++ be_bytes 4 0 ++ IEND ++ tail) in *. rewrite <- app_assoc in *.
    fold rest in Hlen |- *. unfold chunk_bytes in *. rewrite <- !app_assoc in *. set (n := be_bytes 4 (zlen (c_data c))) in *. assert (zlen n = 4) as Hn by apply be_bytes_zlen.
    pose proof (zslice_app pre n (c_kind c ++ c_data c ++ c_crc c ++ rest)) as H1. pose proof (zslice_app (pre ++ n) (c_kind c) (c_data c ++ c_crc c ++ rest)) as H2.
    pose proof (zslice_app (pre ++ n ++ c_kind c) (c_data c) (c_crc c ++ rest)) as H3. rewrite <- ?app_assoc, ?zlen_app, ?Hn, ?Hk in *. rewrite H1. cbn [fmap option_fmap option_map ok_or mbind outcome_bind].
    assert (be_val n = zlen (c_data c)) as -> by by apply be_round_trip. unfold sat. pose proof (zlen_nonneg rest). pose proof (zlen_nonneg (c_data c)). pose proof (zlen_nonneg (c_crc c)). rewrite Z.min_l by lia. replace (zlen pre + (4 + 4)) with (zlen pre + 8) in H3 by lia. rewrite H3. cbn [ok_or mbind outcome_bind].
    replace (zlen pre + 4 + 4) with (zlen pre + 8) in H2 by lia. rewrite H2. cbn [or_panic mbind outcome_bind]. rewrite bool_decide_false by done.
    specialize (IH fuel (pre ++ n ++ c_kind c ++ c_data c ++ c_crc c) (out ++ [(c_kind c, c_data c)]) ltac:(lia) Hcs). fold rest in IH. rewrite <- !app_assoc, !zlen_app, Hn, Hk, Hc in IH.
    replace (zlen pre + (4 + (4 + (zlen (c_data c) + 4)))) with (zlen pre + (12 + zlen (c_data c))) in IH by lia. rewrite IH by lia. cbn [app]. done.
Qed.

Section Rgb8.
Context (w ht : Z) (Hw : 0 < w).
Definition rgb8 : Header := mkHeader w ht 8 2.
Lemma rgb8_shape : channels rgb8 = 3 /\ stride rgb8 = 3 * w /\ pixel_bytes rgb8 = 3.
Proof.
  split; [done|]. split; [|done]. unfold stride, rgb8. cbn [width depth]. change (channels _) with 3. pose proof (div_ceil_spec (w * 3 * 8) 8 ltac:(lia)). lia.
Qed.
Lemma rgb8_pixels palette row k n out : zlen row = 3 * w -> 0 <= k -> k + Z.of_nat n = w -> pixels rgb8 palette row (seqZ k (Z.of_nat n)) out = Ok (out ++ zdrop (3 * k) row).
Proof.
  intros Hl. revert k out. induction n as [|n IH]; intros k out Hk Hn; [rewrite zdrop_all by lia; by rewrite app_nil_r|]. rewrite seqZ_cons by lia. cbn [pixels]. replace (Z.pred (Z.of_nat (S n))) with (Z.of_nat n) by lia.
  unfold pixel. change (channels rgb8) with 3. cbn [rgb8 color Z.eqb Pos.eqb orb]. unfold sample. cbn [depth Z.eqb Pos.eqb].
  destruct (zget_is_Some row (k * 3) ltac:(lia)) as [r Hr]. destruct (zget_is_Some row (k * 3 + 1) ltac:(lia)) as [g Hg]. destruct (zget_is_Some row (k * 3 + 2) ltac:(lia)) as [b Hb].
  cbn [rgb8 depth Z.eqb Pos.eqb]. rewrite Hr, Hg, Hb. cbn [or_panic mbind outcome_bind]. fold rgb8. rewrite (IH (Z.succ k)) by lia. rewrite <- app_assoc. do 2 f_equal. unfold zget in Hr, Hg, Hb. unfold zdrop.
  destruct (Z.ltb_spec (k * 3) 0), (Z.ltb_spec (k * 3 + 1) 0), (Z.ltb_spec (k * 3 + 2) 0); try lia.
  replace (Z.to_nat (3 * k)) with (Z.to_nat (k * 3)) by lia. rewrite (drop_S _ _ _ Hr). replace (S (Z.to_nat (k * 3))) with (Z.to_nat (k * 3 + 1)) by lia. rewrite (drop_S _ _ _ Hg).
  replace (S (Z.to_nat (k * 3 + 1))) with (Z.to_nat (k * 3 + 2)) by lia. rewrite (drop_S _ _ _ Hb). cbn [app]. do 4 f_equal. lia.
Qed.
Lemma rgb8_rows palette rows out : Forall (fun r => zlen r = 3 * w) rows -> row_pixels rgb8 palette rows out = Ok (out ++ concat rows).
Proof.
  intros Hr. revert out. induction Hr as [|row rows Hl Hr IH]; intros out; [by rewrite app_nil_r|]. cbn [row_pixels concat]. change (width rgb8) with w.
  rewrite <- (Z2Nat.id w) at 1 by lia. rewrite (rgb8_pixels palette row 0 (Z.to_nat w) out Hl) by lia. cbn [mbind outcome_bind]. rewrite Z.mul_0_r, zdrop_0, IH. by rewrite <- app_assoc.
Qed.
Lemma rgb8_parsed : 0 < ht -> w * ht <= MAX_PIXELS -> parse_header (rgb8_header w ht) = Ok rgb8.
Proof.
  intros Hh Hm. unfold MAX_PIXELS in Hm. assert (fits 32 w /\ fits 32 ht) as [Fw Fh] by (unfold fits; nia). unfold rgb8_header, parse_header.
  pose proof (zslice_app [] (be_bytes 4 w) (be_bytes 4 ht ++ [8; 2; 0; 0; 0])) as H1. pose proof (zslice_app (be_bytes 4 w) (be_bytes 4 ht) [8; 2; 0; 0; 0]) as H2.
  rewrite ?zlen_app, ?be_bytes_zlen in *. cbn [app] in H1. change (zlen (@nil Z) + Z.of_nat 4) with 4 in H1. change (zlen (@nil Z)) with 0 in H1. change (Z.of_nat 4 + Z.of_nat 4) with 8 in H2. change (Z.of_nat 4) with 4 in *. change (4 + (4 + zlen [8; 2; 0; 0; 0])) with 13.
  change (13 <? 13) with false. cbn iota. rewrite H1, H2. cbn [or_panic mbind outcome_bind].
  assert (forall i x, zget [8; 2; 0; 0; 0] i = Some x -> 0 <= i -> zget (be_bytes 4 w ++ be_bytes 4 ht ++ [8; 2; 0; 0; 0]) (8 + i) = Some x) as Hget.
  { intros i x Hx Hi. unfold zget in *. destruct (Z.ltb_spec i 0), (Z.ltb_spec (8 + i) 0); try lia. rewrite app_assoc, lookup_app_r; rewrite length_app; unfold be_bytes; rewrite !length_rev, !le_bytes_length; [|lia]. rewrite <- Hx. f_equal. lia. }
  rewrite (Hget 0 8 eq_refl ltac:(lia) : zget _ 8 = _), (Hget 1 2 eq_refl ltac:(lia) : zget _ 9 = _), (Hget 2 0 eq_refl ltac:(lia) : zget _ 10 = _), (Hget 3 0 eq_refl ltac:(lia) : zget _ 11 = _), (Hget 4 0 eq_refl ltac:(lia) : zget _ 12 = _). cbn [or_panic mbind outcome_bind]. rewrite !be_round_trip by done. change (valid_depth _) with true. cbn [negb orb Z.eqb].
  cbn [width height]. unfold check_size, sat. destruct (Z.eqb_spec w 0), (Z.eqb_spec ht 0); try lia. rewrite Z.min_l by lia. unfold MAX_PIXELS. destruct (Z.ltb_spec (2 ^ 26) (w * ht)); [lia|]. done.
Qed.
End Rgb8.

(** Two rows, their data in a stored block, cut in two chunks with a comment
    between. *)
Definition sample_rows : list (Z * list Z) := [(4, [10; 20; 30; 200; 5; 250]); (3, [11; 22; 33; 44; 55; 66])].
Definition sample_chunks : list Chunk :=
  [mkChunk IHDR (rgb8_header 2 2) [1; 2; 3; 4];
   mkChunk IDAT [120; 1; 1; 14; 0; 241; 255; 4; 10] [0; 0; 0; 0];
   mkChunk [116; 69; 88; 116] [104; 105] [0; 0; 0; 0];
   mkChunk IDAT [20; 30; 190; 241; 220; 3; 6; 12; 18; 195; 42; 181; 29; 214; 4; 149] [0; 0; 0; 0]].
