(* ===== verification/Jpeg.v ===== *)
(** * JPEG files ([media/jpeg.rs])

    The segments of a JPEG file, its Huffman and quantization tables, the
    entropy-coded blocks, the inverse DCT, upsampling and the conversion to
    RGB. Arithmetic is that of a release build: what passes its word wraps, a
    shift is by its count modulo the word's bits. An index or a slice out of
    range is a [Panic], and so is a loop that would run out of its steps. *)
From S2P Require Import Prelude Bytes Inflate Png.

(** ** Words *)
Definition i32 (z : Z) : Z := wrap 32 (z + 2 ^ 31) - 2 ^ 31.
Definition shl_u32 (x k : Z) : Z := wrap 32 (Z.shiftl x (k mod 32)).
Definition shr_u32 (x k : Z) : Z := Z.shiftr x (k mod 32).
Definition shl_i32 (x k : Z) : Z := i32 (Z.shiftl x (k mod 32)).
Definition set_at {A} (l : list A) (i : Z) (x : A) : result (list A) :=
  if (0 <=? i) && (i <? zlen l) then Ok (<[Z.to_nat i := x]> l) else Panic.
(** [l[at..at + x.len()]] written with [x]. *)
Definition write_at (l : list Z) (at_ : Z) (x : list Z) : result (list Z) :=
  if (0 <=? at_) && (at_ + zlen x <=? zlen l) then Ok (ztake at_ l ++ x ++ zdrop (at_ + zlen x) l) else Panic.

(** The zigzag order, in rows of eight. *)
Definition NATURAL : list Z := concat [
  [0; 1; 8; 16; 9; 2; 3; 10]; [17; 24; 32; 25; 18; 11; 4; 5]; [12; 19; 26; 33; 40; 48; 41; 34]; [27; 20; 13; 6; 7; 14; 21; 28];
  [35; 42; 49; 56; 57; 50; 43; 36]; [29; 22; 15; 23; 30; 37; 44; 51]; [58; 59; 52; 45; 38; 31; 39; 46]; [53; 60; 61; 54; 47; 55; 62; 63]].

(** ** Huffman tables *)
Record Table := mkTable { fast : list Z; maxcode : list Z; offset : list Z; values : list Z }.
(** The codes of one length, [n] of them left. *)
Fixpoint table_codes (n : nat) (l : Z) (vals fst_ : list Z) (code k : Z) : result (list Z * Z * Z) :=
  match n with
  | O => Ok (fst_, code, k)
  | S n =>
      fst_ ← (if (l <=? 9) && (k <? zlen vals) then
                v ← or_panic (zget vals k);
                write_at fst_ (Z.shiftl code (9 - l)) (zrep (Z.shiftl 1 (9 - l)) (Z.lor (Z.shiftl v 8) l))
              else Ok fst_);
      table_codes n l vals fst_ (code + 1) (k + 1)
  end.
Fixpoint table_lengths (ls : list Z) (counts vals : list Z) (t : Table) (code k : Z) : result Table :=
  match ls with
  | [] => Ok t
  | l :: ls =>
      offs ← set_at (offset t) l (k - code);
      n ← or_panic (zget counts (l - 1));
      '(fst_, code, k) ← table_codes (Z.to_nat n) l vals (fast t) code k;
      maxs ← (if 0 <? n then set_at (maxcode t) l (code - 1) else Ok (maxcode t));
      table_lengths ls counts vals (mkTable fst_ maxs offs (values t)) (Z.shiftl code 1) k
  end.
Definition table_new (counts vals : list Z) : result Table :=
  table_lengths (seqZ 1 16) counts vals (mkTable (zrep 512 0) (zrep 17 (-1)) (zrep 17 0) vals) 0 0.

(** ** The bits of a scan *)
Record Bits := mkBits { b_at : Z; b_buf : Z; b_n : Z; stop : option Z }.
Section Scan.
Context (data : list Z).

(** The next byte of the data, and where it leaves the reader. *)
Definition next_byte (b : Bits) : Z * Z * option Z :=
  match stop b, zget data (b_at b) with
  | None, Some x =>
      if negb (x =? 0xFF) then (x, b_at b + 1, None)
      else if bool_decide (zget data (b_at b + 1) = Some 0) then (x, b_at b + 2, None)
      else (0, b_at b, Some (b_at b))
  | s, _ => (0, b_at b, s)
  end.
Fixpoint refill (fuel : nat) (b : Bits) : Bits :=
  match fuel with
  | O => b
  | S fuel =>
      if b_n b <=? 24 then
        let '(x, at_, s) := next_byte b in
        refill fuel (mkBits at_ (Z.lor (b_buf b) (Z.shiftl x (24 - b_n b))) (b_n b + 8) s)
      else b
  end.
(** Four bytes fill the buffer. *)
Definition peek (k : Z) (b : Bits) : Z * Bits := let b := refill 4 b in (shr_u32 (b_buf b) (32 - k), b).
Definition restart (b : Bits) : Bits :=
  let at_ := default (b_at b) (stop b) in
  if bool_decide (zget data at_ = Some 0xFF) && (match zget data (at_ + 1) with Some m => (0xD0 <=? m) && (m <=? 0xD7) | None => false end)
  then mkBits (at_ + 2) 0 0 None else mkBits (b_at b) 0 0 (stop b).
Definition marker_at (at_ : Z) : bool :=
  match zget data at_, zget data (at_ + 1) with
  | Some x, Some m => (x =? 0xFF) && negb ((m =? 0) || ((0xD0 <=? m) && (m <=? 0xD7)) || (m =? 0xFF))
  | _, _ => false
  end.
Fixpoint end_from (fuel : nat) (at_ : Z) : Z :=
  match fuel with
  | O => at_
  | S fuel => if (at_ + 1 <? zlen data) && negb (marker_at at_) then end_from fuel (at_ + 1) else at_
  end.
Definition scan_end (b : Bits) : Z := end_from (length data) (default (b_at b) (stop b)).

Definition skip (k : Z) (b : Bits) : Bits := mkBits (b_at b) (shl_u32 (b_buf b) k) (wrap 32 (b_n b - k)) (stop b).
Definition take_bits (k : Z) (b : Bits) : Z * Bits :=
  if k =? 0 then (0, b) else let '(v, b) := peek k b in (i32 v, skip k b).
Definition signed (k : Z) (b : Bits) : Z * Bits :=
  let '(v, b) := take_bits k b in
  (if (0 <? k) && (v <? shl_i32 1 (k - 1)) then i32 (v - shl_i32 1 k + 1) else v, b).
(** The lengths past 9, in order. *)
Fixpoint long_code (ls : list Z) (t : Table) (code : Z) (b : Bits) : result (Z * Bits) :=
  match ls with
  | [] => Ok (0, skip 16 b)
  | l :: ls =>
      let c := Z.shiftr code (16 - l) in
      m ← or_panic (zget (maxcode t) l);
      if c <=? m then o ← or_panic (zget (offset t) l); Ok (default 0 (zget (values t) (c + o)), skip l b)
      else long_code ls t code b
  end.
Definition decode (t : Table) (b : Bits) : result (Z * Bits) :=
  let '(i, b) := peek 9 b in
  e ← or_panic (zget (fast t) i);
  if negb (e =? 0) then Ok (Z.shiftr e 8, skip (Z.land e 0xFF) b)
  else let '(code, b) := peek 16 b in long_code (seqZ 10 7) t (i32 code) b.
End Scan.

(** ** Components and the decoder's state *)
Record Component := mkComponent { c_id : Z; c_h : Z; c_v : Z; c_tq : Z; c_dc : Z; c_ac : Z; c_pred : Z; c_width : Z; c_plane : list Z }.
Record Decoder := mkDecoder {
  d_width : Z; d_height : Z; comps : list Component; quant : list (list Z); d_dc : list (option Table); d_ac : list (option Table);
  d_restart : Z; jfif : bool; adobe : option Z; d_orientation : Z }.
Definition set_comps (d : Decoder) (l : list Component) : Decoder :=
  mkDecoder (d_width d) (d_height d) l (quant d) (d_dc d) (d_ac d) (d_restart d) (jfif d) (adobe d) (d_orientation d).
Definition set_pred (c : Component) (p : Z) : Component := mkComponent (c_id c) (c_h c) (c_v c) (c_tq c) (c_dc c) (c_ac c) p (c_width c) (c_plane c).
Definition set_plane (c : Component) (p : list Z) : Component := mkComponent (c_id c) (c_h c) (c_v c) (c_tq c) (c_dc c) (c_ac c) (c_pred c) (c_width c) p.

Definition component (c : list Z) : result Component :=
  id ← or_panic (zget c 0); hv ← or_panic (zget c 1); tq ← or_panic (zget c 2);
  let h := Z.shiftr hv 4 in let v := Z.land hv 15 in
  if negb ((1 <=? h) && (h <=? 4)) || negb ((1 <=? v) && (v <=? 4)) || (3 <? tq) then Err (bad "a JPEG component with invalid sampling or table")
  else Ok (mkComponent id h v tq 0 0 0 0 []).
Fixpoint collect {A B} (f : A -> result B) (l : list A) : result (list B) :=
  match l with [] => Ok [] | x :: l => y ← f x; ys ← collect f l; Ok (y :: ys) end.
Definition most (l : list Z) : Z := match l with [] => 1 | x :: l => fold_left Z.max l x end.
Definition d_max (d : Decoder) : Z * Z := (most (map c_h (comps d)), most (map c_v (comps d))).

(** ** Segments before a scan *)
Definition sized (mx my : Z) (c : Component) : Component :=
  let w := mx * c_h c * 8 in
  mkComponent (c_id c) (c_h c) (c_v c) (c_tq c) (c_dc c) (c_ac c) (c_pred c) w (zrep (w * my * c_v c * 8) 0).
Definition frame (d : Decoder) (s : list Z) : result Decoder :=
  let other := refuse "a JPEG of other than 8 bits per sample" in
  if zlen s <? 6 then Err other
  else
    s0 ← or_panic (zget s 0);
    if negb (s0 =? 8) then Err other
    else
      hs ← or_panic (zslice s 1 3); ws ← or_panic (zslice s 3 5); n ← or_panic (zget s 5);
      let height := be_val hs in let width := be_val ws in
      if negb (one_of [1; 3] n) || (zlen s <? 6 + 3 * n) then Err (refuse "a JPEG of other than 1 or 3 components")
      else
        _ ← check_size width height;
        cs ← or_panic (zslice s 6 (6 + 3 * n));
        cs ← collect component (Prelude.chunks 3 cs);
        let d := mkDecoder width height cs (quant d) (d_dc d) (d_ac d) (d_restart d) (jfif d) (adobe d) (d_orientation d) in
        let '(hmax, vmax) := d_max d in
        Ok (set_comps d (map (sized (div_ceil width (8 * hmax)) (div_ceil height (8 * vmax))) cs)).
Definition put_table (d : Decoder) (class id : Z) (t : Table) : result Decoder :=
  if class =? 0 then
    l ← set_at (d_dc d) id (Some t);
    Ok (mkDecoder (d_width d) (d_height d) (comps d) (quant d) l (d_ac d) (d_restart d) (jfif d) (adobe d) (d_orientation d))
  else
    l ← set_at (d_ac d) id (Some t);
    Ok (mkDecoder (d_width d) (d_height d) (comps d) (quant d) (d_dc d) l (d_restart d) (jfif d) (adobe d) (d_orientation d)).
Definition sum (l : list Z) : Z := fold_left Z.add l 0.
Fixpoint huffman (fuel : nat) (d : Decoder) (s : list Z) : result Decoder :=
  match fuel with
  | O => Panic
  | S fuel =>
      if zlen s <? 17 then Ok d
      else
        s0 ← or_panic (zget s 0); counts ← or_panic (zslice s 1 17);
        let n := sum counts in
        vals ← ok_or (zslice s 17 (17 + n)) (bad "a short DHT");
        t ← table_new counts vals;
        d ← put_table d (Z.shiftr s0 4) (Z.land s0 3) t;
        huffman fuel d (zdrop (17 + n) s)
  end.
(** The 64 values of a table, [k] of them read. *)
Fixpoint quant_values (ks : list Z) (wide : bool) (q row : list Z) : result (list Z) :=
  match ks with
  | [] => Ok row
  | k :: ks =>
      v ← (if wide then hi ← or_panic (zget q (2 * k)); lo ← or_panic (zget q (2 * k + 1)); Ok (Z.lor (Z.shiftl hi 8) lo) else or_panic (zget q k));
      z ← or_panic (zget NATURAL k);
      row ← set_at row z v;
      quant_values ks wide q row
  end.
Fixpoint quantization (fuel : nat) (d : Decoder) (s : list Z) : result Decoder :=
  match fuel with
  | O => Panic
  | S fuel =>
      match s with
      | [] => Ok d
      | s0 :: _ =>
          let wide := negb (Z.shiftr s0 4 =? 0) in let id := Z.land s0 3 in
          let len := if wide then 128 else 64 in
          q ← ok_or (zslice s 1 (1 + len)) (bad "a short DQT");
          row ← or_panic (zget (quant d) id);
          row ← quant_values (seqZ 0 64) wide q row;
          qs ← set_at (quant d) id row;
          quantization fuel (mkDecoder (d_width d) (d_height d) (comps d) qs (d_dc d) (d_ac d) (d_restart d) (jfif d) (adobe d) (d_orientation d)) (zdrop (1 + len) s)
      end
  end.

(** ** The inverse DCT *)
Definition C : list Z := [2446; 3196; 4433; 6270; 7373; 9633; 12299; 15137; 16069; 16819; 20995; 25172].
Definition C_ (i : nat) : Z := nth i C 0.
Definition idct8 (v : list Z) : list Z :=
  let v i := nth i v 0 in
  let z1 := (v 2%nat + v 6%nat) * C_ 2 in
  let t2 := z1 - v 6%nat * C_ 7 in let t3 := z1 + v 2%nat * C_ 3 in
  let t0 := Z.shiftl (v 0%nat + v 4%nat) 13 in let t1 := Z.shiftl (v 0%nat - v 4%nat) 13 in
  let e10 := t0 + t3 in let e13 := t0 - t3 in let e11 := t1 + t2 in let e12 := t1 - t2 in
  let o0 := v 7%nat in let o1 := v 5%nat in let o2 := v 3%nat in let o3 := v 1%nat in
  let z1 := o0 + o3 in let z2 := o1 + o2 in let z3 := o0 + o2 in let z4 := o1 + o3 in
  let z5 := (z3 + z4) * C_ 5 in
  let z1 := - z1 * C_ 4 in let z2 := - z2 * C_ 10 in let z3 := - z3 * C_ 8 + z5 in let z4 := - z4 * C_ 1 + z5 in
  let o0 := o0 * C_ 0 + z1 + z3 in let o1 := o1 * C_ 9 + z2 + z4 in let o2 := o2 * C_ 11 + z2 + z3 in let o3 := o3 * C_ 6 + z1 + z4 in
  [e10 + o3; e11 + o2; e12 + o1; e13 + o0; e13 - o0; e12 - o1; e11 - o2; e10 - o3].
Definition descale (r k : Z) : Z := Z.shiftr (r + Z.shiftl 1 (k - 1)) k.
Definition clamp (lo hi z : Z) : Z := Z.max lo (Z.min hi z).
(** The columns of [coef] after the first pass; the code's workspace holds them
    as columns, so its row [y] is the [y]-th value of each. *)
Definition idct_columns (coef : list Z) : list (list Z) :=
  map (fun x => map (fun r => descale r 11) (idct8 (map (fun k => nth (8 * k + x) coef 0) (seq 0 8)))) (seq 0 8).
Definition range_limit (v : Z) : Z :=
  let s := Z.land (descale v 18) 1023 in clamp 0 255 ((if 512 <=? s then s - 1024 else s) + 128).
Definition idct_rows (coef : list Z) : list (list Z) :=
  let ws := idct_columns coef in map (fun y => map range_limit (idct8 (map (fun col => nth y col 0) ws))) (seq 0 8).
(** The rows written, [stride] apart. *)
Fixpoint write_rows (rows : list (list Z)) (plane : list Z) (at_ stride : Z) : result (list Z) :=
  match rows with [] => Ok plane | r :: rows => plane ← write_at plane at_ r; write_rows rows plane (at_ + stride) stride end.
Definition idct (coef plane : list Z) (at_ stride : Z) : result (list Z) := write_rows (idct_rows coef) plane at_ stride.

(** ** Scans *)
Section Scans.
Context (data : list Z).

(** The coefficients after the first, from [k] on. *)
Fixpoint ac_from (fuel : nat) (ac : Table) (q : list Z) (k : Z) (coef : list Z) (b : Bits) : result (list Z * Bits) :=
  if 64 <=? k then Ok (coef, b)
  else
    match fuel with
    | O => Panic
    | S fuel =>
        '(rs, b) ← decode data ac b;
        let run := Z.shiftr rs 4 in let size := Z.land rs 15 in
        if size =? 0 then if negb (run =? 15) then Ok (coef, b) else ac_from fuel ac q (k + 16) coef b
        else
          let k := k + run in
          z ← or_panic (zget NATURAL (Z.min k 63));
          let '(v, b) := signed data size b in
          qz ← or_panic (zget q z);
          coef ← set_at coef z (i32 (v * qz));
          ac_from fuel ac q (k + 1) coef b
    end.
(** A block of component [i]: its coefficients. *)
Definition block (d : Decoder) (i : Z) (b : Bits) : result (list Z * Decoder * Bits) :=
  c ← or_panic (zget (comps d) i);
  dc ← or_panic (zget (d_dc d) (c_dc c)); ac ← or_panic (zget (d_ac d) (c_ac c));
  dc ← ok_or dc (bad "a scan uses a missing DC table"); ac ← ok_or ac (bad "a scan uses a missing AC table");
  q ← or_panic (zget (quant d) (c_tq c));
  '(t, b) ← decode data dc b;
  let '(v, b) := signed data t b in
  let pred := i32 (c_pred c + v) in
  l ← set_at (comps d) i (set_pred c pred);
  q0 ← or_panic (zget q 0);
  '(coef, b) ← ac_from 64 ac q 1 (i32 (pred * q0) :: zrep 63 0) b;
  Ok (coef, set_comps d l, b).
(** The blocks of member [i] in the MCU at [(x, y)]. *)
Fixpoint unit_blocks (bs : list Z) (i h v x y : Z) (d : Decoder) (b : Bits) : result (Decoder * Bits) :=
  match bs with
  | [] => Ok (d, b)
  | k :: bs =>
      let bx := x * h + k mod h in let by_ := y * v + k / h in
      '(coef, d, b) ← block d i b;
      c ← or_panic (zget (comps d) i);
      plane ← idct coef (c_plane c) (by_ * 8 * c_width c + bx * 8) (c_width c);
      l ← set_at (comps d) i (set_plane c plane);
      unit_blocks bs i h v x y (set_comps d l) b
  end.
Fixpoint unit_members (ms : list Z) (one : bool) (x y : Z) (d : Decoder) (b : Bits) : result (Decoder * Bits) :=
  match ms with
  | [] => Ok (d, b)
  | i :: ms =>
      c ← or_panic (zget (comps d) i);
      let '(h, v) := if one then (1, 1) else (c_h c, c_v c) in
      '(d, b) ← unit_blocks (seqZ 0 (h * v)) i h v x y d b;
      unit_members ms one x y d b
  end.
Definition unit_ (ms : list Z) (x y : Z) (d : Decoder) (b : Bits) : result (Decoder * Bits) :=
  unit_members ms (zlen ms =? 1) x y d b.
Fixpoint reset_preds (ms : list Z) (d : Decoder) : result Decoder :=
  match ms with
  | [] => Ok d
  | i :: ms => c ← or_panic (zget (comps d) i); l ← set_at (comps d) i (set_pred c 0); reset_preds ms (set_comps d l)
  end.
Fixpoint position (l : list Component) (id : Z) : option Z :=
  match l with [] => None | c :: l => if c_id c =? id then Some 0 else Z.succ <$> position l id end.
Fixpoint members_from (cs : list (list Z)) (d : Decoder) (ms : list Z) : result (list Z * Decoder) :=
  match cs with
  | [] => Ok (ms, d)
  | c :: cs =>
      id ← or_panic (zget c 0); tt_ ← or_panic (zget c 1);
      i ← ok_or (position (comps d) id) (bad "a scan names an unknown component");
      k ← or_panic (zget (comps d) i);
      l ← set_at (comps d) i (mkComponent (c_id k) (c_h k) (c_v k) (c_tq k) (Z.land (Z.shiftr tt_ 4) 3) (Z.land tt_ 3) 0 (c_width k) (c_plane k));
      members_from cs (set_comps d l) (ms ++ [i])
  end.
Definition members (d : Decoder) (s : list Z) : result (list Z * Decoder) :=
  n ← ok_or (zget s 0) (bad "a short SOS");
  cs ← ok_or (zslice s 1 (1 + 2 * n)) (bad "a short SOS");
  members_from (Prelude.chunks 2 cs) d [].
Definition units (d : Decoder) (ms : list Z) : result (Z * Z) :=
  let '(hmax, vmax) := d_max d in
  match ms with
  | [i] =>
      c ← or_panic (zget (comps d) i);
      let w := div_ceil (div_ceil (d_width d * c_h c) hmax) 8 in
      Ok (w * div_ceil (div_ceil (d_height d * c_v c) vmax) 8, w)
  | _ => let w := div_ceil (d_width d) (8 * hmax) in Ok (w * div_ceil (d_height d) (8 * vmax), w)
  end.
Fixpoint scan_units (us : list Z) (wide : Z) (ms : list Z) (d : Decoder) (b : Bits) : result (Decoder * Bits) :=
  match us with
  | [] => Ok (d, b)
  | u :: us =>
      '(d, b) ← (if (0 <? d_restart d) && (0 <? u) && (u mod d_restart d =? 0)
                 then d ← reset_preds ms d; Ok (d, restart data b) else Ok (d, b));
      '(d, b) ← unit_ ms (u mod wide) (u / wide) d b;
      scan_units us wide ms d b
  end.
Definition scan (d : Decoder) (s : list Z) (at_ : Z) : result (Z * Decoder) :=
  '(ms, d) ← members d s;
  '(n, wide) ← units d ms;
  '(d, b) ← scan_units (seqZ 0 n) wide ms d (mkBits at_ 0 0 None);
  Ok (scan_end data b, d).
End Scans.

(** ** Application segments *)
Definition starts_with (l p : list Z) : bool := bool_decide (take (length p) l = p).
Section Tiff.
Context (t : list Z).
Definition uint_at (big : bool) (n i : Z) : option Z := (fun b => if big then be_val b else le_val b) <$> zslice t i (i + n).
Definition orientation : option Z :=
  mark ← zslice t 0 2;
  let big := bool_decide (mark = [77; 77]) in
  ifd ← uint_at big 4 4;
  n ← uint_at big 2 ifd;
  e ← List.find (fun e => bool_decide (uint_at big 2 e = Some 0x0112)) (map (fun e => ifd + 2 + 12 * e) (seqZ 0 n));
  o ← uint_at big 2 (e + 8);
  if (1 <=? o) && (o <=? 8) then Some o else None.
End Tiff.
Definition JFIF_ : list Z := [74; 70; 73; 70; 0].
Definition EXIF_ : list Z := [69; 120; 105; 102; 0; 0].
Definition ADOBE_ : list Z := [65; 100; 111; 98; 101].
Definition app_segment (d : Decoder) (marker : Z) (seg : list Z) : result Decoder :=
  if marker =? 0xE0 then
    Ok (mkDecoder (d_width d) (d_height d) (comps d) (quant d) (d_dc d) (d_ac d) (d_restart d) (jfif d || starts_with seg JFIF_) (adobe d) (d_orientation d))
  else if (marker =? 0xE1) && starts_with seg EXIF_ then
    Ok (mkDecoder (d_width d) (d_height d) (comps d) (quant d) (d_dc d) (d_ac d) (d_restart d) (jfif d) (adobe d) (default 1 (orientation (zdrop 6 seg))))
  else if (marker =? 0xEE) && starts_with seg ADOBE_ && (12 <=? zlen seg) then
    a ← or_panic (zget seg 11);
    Ok (mkDecoder (d_width d) (d_height d) (comps d) (quant d) (d_dc d) (d_ac d) (d_restart d) (jfif d) (Some a) (d_orientation d))
  else Ok d.
Definition dri (d : Decoder) (seg : list Z) : result Decoder :=
  r ← ok_or (zslice seg 0 2) (bad "a short DRI");
  Ok (mkDecoder (d_width d) (d_height d) (comps d) (quant d) (d_dc d) (d_ac d) (be_val r) (jfif d) (adobe d) (d_orientation d)).
(** [Decoder::segment]: the state, and where the data after the segment starts. *)
Definition d_segment (d : Decoder) (marker : Z) (seg bytes : list Z) (next : Z) : result (Z * Decoder) :=
  if one_of [0xC0; 0xC1] marker then d ← frame d seg; Ok (next, d)
  else if marker =? 0xC4 then d ← huffman (S (length seg)) d seg; Ok (next, d)
  else if marker =? 0xDB then d ← quantization (S (length seg)) d seg; Ok (next, d)
  else if marker =? 0xDA then scan bytes d seg next
  else if marker =? 0xDD then d ← dri d seg; Ok (next, d)
  else if (0xC2 <=? marker) && (marker <=? 0xCF) then Err (refuse "a progressive, lossless or arithmetic-coded JPEG")
  else d ← app_segment d marker seg; Ok (next, d).

(** ** Upsampling and color *)
Record Grid := mkGrid { g_c : Component; fx : Z; fy : Z; dw : Z; dh : Z }.
Definition grid_at (g : Grid) (x y : Z) : result Z := or_panic (zget (c_plane (g_c g)) (Z.min y (dh g - 1) * c_width (g_c g) + x)).
Definition grid_sample (g : Grid) (x y : Z) : result Z :=
  let sx := x / fx g in let sy := y / fy g in let odd_x := x mod 2 in let odd_y := y mod 2 in
  let near := if odd_y =? 0 then Z.max 0 (sy - 1) else sy + 1 in
  let side := if odd_x =? 0 then Z.max 0 (sx - 1) else Z.min (sx + 1) (dw g - 1) in
  v ← (if (fx g =? 2) && (fy g =? 2) && (2 <? dw g) then
         let col cx := a ← grid_at g cx sy; b ← grid_at g cx near; Ok (3 * a + b) in
         a ← col sx; b ← col side; Ok (Z.shiftr (3 * a + b + 8 - odd_x) 4)
       else if (fx g =? 2) && (fy g =? 1) && (2 <? dw g) then
         a ← grid_at g sx sy; b ← grid_at g side sy; Ok (Z.shiftr (3 * a + b + 1 + odd_x) 2)
       else if (fx g =? 1) && (fy g =? 2) then
         a ← grid_at g sx sy; b ← grid_at g sx near; Ok (Z.shiftr (3 * a + b + 1 + odd_y) 2)
       else grid_at g sx sy);
  Ok (wrap 8 v).
(** The places of a [w] × [h] image, row by row. *)
Definition places (w h : Z) : list (Z * Z) := concat (map (fun y => map (fun x => (x, y)) (seqZ 0 w)) (seqZ 0 h)).
Definition upsample (d : Decoder) (c : Component) : result (list Z) :=
  let '(hmax, vmax) := d_max d in
  if negb (hmax mod c_h c =? 0) || negb (vmax mod c_v c =? 0) then Err (refuse "a JPEG with fractional chroma sampling")
  else
    let g := mkGrid c (hmax / c_h c) (vmax / c_v c) (div_ceil (d_width d * c_h c) hmax) (div_ceil (d_height d * c_v c) vmax) in
    collect (fun p => grid_sample g (fst p) (snd p)) (places (d_width d) (d_height d)).
Definition ycc (y cb cr : Z) : list Z :=
  let cb := cb - 128 in let cr := cr - 128 in
  let r := Z.shiftr (91881 * cr + 2 ^ 15) 16 in let b := Z.shiftr (116130 * cb + 2 ^ 15) 16 in
  let g := Z.shiftr (- 22554 * cb + 2 ^ 15 - 46802 * cr) 16 in
  [clamp 0 255 (y + r); clamp 0 255 (y + g); clamp 0 255 (y + b)].
Definition rgb_pixel (coded : bool) (planes : list (list Z)) (i : Z) : result (list Z) :=
  match planes with
  | [g] => x ← or_panic (zget g i); Ok [x; x; x]
  | [r; g; b] =>
      x ← or_panic (zget r i); y ← or_panic (zget g i); z ← or_panic (zget b i);
      Ok (if coded then [x; y; z] else ycc x y z)
  | _ => Err (bad "a JPEG without one or three components")
  end.
Definition rgb_coded (d : Decoder) : bool :=
  negb (jfif d) && (bool_decide (adobe d = Some 0) || (bool_decide (adobe d = None) && bool_decide (map c_id (comps d) = [82; 71; 66]))).
Definition d_rgb (d : Decoder) : result (list Z) :=
  planes ← collect (upsample d) (comps d);
  ps ← collect (rgb_pixel (rgb_coded d) planes) (seqZ 0 (d_width d * d_height d));
  Ok (concat ps).

(** ** The file *)
Fixpoint skip_fill (fuel : nat) (bytes : list Z) (at_ : Z) : Z :=
  match fuel with
  | O => at_
  | S fuel => if bool_decide (zget bytes at_ = Some 0xFF) && bool_decide (zget bytes (at_ + 1) = Some 0xFF) then skip_fill fuel bytes (at_ + 1) else at_
  end.
Definition segment (bytes : list Z) (at_ : Z) (framed : bool) : result (option (Z * list Z * Z)) :=
  let at_ := skip_fill (length bytes) bytes at_ in
  let missing := Err (bad "a JPEG marker is missing") in
  match zslice bytes at_ (at_ + 4) with
  | Some [x; m; a; b] =>
      if negb (x =? 0xFF) then missing
      else if m =? 0xD9 then Ok None
      else
        let len := Z.lor (Z.shiftl a 8) b in
        seg ← ok_or (zslice bytes (at_ + 4) (at_ + 2 + len)) (bad "a JPEG segment ends early");
        Ok (Some (m, seg, at_ + 2 + len))
  | Some _ => missing
  | None => if framed then Ok None else missing
  end.
Fixpoint segments (fuel : nat) (bytes : list Z) (d : Decoder) (at_ : Z) : result Decoder :=
  match fuel with
  | O => Panic
  | S fuel =>
      s ← segment bytes at_ (match comps d with [] => false | _ => true end);
      match s with
      | None => Ok d
      | Some (marker, seg, next) => '(at_, d) ← d_segment d marker seg bytes next; segments fuel bytes d at_
      end
  end.
Definition blank_decoder : Decoder := mkDecoder 0 0 [] (zrep 4 (zrep 64 0)) (zrep 4 None) (zrep 4 None) 0 false None 1.
Definition jpeg_decode (bytes : list Z) : result (Image * Z) :=
  d ← segments (S (length bytes)) bytes blank_decoder 2;
  rgb ← d_rgb d;
  Ok (mkImage (d_width d) (d_height d) rgb, d_orientation d).
