(* ===== verification/JpegTables.v ===== *)
(** * Reading a JPEG file: tables, bits and blocks ([media/jpeg.rs])

    What the Huffman tables are and when making one panics, the reader of
    bits, the blocks and the inverse DCT: no index is out of range. *)
From S2P Require Import Prelude Bytes Inflate Png PngFile Jpeg.

(** ** Computations that may panic only if [X] *)
Definition guarded {A} (X : Prop) (P : A -> Prop) (m : result A) : Prop := match m with Ok a => P a | Err _ => True | Panic => X end.
Lemma guarded_bind {A B} X (P : A -> Prop) (Q : B -> Prop) (m : result A) (k : A -> result B) :
  guarded X P m -> (forall a, P a -> guarded X Q (k a)) -> guarded X Q (m ≫= k).
Proof. destruct m as [a| |]; cbn; auto. Qed.
Lemma guarded_weaken {A} (X Y : Prop) (P Q : A -> Prop) (m : result A) : (X -> Y) -> (forall a, P a -> Q a) -> guarded X P m -> guarded Y Q m.
Proof. destruct m as [a| |]; cbn; auto. Qed.
Lemma guarded_get {A} X (l : list A) i : 0 <= i < zlen l -> guarded X (fun x => zget l i = Some x) (or_panic (zget l i)).
Proof. intros Hi. by destruct (zget_is_Some l i Hi) as [x ->]. Qed.
Lemma guarded_slice {A} X (l : list A) a b : 0 <= a <= b -> b <= zlen l -> guarded X (fun x => zslice l a b = Some x) (or_panic (zslice l a b)).
Proof. intros Ha Hb. destruct (zslice l a b) as [x|] eqn:Hs; [done|]. apply zslice_None in Hs; lia. Qed.
Lemma guarded_ok_or {A} X (o : option A) e : guarded X (fun x => o = Some x) (ok_or o e).
Proof. by destruct o. Qed.
Lemma guarded_collect {A B} X (P : A -> Prop) (Q : B -> Prop) (f : A -> result B) l :
  (forall x, P x -> guarded X Q (f x)) -> Forall P l -> guarded X (fun ys => zlen ys = zlen l /\ Forall Q ys) (collect f l).
Proof.
  intros Hf. induction 1 as [|x l Hx Hl IH]; [done|]. cbn [collect]. eapply guarded_bind; [by apply Hf|]. intros y Hy. eapply guarded_bind; [exact IH|].
  intros ys [Hn Hys]. cbn. rewrite !zlen_cons. split; [lia|by constructor].
Qed.
(** One step of a computation that succeeds in range. *)
Ltac step := eapply guarded_bind; [first [apply guarded_get|apply guarded_slice|apply guarded_ok_or]; try lia|].

Lemma zget_zlen_insert {A} (l : list A) i (x : A) : zlen (<[i := x]> l) = zlen l.
Proof. unfold zlen. by rewrite length_insert. Qed.
Lemma set_at_safe {A} X (P : A -> Prop) l i x : 0 <= i < zlen l -> P x -> Forall P l -> guarded X (fun l' => l' = <[Z.to_nat i := x]> l /\ zlen l' = zlen l /\ Forall P l') (set_at l i x).
Proof.
  intros Hi Hx Hl. unfold set_at. destruct (Z.leb_spec 0 i); [|lia]. destruct (Z.ltb_spec i (zlen l)); [|lia]. cbn. split; [done|]. split; [apply zget_zlen_insert|by apply Forall_insert].
Qed.
Lemma write_at_safe X (P : Z -> Prop) l at_ x : 0 <= at_ -> at_ + zlen x <= zlen l -> Forall P x -> Forall P l -> guarded X (fun l' => zlen l' = zlen l /\ Forall P l') (write_at l at_ x).
Proof.
  intros Ha Hl Hx HP. unfold write_at. destruct (Z.leb_spec 0 at_); [|lia]. destruct (Z.leb_spec (at_ + zlen x) (zlen l)); [|lia]. cbn. pose proof (zlen_nonneg x).
  split; [rewrite !zlen_app, zlen_ztake, zlen_zdrop by lia; lia|]. unfold ztake, zdrop. rewrite !Forall_app. auto using Forall_take, Forall_drop.
Qed.

(** ** Huffman tables *)

(** How many codes of length [l], of [2 ^ l], the first [l] counts take. *)
Definition codes (counts : list Z) : Z := fold_left (fun code n => 2 * code + n) counts 0.
(** Counts that ask for more codes of at most 9 bits than there are. *)
Definition crowded (counts : list Z) : bool := existsb (fun l => 2 ^ l <? codes (ztake l counts)) (seqZ 1 9).
Record table_ok (t : Table) : Prop := {
  fast_ok : zlen (fast t) = 512 /\ Forall (Z.le 0) (fast t);
  maxcode_ok : zlen (maxcode t) = 17;
  offset_ok : zlen (offset t) = 17;
  values_ok : Forall (Z.le 0) (values t)
}.

Lemma codes_snoc counts l n : zget counts l = Some n -> codes (ztake (l + 1) counts) = 2 * codes (ztake l counts) + n.
Proof.
  intros Hn. pose proof (zget_Some _ _ _ Hn) as Hl. unfold zget in Hn. destruct (Z.ltb_spec l 0); [lia|]. unfold ztake, codes.
  replace (Z.to_nat (l + 1)) with (S (Z.to_nat l)) by lia. rewrite (take_S_r _ _ _ Hn). by rewrite fold_left_app.
Qed.
Lemma sum_app a b : sum (a ++ b) = sum a + sum b.
Proof. unfold sum. rewrite fold_left_app. generalize (fold_left Z.add a 0) as s. induction b as [|x b IH] using rev_ind; intros s; [cbn; lia|]. rewrite !fold_left_app. cbn. rewrite IH. lia. Qed.
Lemma sum_one x : sum [x] = x.
Proof. done. Qed.
Lemma sum_snoc counts l n : zget counts l = Some n -> sum (ztake (l + 1) counts) = sum (ztake l counts) + n.
Proof.
  intros Hn. pose proof (zget_Some _ _ _ Hn) as Hl. unfold zget in Hn. destruct (Z.ltb_spec l 0); [lia|]. unfold ztake.
  replace (Z.to_nat (l + 1)) with (S (Z.to_nat l)) by lia. rewrite (take_S_r _ _ _ Hn), sum_app, sum_one. lia.
Qed.
Lemma sum_nonneg l : Forall (Z.le 0) l -> 0 <= sum l.
Proof. induction l as [|x l IH] using rev_ind; intros Hl; [done|]. apply Forall_app in Hl as [Hl [Hx _]%Forall_cons]. rewrite sum_app, sum_one. specialize (IH Hl). cbn in Hx. lia. Qed.
Lemma sum_take l n : Forall (Z.le 0) l -> sum (ztake n l) <= sum l.
Proof. intros Hl. rewrite <- (ztake_zdrop n l) at 2. rewrite sum_app. pose proof (sum_nonneg (zdrop n l) (Forall_drop _ _ _ Hl)). lia. Qed.

(** The codes of one length: all fit, or there are too many. *)
Lemma table_codes_safe n l vals f code k : zlen f = 512 -> Forall (Z.le 0) f -> Forall (Z.le 0) vals -> 1 <= l -> 0 <= code -> 0 <= k -> k + Z.of_nat n <= zlen vals ->
  (l <= 9 -> code <= 2 ^ l) ->
  guarded (l <= 9 /\ 2 ^ l < code + Z.of_nat n)
    (fun r => zlen (fst (fst r)) = 512 /\ Forall (Z.le 0) (fst (fst r)) /\ snd (fst r) = code + Z.of_nat n /\ snd r = k + Z.of_nat n /\ (l <= 9 -> code + Z.of_nat n <= 2 ^ l))
    (table_codes n l vals f code k).
Proof.
  intros Hf Hff Hv Hl. revert f code k Hf Hff. induction n as [|n IH]; intros f code k Hf Hff Hc Hk Hkn Hle; [cbn; split_and!; [done|done|lia|lia|intros; specialize (Hle ltac:(lia)); lia]|].
  cbn [table_codes]. destruct (Z.leb_spec l 9) as [H9|H9]; cbn [andb].
  - destruct (Z.ltb_spec k (zlen vals)); [|lia]. destruct (zget_is_Some vals k ltac:(lia)) as [v Hgv]. rewrite Hgv. cbn [or_panic mbind outcome_bind].
    assert (0 <= v) as Hv0 by (unfold zget in Hgv; destruct (k <? 0); [done|]; exact (Forall_lookup_1 _ _ _ _ Hv Hgv)).
    assert (2 ^ l * 2 ^ (9 - l) = 512) as H512 by (rewrite <- Z.pow_add_r by lia; by replace (l + (9 - l)) with 9 by lia).
    assert (0 < 2 ^ (9 - l)) by lia. rewrite !Z.shiftl_mul_pow2, Z.mul_1_l by lia. destruct (Z.lt_ge_cases code (2 ^ l)) as [Hlt|Hge].
    + eapply guarded_bind; [apply (write_at_safe _ (Z.le 0)); [nia|rewrite zlen_zrep, Hf by lia; nia| |done]|].
      { apply Forall_replicate. apply Z.lor_nonneg. lia. }
      intros f' [Hf' Hff']. eapply guarded_weaken; [| |apply IH; [lia|done|lia|lia|lia|lia]]; [lia|]. intros r (?&?&?&?&?). split_and!; [done|done|lia|lia|intros; lia].
    + unfold write_at. rewrite zlen_zrep, Hf by lia. destruct (Z.leb_spec (code * 2 ^ (9 - l) + 2 ^ (9 - l)) 512); [nia|]. rewrite Bool.andb_false_r. cbn [mbind outcome_bind guarded]. lia.
  - cbn [mbind outcome_bind]. eapply guarded_weaken; [| |apply IH; [done|done|lia|lia|lia|lia]]; [lia|]. intros r (?&?&?&?&?). split_and!; [done|done|lia|lia|intros; lia].
Qed.
Lemma table_lengths_safe m counts vals l t code k : bytes_ok counts -> zlen counts = 16 -> zlen vals = sum counts -> l + Z.of_nat m = 17 -> 1 <= l -> table_ok t -> Forall (Z.le 0) vals ->
  code = 2 * codes (ztake (l - 1) counts) -> 0 <= code -> (l <= 9 -> code <= 2 ^ l) -> k = sum (ztake (l - 1) counts) ->
  guarded (exists l', l <= l' <= 9 /\ 2 ^ l' < codes (ztake l' counts))
    (fun t => table_ok t /\ forall l', l <= l' <= 9 -> codes (ztake l' counts) <= 2 ^ l') (table_lengths (seqZ l (Z.of_nat m)) counts vals t code k).
Proof.
  intros Hb Hn Hvn. revert l t code k. induction m as [|m IH]; intros l t code k Hm Hl [[Hf Hff] Hmax Hoff Hval] Hvals Hcode H0 Hle Hk; [cbn; split; [by split|]; intros; lia|].
  rewrite (seqZ_cons l) by lia. replace (Z.pred (Z.of_nat (S m))) with (Z.of_nat m) by lia. cbn [table_lengths].
  assert (Forall (Z.le 0) counts) as Hpos by (apply (Forall_impl _ _ _ Hb); unfold u8, fits; lia).
  eapply guarded_bind; [apply (set_at_safe _ (fun _ => True)); [lia|done|by apply Forall_true]|]. intros offs (_&Hoffs&_).
  destruct (zget_is_Some counts (l - 1) ltac:(lia)) as [n Hgn]. rewrite Hgn. cbn [or_panic mbind outcome_bind]. pose proof (get_ok _ _ _ Hb Hgn) as Hn8. unfold u8, fits in Hn8.
  pose proof (codes_snoc _ _ _ Hgn) as Hc. pose proof (sum_snoc _ _ _ Hgn) as Hs. replace (l - 1 + 1) with l in Hc, Hs by lia.
  pose proof (sum_take counts l Hpos). pose proof (sum_nonneg (ztake (l - 1) counts) (Forall_take _ _ _ Hpos)).
  eapply guarded_bind. { eapply guarded_weaken; [| |apply (table_codes_safe (Z.to_nat n) l vals (fast t) code k); try done; lia]; [|intros r Hr; exact Hr]. intros [H9 Hgt]. exists l. rewrite Z2Nat.id in Hgt by lia. split; [lia|lia]. }
  intros [[f' code'] k'] (Hf'&Hff'&Hcode'&Hk'&Hle'). cbn [fst snd] in *. rewrite Z2Nat.id in * by lia.
  assert (exists maxs, (if 0 <? n then set_at (maxcode t) l (code' - 1) else Ok (maxcode t)) = Ok maxs /\ zlen maxs = 17) as (maxs&->&Hmaxs).
  { destruct (0 <? n); [|by eexists]. unfold set_at. destruct (Z.leb_spec 0 l); [|lia]. destruct (Z.ltb_spec l (zlen (maxcode t))); [|lia]. eexists. split; [done|]. by rewrite zget_zlen_insert. }
  cbn [mbind outcome_bind]. rewrite Z.shiftl_mul_pow2 by lia. replace (Z.succ l) with (l + 1) by lia.
  eapply guarded_weaken; [| |apply (IH (l + 1)); [lia|lia|split; [by split|done|cbn; lia|done]|done|replace (l + 1 - 1) with l by lia; lia|lia| |replace (l + 1 - 1) with l by lia; lia]].
  - intros (l'&?&?). exists l'. split; [lia|done].
  - intros t' [Ht' Hall]. split; [done|]. intros l' Hl'. destruct (Z.eq_dec l' l) as [->|]; [specialize (Hle' ltac:(lia)); lia|apply Hall; lia].
  - intros H9. rewrite Z.pow_add_r, Hcode' by lia. specialize (Hle' ltac:(lia)). lia.
Qed.
(** Making a table panics exactly when its counts are crowded. *)
Lemma table_new_safe counts vals : bytes_ok counts -> zlen counts = 16 -> bytes_ok vals -> zlen vals = sum counts ->
  guarded (crowded counts = true) (fun t => table_ok t /\ crowded counts = false) (table_new counts vals).
Proof.
  intros Hb Hn Hv Hvn. unfold table_new. assert (Forall (Z.le 0) vals) as Hv0 by (apply (Forall_impl _ _ _ Hv); unfold u8, fits; lia).
  eapply guarded_weaken; [| |apply (table_lengths_safe 16 counts vals 1); try done].
  - intros (l&Hl&Hc). unfold crowded. apply existsb_exists. exists l. split; [apply list_elem_of_In, elem_of_seqZ; lia|by apply Z.ltb_lt].
  - intros t [Ht Hall]. split; [done|]. unfold crowded. apply Bool.not_true_iff_false. intros (l&Hl%list_elem_of_In%elem_of_seqZ&Hc%Z.ltb_lt)%existsb_exists. specialize (Hall l ltac:(lia)). lia.
  - split; [split; [done|]; apply Forall_replicate; lia|done|done|done].
Qed.

(** ** The bits *)
Record bits_ok (from : Z) (b : Bits) : Prop := {
  buf_fits : fits 32 (b_buf b);
  n_fits : fits 32 (b_n b);
  at_after : from <= b_at b;
  stop_after : forall s, stop b = Some s -> from <= s
}.
Section BitsSafe.
Context (data : list Z) (Hdata : bytes_ok data) (from : Z).

Lemma next_byte_ok b : bits_ok from b -> let '(x, at_, s) := next_byte data b in u8 x /\ from <= at_ /\ forall s', s = Some s' -> from <= s'.
Proof.
  intros [_ _ Ha Hs]. unfold next_byte. assert (u8 0) as H0 by (unfold u8, fits; lia). destruct (stop b) as [s|]; [by auto|].
  destruct (zget data (b_at b)) as [x|] eqn:Hx; [|by auto]. pose proof (get_ok _ _ _ Hdata Hx). destruct (negb (x =? 0xFF)); [split_and!; [done|lia|done]|].
  destruct (bool_decide _); (split; [done|split; [lia|]]); [done|by intros ? [= <-]].
Qed.
Lemma refill_ok fuel b : bits_ok from b -> bits_ok from (refill data fuel b).
Proof.
  revert b. induction fuel as [|fuel IH]; intros b Hb; [done|]. cbn [refill]. destruct (Z.leb_spec (b_n b) 24); [|done]. pose proof (next_byte_ok b Hb) as Hn.
  destruct (next_byte data b) as [[x at_] s]. destruct Hn as (Hx&Ha&Hs). destruct Hb as [Hbuf Hn _ _]. apply IH. split; cbn; [|unfold fits in *; lia|done|done].
  apply lor_fits; [lia|done|]. unfold fits, u8 in *. rewrite Z.shiftl_mul_pow2 by lia. split; [nia|]. replace (2 ^ 32) with (2 ^ 8 * 2 ^ 24) by lia.
  assert (2 ^ (24 - b_n b) <= 2 ^ 24) by (apply Z.pow_le_mono_r; lia). nia.
Qed.
(** Four steps are enough to fill the buffer. *)
Lemma refill_full b : fits 32 (b_n b) -> 24 < b_n (refill data 4 b).
Proof.
  assert (forall fuel b, 24 < b_n b + 8 * Z.of_nat fuel -> 24 < b_n (refill data fuel b)) as H.
  { intros fuel. induction fuel as [|fuel IH]; intros b0 Hb0; [cbn; lia|]. cbn [refill]. destruct (Z.leb_spec (b_n b0) 24); [|done]. destruct (next_byte data b0) as [[x at_] s]. apply IH. cbn. lia. }
  intros Hn. apply H. unfold fits in Hn. lia.
Qed.
Lemma peek_bits_ok k b : bits_ok from b -> bits_ok from (snd (peek data k b)) /\ fits 32 (fst (peek data k b)).
Proof.
  intros Hb. pose proof (refill_ok 4 b Hb) as Hr. split; [done|]. apply shiftr_fits; [apply Z.mod_pos_bound; lia|]. by destruct Hr.
Qed.
Lemma skip_ok k b : bits_ok from b -> bits_ok from (skip k b).
Proof. intros [? ? ? ?]. by split; cbn; [apply wrap_fits|apply wrap_fits|..]. Qed.
Lemma take_ok k b : bits_ok from b -> bits_ok from (snd (take_bits data k b)).
Proof.
  intros Hb. unfold take_bits. destruct (k =? 0); [done|]. pose proof (peek_bits_ok k b Hb) as [Hp _]. destruct (peek data k b) as [v b']. by apply skip_ok.
Qed.
Lemma signed_ok k b : bits_ok from b -> bits_ok from (snd (signed data k b)).
Proof. intros Hb. unfold signed. pose proof (take_ok k b Hb) as Ht. by destruct (take_bits data k b) as [v b']. Qed.
Lemma restart_ok b : bits_ok from b -> bits_ok from (restart data b).
Proof.
  intros [_ _ Ha Hs]. assert (fits 32 0) by (unfold fits; lia). assert (from <= default (b_at b) (stop b)) by (destruct (stop b); cbn; auto). unfold restart.
  destruct (_ && _); split; cbn; auto; [lia|done].
Qed.
Lemma scan_end_after b : bits_ok from b -> from <= scan_end data b.
Proof.
  intros [_ _ Ha Hs]. assert (from <= default (b_at b) (stop b)) as H by (destruct (stop b); cbn; auto). unfold scan_end. revert H. generalize (default (b_at b) (stop b)) as a.
  induction (length data) as [|n IH]; intros a H; [done|]. cbn [end_from]. destruct (_ && _); [apply IH; lia|done].
Qed.

Definition symbol_ok (r : Z * Bits) : Prop := 0 <= fst r /\ bits_ok from (snd r).
Lemma long_code_safe ls t code b : table_ok t -> bits_ok from b -> Forall (fun l => 0 <= l < 17) ls -> guarded False symbol_ok (long_code ls t code b).
Proof.
  intros [_ Hm Ho Hv] Hb. induction 1 as [|l ls Hl Hls IH]; cbn [long_code]; [split; [cbn; lia|by apply skip_ok]|].
  step. intros m _. cbv beta. destruct (_ <=? m); [|done]. step. intros o _. split; [|by apply skip_ok]. cbn [fst]. destruct (zget (values t) _) as [x|] eqn:Hx; [|cbn; lia].
  unfold zget in Hx. destruct (_ <? 0); [done|]. exact (Forall_lookup_1 _ _ _ _ Hv Hx).
Qed.
Lemma decode_symbol_safe t b : table_ok t -> bits_ok from b -> guarded False symbol_ok (decode data t b).
Proof.
  intros Ht Hb. unfold decode. pose proof (peek_bits_ok 9 b Hb) as [Hb' _]. pose proof (refill_ok 4 b Hb) as Hr. unfold peek in *. cbn [fst snd] in Hb'.
  destruct Ht as [[Hf Hff] ? ? ?] eqn:HtE. assert (0 <= shr_u32 (b_buf (refill data 4 b)) (32 - 9) < 512) as Hi.
  { destruct Hr as [Hr _ _ _]. unfold shr_u32, fits in *. change ((32 - 9) mod 32) with 23. rewrite Z.shiftr_div_pow2 by lia. split; [apply Z.div_pos; lia|apply Z.div_lt_upper_bound; lia]. }
  step. intros e He. cbv beta. destruct (e =? 0); cbn [negb].
  - apply long_code_safe; [done|by apply refill_ok|]. apply Forall_forall. intros l Hl%elem_of_seqZ. lia.
  - split; [cbn [fst]|by apply skip_ok]. apply Z.shiftr_nonneg. unfold zget in He. destruct (_ <? 0); [done|]. exact (Forall_lookup_1 _ _ _ _ Hff He).
Qed.

(** ** Blocks *)
Lemma natural_ok k : 0 <= k < 64 -> exists z, zget NATURAL k = Some z /\ 0 <= z < 64.
Proof.
  intros Hk. destruct (zget_is_Some NATURAL k) as [z Hz]; [done|]. exists z. split; [done|]. assert (Forall (fun z => 0 <= z < 64) NATURAL) as HN.
  { apply Forall_forall. intros y Hy. assert (forallb (fun z => (0 <=? z) && (z <? 64)) NATURAL = true) as Hall by done. rewrite forallb_forall in Hall. apply list_elem_of_In, Hall in Hy. lia. }
  unfold zget in Hz. destruct (k <? 0); [done|]. exact (Forall_lookup_1 _ _ _ _ HN Hz).
Qed.
Definition coef_ok (r : list Z * Bits) : Prop := zlen (fst r) = 64 /\ bits_ok from (snd r).
Lemma ac_from_safe fuel ac q k coef b : table_ok ac -> zlen q = 64 -> zlen coef = 64 -> 0 <= k -> 64 <= k + Z.of_nat fuel -> bits_ok from b ->
  guarded False coef_ok (ac_from data fuel ac q k coef b).
Proof.
  intros Ht Hq. revert k coef b. induction fuel as [|fuel IH]; intros k coef b Hc Hk Hf Hb; cbn [ac_from]; (destruct (Z.leb_spec 64 k); [by split|]); [lia|].
  eapply guarded_bind; [by apply decode_symbol_safe|]. intros [rs b1] [Hrs Hb1]. cbn [fst snd] in *. pose proof (proj2 (Z.shiftr_nonneg rs 4) Hrs).
  destruct (_ =? 0); [destruct (negb _); [by split|apply IH; [done|lia|lia|done]]|].
  destruct (natural_ok (Z.min (k + Z.shiftr rs 4) 63) ltac:(lia)) as (z&->&Hz). cbn [or_panic mbind outcome_bind]. pose proof (signed_ok (Z.land rs 15) b1 Hb1) as Hs.
  destruct (signed data (Z.land rs 15) b1) as [v b2]. cbn [snd] in Hs. step. intros qz _. cbv beta. eapply guarded_bind; [apply (set_at_safe _ (fun _ => True)); [lia|done|by apply Forall_true]|].
  intros coef' (_&Hc'&_). apply IH; [lia|lia|lia|done].
Qed.
End BitsSafe.

(** ** The inverse DCT *)
Lemma idct8_length v : length (idct8 v) = 8%nat.
Proof. done. Qed.
Lemma range_limit_ok v : u8 (range_limit v).
Proof. unfold range_limit, clamp, u8, fits. lia. Qed.
Lemma idct_rows_ok coef : zlen (idct_rows coef) = 8 /\ Forall (fun r => zlen r = 8 /\ bytes_ok r) (idct_rows coef).
Proof.
  unfold idct_rows. split; [unfold zlen; by rewrite length_map, length_seq|]. apply Forall_map. apply Forall_forall. intros y _. split; [unfold zlen; by rewrite length_map, idct8_length|].
  apply Forall_map, Forall_forall. intros v _. apply range_limit_ok.
Qed.
Lemma write_rows_safe X rows plane at_ stride : 0 <= at_ -> 8 <= stride -> at_ + (zlen rows - 1) * stride + 8 <= zlen plane ->
  Forall (fun r => zlen r = 8 /\ bytes_ok r) rows -> bytes_ok plane -> guarded X (fun p => zlen p = zlen plane /\ bytes_ok p) (write_rows rows plane at_ stride).
Proof.
  intros Ha Hs Hl Hr. revert at_ plane Ha Hl. induction Hr as [|r rows [Hr Hrb] Hrs IH]; intros at_ plane Ha Hl Hp; [done|]. cbn [write_rows]. rewrite zlen_cons in Hl. pose proof (zlen_nonneg rows).
  eapply guarded_bind; [apply (write_at_safe _ u8); [lia|nia|done|done]|]. intros p [Hpl Hpb]. eapply guarded_weaken; [| |apply IH; [lia|nia|done]]; [done|]. cbn beta. intros p' [??]. split; [lia|done].
Qed.
Lemma idct_safe X coef plane at_ stride : 0 <= at_ -> 8 <= stride -> at_ + 7 * stride + 8 <= zlen plane -> bytes_ok plane ->
  guarded X (fun p => zlen p = zlen plane /\ bytes_ok p) (idct coef plane at_ stride).
Proof. intros Ha Hs Hl Hp. destruct (idct_rows_ok coef) as [H8 Hr]. apply write_rows_safe; [done|done|lia|done|done]. Qed.
