(* ===== verification/JpegFile.v ===== *)
(** * Reading a JPEG file: scans, planes and the image ([media/jpeg.rs])

    Every segment keeps the decoder's state sound: planes as large as the
    frame's blocks, tables of their sizes. So no file makes the reader index
    out of range, but for one step: a Huffman table whose counts ask for more
    short codes than there are. *)
From S2P Require Import Prelude Bytes Inflate Png PngFile Jpeg JpegTables.

(** ** The state *)
Definition mcus_x (d : Decoder) : Z := div_ceil (d_width d) (8 * fst (d_max d)).
Definition mcus_y (d : Decoder) : Z := div_ceil (d_height d) (8 * snd (d_max d)).
Record comp_ok (mx my : Z) (c : Component) : Prop := {
  h_ok : 1 <= c_h c <= 4;
  v_ok : 1 <= c_v c <= 4;
  tq_ok : 0 <= c_tq c <= 3;
  dc_ok : 0 <= c_dc c < 4;
  ac_ok : 0 <= c_ac c < 4;
  width_ok : c_width c = mx * c_h c * 8;
  plane_ok : zlen (c_plane c) = c_width c * my * c_v c * 8;
  samples_ok : bytes_ok (c_plane c)
}.
Definition tables_ok (l : list (option Table)) : Prop := zlen l = 4 /\ Forall (fun o => forall t, o = Some t -> table_ok t) l.
Record dec_ok (d : Decoder) : Prop := {
  size_ok : (comps d = [] /\ d_width d = 0 /\ d_height d = 0) \/
    (0 < d_width d /\ 0 < d_height d /\ d_width d * d_height d <= MAX_PIXELS /\ (zlen (comps d) = 1 \/ zlen (comps d) = 3));
  comps_ok : Forall (comp_ok (mcus_x d) (mcus_y d)) (comps d);
  quant_ok : zlen (quant d) = 4 /\ Forall (fun r => zlen r = 64) (quant d);
  dcs_ok : tables_ok (d_dc d);
  acs_ok : tables_ok (d_ac d);
  turn_ok : 1 <= d_orientation d <= 8
}.
(** What a scan leaves as it is. *)
Definition shape (d : Decoder) : Z * Z * list Z * list Z := (d_width d, d_height d, map c_h (comps d), map c_v (comps d)).
Lemma shape_len d d' : shape d' = shape d -> zlen (comps d') = zlen (comps d).
Proof. unfold shape. intros [= _ _ Hh _]. rewrite <- (zlen_map c_h (comps d')), Hh. apply zlen_map. Qed.
Lemma shape_mcus d d' : shape d' = shape d -> mcus_x d' = mcus_x d /\ mcus_y d' = mcus_y d /\ d_max d' = d_max d.
Proof. unfold shape, mcus_x, mcus_y, d_max. intros [= -> -> -> ->]. done. Qed.

Lemma most_ge x l : x ∈ l -> x <= most l.
Proof.
  destruct l as [|y l]; [by intros ?%elem_of_nil|]. cbn [most]. assert (forall l a, a <= fold_left Z.max l a /\ forall z, z ∈ l -> z <= fold_left Z.max l a) as H.
  { clear. induction l as [|b l IH]; intros a; cbn; [split; [lia|by intros ? ?%elem_of_nil]|]. destruct (IH (Z.max a b)) as [Ha Hz]. split; [lia|]. intros z [->|Hin]%elem_of_cons; [lia|auto]. }
  destruct (H l y) as [Hy Hz]. intros [->|Hin]%elem_of_cons; auto.
Qed.
Lemma most_in l : l <> [] -> most l ∈ l.
Proof.
  destruct l as [|y l]; [done|]. intros _. cbn [most]. assert (forall l a, fold_left Z.max l a = a \/ fold_left Z.max l a ∈ l) as H.
  { clear. induction l as [|b l IH]; intros a; cbn; [by left|]. destruct (IH (Z.max a b)) as [->|Hin]; [|right; apply elem_of_cons; by right].
    destruct (Z.max_spec a b) as [[_ ->]|[_ ->]]; [right; apply elem_of_cons; by left|by left]. }
  destruct (H l y) as [->|Hin]; apply elem_of_cons; auto.
Qed.
Lemma div_ceil_le a b c : 0 < b -> a <= b * c -> div_ceil a b <= c.
Proof. intros Hb Hac. pose proof (div_ceil_spec a b Hb). nia. Qed.
Lemma div_ceil_pos a b : 0 < b -> 0 < a -> 0 < div_ceil a b.
Proof. intros Hb Ha. pose proof (div_ceil_spec a b Hb). nia. Qed.
Lemma div_ceil_nonneg a b : 0 < b -> 0 <= a -> 0 <= div_ceil a b.
Proof. intros Hb Ha. pose proof (div_ceil_spec a b Hb). nia. Qed.
Lemma get_in {A} (l : list A) i x : zget l i = Some x -> x ∈ l.
Proof. unfold zget. destruct (i <? 0); [done|]. apply list_elem_of_lookup_2. Qed.
Lemma get_Forall {A} (P : A -> Prop) l i x : Forall P l -> zget l i = Some x -> P x.
Proof. intros Hl Hx. apply get_in in Hx. by rewrite Forall_forall in Hl; auto. Qed.

(** A component of a sound state, and the largest factors. *)
Lemma comp_bounds d c : dec_ok d -> c ∈ comps d -> comp_ok (mcus_x d) (mcus_y d) c /\ 1 <= c_h c <= fst (d_max d) /\ 1 <= c_v c <= snd (d_max d) /\ fst (d_max d) <= 4 /\ snd (d_max d) <= 4
  /\ 0 < d_width d /\ 0 < d_height d /\ 0 < mcus_x d /\ 0 < mcus_y d.
Proof.
  intros Hd Hc. pose proof (comps_ok d Hd) as Hall. rewrite Forall_forall in Hall. pose proof (Hall c Hc) as Hco. split; [done|]. destruct Hco as [Hh Hv _ _ _ _ _ _].
  assert (c_h c <= fst (d_max d)) by (apply most_ge, list_elem_of_fmap_2; done). assert (c_v c <= snd (d_max d)) by (apply most_ge, list_elem_of_fmap_2; done).
  assert (comps d <> []) as Hne by (intros Hnil; rewrite Hnil in Hc; by apply elem_of_nil in Hc).
  assert (fst (d_max d) <= 4). { assert (most (map c_h (comps d)) ∈ map c_h (comps d)) as (x&Hx&Hin)%list_elem_of_fmap by (apply most_in; by destruct (comps d)). cbn. rewrite Hx. destruct (Hall x Hin). lia. }
  assert (snd (d_max d) <= 4). { assert (most (map c_v (comps d)) ∈ map c_v (comps d)) as (x&Hx&Hin)%list_elem_of_fmap by (apply most_in; by destruct (comps d)). cbn. rewrite Hx. destruct (Hall x Hin). lia. }
  destruct (size_ok d Hd) as [(?&_)|(Hw&Hht&_)]; [done|]. split_and!; try lia; unfold mcus_x, mcus_y; apply div_ceil_pos; lia.
Qed.

(** Replacing a component by one of the same place and size. *)
Definition same_place (c c' : Component) : Prop := c_h c' = c_h c /\ c_v c' = c_v c.
Lemma insert_same {A B} (f : A -> B) (l : list A) i x y : l !! i = Some x -> f y = f x -> map f (<[i := y]> l) = map f l.
Proof. intros Hx Hf. change (f <$> <[i := y]> l = f <$> l). rewrite list_fmap_insert, Hf. apply list_insert_id. by rewrite list_lookup_fmap, Hx. Qed.
Lemma set_comp_safe X d i c c' : dec_ok d -> zget (comps d) i = Some c -> same_place c c' -> comp_ok (mcus_x d) (mcus_y d) c' ->
  guarded X (fun l => dec_ok (set_comps d l) /\ shape (set_comps d l) = shape d /\ zget l i = Some c') (set_at (comps d) i c').
Proof.
  intros Hd Hc [Hh Hv] Hc'. pose proof (zget_Some _ _ _ Hc) as Hi. eapply guarded_weaken; [| |apply (set_at_safe X (comp_ok (mcus_x d) (mcus_y d))); [done|done|by apply comps_ok]]; [done|].
  intros l (->&Hlen&Hl). unfold zget in Hc. destruct (Z.ltb_spec i 0); [lia|].
  assert (shape (set_comps d (<[Z.to_nat i := c']> (comps d))) = shape d) as Hs. { unfold shape. cbn. by rewrite !(insert_same _ _ _ _ _ Hc). }
  destruct (shape_mcus _ _ Hs) as (Hx&Hy&_). split; [|split; [done|]].
  - destruct Hd as [Hsz _ Hq Hdc Hac Ho]. split; cbn; [|by rewrite Hx, Hy|done|done|done|done]. rewrite Hlen. destruct Hsz as [(H0&?)|?]; [by rewrite H0 in Hc|by right].
  - unfold zget. destruct (Z.ltb_spec i 0); [lia|]. rewrite list_lookup_insert_eq; [done|]. unfold zlen in Hi. lia.
Qed.

Section Scans.
Context (data : list Z) (Hdata : bytes_ok data) (from : Z).

(** The state and bits after some of a scan of [d]. *)
Definition scanned (d : Decoder) (r : Decoder * Bits) : Prop := dec_ok (fst r) /\ shape (fst r) = shape d /\ bits_ok from (snd r).
Definition in_scan (d : Decoder) (ms : list Z) : Prop := Forall (fun i => 0 <= i < zlen (comps d)) ms.

Lemma block_safe d i b : dec_ok d -> 0 <= i < zlen (comps d) -> bits_ok from b ->
  guarded False (fun '(coef, d', b') => scanned d (d', b')) (block data d i b).
Proof.
  intros Hd Hi Hb. unfold block. step. intros c Hc. cbv beta. destruct (comp_bounds d c Hd (get_in _ _ _ Hc)) as (Hco&_).
  destruct (quant_ok d Hd) as [Hq4 Hq]. destruct (dcs_ok d Hd) as [Hdc4 Hdc]. destruct (acs_ok d Hd) as [Hac4 Hac].
  pose proof (dc_ok _ _ _ Hco). pose proof (ac_ok _ _ _ Hco). pose proof (tq_ok _ _ _ Hco).
  step. intros odc Hodc. cbv beta. step. intros oac Hoac. cbv beta. step. intros dc ->. cbv beta. step. intros ac ->. cbv beta. step. intros q Hqg. cbv beta.
  pose proof (get_Forall _ _ _ _ Hq Hqg) as Hq64. cbn in Hq64. pose proof (get_Forall _ _ _ _ Hdc Hodc dc eq_refl) as Htd. pose proof (get_Forall _ _ _ _ Hac Hoac ac eq_refl) as Hta.
  eapply guarded_bind; [by apply decode_symbol_safe|]. intros [t b1] [_ Hb1]. cbn [snd] in Hb1. cbv beta. pose proof (signed_ok data Hdata from t b1 Hb1) as Hs. destruct (signed data t b1) as [v b2]. cbn [snd] in Hs.
  eapply guarded_bind; [apply (set_comp_safe _ d i c); [done|done|done|]|].
  { destruct Hco. by split. }
  intros l (Hd'&Hsh&_). step. intros q0 _. cbv beta. eapply guarded_bind; [apply (ac_from_safe data Hdata from); [done|done| |lia|lia|done]|].
  { rewrite zlen_cons, zlen_zrep by lia. lia. }
  intros [coef b3] [_ Hb3]. done.
Qed.
Lemma shape_get d d' i c : shape d' = shape d -> zget (comps d) i = Some c -> exists c', zget (comps d') i = Some c' /\ same_place c c'.
Proof.
  intros Hs Hc. destruct (zget_is_Some (comps d') i) as [c' Hc']; [rewrite (shape_len _ _ Hs); by eapply zget_Some|]. exists c'. split; [done|]. unfold shape in Hs. injection Hs as _ _ Hh Hv.
  unfold zget in *. destruct (i <? 0); [done|]. apply (f_equal (fun l => l !! Z.to_nat i)) in Hh, Hv.
  change (((c_h <$> comps d') !! Z.to_nat i) = (c_h <$> comps d) !! Z.to_nat i) in Hh. change (((c_v <$> comps d') !! Z.to_nat i) = (c_v <$> comps d) !! Z.to_nat i) in Hv.
  rewrite !list_lookup_fmap, Hc, Hc' in Hh, Hv. cbn in Hh, Hv. split; congruence.
Qed.
(** A block of a component, in its plane. *)
Lemma block_place d c bx by_ : dec_ok d -> c ∈ comps d -> 0 <= bx < mcus_x d * c_h c -> 0 <= by_ < mcus_y d * c_v c ->
  8 <= c_width c /\ 0 <= by_ * 8 * c_width c + bx * 8 /\ by_ * 8 * c_width c + bx * 8 + 7 * c_width c + 8 <= zlen (c_plane c).
Proof.
  intros Hd Hc Hx Hy. destruct (comp_bounds d c Hd Hc) as ([Hh Hv _ _ _ Hw Hp _]&_&_&_&_&_&_&Hmx&Hmy). rewrite Hp.
  assert (bx * 8 + 8 <= c_width c) by nia. set (W := c_width c) in *. split; [nia|]. split; [nia|]. assert (by_ * 8 + 8 <= mcus_y d * c_v c * 8) by nia. nia.
Qed.
Lemma scanned_trans d d1 r : shape d1 = shape d -> scanned d1 r -> scanned d r.
Proof. unfold scanned. intros Hs (?&?&?). split_and!; [done|congruence|done]. Qed.
Definition block_in (d : Decoder) (i h v x y : Z) : Prop :=
  1 <= h /\ 1 <= v /\ 0 <= x /\ 0 <= y /\ exists c, zget (comps d) i = Some c /\ x * h + h <= mcus_x d * c_h c /\ y * v + v <= mcus_y d * c_v c.
Lemma block_in_shape d d' i h v x y : shape d' = shape d -> block_in d i h v x y -> block_in d' i h v x y.
Proof.
  intros Hs (?&?&?&?&c&Hc&Hx&Hy). destruct (shape_get _ _ _ _ Hs Hc) as (c'&Hc'&Hch&Hcv). destruct (shape_mcus _ _ Hs) as (Hmx&Hmy&_).
  split_and!; try done. exists c'. by rewrite Hch, Hcv, Hmx, Hmy.
Qed.
Lemma unit_blocks_safe bs i h v x y d b : Forall (fun k => 0 <= k < h * v) bs -> dec_ok d -> block_in d i h v x y -> bits_ok from b ->
  guarded False (scanned d) (unit_blocks data bs i h v x y d b).
Proof.
  intros Hbs. revert d b. induction Hbs as [|k bs Hk Hbs IH]; intros d b Hd Hin Hb; [done|]. cbn [unit_blocks].
  assert (0 <= i < zlen (comps d)) as Hi by (destruct Hin as (_&_&_&_&c&Hc&_); by eapply zget_Some).
  eapply guarded_bind; [by apply block_safe|]. intros [[coef d1] b1] (Hd1&Hs1&Hb1). cbn [fst snd] in *. cbv beta.
  pose proof (block_in_shape _ _ _ _ _ _ _ Hs1 Hin) as Hin1. pose proof Hin1 as (Hh&Hv&Hx&Hy&c&Hc&Hcx&Hcy). rewrite Hc. cbn [or_panic mbind outcome_bind].
  pose proof (Z.mod_pos_bound k h ltac:(lia)). assert (0 <= k / h < v) by (split; [apply Z.div_pos; lia|apply Z.div_lt_upper_bound; lia]).
  destruct (block_place d1 c (x * h + k mod h) (y * v + k / h) Hd1 (get_in _ _ _ Hc)) as (Hw&Hat&Hend); [nia|nia|]. destruct (comp_bounds d1 c Hd1 (get_in _ _ _ Hc)) as (Hco&_).
  eapply guarded_bind; [apply idct_safe; [done|done|done|apply (samples_ok _ _ _ Hco)]|]. intros plane [Hpl Hpb].
  eapply guarded_bind; [apply (set_comp_safe _ d1 i c); [done|done|done|]|].
  { destruct Hco. split; cbn; try done. lia. }
  intros l (Hd2&Hs2&_). eapply guarded_weaken; [| |apply IH; [done| |done]]; [done| |].
  - intros r. apply scanned_trans. congruence.
  - by eapply block_in_shape.
Qed.
Lemma unit_members_safe ms (one : bool) x y d b : in_scan d ms -> dec_ok d -> bits_ok from b -> 0 <= x -> 0 <= y ->
  (forall i c, i ∈ ms -> zget (comps d) i = Some c -> if one then x + 1 <= mcus_x d * c_h c /\ y + 1 <= mcus_y d * c_v c else x < mcus_x d /\ y < mcus_y d) ->
  guarded False (scanned d) (unit_members data ms one x y d b).
Proof.
  intros Hms. revert d b Hms. induction ms as [|i ms IH]; intros d b Hms Hd Hb Hx Hy Hin; [done|]. apply Forall_cons in Hms as [Hi Hms]. cbn [unit_members].
  step. intros c Hc. cbv beta. pose proof (Hin i c (list_elem_of_here _ _) Hc) as Hic. destruct (comp_bounds d c Hd (get_in _ _ _ Hc)) as ([Hh Hv _ _ _ _ _ _]&_&_&_&_&_&_&Hmx&Hmy).
  assert (exists h v, (if one then (1, 1) else (c_h c, c_v c)) = (h, v) /\ block_in d i h v x y) as (h&v&->&Hbl).
  { destruct one; [exists 1, 1|exists (c_h c), (c_v c)]; (split; [done|]); (split; [lia|]); (split; [lia|]); (split; [lia|]); (split; [lia|]); exists c; (split; [done|]); nia. }
  eapply guarded_bind; [apply unit_blocks_safe; [|done|done|done]|]. { apply Forall_forall. intros k Hk%elem_of_seqZ. lia. }
  intros [d1 b1] (Hd1&Hs1&Hb1). cbn [fst snd] in *. eapply guarded_weaken; [| |apply IH; [|done|done|done|done|]]; [done| | |].
  - intros r. by apply scanned_trans.
  - unfold in_scan. by rewrite (shape_len _ _ Hs1).
  - intros j c1 Hj Hc1. destruct (shape_get _ _ _ _ (eq_sym Hs1) Hc1) as (c0&Hc0&Hch&Hcv). destruct (shape_mcus _ _ Hs1) as (Hmx1&Hmy1&_).
    specialize (Hin j c0 ltac:(apply elem_of_cons; by right) Hc0). by rewrite Hmx1, Hmy1, <- Hch, <- Hcv.
Qed.
Lemma reset_preds_safe ms d : in_scan d ms -> dec_ok d -> guarded False (fun d' => dec_ok d' /\ shape d' = shape d) (reset_preds ms d).
Proof.
  revert d. induction ms as [|i ms IH]; intros d Hms Hd; [done|]. apply Forall_cons in Hms as [Hi Hms]. cbn [reset_preds]. step. intros c Hc. cbv beta.
  destruct (comp_bounds d c Hd (get_in _ _ _ Hc)) as (Hco&_). eapply guarded_bind; [apply (set_comp_safe _ d i c); [done|done|done|destruct Hco; by split]|]. intros l (Hd1&Hs1&_).
  eapply guarded_weaken; [| |apply IH; [|done]]; [done| |]. - intros d' [??]. split; [done|congruence]. - unfold in_scan. by rewrite (shape_len _ _ Hs1).
Qed.
(** Each unit of a scan is inside the planes of its members. *)
Definition unit_in (d : Decoder) (ms : list Z) (x y : Z) : Prop :=
  0 <= x /\ 0 <= y /\ forall i c, i ∈ ms -> zget (comps d) i = Some c ->
    if zlen ms =? 1 then x + 1 <= mcus_x d * c_h c /\ y + 1 <= mcus_y d * c_v c else x < mcus_x d /\ y < mcus_y d.
Lemma unit_in_shape d d' ms x y : shape d' = shape d -> unit_in d ms x y -> unit_in d' ms x y.
Proof.
  intros Hs (Hx&Hy&Hin). split_and!; [done|done|]. intros i c' Hi Hc'. destruct (shape_get _ _ _ _ (eq_sym Hs) Hc') as (c&Hc&Hch&Hcv). destruct (shape_mcus _ _ Hs) as (Hmx&Hmy&_).
  specialize (Hin i c Hi Hc). by rewrite Hmx, Hmy, <- Hch, <- Hcv.
Qed.
Lemma div_mod_in u n m : 0 <= u < n * m -> 0 <= n -> 0 <= u mod n < n /\ 0 <= u / n < m.
Proof. intros Hu Hn. assert (0 < n) by (destruct (Z.eq_dec n 0) as [->|]; lia). split; [apply Z.mod_pos_bound; lia|]. split; [apply Z.div_pos; lia|apply Z.div_lt_upper_bound; lia]. Qed.
Lemma plane_covers d c : dec_ok d -> c ∈ comps d ->
  div_ceil (d_width d * c_h c) (fst (d_max d)) <= 8 * (mcus_x d * c_h c) /\ div_ceil (d_height d * c_v c) (snd (d_max d)) <= 8 * (mcus_y d * c_v c).
Proof.
  intros Hd Hc. destruct (comp_bounds d c Hd Hc) as (_&Hh&Hv&_). unfold mcus_x, mcus_y.
  pose proof (div_ceil_spec (d_width d) (8 * fst (d_max d)) ltac:(lia)). pose proof (div_ceil_spec (d_height d) (8 * snd (d_max d)) ltac:(lia)). split; apply div_ceil_le; nia.
Qed.
Lemma units_safe d ms : dec_ok d -> in_scan d ms ->
  guarded False (fun '(n, wide) => forall u, 0 <= u < n -> unit_in d ms (u mod wide) (u / wide)) (units d ms).
Proof.
  intros Hd Hms. unfold units. destruct (d_max d) as [hmax vmax] eqn:Hmax.
  assert (guarded False (fun '(n, wide) => zlen ms <> 1 -> forall u, 0 <= u < n -> unit_in d ms (u mod wide) (u / wide))
    (let w := div_ceil (d_width d) (8 * hmax) in Ok (w * div_ceil (d_height d) (8 * vmax), w))) as Hmany.
  { cbn zeta. cbn [guarded]. intros Hn u Hu. replace (div_ceil (d_width d) (8 * hmax)) with (mcus_x d) in * by (unfold mcus_x; by rewrite Hmax).
    replace (div_ceil (d_height d) (8 * vmax)) with (mcus_y d) in * by (unfold mcus_y; by rewrite Hmax).
    assert (0 <= mcus_x d) as Hx0. { destruct (comps d) as [|c cs] eqn:Hcs; [|destruct (comp_bounds d c Hd) as (_&_&_&_&_&_&_&?&_); [rewrite Hcs; apply elem_of_cons; by left|lia]].
      destruct (size_ok d Hd) as [(_&Hw&_)|(_&_&_&[H1|H1])]; [|rewrite Hcs in H1; done..]. unfold mcus_x, d_max. rewrite Hw, Hcs. done. }
    destruct (div_mod_in _ _ _ Hu Hx0) as [Hm Hq]. split_and!; [lia|lia|]. intros i c _ _. destruct (Z.eqb_spec (zlen ms) 1); [done|]. lia. }
  destruct ms as [|i [|j ms]]; [by eapply guarded_weaken; [| |exact Hmany]; [done|intros [n w] Hg; by apply Hg]| |by eapply guarded_weaken; [| |exact Hmany]; [done|intros [n w] Hg; apply Hg; rewrite !zlen_cons; pose proof (zlen_nonneg ms); lia]].
  apply Forall_cons in Hms as [Hi _]. step. intros c Hc. cbn zeta. cbn [guarded]. destruct (comp_bounds d c Hd (get_in _ _ _ Hc)) as (Hco&Hh&Hv&_&_&Hw&Hht&_). destruct (plane_covers d c Hd (get_in _ _ _ Hc)) as [Hpx Hpy].
  rewrite Hmax in *. cbn [fst snd] in *. intros u Hu.
  pose proof (div_ceil_le _ 8 (mcus_x d * c_h c) ltac:(lia) Hpx). pose proof (div_ceil_le _ 8 (mcus_y d * c_v c) ltac:(lia) Hpy).
  destruct (div_mod_in _ _ _ Hu) as [Hm Hq]; [apply div_ceil_nonneg; [lia|]; apply div_ceil_nonneg; nia|]. split_and!; [lia|lia|]. intros i' c' ->%list_elem_of_singleton Hc'.
  rewrite Hc in Hc'. injection Hc' as <-. change (zlen [i] =? 1) with true. cbn iota. lia.
Qed.
Lemma scan_units_safe us wide ms d b : Forall (fun u => unit_in d ms (u mod wide) (u / wide)) us -> in_scan d ms -> dec_ok d -> bits_ok from b ->
  guarded False (scanned d) (scan_units data us wide ms d b).
Proof.
  revert d b. induction us as [|u us IH]; intros d b Hus Hms Hd Hb; [done|]. apply Forall_cons in Hus as [Hu Hus]. cbn [scan_units].
  eapply guarded_bind with (P := scanned d).
  { destruct (_ && _); [|done]. eapply guarded_bind; [by apply reset_preds_safe|]. intros d' [Hd' Hs']. split_and!; [done|done|by apply restart_ok]. }
  intros [d1 b1] (Hd1&Hs1&Hb1). cbn [fst snd] in *. pose proof (unit_in_shape _ _ _ _ _ Hs1 Hu) as (Hx&Hy&Hin). assert (in_scan d1 ms) as Hms1 by (unfold in_scan; by rewrite (shape_len _ _ Hs1)).
  eapply guarded_bind; [apply unit_members_safe; [done|done|done|done|done|]|].
  { intros i c Hi Hc. exact (Hin i c Hi Hc). }
  intros [d2 b2] (Hd2&Hs2&Hb2). cbn [fst snd] in *. assert (shape d2 = shape d) as Hs by congruence. eapply guarded_weaken; [| |apply IH; [|unfold in_scan; by rewrite (shape_len _ _ Hs)|done|done]]; [done| |].
  - intros r. by apply scanned_trans.
  - apply (Forall_impl _ _ _ Hus). intros v. by apply unit_in_shape.
Qed.
Lemma chunks_len {A} fuel n (l : list A) m : 0 < n -> zlen l = n * Z.of_nat m -> Forall (fun c => zlen c = n) (chunks_fuel fuel n l) /\ ((length l <= fuel)%nat -> length (chunks_fuel fuel n l) = m).
Proof.
  intros Hn. revert l m. induction fuel as [|fuel IH]; intros l m Hl; cbn [chunks_fuel]; [split; [constructor|]; intros Hf; assert (zlen l = 0) by (unfold zlen in *; lia); cbn; nia|].
  destruct (Z.eqb_spec (zlen l) 0) as [H0|H0]; [split; [constructor|]; intros _; cbn; nia|]. destruct m as [|m]; [lia|].
  destruct (IH (zdrop n l) m) as [Hall Hlen]; [rewrite zlen_zdrop by lia; lia|]. split; [constructor; [rewrite zlen_ztake by lia; nia|done]|].
  intros Hf. cbn [length]. f_equal. apply Hlen. unfold zdrop. rewrite length_drop. lia.
Qed.
Lemma position_in l id i : position l id = Some i -> 0 <= i < zlen l.
Proof.
  revert i. induction l as [|c l IH]; intros i; [done|]. cbn [position]. rewrite zlen_cons. pose proof (zlen_nonneg l). destruct (_ =? _); [intros [= <-]; lia|].
  destruct (position l id) as [j|]; [|done]. intros [= <-]. specialize (IH j eq_refl). lia.
Qed.
Lemma two_bits z : 0 <= Z.land z 3 < 4.
Proof. change 3 with (Z.ones 2). rewrite Z.land_ones by lia. apply Z.mod_pos_bound. lia. Qed.
Lemma members_from_safe cs d ms : Forall (fun c => zlen c = 2) cs -> dec_ok d -> in_scan d ms ->
  guarded False (fun '(ms', d') => dec_ok d' /\ shape d' = shape d /\ in_scan d' ms') (members_from cs d ms).
Proof.
  intros Hcs. revert d ms. induction Hcs as [|c cs Hc Hcs IH]; intros d ms Hd Hms; [done|]. cbn [members_from]. step. intros id _. cbv beta. step. intros tt_ _. cbv beta. step. intros i Hi%position_in. cbv beta.
  step. intros k Hk. cbv beta. destruct (comp_bounds d k Hd (get_in _ _ _ Hk)) as (Hco&_). eapply guarded_bind; [apply (set_comp_safe _ d i k); [done|done|done|]|].
  { destruct Hco. split; cbn; try done; apply two_bits. }
  intros l (Hd1&Hs1&_). eapply guarded_weaken; [| |apply IH; [done|]]; [done| |].
  - intros [ms' d'] (?&?&?). split_and!; [done|congruence|done].
  - unfold in_scan in *. rewrite (shape_len _ _ Hs1). apply Forall_app. split; [done|]. by apply Forall_singleton.
Qed.
Lemma members_safe d s : bytes_ok s -> dec_ok d -> guarded False (fun '(ms, d') => dec_ok d' /\ shape d' = shape d /\ in_scan d' ms) (members d s).
Proof.
  intros Hs Hd. unfold members. step. intros n Hn%(get_ok _ _ _ Hs). cbv beta. unfold u8, fits in Hn. step. intros cs Hcs. cbv beta.
  apply members_from_safe; [|done|constructor]. apply (chunks_len _ 2 cs (Z.to_nat n)); [lia|]. apply zslice_len in Hcs. lia.
Qed.
End Scans.
Lemma scan_safe data d s at_ : bytes_ok data -> bytes_ok s -> dec_ok d -> guarded False (fun '(at', d') => at_ <= at' /\ dec_ok d') (scan data d s at_).
Proof.
  intros Hdata Hs Hd. unfold scan. eapply guarded_bind; [by apply members_safe|]. intros [ms d1] (Hd1&Hs1&Hms). eapply guarded_bind; [by apply units_safe|]. intros [n wide] Hu.
  eapply guarded_bind; [apply (scan_units_safe data Hdata at_); [|done|done|]|].
  - apply Forall_forall. intros u Hin%elem_of_seqZ. apply Hu. lia.
  - split; cbn; [by unfold fits|by unfold fits|lia|done].
  - intros [d2 b] (Hd2&_&Hb). split; [|done]. by apply scan_end_after.
Qed.

(** ** The other segments *)
Lemma component_safe c : zlen c = 3 -> bytes_ok c -> guarded False (fun k => forall mx my, 0 <= mx -> 0 <= my -> comp_ok mx my (sized mx my k)) (component c).
Proof.
  intros Hl Hb. unfold component. step. intros id _. cbv beta. step. intros hv _. cbv beta. step. intros tq Htq%(get_ok _ _ _ Hb). cbv beta. unfold u8, fits in Htq.
  destruct (Z.leb_spec 1 (Z.shiftr hv 4)), (Z.leb_spec (Z.shiftr hv 4) 4); cbn [andb negb orb]; try done. destruct (Z.leb_spec 1 (Z.land hv 15)), (Z.leb_spec (Z.land hv 15) 4); cbn [andb negb orb]; try done.
  destruct (Z.ltb_spec 3 tq); [done|]. cbn [guarded]. intros mx my Hx Hy. split; cbn; try lia; [rewrite zlen_zrep; [lia|nia]|]. apply Forall_replicate. by unfold u8, fits.
Qed.
Lemma check_size_guarded w h : 0 <= w -> 0 <= h -> guarded False (fun _ => 0 < w /\ 0 < h /\ w * h <= MAX_PIXELS) (check_size w h).
Proof. intros Hw Hh. destruct (check_size w h) as [[]| |] eqn:Hc; [by apply check_size_ok|done|]. unfold check_size in Hc. by destruct (_ || _). Qed.
Lemma chunks_bytes fuel n l : bytes_ok l -> Forall bytes_ok (chunks_fuel fuel n l).
Proof.
  revert l. induction fuel as [|fuel IH]; intros l Hl; cbn [chunks_fuel]; [constructor|]. destruct (_ =? 0); [constructor|]. constructor; [by apply Forall_take|apply IH; by apply Forall_drop].
Qed.
Lemma frame_safe d s : bytes_ok s -> dec_ok d -> guarded False dec_ok (frame d s).
Proof.
  intros Hs Hd. unfold frame. destruct (Z.ltb_spec (zlen s) 6); [done|]. step. intros s0 _. cbv beta. destruct (negb _); [done|].
  step. intros hs Hhs. cbv beta. step. intros ws Hws. cbv beta. step. intros n _. cbv beta zeta. destruct (one_of [1; 3] n) eqn:Hn; cbn [negb orb]; [|done].
  assert (n = 1 \/ n = 3) as Hn13 by (unfold one_of in Hn; cbn in Hn; lia). destruct (Z.ltb_spec (zlen s) (6 + 3 * n)); [done|].
  pose proof (be_val_bound _ (slice_ok _ _ _ _ Hs Hhs)) as [Hh0 _]. pose proof (be_val_bound _ (slice_ok _ _ _ _ Hs Hws)) as [Hw0 _].
  eapply guarded_bind; [by apply check_size_guarded|]. intros _ (Hw&Hh&Hmax). step. intros cs Hcs. cbv beta. pose proof (zslice_len _ _ _ _ Hcs) as Hlen. pose proof (slice_ok _ _ _ _ Hs Hcs) as Hcb.
  destruct (chunks_len (length cs) 3 cs (Z.to_nat n)) as [H3 Hcount]; [lia|lia|]. specialize (Hcount ltac:(lia)).
  eapply guarded_bind; [apply (guarded_collect _ (fun c => zlen c = 3 /\ bytes_ok c)); [intros c [? ?]; by apply component_safe|]|].
  { apply Forall_and. split; [done|]. by apply chunks_bytes. }
  intros ks [Hks Hall]. set (d1 := mkDecoder _ _ ks _ _ _ _ _ _ _). destruct (d_max d1) as [hmax vmax] eqn:Hm. cbn [guarded].
  set (d2 := set_comps d1 _). assert (zlen ks = n) as Hkn by (rewrite Hks; unfold Prelude.chunks, zlen; lia).
  assert (d_max d2 = d_max d1) as Hm2. { unfold d_max. cbn. rewrite !map_map. done. }
  destruct Hd as [_ _ Hq Hdc Hac Ho]. split; [| |done|done|done|done].
  - right. cbn. rewrite zlen_map. lia.
  - unfold mcus_x, mcus_y. rewrite Hm2, Hm. cbn. apply Forall_map. assert (1 <= hmax /\ 1 <= vmax) as [Hh1 Hv1].
    { unfold d_max in Hm. cbn in Hm. injection Hm as <- <-. assert (ks <> []) as Hne by (intros ->; change (zlen (@nil Component)) with 0 in Hkn; lia). split.
      - assert (most (map c_h ks) ∈ map c_h ks) as (k&->&Hk)%list_elem_of_fmap by (apply most_in; by destruct ks). rewrite Forall_forall in Hall. destruct (Hall k Hk 0 0) as [Hx _ _ _ _ _ _ _]; [lia|lia|]. cbn in Hx. lia.
      - assert (most (map c_v ks) ∈ map c_v ks) as (k&->&Hk)%list_elem_of_fmap by (apply most_in; by destruct ks). rewrite Forall_forall in Hall. destruct (Hall k Hk 0 0) as [_ Hx _ _ _ _ _ _]; [lia|lia|]. cbn in Hx. lia. }
    apply (Forall_impl _ _ _ Hall). intros k Hk. apply Hk; apply div_ceil_nonneg; lia.
Qed.

(** The counts of the tables in a DHT segment. *)
Fixpoint dht_counts (fuel : nat) (s : list Z) : list (list Z) :=
  match fuel with
  | O => []
  | S fuel => if zlen s <? 17 then [] else match zslice s 1 17 with Some counts => counts :: dht_counts fuel (zdrop (17 + sum counts) s) | None => [] end
  end.
Definition crowds (seg : list Z) : Prop := exists counts, counts ∈ dht_counts (S (length seg)) seg /\ crowded counts = true.
Lemma bytes_nonneg l : bytes_ok l -> Forall (Z.le 0) l.
Proof. intros Hl. apply (Forall_impl _ _ _ Hl). unfold u8, fits. lia. Qed.
Lemma put_table_safe d class id t : dec_ok d -> 0 <= id < 4 -> table_ok t -> guarded False dec_ok (put_table d class id t).
Proof.
  intros [Hsz Hcs Hq [Hdc4 Hdc] [Hac4 Hac] Ho] Hid Ht. unfold put_table. assert (forall o, Some t = Some o -> table_ok o) as Hto by (by intros o [= <-]).
  destruct (class =? 0); (eapply guarded_bind; [apply (set_at_safe _ (fun o => forall t, o = Some t -> table_ok t)); [lia|done|done]|]); intros l (_&Hl&Hall); split; cbn; try done; unfold tables_ok; by rewrite Hl.
Qed.
Lemma huffman_safe fuel d s : bytes_ok s -> dec_ok d -> zlen s < Z.of_nat fuel ->
  guarded (exists counts, counts ∈ dht_counts fuel s /\ crowded counts = true) dec_ok (huffman fuel d s).
Proof.
  revert d s. induction fuel as [|fuel IH]; intros d s Hs Hd Hf; [pose proof (zlen_nonneg s); lia|]. cbn [huffman dht_counts]. destruct (Z.ltb_spec (zlen s) 17); [done|].
  step. intros s0 _. cbv beta. destruct (zslice s 1 17) as [counts|] eqn:Hc; [|apply zslice_None in Hc; lia]. cbn [or_panic mbind outcome_bind]. pose proof (slice_ok _ _ _ _ Hs Hc) as Hcb.
  step. intros vals Hv. cbv beta. pose proof (slice_ok _ _ _ _ Hs Hv) as Hvb. apply zslice_len in Hc, Hv. pose proof (sum_nonneg _ (bytes_nonneg _ Hcb)).
  eapply guarded_bind; [eapply guarded_weaken; [| |apply table_new_safe; [done|lia|done|lia]]|].
  - intros Hcr. exists counts. split; [apply elem_of_cons; by left|done].
  - intros t Ht. exact Ht.
  - intros t [Ht _]. eapply guarded_bind; [eapply guarded_weaken; [| |apply put_table_safe; [done|apply two_bits|done]]; [done|intros d' Hd'; exact Hd']|].
    intros d' Hd'. eapply guarded_weaken; [| |apply IH; [by apply Forall_drop|done|rewrite zlen_zdrop by lia; lia]].
    + intros (c&Hin&Hcr). exists c. split; [apply elem_of_cons; by right|done].
    + done.
Qed.
Lemma quant_values_safe ks wide q row : zlen q = (if (wide : bool) then 128 else 64) -> zlen row = 64 -> Forall (fun k => 0 <= k < 64) ks -> guarded False (fun r => zlen r = 64) (quant_values ks wide q row).
Proof.
  intros Hq Hr Hks. revert row Hr. induction Hks as [|k ks Hk Hks IH]; intros row Hr; [done|]. cbn [quant_values]. eapply guarded_bind with (P := fun _ => True).
  { destruct wide; [|eapply guarded_weaken; [| |apply guarded_get; lia]; done]. step. intros hi _. cbv beta. step. by intros lo _. }
  intros v _. destruct (natural_ok k Hk) as (z&->&Hz). cbn [or_panic mbind outcome_bind]. eapply guarded_bind; [apply (set_at_safe _ (fun _ => True)); [lia|done|by apply Forall_true]|]. intros row' (_&Hr'&_). apply IH. lia.
Qed.
Lemma quantization_safe fuel d s : dec_ok d -> zlen s < Z.of_nat fuel -> guarded False dec_ok (quantization fuel d s).
Proof.
  revert d s. induction fuel as [|fuel IH]; intros d s Hd Hf; [pose proof (zlen_nonneg s); lia|]. cbn [quantization]. destruct s as [|s0 s]; [done|]. cbv zeta.
  set (len := if negb (Z.shiftr s0 4 =? 0) then 128 else 64). assert (1 <= len) by (unfold len; destruct (negb _); lia). step. intros q Hq. cbv beta. apply zslice_len in Hq.
  destruct Hd as [Hsz Hcs [Hq4 Hq64] Hdc Hac Ho]. pose proof (two_bits s0). step. intros row Hrow. cbv beta. pose proof (get_Forall _ _ _ _ Hq64 Hrow) as Hr. cbn in Hr.
  eapply guarded_bind; [apply quant_values_safe; [rewrite Hq; unfold len; destruct (negb _); lia|done|apply Forall_forall; intros k Hk%elem_of_seqZ; lia]|]. intros row' Hr'.
  eapply guarded_bind; [apply (set_at_safe _ (fun r => zlen r = 64)); [lia|done|done]|]. intros qs (_&Hqs&Hq64'). apply IH.
  - split; cbn; try done. split; [lia|done].
  - rewrite zlen_zdrop by lia. rewrite zlen_cons in *; pose proof (zlen_nonneg s). lia.
Qed.
Lemma orientation_ok t : 1 <= default 1 (orientation t) <= 8.
Proof.
  destruct (orientation t) as [o|] eqn:Ho; [|cbn; lia]. cbn. unfold orientation in Ho. repeat (apply bind_Some in Ho as (?&_&Ho); cbn zeta in Ho).
  destruct (Z.leb_spec 1 x3), (Z.leb_spec x3 8); cbn in Ho; try done. injection Ho as <-. lia.
Qed.
Lemma app_segment_safe d marker seg : dec_ok d -> guarded False dec_ok (app_segment d marker seg).
Proof.
  intros Hd. unfold app_segment. destruct (marker =? 0xE0); [by destruct Hd; split|]. destruct (_ && starts_with seg EXIF_); [destruct Hd; split; cbn; try done; apply orientation_ok|].
  destruct (Z.leb_spec 12 (zlen seg)); [|by rewrite Bool.andb_false_r]. destruct (_ && _); [|done]. step. intros a _. by destruct Hd; split.
Qed.
Lemma segment_shape bytes at_ framed : bytes_ok bytes ->
  guarded False (fun o => match o with
    | Some (m, seg, next) => exists p a b, at_ <= p /\ zslice bytes p (p + 4) = Some [0xFF; m; a; b] /\ zslice bytes (p + 4) (p + 2 + be_val [a; b]) = Some seg /\ next = p + 2 + be_val [a; b]
    | None => True end) (segment bytes at_ framed).
Proof.
  intros Hb. unfold segment. assert (at_ <= skip_fill (length bytes) bytes at_) as Hp.
  { generalize (length bytes) as fuel. intros fuel. revert at_. induction fuel as [|fuel IH]; intros a; [cbn; lia|]. cbn [skip_fill]. destruct (_ && _); [specialize (IH (a + 1)); lia|lia]. }
  set (p := skip_fill _ _ _) in *. destruct (zslice bytes p (p + 4)) as [l|] eqn:Hl; [|by destruct framed]. pose proof (slice_ok _ _ _ _ Hb Hl) as Hlb.
  destruct l as [|x [|m [|a [|b [|e l]]]]]; try done. destruct (Z.eqb_spec x 0xFF) as [->|]; cbn [negb]; [|done]. destruct (m =? 0xD9); [done|]. cbn zeta.
  assert (Z.lor (Z.shiftl a 8) b = be_val [a; b]) as ->.
  { do 3 (apply Forall_cons in Hlb as [? Hlb]). apply Forall_cons in Hlb as [Hb8 _]. rewrite lor_shiftl_add by (unfold u8, fits in *; lia). change [a; b] with ([a] ++ [b]); rewrite be_val_snoc; change (be_val [a]) with (a + 256 * 0); lia. }
  step. intros seg Hseg. cbn. exists p, a, b. done.
Qed.
(** A DHT segment of the file, one of whose tables is crowded. *)
Definition crowded_file (bytes : list Z) : Prop :=
  exists p a b seg, zslice bytes p (p + 4) = Some [0xFF; 0xC4; a; b] /\ zslice bytes (p + 4) (p + 2 + be_val [a; b]) = Some seg /\ crowds seg.
Lemma guarded_unconditionally {A} (X : Prop) (P : A -> Prop) m : guarded False P m -> guarded X P m.
Proof. by apply guarded_weaken. Qed.
Lemma d_segment_safe d marker seg bytes next : bytes_ok seg -> bytes_ok bytes -> dec_ok d ->
  guarded (marker = 0xC4 /\ crowds seg) (fun '(at_, d') => next <= at_ /\ dec_ok d') (d_segment d marker seg bytes next).
Proof.
  intros Hs Hb Hd. unfold d_segment.
  assert (forall X m, guarded X dec_ok m -> guarded X (fun '(at_, d') => next <= at_ /\ dec_ok d') (d ← m; Ok (next, d))) as Hnext.
  { intros X m Hm. eapply guarded_bind; [exact Hm|]. intros d' Hd'. split; [lia|done]. }
  destruct (one_of _ _); [apply Hnext, guarded_unconditionally; by apply frame_safe|]. destruct (Z.eqb_spec marker 0xC4) as [->|_].
  { apply Hnext. eapply guarded_weaken; [| |apply (huffman_safe (S (length seg))); [done|done|unfold zlen; lia]]; [done|done]. }
  destruct (marker =? 0xDB); [apply Hnext, guarded_unconditionally, quantization_safe; [done|unfold zlen; lia]|].
  destruct (marker =? 0xDA); [apply guarded_unconditionally; by apply scan_safe|].
  destruct (marker =? 0xDD); [apply Hnext, guarded_unconditionally; unfold dri; step; intros r _; by destruct Hd; split|].
  destruct (_ && _); [done|]. apply Hnext, guarded_unconditionally. by apply app_segment_safe.
Qed.
Lemma segments_safe fuel bytes d at_ : bytes_ok bytes -> dec_ok d -> zlen bytes - at_ < Z.of_nat fuel -> 0 < Z.of_nat fuel -> guarded (crowded_file bytes) dec_ok (segments fuel bytes d at_).
Proof.
  intros Hb. revert d at_. induction fuel as [|fuel IH]; intros d at_ Hd Hf H0; [lia|]. cbn [segments]. eapply guarded_bind; [by apply guarded_unconditionally, segment_shape|].
  intros [[[m seg] next]|]; [|done]. intros (p&a&b&Hp&H4&Hseg&->). pose proof (proj1 (zslice_Some _ _ _ _) Hseg) as (Hr&Hend&_).
  eapply guarded_bind; [eapply guarded_weaken; [| |apply (d_segment_safe d m seg bytes); [by eapply slice_ok|done|done]]|].
  - intros [-> Hcr]. by exists p, a, b, seg.
  - intros r Hr'. exact Hr'.
  - intros [at' d'] [Hat Hd']. apply IH; [done|lia|lia].
Qed.

(** ** The pixels *)
Section Pixels.
Context (d : Decoder) (Hd : dec_ok d) (c : Component) (Hc : c ∈ comps d).
Context (Hfx : fst (d_max d) mod c_h c = 0) (Hfy : snd (d_max d) mod c_v c = 0).
Definition grid_of : Grid := mkGrid c (fst (d_max d) / c_h c) (snd (d_max d) / c_v c) (div_ceil (d_width d * c_h c) (fst (d_max d))) (div_ceil (d_height d * c_v c) (snd (d_max d))).
Lemma grid_at_safe x y : 0 <= x < dw grid_of -> 0 <= y -> guarded False (fun _ => True) (grid_at grid_of x y).
Proof.
  intros Hx Hy. unfold grid_at. destruct (plane_covers d c Hd Hc) as [Hpx Hpy]. destruct (comp_bounds d c Hd Hc) as ([Hh Hv _ _ _ Hw Hp _]&?&?&_&_&Hw0&Hh0&Hmx&Hmy). unfold grid_of in *. cbn [g_c dw dh] in *.
  pose proof (div_ceil_pos (d_height d * c_v c) (snd (d_max d)) ltac:(lia) ltac:(nia)). eapply guarded_weaken; [| |apply guarded_get]; [done|done|]. rewrite Hp. set (dh0 := div_ceil (d_height d * c_v c) _) in *.
  assert (0 <= Z.min y (dh0 - 1) < 8 * (mcus_y d * c_v c)) by lia. set (r := Z.min y (dh0 - 1)) in *. assert (0 <= x < c_width c) by lia. split; [nia|]. assert (r + 1 <= mcus_y d * c_v c * 8) by lia. nia.
Qed.
Lemma grid_sample_safe x y : 0 <= x < d_width d -> 0 <= y < d_height d -> guarded False u8 (grid_sample grid_of x y).
Proof.
  intros Hx Hy. destruct (comp_bounds d c Hd Hc) as (_&Hh&Hv&_&_&Hw0&Hh0&_).
  pose proof (div_ceil_spec (d_width d * c_h c) (fst (d_max d)) ltac:(lia)) as Hdw. pose proof (Z.div_mod (fst (d_max d)) (c_h c) ltac:(lia)) as Hf.
  assert (0 < fx grid_of) as Hfx0 by (cbn [grid_of fx]; apply Z.div_str_pos; lia). assert (0 < fy grid_of) as Hfy0 by (cbn [grid_of fy]; apply Z.div_str_pos; lia).
  assert (0 <= x / fx grid_of < dw grid_of) as Hsx.
  { split; [apply Z.div_pos; lia|]. apply Z.div_lt_upper_bound; [done|]. unfold grid_of in *. cbn [fx dw] in *. rewrite Hfx in Hf. nia. }
  pose proof (Z.div_pos y (fy grid_of) ltac:(lia) Hfy0) as Hsy. unfold grid_sample. cbv zeta.
  set (near := if y mod 2 =? 0 then Z.max 0 (y / fy grid_of - 1) else y / fy grid_of + 1). assert (0 <= near) by (unfold near; destruct (_ =? 0); lia).
  set (side := if x mod 2 =? 0 then Z.max 0 (x / fx grid_of - 1) else Z.min (x / fx grid_of + 1) (dw grid_of - 1)). assert (0 <= side < dw grid_of) by (unfold side; destruct (x mod 2 =? 0); lia).
  assert (forall u v, 0 <= u < dw grid_of -> 0 <= v -> forall (k : Z -> result Z), (forall a, guarded False (fun _ => True) (k a)) -> guarded False (fun _ => True) (grid_at grid_of u v ≫= k)) as Hat.
  { intros u v Hu Hv' k Hk. eapply guarded_bind; [by apply grid_at_safe|]. intros a _. apply Hk. }
  eapply guarded_bind with (P := fun _ => True); [|intros v _; by apply wrap_fits].
  destruct (_ && _ && _). { eapply guarded_bind with (P := fun _ => True); [apply Hat; [done|done|]; intros a; by apply Hat|]. intros a _. eapply guarded_bind with (P := fun _ => True); [apply Hat; [done|done|]; intros b; by apply Hat|]. done. }
  destruct (_ && _ && _). { apply Hat; [done|done|]. intros a. by apply Hat. }
  destruct (_ && _); [|by apply grid_at_safe]. apply Hat; [done|done|]. intros a. by apply Hat.
Qed.
End Pixels.
Lemma places_ok w h : 0 <= w -> 0 <= h -> zlen (places w h) = w * h /\ Forall (fun p => 0 <= fst p < w /\ 0 <= snd p < h) (places w h).
Proof.
  intros Hw Hh. unfold places. split.
  - assert (forall ys : list Z, zlen (concat (map (fun y => map (fun x => (x, y)) (seqZ 0 w)) ys)) = w * zlen ys) as H.
    { intros ys. induction ys as [|y ys IH]; [change (0 = w * 0); lia|]. cbn [map concat]. rewrite zlen_app, IH, zlen_map, zlen_cons. unfold zlen at 1. rewrite length_seqZ. lia. }
    rewrite H. unfold zlen. rewrite length_seqZ. lia.
  - apply Forall_concat, Forall_map, Forall_forall. intros y Hy%elem_of_seqZ. apply Forall_map, Forall_forall. intros x Hx%elem_of_seqZ. cbn. lia.
Qed.
Lemma upsample_safe d c : dec_ok d -> c ∈ comps d -> guarded False (fun l => zlen l = d_width d * d_height d /\ bytes_ok l) (upsample d c).
Proof.
  intros Hd Hc. destruct (comp_bounds d c Hd Hc) as (_&_&_&_&_&Hw&Hh&_). unfold upsample. destruct (d_max d) as [hmax vmax] eqn:Hm. destruct (Z.eqb_spec (hmax mod c_h c) 0); cbn [negb orb]; [|done].
  destruct (Z.eqb_spec (vmax mod c_v c) 0); cbn [negb]; [|done]. destruct (places_ok (d_width d) (d_height d)) as [Hn Hp]; [lia|lia|].
  eapply guarded_weaken; [| |eapply (guarded_collect _ _ u8); [|exact Hp]]; [done| |].
  - intros l [Hl Hu]. split; [lia|done].
  - intros p [Hx Hy]. pose proof (grid_sample_safe d Hd c Hc) as Hg. unfold grid_of in Hg. rewrite Hm in Hg. by apply Hg.
Qed.
Lemma clamp_ok z : u8 (clamp 0 255 z).
Proof. unfold clamp, u8, fits. lia. Qed.
Lemma rgb_pixel_safe coded planes i n : 0 <= i < n -> Forall (fun l => zlen l = n /\ bytes_ok l) planes -> guarded False (fun p => zlen p = 3 /\ bytes_ok p) (rgb_pixel coded planes i).
Proof.
  intros Hi Hp. assert (forall l (k : Z -> result (list Z)), l ∈ planes -> (forall x, u8 x -> guarded False (fun p => zlen p = 3 /\ bytes_ok p) (k x)) -> guarded False (fun p => zlen p = 3 /\ bytes_ok p) (or_panic (zget l i) ≫= k)) as Hget.
  { intros l k Hl Hk. rewrite Forall_forall in Hp. destruct (Hp l Hl) as [Hn Hb]. step. intros x Hx. apply Hk. exact (get_ok l i x Hb Hx). }
  unfold rgb_pixel. destruct planes as [|r [|g [|b [|e planes]]]]; [done| |done| |done].
  - apply Hget; [apply elem_of_cons; by left|]. intros x Hx. split; [done|]. by apply three_ok.
  - apply Hget; [set_solver|]. intros x Hx. apply Hget; [set_solver|]. intros y Hy. apply Hget; [set_solver|]. intros z Hz. destruct coded; [split; [done|by apply three_ok]|]. split; [done|]. unfold ycc. apply three_ok; apply clamp_ok.
Qed.
Lemma concat_three (ps : list (list Z)) : Forall (fun p => zlen p = 3 /\ bytes_ok p) ps -> zlen (concat ps) = 3 * zlen ps /\ bytes_ok (concat ps).
Proof.
  induction 1 as [|p ps [Hp Hb] _ [IHl IHb]]; [by split; [|constructor]|]. cbn [concat]. rewrite zlen_app, zlen_cons. split; [lia|by apply Forall_app].
Qed.
Lemma d_rgb_safe d : dec_ok d -> guarded False (fun l => zlen l = 3 * (d_width d * d_height d) /\ bytes_ok l) (d_rgb d).
Proof.
  intros Hd. assert (0 <= d_width d * d_height d) as Hn by (destruct (size_ok d Hd) as [(_&->&_)|(?&?&_)]; nia). unfold d_rgb.
  eapply guarded_bind; [apply (guarded_collect _ (fun c => c ∈ comps d)); [intros c Hc; by apply upsample_safe|by apply Forall_forall]|]. intros planes [_ Hp].
  eapply guarded_bind; [apply (guarded_collect _ (fun i => 0 <= i < d_width d * d_height d)); [intros i Hi; by eapply rgb_pixel_safe|apply Forall_forall; intros i Hi%elem_of_seqZ; lia]|].
  intros ps [Hl Hps]. cbn [guarded]. destruct (concat_three ps Hps) as [Hc Hb]. split; [|done]. rewrite Hc, Hl. unfold zlen. rewrite length_seqZ. lia.
Qed.
Lemma blank_ok : dec_ok blank_decoder.
Proof.
  split; cbn; [by left|constructor| | | |lia].
  - split; [done|]. by apply Forall_replicate.
  - split; [done|]. by apply Forall_replicate.
  - split; [done|]. by apply Forall_replicate.
Qed.
(** What the reader gives: an image of its size, or an empty one. *)
Definition image_ok (i : Image) : Prop :=
  (0 < i_width i /\ 0 < i_height i \/ i_width i = 0 /\ i_height i = 0) /\ i_width i * i_height i <= MAX_PIXELS /\ zlen (rgb i) = 3 * (i_width i * i_height i) /\ bytes_ok (rgb i).
Lemma jpeg_cases bytes : bytes_ok bytes -> guarded (crowded_file bytes) (fun '(i, o) => image_ok i /\ 1 <= o <= 8) (jpeg_decode bytes).
Proof.
  intros Hb. unfold jpeg_decode. eapply guarded_bind; [apply segments_safe; [done|apply blank_ok|unfold zlen; lia|lia]|]. intros d Hd.
  eapply guarded_bind; [by apply guarded_unconditionally, d_rgb_safe|]. intros l [Hl Hlb]. cbn [guarded]. split; [|by apply turn_ok]. unfold image_ok. cbn.
  destruct (size_ok d Hd) as [(_&Hw&Hh)|(Hw&Hh&Hm&_)]; (split; [lia|]); (split; [|done]); [rewrite Hw; done|done].
Qed.

(** A gray JPEG of 8 by 8 samples, one value throughout. *)
Definition sample_jpeg : list Z :=
  [0xFF; 0xD8; 0xFF; 0xDB; 0; 67; 0] ++ zrep 64 8 ++ [0xFF; 0xC0; 0; 11; 8; 0; 8; 0; 8; 1; 1; 0x11; 0]
  ++ [0xFF; 0xC4; 0; 21; 0x00; 2] ++ zrep 15 0 ++ [0; 3] ++ [0xFF; 0xC4; 0; 20; 0x10; 1] ++ zrep 15 0 ++ [0]
  ++ [0xFF; 0xDA; 0; 8; 1; 1; 0; 0; 63; 0; 0xD7; 0xFF; 0xD9].
Lemma sample_jpeg_ok : bytes_ok sample_jpeg.
Proof.
  apply Forall_forall. intros x Hx. assert (forallb (fun x => (0 <=? x) && (x <? 256)) sample_jpeg = true) as Hall by (vm_compute; reflexivity).
  rewrite forallb_forall in Hall. apply list_elem_of_In, Hall in Hx. unfold u8, fits. lia.
Qed.
(** ** A file that makes it panic *)
Lemma write_at_no_error l a x e : write_at l a x <> Err e.
Proof. unfold write_at. by destruct (_ && _). Qed.
Lemma set_at_no_error {A} (l : list A) i x e : set_at l i x <> Err e.
Proof. unfold set_at. by destruct (_ && _). Qed.
Lemma bind_no_error {A B} (m : result A) (k : A -> result B) : (forall e, m <> Err e) -> (forall a e, k a <> Err e) -> forall e, (m ≫= k) <> Err e.
Proof. intros Hm Hk e. destruct m as [a|e'|]; [apply Hk|by specialize (Hm e')|done]. Qed.
Lemma or_panic_no_error {A} (o : option A) : forall e, (or_panic o : result A) <> Err e.
Proof. by destruct o. Qed.
Lemma table_codes_no_error n l vals f code k : forall e, table_codes n l vals f code k <> Err e.
Proof.
  revert f code k. induction n as [|n IH]; intros f code k; [done|]. cbn [table_codes]. apply bind_no_error; [|intros f'; apply IH].
  destruct (_ && _); [|done]. apply bind_no_error; [apply or_panic_no_error|]. intros v. apply write_at_no_error.
Qed.
Lemma table_new_no_error counts vals e : table_new counts vals <> Err e.
Proof.
  unfold table_new. revert e. generalize (mkTable (zrep 512 0) (zrep 17 (-1)) (zrep 17 0) vals) as t. generalize 0 at 1 as code. generalize 0 as k. generalize (seqZ 1 16) as ls. intros ls.
  induction ls as [|l ls IH]; intros k code t; [done|]. cbn [table_lengths]. apply bind_no_error; [apply set_at_no_error|]. intros offs. apply bind_no_error; [apply or_panic_no_error|]. intros n.
  apply bind_no_error; [apply table_codes_no_error|]. intros [[f' code'] k']. apply bind_no_error; [|intros maxs; apply IH]. destruct (0 <? n); [apply set_at_no_error|done].
Qed.
Lemma crowded_table counts vals : bytes_ok counts -> zlen counts = 16 -> bytes_ok vals -> zlen vals = sum counts -> crowded counts = true -> table_new counts vals = Panic.
Proof.
  intros Hc Hn Hv Hs Hcr. pose proof (table_new_safe counts vals Hc Hn Hv Hs) as Ht. destruct (table_new counts vals) as [t|e|] eqn:He; [|by apply table_new_no_error in He|done]. cbn in Ht. rewrite Hcr in Ht. by destruct Ht.
Qed.
Lemma sum_bound l : bytes_ok l -> sum l <= 255 * zlen l.
Proof. induction l as [|x l IH] using rev_ind; intros Hl; [done|]. apply Forall_app in Hl as [Hl [Hx _]%Forall_cons]. rewrite sum_app, sum_one, zlen_app. change (zlen [x]) with 1. specialize (IH Hl). unfold u8, fits in Hx. lia. Qed.
Definition dht_file (class : Z) (counts vals rest : list Z) : list Z := [0xFF; 0xD8; 0xFF; 0xC4] ++ be_bytes 2 (19 + sum counts) ++ (class :: counts ++ vals) ++ rest.

(** C35. A JPEG file whose first segment is a Huffman table with crowded counts
    makes the reader panic, whatever the rest of the file: the table's fast
    entries are written past their end. *)
Theorem crowded_table_panics class counts vals rest : bytes_ok counts -> zlen counts = 16 -> bytes_ok vals -> zlen vals = sum counts -> crowded counts = true ->
  jpeg_decode (dht_file class counts vals rest) = Panic.
Proof.
  intros Hc Hn Hv Hs Hcr. pose proof (sum_nonneg _ (bytes_nonneg _ Hc)) as H0. pose proof (sum_bound _ Hc) as Hmax. unfold jpeg_decode.
  assert (exists a b, be_bytes 2 (19 + sum counts) = [a; b] /\ be_val [a; b] = 19 + sum counts /\ u8 a /\ u8 b) as (a&b&Hab&Hval&Ha&Hb).
  { pose proof (be_bytes_zlen 2 (19 + sum counts)) as Hl. pose proof (be_bytes_ok 2 (19 + sum counts)) as Hok. pose proof (be_round_trip 2 (19 + sum counts) ltac:(unfold fits; lia)) as Hrt.
    destruct (be_bytes 2 (19 + sum counts)) as [|a [|b [|e l]]]; try (rewrite ?zlen_cons in Hl; pose proof (zlen_nonneg (@nil Z)); change (zlen (@nil Z)) with 0 in Hl; lia); [|rewrite !zlen_cons in Hl; pose proof (zlen_nonneg l); lia].
    apply Forall_cons in Hok as [Ha Hok]. apply Forall_cons in Hok as [Hb _]. by exists a, b. }
  assert (segment (dht_file class counts vals rest) 2 false = Ok (Some (0xC4, class :: counts ++ vals, 4 + (19 + sum counts)))) as Hseg.
  { unfold segment, dht_file. rewrite Hab. set (tail := (class :: counts ++ vals) ++ rest).
    assert (skip_fill (length ([0xFF; 0xD8; 0xFF; 0xC4] ++ [a; b] ++ tail)) ([0xFF; 0xD8; 0xFF; 0xC4] ++ [a; b] ++ tail) 2 = 2) as -> by reflexivity.
    assert (zslice ([0xFF; 0xD8; 0xFF; 0xC4] ++ [a; b] ++ tail) 2 (2 + 4) = Some [0xFF; 0xC4; a; b]) as -> by exact (zslice_app [0xFF; 0xD8] [0xFF; 0xC4; a; b] tail).
    cbn [Z.eqb negb Pos.eqb]. assert (Z.lor (Z.shiftl a 8) b = 19 + sum counts) as ->.
    { rewrite <- Hval, lor_shiftl_add by (unfold u8, fits in *; lia). change [a; b] with ([a] ++ [b]). rewrite be_val_snoc. change (be_val [a]) with (a + 256 * 0). lia. }
    pose proof (zslice_app [0xFF; 0xD8; 0xFF; 0xC4; a; b] (class :: counts ++ vals) rest) as Hz. change (zlen [0xFF; 0xD8; 0xFF; 0xC4; a; b]) with 6 in Hz. rewrite zlen_cons, zlen_app, Hn, Hs in Hz.
    replace (2 + 2 + (19 + sum counts)) with (6 + (1 + (16 + sum counts))) by lia. change (2 + 4) with 6. unfold tail. change ([0xFF; 0xD8; 0xFF; 0xC4] ++ [a; b] ++ (class :: counts ++ vals) ++ rest) with ([0xFF; 0xD8; 0xFF; 0xC4; a; b] ++ (class :: counts ++ vals) ++ rest).
    rewrite Hz. cbn [ok_or mbind outcome_bind]. do 3 f_equal. lia. }
  cbn [segments comps blank_decoder]. rewrite Hseg. cbn [mbind outcome_bind]. unfold d_segment. change (one_of [0xC0; 0xC1] 0xC4) with false. change (0xC4 =? 0xC4) with true. cbn iota.
  set (seg := class :: counts ++ vals). assert (zlen seg = 17 + sum counts) as Hsl by (unfold seg; rewrite zlen_cons, zlen_app; lia). cbn [huffman]. destruct (Z.ltb_spec (zlen seg) 17); [lia|].
  change (zget seg 0) with (Some class). cbn [or_panic mbind outcome_bind]. pose proof (zslice_app [class] counts vals) as Hz. change (zlen [class]) with 1 in Hz. rewrite Hn in Hz. change ([class] ++ counts ++ vals) with seg in Hz.
  change (1 + 16) with 17 in Hz. rewrite Hz. cbn [or_panic mbind outcome_bind]. pose proof (zslice_app (class :: counts) vals []) as Hz2. rewrite zlen_cons, Hn, Hs, app_nil_r in Hz2. change (1 + 16) with 17 in Hz2. change ((class :: counts) ++ vals) with seg in Hz2.
  rewrite Hz2. cbn [ok_or mbind outcome_bind]. by rewrite crowded_table.
Qed.
Lemma crowded_witness : jpeg_decode (dht_file 0 (3 :: zrep 15 0) [1; 2; 3] []) = Panic.
Proof. apply (crowded_table_panics 0 (3 :: zrep 15 0) [1; 2; 3] []); [|reflexivity| |reflexivity|vm_compute; reflexivity]; repeat (apply Forall_cons_2; [unfold u8, fits; lia|]); apply Forall_nil_2. Defined.
