(* ===== verification/Picture.v ===== *)
(** * Images ([media/mod.rs])

    An image file decoded by what it starts with, and a JPEG's pixels turned as
    its EXIF orientation says. *)
From S2P Require Import Prelude Bytes Inflate Png PngFile Jpeg JpegTables JpegFile.

(** ** Turning *)
Definition source (turn w h x y : Z) : Z * Z :=
  if turn =? 2 then (w - 1 - x, y)
  else if turn =? 3 then (w - 1 - x, h - 1 - y)
  else if turn =? 4 then (x, h - 1 - y)
  else if turn =? 5 then (y, x)
  else if turn =? 6 then (y, h - 1 - x)
  else if turn =? 7 then (w - 1 - y, h - 1 - x)
  else (w - 1 - y, x).
(** The loop of [oriented]: each place of the turned image takes its three
    bytes from [old]. *)
Fixpoint turn_pixels (o w h ow : Z) (ps : list (Z * Z)) (old new : list Z) : result (list Z) :=
  match ps with
  | [] => Ok new
  | (x, y) :: ps =>
      let '(sx, sy) := source o w h x y in
      p ← or_panic (zslice old ((sy * w + sx) * 3) ((sy * w + sx) * 3 + 3));
      new ← write_at new ((y * ow + x) * 3) p;
      turn_pixels o w h ow ps old new
  end.
Definition oriented (i : Image) (o : Z) : result Image :=
  if negb ((2 <=? o) && (o <=? 8)) then Ok i
  else
    let w := i_width i in let h := i_height i in
    let '(ow, oh) := if 5 <=? o then (h, w) else (w, h) in
    new ← turn_pixels o w h ow (places ow oh) (rgb i) (zrep (w * h * 3) 0);
    Ok (mkImage ow oh new).

Definition PNG_START : list Z := [0x89; 80; 78; 71; 13; 10; 0x1A; 10].
Definition media_decode (bytes : list Z) : result Image :=
  if starts_with bytes PNG_START then png_decode bytes
  else if starts_with bytes [0xFF; 0xD8] then '(image, o) ← jpeg_decode bytes; oriented image o
  else Err (refuse "an image that is neither PNG nor JPEG").

(** ** Lists in groups of three *)
Definition pixel_at (i : Image) (x y : Z) : option (list Z) := zslice (rgb i) ((y * i_width i + x) * 3) ((y * i_width i + x) * 3 + 3).
Definition whole (i : Image) : Prop := 0 <= i_width i /\ 0 <= i_height i /\ zlen (rgb i) = 3 * (i_width i * i_height i).

Lemma zslice_at {A} (l : list A) a b s k : zslice l a b = Some s -> 0 <= k < b - a -> zget s k = zget l (a + k).
Proof.
  intros (Ha&Hb&->)%zslice_Some Hk. unfold zget, ztake, zdrop. destruct (Z.ltb_spec k 0); [lia|]. destruct (Z.ltb_spec (a + k) 0); [lia|].
  rewrite lookup_take_lt by lia. rewrite lookup_drop. f_equal. lia.
Qed.
Lemma zget_ext {A} (l k : list A) : zlen l = zlen k -> (forall i, 0 <= i < zlen l -> zget l i = zget k i) -> l = k.
Proof.
  intros Hl Hi. apply list_eq. intros n. destruct (Nat.lt_ge_cases n (length l)) as [Hn|Hn].
  - specialize (Hi (Z.of_nat n) ltac:(unfold zlen; lia)). unfold zget in Hi. destruct (Z.ltb_spec (Z.of_nat n) 0); [lia|]. by rewrite Nat2Z.id in Hi.
  - rewrite !lookup_ge_None_2; [done| |done]. unfold zlen in Hl. lia.
Qed.
(** Two images of a size whose pixels are the same are the same. *)
Lemma pixels_ext i j : whole i -> whole j -> i_width i = i_width j -> i_height i = i_height j ->
  (forall x y, 0 <= x < i_width i -> 0 <= y < i_height i -> pixel_at i x y = pixel_at j x y) -> i = j.
Proof.
  intros (Hw&Hh&Hi) (_&_&Hj) Ew Eh Hp. destruct i as [w h l], j as [w' h' l']. cbn in *. subst w' h'. f_equal. apply zget_ext; [lia|]. intros n Hn. rewrite Hi in Hn.
  pose proof (Z.div_mod n 3 ltac:(lia)). pose proof (Z.mod_pos_bound n 3 ltac:(lia)). set (q := n / 3) in *. assert (0 <= q < w * h) by lia.
  destruct (div_mod_in q w h ltac:(lia) Hw) as [Hx Hy]. assert (0 < w) by lia. pose proof (Z.div_mod q w ltac:(lia)).
  specialize (Hp (q mod w) (q / w) Hx Hy). unfold pixel_at in Hp. cbn [rgb i_width] in Hp. replace ((q / w * w + q mod w) * 3) with (q * 3) in Hp by lia.
  destruct (zslice l (q * 3) (q * 3 + 3)) as [s|] eqn:Hs; [|apply zslice_None in Hs; lia]. symmetry in Hp.
  rewrite (ltac:(lia) : n = q * 3 + n mod 3). rewrite <- (zslice_at _ _ _ _ (n mod 3) Hs) by lia. by rewrite <- (zslice_at _ _ _ _ (n mod 3) Hp) by lia.
Qed.
Lemma write_at_get l at_ x l' : write_at l at_ x = Ok l' -> zlen l' = zlen l /\ zslice l' at_ (at_ + zlen x) = Some x /\
  forall a b, b <= at_ \/ at_ + zlen x <= a -> zslice l' a b = zslice l a b.
Proof.
  unfold write_at. destruct (Z.leb_spec 0 at_); [|done]. destruct (Z.leb_spec (at_ + zlen x) (zlen l)) as [Hl|]; [|done]. cbn [andb]. intros [= <-]. pose proof (zlen_nonneg x).
  assert (zlen (ztake at_ l) = at_) as Ht by (rewrite zlen_ztake by lia; lia). assert (zlen (zdrop (at_ + zlen x) l) = zlen l - (at_ + zlen x)) as Hd by (rewrite zlen_zdrop by lia; lia).
  set (l' := ztake at_ l ++ x ++ zdrop (at_ + zlen x) l). assert (zlen l' = zlen l) as Hlen by (unfold l'; rewrite !zlen_app; lia).
  split; [done|]. split; [rewrite <- Ht at 1 2; apply zslice_app|]. intros a b Hab.
  assert (forall k, 0 <= k < zlen l -> (k < at_ \/ at_ + zlen x <= k) -> zget l' k = zget l k) as Hget.
  { intros k Hk Hout. unfold zget, l'. destruct (Z.ltb_spec k 0); [lia|]. unfold zlen in *. destruct Hout as [Hlt|Hge].
    - rewrite lookup_app_l by lia. unfold ztake. by rewrite lookup_take_lt by lia.
    - rewrite lookup_app_r by lia. rewrite lookup_app_r by lia. unfold zdrop. rewrite lookup_drop. f_equal. lia. }
  destruct (zslice l a b) as [s|] eqn:Hs.
  - pose proof (proj1 (zslice_Some _ _ _ _) Hs) as (Ha&Hb&_). destruct (zslice l' a b) as [s'|] eqn:Hs'; [|apply zslice_None in Hs'; lia].
    f_equal. pose proof (zslice_len _ _ _ _ Hs). pose proof (zslice_len _ _ _ _ Hs'). apply zget_ext; [lia|]. intros k Hk.
    rewrite (zslice_at _ _ _ _ k Hs') by lia. rewrite (zslice_at _ _ _ _ k Hs) by lia. apply Hget; lia.
  - destruct (zslice l' a b) as [s'|] eqn:Hs'; [|done]. apply zslice_Some in Hs' as (?&?&_). apply zslice_None in Hs; lia.
Qed.

(** ** Turned images *)
Definition turned_size (o w h : Z) : Z * Z := if 5 <=? o then (h, w) else (w, h).
(** The orientation that undoes [o]. *)
Definition undo (o : Z) : Z := if o =? 6 then 8 else if o =? 8 then 6 else o.
Lemma source_in o w h x y : 2 <= o <= 8 -> 0 <= x < fst (turned_size o w h) -> 0 <= y < snd (turned_size o w h) ->
  0 <= fst (source o w h x y) < w /\ 0 <= snd (source o w h x y) < h.
Proof.
  intros Ho. unfold turned_size, source. destruct (Z.leb_spec 5 o); cbn [fst snd];
    destruct (Z.eqb_spec o 2), (Z.eqb_spec o 3), (Z.eqb_spec o 4), (Z.eqb_spec o 5), (Z.eqb_spec o 6), (Z.eqb_spec o 7); cbn [fst snd]; lia.
Qed.
(** Going to the source and then by the undoing orientation comes back. *)
Lemma source_undo o w h x y : 2 <= o <= 8 -> let '(ow, oh) := turned_size o w h in let '(sx, sy) := source (undo o) ow oh x y in source o w h sx sy = (x, y).
Proof.
  intros Ho. assert (o = 2 \/ o = 3 \/ o = 4 \/ o = 5 \/ o = 6 \/ o = 7 \/ o = 8) as [->|[->|[->|[->|[->|[->| ->]]]]]] by lia; cbn; f_equal; lia.
Qed.
Lemma turn_pixels_spec o w h oh ps old new ow : 2 <= o <= 8 -> turned_size o w h = (ow, oh) -> 0 <= w -> 0 <= h -> zlen old = 3 * (w * h) -> zlen new = 3 * (w * h) ->
  Forall (fun p => 0 <= fst p < ow /\ 0 <= snd p < oh) ps ->
  exists new', turn_pixels o w h ow ps old new = Ok new' /\ zlen new' = zlen new /\ forall x y, 0 <= x < ow -> 0 <= y < oh ->
    zslice new' ((y * ow + x) * 3) ((y * ow + x) * 3 + 3) =
      if bool_decide ((x, y) ∈ ps) then let '(sx, sy) := source o w h x y in zslice old ((sy * w + sx) * 3) ((sy * w + sx) * 3 + 3)
      else zslice new ((y * ow + x) * 3) ((y * ow + x) * 3 + 3).
Proof.
  intros Ho Hsz Hw Hh Hold Hnew Hps. assert (ow * oh = w * h) as Harea by (unfold turned_size in Hsz; destruct (5 <=? o); injection Hsz as <- <-; lia).
  revert new Hnew. induction Hps as [|[px py] ps [Hpx Hpy] Hps IH]; intros new Hnew; [exists new; done|]. cbn [fst snd] in *. cbn [turn_pixels].
  pose proof (source_in o w h px py Ho) as Hs. rewrite Hsz in Hs. specialize (Hs Hpx Hpy). destruct (source o w h px py) as [sx sy] eqn:Hsrc. cbn [fst snd] in Hs.
  destruct (zslice old ((sy * w + sx) * 3) ((sy * w + sx) * 3 + 3)) as [p|] eqn:Hp; [|apply zslice_None in Hp; nia]. cbn [or_panic mbind outcome_bind]. pose proof (zslice_len _ _ _ _ Hp) as Hp3.
  assert (zlen p = 3) as Hl3 by lia. destruct (write_at new ((py * ow + px) * 3) p) as [new1| |] eqn:Hwr; [|by apply write_at_no_error in Hwr|].
  2: { exfalso. unfold write_at in Hwr. rewrite Hl3, Hnew in Hwr. destruct (Z.leb_spec 0 ((py * ow + px) * 3)); [|nia]. destruct (Z.leb_spec ((py * ow + px) * 3 + 3) (3 * (w * h))); [done|nia]. }
  cbn [mbind outcome_bind]. destruct (write_at_get _ _ _ _ Hwr) as (Hl1&Hat&Hout). rewrite Hl3 in *. destruct (IH new1 ltac:(lia)) as (new'&->&Hl'&Hget). exists new'. split; [done|]. split; [lia|].
  intros x y Hx Hy. rewrite (Hget x y Hx Hy). destruct (bool_decide_reflect ((x, y) ∈ ps)) as [Hin|Hin]; [rewrite bool_decide_true by (apply elem_of_cons; by right); done|].
  destruct (decide ((x, y) = (px, py))) as [[= -> ->]|Hne]; [rewrite bool_decide_true by (apply elem_of_cons; by left); by rewrite Hat, Hsrc, Hp|].
  rewrite bool_decide_false by (intros [?|?]%elem_of_cons; done). apply Hout. assert (y * ow + x <> py * ow + px); [|lia]. intros Heq. apply Hne. assert (y = py) as -> by nia. f_equal. lia.
Qed.
Lemma in_places w h x y : (x, y) ∈ places w h <-> 0 <= x < w /\ 0 <= y < h.
Proof.
  unfold places. rewrite list_elem_of_In, in_concat. split.
  - intros (l&(y'&<-&Hy)%in_map_iff&(x'&[= <- <-]&Hx)%in_map_iff). apply list_elem_of_In, elem_of_seqZ in Hx, Hy. lia.
  - intros [Hx Hy]. eexists. split; [apply in_map_iff; exists y; split; [done|apply list_elem_of_In, elem_of_seqZ; lia]|]. apply in_map_iff. exists x. split; [done|apply list_elem_of_In, elem_of_seqZ; lia].
Qed.
Lemma oriented_spec i o : whole i -> 2 <= o <= 8 -> exists j, oriented i o = Ok j /\ whole j /\ (i_width j, i_height j) = turned_size o (i_width i) (i_height i) /\
  forall x y, 0 <= x < i_width j -> 0 <= y < i_height j -> pixel_at j x y = let '(sx, sy) := source o (i_width i) (i_height i) x y in pixel_at i sx sy.
Proof.
  intros (Hw&Hh&Hl) Ho. unfold oriented. destruct (Z.leb_spec 2 o); [|lia]. destruct (Z.leb_spec o 8); [|lia]. cbn [andb negb]. cbv zeta. fold (turned_size o (i_width i) (i_height i)).
  destruct (turned_size o (i_width i) (i_height i)) as [ow oh] eqn:Hsz. assert (0 <= ow /\ 0 <= oh /\ ow * oh = i_width i * i_height i) as (How&Hoh&Harea) by (unfold turned_size in Hsz; destruct (5 <=? o); injection Hsz as <- <-; lia).
  destruct (turn_pixels_spec o (i_width i) (i_height i) oh (places ow oh) (rgb i) (zrep (i_width i * i_height i * 3) 0) ow) as (new&->&Hnl&Hget); try done; [rewrite zlen_zrep by nia; lia|by apply places_ok|].
  cbn [mbind outcome_bind]. eexists. split; [done|]. rewrite zlen_zrep in Hnl by nia. split; [unfold whole; cbn; lia|]. split; [done|]. cbn [i_width i_height]. intros x y Hx Hy. unfold pixel_at at 1. cbn [rgb i_width].
  rewrite (Hget x y Hx Hy). rewrite bool_decide_true by (by apply in_places). by destruct (source o (i_width i) (i_height i) x y).
Qed.

(** Turning an image as an EXIF orientation says gives an image of the
    turned size whose every pixel is the one the orientation names, and the
    undoing orientation gives the image back; an orientation that says nothing
    leaves it as it is. *)
Theorem turned_image_turns_back i o : whole i ->
  exists j, oriented i o = Ok j /\ oriented j (undo o) = Ok i /\ whole j /\
    (2 <= o <= 8 -> (i_width j, i_height j) = turned_size o (i_width i) (i_height i) /\
       forall x y, 0 <= x < i_width j -> 0 <= y < i_height j -> pixel_at j x y = let '(sx, sy) := source o (i_width i) (i_height i) x y in pixel_at i sx sy).
Proof.
  intros Hi. destruct (decide (2 <= o <= 8)) as [Ho|Ho].
  - destruct (oriented_spec i o Hi Ho) as (j&Hj&Hwj&Hsz&Hp). exists j. split; [done|]. assert (2 <= undo o <= 8) as Hu by (unfold undo; destruct (Z.eqb_spec o 6), (Z.eqb_spec o 8); lia).
    destruct (oriented_spec j (undo o) Hwj Hu) as (k&Hk&Hwk&Hsz2&Hp2). assert ((i_width k, i_height k) = (i_width i, i_height i)) as Hback.
    { rewrite Hsz2. unfold turned_size in *. assert ((5 <=? undo o) = (5 <=? o)) as -> by (unfold undo; destruct (Z.eqb_spec o 6) as [->|]; [done|]; by destruct (Z.eqb_spec o 8) as [->|]). destruct (5 <=? o); injection Hsz as -> ->; done. }
    injection Hback as Hkw Hkh. assert (k = i) as ->; [|by split_and!].
    apply pixels_ext; [done|done|done|done|]. intros x y Hx Hy. rewrite (Hp2 x y Hx Hy). pose proof (source_undo o (i_width i) (i_height i) x y Ho) as Hs. rewrite <- Hsz in Hs.
    pose proof (source_in (undo o) (i_width j) (i_height j) x y Hu) as Hin. rewrite <- Hsz2 in Hin. specialize (Hin Hx Hy). destruct (source (undo o) (i_width j) (i_height j) x y) as [sx sy]. cbn [fst snd] in Hin.
    rewrite (Hp sx sy) by lia. by rewrite Hs.
  - exists i. assert (undo o = o) as -> by (unfold undo; destruct (Z.eqb_spec o 6), (Z.eqb_spec o 8); lia). assert (oriented i o = Ok i) as ->; [|done].
    unfold oriented. destruct (Z.leb_spec 2 o), (Z.leb_spec o 8); try done. lia.
Qed.
(** Six pixels, three across, turned a quarter. *)
Lemma turned_image_witness : exists j, oriented (mkImage 3 2 (seqZ 0 18)) 6 = Ok j /\ oriented j 8 = Ok (mkImage 3 2 (seqZ 0 18)) /\ i_width j = 2 /\ i_height j = 3
  /\ pixel_at j 0 0 = Some [9; 10; 11].
Proof.
  destruct (turned_image_turns_back (mkImage 3 2 (seqZ 0 18)) 6) as (j&Hj&Hback&_&Hp); [split; [cbn; lia|]; split; [cbn; lia|reflexivity]|]. exists j. destruct (Hp ltac:(lia)) as [[= Hw Hh] Hpx].
  split; [exact Hj|]. split; [exact Hback|]. split; [exact Hw|]. split; [exact Hh|]. rewrite Hpx by lia. reflexivity.
Defined.

Lemma oriented_ok i o : image_ok i -> 1 <= o <= 8 -> exists j, oriented i o = Ok j /\ image_ok j.
Proof.
  intros (Hd&Hm&Hl&Hb) Ho. destruct (decide (2 <= o)) as [H2|H2]; [|exists i; split; [unfold oriented; destruct (Z.leb_spec 2 o); [lia|done]|done]].
  destruct (oriented_spec i o) as (j&Hj&(Hwj&Hhj&Hlj)&Hsz&Hp); [unfold whole; lia|lia|]. exists j. split; [done|].
  assert (i_width j * i_height j = i_width i * i_height i /\ (0 < i_width j /\ 0 < i_height j \/ i_width j = 0 /\ i_height j = 0)) as [Ha Hdj] by (unfold turned_size in Hsz; destruct (5 <=? o); injection Hsz as -> ->; lia).
  split; [done|]. split; [lia|]. split; [done|]. apply Forall_forall. intros v Hv. apply list_elem_of_lookup in Hv as (n&Hn). assert (n < length (rgb j))%nat as Hlt by (by eapply lookup_lt_Some).
  unfold zlen in Hlj. set (q := Z.of_nat n / 3). pose proof (Z.div_mod (Z.of_nat n) 3 ltac:(lia)). pose proof (Z.mod_pos_bound (Z.of_nat n) 3 ltac:(lia)). fold q in H.
  destruct (div_mod_in q (i_width j) (i_height j)) as [Hx Hy]; [lia|lia|]. pose proof (Z.div_mod q (i_width j) ltac:(lia)). specialize (Hp _ _ Hx Hy).
  pose proof (source_in o (i_width i) (i_height i) (q mod i_width j) (q / i_width j) ltac:(lia)) as Hin. rewrite <- Hsz in Hin. specialize (Hin Hx Hy).
  destruct (source o (i_width i) (i_height i) (q mod i_width j) (q / i_width j)) as [sx sy]. cbn [fst snd] in Hin. unfold pixel_at in Hp. replace ((q / i_width j * i_width j + q mod i_width j) * 3) with (q * 3) in Hp by lia.
  destruct (zslice (rgb i) ((sy * i_width i + sx) * 3) ((sy * i_width i + sx) * 3 + 3)) as [s|] eqn:Hs; [|apply zslice_None in Hs; unfold zlen; nia].
  apply (slice_ok _ _ _ _ Hb) in Hs. apply (get_ok s (Z.of_nat n mod 3)); [done|]. rewrite (zslice_at _ _ _ _ (Z.of_nat n mod 3) Hp) by lia.
  unfold zget. destruct (Z.ltb_spec (q * 3 + Z.of_nat n mod 3) 0); [lia|]. rewrite <- Hn. f_equal. lia.
Qed.
(** C34. Whatever bytes it is given, [decode] returns: it refuses them, or gives
    an image of at most 2^26 pixels with three bytes for each pixel. It panics
    only over a JPEG one of whose DHT segments has crowded counts. *)
Theorem image_is_read_or_refused bytes : bytes_ok bytes ->
  match media_decode bytes with
  | Ok i => image_ok i
  | Err _ => True
  | Panic => starts_with bytes [0xFF; 0xD8] = true /\ crowded_file bytes
  end.
Proof.
  intros Hb. unfold media_decode. destruct (starts_with bytes PNG_START).
  - pose proof (png_cases bytes Hb) as Hp. destruct (png_decode bytes) as [i| |]; [|done|done]. destruct Hp as (?&?&?&?&?). split; [by left|]. split; [done|]. split; [lia|done].
  - destruct (starts_with bytes [0xFF; 0xD8]) eqn:Hs; [|done]. pose proof (jpeg_cases bytes Hb) as Hj. destruct (jpeg_decode bytes) as [[i o]| |]; [|done|by split].
    cbn [guarded] in Hj. destruct Hj as [Hi Ho]. destruct (oriented_ok i o Hi Ho) as (j&Hj&Hok). cbn [mbind outcome_bind]. by rewrite Hj.
Qed.
Lemma any_image_witness : media_decode sample_jpeg = Ok (mkImage 8 8 (zrep 192 133)) /\ image_ok (mkImage 8 8 (zrep 192 133)).
Proof. pose proof (image_is_read_or_refused sample_jpeg sample_jpeg_ok) as H. assert (media_decode sample_jpeg = Ok (mkImage 8 8 (zrep 192 133))) as E by (vm_compute; reflexivity). rewrite E in H. split; [exact E|exact H]. Defined.
