(* ===== verification/JpegCodes.v ===== *)
(** * The Huffman codes of a JPEG file ([media/jpeg.rs])

    The 9-bit table and the largest code of each length read the canonical
    codes of ITU-T T.81: the codes of a length are consecutive, each length
    starts at twice where the one before it ended. *)
From S2P Require Import Prelude Bytes Inflate Png PngFile Jpeg JpegTables.

(** ** The canonical codes *)

(** The first code of length [l], and the index of its value. *)
Definition first_code (counts : list Z) (l : Z) : Z := 2 * codes (ztake (l - 1) counts).
Definition first_index (counts : list Z) (l : Z) : Z := sum (ztake (l - 1) counts).
(** The [j]-th code of length [l] is [c] and stands for [v]. *)
Definition canonical (counts vals : list Z) (l c v : Z) : Prop :=
  exists n j, 1 <= l <= 16 /\ zget counts (l - 1) = Some n /\ 0 <= j < n /\ c = first_code counts l + j /\ zget vals (first_index counts l + j) = Some v.
(** No length has more codes than there are. *)
Definition fair (counts : list Z) : Prop := forall l, 1 <= l <= 16 -> codes (ztake l counts) <= 2 ^ l.

(** ** The fast entries *)
Definition entry_of (v l : Z) : Z := Z.lor (Z.shiftl v 8) l.
Definition padded (d : list Z) : list Z := d ++ zrep (512 - zlen d) 0.
Lemma write_padded d w e : 0 <= w -> zlen d + w <= 512 -> write_at (padded d) (zlen d) (zrep w e) = Ok (padded (d ++ zrep w e)).
Proof.
  intros Hw Hd. pose proof (zlen_nonneg d). unfold write_at, padded. rewrite zlen_app, !zlen_zrep by lia. destruct (Z.leb_spec 0 (zlen d)); [|lia]. destruct (Z.leb_spec (zlen d + w) (zlen d + (512 - zlen d))); [|lia].
  cbn [andb]. f_equal. rewrite ztake_app by done. rewrite <- app_assoc. do 2 f_equal. unfold zdrop, zrep. rewrite drop_app_ge by (unfold zlen in *; lia). rewrite drop_replicate. f_equal.
  unfold zlen in *. rewrite ?length_app, ?length_replicate in *. lia.
Qed.
Lemma zget_app_l {A} (d e : list A) i x : zget d i = Some x -> zget (d ++ e) i = Some x.
Proof. unfold zget. destruct (i <? 0); [done|]. apply lookup_app_l_Some. Qed.
Lemma zget_padded_past d i : zlen d <= i < 512 -> zget (padded d) i = Some 0.
Proof.
  intros Hi. pose proof (zlen_nonneg d). unfold zget, padded. destruct (Z.ltb_spec i 0); [lia|]. rewrite lookup_app_r by (unfold zlen in *; lia). apply lookup_replicate_2. unfold zlen in *. lia.
Qed.
Lemma zget_zrep_app {A} (d : list A) w e i : zlen d <= i < zlen d + w -> zget (d ++ zrep w e) i = Some e.
Proof.
  intros Hi. pose proof (zlen_nonneg d). unfold zget. destruct (Z.ltb_spec i 0); [lia|]. rewrite lookup_app_r by (unfold zlen in *; lia). apply lookup_replicate_2. unfold zlen in *. lia.
Qed.
(** The codes of one short length fill the table on from where it was. *)
Lemma table_codes_fill n l vals d code k : 1 <= l <= 9 -> 0 <= k -> k + Z.of_nat n <= zlen vals -> zlen d = code * 2 ^ (9 - l) -> 0 <= code -> code + Z.of_nat n <= 2 ^ l ->
  exists d', table_codes n l vals (padded d) code k = Ok (padded d', code + Z.of_nat n, k + Z.of_nat n) /\ zlen d' = (code + Z.of_nat n) * 2 ^ (9 - l)
    /\ (forall i x, zget d i = Some x -> zget d' i = Some x)
    /\ forall j v i, 0 <= j < Z.of_nat n -> zget vals (k + j) = Some v -> i / 2 ^ (9 - l) = code + j -> zget d' i = Some (entry_of v l).
Proof.
  intros Hl. assert (2 ^ l * 2 ^ (9 - l) = 512) as H512 by (rewrite <- Z.pow_add_r by lia; by replace (l + (9 - l)) with 9 by lia). assert (0 < 2 ^ (9 - l)) as Hw by lia. set (w := 2 ^ (9 - l)) in *.
  revert d code k. induction n as [|n IH]; intros d code k Hk Hkn Hd Hc Hfit.
  - exists d. cbn [table_codes]. split; [repeat f_equal; lia|]. split; [lia|]. split; [done|]. intros j v i Hj. lia.
  - cbn [table_codes]. destruct (Z.leb_spec l 9); [|lia]. destruct (Z.ltb_spec k (zlen vals)); [|lia]. cbn [andb]. destruct (zget_is_Some vals k ltac:(lia)) as [v0 Hv0]. rewrite Hv0. cbn [or_panic mbind outcome_bind].
    rewrite !Z.shiftl_mul_pow2 by lia. rewrite Z.mul_1_l. fold w. rewrite <- (Z.shiftl_mul_pow2 v0) by lia. fold (entry_of v0 l). rewrite <- Hd, write_padded by (rewrite ?Hd; nia). cbn [mbind outcome_bind].
    destruct (IH (d ++ zrep w (entry_of v0 l)) (code + 1) (k + 1)) as (d'&->&Hd'&Hpre&Hnew); [lia|lia|rewrite zlen_app, zlen_zrep by lia; lia|lia|lia|].
    exists d'. replace (code + Z.of_nat (S n)) with (code + 1 + Z.of_nat n) by lia. replace (k + Z.of_nat (S n)) with (k + 1 + Z.of_nat n) by lia. split; [done|]. split; [done|]. split; [intros i x Hx; by apply Hpre, zget_app_l|].
    intros j v i Hj Hv Hi. destruct (Z.eq_dec j 0) as [->|Hj0].
    + rewrite Z.add_0_r, Hv0 in Hv. injection Hv as <-. apply Hpre, zget_zrep_app. rewrite Z.add_0_r in Hi. pose proof (Z.div_mod i w ltac:(lia)). pose proof (Z.mod_pos_bound i w Hw). nia.
    + apply (Hnew (j - 1) v); [lia|by replace (k + 1 + (j - 1)) with (k + j) by lia|lia].
Qed.
Lemma table_codes_long n l vals f code k : 9 < l -> table_codes n l vals f code k = Ok (f, code + Z.of_nat n, k + Z.of_nat n).
Proof.
  intros Hl. revert code k. induction n as [|n IH]; intros code k; cbn [table_codes]; [repeat f_equal; lia|]. destruct (Z.leb_spec l 9); [lia|]. cbn [andb mbind outcome_bind]. rewrite IH. replace (code + 1 + Z.of_nat n) with (code + Z.of_nat (S n)) by lia. by replace (k + 1 + Z.of_nat n) with (k + Z.of_nat (S n)) by lia.
Qed.

(** ** The table after [m] lengths *)
Record filled (counts vals : list Z) (m : Z) (t : Table) : Prop := {
  fill : exists d, fast t = padded d /\ zlen d = codes (ztake (Z.min m 9) counts) * 2 ^ (9 - Z.min m 9)
    /\ forall l c v i, l <= Z.min m 9 -> canonical counts vals l c v -> i / 2 ^ (9 - l) = c -> zget d i = Some (entry_of v l);
  maxes : zlen (maxcode t) = 17 /\ forall l n, 1 <= l <= 16 -> zget counts (l - 1) = Some n -> zget (maxcode t) l = Some (if (l <=? m) && (0 <? n) then first_code counts l + n - 1 else -1);
  offs : zlen (offset t) = 17 /\ forall l, 1 <= l <= m -> zget (offset t) l = Some (first_index counts l - first_code counts l);
  vals_kept : values t = vals
}.
Lemma zget_insert {A} (l : list A) i k x : 0 <= i < zlen l -> zget (<[Z.to_nat i := x]> l) k = if k =? i then Some x else zget l k.
Proof.
  intros Hi. unfold zget. unfold zlen in Hi. destruct (Z.eqb_spec k i) as [->|Hne].
  - destruct (Z.ltb_spec i 0); [lia|]. apply list_lookup_insert_eq. lia.
  - destruct (Z.ltb_spec k 0); [done|]. apply list_lookup_insert_ne. lia.
Qed.
Lemma set_at_Ok {A} (l : list A) i x : 0 <= i < zlen l -> set_at l i x = Ok (<[Z.to_nat i := x]> l).
Proof. intros Hi. unfold set_at. destruct (Z.leb_spec 0 i); [|lia]. by destruct (Z.ltb_spec i (zlen l)); [|lia]. Qed.

Section Lengths.
Context (counts vals : list Z) (Hb : bytes_ok counts) (Hn : zlen counts = 16) (Hv : zlen vals = sum counts) (Hfair : fair counts).

Lemma codes_nonneg l : 0 <= codes (ztake l counts).
Proof.
  unfold codes. assert (forall k a, 0 <= a -> Forall (Z.le 0) k -> 0 <= fold_left (fun code n => 2 * code + n) k a) as H; [|apply H; [lia|]; apply Forall_take, (Forall_impl _ _ _ Hb); unfold u8, fits; lia].
  induction k as [|x k IH]; intros a Ha Hk; [done|]. apply Forall_cons in Hk as [Hx Hk]. cbn. apply IH; [lia|done].
Qed.
(** One more length. *)
Lemma table_lengths_fill m ls t : 0 <= m -> ls = seqZ (m + 1) (16 - m) -> m <= 16 -> filled counts vals m t ->
  exists t', table_lengths ls counts vals t (first_code counts (m + 1)) (first_index counts (m + 1)) = Ok t' /\ filled counts vals 16 t'.
Proof.
  remember (Z.to_nat (16 - m)) as fuel eqn:Hfuel. revert m ls t Hfuel. induction fuel as [|fuel IH]; intros m ls t Hfuel Hm -> Hle [[d (Hf&Hd&Hget)] [Hmax Hmaxes] [Hoff Hoffs] Hvals].
  { assert (m = 16) as -> by lia. exists t. split; [done|]. split; [by exists d|done|done|done]. }
  rewrite (seqZ_cons (m + 1)) by lia. replace (Z.succ (m + 1)) with (m + 1 + 1) by lia. replace (Z.pred (16 - m)) with (16 - (m + 1)) by lia. cbn [table_lengths].
  rewrite set_at_Ok by lia. cbn [mbind outcome_bind]. replace (m + 1 - 1) with m by lia. destruct (zget_is_Some counts m ltac:(lia)) as [n Hgn]. rewrite Hgn. cbn [or_panic mbind outcome_bind].
  pose proof (get_ok _ _ _ Hb Hgn) as Hn8. unfold u8, fits in Hn8. pose proof (codes_snoc _ _ _ Hgn) as Hcs. pose proof (sum_snoc _ _ _ Hgn) as Hss.
  assert (first_code counts (m + 1) = 2 * codes (ztake m counts)) as Hfc by (unfold first_code; by replace (m + 1 - 1) with m by lia).
  assert (first_index counts (m + 1) = sum (ztake m counts)) as Hfi by (unfold first_index; by replace (m + 1 - 1) with m by lia).
  assert (Forall (Z.le 0) counts) as Hpos by (apply (Forall_impl _ _ _ Hb); unfold u8, fits; lia). pose proof (sum_take counts (m + 1) Hpos). pose proof (sum_nonneg (ztake m counts) (Forall_take _ _ _ Hpos)).
  pose proof (codes_nonneg m). pose proof (Hfair (m + 1) ltac:(lia)) as Hfit.
  assert (exists d', table_codes (Z.to_nat n) (m + 1) vals (fast t) (first_code counts (m + 1)) (first_index counts (m + 1)) = Ok (padded d', first_code counts (m + 1) + n, first_index counts (m + 1) + n)
    /\ zlen d' = codes (ztake (Z.min (m + 1) 9) counts) * 2 ^ (9 - Z.min (m + 1) 9)
    /\ forall l c v i, l <= Z.min (m + 1) 9 -> canonical counts vals l c v -> i / 2 ^ (9 - l) = c -> zget d' i = Some (entry_of v l)) as (d'&->&Hd'&Hget').
  { rewrite Hf. destruct (Z.le_gt_cases (m + 1) 9) as [H9|H9].
    - rewrite !Z.min_l in * by lia. destruct (table_codes_fill (Z.to_nat n) (m + 1) vals d (first_code counts (m + 1)) (first_index counts (m + 1))) as (d'&Hr&Hl&Hpre&Hnew); [lia|lia|lia| |lia|lia|].
      { rewrite Hd, Hfc. replace (9 - m) with (1 + (9 - (m + 1))) by lia. rewrite Z.pow_add_r by lia. lia. }
      rewrite Z2Nat.id in * by lia. exists d'. split; [done|]. split; [rewrite Hl; f_equal; lia|]. intros l c v i Hl9 Hcan Hi. destruct (Z.eq_dec l (m + 1)) as [->|Hne]; [|apply Hpre; apply (Hget l c v); [lia|done|done]].
      destruct Hcan as (n'&j&_&Hn'&Hj&->&Hv'). replace (m + 1 - 1) with m in Hn' by lia. rewrite Hgn in Hn'. injection Hn' as <-. by apply (Hnew j v).
    - exists d. rewrite table_codes_long by lia. rewrite !Z.min_r in * by lia. rewrite Z2Nat.id by lia. done. }
  cbn [mbind outcome_bind].
  assert (exists maxs, (if 0 <? n then set_at (maxcode t) (m + 1) (first_code counts (m + 1) + n - 1) else Ok (maxcode t)) = Ok maxs /\ zlen maxs = 17 /\
    forall l k, 1 <= l <= 16 -> zget counts (l - 1) = Some k -> zget maxs l = Some (if (l <=? m + 1) && (0 <? k) then first_code counts l + k - 1 else -1)) as (maxs&->&Hml&Hmg).
  { destruct (Z.ltb_spec 0 n) as [Hn0|Hn0]; [rewrite set_at_Ok by lia|]; eexists; (split; [done|]); (split; [rewrite ?zget_zlen_insert; done|]); intros l k Hl Hk; [rewrite zget_insert by lia|].
    - destruct (Z.eqb_spec l (m + 1)) as [->|Hne]; [|rewrite (Hmaxes l k Hl Hk); destruct (Z.leb_spec l m), (Z.leb_spec l (m + 1)); (lia || done)]. replace (m + 1 - 1) with m in Hk by lia. rewrite Hgn in Hk. injection Hk as <-.
      destruct (Z.leb_spec (m + 1) (m + 1)); [|lia]. by destruct (Z.ltb_spec 0 n); [|lia].
    - rewrite (Hmaxes l k Hl Hk). destruct (Z.eq_dec l (m + 1)) as [->|Hne]; [|destruct (Z.leb_spec l m), (Z.leb_spec l (m + 1)); (lia || done)]. replace (m + 1 - 1) with m in Hk by lia. rewrite Hgn in Hk. injection Hk as <-.
      destruct (Z.ltb_spec 0 n); [lia|]. by rewrite !Bool.andb_false_r. }
  cbn [mbind outcome_bind]. assert (Z.shiftl (first_code counts (m + 1) + n) 1 = first_code counts (m + 1 + 1)) as ->. { rewrite Z.shiftl_mul_pow2 by lia. unfold first_code at 2. replace (m + 1 + 1 - 1) with (m + 1) by lia. lia. }
  assert (first_index counts (m + 1) + n = first_index counts (m + 1 + 1)) as ->. { unfold first_index at 2. replace (m + 1 + 1 - 1) with (m + 1) by lia. lia. }
  apply (IH (m + 1)); [lia|lia|done|lia|]. split; cbn [fast maxcode offset values]; [by exists d'|by split| |done]. rewrite zget_zlen_insert. split; [done|].
  intros l Hl. rewrite zget_insert by lia. destruct (Z.eqb_spec l (m + 1)) as [->|Hne]; [done|]. apply Hoffs. lia.
Qed.
Lemma table_new_fill : exists t, table_new counts vals = Ok t /\ filled counts vals 16 t.
Proof.
  unfold table_new. change (table_lengths (seqZ 1 16) counts vals ?t 0 0) with (table_lengths (seqZ 1 16) counts vals t (first_code counts (0 + 1)) (first_index counts (0 + 1))).
  apply (table_lengths_fill 0); [lia|done|lia|]. split; cbn [fast maxcode offset values]; [|split; [done|]|split; [done|]; intros; lia|done].
  - exists []. split; [done|]. split; [done|]. intros l c v i Hl (n&j&?&_). lia.
  - intros l n Hl _. destruct (Z.leb_spec l 0); [lia|]. cbn [andb]. unfold zget. destruct (Z.ltb_spec l 0); [lia|]. apply lookup_replicate_2. lia.
Qed.
End Lengths.

(** ** Reading a code *)
Lemma entry_parts v l : u8 v -> 0 <= l < 256 -> entry_of v l = 256 * v + l /\ Z.shiftr (entry_of v l) 8 = v /\ Z.land (entry_of v l) 0xFF = l.
Proof.
  intros Hv Hl. unfold u8, fits in Hv. assert (entry_of v l = 256 * v + l) as He by (unfold entry_of; rewrite lor_shiftl_add by lia; lia). rewrite He. split; [done|].
  rewrite Z.shiftr_div_pow2 by lia. change 0xFF with (Z.ones 8). rewrite Z.land_ones by lia. change (2 ^ 8) with 256. split; [symmetry; apply (Z.div_unique _ _ _ l); lia|symmetry; apply (Z.mod_unique _ _ v); lia].
Qed.
Lemma codes_grow counts a l n : bytes_ok counts -> zlen counts = 16 -> 0 <= a < l -> l <= 16 -> zget counts (l - 1) = Some n -> codes (ztake a counts) * 2 ^ (l - a) <= first_code counts l.
Proof.
  intros Hb Hn Ha Hl _. unfold first_code. remember (Z.to_nat (l - 1 - a)) as k eqn:Hk. revert a Ha Hk. induction k as [|k IH]; intros a Ha Hk.
  - assert (a = l - 1) as -> by lia. replace (l - (l - 1)) with 1 by lia. lia.
  - specialize (IH (a + 1) ltac:(lia) ltac:(lia)). destruct (zget_is_Some counts a ltac:(lia)) as [x Hx]. rewrite (codes_snoc _ _ _ Hx) in IH. apply (get_ok _ _ _ Hb) in Hx. unfold u8, fits in Hx.
    replace (l - a) with (1 + (l - (a + 1))) by lia. rewrite Z.pow_add_r by lia. assert (0 < 2 ^ (l - (a + 1))) by lia. nia.
Qed.
Section Reads.
Context (counts vals : list Z) (Hb : bytes_ok counts) (Hn : zlen counts = 16) (t : Table) (Ht : filled counts vals 16 t).

Lemma long_code_reads s l c v code b : 1 <= s <= l -> l <= 16 -> canonical counts vals l c v -> 0 <= code -> Z.shiftr code (16 - l) = c ->
  long_code (seqZ s (17 - s)) t code b = Ok (v, skip l b).
Proof.
  intros Hs Hl Hcan Hcode Hc. remember (Z.to_nat (l - s)) as k eqn:Hk. revert s Hs Hk. induction k as [|k IH]; intros s Hs Hk; rewrite (seqZ_cons s) by lia; cbn [long_code];
    destruct Ht as [_ [_ Hmax] [_ Hoff] Hvals]; destruct (zget_is_Some counts (s - 1) ltac:(lia)) as [n Hgn]; rewrite (Hmax s n ltac:(lia) Hgn); destruct (Z.leb_spec s 16); try lia; cbn [or_panic mbind outcome_bind andb].
  - assert (s = l) as -> by lia. destruct Hcan as (n'&j&_&Hn'&Hj&Hcj&Hv). rewrite Hgn in Hn'. injection Hn' as <-. destruct (Z.ltb_spec 0 n); [|lia]. rewrite Hc. destruct (Z.leb_spec c (first_code counts l + n - 1)); [|lia].
    rewrite (Hoff l) by lia. cbn [or_panic mbind outcome_bind]. rewrite Hvals. replace (c + (first_index counts l - first_code counts l)) with (first_index counts l + j) by lia. by rewrite Hv.
  - pose proof Hcan as (n'&j&_&Hn'&Hj&Hcj&_). pose proof (codes_grow counts s l n' Hb Hn ltac:(lia) Hl Hn') as Hgrow. pose proof (codes_snoc _ _ _ Hgn) as Hcs. replace (s - 1 + 1) with s in Hcs by lia.
    assert (codes (ztake s counts) <= Z.shiftr code (16 - s)) as Hge.
    { replace (16 - s) with (16 - l + (l - s)) by lia. rewrite <- Z.shiftr_shiftr by lia. rewrite Hc, Z.shiftr_div_pow2 by lia. apply Z.div_le_lower_bound; lia. }
    pose proof (codes_nonneg counts Hb s). pose proof (get_ok _ _ _ Hb Hgn) as Hn8. unfold u8, fits in Hn8.
    assert (first_code counts s + n = codes (ztake s counts)) by (unfold first_code; lia). set (m := if 0 <? n then _ else -1). assert (m < codes (ztake s counts)) by (unfold m; destruct (0 <? n); lia).
    destruct (Z.leb_spec (Z.shiftr code (16 - s)) m); [lia|]. replace (Z.succ s) with (s + 1) by lia. replace (Z.pred (17 - s)) with (17 - (s + 1)) by lia. apply IH; lia.
Qed.
Lemma decode_reads data b l c v : bytes_ok data -> bytes_ok vals -> fits 32 (b_buf b) -> fits 32 (b_n b) -> canonical counts vals l c v ->
  Z.shiftr (fst (peek data 16 b)) (16 - l) = c -> decode data t b = Ok (v, skip l (snd (peek data 16 b))).
Proof.
  intros Hd Hvals Hbuf Hbn Hcan Hc. pose proof Hcan as (n&j&Hl&Hgn&Hj&Hcj&Hv). assert (u8 v) as Hv8 by (by eapply get_ok).
  assert (bits_ok (Z.min (b_at b) (default (b_at b) (stop b))) b) as Hok by (split; [done|done|lia|intros s Hs; rewrite Hs; cbn; lia]).
  pose proof (refill_ok data Hd _ 4 b Hok) as [Hrb _ _ _]. pose proof (refill_full data b Hbn) as Hfull. unfold decode, peek in *. cbn [fst snd] in *. set (r := refill data 4 b) in *. unfold fits in Hrb.
  assert (refill data 4 r = r) as Hr2 by (cbn [refill]; destruct (Z.leb_spec (b_n r) 24); [lia|done]). unfold shr_u32 in *. change ((32 - 16) mod 32) with 16 in *. change ((32 - 9) mod 32) with 23. rewrite Z.shiftr_shiftr in Hc by lia. replace (16 + (16 - l)) with (32 - l) in Hc by lia.
  destruct Ht as [[d (Hf&Hdl&Hget)] _ _ _]. rewrite Hf. change (Z.min 16 9) with 9 in *. assert (0 <= Z.shiftr (b_buf r) 23 < 512) as Hi.
  { rewrite Z.shiftr_div_pow2 by lia. split; [apply Z.div_pos; lia|apply Z.div_lt_upper_bound; lia]. }
  destruct (Z.le_gt_cases l 9) as [H9|H9].
  - rewrite (zget_app_l d (zrep (512 - zlen d) 0) _ (entry_of v l)).
    + cbn [or_panic mbind outcome_bind]. destruct (entry_parts v l Hv8 ltac:(lia)) as (He&->&->). unfold u8, fits in Hv8. destruct (Z.eqb_spec (entry_of v l) 0); [lia|]. done.
    + apply (Hget l c v); [lia|done|]. rewrite <- Z.shiftr_div_pow2, Z.shiftr_shiftr by lia. by replace (23 + (9 - l)) with (32 - l) by lia.
  - rewrite zget_padded_past.
    + cbn [or_panic mbind outcome_bind Z.eqb negb]. rewrite Hr2. change ((32 - 16) mod 32) with 16. assert (0 <= Z.shiftr (b_buf r) 16 < 2 ^ 16) as H16.
      { rewrite Z.shiftr_div_pow2 by lia. split; [apply Z.div_pos; lia|apply Z.div_lt_upper_bound; lia]. }
      assert (i32 (Z.shiftr (b_buf r) 16) = Z.shiftr (b_buf r) 16) as ->. { unfold i32. rewrite wrap_id by (unfold fits; lia). lia. }
      change (seqZ 10 7) with (seqZ 10 (17 - 10)). apply (long_code_reads 10 l c v); [lia|lia|done|lia|]. rewrite Z.shiftr_shiftr by lia. by replace (16 + (16 - l)) with (32 - l) by lia.
    + split; [|lia]. pose proof (codes_grow counts 9 l n Hb Hn ltac:(lia) ltac:(lia) Hgn). rewrite Hdl. replace (9 - 9) with 0 by lia. rewrite Z.mul_1_r.
      replace 23 with (32 - l + (l - 9)) by lia. rewrite <- Z.shiftr_shiftr by lia. rewrite Hc, Z.shiftr_div_pow2 by lia. apply Z.div_le_lower_bound; lia.
Qed.
End Reads.

(** Making a Huffman table of a JPEG from counts that leave room for their
    codes succeeds, and the table reads the canonical codes: when the next bits
    are the code of a value, of at most 9 bits or of more, [decode] gives the
    value and passes those bits. *)
Theorem canonical_codes_are_read counts vals : bytes_ok counts -> zlen counts = 16 -> bytes_ok vals -> zlen vals = sum counts -> fair counts ->
  exists t, table_new counts vals = Ok t /\ forall data b l c v, bytes_ok data -> fits 32 (b_buf b) -> fits 32 (b_n b) -> canonical counts vals l c v ->
    Z.shiftr (fst (peek data 16 b)) (16 - l) = c -> decode data t b = Ok (v, skip l (snd (peek data 16 b))).
Proof.
  intros Hb Hn Hv Hs Hf. destruct (table_new_fill counts vals Hb Hn Hs Hf) as (t&Ht&Hfill). exists t. split; [done|]. intros data b l c v Hd Hbuf Hbn Hcan Hc. by apply (decode_reads counts vals Hb Hn t Hfill data b l c v).
Qed.
Lemma fair_check counts : forallb (fun l => codes (ztake l counts) <=? 2 ^ l) (seqZ 1 16) = true -> fair counts.
Proof. intros H l Hl. rewrite forallb_forall in H. specialize (H l ltac:(apply list_elem_of_In, elem_of_seqZ; lia)). lia. Qed.
(** A code of one bit and one of ten. *)
Lemma canonical_codes_witness : exists t, table_new ([1] ++ zrep 8 0 ++ [1] ++ zrep 6 0) [7; 9] = Ok t /\
  decode [0x80; 0x00; 0; 0] t (mkBits 0 0 0 None) = Ok (9, skip 10 (mkBits 4 0x80000000 32 None)) /\ decode [0x40; 0; 0; 0] t (mkBits 0 0 0 None) = Ok (7, skip 1 (mkBits 4 0x40000000 32 None)).
Proof.
  assert (forall l, forallb (fun x => (0 <=? x) && (x <? 256)) l = true -> bytes_ok l) as Hb.
  { intros l Hl. apply Forall_forall. intros x Hx%list_elem_of_In. rewrite forallb_forall in Hl. specialize (Hl x Hx). unfold u8, fits. lia. }
  destruct (canonical_codes_are_read ([1] ++ zrep 8 0 ++ [1] ++ zrep 6 0) [7; 9]) as (t&Ht&Hread); [apply Hb; reflexivity|reflexivity|apply Hb; reflexivity|reflexivity|apply fair_check; reflexivity|].
  exists t. split; [exact Ht|]. split.
  - apply (Hread [0x80; 0x00; 0; 0] (mkBits 0 0 0 None) 10 512 9); [apply Hb; reflexivity|unfold fits; cbn; lia|unfold fits; cbn; lia| |reflexivity].
    exists 1, 0. split; [lia|]. split; [reflexivity|]. split; [lia|]. split; [reflexivity|reflexivity].
  - apply (Hread [0x40; 0; 0; 0] (mkBits 0 0 0 None) 1 0 7); [apply Hb; reflexivity|unfold fits; cbn; lia|unfold fits; cbn; lia| |reflexivity].
    exists 1, 0. split; [lia|]. split; [reflexivity|]. split; [lia|]. split; [reflexivity|reflexivity].
Defined.
