(* ===== verification/Marks.v ===== *)
(** * Which tokens a text can become ([token/mod.rs], [encode])

    The tokens of a text are tokens of the tables that spell text: characters,
    bytes, merges, whole words, plain added tokens, the unknown one. A special
    token that is in none of them, such as a turn marker, is never one of
    them, whatever the text says. *)
From S2P Require Import Prelude Bytes Utf8 Search Token Table Bpe Tournament Merges Lookup Unicode Pieces Encode.

(** The tokens of a table of pairs of a character and its token. *)
Fixpoint rare_ids (l : list Z) : list Z := match l with _ :: b :: l => b :: rare_ids l | _ => [] end.
(** Every token the tables of [t] give has [P]. *)
Record spells (t : Tokenizer) (P : Z -> Prop) : Prop := {
  sp_chars : Forall (fun id => id = NONE \/ P id) (chars t);
  sp_rare : Forall (fun id => id = NONE \/ P id) (rare_ids (rare t));
  sp_bytes : Forall (fun id => id = NONE \/ P id) (t_bytes t);
  sp_unk : unk t = NONE \/ P (unk t);
  sp_words : Forall (fun id => id = NONE \/ P id) (words t);
  sp_added : Forall P (added t);
  sp_merges : exists size M, merges_of size (merges t) M /\ Forall (fun e : entry => 0 <= fst (snd e) < NONE /\ (snd (snd e) = NONE \/ P (snd (snd e)))) M
}.

Section Spells.
Context (t : Tokenizer) (P : Z -> Prop) (Ht : spells t P).
Definition said (id : Z) : Prop := id = NONE \/ P id.

Lemma zget_said l i id : Forall said l -> zget l i = Some id -> said id.
Proof. unfold zget. intros Hl. destruct (i <? 0); [done|]. intros Hi. exact (Forall_lookup_1 _ _ _ _ Hl Hi). Qed.
Lemma char_id_said c : said (char_id t c).
Proof.
  unfold char_id. destruct (zget (chars t) c) as [id|] eqn:Hc; [exact (zget_said _ _ _ (sp_chars _ _ Ht) Hc)|].
  pose proof (sp_rare _ _ Ht) as Hr. revert Hr. generalize (rare t) as l. fix IH 1. intros [|a [|b l]] Hr; [by left|by left|]. cbn in *. apply Forall_cons in Hr as [Hb Hr]. destruct (a =? c); [done|by apply IH].
Qed.
Lemma fallback_said b o : fallback t b = Ok o -> forall l, o = Some l -> Forall said l /\ zlen l = zlen b.
Proof.
  revert o. induction b as [|x b IH]; intros o; cbn [fallback]; [intros [= <-] l [= <-]; by split; [constructor|]|].
  destruct (zget (t_bytes t) x) as [id|] eqn:Hid; [|done]. cbn [or_panic mbind outcome_bind]. destruct (_ && _); [|by intros [= <-]].
  destruct (fallback t b) as [o'| |]; [|done|done]. cbn [mbind outcome_bind]. intros [= <-] l. destruct o' as [l'|]; [|done]. intros [= <-]. destruct (IH _ eq_refl l' eq_refl) as [Hl Hn].
  split; [constructor; [exact (zget_said _ _ _ (sp_bytes _ _ Ht) Hid)|done]|]. rewrite !zlen_cons. lia.
Qed.
Lemma char_bytes c : zlen (encode_utf8 c) <= 4.
Proof. rewrite encode_utf8_len. unfold len_utf8. repeat case_match; lia. Qed.
Lemma symbols_said text ids ids' : symbols_from t text ids = Ok ids' -> Forall said ids -> Forall said ids' /\ zlen ids' <= zlen ids + 4 * zlen text.
Proof.
  revert ids. induction text as [|c text IH]; intros ids; cbn [symbols_from]; [intros [= <-] Hids; split; [done|change (zlen (@nil Z)) with 0; lia]|]. rewrite zlen_cons.
  set (c' := if _ && _ then _ else c). clearbody c'. destruct (negb (char_id t c' =? NONE)).
  { intros H Hids. destruct (IH _ H) as [Hs Hn]; [apply Forall_app; split; [done|]; apply Forall_singleton, char_id_said|]. rewrite zlen_app in Hn. change (zlen [char_id t c']) with 1 in Hn. split; [done|lia]. }
  destruct (fallback t (encode_utf8 c')) as [o| |] eqn:Hf; [|done|done]. cbn [mbind outcome_bind]. pose proof (char_bytes c'). destruct o as [b|].
  { intros H1 Hids. destruct (fallback_said _ _ Hf b eq_refl) as [Hb Hbl]. destruct (IH _ H1) as [Hs Hn]; [by apply Forall_app|]. rewrite zlen_app in Hn. split; [done|lia]. }
  destruct (_ && _); intros H1 Hids.
  - destruct (IH _ H1) as [Hs Hn]; [apply Forall_app; split; [done|]; apply Forall_singleton, (sp_unk _ _ Ht)|]. rewrite zlen_app in Hn. change (zlen [unk t]) with 1 in Hn. split; [done|lia].
  - destruct (IH _ H1 Hids) as [Hs Hn]. split; [done|lia].
Qed.
Lemma byte_symbols_said b ids : byte_symbols t b = Ok ids -> Forall said ids /\ zlen ids = zlen b.
Proof.
  revert ids. induction b as [|x b IH]; intros ids; cbn [byte_symbols]; [intros [= <-]; by split; [constructor|]|]. destruct (zget (t_bytes t) x) as [id|] eqn:Hid; [|done]. cbn [or_panic mbind outcome_bind].
  destruct (byte_symbols t b) as [l| |]; [|done|done]. cbn [mbind outcome_bind]. intros [= <-]. destruct (IH l eq_refl) as [Hl Hn]. split; [constructor; [exact (zget_said _ _ _ (sp_bytes _ _ Ht) Hid)|done]|]. rewrite !zlen_cons. lia.
Qed.

(** Merging adds only what the merges make. *)
Lemma bpe_said joins fuel l : (forall a b r m, joins a b = Some (r, m) -> said m) -> Forall said l -> Forall said (bpe joins fuel l).
Proof.
  intros Hj. revert l. induction fuel as [|fuel IH]; intros l Hl; cbn [bpe]; [done|]. destruct (lowest (pairs_from joins 0 l)) as [[[r k] m]|] eqn:Hlow; [|done].
  apply lowest_elem, elem_of_pairs in Hlow as (d&a&b&->&Ha&Hb&Hm). apply IH. apply Forall_app. split; [by apply Forall_take|]. constructor; [by eapply Hj|by apply Forall_drop].
Qed.
Lemma merge_all_said ids ids' : zlen ids < 2 ^ 32 -> Forall said ids -> merge_all (merge t) ids = Ok ids' -> Forall P ids'.
Proof.
  intros Hn Hids. destruct (sp_merges _ _ Ht) as (size&M&HM&Hj). set (joins := fun a b => snd <$> first_of is_pair M (a, b)).
  assert (forall a b r m, joins a b = Some (r, m) -> 0 <= r < NONE /\ said m) as Hjoin.
  { intros a b r m. unfold joins. destruct (first_of is_pair M (a, b)) as [[[x y] rc]|] eqn:Hf; [|done]. cbn. intros [= ->]. apply List.find_some in Hf as [Hin _]. apply list_elem_of_In in Hin.
    rewrite Forall_forall in Hj. exact (Hj _ Hin). }
  rewrite (merge_all_spec joins); [|intros a b; by apply (merge_spec t size)|intros a b r m Hm; by apply Hjoin in Hm as [? _]|done]. intros [= <-].
  assert (Forall said (bpe joins (length ids) ids)) as Hb by (apply bpe_said; [intros a b r m Hm; by apply Hjoin in Hm as [_ ?]|done]).
  apply Forall_forall. intros id [Hin Hlive]%list_elem_of_In%List.filter_In. rewrite Forall_forall in Hb. apply list_elem_of_In, Hb in Hin. unfold live in Hlive. destruct Hin as [->|]; done.
Qed.
Lemma utf8_size text : zlen (utf8_of text) <= 4 * zlen text.
Proof. induction text as [|c text IH]; [done|]. unfold utf8_of in *. cbn [map concat]. rewrite zlen_app, zlen_cons. pose proof (char_bytes c). lia. Qed.
Lemma merge_piece_said text ids : zlen text < 2 ^ 30 -> merge_piece t text = Ok ids -> Forall P ids.
Proof.
  intros Hn. unfold merge_piece, symbols. destruct (has t BYTE_LEVEL).
  - destruct (byte_symbols t (utf8_of text)) as [l| |] eqn:Hs; [|done|done]. apply byte_symbols_said in Hs as [Hs Hl]. cbn [mbind outcome_bind]. pose proof (utf8_size text). apply merge_all_said; [lia|done].
  - destruct (symbols_from t text []) as [l| |] eqn:Hs; [|done|done]. apply symbols_said in Hs as [Hs Hl]; [|constructor]. cbn [mbind outcome_bind]. change (zlen (@nil Z)) with 0 in Hl. apply merge_all_said; [lia|done].
Qed.
Lemma each_said f l ids : (forall x y, x ∈ l -> f x = Ok y -> Forall P y) -> each f l = Ok ids -> Forall P ids.
Proof.
  revert ids. induction l as [|x l IH]; intros ids Hf; cbn [each]; [by intros [= <-]|]. destruct (f x) as [a| |] eqn:Ha; [|done|done]. cbn [mbind outcome_bind].
  destruct (each f l) as [b| |] eqn:Hb; [|done|done]. cbn [mbind outcome_bind]. intros [= <-]. apply Forall_app. split; [apply (Hf x); [apply elem_of_cons; by left|done]|]. apply IH; [|done]. intros y z Hy. apply Hf, elem_of_cons. by right.
Qed.
Lemma cut_pieces_size t' last_ cur text x : x ∈ cut_pieces t' last_ cur text -> zlen x <= zlen cur + zlen text.
Proof.
  revert last_ cur. induction text as [|c text IH]; intros last_ cur; cbn [cut_pieces].
  - destruct cur as [|a cur]; [by intros ?%elem_of_nil|]. intros ->%list_elem_of_singleton. change (zlen (@nil Z)) with 0. lia.
  - rewrite zlen_cons. pose proof (zlen_nonneg cur). pose proof (zlen_nonneg text). destruct cur as [|a cur]; [intros Hx%IH; change (zlen [c]) with 1 in Hx; change (zlen (@nil Z)) with 0; lia|]. destruct (cuts _ _ _).
    + intros [->|Hx]%elem_of_cons; [lia|]. apply IH in Hx. change (zlen [c]) with 1 in Hx. lia.
    + intros Hx%IH. rewrite zlen_app in Hx. change (zlen [c]) with 1 in Hx. lia.
Qed.
Lemma word_said text o id : word t text = Ok o -> o = Some id -> P id.
Proof.
  unfold word. destruct (_ =? 0); [by intros [= <-]|]. generalize (slot (fnv text) (zlen (words t) - 1)) as i. generalize (zlen (words t) - 1) as mask. intros mask. generalize (length (words t)) as fuel. intros fuel. revert o.
  induction fuel as [|fuel IH]; intros o i; cbn [word_from]; (destruct (zget (words t) i) as [x|] eqn:Hx; [|done]); cbn [or_panic mbind outcome_bind]; (destruct (Z.eqb_spec x NONE); [by intros [= <-]|]);
    (destruct (token_bytes t x) as [b| |]; [|done|done]); cbn [mbind outcome_bind]; (destruct (bool_decide _); [intros [= <-] [= <-]; by destruct (zget_said _ _ _ (sp_words _ _ Ht) Hx)|]); [done|apply IH].
Qed.

Context (tb : Tables) (is_numeric : Z -> bool) (depth : nat).
Lemma segment_said text ids : Forall (fun c => is_char c = true) text -> zlen text < 2 ^ 29 -> segment tb is_numeric t text = Ok ids -> Forall P ids.
Proof.
  intros Hc Hn. unfold segment. assert (zlen (prefixed t text) <= zlen text + 1 /\ Forall (fun c => is_char c = true) (prefixed t text)) as [Hpn Hpc].
  { unfold prefixed. destruct text as [|c text]; [split; [lia|done]|]. destruct (_ && _); [|split; [lia|done]]. rewrite (zlen_cons _ (c :: text)). split; [lia|]. constructor; [by destruct (has t BYTE_LEVEL)|done]. }
  set (text' := prefixed t text) in *. destruct (has t BYTE_LEVEL).
  - unfold byte_segment. destruct (pattern_of t) as [p| |]; [|done|done]. cbn [mbind outcome_bind]. destruct (pieces_spec tb is_numeric p text' Hpc) as (l&->&Hl&_). cbn [mbind outcome_bind]. apply each_said. intros x y Hx.
    assert (zlen x <= zlen text') as Hxn. { apply list_elem_of_split in Hx as (l1&l2&->). rewrite <- Hl, concat_app. cbn [concat]. rewrite !zlen_app. pose proof (zlen_nonneg (concat l1)). pose proof (zlen_nonneg (concat l2)). lia. }
    destruct (word t (utf8_of x)) as [o| |] eqn:Hw; [|done|done]. cbn [mbind outcome_bind]. destruct o as [id|]; [intros [= <-]; apply Forall_singleton; by eapply word_said|]. apply merge_piece_said. lia.
  - apply each_said. intros x y Hx%cut_pieces_size. change (zlen (@nil Z)) with 0 in Hx. apply merge_piece_said. lia.
Qed.
Lemma match_from_said first rest l o id len : Forall P l -> match_from t first rest l = Ok o -> o = Some (id, len) -> P id.
Proof.
  intros Hl. induction Hl as [|x l Hx Hl IH]; cbn [match_from]; [by intros [= <-]|]. destruct (first_byte_of t x) as [b0| |]; [|done|done]. cbn [mbind outcome_bind]. destruct (b0 =? first); [|by intros [= <-]].
  destruct (token_bytes t x) as [b| |]; [|done|done]. cbn [mbind outcome_bind]. destruct (starts_with rest b); [by intros [= <-] [= <- <-]|done].
Qed.
Lemma cut_is s n a b : cut s n = Ok (a, b) -> s = a ++ b.
Proof.
  revert n a. induction s as [|c s IH]; intros n a; cbn [cut]; (destruct (n =? 0); [by intros [= <- <-]|]); [done|]. destruct (n <? len_utf8 c); [done|].
  destruct (cut s (n - len_utf8 c)) as [[a' b']| |] eqn:Hc; [|done|done]. cbn [mbind outcome_bind]. intros [= <- <-]. cbn. f_equal. by apply (IH _ _ Hc).
Qed.
Lemma encode_from_said fuel cur text ids : Forall (fun c => is_char c = true) (cur ++ text) -> zlen (cur ++ text) < 2 ^ 29 -> encode_from tb is_numeric fuel t cur text = Ok ids -> Forall P ids.
Proof.
  revert cur text ids. induction fuel as [|fuel IH]; intros cur text ids Hc Hn; (destruct text as [|c text]; cbn [encode_from]; [rewrite app_nil_r in *; by apply segment_said|]);
    (destruct (added_at t (utf8_of (c :: text))) as [o| |] eqn:Ho; [|done|done]); cbn [mbind outcome_bind]; [done|].
  destruct o as [[id len]|]; [|apply IH; by rewrite <- app_assoc].
  assert (P id) as Hid. { unfold added_at in Ho. destruct (utf8_of (c :: text)) as [|x rest]; [done|]. destruct (partition_point_m _ _) as [k| |]; [|done|done]. cbn [mbind outcome_bind] in Ho.
    eapply match_from_said; [|exact Ho|done]. apply Forall_drop, (sp_added _ _ Ht). }
  rewrite zlen_app in Hn. apply Forall_app in Hc as [Hcur Htext]. pose proof (zlen_nonneg (c :: text)). pose proof (zlen_nonneg cur).
  destruct (segment tb is_numeric t cur) as [a| |] eqn:Ha; [|done|done]. apply segment_said in Ha; [|done|lia]. cbn [mbind outcome_bind].
  destruct (cut (c :: text) len) as [[x rest]| |] eqn:Hcut; [|done|done]. apply cut_is in Hcut. rewrite Hcut in *. cbn [mbind outcome_bind]. apply Forall_app in Htext as [_ Hrest]. rewrite zlen_app in *. pose proof (zlen_nonneg x).
  destruct (encode_from tb is_numeric fuel t [] rest) as [b| |] eqn:Hb; [|done|done]. apply IH in Hb; [|done|cbn [app]; lia]. cbn [mbind outcome_bind]. intros [= <-]. apply Forall_app. split; [done|]. by constructor.
Qed.
End Spells.

(** ** A tokenizer with sound tables gives every text tokens *)
Record sound_tables (t : Tokenizer) : Prop := {
  so_texts : texts_ok t;
  so_bytes : zlen (t_bytes t) = 256;
  so_words : words t = [] \/ exists W, words_of t (words t) W;
  so_added : Forall (fun id => said_by t id <> [] /\ utf8_valid (said_by t id)) (added t);
  so_pattern : has t CL100K && has t O200K = false;
  so_nfc : has t NFC = false
}.
Section Total.
Context (t : Tokenizer) (P : Z -> Prop) (Hs : sound_tables t) (Ht : spells t P) (tb : Tables) (is_numeric : Z -> bool) (depth : nat).
Notation chars_ok := (Forall (fun c => is_char c = true)).

Lemma byte_found b : u8 b -> is_Some (zget (t_bytes t) b).
Proof. intros Hb. apply zget_is_Some. rewrite (so_bytes _ Hs). exact Hb. Qed.
Lemma char_encodes c : is_char c = true -> bytes_ok (encode_utf8 c).
Proof. intros Hc. pose proof (utf8_chars_of [c] ltac:(by constructor)) as H. unfold utf8_of in H. cbn [map concat] in H. rewrite app_nil_r in H. apply utf8_valid_ok. by exists [c]. Qed.
Lemma fallback_total b : bytes_ok b -> exists o, fallback t b = Ok o.
Proof.
  induction 1 as [|x b Hx _ [o IH]]; [by eexists|]. cbn [fallback]. destruct (byte_found x Hx) as [id ->]. cbn [or_panic mbind outcome_bind]. destruct (_ && _); [|by eexists]. rewrite IH. by eexists.
Qed.
Lemma symbols_total text ids : chars_ok text -> exists ids', symbols_from t text ids = Ok ids'.
Proof.
  intros Hc. revert ids. induction Hc as [|c text Hc Htext IH]; intros ids; [by eexists|]. cbn [symbols_from]. set (c' := if _ && _ then _ else c).
  assert (is_char c' = true) as Hc' by (unfold c'; destruct (_ && _); done). clearbody c'. destruct (negb (char_id t c' =? NONE)); [apply IH|].
  destruct (fallback_total (encode_utf8 c') (char_encodes c' Hc')) as [o ->]. cbn [mbind outcome_bind]. destruct o; [apply IH|]. destruct (_ && _); apply IH.
Qed.
Lemma byte_symbols_total b : bytes_ok b -> exists ids, byte_symbols t b = Ok ids.
Proof. induction 1 as [|x b Hx _ [l IH]]; [by eexists|]. cbn [byte_symbols]. destruct (byte_found x Hx) as [id ->]. cbn [or_panic mbind outcome_bind]. rewrite IH. by eexists. Qed.
Lemma merge_all_total ids : zlen ids < 2 ^ 32 -> exists ids', merge_all (merge t) ids = Ok ids'.
Proof.
  intros Hn. destruct (sp_merges _ _ Ht) as (size&M&HM&Hj). exists (List.filter live (bpe (fun a b => snd <$> first_of is_pair M (a, b)) (length ids) ids)).
  apply merge_all_spec; [intros a b; by apply (merge_spec t size)| |done]. intros a b r m. destruct (first_of is_pair M (a, b)) as [[[x y] rc]|] eqn:Hf; [|done]. cbn. intros [= ->].
  apply List.find_some in Hf as [Hin _]. apply list_elem_of_In in Hin. rewrite Forall_forall in Hj. exact (proj1 (Hj _ Hin)).
Qed.
Lemma merge_piece_total text : chars_ok text -> zlen text < 2 ^ 30 -> exists ids, merge_piece t text = Ok ids.
Proof.
  intros Hc Hn. unfold merge_piece, symbols. destruct (has t BYTE_LEVEL).
  - destruct (byte_symbols_total (utf8_of text)) as [l Hl]; [apply utf8_valid_ok; eexists; by apply utf8_chars_of|]. rewrite Hl. cbn [mbind outcome_bind]. apply (byte_symbols_said t P Ht) in Hl as [_ Hl].
    pose proof (utf8_size text). apply merge_all_total. lia.
  - destruct (symbols_total text [] Hc) as [l Hl]. rewrite Hl. cbn [mbind outcome_bind]. apply (symbols_said t P Ht) in Hl as [_ Hl]; [|constructor]. change (zlen (@nil Z)) with 0 in Hl. apply merge_all_total. lia.
Qed.
Lemma each_total f l : (forall x, x ∈ l -> exists y, f x = Ok y) -> exists y, each f l = Ok y.
Proof.
  induction l as [|x l IH]; intros Hf; [by eexists|]. cbn [each]. destruct (Hf x) as [a ->]; [apply elem_of_cons; by left|]. destruct IH as [b ->]; [intros y Hy; apply Hf, elem_of_cons; by right|]. by eexists.
Qed.
Lemma cut_pieces_chars last_ cur text x : chars_ok cur -> chars_ok text -> x ∈ cut_pieces t last_ cur text -> chars_ok x.
Proof.
  intros Hcur Htext. revert last_ cur Hcur. induction Htext as [|c text Hc Htext IH]; intros last_ cur Hcur; cbn [cut_pieces].
  - destruct cur as [|a cur]; [by intros ?%elem_of_nil|]. by intros ->%list_elem_of_singleton.
  - destruct cur as [|a cur]; [apply IH; by constructor|]. destruct (cuts _ _ _); [|apply IH; apply Forall_app; split; [done|by constructor]]. intros [->|Hx]%elem_of_cons; [done|]. eapply IH; [|done]. by constructor.
Qed.
Lemma word_total text : exists o, word t text = Ok o.
Proof.
  destruct (so_words _ Hs) as [Hw|[W Hw]]; [exists None; unfold word; by rewrite Hw|]. exists (first_of (has_text t) W text). rewrite <- (words_find t (so_texts _ Hs) (words t) W text Hw). by destruct t.
Qed.
Lemma segment_total text : chars_ok text -> zlen text < 2 ^ 29 -> exists ids, segment tb is_numeric t text = Ok ids.
Proof.
  intros Hc Hn. unfold segment. assert (zlen (prefixed t text) <= zlen text + 1 /\ chars_ok (prefixed t text)) as [Hpn Hpc].
  { unfold prefixed. destruct text as [|c text]; [split; [lia|done]|]. destruct (_ && _); [|split; [lia|done]]. rewrite (zlen_cons _ (c :: text)). split; [lia|]. constructor; [by destruct (has t BYTE_LEVEL)|done]. }
  set (text' := prefixed t text) in *. destruct (has t BYTE_LEVEL).
  - unfold byte_segment. assert (exists p, pattern_of t = Ok p) as [p ->] by (unfold pattern_of; pose proof (so_pattern _ Hs); destruct (has t CL100K), (has t O200K); by eauto). cbn [mbind outcome_bind].
    destruct (pieces_spec tb is_numeric p text' Hpc) as (l&->&Hl&_). cbn [mbind outcome_bind]. apply each_total. intros x Hx. assert (zlen x <= zlen text' /\ chars_ok x) as [Hxn Hxc].
    { apply list_elem_of_split in Hx as (l1&l2&->). rewrite <- Hl, concat_app in *. cbn [concat] in *. rewrite !zlen_app in *. rewrite !Forall_app in Hpc. pose proof (zlen_nonneg (concat l1)). pose proof (zlen_nonneg (concat l2)). split; [lia|apply Hpc]. }
    destruct (word_total (utf8_of x)) as [o ->]. cbn [mbind outcome_bind]. destruct o as [id|]; [by eexists|]. apply merge_piece_total; [done|lia].
  - apply each_total. intros x Hx. pose proof (cut_pieces_size _ _ _ _ _ Hx) as Hxn. change (zlen (@nil Z)) with 0 in Hxn. apply merge_piece_total; [|lia]. by eapply cut_pieces_chars; [| |exact Hx].
Qed.
Lemma encode_from_total fuel cur text : (length text <= fuel)%nat -> chars_ok (cur ++ text) -> zlen (cur ++ text) < 2 ^ 29 -> exists ids, encode_from tb is_numeric fuel t cur text = Ok ids.
Proof.
  revert cur text. induction fuel as [|fuel IH]; intros cur text Hf Hc Hn; (destruct text as [|c text]; cbn [encode_from]; [rewrite app_nil_r in *; by apply segment_total|]); [cbn in Hf; lia|].
  destruct (added_at_spec t (so_texts _ Hs) (so_added _ Hs) (utf8_of (c :: text))) as (o&->&Ho). cbn [mbind outcome_bind]. destruct o as [[id len]|]; [|apply IH; [cbn in Hf; lia|by rewrite <- app_assoc|by rewrite <- app_assoc]].
  destruct (Ho id len eq_refl) as (Hid&->&r&Hr). destruct (proj1 (Forall_forall _ _) (so_added _ Hs) _ Hid) as [Hne [cs Hcs]]. apply utf8_chars_sound in Hcs as [Hcs Hcc]. apply Forall_app in Hc as [Hcur Htext].
  rewrite <- Hcs in Hr. destruct (utf8_prefix _ _ _ Htext Hcc Hr) as [s' Hs']. rewrite Hs' in *. rewrite !zlen_app in Hn. pose proof (zlen_nonneg cur). pose proof (zlen_nonneg cs). pose proof (zlen_nonneg s').
  destruct (segment_total cur Hcur ltac:(lia)) as [a ->]. cbn [mbind outcome_bind]. rewrite <- Hcs, utf8_len, cut_at. cbn [mbind outcome_bind]. destruct (IH [] s') as [b ->]; [|apply Forall_app in Htext; apply Htext|cbn [app]; lia|by eexists].
  destruct cs as [|x cs]; [by rewrite <- Hcs in Hne|]. rewrite length_app in Hf. cbn [length] in *. lia.
Qed.
Lemma encode_tokens text : chars_ok text -> zlen text < 2 ^ 29 -> exists ids, encode tb is_numeric depth t text = Ok ids /\ Forall P ids.
Proof.
  intros Hc Hn. destruct (encode_from_total (length text) [] text ltac:(lia) Hc Hn) as [ids Hids]. exists ids. split; [unfold encode; by rewrite (so_nfc _ Hs)|]. by apply (encode_from_said t P Ht tb is_numeric (length text) [] text).
Qed.
End Total.
