(* ===== verification/Chat.v ===== *)
(** * The chat template ([token/chat.rs])

    A conversation as tokens: the markers by their numbers, the messages as
    text. Messages are those of the engine; their texts are UTF-8. How many
    soft tokens an image or a clip takes is asked of [soft_tokens] and [count]
    (floating-point code of the vision and audio towers). *)
From S2P Require Import Prelude Bytes Utf8 Engine Search Token Table Bpe Tournament Merges Lookup Unicode Pieces Encode Marks Vocab Built Json FromJson.

Record Chat := mkChat {
  c_bos : Z; c_turn : Z; c_end : Z; c_think : Z;
  c_image : option (Z * Z * Z); c_audio : option (Z * Z * Z);
  c_budget : Z; c_closed : option (Z * Z) }.
Definition DEFAULT_BUDGET : Z := 280.

(** ** The special tokens *)

(** [Tokenizer::special]. *)
Fixpoint find_special (t : Tokenizer) (ids text : list Z) : result (option Z) :=
  match ids with
  | [] => Ok None
  | id :: ids => b ← token_bytes t id; if bool_decide (b = text) then Ok (Some id) else find_special t ids text
  end.
Definition special_named (t : Tokenizer) (name : string) : result (option Z) := find_special t (special t) (str name).
Definition get_special (t : Tokenizer) (name : string) : result Z :=
  o ← special_named t name; ok_or o (Format [Lit "tokenizer: no "; Lit name; Lit " token, not Gemma 4's"]).
(** Three marks, if the tokenizer has them all. *)
Definition three_marks (t : Tokenizer) (a b c : string) : result (option (Z * Z * Z)) :=
  x ← special_named t a; y ← special_named t b; z ← special_named t c;
  Ok (match x, y, z with Some x, Some y, Some z => Some (x, y, z) | _, _, _ => None end).
Definition gemma4 (t : Tokenizer) : result Chat :=
  image ← three_marks t "<|image>" "<|image|>" "<image|>";
  audio ← three_marks t "<|audio>" "<|audio|>" "<audio|>";
  bos ← get_special t "<bos>"; turn ← get_special t "<|turn>"; end_ ← get_special t "<turn|>"; think ← get_special t "<|think|>";
  Ok (mkChat bos turn end_ think image audio DEFAULT_BUDGET None).

(** ** The template's generation prompt *)
Fixpoint contains (pat s : list Z) : bool := starts_with s pat || match s with [] => false | _ :: s => contains pat s end.
(** The text from the last [pat] on, or none. *)
Fixpoint from_last (pat s : list Z) : list Z :=
  match s with
  | [] => []
  | _ :: s' => if contains pat s' then from_last pat s' else if starts_with s pat then s else []
  end.
Definition with_template (c : Chat) (t : Tokenizer) (template : list Z) : result Chat :=
  let prompt := from_last (str "add_generation_prompt") template in
  open ← special_named t "<|channel>"; close ← special_named t "<channel|>";
  let closed := match open, close with
                | Some o, Some cl => if contains (str "'<|channel>thought\n<channel|>'") prompt then Some (o, cl) else None
                | _, _ => None
                end in
  Ok (mkChat (c_bos c) (c_turn c) (c_end c) (c_think c) (c_image c) (c_audio c) (c_budget c) closed).
Definition with_budget (c : Chat) (budget : Z) : Chat :=
  mkChat (c_bos c) (c_turn c) (c_end c) (c_think c) (c_image c) (c_audio c) budget (c_closed c).
(** [Chat::open]: [template] is what reading the file gives. *)
Definition chat_open (t : Tokenizer) (template : option (list Z)) : result Chat :=
  chat ← gemma4 t;
  match template with Some text => with_template chat t text | None => Ok chat end.
Definition slot_of (m : option (Z * Z * Z)) : option Z := (fun '(_, s, _) => s) <$> m.
Definition image_token (c : Chat) : option Z := slot_of (c_image c).
Definition audio_token (c : Chat) : option Z := slot_of (c_audio c).
Definition end_of_turn (c : Chat) : Z := c_end c.

(** ** Texts *)
Fixpoint trim_start (s : list Z) : list Z := match s with [] => [] | c :: s' => if is_whitespace c then trim_start s' else s end.
Definition trim (s : list Z) : list Z := rev (trim_start (rev (trim_start s))).
Definition text_of (m : Message) : list Z := default [] (utf8_chars (content m)).

(** ** The conversation *)
Definition slots_for (marks : Z * Z * Z) (n : Z) (out : list Z) : list Z :=
  let '(open, slot, close) := marks in out ++ [open] ++ zrep n slot ++ [close].

Section Encoding.
Context (tb : Tables) (is_numeric : Z -> bool) (depth : nat) (t : Tokenizer) (soft_tokens : Z -> Z -> result Z) (count : Z -> Z).

Definition push_text (text out : list Z) : outcome unit (list Z) := ids ← Encode.encode tb is_numeric depth t text; Ok (out ++ ids).
Definition close_turn (c : Chat) (text out : list Z) : outcome unit (list Z) :=
  out ← push_text text out;
  push_text [10] (out ++ [c_end c]).
Definition model_turn (c : Chat) (text : option (list Z)) (out : list Z) : outcome unit (list Z) :=
  match text with
  | Some text => close_turn c (str "model" ++ [10] ++ text) (out ++ [c_turn c])
  | None => Ok out
  end.
(** [image.soft_tokens(budget).unwrap_or(0)]. *)
Definition image_size (c : Chat) (x : Z) : Z := match soft_tokens x (c_budget c) with Ok n => n | _ => 0 end.
(** The marks of a medium, if the message has some and the tokenizer the marks. *)
Definition marks_for (marks : option (Z * Z * Z)) (media : list Z) : option (Z * Z * Z) := match media with [] => None | _ => marks end.
Definition turn_of (c : Chat) (m : Message) (out : list Z) : outcome unit (list Z) :=
  let out := out ++ [c_turn c] in
  let text := (match role m with System => str "system" | _ => str "user" end) ++ [10] in
  '(text, out) ← (match marks_for (c_image c) (images m) with
                  | Some marks => out ← push_text text out; Ok ([], fold_left (fun out x => slots_for marks (image_size c x) out) (images m) out)
                  | None => Ok (text, out)
                  end);
  let text := text ++ trim (text_of m) in
  '(text, out) ← (match marks_for (c_audio c) (clips m) with
                  | Some marks => out ← push_text text out; Ok ([], fold_left (fun out x => slots_for marks (count x) out) (clips m) out)
                  | None => Ok (text, out)
                  end);
  close_turn c text out.
(** The loop over the messages after the system's; [model] is the text of the
    model's messages since the last other one. *)
Fixpoint turns_from (c : Chat) (ms : list Message) (model : option (list Z)) (out : list Z) : outcome unit (list Z) :=
  match ms with
  | [] => model_turn c model out
  | m :: ms =>
      match role m with
      | RModel => turns_from c ms (Some (default [] model ++ trim (text_of m))) out
      | _ => out ← model_turn c model out; out ← turn_of c m out; turns_from c ms None out
      end
  end.
(** The system message a conversation starts with, and the rest. *)
Definition split_system (ms : list Message) : option (list Z) * list Message :=
  match ms with
  | m :: rest => match role m with System => (Some (text_of m), rest) | _ => (None, ms) end
  | [] => (None, ms)
  end.
Definition system_turn (c : Chat) (system : option (list Z)) (think : bool) (out : list Z) : outcome unit (list Z) :=
  match system, think with
  | None, false => Ok out
  | _, _ =>
      let out := out ++ [c_turn c] in
      let text := str "system" ++ [10] in
      '(text, out) ← (if think then out ← push_text text out; Ok ([10], out ++ [c_think c]) else Ok (text, out));
      close_turn c (text ++ trim (default [] system)) out
  end.
Definition chat_encode (c : Chat) (ms : list Message) (think : bool) (out : list Z) : outcome unit (list Z) :=
  let '(system, rest) := split_system ms in
  out ← system_turn c system think (out ++ [c_bos c]);
  out ← turns_from c rest None out;
  out ← push_text (str "model" ++ [10]) (out ++ [c_turn c]);
  match c_closed c, think with
  | Some (open, close), false => out ← push_text (str "thought" ++ [10]) (out ++ [open]); Ok (out ++ [close])
  | _, _ => Ok out
  end.
End Encoding.

(** ** The marks of a prompt

    What the template puts around the texts, from the roles of the messages
    and the sizes of their images and clips alone. *)
Definition triple (m : option (Z * Z * Z)) : list Z := match m with Some (a, b, c) => [a; b; c] | None => [] end.
Definition marks_of (c : Chat) : list Z :=
  [c_bos c; c_turn c; c_end c; c_think c] ++ triple (c_image c) ++ triple (c_audio c) ++ match c_closed c with Some (a, b) => [a; b] | None => [] end.
Definition slot_marks (marks : Z * Z * Z) (n : Z) : list Z := slots_for marks n [].
Definition media_marks (marks : option (Z * Z * Z)) (size : Z -> Z) (media : list Z) : list Z :=
  match marks with Some mk => concat (map (fun x => slot_marks mk (size x)) media) | None => [] end.

Section Skeleton.
Context (c : Chat) (soft_tokens : Z -> Z -> result Z) (count : Z -> Z).
Definition message_marks (m : Message) : list Z :=
  [c_turn c] ++ media_marks (c_image c) (image_size soft_tokens c) (images m) ++ media_marks (c_audio c) count (clips m) ++ [c_end c].
Definition model_marks (pending : bool) : list Z := if pending then [c_turn c; c_end c] else [].
Fixpoint turns_marks (ms : list Message) (pending : bool) : list Z :=
  match ms with
  | [] => model_marks pending
  | m :: ms =>
      match role m with
      | RModel => turns_marks ms true
      | _ => model_marks pending ++ message_marks m ++ turns_marks ms false
      end
  end.
Definition skeleton (ms : list Message) (think : bool) : list Z :=
  let '(system, rest) := split_system ms in
  [c_bos c]
  ++ (match system, think with None, false => [] | _, _ => [c_turn c] ++ (if think then [c_think c] else []) ++ [c_end c] end)
  ++ turns_marks rest false ++ [c_turn c]
  ++ match c_closed c, think with Some (open, close), false => [open; close] | _, _ => [] end.

(** The sizes of the media of a message, in their order. *)
Definition sizes (m : Message) : list Z :=
  (match c_image c with Some _ => map (image_size soft_tokens c) (images m) | None => [] end)
  ++ (match c_audio c with Some _ => map count (clips m) | None => [] end).
End Skeleton.

(** ** Runs of slots *)
Section Runs.
Context (mk : option Z * option Z).
Definition lens (prev : option Z) (l : list Z) : list Z := map snd (runs mk 0 prev l).
Lemma lens_place p q prev l : map snd (runs mk p prev l) = map snd (runs mk q prev l).
Proof. revert p q prev. induction l as [|t l IH]; intros p q prev; [done|]. cbn [runs]. destruct (_ && _); cbn [map snd]; [f_equal|]; apply IH. Qed.
Lemma lens_prev x l : marked mk x = false -> lens (Some x) l = lens None l.
Proof.
  intros Hx. destruct l as [|t l]; [done|]. unfold lens. cbn [runs]. destruct (marked mk t) eqn:Ht; [|done]. cbn [andb]. rewrite (bool_decide_false (Some x = Some t)) by (intros [= ->]; congruence).
  by rewrite (bool_decide_false (None = Some t)).
Qed.
Lemma lens_unmarked t l prev : marked mk t = false -> lens prev (t :: l) = lens None l.
Proof. intros Ht. unfold lens at 1. cbn [runs]. rewrite Ht. cbn [andb]. rewrite (lens_place _ 0). by apply lens_prev. Qed.
Lemma lens_skip a b : Forall (fun t => marked mk t = false) a -> lens None (a ++ b) = lens None b.
Proof. induction 1 as [|t a Ht _ IH]; [done|]. cbn [app]. by rewrite lens_unmarked. Qed.
Lemma lens_more s n close b : marked mk s = true -> marked mk close = false -> lens (Some s) (replicate n s ++ close :: b) = lens None b.
Proof.
  intros Hs Hc. induction n as [|n IH]; cbn [replicate app]; [by apply lens_unmarked|]. unfold lens in *. cbn [runs]. rewrite bool_decide_true by done. rewrite Bool.andb_false_r. by rewrite (lens_place _ 0).
Qed.
Lemma take_run s n close b : close <> s -> zlen (take_while (Z.eqb s) (replicate n s ++ close :: b)) = Z.of_nat n.
Proof. intros Hne. induction n as [|n IH]; cbn [replicate app take_while]; [by destruct (Z.eqb_spec s close)|]. rewrite Z.eqb_refl, zlen_cons. lia. Qed.
Lemma lens_slots open s close n b : marked mk open = false -> marked mk s = true -> marked mk close = false -> 0 < n -> lens None (slot_marks (open, s, close) n ++ b) = n :: lens None b.
Proof.
  intros Ho Hs Hc Hn. unfold slot_marks, slots_for, zrep. cbn [app]. rewrite <- app_assoc. rewrite lens_unmarked by done. destruct (Z.to_nat n) as [|k] eqn:Hk; [lia|]. cbn [replicate app]. unfold lens. cbn [runs].
  rewrite Hs. cbn [andb negb]. rewrite (bool_decide_false (None = Some s)) by done. cbn [negb map snd take_while]. rewrite Z.eqb_refl, zlen_cons, take_run by (intros ->; congruence). f_equal; [lia|].
  rewrite (lens_place _ 0). by apply lens_more.
Qed.
End Runs.

(** ** What each part of the template writes *)
Lemma trim_start_suffix s : exists a, s = a ++ trim_start s.
Proof. induction s as [|c s [a IH]]; [by exists []|]. cbn [trim_start]. destruct (is_whitespace c); [exists (c :: a); cbn; by f_equal|by exists []]. Qed.
Lemma trim_ok s : Forall (fun c => is_char c = true) s -> Forall (fun c => is_char c = true) (trim s) /\ zlen (trim s) <= zlen s.
Proof.
  intros Hs. unfold trim. destruct (trim_start_suffix s) as [a Ha]. destruct (trim_start_suffix (rev (trim_start s))) as [b Hb]. set (u := trim_start s) in *. set (v := trim_start (rev u)) in *.
  assert (u = rev v ++ rev b) as Hu by (rewrite <- rev_app_distr, <- Hb; by rewrite rev_involutive). rewrite Ha, Hu in *. rewrite !Forall_app in Hs. split; [apply Hs|].
  rewrite !zlen_app. pose proof (zlen_nonneg a). pose proof (zlen_nonneg (rev b)). lia.
Qed.
Lemma message_text_ok m : Forall (fun c => is_char c = true) (text_of m) /\ zlen (text_of m) <= zlen (content m).
Proof.
  unfold text_of. destruct (utf8_chars (content m)) as [cs|] eqn:Hc; [|split; [constructor|apply zlen_nonneg]]. apply utf8_chars_sound in Hc as [<- Hcs]. cbn [default]. split; [done|].
  clear Hcs. change (zlen cs <= zlen (utf8_of cs)). induction cs as [|x cs IH]; [done|]. unfold utf8_of in *. cbn [map concat]. rewrite zlen_app, zlen_cons, encode_utf8_len. pose proof (len_utf8_bounds x). lia.
Qed.

Section Prompt.
Context (tb : Tables) (is_numeric : Z -> bool) (depth : nat) (t : Tokenizer) (soft_tokens : Z -> Z -> result Z) (count : Z -> Z) (c : Chat).
Context (Hs : sound_tables t) (Ht : spells t (fun id => id ∉ marks_of c)) (Hnd : NoDup (marks_of c)).
Notation mk := (image_token c, audio_token c).
Notation chars_ok := (Forall (fun c => is_char c = true)).
Definition is_mark (id : Z) : bool := bool_decide (id ∈ marks_of c).

(** [s] has the marks [sk], and the runs of slots [ns] if none is empty. *)
Definition emits (s sk ns : list Z) : Prop :=
  List.filter is_mark s = sk /\ (Forall (Z.lt 0) ns -> forall b, lens mk None (s ++ b) = ns ++ lens mk None b).
Definition writes (m : outcome unit (list Z)) (out sk ns : list Z) : Prop := exists s, m = Ok (out ++ s) /\ emits s sk ns.

Lemma emits_app s1 s2 sk1 sk2 ns1 ns2 : emits s1 sk1 ns1 -> emits s2 sk2 ns2 -> emits (s1 ++ s2) (sk1 ++ sk2) (ns1 ++ ns2).
Proof.
  intros [H1 L1] [H2 L2]. split; [by rewrite List.filter_app, H1, H2|]. intros [Hn1 Hn2]%Forall_app b. by rewrite <- app_assoc, (L1 Hn1), (L2 Hn2), app_assoc.
Qed.
Lemma emits_nil : emits [] [] [].
Proof. by split. Qed.
Lemma marked_slot id : marked mk id = true -> id ∈ marks_of c.
Proof.
  unfold marked, image_token, audio_token, slot_of, marks_of. cbn [fst snd]. rewrite Bool.orb_true_iff, !bool_decide_eq_true. destruct (c_image c) as [[[a b] d]|], (c_audio c) as [[[e f] g]|]; cbn; intros [[= <-]|[= <-]] || intros [|]; try done; set_solver.
Qed.
Lemma emits_text ids : Forall (fun id => id ∉ marks_of c) ids -> emits ids [] [].
Proof.
  intros Hi. split.
  - induction Hi as [|id ids Hid _ IH]; [done|]. cbn [List.filter]. unfold is_mark at 1. by rewrite bool_decide_false.
  - intros _ b. apply lens_skip. apply (Forall_impl _ _ _ Hi). intros id Hid. destruct (marked mk id) eqn:Hm; [by apply marked_slot in Hm|done].
Qed.
(** The marks that are not slots. *)
Definition frames : list Z :=
  [c_bos c; c_turn c; c_end c; c_think c] ++ match c_image c with Some (a, _, b) => [a; b] | None => [] end
  ++ match c_audio c with Some (a, _, b) => [a; b] | None => [] end ++ match c_closed c with Some (a, b) => [a; b] | None => [] end.
Lemma frame_unmarked id : id ∈ frames -> marked mk id = false /\ id ∈ marks_of c.
Proof.
  revert Hnd. unfold frames, marks_of, marked, image_token, audio_token, slot_of. cbn [fst snd]. intros Hn Hid. rewrite Bool.orb_false_iff, !bool_decide_eq_false.
  destruct (c_image c) as [[[a b] d]|], (c_audio c) as [[[e f] g]|], (c_closed c) as [[x y]|]; cbn [triple app fmap option_fmap option_map] in *; rewrite ?NoDup_cons in Hn; (split; [split|]); try (intros [= ->]); set_solver.
Qed.
Lemma emits_mark id : id ∈ frames -> emits [id] [id] [].
Proof.
  intros [Hm Hin]%frame_unmarked. split; [cbn [List.filter]; unfold is_mark; by rewrite bool_decide_true|]. intros _ b. cbn [app]. by apply lens_unmarked.
Qed.
Lemma emits_slots a s b n : c_image c = Some (a, s, b) \/ c_audio c = Some (a, s, b) -> 0 <= n -> emits (slot_marks (a, s, b) n) (slot_marks (a, s, b) n) [n].
Proof.
  intros Hm Hn. assert (marked mk s = true /\ a ∈ frames /\ b ∈ frames) as (Hs'&Ha&Hb).
  { unfold marked, image_token, audio_token, slot_of, frames. destruct Hm as [-> | ->]; cbn [fst snd fmap option_fmap option_map]; (split; [rewrite Bool.orb_true_iff, !bool_decide_eq_true; auto|]); set_solver. }
  destruct (frame_unmarked a Ha) as [Ma Ia]. destruct (frame_unmarked b Hb) as [Mb Ib]. pose proof (marked_slot s Hs') as Is. split.
  - unfold slot_marks, slots_for. cbn [app]. assert (forall l, Forall (fun id => id ∈ marks_of c) l -> List.filter is_mark l = l) as Hall.
    { induction 1 as [|x l Hx _ IH]; [done|]. cbn [List.filter]. unfold is_mark at 1. rewrite bool_decide_true by done. by rewrite IH. }
    apply Hall. constructor; [done|]. apply Forall_app. split; [by apply Forall_replicate|by constructor].
  - intros Hpos b'. inversion Hpos. by apply lens_slots.
Qed.
Context (Hsoft : forall x b n, soft_tokens x b = Ok n -> 0 <= n) (Hcount : forall x, 0 <= count x).

Lemma writes_text text out : chars_ok text -> zlen text < 2 ^ 29 -> writes (push_text tb is_numeric depth t text out) out [] [].
Proof. intros Hc Hn. destruct (encode_tokens t _ Hs Ht tb is_numeric depth text Hc Hn) as (ids&He&Hp). exists ids. unfold push_text. rewrite He. split; [done|by apply emits_text]. Qed.
Lemma writes_then m k out sk1 ns1 sk2 ns2 : writes m out sk1 ns1 -> (forall out', writes (k out') out' sk2 ns2) -> writes (m ≫= k) out (sk1 ++ sk2) (ns1 ++ ns2).
Proof.
  intros (s1&->&He1) Hk. destruct (Hk (out ++ s1)) as (s2&Hs2&He2). exists (s1 ++ s2). cbn [mbind outcome_bind]. rewrite Hs2, app_assoc. split; [done|by apply emits_app].
Qed.
Lemma writes_after m out s0 sk0 ns0 sk ns : emits s0 sk0 ns0 -> writes m (out ++ s0) sk ns -> writes m out (sk0 ++ sk) (ns0 ++ ns).
Proof. intros He0 (s&->&He). exists (s0 ++ s). rewrite app_assoc. split; [done|by apply emits_app]. Qed.
Lemma writes_ok out : writes (Ok out) out [] [].
Proof. exists []. by rewrite app_nil_r. Qed.
Lemma in_frames : c_bos c ∈ frames /\ c_turn c ∈ frames /\ c_end c ∈ frames /\ c_think c ∈ frames.
Proof. unfold frames. set_solver. Qed.
Lemma writes_close text out : chars_ok text -> zlen text < 2 ^ 29 -> writes (close_turn tb is_numeric depth t c text out) out [c_end c] [].
Proof.
  intros Hc Hn. apply (writes_then _ _ _ [] [] [c_end c] []); [by apply writes_text|]. intros out'. apply (writes_after _ _ [c_end c] [c_end c] [] [] []); [apply emits_mark, in_frames|]. apply writes_text; [by constructor|done].
Qed.
Lemma writes_model text out : (forall x, text = Some x -> chars_ok x /\ zlen x < 2 ^ 28) -> writes (model_turn tb is_numeric depth t c text out) out (model_marks c (match text with Some _ => true | None => false end)) [].
Proof.
  intros Hx. destruct text as [x|]; cbn [model_turn model_marks]; [|apply writes_ok]. destruct (Hx x eq_refl) as [Hc Hn]. apply (writes_after _ _ [c_turn c] [c_turn c] [] [c_end c] []); [apply emits_mark, in_frames|].
  apply writes_close; [rewrite !Forall_app; split_and!; [by repeat constructor|by constructor|done]|]. rewrite !zlen_app. change (zlen (str "model")) with 5. change (zlen [10]) with 1. lia.
Qed.
Lemma fold_slots marks size media out : c_image c = Some marks \/ c_audio c = Some marks -> (forall x, 0 <= size x) ->
  exists s, fold_left (fun out x => slots_for marks (size x) out) media out = out ++ s /\ emits s (media_marks (Some marks) size media) (map size media).
Proof.
  intros Hm Hsz. destruct marks as [[a s] b]. revert out. induction media as [|x media IH]; intros out; [exists []; rewrite app_nil_r; split; [done|apply emits_nil]|]. cbn [fold_left map]. destruct (IH (slots_for (a, s, b) (size x) out)) as (s'&->&He).
  exists (slot_marks (a, s, b) (size x) ++ s'). split; [unfold slot_marks, slots_for; by rewrite <- !app_assoc|]. cbn [media_marks map concat] in *. apply (emits_app _ _ _ _ [size x]); [by apply emits_slots|done].
Qed.
(** The part of [turn_of] for one kind of media: the text before it is
    written only if there is some. *)
Lemma writes_media marks size media text out (k : list Z * list Z -> outcome unit (list Z)) extra sk ns : marks = c_image c \/ marks = c_audio c -> (forall x, 0 <= size x) -> chars_ok text -> zlen text < 2 ^ 28 ->
  (forall text' out', chars_ok text' -> zlen text' <= zlen text -> writes (k (text' ++ extra, out')) out' sk ns) ->
  writes ('(text', out') ← (match marks_for marks media with
            | Some mk' => o ← push_text tb is_numeric depth t text out; Ok ([], fold_left (fun o x => slots_for mk' (size x) o) media o)
            | None => Ok (text, out) end); k (text' ++ extra, out'))
         out (media_marks marks size media ++ sk) ((match marks with Some _ => map size media | None => [] end) ++ ns).
Proof.
  intros Hm Hsz Hc Hn Hk. assert (media_marks marks size [] = []) as Hnil by (destruct marks; done).
  destruct media as [|x media]; cbn [marks_for].
  { rewrite Hnil. cbn [mbind outcome_bind app]. replace (match marks with Some _ => map size [] | None => [] end) with (@nil Z) by (by destruct marks). apply Hk; [done|lia]. }
  destruct marks as [marks|]; cbn [marks_for media_marks]; [|cbn [mbind outcome_bind app]; apply Hk; [done|lia]].
  destruct (writes_text text out Hc ltac:(lia)) as (s1&->&He1). cbn [mbind outcome_bind]. destruct (fold_slots marks size (x :: media) (out ++ s1)) as (s2&->&He2); [destruct Hm as [<-|<-]; auto|done|]. cbv beta iota.
  change (writes (k ([] ++ extra, (out ++ s1) ++ s2)) out (media_marks (Some marks) size (x :: media) ++ sk) (map size (x :: media) ++ ns)).
  destruct (Hk [] ((out ++ s1) ++ s2)) as (s3&->&He3); [constructor|change (zlen (@nil Z)) with 0; apply zlen_nonneg|]. exists (s1 ++ s2 ++ s3). rewrite <- !app_assoc. split; [done|]. exact (emits_app s1 (s2 ++ s3) [] _ [] _ He1 (emits_app s2 s3 _ _ _ _ He2 He3)).
Qed.
Lemma image_size_ok x : 0 <= image_size soft_tokens c x.
Proof. unfold image_size. destruct (soft_tokens x (c_budget c)) as [n| |] eqn:Hn; [by eapply Hsoft|lia|lia]. Qed.
Lemma writes_turn m out : zlen (content m) < 2 ^ 27 -> writes (turn_of tb is_numeric depth t soft_tokens count c m out) out (message_marks c soft_tokens count m) (sizes c soft_tokens count m).
Proof.
  intros Hm. destruct (message_text_ok m) as [Htc Htn]. destruct (trim_ok _ Htc) as [Hc Hn]. unfold turn_of, message_marks, sizes. cbv zeta. set (text := (match role m with System => str "system" | _ => str "user" end) ++ [10]).
  assert (chars_ok text /\ zlen text <= 7) as [Hxc Hxn] by (unfold text; destruct (role m); (split; [by repeat constructor|done])). clearbody text.
  apply (writes_after _ _ [c_turn c] [c_turn c] [] _ _); [apply emits_mark, in_frames|]. pose proof (zlen_nonneg (trim (text_of m))).
  apply (writes_media (c_image c) (image_size soft_tokens c) (images m) text _ (fun '(tx, o) => '(tx, o) ← (match marks_for (c_audio c) (clips m) with
            | Some mk' => o ← push_text tb is_numeric depth t tx o; Ok ([], fold_left (fun o x => slots_for mk' (count x) o) (clips m) o)
            | None => Ok (tx, o) end); close_turn tb is_numeric depth t c tx o) (trim (text_of m))); [by left|apply image_size_ok|done|lia|].
  intros tx o Htx Hlx. cbv beta iota. set (tx2 := tx ++ trim (text_of m)). assert (chars_ok tx2 /\ zlen tx2 < 2 ^ 28) as [Hc2 Hn2] by (unfold tx2; rewrite Forall_app, zlen_app; split; [done|lia]). clearbody tx2.
  pose proof (writes_media (c_audio c) count (clips m) tx2 o (fun '(tx, o) => close_turn tb is_numeric depth t c tx o) [] [c_end c] []) as Hw. rewrite app_nil_r in Hw.
  destruct Hw as (s&Hsw&He); [by right|done|done|done| |].
  { intros tx3 o3 Hc3 Hn3. rewrite app_nil_r. apply writes_close; [done|lia]. }
  exists s. split; [|done]. rewrite <- Hsw. destruct (match marks_for (c_audio c) (clips m) with Some _ => _ | None => _ end) as [[u v]| |]; [|done|done]. cbn [mbind outcome_bind]. by rewrite app_nil_r.
Qed.
(** The messages that show media, after the first. *)
Definition speaks (m : Message) : bool := match role m with RModel => false | _ => true end.
Lemma writes_turns ms model out : (forall x, model = Some x -> chars_ok x) -> zlen (default [] model) + zsum (fun m => zlen (content m)) ms < 2 ^ 27 ->
  writes (turns_from tb is_numeric depth t soft_tokens count c ms model out) out (turns_marks c soft_tokens count ms (match model with Some _ => true | None => false end))
    (concat (map (sizes c soft_tokens count) (List.filter speaks ms))).
Proof.
  revert model out. induction ms as [|m ms IH]; intros model out Hmod Hn; cbn [turns_from turns_marks List.filter].
  - apply writes_model. intros x ->. split; [by apply Hmod|]. cbn [default] in Hn. change (zsum (fun m => zlen (content m)) []) with 0 in Hn. change (zlen x + 0 < 2 ^ 27) in Hn. lia.
  - change (zsum (fun m => zlen (content m)) (m :: ms)) with (zlen (content m) + zsum (fun m => zlen (content m)) ms) in Hn. destruct (message_text_ok m) as [Htc Htn]. destruct (trim_ok _ Htc) as [Hc Hnt].
    pose proof (zlen_nonneg (content m)). pose proof (zlen_nonneg (default [] model)). assert (0 <= zsum (fun m => zlen (content m)) ms) by (clear; induction ms as [|m ms IH]; [done|]; unfold zsum in *; cbn [foldr]; pose proof (zlen_nonneg (content m)); lia).
    assert (forall text, writes (out ← model_turn tb is_numeric depth t c model text; out ← turn_of tb is_numeric depth t soft_tokens count c m out; turns_from tb is_numeric depth t soft_tokens count c ms None out) text
      (model_marks c (match model with Some _ => true | None => false end) ++ message_marks c soft_tokens count m ++ turns_marks c soft_tokens count ms false) (sizes c soft_tokens count m ++ concat (map (sizes c soft_tokens count) (List.filter speaks ms)))) as Hturn.
    { intros o. apply (writes_then _ _ _ _ [] _ _). { apply writes_model. intros x ->. split; [by apply Hmod|]. cbn [default] in Hn. change (zlen x + (zlen (content m) + zsum (fun m => zlen (content m)) ms) < 2 ^ 27) in Hn. lia. }
      intros o1. apply writes_then; [apply writes_turn; lia|]. intros o2. apply (IH None); [done|]. cbn [default]. change (zlen (@nil Z)) with 0 in *. lia. }
    unfold speaks at 1. destruct (role m) eqn:Hr; [apply Hturn|apply Hturn|].
    apply (IH (Some _)); [intros x [= <-]; apply Forall_app; split; [destruct model; [by apply Hmod|constructor]|done]|]. cbn [default]. change (zlen (default [] model ++ trim (text_of m)) + zsum (fun m => zlen (content m)) ms < 2 ^ 27). rewrite zlen_app. lia.
Qed.
Lemma writes_system system think out : (forall x, system = Some x -> chars_ok x) -> zlen (default [] system) < 2 ^ 27 ->
  writes (system_turn tb is_numeric depth t c system think out) out (match system, think with None, false => [] | _, _ => [c_turn c] ++ (if think then [c_think c] else []) ++ [c_end c] end) [].
Proof.
  intros Hx Hn. assert (chars_ok (default [] system)) as Hc by (destruct system; [by apply Hx|constructor]). destruct (trim_ok _ Hc) as [Htc Htn].
  assert (chars_ok (str "system" ++ [10])) as Hsys by (by repeat constructor).
  assert (writes (let out := out ++ [c_turn c] in let text := str "system" ++ [10] in
    '(text, out) ← (if think then out ← push_text tb is_numeric depth t text out; Ok ([10], out ++ [c_think c]) else Ok (text, out)); close_turn tb is_numeric depth t c (text ++ trim (default [] system)) out)
    out ([c_turn c] ++ (if think then [c_think c] else []) ++ [c_end c]) []) as Hmain.
  { cbv zeta. apply (writes_after _ _ [c_turn c] [c_turn c] [] _ []); [apply emits_mark, in_frames|]. destruct think.
    - destruct (writes_text (str "system" ++ [10]) (out ++ [c_turn c])) as (s&->&He); [done|done|]. cbn [mbind outcome_bind]. destruct (writes_close ([10] ++ trim (default [] system)) (((out ++ [c_turn c]) ++ s) ++ [c_think c])) as (s2&->&He2).
      + apply Forall_app. split; [by constructor|done].
      + rewrite zlen_app. change (zlen [10]) with 1. lia.
      + exists (s ++ [c_think c] ++ s2). rewrite <- !app_assoc. split; [done|]. exact (emits_app s _ [] _ [] [] He (emits_app [c_think c] s2 [c_think c] _ [] [] (emits_mark _ (proj2 (proj2 (proj2 in_frames)))) He2)).
    - cbn [mbind outcome_bind]. apply writes_close; [by apply Forall_app|]. rewrite zlen_app. change (zlen (str "system" ++ [10])) with 7. lia. }
  unfold system_turn. destruct system, think; [exact Hmain|exact Hmain|exact Hmain|apply writes_ok].
Qed.
Lemma writes_opening think out : writes (out ← push_text tb is_numeric depth t (str "model" ++ [10]) (out ++ [c_turn c]);
    match c_closed c, think with Some (open, close), false => out ← push_text tb is_numeric depth t (str "thought" ++ [10]) (out ++ [open]); Ok (out ++ [close]) | _, _ => Ok out end) out
    ([c_turn c] ++ match c_closed c, think with Some (open, close), false => [open; close] | _, _ => [] end) [].
Proof.
  apply (writes_after _ _ [c_turn c] [c_turn c] [] _ []); [apply emits_mark, in_frames|]. apply (writes_then _ _ _ [] [] _ []); [apply writes_text; [by repeat constructor|done]|]. intros o.
  destruct (c_closed c) as [[open close]|] eqn:Hcl; [|apply writes_ok]. destruct think; [apply writes_ok|]. assert (open ∈ frames /\ close ∈ frames) as [Ho Hc] by (unfold frames; rewrite Hcl; set_solver).
  apply (writes_after _ _ [open] [open] [] [close] []); [by apply emits_mark|]. apply (writes_then _ _ _ [] [] [close] []); [apply writes_text; [by repeat constructor|done]|]. intros o2. exists [close]. split; [done|by apply emits_mark].
Qed.
Lemma writes_chat ms think out : zsum (fun m => zlen (content m)) ms < 2 ^ 27 ->
  writes (chat_encode tb is_numeric depth t soft_tokens count c ms think out) out (skeleton c soft_tokens count ms think) (concat (map (sizes c soft_tokens count) (List.filter speaks (snd (split_system ms))))).
Proof.
  intros Hn. assert (exists system rest, split_system ms = (system, rest) /\ (forall x, system = Some x -> chars_ok x) /\ zlen (default [] system) < 2 ^ 27 /\ zsum (fun m => zlen (content m)) rest < 2 ^ 27) as (system&rest&Hsp&Hsc&Hsn&Hrn).
  { destruct ms as [|m rest]; [by exists None, []|]. change (zsum (fun m => zlen (content m)) (m :: rest)) with (zlen (content m) + zsum (fun m => zlen (content m)) rest) in Hn. pose proof (zlen_nonneg (content m)).
    assert (0 <= zsum (fun m => zlen (content m)) rest) by (clear; induction rest as [|m ms IH]; [done|]; unfold zsum in *; cbn [foldr]; pose proof (zlen_nonneg (content m)); lia). destruct (message_text_ok m) as [Htc Htn]. unfold split_system.
    destruct (role m); eexists _, _; (split; [done|]); (split; [by intros x [= <-] || done|]); (split; [|done || lia]); cbn [default]; [change (zlen (text_of m) < 2 ^ 27); lia|done|done]. }
  unfold chat_encode, skeleton. rewrite Hsp. cbn [snd]. set (ns := concat _). apply (writes_after _ _ [c_bos c] [c_bos c] [] _ ns); [apply emits_mark, in_frames|]. apply (writes_then _ _ _ _ [] _ ns); [by apply writes_system|]. intros o.
  rewrite <- (app_nil_r ns). apply writes_then; [by apply (writes_turns rest None)|]. intros o2. apply writes_opening.
Qed.
End Prompt.

(** ** The prompt and the engine's slots *)
Section Media.
Context (soft_tokens : Z -> Z -> result Z) (count : Z -> Z) (c : Chat).
Definition size_of (x : Shown) : Z := match x with Image x => image_size soft_tokens c x | Clip x => count x end.
(** The tokenizer has marks for what is shown, and none of it is empty. *)
Definition shows (ms : list Message) : Prop :=
  Forall (fun x => (match x with Image _ => c_image c <> None | Clip _ => c_audio c <> None end) /\ 0 < size_of x) (media_of ms).
Definition media_in (m : Message) : list Shown := map Image (images m) ++ map Clip (clips m).
Lemma sizes_of m : Forall (fun x => (match x with Image _ => c_image c <> None | Clip _ => c_audio c <> None end) /\ 0 < size_of x) (media_in m) -> sizes c soft_tokens count m = map size_of (media_in m).
Proof.
  unfold media_in, sizes. rewrite Forall_app, map_app, !map_map. intros [Hi Ha]. f_equal.
  - destruct (c_image c); [done|]. destruct (images m) as [|x l]; [done|]. apply Forall_cons in Hi as [[Hi _] _]. done.
  - destruct (c_audio c); [done|]. destruct (clips m) as [|x l]; [done|]. apply Forall_cons in Ha as [[Ha _] _]. done.
Qed.
Lemma shown_rest k ms : (0 < k)%nat -> map snd (filter (fun p => shown p = true) (imap (fun i x => ((k + i)%nat, x)) ms)) = List.filter speaks ms.
Proof.
  intros Hk. revert k Hk. induction ms as [|m ms IH]; intros k Hk; [done|]. rewrite imap_cons, filter_cons. cbn [List.filter]. assert (shown ((k + 0)%nat, m) = speaks m) as Hsh.
  { unfold shown, speaks. cbn [fst snd]. destruct (role m); [apply bool_decide_true; lia|done|done]. }
  assert (map snd (filter (fun p => shown p = true) (imap ((fun i x => ((k + i)%nat, x)) ∘ S) ms)) = List.filter speaks ms) as Hrest.
  { rewrite <- (IH (S k)) by lia. do 2 f_equal. apply imap_ext. intros i x _. cbn. f_equal. lia. }
  rewrite Hsh. destruct (speaks m); [|rewrite decide_False by done; exact Hrest]. rewrite decide_True by done. cbn [map snd]. f_equal. exact Hrest.
Qed.
Lemma media_shown ms : media_of ms = concat (map media_in (List.filter speaks (snd (split_system ms)))).
Proof.
  unfold media_of, media_in. assert (map snd (filter (fun p => shown p = true) (indexed ms)) = List.filter speaks (snd (split_system ms))) as <-.
  - destruct ms as [|m ms]; [done|]. unfold indexed. rewrite imap_cons, filter_cons. assert (map snd (filter (fun p => shown p = true) (imap ((fun i x => (i, x)) ∘ S) ms)) = List.filter speaks ms) as Hrest by (by apply (shown_rest 1); lia).
    unfold split_system. destruct (decide (shown (0%nat, m) = true)) as [Hsh|Hsh]; unfold shown in Hsh; cbn [fst snd] in Hsh; destruct (role m) eqn:Hr; cbn [snd List.filter]; unfold speaks at 1; rewrite ?Hr; try done.
    cbn [map snd]. by f_equal.
  - by rewrite map_map.
Qed.
Lemma sizes_shown ms : shows ms -> concat (map (sizes c soft_tokens count) (List.filter speaks (snd (split_system ms)))) = map size_of (media_of ms) /\ Forall (Z.lt 0) (map size_of (media_of ms)).
Proof.
  unfold shows. rewrite media_shown. generalize (List.filter speaks (snd (split_system ms))) as l. intros l Hl. split.
  - induction l as [|m l IH]; [done|]. cbn [map concat] in *. apply Forall_app in Hl as [Hm Hl]. by rewrite map_app, sizes_of, IH.
  - apply Forall_map. apply (Forall_impl _ _ _ Hl). by intros x [_ Hx].
Qed.
End Media.
Lemma slots_fit prompt mk soft width : Forall2 (fun n s => n * width = zlen s) (map snd (runs mk 0 None prompt)) soft -> exists sl, Engine.slots prompt mk soft width = Ok sl /\ map snd sl = soft.
Proof.
  unfold Engine.slots. generalize (runs mk 0 None prompt) as rs. intros rs Hf. assert (length rs = length soft) as Hlen by (apply Forall2_length in Hf; by rewrite length_map in Hf). unfold zlen at 1 2. rewrite Hlen, Z.eqb_refl. cbn [negb orb].
  assert (existsb (fun '(r, s) => negb (snd r * width =? zlen s)) (zip rs soft) = false) as ->.
  { clear Hlen. revert soft Hf. induction rs as [|r rs IH]; intros soft Hf; [done|]. cbn [map] in Hf. inversion Hf as [|? s ? soft' Hr Hrs]; subst. cbn. rewrite (proj2 (Z.eqb_eq _ _) Hr). by apply IH. }
  eexists. split; [done|]. clear Hf. revert soft Hlen. induction rs as [|r rs IH]; intros [|s soft] Hlen; try done. cbn. f_equal. apply IH. by injection Hlen.
Qed.

(** ** A sample conversation

    A tokenizer with a token for each ASCII character and the special tokens
    of the format but audio's; the person writes the mark that ends a turn,
    under an image of two soft tokens. *)
Definition sample_names : list (list Z) := map str ["<bos>"; "<|turn>"; "<turn|>"; "<|think|>"; "<|image>"; "<|image|>"; "<image|>"]%string.
Definition sample_chat_tokenizer : Tokenizer :=
  mkTokenizer 0 NONE [0; 5; 12; 19; 28; 36; 45; 53] (concat sample_names) [0; 1; 2; 3; 4; 5; 6] (zrep 256 NONE) (map (fun c => 16 + c) (seqZ 0 128)) [] [] [] (empty_merges 0) [] (NONE, NONE).
Definition sample_chat : Chat := mkChat 0 1 2 3 (Some (4, 5, 6)) None 280 None.
Definition sample_messages : list Message := [mkMessage User (str "<turn|>") [7] []; mkMessage RModel (str "Hi") [] []].
Lemma sample_gemma4 : gemma4 sample_chat_tokenizer = Ok sample_chat.
Proof. vm_compute. reflexivity. Qed.
Lemma sample_sound : sound_tables sample_chat_tokenizer.
Proof.
  assert (forall l n, forallb (fun x => (0 <=? x) && (x <=? n)) l = true -> Forall (fun o => 0 <= o <= n) l) as Hin.
  { intros l n Hl. apply Forall_forall. intros x Hx%list_elem_of_In. rewrite forallb_forall in Hl. specialize (Hl x Hx). lia. }
  assert (forall l, forallb (fun x => (0 <=? x) && (x <? 256)) l = true -> bytes_ok l) as Hb.
  { intros l Hl. apply Forall_forall. intros x Hx%list_elem_of_In. rewrite forallb_forall in Hl. specialize (Hl x Hx). unfold u8, fits. lia. }
  assert (forall x y z l, x <= y -> up (y :: l) -> z = x -> up (z :: y :: l)) as Hup.
  { intros x y z l Hxy [Hy Hl] ->. split; [|by split]. constructor; [done|]. apply (Forall_impl _ _ _ Hy). cbn. lia. }
  split; [|reflexivity|by left|constructor|reflexivity|reflexivity]. split; [apply up_ascending|apply Hin; vm_compute; reflexivity|apply Hb; vm_compute; reflexivity|apply up_ascending].
  - cbn [offsets sample_chat_tokenizer]. do 7 (eapply Hup; [| |reflexivity]; [lia|]). by split; [constructor|].
  - cbn [special sample_chat_tokenizer]. do 6 (eapply Hup; [| |reflexivity]; [lia|]). by split; [constructor|].
Qed.
Lemma sample_spells : spells sample_chat_tokenizer (fun id => id ∉ marks_of sample_chat).
Proof.
  assert (forall l, forallb (fun id => (id =? NONE) || (6 <? id)) l = true -> Forall (fun id => id = NONE \/ id ∉ marks_of sample_chat) l) as H.
  { intros l Hl. apply Forall_forall. intros x Hx%list_elem_of_In. rewrite forallb_forall in Hl. specialize (Hl x Hx). destruct (Z.eqb_spec x NONE); [by left|]. right. cbn in Hl. unfold marks_of. cbn. rewrite !elem_of_cons, elem_of_nil. lia. }
  split; [apply H; vm_compute; reflexivity|constructor|apply H; vm_compute; reflexivity|by left|constructor|constructor|]. exists 2%nat, []. split; [exact (empty_merges_spec 0)|constructor].
Qed.
Lemma sample_marks_apart : NoDup (marks_of sample_chat).
Proof. change (NoDup [0; 1; 2; 3; 4; 5; 6]). repeat (apply NoDup_cons_2; [rewrite ?elem_of_cons, elem_of_nil; lia|]). apply NoDup_nil_2. Qed.
Definition two_soft (x b : Z) : result Z := Ok 2.



(** The prompt has one run of slots for each image and clip that the engine
    makes soft tokens for, in the same order and of their sizes; so the engine
    places every set of soft tokens, and in the slots of its own image or
    clip. *)
Theorem every_medium_has_its_slots tb is_numeric depth t soft_tokens count c ms think :
  sound_tables t -> spells t (fun id => id ∉ marks_of c) -> NoDup (marks_of c) ->
  (forall x b n, soft_tokens x b = Ok n -> 0 <= n) -> (forall x, 0 <= count x) -> zsum (fun m => zlen (content m)) ms < 2 ^ 27 ->
  shows soft_tokens count c ms ->
  exists out, chat_encode tb is_numeric depth t soft_tokens count c ms think [] = Ok out
    /\ map snd (runs (image_token c, audio_token c) 0 None out) = map (size_of soft_tokens count c) (media_of ms)
    /\ forall soft width, Forall2 (fun x s => size_of soft_tokens count c x * width = zlen s) (media_of ms) soft ->
         exists sl, Engine.slots out (image_token c, audio_token c) soft width = Ok sl /\ map snd sl = soft.
Proof.
  intros Hs Ht Hnd Hsoft Hcount Hn Hsh. destruct (writes_chat tb is_numeric depth t soft_tokens count c Hs Ht Hnd Hsoft Hcount ms think [] Hn) as (out&Hc&_&Hr).
  destruct (sizes_shown soft_tokens count c ms Hsh) as [Hsz Hpos]. rewrite Hsz in Hr. specialize (Hr Hpos []). unfold lens in Hr. rewrite !app_nil_r in Hr.
  exists out. split; [done|]. split; [done|]. intros soft width Hf. apply slots_fit. rewrite Hr. by apply Forall2_fmap_l.
Qed.
Lemma slots_witness : exists out, chat_encode (mkTables [] [] [] []) (within 48 57) 3 sample_chat_tokenizer two_soft (fun _ => 0) sample_chat sample_messages false [] = Ok out
  /\ map snd (runs (Some 5, None) 0 None out) = [2].
Proof.
  destruct (every_medium_has_its_slots (mkTables [] [] [] []) (within 48 57) 3 sample_chat_tokenizer two_soft (fun _ => 0) sample_chat sample_messages false) as (out&Hout&Hr&_);
    [exact sample_sound|exact sample_spells|exact sample_marks_apart|intros x b n [= <-]; lia|lia|reflexivity| |exists out; split; [exact Hout|exact Hr]].
  constructor; [split; [discriminate|cbn; lia]|constructor].
Defined.
