(* ===== verification/Laya.v ===== *)
(** * Laya's questions ([encoder/laya.rs], [encoder/text.rs])

    A question about a state as the encoder reads it: one sequence of tokens,
    within its budgets, and the place of each option's mark. And a text for an
    embedding, framed and cut to the encoder's capacity. *)
From Stdlib Require Import Sorted.
From S2P Require Import Prelude Bytes Utf8 Engine Sbe Serve Daemon Search Token Table Bpe Tournament Merges Lookup Unicode Pieces Encode Marks Vocab Built Json FromJson Chat.

Definition OPTION_TOKENS : Z := 48.
(** [Kind::name]. *)
Definition kind_name (k : Kind) : list Z := match k with Choice => str "choice" | Score => str "score" | Noul => str "noul" end.
Record Question := mkQuestion { q_kind : Kind; q_instructions : list Z; q_options : list (list Z * list Z) }.
Definition described (label text : list Z) : list Z := match text with [] => label | _ => label ++ str ": " ++ text end.
Definition noul_option (options : list (list Z * list Z)) (label default_ : list Z) : list Z :=
  let d := from_option snd [] (List.find (fun o => bool_decide (fst o = label)) options) in
  label ++ str ": " ++ match d with [] => default_ | _ => d end.
Definition rendered (q : Question) : list (list Z) :=
  match q_kind q with
  | Choice => map (fun o => described (fst o) (snd o)) (q_options q)
  | Score => imap (fun i o => str "level " ++ decimal (Z.of_nat i) ++ str ": " ++ snd o) (q_options q)
  | Noul => [noul_option (q_options q) (str "false") (str "no, the statement does not hold"); noul_option (q_options q) (str "true") (str "yes, the statement holds")]
  end.

Record Budget := mkBudget { b_total : Z; b_head : Z }.
Record Frame := mkFrame { f_cls : Z; f_sep : Z; f_mask : Z }.
Record Builder := mkBuilder { bu_tok : Tokenizer; bu_frame : Frame; bu_budget : Budget }.

(** [str::replace] by one space; an empty pattern is found around every
    character. *)
Fixpoint replace_from (fuel : nat) (pat s : list Z) : list Z :=
  match fuel, s with
  | S fuel, c :: s' => if starts_with s pat then 32 :: replace_from fuel pat (drop (length pat) s) else c :: replace_from fuel pat s'
  | _, _ => s
  end.
Definition replace (pat s : list Z) : list Z :=
  match pat with [] => 32 :: concat (map (fun c => [c; 32]) s) | _ => replace_from (length s) pat s end.
Definition truncate (n : Z) (l : list Z) : list Z := ztake n l.
(** [saturating_sub]. *)
Definition sat_sub (a b : Z) : Z := Z.max 0 (a - b).

Section Building.
Context (tb : Tables) (is_numeric : Z -> bool) (depth : nat).
Definition tokens_of (t : Tokenizer) (text : list Z) : result (list Z) :=
  match Encode.encode tb is_numeric depth t text with Ok ids => Ok ids | _ => Panic end.
Definition tokens (b : Builder) (text : list Z) : result (list Z) :=
  m ← token_bytes (bu_tok b) (f_mask (bu_frame b));
  tokens_of (bu_tok b) (replace (default [] (utf8_chars (utf8_lossy m))) text).
Definition option_tokens (b : Builder) (o : list Z) : result (list Z) :=
  t ← tokens b (32 :: o); Ok (f_mask (bu_frame b) :: truncate OPTION_TOKENS t).
Fixpoint each_option (b : Builder) (l : list (list Z)) : result (list (list Z)) :=
  match l with [] => Ok [] | o :: l => x ← option_tokens b o; xs ← each_option b l; Ok (x :: xs) end.
Definition used_by (l : list (list Z)) : Z := zsum zlen l.
(** The options cut to an equal share, if they overrun the head's budget. *)
Definition cut_options (head : Z) (l : list (list Z)) : list (list Z) :=
  if head <? used_by l + 16 then map (truncate (Z.max 4 (sat_sub head 16 / Z.max 1 (zlen l)))) l else l.
Definition head_of (b : Builder) (q : Question) : result (list Z * list (list Z)) :=
  opts ← each_option b (rendered q);
  let opts := cut_options (b_head (bu_budget b)) opts in
  h ← tokens b (kind_name (q_kind q) ++ str " question: " ++ q_instructions q);
  Ok (truncate (Z.max 8 (sat_sub (b_head (bu_budget b)) (used_by opts))) h, opts).
(** The loop over the options: where each starts. *)
Fixpoint markers_from (at_ : Z) (l : list (list Z)) : list Z :=
  match l with [] => [] | o :: l => at_ :: markers_from (at_ + zlen o) l end.
Definition sequence (b : Builder) (q : Question) (state : list Z) (keep_end : bool) : result (list Z * list Z) :=
  '(head, opts) ← head_of b q;
  let fr := bu_frame b in let total := b_total (bu_budget b) in
  let ids := [f_cls fr] ++ head ++ [f_sep fr] in
  let markers := markers_from (zlen ids) opts in
  let ids := ids ++ concat opts ++ [f_sep fr] in
  let room := Z.min (sat_sub total (zlen ids + 1)) (zlen state) in
  kept ← or_panic (if keep_end then zslice state (zlen state - room) (zlen state) else zslice state 0 room);
  let ids := truncate total (ids ++ kept ++ [f_sep fr]) in
  match last markers with
  | Some m => if total <=? m then Err (TooLong (m + 1) total) else Ok (ids, markers)
  | None => Ok (ids, markers)
  end.

(** ** [encoder/text.rs] *)
Fixpoint first_special (t : Tokenizer) (names : list string) : result (option Z) :=
  match names with [] => Ok None | n :: names => o ← special_named t n; match o with Some id => Ok (Some id) | None => first_special t names end end.
Fixpoint debug_names (names : list string) : Prelude.text :=
  match names with [] => [] | [n] => [Dbg (str n)] | n :: names => Dbg (str n) :: Lit ", " :: debug_names names end.
Definition special_of (t : Tokenizer) (names : list string) : result Z :=
  o ← first_special t names; ok_or o (Format (Lit "the tokenizer has none of " :: Lit "[" :: debug_names names ++ [Lit "]"])).
Fixpoint each_question (b : Builder) (state : list Z) (keep_end : bool) (qs : list Question) : result (list (list Z * list Z)) :=
  match qs with [] => Ok [] | q :: qs => x ← sequence b q state keep_end; xs ← each_question b state keep_end qs; Ok (x :: xs) end.
Definition sequences (tok : option Tokenizer) (state : list Z) (conversation : bool) (qs : list Question) (budget : Budget) : result (list (list Z * list Z)) :=
  t ← ok_or tok (Format [Lit "the model directory has no tokenizer.tok"]);
  cls ← special_of t ["<bos>"; "[CLS]"]%string; sep ← special_of t ["<eos>"; "[SEP]"]%string; mask ← special_of t ["<mask>"; "[MASK]"]%string;
  let b := mkBuilder t (mkFrame cls sep mask) budget in
  st ← tokens b state;
  each_question b st conversation qs.
(** The tokens of a text for [embed]; [cap] is the encoder's capacity, [frame]
    what its tokenizer puts before and after a text. A capacity of none for a
    token after the text underflows. *)
Definition framed (t : Tokenizer) : option Z * option Z :=
  let f id := if id =? NONE then None else Some id in (f (fst (frame t)), f (snd (frame t))).
Definition embed_ids (t : Tokenizer) (cap : Z) (text : list Z) : result (list Z) :=
  let '(before, after) := framed t in
  cls ← (match before with Some id => Ok id | None => special_of t ["<bos>"; "[CLS]"]%string end);
  ids ← tokens_of t text;
  let keep := cap - (match after with Some _ => 1 | None => 0 end) in
  if keep <? 0 then Panic else Ok (truncate keep (cls :: ids) ++ match after with Some a => [a] | None => [] end).
End Building.

(** ** The texts of a question have tokens *)
Notation chars_ok := (Forall (fun c => is_char c = true)).
Lemma replace_from_ok fuel pat s : chars_ok s -> chars_ok (replace_from fuel pat s) /\ (pat <> [] -> zlen (replace_from fuel pat s) <= zlen s).
Proof.
  revert s. induction fuel as [|fuel IH]; intros s Hs; [cbn; split; [done|lia]|]. destruct s as [|c s]; [done|]. cbn [replace_from]. destruct (starts_with (c :: s) pat) eqn:Hp.
  - destruct (IH (drop (length pat) (c :: s)) (Forall_drop _ _ _ Hs)) as [Hc Hn]. split; [by constructor|]. intros Hne. specialize (Hn Hne). destruct pat as [|p pat]; [done|]. rewrite !zlen_cons. cbn [length drop] in *.
    assert (zlen (drop (length pat) s) <= zlen s) by (unfold zlen; rewrite length_drop; lia). lia.
  - apply Forall_cons in Hs as [Hc Hs]. destruct (IH s Hs) as [Hc' Hn]. split; [by constructor|]. intros Hne. rewrite !zlen_cons. specialize (Hn Hne). lia.
Qed.
Lemma replace_ok pat s : chars_ok s -> chars_ok (replace pat s) /\ zlen (replace pat s) <= 2 * zlen s + 1.
Proof.
  intros Hs. pose proof (zlen_nonneg s). destruct pat as [|p pat]; cbn [replace]; [|destruct (replace_from_ok (length s) (p :: pat) s Hs) as [Hc Hn]; split; [done|]; specialize (Hn ltac:(done)); lia].
  assert (chars_ok (concat (map (fun c => [c; 32]) s)) /\ zlen (concat (map (fun c => [c; 32]) s)) = 2 * zlen s) as [Hc Hn].
  { clear -Hs. induction Hs as [|c s Hc Hs [IHc IHn]]; [done|]. cbn [map concat app]. split; [by repeat constructor|]. rewrite !zlen_cons. lia. }
  split; [by constructor|]. rewrite zlen_cons. lia.
Qed.

Section Fits.
Context (tb : Tables) (is_numeric : Z -> bool) (depth : nat) (b : Builder) (Hs : sound_tables (bu_tok b)) (Ht : spells (bu_tok b) (fun _ => True)).
Context (Htotal : 0 <= b_total (bu_budget b)) (Hhead : 0 <= b_head (bu_budget b)).

Definition text_fits (text : list Z) : Prop := chars_ok text /\ zlen text < 2 ^ 27.
Lemma tokens_total text : text_fits text -> exists ids, tokens tb is_numeric depth b text = Ok ids.
Proof.
  intros [Hc Hn]. unfold tokens, tokens_of. rewrite (proj1 (token_bytes_ok _ _ (so_texts _ Hs))). cbn [mbind outcome_bind]. set (pat := default [] _). clearbody pat. destruct (replace_ok pat text Hc) as [Hrc Hrn].
  destruct (encode_tokens _ _ Hs Ht tb is_numeric depth (replace pat text) Hrc ltac:(lia)) as (ids&->&_). by eexists.
Qed.
Lemma zlen_truncate n (l : list Z) : 0 <= n -> zlen (truncate n l) = Z.min n (zlen l).
Proof. apply zlen_ztake. Qed.
(** An option's tokens: its mark and at most 48 more. *)
Definition option_ok (o : list Z) : Prop := (exists l, o = f_mask (bu_frame b) :: l) /\ zlen o <= 1 + OPTION_TOKENS.
Lemma each_option_ok l : Forall (fun o => text_fits (32 :: o)) l -> exists opts, each_option tb is_numeric depth b l = Ok opts /\ length opts = length l /\ Forall option_ok opts.
Proof.
  induction 1 as [|o l Ho Hl (opts&IH&Hlen&Hall)]; [by exists []|]. cbn [each_option]. unfold option_tokens. destruct (tokens_total _ Ho) as [ids ->]. cbn [mbind outcome_bind]. rewrite IH. cbn [mbind outcome_bind].
  eexists. split; [done|]. split; [cbn; lia|]. constructor; [|done]. split; [by eexists|]. rewrite zlen_cons, zlen_truncate by (unfold OPTION_TOKENS; lia). lia.
Qed.
Lemma used_cons o l : used_by (o :: l) = zlen o + used_by l.
Proof. done. Qed.
Lemma used_bound (l : list (list Z)) n : Forall (fun o => zlen o <= n) l -> used_by l <= n * zlen l.
Proof. induction 1 as [|o l Ho _ IH]; [change (0 <= n * 0); lia|]. rewrite used_cons, zlen_cons. lia. Qed.
(** Cutting keeps every mark, and within the head's budget when it allows 4
    tokens an option. *)
Lemma cut_options_ok head l : 0 <= head -> Forall option_ok l -> let l' := cut_options head l in
  length l' = length l /\ Forall option_ok l' /\ (16 + 4 * zlen l <= head -> used_by l' <= head - 16).
Proof.
  intros Hh Hl. cbv zeta. unfold cut_options. destruct (Z.ltb_spec head (used_by l + 16)) as [Hov|]; [|split; [done|]; split; [done|]; lia].
  set (e := Z.max 4 _). assert (4 <= e) by lia. split; [by rewrite length_map|]. split.
  - apply Forall_map. apply (Forall_impl _ _ _ Hl). intros o [[x ->] Ho]. split; [unfold truncate, ztake; destruct (Z.to_nat e) as [|k] eqn:Hk; [lia|]; by eexists|]. rewrite zlen_truncate by lia. lia.
  - intros Hfit. pose proof (zlen_nonneg l). destruct (Z.eq_dec (zlen l) 0) as [Hz|Hz]; [apply zlen_zero in Hz as ->; change (16 + 4 * 0 <= head) in Hfit; change (0 <= head - 16); lia|].
    transitivity (e * zlen (map (truncate e) l)); [apply used_bound, Forall_map, Forall_forall; intros o _; rewrite zlen_truncate by lia; lia|]. rewrite zlen_map.
    unfold e, sat_sub. rewrite (Z.max_r 1), (Z.max_r 0 (head - 16)) by lia. assert (4 <= (head - 16) / zlen l) by (apply Z.div_le_lower_bound; lia). rewrite Z.max_r by lia. pose proof (Z.mul_div_le (head - 16) (zlen l) ltac:(lia)). lia.
Qed.
Definition question_fits (q : Question) : Prop :=
  Forall (fun o => text_fits (32 :: o)) (rendered q) /\ text_fits (kind_name (q_kind q) ++ str " question: " ++ q_instructions q).
Lemma head_of_ok q : question_fits q -> exists head opts, head_of tb is_numeric depth b q = Ok (head, opts) /\ length opts = length (rendered q) /\ Forall option_ok opts
  /\ (16 + 4 * zlen (rendered q) <= b_head (bu_budget b) -> zlen head + used_by opts <= b_head (bu_budget b)).
Proof.
  intros [Ho Hi]. unfold head_of. destruct (each_option_ok _ Ho) as (opts&->&Hlen&Hall). cbn [mbind outcome_bind]. destruct (cut_options_ok (b_head (bu_budget b)) opts Hhead Hall) as (Hl&Hok&Hfit). cbv zeta.
  set (opts' := cut_options _ opts) in *. destruct (tokens_total _ Hi) as [h ->]. cbn [mbind outcome_bind]. eexists _, _. split; [done|]. split; [lia|]. split; [done|]. intros H16.
  assert (zlen opts = zlen (rendered q)) as Hz by (unfold zlen; lia). specialize (Hfit ltac:(lia)). unfold sat_sub. rewrite zlen_truncate by lia. lia.
Qed.

(** Where the marks are. *)
Lemma markers_spec pre opts post : Forall option_ok opts -> Forall (fun m => zget (pre ++ concat opts ++ post) m = Some (f_mask (bu_frame b)) /\ zlen pre <= m < zlen pre + used_by opts) (markers_from (zlen pre) opts)
  /\ StronglySorted Z.lt (markers_from (zlen pre) opts) /\ length (markers_from (zlen pre) opts) = length opts.
Proof.
  intros Ho. revert pre. induction Ho as [|o opts [[l ->] _] Ho IH]; intros pre; [by repeat constructor|]. cbn [markers_from concat]. set (o := f_mask (bu_frame b) :: l).
  assert (zlen pre + zlen o = zlen (pre ++ o)) as -> by (by rewrite zlen_app). destruct (IH (pre ++ o)) as (Hall&Hsort&Hlen). rewrite used_cons. pose proof (zlen_nonneg pre). assert (0 < zlen o) by (unfold o; rewrite zlen_cons; pose proof (zlen_nonneg l); lia).
  assert (0 <= used_by opts) by (clear; unfold used_by; induction opts as [|x opts IH]; [done|]; unfold zsum in *; cbn [foldr]; pose proof (zlen_nonneg x); lia).
  rewrite zlen_app in Hall. split; [constructor|split; [constructor|cbn; lia]].
  - split; [|lia]. unfold zget. destruct (Z.ltb_spec (zlen pre) 0); [lia|]. rewrite lookup_app_r by (unfold zlen; lia). by replace (Z.to_nat (zlen pre) - length pre)%nat with 0%nat by (unfold zlen; lia).
  - rewrite zlen_app in *. apply (Forall_impl _ _ _ Hall). intros m [Hm Hb]. rewrite <- !app_assoc in Hm. split; [by rewrite <- app_assoc|lia].
  - done.
  - rewrite zlen_app in *. apply (Forall_impl _ _ _ Hall). intros m [_ Hb]. lia.
Qed.
Lemma zget_truncate n (l : list Z) i x : i < n -> zget l i = Some x -> zget (truncate n l) i = Some x.
Proof. unfold zget, truncate, ztake. destruct (Z.ltb_spec i 0); [done|]. intros Hi Hx. rewrite lookup_take_lt by lia. done. Qed.
Lemma last_above l m : StronglySorted Z.lt l -> last l = Some m -> Forall (fun x => x <= m) l.
Proof.
  intros Hst. induction Hst as [|x l Hst IH Hx]; [done|]. destruct l as [|y l]; [intros [= <-]; by constructor; [lia|]|]. cbn [last]. intros Hl. specialize (IH Hl). constructor; [|done].
  apply Forall_cons in IH as [Hy _]. apply Forall_cons in Hx as [Hxy _]. lia.
Qed.
Lemma used_concat l : zlen (concat l) = used_by l.
Proof. induction l as [|x l IH]; [done|]. cbn [concat]. by rewrite zlen_app, IH. Qed.

(** The end or the start of a state. *)
Definition kept_of (keep_end : bool) (state kept : list Z) : Prop := if keep_end then exists l, state = l ++ kept else exists l, state = kept ++ l.
Lemma kept_total (keep_end : bool) (state : list Z) room : 0 <= room <= zlen state ->
  exists kept, (if keep_end then zslice state (zlen state - room) (zlen state) else zslice state 0 room) = Some kept /\ zlen kept = room /\ kept_of keep_end state kept.
Proof.
  intros Hr. destruct keep_end.
  - destruct (zslice state (zlen state - room) (zlen state)) as [k|] eqn:Hk; [|apply zslice_None in Hk; lia]. exists k. split; [done|]. pose proof (zslice_len _ _ _ _ Hk). split; [lia|]. apply zslice_Some in Hk as (_&_&->).
    exists (ztake (zlen state - room) state). rewrite (ztake_all (zlen state - (zlen state - room))) by (rewrite zlen_zdrop by lia; lia). by rewrite ztake_zdrop.
  - destruct (zslice state 0 room) as [k|] eqn:Hk; [|apply zslice_None in Hk; lia]. exists k. split; [done|]. pose proof (zslice_len _ _ _ _ Hk). split; [lia|]. apply zslice_Some in Hk as (_&_&->).
    exists (zdrop room state). rewrite zdrop_0, Z.sub_0_r. by rewrite ztake_zdrop.
Qed.
Notation total := (b_total (bu_budget b)).
Notation budget := (b_head (bu_budget b)).
(** Whether the budgets have room for the question whatever its texts. *)
Definition roomy (q : Question) : Prop := 16 + 4 * zlen (rendered q) <= budget /\ budget + 4 <= total.
Lemma sequence_ok q state keep_end : question_fits q ->
  match sequence tb is_numeric depth b q state keep_end with
  | Ok (ids, marks) => zlen ids <= total /\ length marks = length (rendered q) /\ StronglySorted Z.lt marks /\ Forall (fun m => zget ids m = Some (f_mask (bu_frame b))) marks
      /\ (roomy q -> exists head opts kept, ids = [f_cls (bu_frame b)] ++ head ++ [f_sep (bu_frame b)] ++ concat opts ++ [f_sep (bu_frame b)] ++ kept ++ [f_sep (bu_frame b)]
           /\ zlen head + used_by opts <= budget /\ kept_of keep_end state kept /\ zlen kept = Z.min (total - (zlen head + used_by opts + 4)) (zlen state))
  | Err e => exists m, e = TooLong (m + 1) total /\ total <= m /\ ~ roomy q
  | Panic => False
  end.
Proof.
  intros Hq. destruct (head_of_ok q Hq) as (head&opts&Hh&Hn&Ho&Hfit). unfold sequence. rewrite Hh. cbn [mbind outcome_bind]. cbv zeta.
  set (pre := [f_cls (bu_frame b)] ++ head ++ [f_sep (bu_frame b)]). set (ids := pre ++ concat opts ++ [f_sep (bu_frame b)]). assert (zlen pre = zlen head + 2) as Hpre by (unfold pre; rewrite !zlen_app; change (zlen [_]) with 1; lia).
  assert (zlen ids = zlen head + used_by opts + 3) as Hids by (unfold ids; rewrite !zlen_app, used_concat; change (zlen [_]) with 1; lia). pose proof (zlen_nonneg state). pose proof (zlen_nonneg head).
  destruct (kept_total keep_end state (Z.min (sat_sub total (zlen ids + 1)) (zlen state))) as (kept&->&Hkl&Hk); [unfold sat_sub; lia|]. cbn [or_panic mbind outcome_bind].
  destruct (markers_spec pre opts ([f_sep (bu_frame b)] ++ kept ++ [f_sep (bu_frame b)]) Ho) as (Hall&Hsort&Hlen). set (marks := markers_from (zlen pre) opts) in *.
  assert (ids ++ kept ++ [f_sep (bu_frame b)] = pre ++ concat opts ++ [f_sep (bu_frame b)] ++ kept ++ [f_sep (bu_frame b)]) as Hwhole by (unfold ids; by rewrite <- !app_assoc).
  assert (forall (Hlow : Forall (fun m => m < total) marks), zlen (truncate total (ids ++ kept ++ [f_sep (bu_frame b)])) <= total /\ length marks = length (rendered q) /\ StronglySorted Z.lt marks
    /\ Forall (fun m => zget (truncate total (ids ++ kept ++ [f_sep (bu_frame b)])) m = Some (f_mask (bu_frame b))) marks
    /\ (roomy q -> exists head opts kept', truncate total (ids ++ kept ++ [f_sep (bu_frame b)]) = [f_cls (bu_frame b)] ++ head ++ [f_sep (bu_frame b)] ++ concat opts ++ [f_sep (bu_frame b)] ++ kept' ++ [f_sep (bu_frame b)]
         /\ zlen head + used_by opts <= budget /\ kept_of keep_end state kept' /\ zlen kept' = Z.min (total - (zlen head + used_by opts + 4)) (zlen state))) as Hok.
  { intros Hlow. split; [rewrite zlen_truncate by done; lia|]. split; [lia|]. split; [done|]. split.
    - rewrite Hwhole. rewrite Forall_forall in Hall, Hlow |- *. intros m Hm. apply zget_truncate; [by apply Hlow|]. by apply Hall.
    - intros [H16 Hroom]. specialize (Hfit H16). exists head, opts, kept. split; [|split; [done|split; [done|unfold sat_sub in Hkl; lia]]].
      unfold truncate. rewrite ztake_all; [rewrite Hwhole; unfold pre; by rewrite <- !app_assoc|]. rewrite !zlen_app. change (zlen [_]) with 1. unfold sat_sub in Hkl. lia. }
  destruct (last marks) as [m|] eqn:Hlast.
  - pose proof (last_above marks m Hsort Hlast) as Habove. destruct (Z.leb_spec total m) as [Hbad|Hgood].
    + exists m. split; [done|]. split; [done|]. intros [H16 Hroom]. specialize (Hfit H16). apply last_Some in Hlast as [l' Hl']. rewrite Forall_forall in Hall. destruct (Hall m) as [_ Hb]; [rewrite Hl'; apply elem_of_app; right; apply list_elem_of_singleton; done|]. lia.
    + apply Hok. apply (Forall_impl _ _ _ Habove). cbn. lia.
  - apply Hok. apply last_None in Hlast. rewrite Hlast. constructor.
Qed.
End Fits.

(** Two options under a head of 24 tokens. *)
Definition sample_builder : Builder := mkBuilder sample_chat_tokenizer (mkFrame 0 1 2) (mkBudget 30 24).
Definition sample_question : Question := mkQuestion Choice (str "which") [(str "one", []); (str "two", str "the second")].
Lemma sample_question_fits : question_fits sample_question.
Proof.
  assert (forall l, forallb is_char l && (zlen l <? 2 ^ 27) = true -> text_fits l) as H.
  { intros l Hl. apply andb_prop in Hl as [Hc Hn]. split; [|lia]. apply Forall_forall. intros x Hx%list_elem_of_In. rewrite forallb_forall in Hc. by apply Hc. }
  split; [|apply H; vm_compute; reflexivity]. repeat (apply Forall_cons_2; [apply H; vm_compute; reflexivity|]). apply Forall_nil_2.
Qed.
Lemma sample_spells_any : spells sample_chat_tokenizer (fun _ => True).
Proof. destruct sample_spells as [H1 H2 H3 H4 H5 H6 (size&M&HM&HF)]. split; try (apply Forall_forall; intros x _; by right); [by right|by apply Forall_true|]. exists size, M. split; [done|]. apply (Forall_impl _ _ _ HF). intros e [? _]. split; [done|by right]. Qed.
