(* ===== verification/Limbs.v ===== *)
(** * Numbers as 64-bit limbs ([net/rsa.rs])

    The arithmetic of RSA's public operation: little-endian limbs of any
    number, compared, subtracted, doubled and multiplied by Montgomery's
    method. A sum its width does not hold and an index out of range are
    panics. *)
From Stdlib Require Import Znumtheory.
From S2P Require Import Prelude Bytes X25519.

(** [v[i] = x]. *)
Definition put (t : list Z) (i v : Z) : computes (list Z) := if (0 <=? i) && (i <? zlen t) then Ok (<[Z.to_nat i := v]> t) else Panic.
Definition div_ceil (a b : Z) : Z := (a + b - 1) / b.

(** The loop of [limbs]: byte [i], from the lowest, goes into limb [i / 8]. *)
Fixpoint put_bytes (out : list Z) (i : Z) (bytes : list Z) : computes (list Z) :=
  match bytes with
  | [] => Ok out
  | b :: bytes => x ← or_panic (zget out (i / 8)); out ← put out (i / 8) (Z.lor x (wrap 64 (Z.shiftl b (8 * (i mod 8))))); put_bytes out (i + 1) bytes
  end.
Definition limbs (bytes : list Z) (l : Z) : computes (list Z) :=
  out ← put_bytes (zrep (Z.max l (div_ceil (zlen bytes) 8)) 0) 0 (rev bytes); Ok (ztake l out).

(** [Iterator::cmp]. *)
Fixpoint cmp (a b : list Z) : comparison :=
  match a, b with
  | [], [] => Eq
  | [], _ => Lt
  | _, [] => Gt
  | x :: a, y :: b => match x ?= y with Eq => cmp a b | c => c end
  end.
Definition less (a b : list Z) : bool := match cmp (rev a) (rev b) with Lt => true | _ => false end.

Fixpoint subtract (a b : list Z) (borrow : bool) : list Z * bool :=
  match a, b with
  | x :: a, y :: b =>
      let d := wrap 64 (x - y) in let b1 := x <? y in
      let d' := wrap 64 (d - Z.b2z borrow) in let b2 := d <? Z.b2z borrow in
      let '(r, borrow) := subtract a b (b1 || b2) in (d' :: r, borrow)
  | a, _ => (a, borrow)
  end.
(** The conditional subtraction [double] and [montgomery] end with. *)
Definition reduced (carry : bool) (t n : list Z) : list Z := if carry || negb (less t n) then fst (subtract t n false) else t.

Fixpoint shift_one (carry : Z) (x : list Z) : list Z :=
  match x with [] => [] | w :: x => Z.lor carry (wrap 64 (Z.shiftl w 1)) :: shift_one (Z.shiftr w 63) x end.
Definition double (x n : list Z) : computes (list Z) :=
  top ← or_panic (last x); Ok (reduced (Z.shiftr top 63 =? 1) (shift_one 0 x) n).

(** The two inner loops of [montgomery]: the first adds [a * bi] to [t] in
    place, the second adds [q * n] and moves down by one limb. *)
Fixpoint mul_row (k : nat) (t a : list Z) (bi c : Z) : computes (list Z * Z) :=
  match k with
  | O => Ok (t, c)
  | S k =>
      match t, a with
      | x :: t, y :: a => s ← fit 128 (x + y * bi); c ← fit 128 (c + s); '(t, c') ← mul_row k t a bi (Z.shiftr c 64); Ok (wrap 64 c :: t, c')
      | _, _ => Panic
      end
  end.
Fixpoint red_row (k : nat) (t n : list Z) (q c : Z) : computes (list Z * Z) :=
  match k with
  | O => Ok ([], c)
  | S k =>
      match t, n with
      | x :: t, y :: n => s ← fit 128 (x + q * y); c ← fit 128 (c + s); '(w, c') ← red_row k t n q (Z.shiftr c 64); Ok (wrap 64 c :: w, c')
      | _, _ => Panic
      end
  end.
Definition mont_round (a n : list Z) (inv : Z) (t : list Z) (bi : Z) : computes (list Z) :=
  let l := zlen n in
  '(t, c) ← mul_row (Z.to_nat l) t a bi 0;
  tl ← or_panic (zget t l); c ← fit 128 (c + tl);
  t ← put t l (wrap 64 c); t ← put t (l + 1) (wrap 64 (Z.shiftr c 64));
  t0 ← or_panic (zget t 0); n0 ← or_panic (zget n 0);
  let q := wrap 64 (t0 * inv) in
  c ← fit 128 (t0 + q * n0);
  '(w, c) ← red_row (Z.to_nat (l - 1)) (zdrop 1 t) (zdrop 1 n) q (Z.shiftr c 64);
  let t := w ++ zdrop (l - 1) t in
  tl ← or_panic (zget t l); c ← fit 128 (c + tl); over ← or_panic (zget t (l + 1));
  top ← fit 64 (over + wrap 64 (Z.shiftr c 64));
  t ← put t (l - 1) (wrap 64 c); put t l top.
Fixpoint mont_rounds (a n : list Z) (inv : Z) (t b : list Z) : computes (list Z) :=
  match b with [] => Ok t | bi :: b => t ← mont_round a n inv t bi; mont_rounds a n inv t b end.
Definition montgomery (a b n : list Z) (inv : Z) : computes (list Z) :=
  t ← mont_rounds a n inv (zrep (zlen n + 2) 0) b;
  hi ← or_panic (zget t (zlen n));
  Ok (reduced (negb (hi =? 0)) (ztake (zlen n) t) n).

(** ** What limbs say *)
Fixpoint lval (l : list Z) : Z := match l with [] => 0 | x :: l => x + 2 ^ 64 * lval l end.
Notation limbs_ok := (Forall (fits 64)).
(** The size of [l] limbs. *)
Definition span {A} (l : list A) : Z := 2 ^ (64 * zlen l).

Lemma span_cons {A} (x : A) l : span (x :: l) = 2 ^ 64 * span l.
Proof. unfold span. rewrite zlen_cons, <- Z.pow_add_r by (pose proof (zlen_nonneg l); lia). f_equal. lia. Qed.
Lemma span_pos {A} (l : list A) : 0 < span l.
Proof. unfold span. apply Z.pow_pos_nonneg; pose proof (zlen_nonneg l); lia. Qed.
Lemma lval_app a b : lval (a ++ b) = lval a + span a * lval b.
Proof. induction a as [|x a IH]; [change (span []) with 1; cbn; lia|]. cbn [app lval]. rewrite IH, span_cons. ring. Qed.
Lemma lval_bound l : limbs_ok l -> 0 <= lval l < span l.
Proof.
  induction 1 as [|x l Hx _ IH]; [change (0 <= 0 < 1); lia|]. rewrite span_cons. cbn [lval]. unfold fits in Hx. nia.
Qed.
Lemma span_len {A B} (a : list A) (b : list B) : length a = length b -> span a = span b.
Proof. unfold span, zlen. by intros ->. Qed.
Lemma lval_zeros n : lval (replicate n 0) = 0.
Proof. induction n as [|n IH]; [done|]. cbn [replicate lval]. rewrite IH. lia. Qed.

Lemma cmp_spec a b : limbs_ok a -> limbs_ok b -> length a = length b -> cmp a b = (lval (rev a) ?= lval (rev b)).
Proof.
  intros Ha. revert b. induction Ha as [|x a Hx Ha IH]; intros b Hb Hl; [by destruct b|]. destruct b as [|y b]; [done|]. apply Forall_cons in Hb as [Hy Hb]. injection Hl as Hl. cbn [cmp rev]. rewrite !lval_app. cbn [lval].
  rewrite (IH b Hb Hl), <- (span_len (rev a) (rev b)) by (by rewrite !length_rev).
  assert (0 <= lval (rev a) < span (rev a)) by (by apply lval_bound, Forall_rev). assert (0 <= lval (rev b) < span (rev a)). { rewrite (span_len (rev a) (rev b)) by (by rewrite !length_rev). by apply lval_bound, Forall_rev. }
  set (A := lval (rev a)) in *. set (B := lval (rev b)) in *. set (S := span (rev a)) in *. clearbody A B S. destruct (Z.compare_spec x y) as [->|Hlt|Hgt].
  - destruct (Z.compare_spec A B); symmetry; [apply Z.compare_eq_iff|apply Z.compare_lt_iff|apply Z.compare_gt_iff]; lia.
  - symmetry. apply Z.compare_lt_iff. nia.
  - symmetry. apply Z.compare_gt_iff. nia.
Qed.
Lemma less_spec a b : limbs_ok a -> limbs_ok b -> length a = length b -> less a b = (lval a <? lval b).
Proof.
  intros Ha Hb Hl. unfold less. rewrite cmp_spec; [|by apply Forall_rev|by apply Forall_rev|by rewrite !length_rev]. rewrite !rev_involutive. unfold Z.ltb. by destruct (lval a ?= lval b).
Qed.
Lemma subtract_spec a b borrow : limbs_ok a -> limbs_ok b -> length a = length b -> let '(r, out) := subtract a b borrow in
  limbs_ok r /\ length r = length a /\ lval r = lval a - lval b - Z.b2z borrow + span a * Z.b2z out.
Proof.
  intros Ha. revert b borrow. induction Ha as [|x a Hx Ha IH]; intros b borrow Hb Hl; [destruct b; [|done]; cbn; split; [done|]; split; [done|]; change (span []) with 1; lia|].
  destruct b as [|y b]; [done|]. apply Forall_cons in Hb as [Hy Hb]. injection Hl as Hl. cbn [subtract]. set (b1 := x <? y). set (d := wrap 64 (x - y)). set (b2 := d <? Z.b2z borrow).
  specialize (IH b (b1 || b2) Hb Hl). destruct (subtract a b (b1 || b2)) as [r out]. destruct IH as (Hr&Hlen&Hv). split; [constructor; [by apply wrap_fits|done]|]. split; [cbn; lia|]. cbn [lval]. rewrite Hv, span_cons.
  assert (d = x - y + 2 ^ 64 * Z.b2z b1) as Hd.
  { unfold d, b1, wrap, fits in *. destruct (Z.ltb_spec x y); cbn [Z.b2z]; [rewrite <- (Z.mod_add _ 1) by lia|]; rewrite Z.mod_small; lia. }
  assert (wrap 64 (d - Z.b2z borrow) = d - Z.b2z borrow + 2 ^ 64 * Z.b2z b2) as ->.
  { assert (fits 64 d) by (by apply wrap_fits). unfold b2, wrap, fits in *. clearbody d b1. destruct (Z.ltb_spec d (Z.b2z borrow)); cbn [Z.b2z]; [rewrite <- (Z.mod_add _ 1) by lia|]; rewrite Z.mod_small; destruct borrow; cbn [Z.b2z] in *; lia. }
  assert (b1 && b2 = false) as Hboth. { unfold b1, b2, fits in *. destruct (Z.ltb_spec x y); [|done]. unfold b1 in Hd. destruct (Z.ltb_spec x y); [|lia]. cbn in Hd. apply Z.ltb_ge. destruct borrow; cbn; lia. }
  clearbody d b1 b2. destruct b1, b2; try done; cbn [orb Z.b2z] in *; lia.
Qed.
(** One subtraction reduces what is below twice the modulus. *)
Lemma reduced_spec carry t n : limbs_ok t -> limbs_ok n -> length t = length n -> lval t + span t * Z.b2z carry < 2 * lval n ->
  let r := reduced carry t n in limbs_ok r /\ length r = length n /\ lval r = (lval t + span t * Z.b2z carry) mod lval n.
Proof.
  intros Ht Hn Hl Hlt. cbv zeta. unfold reduced. rewrite less_spec by done. pose proof (lval_bound t Ht). pose proof (lval_bound n Hn). rewrite <- (span_len t n Hl) in *.
  pose proof (subtract_spec t n false Ht Hn Hl) as Hs. destruct (subtract t n false) as [r out]. destruct Hs as (Hr&Hlen&Hv). cbn [fst]. pose proof (lval_bound r Hr) as Hrb. rewrite (span_len r t Hlen) in Hrb. cbn [Z.b2z] in Hv.
  set (S := span t) in *. clearbody S. assert (carry || negb (lval t <? lval n) = true \/ carry = false /\ lval t < lval n) as [Hc|[-> Hc]] by (destruct carry, (Z.ltb_spec (lval t) (lval n)); auto).
  - rewrite Hc. split; [done|]. split; [lia|]. set (v := lval t + S * Z.b2z carry) in *. assert (lval n <= v) as Hge by (unfold v; destruct carry; cbn [Z.b2z orb] in *; [lia|]; destruct (Z.ltb_spec (lval t) (lval n)); [done|lia]).
    rewrite <- (Z.mod_add v (-1)), Z.mod_small by lia. rewrite Hv. assert (S * Z.b2z out = S * Z.b2z carry); [|lia]. destruct out, carry; cbn [Z.b2z] in *; lia.
  - cbn [Z.b2z orb]. destruct (Z.ltb_spec (lval t) (lval n)); [|lia]. cbn [negb]. split; [done|]. split; [done|]. rewrite Z.mul_0_r, Z.add_0_r, Z.mod_small; lia.
Qed.

Lemma shift_word c w : 0 <= c <= 1 -> fits 64 w -> Z.lor c (wrap 64 (Z.shiftl w 1)) = 2 * w + c - 2 ^ 64 * Z.shiftr w 63 /\ 0 <= Z.shiftr w 63 <= 1.
Proof.
  intros Hc Hw. unfold fits in Hw. rewrite Z.shiftr_div_pow2 by lia. change (2 ^ 64) with (2 * 2 ^ 63) in *. assert (0 <= w / 2 ^ 63 <= 1).
  { split; [apply Z.div_pos; lia|]. apply Z.lt_succ_r, Z.div_lt_upper_bound; lia. }
  split; [|done]. pose proof (Z.div_mod w (2 ^ 63) ltac:(lia)) as Hdm. pose proof (Z.mod_pos_bound w (2 ^ 63) ltac:(lia)). unfold wrap. rewrite Z.shiftl_mul_pow2 by lia.
  assert ((w * 2 ^ 1) mod 2 ^ 64 = 2 * (w mod 2 ^ 63)) as ->. { change (2 ^ 64) with (2 ^ 63 * 2). change (2 ^ 1) with 2. rewrite Z.mul_mod_distr_r by lia. lia. }
  rewrite Z.lor_comm. replace (2 * (w mod 2 ^ 63)) with (Z.shiftl (w mod 2 ^ 63) 1) by (rewrite Z.shiftl_mul_pow2 by lia; lia). rewrite lor_shiftl_add by (change (2 ^ 1) with 2; lia). lia.
Qed.
Lemma shift_one_spec x c : x <> [] -> 0 <= c <= 1 -> limbs_ok x -> exists top, last x = Some top /\ 0 <= Z.shiftr top 63 <= 1
  /\ limbs_ok (shift_one c x) /\ length (shift_one c x) = length x /\ lval (shift_one c x) + span x * Z.shiftr top 63 = 2 * lval x + c.
Proof.
  intros Hne Hc Hx. revert c Hc Hne. induction Hx as [|w x Hw Hx IH]; intros c Hc Hne; [done|]. destruct (shift_word c w Hc Hw) as [Hs Ht]. cbn [shift_one].
  assert (fits 64 (Z.lor c (wrap 64 (Z.shiftl w 1)))) as Hf by (apply lor_fits; [done|unfold fits; lia|by apply wrap_fits]). rewrite Hs in *. destruct x as [|v x].
  - exists w. split; [done|]. split; [done|]. split; [by constructor|]. split; [done|]. cbn [shift_one lval]. rewrite span_cons. change (span []) with 1. lia.
  - destruct (IH (Z.shiftr w 63) Ht ltac:(done)) as (top&Hl&Htop&Hok&Hlen&Hv). exists top. split; [exact Hl|]. split; [done|]. split; [by constructor|]. split; [change (length (?a :: ?l)) with (S (length l)); by rewrite Hlen|].
    cbn [lval]. cbn [lval] in Hv. rewrite span_cons. lia.
Qed.
Lemma double_spec x n : x <> [] -> limbs_ok x -> limbs_ok n -> length x = length n -> lval x < lval n ->
  exists r, double x n = Ok r /\ limbs_ok r /\ length r = length n /\ lval r = (2 * lval x) mod lval n.
Proof.
  intros Hne Hx Hn Hl Hlt. unfold double. destruct (shift_one_spec x 0 Hne ltac:(lia) Hx) as (top&->&Ht&Hok&Hlen&Hv). cbn [or_panic mbind outcome_bind]. eexists. split; [done|].
  assert (lval (shift_one 0 x) + span (shift_one 0 x) * Z.b2z (Z.shiftr top 63 =? 1) = 2 * lval x) as E.
  { rewrite (span_len (shift_one 0 x) x Hlen). destruct (Z.eqb_spec (Z.shiftr top 63) 1) as [H1|H1]; cbn [Z.b2z]; [rewrite H1 in Hv; lia|]. replace (Z.shiftr top 63) with 0 in Hv by lia. lia. }
  rewrite <- E. apply reduced_spec; [done|done|lia|]. lia.
Qed.

(** ** A round of Montgomery's method *)
Lemma fits_width w z : 0 <= z < 2 ^ w -> fit w z = Ok z.
Proof. intros H. unfold fit. destruct (Z.leb_spec 0 z), (Z.ltb_spec z (2 ^ w)); done || lia. Qed.
(** A limb's share of a row: the sum fits 128 bits and the carry 64. *)
Lemma row_step x y m c : fits 64 x -> fits 64 y -> fits 64 m -> fits 64 c ->
  fit 128 (x + y * m) = Ok (x + y * m) /\ fit 128 (c + (x + y * m)) = Ok (c + (x + y * m)) /\ fits 64 (Z.shiftr (c + (x + y * m)) 64)
  /\ fits 64 (wrap 64 (c + (x + y * m))) /\ wrap 64 (c + (x + y * m)) + 2 ^ 64 * Z.shiftr (c + (x + y * m)) 64 = c + (x + y * m).
Proof.
  intros Hx Hy Hm Hc. unfold fits in Hx, Hy, Hm, Hc. assert (0 <= y * m <= (2 ^ 64 - 1) * (2 ^ 64 - 1)) by nia. change (2 ^ 128) with (2 ^ 64 * 2 ^ 64).
  split; [apply fits_width; lia|]. split; [apply fits_width; lia|]. rewrite Z.shiftr_div_pow2 by lia. set (s := c + (x + y * m)). assert (0 <= s < 2 ^ 64 * 2 ^ 64) by lia. clearbody s.
  split; [split; [apply Z.div_pos; lia|apply Z.div_lt_upper_bound; lia]|]. split; [by apply wrap_fits|]. unfold wrap. pose proof (Z.div_mod s (2 ^ 64) ltac:(lia)). lia.
Qed.
Lemma mul_row_spec a low rest bi c : limbs_ok low -> limbs_ok a -> length low = length a -> fits 64 bi -> fits 64 c ->
  exists low' c', mul_row (length a) (low ++ rest) a bi c = Ok (low' ++ rest, c') /\ limbs_ok low' /\ length low' = length a /\ fits 64 c'
    /\ lval low' + span a * c' = lval low + lval a * bi + c.
Proof.
  intros Hlow Ha Hl Hbi. revert c low Hlow Hl. induction Ha as [|y a Hy Ha IH]; intros c low Hlow Hl Hc.
  - destruct low; [|done]. exists [], c. split; [done|]. split; [done|]. split; [done|]. split; [done|]. change (span []) with 1. cbn [lval]. lia.
  - destruct low as [|x low]; [done|]. injection Hl as Hl. apply Forall_cons in Hlow as [Hx Hlow]. cbn [length mul_row app]. destruct (row_step x y bi c Hx Hy Hbi Hc) as (->&H1&H2&H3&H4). cbn [mbind outcome_bind]. rewrite H1. cbn [mbind outcome_bind].
    destruct (IH (Z.shiftr (c + (x + y * bi)) 64) low Hlow Hl H2) as (low'&c'&->&Hok&Hlen&Hc'&Hv). cbn [mbind outcome_bind]. eexists (_ :: low'), c'. split; [done|]. split; [by constructor|]. split; [cbn; lia|]. split; [done|].
    cbn [lval]. rewrite span_cons. lia.
Qed.
Lemma red_row_spec n low rest q c : limbs_ok low -> limbs_ok n -> length low = length n -> fits 64 q -> fits 64 c ->
  exists w c', red_row (length n) (low ++ rest) n q c = Ok (w, c') /\ limbs_ok w /\ length w = length n /\ fits 64 c'
    /\ lval w + span n * c' = lval low + lval n * q + c.
Proof.
  intros Hlow Hn Hl Hq. revert c low Hlow Hl. induction Hn as [|y n Hy Hn IH]; intros c low Hlow Hl Hc.
  - destruct low; [|done]. exists [], c. split; [done|]. split; [done|]. split; [done|]. split; [done|]. change (span []) with 1. cbn [lval]. lia.
  - destruct low as [|x low]; [done|]. injection Hl as Hl. apply Forall_cons in Hlow as [Hx Hlow]. cbn [length red_row app]. rewrite (Z.mul_comm q y). destruct (row_step x y q c Hx Hy Hq Hc) as (->&H1&H2&H3&H4). cbn [mbind outcome_bind]. rewrite H1. cbn [mbind outcome_bind].
    destruct (IH (Z.shiftr (c + (x + y * q)) 64) low Hlow Hl H2) as (low'&c'&->&Hok&Hlen&Hc'&Hv). cbn [mbind outcome_bind]. eexists (_ :: low'), c'. split; [done|]. split; [by constructor|]. split; [cbn; lia|]. split; [done|].
    cbn [lval]. rewrite span_cons. lia.
Qed.

Lemma put_at low x r i v : i = zlen low -> put (low ++ x :: r) i v = Ok (low ++ v :: r).
Proof.
  intros ->. unfold put. pose proof (zlen_nonneg low). pose proof (zlen_nonneg r). destruct (Z.leb_spec 0 (zlen low)); [|lia]. destruct (Z.ltb_spec (zlen low) (zlen (low ++ x :: r))) as [|Hout]; [|rewrite zlen_app, zlen_cons in Hout; lia].
  cbn [andb]. f_equal. unfold zlen. rewrite Nat2Z.id, insert_app_r_alt, Nat.sub_diag by lia. done.
Qed.
Lemma limb_at {A} (low : list A) x r i : i = zlen low -> zget (low ++ x :: r) i = Some x.
Proof. intros ->. unfold zget. destruct (Z.ltb_spec (zlen low) 0); [pose proof (zlen_nonneg low); lia|]. unfold zlen. rewrite Nat2Z.id, lookup_app_r, Nat.sub_diag by lia. done. Qed.
(** The carry out of a row is added to the limb above. *)
Lemma top_step c h : fits 64 c -> fits 64 h -> fit 128 (c + h) = Ok (c + h) /\ fits 64 (wrap 64 (c + h)) /\ wrap 64 (c + h) + 2 ^ 64 * Z.shiftr (c + h) 64 = c + h /\ 0 <= Z.shiftr (c + h) 64 <= 1.
Proof.
  intros Hc Hh. unfold fits in Hc, Hh. split; [apply fits_width; change (2 ^ 128) with (2 ^ 64 * 2 ^ 64); lia|]. split; [by apply wrap_fits|]. rewrite Z.shiftr_div_pow2 by lia. unfold wrap. pose proof (Z.div_mod (c + h) (2 ^ 64) ltac:(lia)).
  split; [lia|]. split; [apply Z.div_pos; lia|]. apply Z.lt_succ_r, Z.div_lt_upper_bound; lia.
Qed.
Section Rounds.
Context (a n : list Z) (inv : Z) (Ha : limbs_ok a) (Hn : limbs_ok n) (Hl : length a = length n) (Hne : n <> []) (Hlt : lval a < lval n).
Context (Hinv : (lval n * inv + 1) mod 2 ^ 64 = 0).

(** What the limbs of [t] say, its last one apart. *)
Definition running (t : list Z) (v : Z) : Prop :=
  exists low hi junk, t = low ++ [hi; junk] /\ limbs_ok low /\ length low = length n /\ 0 <= hi /\ v = lval low + span n * hi /\ v < lval a + lval n.

Lemma low_limb_cancels x : fits 64 x -> exists n0 ns, n = n0 :: ns /\ let q := wrap 64 (x * inv) in
  fits 64 q /\ fit 128 (x + q * n0) = Ok (x + q * n0) /\ fits 64 (Z.shiftr (x + q * n0) 64) /\ 2 ^ 64 * Z.shiftr (x + q * n0) 64 = x + q * n0.
Proof.
  intros Hx. destruct n as [|n0 ns] eqn:En; [done|]. exists n0, ns. split; [done|]. cbv zeta. apply Forall_cons in Hn as [Hn0 _]. set (q := wrap 64 (x * inv)). assert (fits 64 q) as Hq by (by apply wrap_fits).
  rewrite (Z.mul_comm q n0). destruct (row_step x n0 q 0 Hx Hn0 Hq ltac:(unfold fits; lia)) as (H1&_&H3&_&H5). rewrite Z.add_0_l in *. split; [done|]. split; [done|]. split; [done|].
  assert (wrap 64 (x + n0 * q) = 0) as Hz; [|rewrite Hz in H5; lia]. unfold wrap, q. unfold wrap.
  rewrite <- Z.add_mod_idemp_r, Z.mul_mod_idemp_r, Z.add_mod_idemp_r by lia. cbn [lval] in Hinv.
  replace (x + n0 * (x * inv)) with (x * ((n0 + 2 ^ 64 * lval ns) * inv + 1) + (- (x * inv * lval ns)) * 2 ^ 64) by ring. rewrite Z.mod_add by lia. rewrite <- Z.mul_mod_idemp_r, Hinv by lia. by rewrite Z.mul_0_r.
Qed.
Lemma mont_round_spec t v bi : running t v -> fits 64 bi -> exists t' v', mont_round a n inv t bi = Ok t' /\ running t' v' /\ exists q, 2 ^ 64 * v' = v + lval a * bi + q * lval n.
Proof.
  intros (low&hi&junk&->&Hlow&Hll&Hhi&Hv&Hvlt) Hbi. unfold mont_round. pose proof (lval_bound a Ha) as Hab. pose proof (lval_bound n Hn) as Hnb. rewrite (span_len a n Hl) in Hab.
  assert (hi <= 1) as Hhi1 by (pose proof (lval_bound low Hlow); nia). assert (fits 64 hi) as Hhif by (unfold fits; lia).
  assert (Z.to_nat (zlen n) = length a) as -> by (unfold zlen; lia). destruct (mul_row_spec a low [hi; junk] bi 0 Hlow Ha ltac:(lia) Hbi ltac:(unfold fits; lia)) as (low1&c1&->&Hlow1&Hl1&Hc1&Hv1). cbn [mbind outcome_bind].
  assert (zlen n = zlen low1) as Hzl by (unfold zlen; lia). rewrite limb_at by done. cbn [or_panic mbind outcome_bind]. destruct (top_step c1 hi Hc1 Hhif) as (->&Hw&Hws&Hs). cbn [mbind outcome_bind]. rewrite put_at by done. cbn [mbind outcome_bind].
  set (w := wrap 64 (c1 + hi)) in *. assert (wrap 64 (Z.shiftr (c1 + hi) 64) = Z.shiftr (c1 + hi) 64) as -> by (apply wrap_id; unfold fits; lia). set (s := Z.shiftr (c1 + hi) 64) in *. clearbody w s.
  rewrite cons_middle, (app_assoc low1 [w] [junk]), put_at by (rewrite zlen_app; change (zlen [w]) with 1; lia). cbn [mbind outcome_bind].
  destruct low1 as [|x ls]; [destruct a; [destruct n; done|done]|]. apply Forall_cons in Hlow1 as [Hx Hls]. change (zget (((x :: ls) ++ [w]) ++ [s]) 0) with (Some x). cbn [or_panic mbind outcome_bind].
  destruct (low_limb_cancels x Hx) as (n0&ns&En&Hq). cbv zeta in Hq. rewrite En in *. change (zget (n0 :: ns) 0) with (Some n0). cbn [or_panic mbind outcome_bind]. set (q := wrap 64 (x * inv)) in *. destruct Hq as (Hq&->&Hc&Hcv). cbn [mbind outcome_bind]. clearbody q.
  set (c := Z.shiftr (x + q * n0) 64) in *. clearbody c. apply Forall_cons in Hn as [_ Hns]. assert (length ls = length ns) as Hlns by (cbn in *; lia).
  assert (Z.to_nat (zlen (n0 :: ns) - 1) = length ns) as -> by (rewrite zlen_cons; unfold zlen; lia). change (zdrop 1 (((x :: ls) ++ [w]) ++ [s])) with ((ls ++ [w]) ++ [s]). change (zdrop 1 (n0 :: ns)) with ns. rewrite <- (app_assoc ls).
  destruct (red_row_spec ns ls ([w] ++ [s]) q c Hls Hns Hlns Hq Hc) as (wr&c2&->&Hwr&Hlw&Hc2&Hv2). cbn [mbind outcome_bind].
  assert (exists y, zdrop (zlen (n0 :: ns) - 1) (((x :: ls) ++ [w]) ++ [s]) = [y; w; s]) as [y ->].
  { destruct (exists_last (l := x :: ls) ltac:(done)) as (l'&y&E). exists y. rewrite E, <- !app_assoc. apply zdrop_app. apply (f_equal zlen) in E. rewrite zlen_app in E. change (zlen [y]) with 1 in E. lia. }
  assert (zlen (n0 :: ns) = zlen wr + 1) as Hzw by (rewrite zlen_cons; unfold zlen; lia).
  rewrite (cons_middle y wr), (app_assoc wr [y] [w; s]), (limb_at (wr ++ [y]) w [s] (zlen (n0 :: ns))) by (rewrite zlen_app; exact Hzw). cbn [or_panic mbind outcome_bind]. destruct (top_step c2 w Hc2 Hw) as (->&Hf&Hfs&Ht). cbn [mbind outcome_bind].
  rewrite (cons_middle w (wr ++ [y])), (app_assoc (wr ++ [y]) [w] [s]), (limb_at ((wr ++ [y]) ++ [w])) by (rewrite !zlen_app; change (zlen [_]) with 1; lia). cbn [or_panic mbind outcome_bind].
  assert (wrap 64 (Z.shiftr (c2 + w) 64) = Z.shiftr (c2 + w) 64) as -> by (apply wrap_id; unfold fits; lia). rewrite fits_width by lia. cbn [mbind outcome_bind]. rewrite <- !app_assoc. cbn [app].
  rewrite put_at by lia. cbn [mbind outcome_bind]. rewrite (cons_middle _ wr), (app_assoc wr), put_at by (rewrite zlen_app; change (zlen [_]) with 1; lia).
  set (f := wrap 64 (c2 + w)) in *. set (top := s + Z.shiftr (c2 + w) 64). set (v' := lval (wr ++ [f]) + span (n0 :: ns) * top).
  assert (2 ^ 64 * v' = v + lval a * bi + q * lval (n0 :: ns)) as E.
  { unfold v', top. rewrite lval_app, (span_len wr ns Hlw), !span_cons. rewrite (span_len a (n0 :: ns)), span_cons in Hv1 by done. rewrite span_cons in Hv. cbn [lval] in *. set (S := span ns) in *. clearbody S.
    assert (2 ^ 64 * (lval wr + S * c2) = 2 ^ 64 * lval ls + 2 ^ 64 * lval ns * q + (x + q * n0)) as E1 by (rewrite Hv2; lia).
    assert (S * (w + 2 ^ 64 * s) * 2 ^ 64 = 2 ^ 64 * S * c1 + 2 ^ 64 * S * hi) as E2 by (rewrite Hws; ring).
    assert (2 ^ 64 * S * (f + 2 ^ 64 * Z.shiftr (c2 + w) 64) = 2 ^ 64 * S * c2 + 2 ^ 64 * S * w) as E3 by (rewrite Hfs; ring).
    set (g := Z.shiftr (c2 + w) 64) in *. clearbody f g. lia. }
  exists ((wr ++ [f]) ++ [top; s]), v'. split; [done|]. split; [|by exists q]. exists (wr ++ [f]), top, s. split; [done|]. split; [apply Forall_app; split; [done|by constructor]|]. split; [rewrite En, length_app; cbn in *; lia|]. split; [unfold top; lia|].
  split; [unfold v'; by rewrite En|]. rewrite En. set (N := lval (n0 :: ns)) in *. clearbody N v'. unfold fits in *. nia.
Qed.
Lemma mont_rounds_spec b t v : limbs_ok b -> running t v -> exists t' v', mont_rounds a n inv t b = Ok t' /\ running t' v' /\ exists q, span b * v' = v + lval a * lval b + q * lval n.
Proof.
  intros Hb. revert t v. induction Hb as [|bi b Hbi _ IH]; intros t v Hr; [exists t, v; split; [done|]; split; [done|]; exists 0; change (span []) with 1; cbn [lval]; lia|]. cbn [mont_rounds].
  destruct (mont_round_spec t v bi Hr Hbi) as (t1&v1&->&Hr1&q&E1). cbn [mbind outcome_bind]. destruct (IH t1 v1 Hr1) as (t2&v2&->&Hr2&q'&E2). exists t2, v2. split; [done|]. split; [done|]. exists (q + 2 ^ 64 * q'). rewrite span_cons. cbn [lval].
  rewrite <- Z.mul_assoc, E2. lia.
Qed.
(** Montgomery's product: below the modulus, and the product when multiplied by R. *)
Lemma montgomery_spec b : limbs_ok b -> length b = length n ->
  exists r, montgomery a b n inv = Ok r /\ limbs_ok r /\ length r = length n /\ 0 <= lval r < lval n /\ (span n * lval r) mod lval n = (lval a * lval b) mod lval n.
Proof.
  intros Hb Hlb. pose proof (lval_bound a Ha). pose proof (lval_bound n Hn). pose proof (zlen_nonneg n). unfold montgomery.
  assert (running (zrep (zlen n + 2) 0) 0) as Hz.
  { exists (replicate (length n) 0), 0, 0. split; [unfold zrep; replace (Z.to_nat (zlen n + 2)) with (length n + 2)%nat by (unfold zlen; lia); by rewrite replicate_add|].
    split; [apply Forall_replicate; by unfold fits|]. split; [apply length_replicate|]. split; [lia|]. rewrite lval_zeros. lia. }
  destruct (mont_rounds_spec b _ 0 Hb Hz) as (t&v&->&(low&hi&junk&->&Hlow&Hll&Hhi&Hv&Hvlt)&q&E). cbn [mbind outcome_bind]. assert (zlen n = zlen low) as Hzl by (unfold zlen; lia). rewrite limb_at by done. cbn [or_panic mbind outcome_bind]. rewrite ztake_app by done.
  pose proof (lval_bound low Hlow). assert (hi <= 1) by nia. eexists. split; [done|]. assert (lval low + span low * Z.b2z (negb (hi =? 0)) = v) as Ev.
  { rewrite (span_len low n Hll). destruct (Z.eqb_spec hi 0) as [->|]; cbn [negb Z.b2z]; [lia|]. assert (hi = 1) as -> by lia. lia. }
  destruct (reduced_spec (negb (hi =? 0)) low n Hlow Hn Hll ltac:(lia)) as (Hr&Hlr&Hvr). rewrite Ev in Hvr. split; [done|]. split; [done|]. rewrite Hvr. split; [apply Z.mod_pos_bound; lia|].
  rewrite Z.mul_mod_idemp_r by lia. rewrite <- (span_len b n Hlb), E, Z.add_0_l. apply Z.mod_add. lia.
Qed.
End Rounds.

(** ** Bytes as limbs *)
Lemma lval_insert j v x out : out !! j = Some x -> lval (<[j := v]> out) = lval out + 2 ^ (64 * Z.of_nat j) * (v - x).
Proof.
  revert j. induction out as [|y out IH]; intros j Hj; [done|]. destruct j as [|j]; [injection Hj as ->; cbn [insert list_insert lval]; change (2 ^ (64 * Z.of_nat 0)) with 1; lia|]. cbn in Hj. change (<[S j := v]> (y :: out)) with (y :: <[j := v]> out). cbn [lval]. rewrite (IH j Hj).
  replace (64 * Z.of_nat (S j)) with (64 + 64 * Z.of_nat j) by lia. rewrite Z.pow_add_r by lia. ring.
Qed.
Lemma lval_limb j x out : limbs_ok out -> out !! j = Some x -> 2 ^ (64 * Z.of_nat j) * x <= lval out.
Proof.
  intros Ho Hj. pose proof (lval_insert j 0 x out Hj) as E. assert (limbs_ok (<[j := 0]> out)) as H0 by (apply Forall_insert; [done|by unfold fits]). apply lval_bound in H0. lia.
Qed.
Lemma put_one_byte i b out : bytes_ok [b] -> limbs_ok out -> 0 <= i -> i < 8 * zlen out -> lval out < 2 ^ (8 * i) -> exists x out', zget out (i / 8) = Some x
  /\ put out (i / 8) (Z.lor x (wrap 64 (Z.shiftl b (8 * (i mod 8))))) = Ok out' /\ limbs_ok out' /\ length out' = length out /\ lval out' = lval out + 2 ^ (8 * i) * b.
Proof.
  intros [Hb _]%Forall_cons Ho Hi Hlen Hv. assert (0 <= i / 8 < zlen out) as Hj by (split; [apply Z.div_pos; lia|apply Z.div_lt_upper_bound; lia]). destruct (zget_is_Some out (i / 8) Hj) as [x Hx]. exists x. pose proof Hx as Hx'. unfold zget in Hx'.
  destruct (Z.ltb_spec (i / 8) 0); [lia|]. unfold put. destruct (Z.leb_spec 0 (i / 8)); [|lia]. destruct (Z.ltb_spec (i / 8) (zlen out)); [|lia]. cbn [andb]. eexists. split; [done|]. split; [done|].
  pose proof (Z.div_mod i 8 ltac:(lia)). pose proof (Z.mod_pos_bound i 8 ltac:(lia)). set (s := 8 * (i mod 8)) in *. assert (2 ^ (8 * i) = 2 ^ (64 * (i / 8)) * 2 ^ s) as Hp by (rewrite <- Z.pow_add_r by lia; f_equal; lia).
  pose proof (proj1 (Forall_lookup _ _) Ho _ _ Hx') as Hxf. assert (x < 2 ^ s) as Hxs. { pose proof (lval_limb _ _ _ Ho Hx') as Hlow. rewrite Z2Nat.id in Hlow by lia. assert (0 < 2 ^ (64 * (i / 8))) by (apply Z.pow_pos_nonneg; lia). nia. }
  assert (0 <= b * 2 ^ s /\ b * 2 ^ s < 2 ^ 64) as Hbs. { unfold u8, fits in Hb. assert (0 < 2 ^ s) by (apply Z.pow_pos_nonneg; lia). split; [nia|]. apply Z.lt_le_trans with (2 ^ 8 * 2 ^ s); [nia|]. rewrite <- Z.pow_add_r by lia. apply Z.pow_le_mono_r; lia. }
  assert (wrap 64 (Z.shiftl b s) = Z.shiftl b s) as -> by (apply wrap_id; rewrite Z.shiftl_mul_pow2 by lia; exact Hbs). assert (Z.lor x (Z.shiftl b s) = b * 2 ^ s + x) as E. { unfold fits in Hxf. rewrite Z.lor_comm, lor_shiftl_add by lia. lia. }
  split; [|split; [apply length_insert|]].
  - apply Forall_insert; [done|]. apply lor_fits; [done|done|]. rewrite Z.shiftl_mul_pow2 by lia. exact Hbs.
  - rewrite E, (lval_insert _ _ _ _ Hx'), Z2Nat.id, Hp by lia. ring.
Qed.
Lemma put_bytes_spec bytes i out : bytes_ok bytes -> limbs_ok out -> 0 <= i -> i + zlen bytes <= 8 * zlen out -> lval out < 2 ^ (8 * i) ->
  exists out', put_bytes out i bytes = Ok out' /\ limbs_ok out' /\ length out' = length out /\ lval out' = lval out + 2 ^ (8 * i) * le_val bytes.
Proof.
  intros Hb. revert i out. induction Hb as [|b bytes Hb Hbs IH]; intros i out Ho Hi Hlen Hv; [exists out; cbn [put_bytes le_val]; split; [done|]; split; [done|]; split; [done|lia]|]. rewrite zlen_cons in Hlen. pose proof (zlen_nonneg bytes). cbn [put_bytes].
  destruct (put_one_byte i b out ltac:(by constructor) Ho Hi ltac:(lia) Hv) as (x&out1&->&Hp&Ho1&Hl1&Hv1). cbn [or_panic mbind outcome_bind]. rewrite Hp. cbn [mbind outcome_bind].
  assert (2 ^ (8 * (i + 1)) = 256 * 2 ^ (8 * i)) as Hpow by (change 256 with (2 ^ 8); rewrite <- Z.pow_add_r by lia; f_equal; lia).
  destruct (IH (i + 1) out1) as (out2&->&Ho2&Hl2&Hv2); [done|lia|unfold zlen in *; lia|rewrite Hv1, Hpow; unfold u8, fits in Hb; nia|]. exists out2. split; [done|]. split; [done|]. split; [lia|]. rewrite Hv2, Hv1, Hpow. cbn [le_val]. ring.
Qed.
Lemma lval_ztake l out : limbs_ok out -> limbs_ok (ztake l out) /\ (lval out < 2 ^ (64 * l) -> 0 <= l <= zlen out -> lval (ztake l out) = lval out).
Proof.
  intros Ho. split; [by apply Forall_take|]. intros Hlt Hl. pose proof (ztake_zdrop l out) as E. pose proof (lval_app (ztake l out) (zdrop l out)) as Ea. rewrite E in Ea. assert (span (ztake l out) = 2 ^ (64 * l)) as Hs by (unfold span; rewrite zlen_ztake by lia; f_equal; lia).
  assert (limbs_ok (ztake l out)) as H1 by (by apply Forall_take). assert (limbs_ok (zdrop l out)) as H2 by (by apply Forall_drop). apply lval_bound in H1, H2. rewrite Hs in *. set (B := lval (zdrop l out)) in *. assert (B = 0) as HB by (destruct (Z.eq_dec B 0); [done|]; nia). rewrite HB in Ea. lia.
Qed.
Lemma limbs_spec bytes l : bytes_ok bytes -> 0 <= l -> exists r, limbs bytes l = Ok r /\ limbs_ok r /\ zlen r = l /\ (zlen bytes <= 8 * l -> lval r = be_val bytes).
Proof.
  intros Hb Hl. unfold limbs. pose proof (zlen_nonneg bytes). set (sz := Z.max l (div_ceil (zlen bytes) 8)). assert (zlen bytes <= 8 * sz) as Hsz by (unfold sz, div_ceil; pose proof (Z.div_mod (zlen bytes + 8 - 1) 8 ltac:(lia)); pose proof (Z.mod_pos_bound (zlen bytes + 8 - 1) 8 ltac:(lia)); lia).
  assert (0 <= sz) by lia. destruct (put_bytes_spec (rev bytes) 0 (zrep sz 0)) as (out&->&Ho&Hlo&Hv); [by apply Forall_rev|apply Forall_replicate; by unfold fits|lia|rewrite zlen_zrep by lia; unfold zlen in *; rewrite length_rev; lia|unfold zrep; rewrite lval_zeros; reflexivity|].
  cbn [mbind outcome_bind]. assert (zlen out = sz) as Hzo by (unfold zlen; rewrite Hlo; unfold zrep; rewrite length_replicate; lia). destruct (lval_ztake l out Ho) as [Ht Heq]. eexists. split; [done|]. split; [done|]. split; [rewrite zlen_ztake by lia; lia|].
  unfold zrep in Hv. rewrite lval_zeros in Hv. change (2 ^ (8 * 0)) with 1 in Hv. change (le_val (rev bytes)) with (be_val bytes) in Hv. intros Hle. pose proof (be_val_bound bytes Hb). assert (2 ^ (8 * zlen bytes) <= 2 ^ (64 * l)) by (apply Z.pow_le_mono_r; lia). rewrite Heq; lia.
Qed.
