(* ===== verification/Rsa.v ===== *)
(** * RSA signatures ([net/rsa.rs])

    Keys, the public operation and the two signature schemes of RFC 8017 that
    certificates and TLS servers use: a signature is accepted exactly when the
    public operation takes it to an encoding of the digest. *)
From Stdlib Require Import Znumtheory Zpow_facts.
From S2P Require Import Prelude Bytes Sha X25519 Limbs.

Definition SHA256_INFO : list Z := [0x30; 0x31; 0x30; 0x0d; 0x06; 0x09; 0x60; 0x86; 0x48; 0x01; 0x65; 0x03; 0x04; 0x02; 0x01; 0x05; 0x00; 0x04; 0x20].
Record PublicKey := mkPublicKey { pk_n : list Z; pk_len : Z; pk_e : Z }.

(** The bytes from the first that is not zero, if there is one. *)
Fixpoint stripped (l : list Z) : option (list Z) := match l with [] => None | b :: l' => if b =? 0 then stripped l' else Some l end.
Definition new (n e : list Z) : computes (option PublicKey) :=
  match stripped n, stripped e with
  | Some n, Some e =>
      if negb ((128 <=? zlen n) && (zlen n <=? 1024)) || (8 <? zlen e) then Ok None else
      ln ← or_panic (last n); le ← or_panic (last e);
      if (Z.land ln 1 =? 0) || (Z.land le 1 =? 0) then Ok None else
      v ← limbs n (div_ceil (zlen n) 8); Ok (Some (mkPublicKey v (zlen n) (be_fold 64 e)))
  | _, _ => Ok None
  end.

(** [-n⁻¹] at 64 bits: six steps of Newton's method, then the sign. *)
Fixpoint newton (k : nat) (n0 x : Z) : Z := match k with O => x | S k => newton k n0 (wrap 64 (x * wrap 64 (2 - wrap 64 (n0 * x)))) end.
Definition neg_inverse (n0 : Z) : Z := wrap 64 (- newton 6 n0 1).
Fixpoint doubled (k : nat) (x n : list Z) : computes (list Z) := match k with O => Ok x | S k => x ← double x n; doubled k x n end.
(** [ilog2]: none of zero. *)
Definition ilog2 (e : Z) : computes Z := if e =? 0 then Panic else Ok (Z.log2 e).
(** Square and multiply over the bits of [e] below [k]. *)
Fixpoint power (k : nat) (mul : list Z -> list Z -> computes (list Z)) (acc base : list Z) (e : Z) : computes (list Z) :=
  match k with
  | O => Ok acc
  | S k =>
      acc ← mul acc acc;
      acc ← (if Z.land (Z.shiftr e (Z.of_nat k)) 1 =? 1 then mul acc base else Ok acc);
      power k mul acc base e
  end.
Definition open (k : PublicKey) (sig : list Z) : computes (option (list Z)) :=
  let n := pk_n k in let l := zlen n in
  s ← limbs sig l;
  if negb (zlen sig =? pk_len k) || negb (less s n) then Ok None else
  n0 ← or_panic (zget n 0);
  let inv := neg_inverse n0 in let mul a b := montgomery a b n inv in
  one ← limbs [1] l;
  r2 ← doubled (Z.to_nat (128 * l)) one n;
  base ← mul s r2;
  top ← ilog2 (pk_e k);
  acc ← power (Z.to_nat top) mul base base (pk_e k);
  out ← mul acc one;
  skip ← fit 64 (8 * l - pk_len k);
  Ok (Some (zdrop skip (concat (map (be_bytes 8) (rev out))))).

Definition verify_pkcs1 (k : PublicKey) (digest sig : list Z) : computes bool :=
  o ← open k sig;
  match o with
  | None => Ok false
  | Some em => pad ← fit 64 (pk_len k - 3 - zlen SHA256_INFO - 32); Ok (bool_decide (em = [0; 1] ++ zrep pad 255 ++ [0] ++ SHA256_INFO ++ digest))
  end.

(** [mgf1]: blocks until there are [len] bytes. *)
Fixpoint mgf1_from (fuel : nat) (seed : list Z) (len counter : Z) (out : list Z) : list Z :=
  match fuel with
  | O => out
  | S fuel => if len <=? zlen out then out else mgf1_from fuel seed len (counter + 1) (out ++ sha_finish (update (update sha_default seed) (be_bytes 4 counter)))
  end.
Definition mgf1 (seed : list Z) (len : Z) : list Z := ztake len (mgf1_from (Z.to_nat len) seed len 0 []).
(** [split_at]. *)
Definition split_at (l : list Z) (i : Z) : computes (list Z * list Z) := if (0 <=? i) && (i <=? zlen l) then Ok (ztake i l, zdrop i l) else Panic.
(** [db.iter_mut().zip(masked)]. *)
Fixpoint xor_with (d m : list Z) : list Z := match d, m with x :: d, y :: m => Z.lxor x y :: xor_with d m | d, _ => d end.
Definition leading_zeros (x : Z) : Z := if x =? 0 then 64 else 63 - Z.log2 x.
Definition bits (k : PublicKey) : computes Z := top ← or_panic (last (pk_n k)); fit 64 (64 * zlen (pk_n k) - leading_zeros top).
(** [0xff >> k] of a byte. *)
Definition top_mask (k : Z) : computes Z := if (0 <=? k) && (k <? 8) then Ok (Z.shiftr 255 k) else Panic.
(** [verify_pss] from the last byte on. *)
Definition pss_check (digest em : list Z) (top : Z) : computes bool :=
  z ← or_panic (zget em (zlen em - 1)); a ← or_panic (zget em 0);
  if negb (z =? 0xbc) || negb (Z.land a (Z.lxor top 255) =? 0) then Ok false else
  '(masked, h) ← split_at (ztake (zlen em - 1) em) (zlen em - 33);
  let db := xor_with (mgf1 h (zlen masked)) masked in
  d ← or_panic (zget db 0); db ← put db 0 (Z.land d top);
  '(ps, rest) ← split_at db (zlen db - 33);
  one ← or_panic (zget rest 0);
  let m := update (update (update sha_default (zrep 8 0)) digest) (zdrop 1 rest) in
  Ok (forallb (fun b => b =? 0) ps && (one =? 1) && bool_decide (sha_finish m = h)).
Definition verify_pss (k : PublicKey) (digest sig : list Z) : computes bool :=
  o ← open k sig;
  match o with
  | None => Ok false
  | Some full =>
      b ← bits k; bits ← fit 64 (b - 1); at_ ← fit 64 (pk_len k - div_ceil bits 8);
      '(lead, em) ← split_at full at_;
      top ← top_mask (8 * zlen em - bits);
      if existsb (fun b => negb (b =? 0)) lead || (zlen em <? 66) then Ok false else pss_check digest em top
  end.

(** ** RFC 8017 *)

(** Section 9.2: EMSA-PKCS1-v1_5. *)
Definition pkcs1_encode (len : Z) (digest : list Z) : list Z := [0; 1] ++ zrep (len - 54) 255 ++ [0] ++ SHA256_INFO ++ digest.
(** Appendix B.2.1: the mask generation function. *)
Definition mgf (seed : list Z) (len : Z) : list Z := ztake len (concat (map (fun i => sha256 (seed ++ be_bytes 4 i)) (seqZ 0 (div_ceil len 32)))).
(** Masking, with the bits past [top] of the first byte cleared. *)
Definition masked_by (top : Z) (mask db : list Z) : list Z := match xor_with mask db with [] => [] | x :: l => Z.land x top :: l end.
(** Section 9.1.1: EMSA-PSS of a 32-byte salt. *)
Definition pss_encode (bits : Z) (digest salt : list Z) : list Z :=
  let len := div_ceil bits 8 in
  let h := sha256 (zrep 8 0 ++ digest ++ salt) in
  let db := zrep (len - 66) 0 ++ [1] ++ salt in
  masked_by (Z.shiftr 255 (8 * len - bits)) (mgf h (len - 33)) db ++ h ++ [0xbc].

(** ** Modular arithmetic *)
Lemma equal_mod N a b : 0 < N -> a mod N = b mod N <-> (N | a - b).
Proof.
  intros HN. split; [intros H; apply Z.mod_divide; [lia|]; rewrite Zminus_mod, H, Z.sub_diag; done|]. intros [k H]. replace a with (b + k * N) by lia. by apply Z.mod_add; lia.
Qed.
Lemma odd_prime_to_2 N k : Z.odd N = true -> 0 <= k -> rel_prime N (2 ^ k).
Proof.
  intros HN Hk. apply rel_prime_Zpower_r; [done|]. apply Z.odd_spec in HN as [m ->]. apply bezout_rel_prime. apply (Bezout_intro _ _ _ 1 (- m)). ring.
Qed.
Lemma cancel_pow2 N k a b : 0 < N -> Z.odd N = true -> 0 <= k -> (2 ^ k * a) mod N = (2 ^ k * b) mod N -> a mod N = b mod N.
Proof.
  intros HN Ho Hk H. apply equal_mod; [done|]. apply equal_mod in H; [|done]. apply (Gauss N (2 ^ k)); [|by apply odd_prime_to_2]. by rewrite Z.mul_sub_distr_l.
Qed.
(** Each step of Newton's method doubles the bits of the inverse. *)
Lemma newton_spec k n0 x m : 0 <= m -> m * 2 ^ Z.of_nat k <= 64 -> (2 ^ m | n0 * x - 1) -> (2 ^ (m * 2 ^ Z.of_nat k) | n0 * newton k n0 x - 1).
Proof.
  revert x m. induction k as [|k IH]; intros x m Hm Hk Hx; [by rewrite Z.mul_1_r|]. cbn [newton]. rewrite Nat2Z.inj_succ, Z.pow_succ_r, Z.mul_assoc in * by lia. assert (0 < 2 ^ Z.of_nat k) by lia.
  apply IH; [lia|done|]. assert (m * 2 <= 64) as Hm2 by nia. set (y := wrap 64 (n0 * x)). destruct Hx as [t Ht].
  assert ((2 ^ (m * 2) | 2 ^ 64)) as Hd by (exists (2 ^ (64 - m * 2)); rewrite <- Z.pow_add_r by lia; f_equal; lia).
  assert (forall z, (2 ^ (m * 2) | wrap 64 z - z)) as Hw. { intros z. eapply Z.divide_trans; [exact Hd|]. apply equal_mod; [lia|]. unfold wrap. by rewrite Z.mod_mod. }
  set (z := wrap 64 (2 - y)). pose proof (Hw (x * z)) as [a Ha]. pose proof (Hw (2 - y)) as [b Hb]. fold z in Hb. pose proof (Hw (n0 * x)) as [c Hc]. fold y in Hc.
  replace (2 ^ (m * 2)) with (2 ^ m * 2 ^ m) in * by (rewrite <- Z.pow_add_r by lia; f_equal; lia). set (P := 2 ^ m) in *. clearbody P z y.
  exists (n0 * a + n0 * x * b - n0 * x * c - t * t). replace (wrap 64 (x * z)) with (x * z + a * (P * P)) by lia. replace z with (2 - y + b * (P * P)) by lia. replace y with (n0 * x + c * (P * P)) by lia.
  transitivity (n0 * a * (P * P) + n0 * x * b * (P * P) - n0 * x * c * (P * P) + (n0 * x) * (2 - n0 * x) - 1); [ring|]. replace (n0 * x) with (t * P + 1) by lia. ring.
Qed.
Lemma neg_inverse_spec n0 : Z.odd n0 = true -> (n0 * neg_inverse n0 + 1) mod 2 ^ 64 = 0.
Proof.
  intros Ho. assert ((2 ^ 1 | n0 * 1 - 1)) as H1 by (apply Z.odd_spec in Ho as [m ->]; exists m; lia).
  pose proof (newton_spec 6 n0 1 1 ltac:(lia) ltac:(vm_compute; discriminate) H1) as [t Ht]. change (1 * 2 ^ Z.of_nat 6) with 64 in Ht. set (x := newton 6 n0 1) in *.
  unfold neg_inverse. fold x. clearbody x. unfold wrap. rewrite <- Z.add_mod_idemp_l, Z.mul_mod_idemp_r, Z.add_mod_idemp_l by lia. apply Z.mod_divide; [lia|]. exists (- t). lia.
Qed.

Lemma inverse_of_low n0 m inv : (n0 * inv + 1) mod 2 ^ 64 = 0 -> ((n0 + 2 ^ 64 * m) * inv + 1) mod 2 ^ 64 = 0.
Proof. intros H. replace ((n0 + 2 ^ 64 * m) * inv + 1) with (n0 * inv + 1 + m * inv * 2 ^ 64) by ring. by rewrite Z.mod_add by lia. Qed.

(** ** The public operation *)
Record key_ok (k : PublicKey) (N E : Z) : Prop := {
  ko_limbs : limbs_ok (pk_n k);
  ko_value : lval (pk_n k) = N;
  ko_count : zlen (pk_n k) = div_ceil (pk_len k) 8;
  ko_len : 128 <= pk_len k <= 1024;
  ko_size : 2 ^ (8 * (pk_len k - 1)) <= N < 2 ^ (8 * pk_len k);
  ko_odd : Z.odd N = true;
  ko_e : pk_e k = E;
  ko_e_odd : Z.odd E = true;
  ko_e_fits : 0 < E < 2 ^ 64;
}.

Section Public.
Context (k : PublicKey) (N E : Z) (Hk : key_ok k N E).
Let n := pk_n k.
Lemma modulus_big : 1 < N.
Proof. destruct Hk. assert (2 ^ 1 <= 2 ^ (8 * (pk_len k - 1))) by (apply Z.pow_le_mono_r; lia). change (2 ^ 1) with 2 in *. lia. Qed.
Lemma limb_count : zlen n * 8 - 8 < pk_len k <= zlen n * 8 /\ 16 <= zlen n <= 128.
Proof.
  unfold n. destruct Hk as [_ _ Hc Hl _ _ _ _ _]. rewrite Hc. unfold div_ceil. pose proof (Z.div_mod (pk_len k + 8 - 1) 8 ltac:(lia)). pose proof (Z.mod_pos_bound (pk_len k + 8 - 1) 8 ltac:(lia)). lia.
Qed.
Lemma modulus_not_empty : n <> [].
Proof. intros H. pose proof limb_count as [_ Hl]. rewrite H in Hl. change (zlen []) with 0 in Hl. lia. Qed.
Lemma lowest_limb : exists n0, zget n 0 = Some n0 /\ (N * neg_inverse n0 + 1) mod 2 ^ 64 = 0.
Proof.
  pose proof modulus_not_empty as Hne. pose proof (ko_value _ _ _ Hk) as Hv. fold n in Hv. destruct n as [|n0 ns]; [done|]. exists n0. split; [done|]. cbn [lval] in Hv.
  assert (Z.odd n0 = true) as Ho. { pose proof (ko_odd _ _ _ Hk) as Ho. rewrite <- Hv in Ho. rewrite Z.odd_add_mul_even in Ho; [done|]. by exists (2 ^ 63). }
  rewrite <- Hv. apply inverse_of_low. by apply neg_inverse_spec.
Qed.

(** A number in Montgomery's form. *)
Definition form (x : list Z) (v : Z) : Prop := limbs_ok x /\ length x = length n /\ 0 <= lval x < N /\ lval x mod N = (span n * v) mod N.
Lemma mul_form n0 x y v w : zget n 0 = Some n0 -> (N * neg_inverse n0 + 1) mod 2 ^ 64 = 0 -> form x v -> limbs_ok y -> length y = length n -> lval y mod N = (span n * w) mod N ->
  exists r, montgomery x y n (neg_inverse n0) = Ok r /\ form r (v * w).
Proof.
  intros Hn0 Hinv (Hx&Hlx&Hbx&Hvx) Hy Hly Hvy. pose proof modulus_big. pose proof (ko_value _ _ _ Hk) as Hv. fold n in Hv. rewrite <- Hv in Hinv.
  destruct (montgomery_spec x n (neg_inverse n0) Hx (ko_limbs _ _ _ Hk) Hlx modulus_not_empty ltac:(lia) Hinv y Hy Hly) as (r&->&Hr&Hlr&Hbr&Hm). exists r. split; [done|]. rewrite Hv in *. split; [done|]. split; [done|]. split; [done|].
  apply (cancel_pow2 N (64 * zlen n)); [lia|apply (ko_odd _ _ _ Hk)|pose proof (zlen_nonneg n); lia|]. fold (span n). rewrite Hm, <- Z.mul_mod_idemp_l, <- Z.mul_mod_idemp_r, Hvx, Hvy, Z.mul_mod_idemp_l, Z.mul_mod_idemp_r by lia. f_equal. ring.
Qed.
Lemma doubled_spec j x : limbs_ok x -> length x = length n -> 0 <= lval x < N -> exists r, doubled j x n = Ok r /\ limbs_ok r /\ length r = length n /\ 0 <= lval r < N /\ lval r mod N = (2 ^ Z.of_nat j * lval x) mod N.
Proof.
  pose proof modulus_big. pose proof (ko_value _ _ _ Hk) as Hv. fold n in Hv. revert x. induction j as [|j IH]; intros x Hx Hl Hb; [exists x; split; [done|]; split; [done|]; split; [done|]; split; [done|]; by rewrite Z.mul_1_l|].
  cbn [doubled]. destruct (double_spec x n) as (y&->&Hy&Hly&Hvy); [intros ->; by destruct n eqn:En; [apply modulus_not_empty|]|done|apply (ko_limbs _ _ _ Hk)|done|lia|]. cbn [mbind outcome_bind]. rewrite Hv in Hvy.
  destruct (IH y Hy Hly) as (r&->&Hr&Hlr&Hbr&Hvr); [rewrite Hvy; apply Z.mod_pos_bound; lia|]. exists r. split; [done|]. split; [done|]. split; [done|]. split; [done|].
  rewrite Hvr, Hvy, Z.mul_mod_idemp_r, Nat2Z.inj_succ, Z.pow_succ_r by lia. f_equal. ring.
Qed.
Lemma shiftr_bit e j : 0 <= e -> 0 <= j -> Z.shiftr e j = 2 * Z.shiftr e (j + 1) + Z.land (Z.shiftr e j) 1 /\ (Z.land (Z.shiftr e j) 1 = 0 \/ Z.land (Z.shiftr e j) 1 = 1).
Proof.
  intros He Hj. rewrite <- Z.shiftr_shiftr by lia. set (y := Z.shiftr e j). assert (Z.land y 1 = y mod 2) as -> by exact (Z.land_ones y 1 ltac:(lia)). rewrite (Z.shiftr_div_pow2 y 1) by lia. change (2 ^ 1) with 2.
  pose proof (Z.div_mod y 2 ltac:(lia)). pose proof (Z.mod_pos_bound y 2 ltac:(lia)). lia.
Qed.
Lemma power_spec n0 j s base acc : zget n 0 = Some n0 -> (N * neg_inverse n0 + 1) mod 2 ^ 64 = 0 -> form base s -> form acc (s ^ Z.shiftr E (Z.of_nat j)) ->
  exists r, power j (fun a b => montgomery a b n (neg_inverse n0)) acc base E = Ok r /\ form r (s ^ E).
Proof.
  intros Hn0 Hinv Hb. pose proof Hb as (Hb1&Hb2&_&Hb3). pose proof (ko_e_fits _ _ _ Hk). revert acc. induction j as [|j IH]; intros acc Hacc; [exists acc; by rewrite Z.shiftr_0_r in Hacc|]. cbn [power]. pose proof Hacc as (H1&H2&_&H3).
  destruct (mul_form n0 _ _ _ _ Hn0 Hinv Hacc H1 H2 H3) as (sq&->&Hsq). cbn [mbind outcome_bind]. set (e1 := Z.shiftr E (Z.of_nat (S j))) in *. assert (0 <= e1) by (apply Z.shiftr_nonneg; lia).
  destruct (shiftr_bit E (Z.of_nat j) ltac:(lia) ltac:(lia)) as [Hs Hbit]. replace (Z.of_nat j + 1) with (Z.of_nat (S j)) in Hs by lia. fold e1 in Hs.
  assert (exists acc', (if Z.land (Z.shiftr E (Z.of_nat j)) 1 =? 1 then montgomery sq base n (neg_inverse n0) else Ok sq) = Ok acc' /\ form acc' (s ^ Z.shiftr E (Z.of_nat j))) as (acc'&->&Ha).
  { destruct Hbit as [Hbit|Hbit]; rewrite Hbit in *; cbn [Z.eqb]; [exists sq; split; [done|]|destruct (mul_form n0 _ _ _ _ Hn0 Hinv Hsq Hb1 Hb2 Hb3) as (r&Hr&Hf); exists r; split; [done|]].
    - rewrite Hs, Z.add_0_r, Z.mul_comm, Z.pow_mul_r, Z.pow_2_r by lia. done.
    - rewrite Hs, Z.pow_add_r, Z.pow_1_r, (Z.mul_comm 2), Z.pow_mul_r, Z.pow_2_r by lia. done. }
  cbn [mbind outcome_bind]. by apply IH.
Qed.
End Public.

Lemma be_val_app a b : be_val (a ++ b) = be_val a * 2 ^ (8 * zlen b) + be_val b.
Proof. unfold be_val. rewrite rev_app_distr, le_val_app. replace (zlen (rev b)) with (zlen b) by (unfold zlen; by rewrite length_rev). lia. Qed.
Lemma be_unique a b : bytes_ok a -> bytes_ok b -> length a = length b -> be_val a = be_val b -> a = b.
Proof. intros Ha Hb Hl Hv. by rewrite <- (be_bytes_val a Ha), <- (be_bytes_val b Hb), Hl, Hv. Qed.
Lemma be_val_zeros n l : be_val (zrep n 0 ++ l) = be_val l.
Proof.
  rewrite be_val_app. assert (be_val (zrep n 0) = 0) as ->; [|lia]. unfold zrep. induction (Z.to_nat n) as [|m IH]; [done|]. rewrite replicate_S_end, be_val_snoc, IH. done.
Qed.
Lemma limb_bytes out : limbs_ok out -> let b := concat (map (be_bytes 8) (rev out)) in bytes_ok b /\ zlen b = 8 * zlen out /\ be_val b = lval out.
Proof.
  induction 1 as [|x out Hx _ (Hb&Hl&Hv)]; [done|]. cbn [rev]. cbv zeta. rewrite map_app, concat_app. cbn [map concat]. rewrite app_nil_r. split; [apply Forall_app; split; [done|apply be_bytes_ok]|].
  rewrite zlen_app, be_val_app, be_bytes_zlen, Hl, Hv, zlen_cons, be_round_trip by exact Hx. split; [lia|]. cbn [lval]. change (8 * Z.of_nat 8) with 64. lia.
Qed.
(** The bytes of a number that fits in fewer. *)
Lemma drop_leading b skip : bytes_ok b -> 0 <= skip <= zlen b -> be_val b < 2 ^ (8 * (zlen b - skip)) -> zdrop skip b = be_bytes (Z.to_nat (zlen b - skip)) (be_val b).
Proof.
  intros Hb Hs Hv. pose proof (be_val_bound b Hb). set (m := Z.to_nat (zlen b - skip)). assert (b = zrep skip 0 ++ be_bytes m (be_val b)) as E; [|rewrite E at 1; apply zdrop_app; by rewrite zlen_zrep by lia].
  apply be_unique; [done| | |].
  - apply Forall_app. split; [apply Forall_replicate; by unfold fits|apply be_bytes_ok].
  - apply Nat2Z.inj. change (zlen b = zlen (zrep skip 0 ++ be_bytes m (be_val b))). rewrite zlen_app, zlen_zrep, be_bytes_zlen by lia. lia.
  - rewrite be_val_zeros, be_round_trip; [done|]. unfold fits. unfold m. rewrite Z2Nat.id by lia. lia.
Qed.

Lemma open_spec k N E sig : key_ok k N E -> bytes_ok sig ->
  open k sig = Ok (if (zlen sig =? pk_len k) && (be_val sig <? N) then Some (be_bytes (Z.to_nat (pk_len k)) (be_val sig ^ E mod N)) else None).
Proof.
  intros Hk Hsig. pose proof (modulus_big k N E Hk) as HN. pose proof (limb_count k N E Hk) as [Hcount Hl]. pose proof (ko_value _ _ _ Hk) as Hv. unfold open. cbv zeta. set (l := zlen (pk_n k)) in *.
  destruct (limbs_spec sig l Hsig ltac:(lia)) as (s&->&Hs&Hls&Hvs). cbn [mbind outcome_bind]. assert (length s = length (pk_n k)) as Hlsn by (unfold l, zlen in Hls; lia). rewrite less_spec, Hv by (done || apply (ko_limbs _ _ _ Hk)).
  destruct (Z.eqb_spec (zlen sig) (pk_len k)) as [Hlen|]; [|done]. cbn [negb orb andb]. rewrite Hvs by lia. destruct (Z.ltb_spec (be_val sig) N) as [Hlt|]; [|done]. cbn [negb].
  destruct (lowest_limb k N E Hk) as (n0&Hn0&Hinv). rewrite Hn0. cbn [or_panic mbind outcome_bind]. destruct (limbs_spec [1] l ltac:(by repeat constructor) ltac:(lia)) as (one&->&Ho&Hlo&Hvo). cbn [mbind outcome_bind]. specialize (Hvo ltac:(change (zlen [1]) with 1; lia)). change (be_val [1]) with 1 in Hvo.
  assert (length one = length (pk_n k)) as Hlon by (unfold l, zlen in Hlo; lia). destruct (doubled_spec k N E Hk (Z.to_nat (128 * l)) one Ho Hlon ltac:(lia)) as (r2&->&Hr2&Hlr2&_&Hvr2). cbn [mbind outcome_bind]. rewrite Hvo, Z.mul_1_r, Z2Nat.id in Hvr2 by lia.
  pose proof (be_val_bound sig Hsig) as [Hs0 _]. assert (rel_s : lval s = be_val sig) by (apply Hvs; lia). pose proof (ko_limbs _ _ _ Hk) as Hnl.
  rewrite <- Hv in Hinv. destruct (montgomery_spec s (pk_n k) (neg_inverse n0) Hs Hnl Hlsn (modulus_not_empty k N E Hk) ltac:(lia) Hinv r2 Hr2 Hlr2) as (base&->&Hb&Hlb&Hbb&Hvb). cbn [mbind outcome_bind]. rewrite Hv in *.
  assert (form k N base (be_val sig)) as Hbase.
  { split; [done|]. split; [done|]. split; [done|]. apply (cancel_pow2 N (64 * l)); [lia|apply (ko_odd _ _ _ Hk)|lia|]. unfold span in Hvb |- *. fold l. fold l in Hvb. rewrite Hvb, rel_s, <- Z.mul_mod_idemp_r, Hvr2, Z.mul_mod_idemp_r by lia. f_equal. replace (128 * l) with (64 * l + 64 * l) by lia. rewrite Z.pow_add_r by lia. ring. }
  rewrite (ko_e _ _ _ Hk). pose proof (ko_e_fits _ _ _ Hk) as HE. unfold ilog2. destruct (Z.eqb_spec E 0); [lia|]. cbn [mbind outcome_bind]. pose proof (Z.log2_nonneg E).
  destruct (power_spec k N E Hk n0 (Z.to_nat (Z.log2 E)) (be_val sig) base base Hn0 Hinv Hbase) as (acc&->&Hacc).
  { rewrite Z2Nat.id, Z.shiftr_div_pow2 by lia. pose proof (Z.log2_spec E ltac:(lia)) as Hlg. rewrite Z.pow_succ_r in Hlg by lia. replace (E / 2 ^ Z.log2 E) with 1; [by rewrite Z.pow_1_r|]. apply Z.div_unique with (E - 2 ^ Z.log2 E); lia. }
  cbn [mbind outcome_bind]. destruct Hacc as (Ha&Hla&Hba&Hva). rewrite <- Hv in Hinv. destruct (montgomery_spec acc (pk_n k) (neg_inverse n0) Ha Hnl Hla (modulus_not_empty k N E Hk) ltac:(lia) Hinv one Ho Hlon) as (out&->&Hout&Hlout&Hbout&Hvout). cbn [mbind outcome_bind]. rewrite Hv in *.
  assert (lval out = be_val sig ^ E mod N) as Hres.
  { rewrite <- (Z.mod_small (lval out) N) by done. apply (cancel_pow2 N (64 * l)); [lia|apply (ko_odd _ _ _ Hk)|lia|]. unfold span in *. fold l in Hva. fold l in Hvout. by rewrite Hvout, Hvo, Z.mul_1_r. }
  rewrite fits_width by (assert (2 ^ 10 < 2 ^ 64) by (apply Z.pow_lt_mono_r; lia); change (2 ^ 10) with 1024 in *; lia). cbn [mbind outcome_bind]. destruct (limb_bytes out Hout) as (Hbo&Hlbo&Hvbo). assert (zlen out = l) as Hlz by (unfold l, zlen; lia).
  pose proof (ko_size _ _ _ Hk). rewrite drop_leading, Hlbo, Hvbo, Hres; [do 3 f_equal; lia|done|lia|]. rewrite Hlbo, Hvbo, Hlz. replace (8 * l - (8 * l - pk_len k)) with (pk_len k) by lia. lia.
Qed.

(** ** Keys *)
Lemma stripped_spec l : bytes_ok l -> match stripped l with
  | Some l' => bytes_ok l' /\ be_val l' = be_val l /\ 1 <= zlen l' /\ 2 ^ (8 * (zlen l' - 1)) <= be_val l
  | None => be_val l = 0 end.
Proof.
  induction 1 as [|b l Hb Hl IH]; [done|]. cbn [stripped]. change (b :: l) with ([b] ++ l). rewrite be_val_app. change (be_val [b]) with (b + 0). destruct (Z.eqb_spec b 0) as [->|Hne]; [destruct (stripped l) as [l'|]; rewrite ?Z.mul_0_l, ?Z.add_0_l; exact IH|].
  pose proof (be_val_bound l Hl). pose proof (zlen_nonneg l). split; [by constructor|]. split; [by rewrite be_val_app|]. rewrite zlen_app. change (zlen [b]) with 1. split; [lia|]. replace (1 + zlen l - 1) with (zlen l) by lia. unfold u8, fits in Hb. assert (0 < 2 ^ (8 * zlen l)) by (apply Z.pow_pos_nonneg; lia). nia.
Qed.
Lemma last_parity l : l <> [] -> exists b, last l = Some b /\ (Z.land b 1 =? 0) = negb (Z.odd (be_val l)).
Proof.
  intros Hne. destruct (exists_last Hne) as (x&b&->). exists b. split; [apply last_snoc|]. rewrite be_val_snoc, Z.add_comm, Z.odd_add_mul_even by (by exists 128). assert (Z.land b 1 = b mod 2) as -> by exact (Z.land_ones b 1 ltac:(lia)). rewrite Zmod_odd. by destruct (Z.odd b).
Qed.
(** What makes a key: an odd modulus of 128 to 1024 bytes and an odd exponent
    of 64 bits. *)
Definition keyed (N E : Z) : Prop := 2 ^ (8 * 127) <= N < 2 ^ (8 * 1024) /\ Z.odd N = true /\ E < 2 ^ 64 /\ Z.odd E = true.
Lemma byte_length N len : 1 <= len -> 2 ^ (8 * (len - 1)) <= N < 2 ^ (8 * len) -> forall m, 0 <= m -> (N < 2 ^ (8 * m) <-> len <= m).
Proof.
  intros Hl [Hlo Hhi] m Hm. split.
  - intros H. destruct (Z.le_gt_cases len m); [done|]. assert (2 ^ (8 * m) <= 2 ^ (8 * (len - 1))) by (apply Z.pow_le_mono_r; lia). lia.
  - intros H. assert (2 ^ (8 * len) <= 2 ^ (8 * m)) by (apply Z.pow_le_mono_r; lia). lia.
Qed.
Lemma new_spec nb eb : bytes_ok nb -> bytes_ok eb -> exists o, new nb eb = Ok o /\ match o with Some k => keyed (be_val nb) (be_val eb) /\ key_ok k (be_val nb) (be_val eb) | None => ~ keyed (be_val nb) (be_val eb) end.
Proof.
  intros Hn He. unfold new. pose proof (stripped_spec nb Hn) as Sn. pose proof (stripped_spec eb He) as Se. destruct (stripped nb) as [n|]; [|exists None; split; [done|]; intros (_&Ho&_); by rewrite Sn in Ho].
  destruct (stripped eb) as [e|]; [|exists None; split; [done|]; intros (_&_&_&Ho); by rewrite Se in Ho]. destruct Sn as (Hnb&<-&Hnl&Hnlo), Se as (Heb&<-&Hel&Helo). pose proof (be_val_bound n Hnb) as [Hn0 Hnhi]. pose proof (be_val_bound e Heb) as [He0 Hehi].
  pose proof (byte_length _ _ Hnl (conj Hnlo Hnhi)) as Hbn. pose proof (byte_length _ _ Hel (conj Helo Hehi)) as Hbe. set (N := be_val n) in *. set (E := be_val e) in *.
  assert (keyed N E <-> (128 <= zlen n <= 1024 /\ zlen e <= 8) /\ Z.odd N = true /\ Z.odd E = true) as Hkeyed.
  { unfold keyed. rewrite (Hbn 1024 ltac:(lia)). change 64 with (8 * 8). rewrite (Hbe 8 ltac:(lia)). pose proof (Hbn 127 ltac:(lia)) as H127. set (P := 2 ^ (8 * 127)) in *. clearbody P. clear -H127. split; intros H; decompose [and] H; repeat split; try done; lia. }
  destruct (negb _ || _) eqn:Hc1.
  { exists None. split; [done|]. rewrite Hkeyed. intros ((?&?)&_). revert Hc1. destruct (Z.leb_spec 128 (zlen n)), (Z.leb_spec (zlen n) 1024), (Z.ltb_spec 8 (zlen e)); done || lia. }
  assert (128 <= zlen n <= 1024 /\ zlen e <= 8) as [Hnr Her]. { revert Hc1. destruct (Z.leb_spec 128 (zlen n)), (Z.leb_spec (zlen n) 1024), (Z.ltb_spec 8 (zlen e)); done || lia. }
  destruct (last_parity n) as (bn&->&Hpn); [intros ->; change (zlen []) with 0 in *; lia|]. destruct (last_parity e) as (be&->&Hpe); [intros ->; change (zlen []) with 0 in *; lia|]. cbn [or_panic mbind outcome_bind]. rewrite Hpn, Hpe. fold N E.
  destruct (Z.odd N) eqn:HoN; [|exists None; split; [done|]; rewrite Hkeyed; by intros (_&?&_)]. destruct (Z.odd E) eqn:HoE; [|exists None; split; [done|]; rewrite Hkeyed; by intros (_&_&?)]. cbn [negb orb].
  assert (0 <= div_ceil (zlen n) 8 /\ zlen n <= 8 * div_ceil (zlen n) 8) as [Hd0 Hd]. { unfold div_ceil. pose proof (Z.div_mod (zlen n + 8 - 1) 8 ltac:(lia)). pose proof (Z.mod_pos_bound (zlen n + 8 - 1) 8 ltac:(lia)). lia. }
  destruct (limbs_spec n _ Hnb Hd0) as (v&->&Hv&Hlv&Hvv). cbn [mbind outcome_bind]. eexists. split; [done|]. split; [by apply Hkeyed|]. assert (E < 2 ^ 64) as HE64 by (apply (Hbe 8); lia).
  split; cbn [pk_n pk_len pk_e]; [done|by apply Hvv|done|lia|done|done| |done|].
  - rewrite be_fold_val by (done || lia). apply wrap_id. done.
  - split; [|done]. destruct (Z.eq_dec E 0) as [E0|]; [rewrite E0 in HoE; done|lia].
Qed.

(** ** Encodings *)
Lemma sha256_shape m : zlen (sha256 m) = 32 /\ bytes_ok (sha256 m).
Proof. split; [apply state_bytes_zlen|]. unfold sha256, state_bytes. apply Forall_concat, Forall_map, Forall_forall. intros x _. apply be_bytes_ok. Qed.
Lemma blocks_zlen seed l : zlen (concat (map (fun i => sha256 (seed ++ be_bytes 4 i)) l)) = 32 * zlen l.
Proof. induction l as [|x l IH]; [done|]. cbn [map concat]. rewrite zlen_app, IH, zlen_cons, (proj1 (sha256_shape _)). lia. Qed.
Lemma mgf1_from_spec fuel seed len i : zlen seed < 2 ^ 32 -> 0 <= i -> len <= 32 * (i + Z.of_nat fuel) -> let blk i := sha256 (seed ++ be_bytes 4 i) in
  mgf1_from fuel seed len i (concat (map blk (seqZ 0 i))) = concat (map blk (seqZ 0 (Z.max i (div_ceil len 32)))).
Proof.
  intros Hs. cbv zeta. set (blk := fun i => sha256 (seed ++ be_bytes 4 i)). revert i. assert (forall i, 0 <= i -> zlen (concat (map blk (seqZ 0 i))) = 32 * i) as Hz.
  { intros i Hi. unfold blk. rewrite blocks_zlen. unfold zlen. rewrite length_seqZ. lia. }
  unfold div_ceil. pose proof (Z.div_mod (len + 32 - 1) 32 ltac:(lia)). pose proof (Z.mod_pos_bound (len + 32 - 1) 32 ltac:(lia)).
  induction fuel as [|fuel IH]; intros i Hi Hf; cbn [mgf1_from]; [by rewrite Z.max_l by lia|]. rewrite Hz by done. destruct (Z.leb_spec len (32 * i)); [by rewrite Z.max_l by lia|].
  assert (sha_finish (update (update sha_default seed) (be_bytes 4 i)) = blk i) as ->. { apply (finish_spec _ (seed ++ be_bytes 4 i)); [apply (update_spec _ ([] ++ seed)), update_spec, hashed_default|]. rewrite zlen_app, be_bytes_zlen. lia. }
  replace (concat (map blk (seqZ 0 i)) ++ blk i) with (concat (map blk (seqZ 0 (i + 1)))) by (rewrite seqZ_app by lia; rewrite map_app, concat_app; cbn [seqZ seq fmap list_fmap map concat]; change (seqZ (0 + i) 1) with [Z.of_nat 0 + (0 + i)]; cbn [map concat]; rewrite app_nil_r; do 2 f_equal; lia).
  rewrite IH by lia. by replace (Z.max (i + 1) ((len + 32 - 1) / 32)) with (Z.max i ((len + 32 - 1) / 32)) by lia.
Qed.
Lemma mgf1_spec seed len : zlen seed < 2 ^ 32 -> 0 <= len -> mgf1 seed len = mgf seed len /\ zlen (mgf seed len) = len /\ bytes_ok (mgf seed len).
Proof.
  intros Hs Hl. unfold mgf1, mgf. assert (0 <= div_ceil len 32 /\ len <= 32 * div_ceil len 32) as [Hd0 Hd]. { unfold div_ceil. pose proof (Z.div_mod (len + 32 - 1) 32 ltac:(lia)). pose proof (Z.mod_pos_bound (len + 32 - 1) 32 ltac:(lia)). lia. }
  split; [|split].
  - pose proof (mgf1_from_spec (Z.to_nat len) seed len 0 Hs ltac:(lia) ltac:(lia)) as E. cbv zeta in E. change (seqZ 0 0) with (@nil Z) in E. cbn [map concat] in E. rewrite E, Z.max_r by lia. done.
  - rewrite zlen_ztake, blocks_zlen by done. unfold zlen. rewrite length_seqZ. lia.
  - apply Forall_take, Forall_concat, Forall_map, Forall_forall. intros x _. apply sha256_shape.
Qed.
Lemma xor_with_shape d m : length d = length m -> length (xor_with d m) = length m /\ xor_with d (xor_with d m) = m /\ (bytes_ok d -> bytes_ok m -> bytes_ok (xor_with d m)).
Proof.
  revert m. induction d as [|x d IH]; intros [|y m] Hl; try done. injection Hl as Hl. destruct (IH m Hl) as (H1&H2&H3). cbn [xor_with length]. split; [lia|]. split; [rewrite H2, <- Z.lxor_assoc, Z.lxor_nilpotent, Z.lxor_0_l; done|].
  intros [Hx Hd]%Forall_cons [Hy Hm]%Forall_cons. constructor; [by apply lxor_fits|by apply H3].
Qed.
(** Masking twice gives the bytes back, the bits past [top] cleared. *)
Lemma masked_twice top mask x l : length mask = length (x :: l) -> masked_by top mask (masked_by top mask (x :: l)) = Z.land x top :: l.
Proof.
  intros Hl. destruct mask as [|m mask]; [done|]. injection Hl as Hl. unfold masked_by. cbn [xor_with]. destruct (xor_with_shape mask l Hl) as (_&->&_). f_equal. apply Z.bits_inj'. intros i Hi. rewrite !Z.land_spec, !Z.lxor_spec, !Z.land_spec, !Z.lxor_spec. by destruct (Z.testbit m i), (Z.testbit x i), (Z.testbit top i).
Qed.
Lemma masked_by_shape top mask l : length mask = length l -> length (masked_by top mask l) = length l /\ (fits 8 top -> bytes_ok mask -> bytes_ok l -> bytes_ok (masked_by top mask l)).
Proof.
  intros Hl. destruct (xor_with_shape mask l Hl) as (H1&_&H3). unfold masked_by. destruct (xor_with mask l) as [|x r]; [split; done|]. split; [done|]. intros Ht Hm Hb. specialize (H3 Hm Hb). apply Forall_cons in H3 as [Hx Hr]. constructor; [|done].
  apply fits_bits; [lia|apply Z.land_nonneg; left; apply Hx|]. intros i Hi. rewrite Z.land_spec, (testbit_high x 8) by done. done.
Qed.
Lemma clear_above a top : fits 8 a -> (Z.land a (Z.lxor top 255) = 0 <-> Z.land a top = a).
Proof.
  intros Ha. split; intros H; apply Z.bits_inj'; intros i Hi; apply (f_equal (fun z => Z.testbit z i)) in H; rewrite Z.land_spec in *; rewrite ?Z.lxor_spec, ?Z.bits_0 in *.
  - destruct (Z.lt_ge_cases i 8) as [Hlt|Hge]; [|by rewrite (testbit_high a 8 i Ha Hge)]. change 255 with (Z.ones 8) in H. rewrite Z.ones_spec_low in H by lia. destruct (Z.testbit a i), (Z.testbit top i); done.
  - destruct (Z.lt_ge_cases i 8) as [Hlt|Hge]; [|by rewrite (testbit_high a 8 i Ha Hge)]. change 255 with (Z.ones 8). rewrite Z.ones_spec_low by lia. destruct (Z.testbit a i), (Z.testbit top i); done.
Qed.
Lemma split_at_app a b i : i = zlen a -> split_at (a ++ b) i = Ok (a, b).
Proof.
  intros ->. unfold split_at. pose proof (zlen_nonneg a). pose proof (zlen_nonneg b). rewrite zlen_app. destruct (Z.leb_spec 0 (zlen a)), (Z.leb_spec (zlen a) (zlen a + zlen b)); try lia. cbn [andb]. by rewrite ztake_app, zdrop_app.
Qed.
Lemma forallb_zeros l : forallb (fun b => b =? 0) l = true <-> l = zrep (zlen l) 0.
Proof.
  unfold zrep, zlen. rewrite Nat2Z.id. induction l as [|x l IH]; [done|]. cbn [forallb length replicate]. rewrite andb_true_iff, IH, Z.eqb_eq. split; [intros [-> <-]; done|]. by intros [= -> <-].
Qed.
Lemma cut_len {A} n (l : list A) : 0 <= n <= zlen l -> exists a b, l = a ++ b /\ zlen a = n.
Proof. intros Hn. exists (ztake n l), (zdrop n l). split; [by rewrite ztake_zdrop|]. rewrite zlen_ztake; lia. Qed.
(** Three parts of known lengths are unique. *)
Lemma parts_inj {A} (a b a' b' : list A) : zlen a = zlen a' -> a ++ b = a' ++ b' -> a = a' /\ b = b'.
Proof. intros Hl H. apply app_inj_1; [unfold zlen in Hl; lia|done]. Qed.

Lemma pss_check_spec digest em top : bytes_ok em -> fits 8 top -> zlen digest = 32 -> 67 <= zlen em < 2 ^ 32 -> exists ok, pss_check digest em top = Ok ok
  /\ (ok = true <-> exists salt, zlen salt = 32 /\ bytes_ok salt /\ let h := sha256 (zrep 8 0 ++ digest ++ salt) in
      em = masked_by top (mgf h (zlen em - 33)) (zrep (zlen em - 66) 0 ++ [1] ++ salt) ++ h ++ [0xbc]).
Proof.
  intros Hem Htop Hdg HL. set (L := zlen em) in *. destruct (cut_len (L - 33) em ltac:(lia)) as (masked&r&Er&Hm). destruct (cut_len 32 r) as (h&q&->&Hh); [apply (f_equal zlen) in Er; rewrite zlen_app in Er; lia|].
  assert (zlen q = 1) as Hq by (apply (f_equal zlen) in Er; rewrite !zlen_app in Er; lia). destruct q as [|z [|y q]]; [done| |rewrite !zlen_cons in Hq; pose proof (zlen_nonneg q); lia]. clear Hq.
  destruct masked as [|a masked]; [change (zlen []) with 0 in Hm; lia|]. unfold pss_check. fold L. rewrite Er in Hem. apply Forall_app in Hem as [Hmb [Hhb _]%Forall_app]. pose proof Hmb as [Ha Hms]%Forall_cons.
  assert (zget em (L - 1) = Some z) as -> by (rewrite Er, app_assoc; apply limb_at; rewrite zlen_app; lia). assert (zget em 0 = Some a) as -> by (by rewrite Er). cbn [or_panic mbind outcome_bind].
  assert (ztake (L - 1) em = (a :: masked) ++ h) as -> by (rewrite Er, app_assoc; apply ztake_app; rewrite zlen_app; lia). rewrite split_at_app by lia. cbn [mbind outcome_bind].
  destruct (mgf1_spec h (L - 33) ltac:(lia) ltac:(lia)) as (Hmg&Hmz&Hmok). rewrite Hm, Hmg. set (mask := mgf h (L - 33)) in *.
  assert (length mask = length (a :: masked)) as Hml by (unfold zlen in Hmz, Hm; lia). destruct (masked_by_shape top mask (a :: masked) Hml) as [Hsl Hsb]. specialize (Hsb Htop Hmok Hmb).
  assert (exists x db, xor_with mask (a :: masked) = x :: db /\ masked_by top mask (a :: masked) = Z.land x top :: db) as (x&db&Ex&Edb). { unfold masked_by. destruct mask as [|m0 mask]; [done|]. cbn [xor_with]. by eexists _, _. }
  rewrite Ex. change (zget (x :: db) 0) with (Some x). cbn [or_panic mbind outcome_bind]. change (x :: db) with ([] ++ x :: db). rewrite (put_at [] x db 0 (Z.land x top) eq_refl). cbn [app mbind outcome_bind]. rewrite <- Edb. remember (masked_by top mask (a :: masked)) as DB eqn:HDBeq.
  assert (zlen DB = L - 33) as HDB by (unfold zlen in *; lia). rewrite HDB. destruct (cut_len (L - 66) DB ltac:(lia)) as (ps&rest&EDB&Hps). rewrite EDB, split_at_app by lia. cbn [mbind outcome_bind].
  assert (zlen rest = 33) as Hrest by (rewrite EDB, zlen_app in HDB; lia). destruct rest as [|o salt]; [done|]. change (zget (o :: salt) 0) with (Some o). cbn [or_panic mbind outcome_bind]. change (zdrop 1 (o :: salt)) with salt. rewrite zlen_cons in Hrest.
  assert (sha_finish (update (update (update sha_default (zrep 8 0)) digest) salt) = sha256 (zrep 8 0 ++ digest ++ salt)) as ->.
  { apply finish_spec; [rewrite app_assoc; apply update_spec, update_spec, (update_spec _ []), hashed_default|]. rewrite !zlen_app, zlen_zrep by lia. lia. }
  set (c := negb (z =? 0xbc) || negb (Z.land a (Z.lxor top 255) =? 0)). eexists (if c then false else _). split; [by destruct c|]. assert (c = false <-> z = 0xbc /\ Z.land a top = a) as Hc.
  { unfold c. rewrite <- (clear_above a top Ha). destruct (Z.eqb_spec z 0xbc), (Z.eqb_spec (Z.land a (Z.lxor top 255)) 0); cbn [negb orb]; intuition congruence. }
  assert (exists d, zrep (L - 66) 0 = 0 :: d) as [d Hd] by (unfold zrep; destruct (Z.to_nat (L - 66)) as [|m] eqn:Em; [lia|]; by eexists). split.
  - intros Hok. destruct c; [done|]. destruct (proj1 Hc eq_refl) as [-> Hatop]. apply andb_prop in Hok as [[Hz Ho]%andb_prop Hhash]. apply Z.eqb_eq in Ho as ->. apply bool_decide_eq_true in Hhash. apply forallb_zeros in Hz. rewrite Hps in Hz.
    exists salt. split; [lia|]. rewrite EDB in Hsb. apply Forall_app in Hsb as [_ [_ Hsalt]%Forall_cons]. split; [done|]. cbv zeta. rewrite Hhash. fold mask. rewrite Er. f_equal. rewrite <- Hz. change ([1] ++ salt) with (1 :: salt). rewrite <- EDB, HDBeq, masked_twice by done. by rewrite Hatop.
  - intros (salt'&Hs'&Hsb'&E). cbv zeta in E. set (h' := sha256 _) in E. set (D := zrep (L - 66) 0 ++ 1 :: salt') in E. assert (zlen D = L - 33) as HD by (unfold D; rewrite zlen_app, zlen_cons, zlen_zrep by lia; lia).
    destruct (mgf1_spec h' (L - 33) ltac:(unfold h'; rewrite (proj1 (sha256_shape _)); lia) ltac:(lia)) as (_&Hmz'&_). assert (length (mgf h' (L - 33)) = length D) as HmD by (unfold zlen in *; lia). destruct (masked_by_shape top _ D HmD) as [HlD _].
    rewrite Er in E. apply parts_inj in E as [E1 E2]; [|change (zlen (masked_by ?t ?m ?l)) with (Z.of_nat (length (masked_by t m l))); rewrite HlD; change (zlen (a :: masked) = zlen D); lia]. apply parts_inj in E2 as [E2 [= E3]]; [|rewrite Hh; symmetry; apply sha256_shape]. subst z. assert (mgf h' (L - 33) = mask) as Emask by (unfold mask; by rewrite E2). rewrite Emask in *.
    assert (D = 0 :: d ++ 1 :: salt') as HD0 by (unfold D; by rewrite Hd). rewrite HD0 in *. rewrite E1, masked_twice, Z.land_0_l, <- HD0 in HDBeq by done. unfold D in HDBeq. rewrite EDB in HDBeq. apply parts_inj in HDBeq as [Eps [= -> ->]]; [|rewrite zlen_zrep; lia].
    assert (c = false) as ->. { apply Hc. split; [done|]. unfold masked_by in E1. destruct (xor_with mask (0 :: d ++ 1 :: salt')) as [|y ys]; [done|]. injection E1 as -> _. rewrite <- Z.land_assoc, Z.land_diag. done. }
    rewrite !andb_true_iff. split; [split; [apply forallb_zeros; by rewrite Hps|done]|]. apply bool_decide_eq_true. by rewrite E2.
Qed.

(** ** Signatures *)
Lemma bits_spec k N E : key_ok k N E -> bits k = Ok (Z.log2 N + 1).
Proof.
  intros Hk. pose proof (limb_count k N E Hk) as [Hcount Hl]. pose proof (ko_value _ _ _ Hk) as Hv. pose proof (ko_limbs _ _ _ Hk) as Hn. pose proof (ko_size _ _ _ Hk) as Hsz. unfold bits. destruct (exists_last (modulus_not_empty k N E Hk)) as (low&top&En). rewrite En in *. rewrite last_snoc. cbn [or_panic mbind outcome_bind].
  apply Forall_app in Hn as [Hlow [Htop _]%Forall_cons]. rewrite lval_app in Hv. cbn [lval] in Hv. rewrite Z.mul_0_r, Z.add_0_r in Hv. pose proof (lval_bound low Hlow) as Hlb. rewrite zlen_app in *. change (zlen [top]) with 1 in *. unfold span in *. set (S := 2 ^ (64 * zlen low)) in *.
  assert (S <= 2 ^ (8 * (pk_len k - 1))) as HS by (apply Z.pow_le_mono_r; lia). assert (0 < top) as Htp by (unfold fits in Htop; destruct (Z.eq_dec top 0) as [->|]; [lia|lia]). unfold leading_zeros. destruct (Z.eqb_spec top 0); [lia|].
  pose proof (Z.log2_spec top Htp) as [Hlo Hhi]. pose proof (Z.log2_nonneg top). assert (Z.log2 N = 64 * zlen low + Z.log2 top) as ->.
  { apply Z.log2_unique; [lia|]. rewrite Z.pow_succ_r, Z.pow_add_r by lia. fold S. rewrite Z.pow_succ_r in Hhi by lia. nia. }
  rewrite fits_width; [f_equal; lia|]. assert (Z.log2 top < 64) by (apply Z.log2_lt_pow2; [done|apply Htop]). assert (2 ^ 14 < 2 ^ 64) by (apply Z.pow_lt_mono_r; lia). change (2 ^ 14) with 16384 in *. lia.
Qed.

(** [sig] is what a key's public operation takes to [em]. *)
Definition opens_to (k : PublicKey) (N E : Z) (sig em : list Z) : Prop := zlen sig = pk_len k /\ be_val sig < N /\ be_val sig ^ E mod N = be_val em.

Lemma verify_pkcs1_spec k N E digest sig : key_ok k N E -> bytes_ok digest -> zlen digest = 32 -> bytes_ok sig ->
  exists ok, verify_pkcs1 k digest sig = Ok ok /\ (ok = true <-> opens_to k N E sig (pkcs1_encode (pk_len k) digest)).
Proof.
  intros Hk Hd Hdl Hs. unfold verify_pkcs1, opens_to. rewrite (open_spec _ _ _ _ Hk Hs). cbn [mbind outcome_bind]. destruct (Z.eqb_spec (zlen sig) (pk_len k)), (Z.ltb_spec (be_val sig) N); cbn [andb]; try (exists false; split; [done|]; split; [done|lia]).
  pose proof (ko_len _ _ _ Hk) as Hl. pose proof (modulus_big _ _ _ Hk). pose proof (ko_size _ _ _ Hk). change (zlen SHA256_INFO) with 19. rewrite fits_width by (assert (2 ^ 10 < 2 ^ 64) by (apply Z.pow_lt_mono_r; lia); change (2 ^ 10) with 1024 in *; lia). cbn [mbind outcome_bind]. replace (pk_len k - 3 - 19 - 32) with (pk_len k - 54) by lia. fold (pkcs1_encode (pk_len k) digest).
  set (v := be_val sig ^ E mod N). assert (0 <= v < N) by (apply Z.mod_pos_bound; lia). eexists. split; [done|]. rewrite bool_decide_eq_true. assert (fits (8 * Z.of_nat (Z.to_nat (pk_len k))) v) as Hf by (unfold fits; rewrite Z2Nat.id; lia).
  split; [intros <-; by rewrite be_round_trip|]. intros (_&_&Ev). apply be_unique; [apply be_bytes_ok| | |by rewrite be_round_trip].
  - unfold pkcs1_encode. repeat (apply Forall_app; split); try done; try (apply Forall_replicate; by unfold fits); unfold SHA256_INFO; repeat (apply Forall_cons_2; [by unfold fits|]); apply Forall_nil_2.
  - apply Nat2Z.inj. change (zlen (be_bytes (Z.to_nat (pk_len k)) v) = zlen (pkcs1_encode (pk_len k) digest)). unfold pkcs1_encode. rewrite be_bytes_zlen, !zlen_app, zlen_zrep by lia. change (zlen SHA256_INFO) with 19. change (zlen [0; 1]) with 2. change (zlen [0]) with 1. lia.
Qed.
Lemma top_mask_spec j : 0 <= j < 8 -> top_mask j = Ok (Z.shiftr 255 j) /\ fits 8 (Z.shiftr 255 j).
Proof. intros Hj. unfold top_mask. destruct (Z.leb_spec 0 j), (Z.ltb_spec j 8); try lia. split; [done|]. apply shiftr_fits; [lia|]. by unfold fits. Qed.
(** Leading bytes that are all zero are none of the value. *)
Lemma leading_zero_bytes lead em : bytes_ok lead -> bytes_ok em -> existsb (fun b => negb (b =? 0)) lead = negb (be_val (lead ++ em) <? 2 ^ (8 * zlen em)).
Proof.
  intros Hl He. pose proof (be_val_bound em He) as Hb. pose proof (zlen_nonneg em). assert (0 < 2 ^ (8 * zlen em)) by (apply Z.pow_pos_nonneg; lia). rewrite be_val_app. set (P := 2 ^ (8 * zlen em)) in *. clearbody P.
  assert (forall x, 0 <= x -> (x * P + be_val em <? P) = (x =? 0)) as Hf. { intros x Hx. destruct (Z.ltb_spec (x * P + be_val em) P), (Z.eqb_spec x 0); try done; exfalso; nia. }
  induction lead as [|b lead IH] using rev_ind; [by rewrite Hf|]. apply Forall_app in Hl as [Hl [Hb0 _]%Forall_cons]. pose proof (be_val_bound lead Hl) as [Hb1 _]. unfold fits in Hb0.
  rewrite existsb_app, (IH Hl), be_val_snoc, !Hf by lia. cbn [existsb]. rewrite orb_false_r. destruct (Z.eqb_spec (be_val lead) 0), (Z.eqb_spec b 0), (Z.eqb_spec (256 * be_val lead + b) 0); done || lia.
Qed.
Lemma verify_pss_spec k N E digest sig : key_ok k N E -> zlen digest = 32 -> bytes_ok sig ->
  exists ok, verify_pss k digest sig = Ok ok /\ (ok = true <-> exists salt, zlen salt = 32 /\ bytes_ok salt /\ opens_to k N E sig (pss_encode (Z.log2 N) digest salt)).
Proof.
  intros Hk Hdl Hs. unfold verify_pss, opens_to. rewrite (open_spec _ _ _ _ Hk Hs). cbn [mbind outcome_bind]. destruct (Z.eqb_spec (zlen sig) (pk_len k)), (Z.ltb_spec (be_val sig) N); cbn [andb]; try (exists false; split; [done|]; split; [done|intros (?&_&_&?&?&_); lia]).
  pose proof (ko_len _ _ _ Hk) as Hl. pose proof (modulus_big _ _ _ Hk). pose proof (ko_size _ _ _ Hk) as [Hlo Hhi]. rewrite (bits_spec _ _ _ Hk). cbn [mbind outcome_bind]. set (B := Z.log2 N). assert (8 * (pk_len k - 1) <= B < 8 * pk_len k) as HB by (unfold B; split; [apply Z.log2_le_pow2; lia|apply Z.log2_lt_pow2; lia]).
  assert (2 ^ 14 < 2 ^ 64) by (apply Z.pow_lt_mono_r; lia). change (2 ^ 14) with 16384 in *. replace (B + 1 - 1) with B by lia. rewrite fits_width by lia. cbn [mbind outcome_bind]. set (L := div_ceil B 8). assert (pk_len k - 1 <= L <= pk_len k /\ 0 <= 8 * L - B < 8) as [HL Hsh]. { unfold L, div_ceil. pose proof (Z.div_mod (B + 8 - 1) 8 ltac:(lia)). pose proof (Z.mod_pos_bound (B + 8 - 1) 8 ltac:(lia)). lia. }
  rewrite fits_width by lia. cbn [mbind outcome_bind]. set (v := be_val sig ^ E mod N). assert (0 <= v < N) as Hv by (apply Z.mod_pos_bound; lia). set (full := be_bytes (Z.to_nat (pk_len k)) v). assert (zlen full = pk_len k) as Hfl by (unfold full; rewrite be_bytes_zlen; lia).
  assert (be_val full = v) as Hfv by (unfold full; apply be_round_trip; unfold fits; rewrite Z2Nat.id; lia). pose proof (be_bytes_ok (Z.to_nat (pk_len k)) v) as Hfb. fold full in Hfb. clearbody full. destruct (cut_len (pk_len k - L) full ltac:(lia)) as (lead&em&->&Hlead). rewrite zlen_app in Hfl. rewrite split_at_app by done. cbn [mbind outcome_bind].
  assert (zlen em = L) as HeL by lia. rewrite HeL. destruct (top_mask_spec _ Hsh) as [-> Htop]. cbn [mbind outcome_bind]. apply Forall_app in Hfb as [Hlb Heb]. destruct (Z.ltb_spec L 66); [lia|]. rewrite orb_false_r, (leading_zero_bytes lead em Hlb Heb), HeL, Hfv.
  destruct (pss_check_spec digest em (Z.shiftr 255 (8 * L - B)) Heb Htop Hdl ltac:(lia)) as (ok&Hok&Hiff). rewrite HeL in Hiff. cbv zeta in Hiff.
  assert (forall salt, zlen salt = 32 -> bytes_ok salt -> zlen (pss_encode B digest salt) = L /\ bytes_ok (pss_encode B digest salt)) as Henc.
  { intros salt Hsl Hsb. unfold pss_encode. fold L. set (h := sha256 _). destruct (sha256_shape (zrep 8 0 ++ digest ++ salt)) as [Hh Hhb]. fold h in Hh, Hhb. set (db := zrep (L - 66) 0 ++ [1] ++ salt). assert (zlen db = L - 33) as Hdb by (unfold db; rewrite !zlen_app, zlen_zrep by lia; change (zlen [1]) with 1; lia).
    destruct (mgf1_spec h (L - 33) ltac:(lia) ltac:(lia)) as (_&Hmz&Hmb). destruct (masked_by_shape (Z.shiftr 255 (8 * L - B)) (mgf h (L - 33)) db) as [Hml Hmok]; [unfold zlen in *; lia|].  split.
    - rewrite !zlen_app, Hh. change (zlen [188]) with 1. assert (zlen (masked_by (Z.shiftr 255 (8 * L - B)) (mgf h (L - 33)) db) = zlen db) by (unfold zlen; by rewrite Hml). lia.
    - apply Forall_app. split; [apply Hmok; [done|done|]|apply Forall_app; split; [done|by repeat constructor]]. unfold db. apply Forall_app. split; [apply Forall_replicate; by unfold fits|]. constructor; [by unfold fits|done]. }
  destruct (Z.ltb_spec v (2 ^ (8 * L))) as [Hsm|Hbig]; cbn [negb].
  - exists ok. split; [done|]. rewrite Hiff. rewrite be_val_app in Hfv. assert (be_val lead = 0) as Hl0. { pose proof (be_val_bound em Heb). pose proof (be_val_bound lead Hlb). rewrite HeL in Hfv. destruct (Z.eq_dec (be_val lead) 0); [done|]. nia. }
    split; intros (salt&Hsl&Hsb&He); exists salt; (split; [done|]); (split; [done|]); destruct (Henc salt Hsl Hsb) as [Hel Heok].
    + split; [done|]. split; [done|]. rewrite <- Hfv, Hl0, Z.mul_0_l, Z.add_0_l. f_equal. exact He.
    + destruct He as (_&_&He). apply (be_unique em (pss_encode B digest salt)); [done|done|unfold zlen in *; lia|]. rewrite Hl0 in Hfv. lia.
  - exists false. split; [done|]. split; [done|]. intros (salt&Hsl&Hsb&_&_&He). destruct (Henc salt Hsl Hsb) as [Hel Heok]. pose proof (be_val_bound _ Heok) as Hb. rewrite Hel, <- He in Hb. fold v in Hb. lia.
Qed.

(** C6. An RSA signature is accepted exactly when the public operation takes it
    to an encoding of the digest, as RFC 8017 says. A key is made from any odd
    modulus of 128 to 1024 bytes and any odd exponent of 64 bits, and from no
    others. With such a key, [verify_pkcs1] accepts the signatures [s < n] of
    the modulus's length with [s^e mod n] the EMSA-PKCS1-v1_5 encoding of the
    digest, and [verify_pss] those with [s^e mod n] an EMSA-PSS encoding of the
    digest with some salt of 32 bytes. Nothing panics: the limbs of the
    Montgomery products, six steps of Newton's method for the inverse and the
    square-and-multiply over them compute that power. *)
Theorem signature_is_an_encoding_of_the_digest nb eb digest sig : bytes_ok nb -> bytes_ok eb -> bytes_ok digest -> zlen digest = 32 -> bytes_ok sig ->
  match new nb eb with
  | Ok (Some k) => keyed (be_val nb) (be_val eb)
      /\ (exists ok, verify_pkcs1 k digest sig = Ok ok /\ (ok = true <-> opens_to k (be_val nb) (be_val eb) sig (pkcs1_encode (pk_len k) digest)))
      /\ exists ok, verify_pss k digest sig = Ok ok
         /\ (ok = true <-> exists salt, zlen salt = 32 /\ bytes_ok salt /\ opens_to k (be_val nb) (be_val eb) sig (pss_encode (Z.log2 (be_val nb)) digest salt))
  | Ok None => ~ keyed (be_val nb) (be_val eb)
  | _ => False
  end.
Proof.
  intros Hn He Hd Hdl Hs. destruct (new_spec nb eb Hn He) as (o&->&Ho). destruct o as [k|]; [|done]. destruct Ho as [Hkd Hk]. split; [done|]. split; [by apply verify_pkcs1_spec|by apply verify_pss_spec].
Qed.
(** With the exponent 1, an encoding is its own signature. *)
Lemma signature_witness : exists k, new (zrep 128 255) [1] = Ok (Some k) /\ verify_pkcs1 k (zrep 32 7) (pkcs1_encode 128 (zrep 32 7)) = Ok true.
Proof.
  assert (forall l, forallb (fun b => (0 <=? b) && (b <? 256)) l = true -> bytes_ok l) as Hb.
  { intros l Hl. apply Forall_forall. intros x Hx%list_elem_of_In. rewrite forallb_forall in Hl. specialize (Hl x Hx). unfold fits. change (2 ^ 8) with 256. lia. }
  pose proof (signature_is_an_encoding_of_the_digest (zrep 128 255) [1] (zrep 32 7) (pkcs1_encode 128 (zrep 32 7)) ltac:(by apply Hb) ltac:(by apply Hb) ltac:(by apply Hb) ltac:(reflexivity) ltac:(by apply Hb)) as H.
  destruct (new (zrep 128 255) [1]) as [[k|]|e|] eqn:E; [|vm_compute in E; discriminate|vm_compute in E; discriminate|vm_compute in E; discriminate].
  assert (pk_len k = 128) as Hl by (vm_compute in E; injection E as <-; reflexivity). exists k. split; [reflexivity|]. destruct H as (_&(ok&->&Hok)&_). f_equal. apply Hok. rewrite Hl.
  split; [rewrite Hl; reflexivity|]. split; [apply Z.ltb_lt; vm_compute; reflexivity|vm_compute; reflexivity].
Defined.
