(* ===== verification/Http.v ===== *)
(** * The HTTP client ([net/http.rs])

    URLs, the head of a response and its body by length, in chunks or up to
    the end, over a connection whose reads give any pieces of what the server
    sent; redirects. The socket (plain or TLS) is a script of what its reads
    and writes do, and [connect] what opening one gives. *)
From S2P Require Import Prelude Bytes Utf8 Engine Sbe Serve Daemon Search Token Table Bpe Tournament Merges Lookup Unicode Pieces Encode Marks Vocab Built Json FromJson Chat.

Inductive io_error :=
| Os (code : Z)                 (** a read, write or connect that failed *)
| Invalid (why : string)
| Eof (why : string)
| Refused (status : Z).         (** [get]: an answer other than 200 *)

Definition MAX_HEAD : Z := 64 * 2 ^ 10.
Definition MAX_REDIRECTS : nat := 8.

(** ** Strings of the standard library *)
Notation chars := (list Z).
(** The first place of [pat] in [l]. *)
Fixpoint find_sub (pat l : list Z) : option Z :=
  if starts_with l pat then Some 0 else match l with [] => None | _ :: l => i ← find_sub pat l; Some (i + 1) end.
Definition split_once (pat s : chars) : option (chars * chars) := i ← find_sub pat s; Some (ztake i s, zdrop (i + zlen pat) s).
Definition rsplit_once (c : Z) (s : chars) : option (chars * chars) := '(b, a) ← split_once [c] (rev s); Some (rev a, rev b).
(** [split], with enough steps for every part. *)
Fixpoint split_fuel (fuel : nat) (pat s : chars) : list chars :=
  match fuel with O => [s] | S fuel => match split_once pat s with Some (a, b) => a :: split_fuel fuel pat b | None => [s] end end.
Definition split (pat s : chars) : list chars := split_fuel (length s) pat s.
Definition digit (radix c : Z) : option Z :=
  let d := if within 48 57 c then c - 48 else if within 97 122 c then c - 87 else if within 65 90 c then c - 55 else radix in if d <? radix then Some d else None.
Fixpoint digits_from (radix w acc : Z) (s : chars) : option Z :=
  match s with [] => Some acc | c :: s => d ← digit radix c; if acc * radix + d <? 2 ^ w then digits_from radix w (acc * radix + d) s else None end.
(** [parse] and [from_str_radix] of an unsigned integer. *)
Definition parse_uint (radix w : Z) (s : chars) : option Z :=
  match s with [] => None | [_] => digits_from radix w 0 s | c :: s' => digits_from radix w 0 (if c =? 43 then s' else s) end.
Definition lower (c : Z) : Z := if within 65 90 c then c + 32 else c.
Definition same_but_case (a b : chars) : bool := bool_decide (map lower a = map lower b).
(** [String::from_utf8_lossy]. *)
Definition lossy (b : list Z) : chars := default [] (utf8_chars (utf8_lossy b)).

(** ** URLs *)
Record Url := mkUrl { https : bool; host : chars; port : Z; path : chars }.
Fixpoint path_at (s : chars) : option Z := match s with [] => None | c :: s => if (c =? 47) || (c =? 63) then Some 0 else i ← path_at s; Some (i + 1) end.
Definition url_parse (url : chars) : option Url :=
  '(scheme, rest) ← split_once (str "://") url;
  tls ← (if bool_decide (scheme = str "https") then Some true else if bool_decide (scheme = str "http") then Some false else None);
  let '(authority, p) := match path_at rest with Some i => (ztake i rest, zdrop i rest) | None => (rest, str "/") end in
  '(h, po) ← (match rsplit_once 58 authority with Some (h, po) => n ← parse_uint 10 16 po; Some (h, n) | None => Some (authority, if tls then 443 else 80) end);
  let p := if starts_with p [63] then 47 :: p else p in
  if bool_decide (h = []) then None else Some (mkUrl tls h po p).
Definition join (u : Url) (location : chars) : option Url :=
  if starts_with location [47] then Some (mkUrl (https u) (host u) (port u) location) else url_parse location.

(** ** Responses *)
Record Response := mkResponse { status : Z; headers : list (chars * chars) }.
Definition header (r : Response) (name : chars) : option chars := snd <$> List.find (fun h => bool_decide (fst h = name)) (headers r).
Definition length_ (r : Response) : option Z := v ← header r (str "content-length"); parse_uint 10 64 (trim v).
Definition header_line (l : chars) : option (chars * chars) := '(k, v) ← split_once [58] l; Some (map lower (trim k), trim v).
(** [head], once the bytes before the empty line are there. *)
Definition parse_head (b : list Z) : outcome io_error Response :=
  let lines := split [13; 10] (lossy b) in
  s ← ok_or (l ← head lines; w ← split [32] l !! 1%nat; parse_uint 10 16 w) (Invalid "a malformed status line");
  Ok (mkResponse s (omap header_line (tail lines))).

(** ** A connection *)
Inductive reading := Got (b : list Z) | Lost (code : Z).
Record Connection := mkConnection { co_url : Url; co_reads : list reading; co_writes : list (option Z); co_buf : list Z; co_closing : bool }.
Definition set_buf (b : list Z) (c : Connection) : Connection := mkConnection (co_url c) (co_reads c) (co_writes c) b (co_closing c).
Definition set_closing (x : bool) (c : Connection) : Connection := mkConnection (co_url c) (co_reads c) (co_writes c) (co_buf c) x.

(** What a method does to the connection and to what the sink keeps. *)
Definition HM (T A : Type) : Type := Connection * T -> outcome io_error A * (Connection * T).
#[global] Instance hm_ret {T} : MRet (HM T) := fun A a st => (Ok a, st).
#[global] Instance hm_bind {T} : MBind (HM T) := fun A B k m st =>
  match m st with (Ok a, st) => k a st | (Err e, st) => (Err e, st) | (Panic, st) => (Panic, st) end.
Definition hseq {T A B} (m : HM T A) (k : HM T B) : HM T B := fun st => match m st with (Ok _, st) => k st | (Err e, st) => (Err e, st) | (Panic, st) => (Panic, st) end.
Notation "m ';;;' k" := (hseq m k) (at level 100, k at level 200, right associativity).
Section Reading.
Context {T : Type} (sink : list Z -> T -> outcome io_error T).
Definition fails {A} (e : io_error) : HM T A := fun st => (Err e, st).
Definition buf : HM T (list Z) := fun st => (Ok (co_buf (fst st)), st).
Definition change (f : Connection -> Connection) : HM T unit := fun '(c, s) => (Ok tt, (f c, s)).
Definition hand (b : list Z) : HM T unit := fun '(c, s) => match sink b s with Ok s => (Ok tt, (c, s)) | Err e => (Err e, (c, s)) | Panic => (Panic, (c, s)) end.
Definition fill : HM T Z := fun '(c, s) =>
  match co_reads c with
  | [] => (Ok 0, (c, s))
  | Got b :: l => (Ok (zlen b), (mkConnection (co_url c) l (co_writes c) (co_buf c ++ b) (co_closing c), s))
  | Lost e :: l => (Err (Os e), (mkConnection (co_url c) l (co_writes c) (co_buf c) (co_closing c), s))
  end.
(** The loop of [head] and [line]: reads until [pat] is in the buffer. *)
Fixpoint seek_fuel (fuel : nat) (pat : list Z) (why : string) : HM T Z :=
  match fuel with
  | O => fun st => (Panic, st)
  | S fuel =>
      b ← buf;
      match find_sub pat b with
      | Some i => mret i
      | None => if MAX_HEAD <? zlen b then fails (Invalid why) else n ← fill; if n =? 0 then fails (Invalid why) else seek_fuel fuel pat why
      end
  end.
(** A read each step. *)
Definition seek (pat : list Z) (why : string) : HM T Z := fun st => seek_fuel (S (length (co_reads (fst st)))) pat why st.
Definition parsed (b : list Z) : HM T Response := fun st => (parse_head b, st).
Definition head_ : HM T Response :=
  i ← seek [13; 10; 13; 10] "the server sent no complete response head";
  b ← buf; change (set_buf (zdrop (i + 4) b)) ;;;
  parsed (ztake i b).
Definition line : HM T chars :=
  i ← seek [13; 10] "a chunked body ended early";
  b ← buf; change (set_buf (zdrop (i + 2) b)) ;;; mret (lossy (ztake i b)).
Fixpoint exact_fuel (fuel : nat) (len : Z) : HM T unit :=
  if len <=? 0 then mret tt else
  match fuel with
  | O => fun st => (Panic, st)
  | S fuel =>
      b ← buf;
      n ← (match b with [] => fill | _ => mret 1 end);
      if n =? 0 then fails (Eof "the connection ended inside a body") else
      b ← buf; let take := Z.min (zlen b) len in
      hand (ztake take b) ;;; change (set_buf (zdrop take b)) ;;; exact_fuel fuel (len - take)
  end.
(** The first step takes what is in the buffer, each other reads. *)
Definition exact (len : Z) : HM T unit := fun st => exact_fuel (S (S (length (co_reads (fst st))))) len st.
Fixpoint trailers (fuel : nat) : HM T unit :=
  match fuel with O => fun st => (Panic, st) | S fuel => l ← line; match l with [] => mret tt | _ => trailers fuel end end.
Definition chunk_size (l : chars) : option Z := parse_uint 16 64 (trim (default [] (head (split [59] l)))).
Fixpoint chunked_fuel (fuel : nat) : HM T unit :=
  match fuel with
  | O => fun st => (Panic, st)
  | S fuel =>
      l ← line;
      match chunk_size l with
      | None => fails (Invalid "a malformed chunk size")
      | Some size => if size =? 0 then trailers (S fuel) else exact size ;;; line ;;; chunked_fuel fuel
      end
  end.
(** The bytes a connection may still give: each line takes two. *)
Definition given (r : reading) : list Z := match r with Got b => b | Lost _ => [] end.
Definition coming (c : Connection) : list Z := co_buf c ++ concat (map given (co_reads c)).
Definition chunked : HM T unit := fun st => chunked_fuel (S (length (coming (fst st)))) st.
Fixpoint until_fuel (fuel : nat) : HM T unit :=
  match fuel with
  | O => fun st => (Panic, st)
  | S fuel =>
      b ← buf;
      (match b with [] => mret tt | _ => hand b ;;; change (set_buf []) end) ;;;
      n ← fill; if n =? 0 then mret tt else until_fuel fuel
  end.
Definition until_closed : HM T unit := change (set_closing true) ;;; (fun st => until_fuel (S (length (co_reads (fst st)))) st).
End Reading.

Definition is_redirect (s : Z) : bool := existsb (Z.eqb s) [301; 302; 303; 307; 308].
Definition bodiless (s : Z) : bool := within 100 199 s || (s =? 204) || (s =? 304).
Definition drop_body {T} (b : list Z) (s : T) : outcome io_error T := Ok s.
Section Fetching.
Context {T : Type} (sink : list Z -> T -> outcome io_error T) (version : chars).
Definition body (r : Response) (sink : list Z -> T -> outcome io_error T) : HM T unit :=
  if match header r (str "transfer-encoding") with Some te => same_but_case te (str "chunked") | None => false end then chunked sink
  else match length_ r with Some len => exact sink len | None => until_closed sink end.
Definition request_head (u : Url) (path : chars) (hs : list (chars * chars)) : chars :=
  str "GET " ++ path ++ str " HTTP/1.1" ++ [13; 10] ++ str "Host: " ++ host u ++ [13; 10] ++ str "User-Agent: tachyon/" ++ version ++ [13; 10] ++ str "Accept-Encoding: identity" ++ [13; 10]
  ++ concat (map (fun '(k, v) => k ++ str ": " ++ v ++ [13; 10]) hs) ++ [13; 10].
(** [write_all] of the head: only whether it fails matters after it. *)
Definition write (b : chars) : HM T unit := fun '(c, s) =>
  let c' := mkConnection (co_url c) (co_reads c) (tail (co_writes c)) (co_buf c) (co_closing c) in
  match head (co_writes c) with Some (Some e) => (Err (Os e), (c', s)) | _ => (Ok tt, (c', s)) end.
Definition conn_get (path : chars) (hs : list (chars * chars)) : HM T Response :=
  (fun st => write (request_head (co_url (fst st)) path hs) st) ;;;
  r ← head_;
  change (set_closing match header r (str "connection") with Some v => same_but_case v (str "close") | None => false end) ;;;
  (if bodiless (status r) then mret tt else body r (if is_redirect (status r) then drop_body else sink)) ;;; mret r.

Definition serves (c : Connection) (u : Url) : bool :=
  negb (co_closing c) && bool_decide ((https (co_url c), host (co_url c), port (co_url c)) = (https u, host u, port u)).
Definition allowed (u : Url) (origin : chars) (hs : list (chars * chars)) : list (chars * chars) :=
  List.filter (fun h => bool_decide (host u = origin) || negb (same_but_case (fst h) (str "authorization"))) hs.
(** [fetch]: also the requests it sent, in order. *)
Fixpoint fetch_from (fuel : nat) (connect : Url -> outcome io_error Connection) (conn : option Connection) (u : Url) (origin : chars) (hs : list (chars * chars)) (s : T)
  : outcome io_error (Response * Url) * option Connection * T * list (Url * list (chars * chars)) :=
  match fuel with
  | O => (Err (Invalid "too many redirects"), conn, s, [])
  | S fuel =>
      match (match conn with Some c => if serves c u then Ok c else connect u | None => connect u end) with
      | Ok c =>
          let sent := allowed u origin hs in
          match conn_get (path u) sent (c, s) with
          | (Ok r, (c, s)) =>
              if negb (is_redirect (status r)) then (Ok (r, u), Some c, s, [(u, sent)]) else
              match header r (str "location") ≫= join u with
              | Some u' => let '(o, conn, s, l) := fetch_from fuel connect (Some c) u' origin hs s in (o, conn, s, (u, sent) :: l)
              | None => (Err (Invalid "a redirect without a usable Location"), Some c, s, [(u, sent)])
              end
          | (Err e, (c, s)) => (Err e, Some c, s, [(u, sent)])
          | (Panic, (c, s)) => (Panic, Some c, s, [(u, sent)])
          end
      | Err e => (Err e, conn, s, [])
      | Panic => (Panic, conn, s, [])
      end
  end.
Definition fetch (connect : Url -> outcome io_error Connection) (conn : option Connection) (u : Url) (hs : list (chars * chars)) (s : T) :=
  fetch_from (S MAX_REDIRECTS) connect conn u (host u) hs s.
End Fetching.
(** The sink of [get]. *)
Definition collect (b s : list Z) : outcome io_error (list Z) := Ok (s ++ b).
Definition http_get (version : chars) (connect : Url -> outcome io_error Connection) (url : chars) (hs : list (chars * chars)) : outcome io_error (list Z) :=
  u ← ok_or (url_parse url) (Invalid "not an http or https URL");
  let '(o, _, s, _) := fetch collect version connect None u hs [] in
  '(r, _) ← o; if status r =? 200 then Ok s else Err (Refused (status r)).

(** ** Finding a pattern in what has come so far *)
Lemma starts_with_length l p : starts_with l p = true -> (length p <= length l)%nat.
Proof. unfold starts_with. intros H%bool_decide_eq_true. apply (f_equal length) in H. rewrite length_take in H. lia. Qed.
Lemma starts_with_more l x p : (length p <= length l)%nat -> starts_with (l ++ x) p = starts_with l p.
Proof. intros H. unfold starts_with. by rewrite take_app_le. Qed.
Lemma find_sub_bound pat l i : find_sub pat l = Some i -> 0 <= i /\ i + zlen pat <= zlen l.
Proof.
  revert i. induction l as [|c l IH]; intros i; cbn [find_sub]; destruct (starts_with _ pat) eqn:Hs; try done.
  - intros [= <-]. apply starts_with_length in Hs. unfold zlen. lia.
  - intros [= <-]. apply starts_with_length in Hs. unfold zlen. lia.
  - intros H. destruct (find_sub pat l) as [j|]; [|done]. injection H as <-. destruct (IH j eq_refl). rewrite zlen_cons. lia.
Qed.
Lemma find_sub_more pat l x i : find_sub pat l = Some i -> find_sub pat (l ++ x) = Some i.
Proof.
  revert i. induction l as [|c l IH]; intros i Hi.
  - pose proof (find_sub_bound _ _ _ Hi) as [H0 H1]. pose proof (zlen_nonneg pat). change (zlen []) with 0 in H1. assert (pat = []) as -> by (apply zlen_zero; lia). cbn in *. injection Hi as <-. by destruct x.
  - pose proof (find_sub_bound _ _ _ Hi) as [H0 H1]. cbn [find_sub app] in *. change (c :: l ++ x) with ((c :: l) ++ x). rewrite starts_with_more by (unfold zlen in H1; lia). destruct (starts_with (c :: l) pat); [done|].
    destruct (find_sub pat l) as [j|]; [|done]. by rewrite (IH j eq_refl).
Qed.
Lemma find_sub_within pat l x i : find_sub pat (l ++ x) = Some i -> i + zlen pat <= zlen l -> find_sub pat l = Some i.
Proof.
  revert i. induction l as [|c l IH]; intros i Hi Hle.
  - pose proof (find_sub_bound _ _ _ Hi) as [H0 _]. pose proof (zlen_nonneg pat). change (zlen []) with 0 in Hle. assert (pat = []) as -> by (apply zlen_zero; lia). cbn in *. by destruct x.
  - pose proof (find_sub_bound _ _ _ Hi) as [H0 _]. cbn [find_sub app] in *. change (c :: l ++ x) with ((c :: l) ++ x) in Hi. rewrite starts_with_more in Hi by (unfold zlen in Hle; lia). destruct (starts_with (c :: l) pat); [done|].
    destruct (find_sub pat (l ++ x)) as [j|]; [|done]. injection Hi as <-. rewrite zlen_cons in Hle. by rewrite (IH j eq_refl ltac:(lia)).
Qed.

(** ** What a connection gives, however it is cut *)
Definition steady (c : Connection) : Prop := Forall (fun r => exists b, r = Got b /\ b <> []) (co_reads c).
Section Pieces.
Context {T : Type} (sink : list Z -> T -> outcome io_error T) (add : T -> list Z -> T).
Context (Hsink : forall b s, sink b s = Ok (add s b)) (Hnil : forall s, add s [] = s) (Happ : forall s a b, add (add s a) b = add s (a ++ b)).

Lemma steady_fill c s : steady c -> co_reads c <> [] -> exists b l, co_reads c = Got b :: l /\ b <> []
  /\ fill (T := T) (c, s) = (Ok (zlen b), (mkConnection (co_url c) l (co_writes c) (co_buf c ++ b) (co_closing c), s))
  /\ steady (mkConnection (co_url c) l (co_writes c) (co_buf c ++ b) (co_closing c)) /\ coming (mkConnection (co_url c) l (co_writes c) (co_buf c ++ b) (co_closing c)) = coming c.
Proof.
  unfold steady, fill, coming. destruct (co_reads c) as [|r l]; [done|]. intros [(b&->&Hb) Hl]%Forall_cons _. exists b, l. cbn. split; [done|]. split; [done|]. split; [done|]. split; [done|]. by rewrite <- app_assoc.
Qed.
Lemma zlen_pos {A} (l : list A) : l <> [] -> 0 < zlen l.
Proof. destruct l; [done|]. intros _. rewrite zlen_cons. pose proof (zlen_nonneg l). lia. Qed.
Lemma seek_ok pat why i fuel c s : steady c -> (length (co_reads c) < fuel)%nat -> find_sub pat (coming c) = Some i -> i + zlen pat <= MAX_HEAD + 1 ->
  exists c', seek_fuel (T := T) fuel pat why (c, s) = (Ok i, (c', s)) /\ steady c' /\ coming c' = coming c /\ find_sub pat (co_buf c') = Some i /\ co_closing c' = co_closing c.
Proof.
  intros Hst Hf Hi Hmax. revert c Hst Hf Hi. induction fuel as [|fuel IH]; intros c Hst Hf Hi; [lia|]. cbn [seek_fuel]. unfold mbind, hm_bind, buf at 1. cbn [fst]. destruct (find_sub pat (co_buf c)) as [j|] eqn:Hj.
  - pose proof (find_sub_more _ _ (concat (map given (co_reads c))) _ Hj) as Hj'. fold (coming c) in Hj'. rewrite Hi in Hj'. injection Hj' as ->. by exists c.
  - assert (zlen (co_buf c) < i + zlen pat) as Hshort. { destruct (Z.lt_ge_cases (zlen (co_buf c)) (i + zlen pat)) as [|Hge]; [done|]. unfold coming in Hi. apply find_sub_within in Hi; [congruence|lia]. }
    assert (co_reads c <> []) as Hne. { intros E. unfold coming in Hi. rewrite E in Hi. cbn in Hi. rewrite app_nil_r in Hi. congruence. }
    destruct (Z.ltb_spec MAX_HEAD (zlen (co_buf c))); [lia|]. destruct (steady_fill c s Hst Hne) as (b&l&El&Hb&->&Hst'&Hco). pose proof (zlen_pos b Hb). destruct (Z.eqb_spec (zlen b) 0); [lia|].
    destruct (IH _ Hst') as (c'&->&H1&H2&H3&H4); [cbn [co_reads]; rewrite El in Hf; cbn in Hf; lia|by rewrite Hco|]. exists c'. split; [done|]. split; [done|]. split; [by rewrite H2|]. by split.
Qed.
(** A text up to its end: what comes before the first end of a line. *)
Definition ends (pat l : list Z) : Prop := find_sub pat (l ++ pat) = Some (zlen l) /\ zlen l + zlen pat <= MAX_HEAD + 1.
Lemma seek_text pat why l rest c s : steady c -> ends pat l -> coming c = l ++ pat ++ rest ->
  exists c', seek (T := T) pat why (c, s) = (Ok (zlen l), (c', s)) /\ steady (set_buf (zdrop (zlen l + zlen pat) (co_buf c')) c') /\ coming (set_buf (zdrop (zlen l + zlen pat) (co_buf c')) c') = rest
    /\ ztake (zlen l) (co_buf c') = l /\ co_closing c' = co_closing c.
Proof.
  intros Hst [Hl Hmax] Hco. unfold seek. cbn [fst]. apply (find_sub_more _ _ rest) in Hl. rewrite <- app_assoc in Hl. pose proof (zlen_nonneg l). pose proof (zlen_nonneg pat).
  destruct (seek_ok pat why (zlen l) (S (length (co_reads c))) c s Hst ltac:(lia) ltac:(by rewrite Hco) Hmax) as (c'&->&Hst'&Hco'&Hf&Hcl). exists c'. split; [done|]. split; [exact Hst'|]. rewrite Hco in Hco'. unfold coming in *. cbn [co_buf co_reads set_buf].
  apply find_sub_bound in Hf as [_ Hf]. split; [|split; [|done]].
  - apply (f_equal (zdrop (zlen l + zlen pat))) in Hco'. rewrite app_assoc, (zdrop_app _ (l ++ pat)) in Hco' by (by rewrite zlen_app). rewrite <- Hco'. unfold zdrop. rewrite drop_app_le; [done|unfold zlen in *; lia].
  - apply (f_equal (ztake (zlen l))) in Hco'. rewrite (ztake_app _ l) in Hco' by done. rewrite <- Hco' at 2. unfold ztake. rewrite take_app_le; [done|unfold zlen in *; lia].
Qed.
Lemma line_ok l rest c s : steady c -> ends [13; 10] l -> coming c = l ++ [13; 10] ++ rest ->
  exists c', line (T := T) (c, s) = (Ok (lossy l), (c', s)) /\ steady c' /\ coming c' = rest /\ co_closing c' = co_closing c.
Proof.
  intros Hst Hl Hco. unfold line. unfold mbind, hm_bind. destruct (seek_text [13; 10] "a chunked body ended early" l rest c s Hst Hl Hco) as (c'&->&H1&H2&H3&H4). cbn. change (zlen [13; 10]) with 2 in *. eexists. rewrite H3. split; [done|]. by split.
Qed.
Lemma head_ok h r rest c s : steady c -> ends [13; 10; 13; 10] h -> parse_head h = Ok r -> coming c = h ++ [13; 10; 13; 10] ++ rest ->
  exists c', head_ (T := T) (c, s) = (Ok r, (c', s)) /\ steady c' /\ coming c' = rest.
Proof.
  intros Hst Hl Hr Hco. unfold head_. unfold mbind, hm_bind. destruct (seek_text [13; 10; 13; 10] "the server sent no complete response head" h rest c s Hst Hl Hco) as (c'&->&H1&H2&H3&H4). cbn. unfold parsed. change (zlen [13; 10; 13; 10]) with 4 in *. eexists. rewrite H3, Hr. split; [done|]. by split.
Qed.
Lemma exact_ok fuel b rest c s : steady c -> coming c = b ++ rest -> (length (co_reads c) + (match co_buf c with [] => 0 | _ => 1 end) < fuel)%nat ->
  exists c', exact_fuel sink fuel (zlen b) (c, s) = (Ok tt, (c', add s b)) /\ steady c' /\ coming c' = rest /\ co_closing c' = co_closing c.
Proof.
  revert b c s. induction fuel as [|fuel IH]; intros b c s Hst Hco Hf; [lia|]. cbn [exact_fuel]. destruct (Z.leb_spec (zlen b) 0) as [Hz|Hz].
  { pose proof (zlen_nonneg b). assert (b = []) as -> by (apply zlen_zero; lia). exists c. rewrite Hnil. done. }
  assert (exists c1 n, (match co_buf c with [] => fill | _ => mret 1 end) (c, s) = (Ok n, (c1, s)) /\ n <> 0 /\ steady c1 /\ coming c1 = coming c /\ co_buf c1 <> [] /\ co_closing c1 = co_closing c /\ (length (co_reads c1) < fuel)%nat) as (c1&n&Hn&Hn0&Hst1&Hco1&Hb1&Hcl1&Hf1).
  { destruct (co_buf c) as [|x bu] eqn:Eb; [|exists c, 1; split; [done|]; split; [done|]; split; [done|]; split; [done|]; split; [by rewrite Eb|]; split; [done|lia]].
    assert (co_reads c <> []) as Hne. { intros E. unfold coming in Hco. rewrite Eb, E in Hco. cbn in Hco. destruct b; [done|done]. }
    destruct (steady_fill c s Hst Hne) as (x&l&El&Hx&->&H1&H2). eexists _, _. split; [done|]. pose proof (zlen_pos x Hx). split; [lia|]. split; [done|]. split; [done|]. cbn [co_buf co_closing co_reads]. rewrite Eb. split; [done|]. split; [done|]. rewrite El in Hf. cbn in Hf. lia. }
  unfold mbind, hm_bind, buf at 1. cbn [fst]. rewrite Hn. destruct (Z.eqb_spec n 0); [done|]. unfold buf at 1. cbn [fst]. unfold hseq, hand, change. rewrite Hsink.
  set (t := Z.min (zlen (co_buf c1)) (zlen b)). pose proof (zlen_pos _ Hb1). rewrite <- Hco1 in Hco. unfold coming in Hco.
  assert (ztake t (co_buf c1) = ztake t b) as ->. { apply (f_equal (ztake t)) in Hco. unfold ztake in *. rewrite take_app_le in Hco by (unfold t, zlen; lia). rewrite Hco. apply take_app_le. unfold t, zlen. lia. }
  assert (zlen b - t = zlen (zdrop t b)) as -> by (rewrite zlen_zdrop by lia; lia). set (c2 := set_buf (zdrop t (co_buf c1)) c1).
  assert (coming c2 = zdrop t b ++ rest) as Hco2. { apply (f_equal (zdrop t)) in Hco. unfold coming, c2. cbn [co_buf co_reads set_buf]. unfold zdrop in *. rewrite drop_app_le in Hco by (unfold t, zlen; lia). rewrite Hco. apply drop_app_le. unfold t, zlen. lia. }
  destruct (Z.eq_dec t (zlen b)) as [Et|Et].
  - rewrite zdrop_all in * by lia. rewrite ztake_all by lia. exists c2. split; [by destruct fuel|]. split; [exact Hst1|]. by split.
  - assert (co_buf c2 = []) as Eb2 by (unfold c2; cbn [co_buf set_buf]; apply zdrop_all; lia). destruct (IH (zdrop t b) c2 (add s (ztake t b)) Hst1 Hco2) as (c3&->&H1&H2&H3); [rewrite Eb2; unfold c2; cbn [co_reads set_buf]; lia|].
    exists c3. split; [by rewrite Happ, ztake_zdrop|]. split; [done|]. split; [done|]. by rewrite H3.
Qed.
(** A chunked body: lines that say a size, the data of each, and lines up to
    an empty one after the last. *)
Definition chunk_ok (ch : list Z * list Z) : Prop := ends [13; 10] (fst ch) /\ chunk_size (lossy (fst ch)) = Some (zlen (snd ch)) /\ snd ch <> [].
Definition chunk_bytes (ch : list Z * list Z) : list Z := fst ch ++ [13; 10] ++ snd ch ++ [13; 10].
Definition line_bytes (l : list Z) : list Z := l ++ [13; 10].
Definition chunked_bytes (chs : list (list Z * list Z)) (last : list Z) (ts : list (list Z)) : list Z :=
  concat (map chunk_bytes chs) ++ line_bytes last ++ concat (map line_bytes ts) ++ [13; 10].
Lemma ends_empty : ends [13; 10] [].
Proof. split; [done|]. by vm_compute. Qed.
Lemma trailers_ok ts fuel rest c s : steady c -> Forall (fun t => ends [13; 10] t /\ lossy t <> []) ts -> (length ts < fuel)%nat -> coming c = concat (map line_bytes ts) ++ [13; 10] ++ rest ->
  exists c', trailers (T := T) fuel (c, s) = (Ok tt, (c', s)) /\ steady c' /\ coming c' = rest /\ co_closing c' = co_closing c.
Proof.
  intros Hst Hts. revert c fuel Hst. induction Hts as [|t ts [Ht Hne] Hts IH]; intros c fuel Hst Hf Hco; (destruct fuel as [|fuel]; [cbn in Hf; lia|]); cbn [trailers]; unfold mbind, hm_bind.
  - destruct (line_ok [] rest c s Hst ends_empty Hco) as (c'&->&H1&H2&H3). change (lossy []) with (@nil Z). by exists c'.
  - cbn [map concat] in Hco. unfold line_bytes at 1 in Hco. rewrite <- !app_assoc in Hco. destruct (line_ok t _ c s Hst Ht Hco) as (c'&->&H1&H2&H3). destruct (lossy t); [done|]. destruct (IH c' fuel H1 ltac:(cbn in Hf; lia) H2) as (c2&->&H4&H5&H6). exists c2. split; [done|]. split; [done|]. split; [done|]. by rewrite H6.
Qed.
Lemma chunked_ok chs last ts fuel rest c s : steady c -> Forall chunk_ok chs -> ends [13; 10] last -> chunk_size (lossy last) = Some 0 -> Forall (fun t => ends [13; 10] t /\ lossy t <> []) ts ->
  (length chs + length ts < fuel)%nat -> coming c = chunked_bytes chs last ts ++ rest ->
  exists c', chunked_fuel sink fuel (c, s) = (Ok tt, (c', add s (concat (map snd chs)))) /\ steady c' /\ coming c' = rest /\ co_closing c' = co_closing c.
Proof.
  intros Hst Hchs Hlast Hzero Hts. revert c s fuel Hst. induction Hchs as [|[l d] chs (Hl&Hsz&Hd) Hchs IH]; intros c s fuel Hst Hf Hco; (destruct fuel as [|fuel]; [lia|]); cbn [chunked_fuel]; unfold mbind, hm_bind; unfold chunked_bytes in Hco; cbn [map concat app] in Hco.
  - unfold line_bytes at 1 in Hco. rewrite <- !app_assoc in Hco. destruct (line_ok last _ c s Hst Hlast Hco) as (c'&->&H1&H2&H3). rewrite Hzero. cbn [Z.eqb]. destruct (trailers_ok ts (S fuel) rest c' s H1 Hts ltac:(cbn in Hf; lia) H2) as (c2&->&H4&H5&H6). exists c2. cbn [map concat]. rewrite Hnil. split; [done|]. split; [done|]. split; [done|]. by rewrite H6.
  - cbn [fst snd] in *. unfold chunk_bytes at 1 in Hco. cbn [fst snd] in Hco. rewrite <- !app_assoc in Hco. destruct (line_ok l _ c s Hst Hl Hco) as (c'&->&H1&H2&H3). rewrite Hsz. pose proof (zlen_pos d Hd). destruct (Z.eqb_spec (zlen d) 0); [lia|]. unfold hseq, exact. cbn [fst].
    destruct (exact_ok (S (S (length (co_reads c')))) d _ c' s H1 H2 ltac:(destruct (co_buf c'); lia)) as (c2&->&H4&H5&H6). destruct (line_ok [] _ c2 (add s d) H4 ends_empty H5) as (c3&->&H7&H8&H9).
    destruct (IH c3 (add s d) fuel H7 ltac:(cbn in Hf; lia)) as (c4&->&H10&H11&H12); [unfold chunked_bytes; rewrite H8; by rewrite <- !app_assoc|]. exists c4. cbn [map concat snd]. rewrite Happ. split; [done|]. split; [done|]. split; [done|]. by rewrite H12, H9, H6.
Qed.
Lemma until_ok fuel c s : steady c -> (length (co_reads c) < fuel)%nat -> exists c', until_fuel sink fuel (c, s) = (Ok tt, (c', add s (coming c))) /\ steady c' /\ coming c' = [] /\ co_closing c' = co_closing c.
Proof.
  revert c s. induction fuel as [|fuel IH]; intros c s Hst Hf; [lia|]. cbn [until_fuel]. unfold mbind, hm_bind, buf at 1. cbn [fst]. set (c1 := set_buf [] c).
  assert ((match co_buf c with [] => mret tt | _ => hand sink (co_buf c) ;;; change (set_buf []) end) (c, s) = (Ok tt, (c1, add s (co_buf c)))) as E.
  { destruct (co_buf c) eqn:Eb; [rewrite Hnil; unfold c1; destruct c; cbn in *; by subst|]. unfold hseq, hand. by rewrite Hsink. }
  unfold hseq at 1. rewrite E. destruct (co_reads c) as [|r l] eqn:El.
  - unfold fill, c1. cbn [co_reads set_buf]. rewrite El. cbn [Z.eqb]. exists c1. unfold coming, c1. cbn [co_buf co_reads set_buf]. rewrite El. cbn [map concat]. rewrite app_nil_r. split; [done|]. split; [exact Hst|]. done.
  - assert (co_reads c1 <> []) as Hne by (unfold c1; cbn [co_reads set_buf]; by rewrite El). destruct (steady_fill c1 (add s (co_buf c)) Hst Hne) as (b&l'&El'&Hb&->&Hst'&Hco'). pose proof (zlen_pos b Hb). destruct (Z.eqb_spec (zlen b) 0); [lia|].
    destruct (IH _ (add s (co_buf c)) Hst') as (c2&->&H1&H2&H3); [cbn [co_reads]; unfold c1 in El'; cbn [co_reads set_buf] in El'; rewrite El in El'; injection El' as _ <-; cbn in Hf; lia|]. exists c2. rewrite Hco', Happ. unfold coming, c1. cbn [co_buf co_reads set_buf app]. split; [done|]. by split.
Qed.
Lemma until_closed_ok c s : steady c -> exists c', until_closed sink (c, s) = (Ok tt, (c', add s (coming c))) /\ steady c' /\ coming c' = [] /\ co_closing c' = true.
Proof. intros Hst. exact (until_ok (S (length (co_reads c))) (set_closing true c) s Hst ltac:(cbn; lia)). Qed.

(** The body of a response as RFC 9112 frames it. *)
Inductive framed_body (r : Response) : list Z -> list Z -> list Z -> bool -> Prop :=
| FramedNone rest : bodiless (status r) = true -> framed_body r [] [] rest false
| FramedChunks te chs last ts rest : bodiless (status r) = false -> header r (str "transfer-encoding") = Some te -> same_but_case te (str "chunked") = true ->
    Forall chunk_ok chs -> ends [13; 10] last -> chunk_size (lossy last) = Some 0 -> Forall (fun t => ends [13; 10] t /\ lossy t <> []) ts ->
    framed_body r (chunked_bytes chs last ts) (concat (map snd chs)) rest false
| FramedLength b rest : bodiless (status r) = false -> header r (str "transfer-encoding") = None -> length_ r = Some (zlen b) -> framed_body r b b rest false
| FramedEnd b : bodiless (status r) = false -> header r (str "transfer-encoding") = None -> length_ r = None -> framed_body r b b [] true.
Lemma concat_lines (ts : list (list Z)) : (length ts <= length (concat (map line_bytes ts)))%nat.
Proof. induction ts as [|t ts IH]; [done|]. cbn [map concat length]. unfold line_bytes at 1. rewrite !length_app. cbn. lia. Qed.
Lemma concat_chunks (chs : list (list Z * list Z)) : (length chs <= length (concat (map chunk_bytes chs)))%nat.
Proof. induction chs as [|t chs IH]; [done|]. cbn [map concat length]. unfold chunk_bytes at 1. rewrite !length_app. cbn. lia. Qed.
Lemma body_ok r framed b rest ended c s : steady c -> framed_body r framed b rest ended -> bodiless (status r) = false -> coming c = framed ++ rest ->
  exists c', body r sink (c, s) = (Ok tt, (c', add s b)) /\ steady c' /\ coming c' = rest /\ co_closing c' = co_closing c || ended.
Proof.
  intros Hst Hf Hb Hco. unfold body. destruct Hf as [rest H|te chs last ts rest _ -> -> Hchs Hl Hz Hts|b rest _ -> ->|b _ -> ->].
  - congruence.
  - unfold chunked. cbn [fst]. pose proof (concat_lines ts). pose proof (concat_chunks chs). destruct (chunked_ok chs last ts (S (length (coming c))) rest c s Hst Hchs Hl Hz Hts) as (c'&->&H1&H2&H3); [rewrite Hco; unfold chunked_bytes; rewrite !length_app; lia|done|]. exists c'. split; [done|]. split; [done|]. split; [done|]. by rewrite orb_false_r.
  - unfold exact. cbn [fst]. destruct (exact_ok (S (S (length (co_reads c)))) b rest c s Hst Hco ltac:(destruct (co_buf c); lia)) as (c'&->&H1&H2&H3). exists c'. split; [done|]. split; [done|]. split; [done|]. by rewrite orb_false_r.
  - destruct (until_closed_ok c s Hst) as (c'&->&H1&H2&H3). rewrite Hco, app_nil_r. exists c'. split; [done|]. split; [done|]. split; [done|]. by rewrite orb_true_r.
Qed.
End Pieces.

(** ** Whatever the server sends *)
Section Any.
Context {T : Type} (sink : list Z -> T -> outcome io_error T) (Hsink : forall b s, sink b s <> Panic).
(** The outcome of a method: not a panic, and [P] of what it leaves. *)
Definition leaves {A} (m : HM T A) (c : Connection) (s : T) (P : Connection -> Prop) : Prop :=
  match m (c, s) with (Ok _, (c', _)) => P c' | (Err _, _) => True | (Panic, _) => False end.
Lemma leaves_bind {A B} (m : HM T A) (k : A -> HM T B) c s (P Q : Connection -> Prop) : leaves m c s P -> (forall a c' s', P c' -> leaves (k a) c' s' Q) -> leaves (m ≫= k) c s Q.
Proof. unfold leaves, mbind, hm_bind. destruct (m (c, s)) as [[a| |] [c' s']]; [|done|done]. intros HP Hk. by apply (Hk a c' s'). Qed.
Lemma leaves_seq {A B} (m : HM T A) (k : HM T B) c s (P Q : Connection -> Prop) : leaves m c s P -> (forall c' s', P c' -> leaves k c' s' Q) -> leaves (m ;;; k) c s Q.
Proof. unfold leaves, hseq. destruct (m (c, s)) as [[a| |] [c' s']]; [|done|done]. intros HP Hk. by apply (Hk c' s'). Qed.
Lemma fill_cases (c : Connection) (s : T) : (fst (fill (c, s)) = Ok 0 \/ exists e, fst (fill (c, s)) = Err e) \/ exists b l, co_reads c = Got b :: l /\ zlen b <> 0
  /\ fill (c, s) = (Ok (zlen b), (mkConnection (co_url c) l (co_writes c) (co_buf c ++ b) (co_closing c), s)) /\ coming (mkConnection (co_url c) l (co_writes c) (co_buf c ++ b) (co_closing c)) = coming c.
Proof.
  unfold fill, coming. destruct (co_reads c) as [|[b|e] l] eqn:E; [by left; left| |by left; right; eexists]. destruct (Z.eq_dec (zlen b) 0) as [Hz|Hz]; [left; left; cbn; by rewrite Hz|]. right. exists b, l. split; [done|]. split; [done|]. split; [done|]. cbn. by rewrite <- app_assoc.
Qed.
Lemma seek_any pat why fuel c s : (length (co_reads c) < fuel)%nat -> match seek_fuel (T := T) fuel pat why (c, s) with
  | (Ok i, (c', s')) => s' = s /\ coming c' = coming c /\ find_sub pat (co_buf c') = Some i | (Err _, _) => True | (Panic, _) => False end.
Proof.
  revert c. induction fuel as [|fuel IH]; intros c Hf; [lia|]. cbn [seek_fuel]. unfold mbind, hm_bind, buf at 1. cbn [fst]. destruct (find_sub pat (co_buf c)) as [i|] eqn:Hi; [by cbn|]. destruct (MAX_HEAD <? zlen (co_buf c)); [done|].
  destruct (fill_cases c s) as [Hz|(b&l&El&Hb&->&Hco)].
  - destruct (fill (c, s)) as [[n| |] [c1 s1]]; cbn in Hz; [|done|by destruct Hz as [|[]]]. destruct Hz as [[= ->]|[? ?]]; done.
  - destruct (Z.eqb_spec (zlen b) 0); [done|]. specialize (IH (mkConnection (co_url c) l (co_writes c) (co_buf c ++ b) (co_closing c)) ltac:(cbn; rewrite El in Hf; cbn in Hf; lia)). destruct (seek_fuel fuel pat why _) as [[i| |] [c' s']]; [|done|done]. by rewrite Hco in IH.
Qed.
Lemma coming_drop c n : (n <= length (co_buf c))%nat -> (length (coming (set_buf (drop n (co_buf c)) c)) + n = length (coming c))%nat.
Proof. intros Hn. unfold coming. cbn [co_buf co_reads set_buf]. rewrite !length_app, length_drop. lia. Qed.
Lemma seek_leaves pat why n c s : n = zlen pat -> leaves (i ← seek pat why; b ← buf; change (set_buf (zdrop (i + n) b))) c s (fun c' => (length (coming c') + length pat <= length (coming c))%nat).
Proof.
  intros ->. unfold leaves, mbind, hm_bind, seek. cbn [fst]. pose proof (seek_any pat why (S (length (co_reads c))) c s ltac:(lia)) as H. destruct (seek_fuel _ pat why (c, s)) as [[i| |] [c' s']]; [|done|done]. destruct H as (_&Hco&Hi). apply find_sub_bound in Hi as [H0 H1]. cbn [buf change fst].
  unfold zdrop. pose proof (coming_drop c' (Z.to_nat (i + zlen pat)) ltac:(unfold zlen in *; lia)) as Hd. rewrite Hco in Hd. unfold zlen in *. lia.
Qed.
Lemma line_any c s : leaves line c s (fun c' => (length (coming c') + 2 <= length (coming c))%nat).
Proof.
  pose proof (seek_leaves [13; 10] "a chunked body ended early" 2 c s eq_refl) as H. unfold leaves, line, mbind, hm_bind, hseq in *. destruct (seek [13; 10] _ (c, s)) as [[i| |] [c' s']]; done.
Qed.
Lemma head_any c s : leaves head_ c s (fun _ => True).
Proof.
  pose proof (seek_leaves [13; 10; 13; 10] "the server sent no complete response head" 4 c s eq_refl) as H. unfold leaves, head_, mbind, hm_bind, hseq, parsed in *. destruct (seek [13; 10; 13; 10] _ (c, s)) as [[i| |] [c' s']]; [|done|done]. cbn in *.
  unfold parse_head. by destruct (ok_or _ _) as [x|x|] eqn:E; [| |by destruct (head _ ≫= _)].
Qed.
Lemma hand_any b c s : leaves (hand sink b) c s (fun c' => c' = c).
Proof. unfold leaves, hand. pose proof (Hsink b s). by destruct (sink b s). Qed.
Lemma exact_any fuel len c s : (length (co_reads c) + (match co_buf c with [] => 0 | _ => 1 end) < fuel)%nat -> leaves (exact_fuel sink fuel len) c s (fun c' => (length (coming c') <= length (coming c))%nat).
Proof.
  revert len c s. induction fuel as [|fuel IH]; intros len c s Hf; [lia|]. cbn [exact_fuel]. destruct (Z.leb_spec len 0) as [|Hlen]; [unfold leaves; cbn; lia|].
  assert (leaves (n ← (match co_buf c with [] => fill | _ => mret 1 end); if n =? 0 then fails (Eof "the connection ended inside a body") else mret tt) c s
    (fun c1 => co_buf c1 <> [] /\ coming c1 = coming c /\ (length (co_reads c1) < fuel)%nat)) as H1.
  { unfold leaves, mbind, hm_bind. destruct (co_buf c) as [|x bu] eqn:Eb; [|cbn; rewrite Eb; split; [done|]; split; [done|lia]]. destruct (fill_cases c s) as [Hz|(b&l&El&Hb&->&Hco)].
    - destruct (fill (c, s)) as [[n| |] [c1 s1]]; cbn in Hz; [|done|by destruct Hz as [|[]]]. by destruct Hz as [[= ->]|[? ?]].
    - destruct (Z.eqb_spec (zlen b) 0); [done|]. cbn [mret hm_ret co_buf co_reads]. rewrite Eb in Hco |- *. split; [intros Hx; cbn in Hx; by subst b|]. split; [exact Hco|]. rewrite El in Hf. cbn in Hf. lia. }
  unfold leaves, mbind, hm_bind in H1. unfold leaves, mbind, hm_bind, buf at 1. cbn [fst]. destruct ((match co_buf c with [] => fill | _ => mret 1 end) (c, s)) as [[n| |] [c1 s1]]; [|done|done]. destruct (n =? 0); [done|]. cbn in H1. destruct H1 as (Hb1&Hco1&Hf1). unfold buf at 1. cbn [fst].
  set (t := Z.min (zlen (co_buf c1)) len). pose proof (hand_any (ztake t (co_buf c1)) c1 s1) as Hh. unfold leaves in Hh. unfold hseq at 1. destruct (hand sink _ (c1, s1)) as [[[]| |] [c2 s2]]; [|done|done]. subst c2. unfold hseq, change. pose proof (zlen_pos (co_buf c1) Hb1).
  pose proof (coming_drop c1 (Z.to_nat t) ltac:(unfold t, zlen; lia)) as Hd. fold (zdrop t (co_buf c1)) in Hd. rewrite Hco1 in Hd. set (c2 := set_buf (zdrop t (co_buf c1)) c1) in *. destruct (Z.eq_dec t len) as [Et|Et].
  - destruct fuel as [|fuel]; [lia|]. cbn [exact_fuel]. destruct (Z.leb_spec (len - t) 0); [change (length (coming c2) <= length (coming c))%nat; lia|lia].
  - assert (co_buf c2 = []) as Eb2 by (unfold c2; cbn [co_buf set_buf]; apply zdrop_all; lia). specialize (IH (len - t) c2 s2 ltac:(rewrite Eb2; unfold c2; cbn [co_reads set_buf]; lia)). unfold leaves in IH. destruct (exact_fuel sink fuel (len - t) (c2, s2)) as [[[]| |] [c3 s3]]; [lia|done|done].
Qed.
Lemma trailers_any fuel c s : (length (coming c) < fuel)%nat -> leaves (trailers fuel) c s (fun _ => True).
Proof.
  revert c s. induction fuel as [|fuel IH]; intros c s Hf; [lia|]. cbn [trailers]. eapply leaves_bind; [apply line_any|]. intros l c' s' Hc'. cbn in Hc'. destruct l; [done|]. apply IH. lia.
Qed.
Lemma chunked_any fuel c s : (length (coming c) < fuel)%nat -> leaves (chunked_fuel sink fuel) c s (fun _ => True).
Proof.
  revert c s. induction fuel as [|fuel IH]; intros c s Hf; [lia|]. cbn [chunked_fuel]. eapply leaves_bind; [apply line_any|]. intros l c1 s1 H1. cbn in H1. destruct (chunk_size l) as [size|]; [|done]. destruct (size =? 0); [apply trailers_any; lia|].
  eapply leaves_seq; [unfold leaves, exact; cbn [fst]; apply (exact_any _ size c1 s1); destruct (co_buf c1); lia|]. intros c2 s2 H2. cbn in H2. eapply leaves_seq; [apply line_any|]. intros c3 s3 H3. cbn in H3. apply IH. lia.
Qed.
Lemma until_any fuel c s : (length (co_reads c) < fuel)%nat -> leaves (until_fuel sink fuel) c s (fun _ => True).
Proof.
  revert c s. induction fuel as [|fuel IH]; intros c s Hf; [lia|]. cbn [until_fuel]. unfold leaves, mbind, hm_bind, buf at 1. cbn [fst].
  match goal with |- match (?m ;;; ?k) _ with _ => _ end => change (leaves (m ;;; k) c s (fun _ => True)) end. apply (leaves_seq _ _ _ _ (fun c1 => co_reads c1 = co_reads c)).
  { destruct (co_buf c) as [|x b]; [done|]. eapply leaves_seq; [apply hand_any|]. by intros c' s' ->. }
  intros c1 s1 Hr. destruct (fill_cases c1 s1) as [Hz|(b&l&El&Hb&E&Hco)]; unfold leaves, hm_bind.
  - destruct (fill (c1, s1)) as [[n| |] [c2 s2]]; cbn in Hz; [|done|by destruct Hz as [|[]]]. by destruct Hz as [[= ->]|[? ?]].
  - rewrite E. destruct (zlen b =? 0); [done|]. apply IH. cbn. rewrite Hr in El. rewrite El in Hf. cbn in Hf. lia.
Qed.
Lemma body_any r c s : leaves (body r sink) c s (fun _ => True).
Proof.
  unfold body. destruct (match header r _ with Some _ => _ | None => false end).
  - apply (chunked_any (S (length (coming c))) c s). lia.
  - destruct (length_ r) as [len|]; [|exact (until_any (S (length (co_reads c))) (set_closing true c) s ltac:(cbn; lia))]. pose proof (exact_any (S (S (length (co_reads c)))) len c s ltac:(destruct (co_buf c); lia)) as H. unfold leaves, exact in *. cbn [fst]. by destruct (exact_fuel sink _ len (c, s)) as [[[]| |] [c' s']].
Qed.
End Any.

Lemma get_any {T} (sink : list Z -> T -> outcome io_error T) version path hs c s : (forall b s, sink b s <> Panic) -> fst (conn_get sink version path hs (c, s)) <> Panic.
Proof.
  intros Hsink. assert (leaves (conn_get sink version path hs) c s (fun _ => True)) as H; [|unfold leaves in H; by destruct (conn_get sink version path hs (c, s)) as [[r| |] [c' s']]].
  unfold conn_get. apply (leaves_seq _ _ _ _ (fun _ => True)).
  { unfold leaves, write. cbn [fst]. by destruct (head (co_writes c)) as [[e|]|]. }
  intros c1 s1 _. eapply leaves_bind; [apply head_any|]. intros r c2 s2 _. apply (leaves_seq _ _ _ _ (fun _ => True)); [done|]. intros c3 s3 _. apply (leaves_seq _ _ _ _ (fun _ => True)); [|done]. destruct (bodiless (status r)); [done|]. apply body_any. by destruct (is_redirect (status r)).
Qed.
Definition has_token (hs : list (chars * chars)) : bool := existsb (fun h => same_but_case (fst h) (str "authorization")) hs.
Lemma allowed_token u origin hs : has_token (allowed u origin hs) = true -> host u = origin.
Proof.
  unfold has_token, allowed. rewrite existsb_exists. intros (h&[_ H]%List.filter_In&Ht). rewrite Ht in H. cbn in H. rewrite orb_false_r in H. by apply bool_decide_eq_true in H.
Qed.

(** C12. A response arrives whole however the network cuts it. When what a
    connection has still to give is a head, a body framed as the head says (by
    its length, in chunks with extensions and trailers, none, or up to the end)
    and some rest, [get] returns the parsed head, the sink has had exactly the
    body (nothing of a redirect's), and the rest is what the connection will
    give next, so that a kept-alive connection stays in step. *)
Theorem response_arrives_whole version path hs c s h r framed b rest ended :
  steady c -> co_writes c = [] -> ends [13; 10; 13; 10] h -> parse_head h = Ok r -> framed_body r framed b rest ended -> coming c = h ++ [13; 10; 13; 10] ++ framed ++ rest ->
  exists c', conn_get collect version path hs (c, s) = (Ok r, (c', s ++ if is_redirect (status r) then [] else b)) /\ steady c' /\ coming c' = rest
    /\ co_closing c' = (match header r (str "connection") with Some v => same_but_case v (str "close") | None => false end || ended).
Proof.
  intros Hst Hw Hh Hr Hf Hco. unfold conn_get. unfold hseq at 1. unfold write. cbn [fst]. rewrite Hw. cbn [head tail]. unfold mbind, hm_bind. set (c0 := mkConnection _ _ _ _ _).
  destruct (head_ok h r (framed ++ rest) c0 s Hst Hh Hr Hco) as (c1&->&Hst1&Hco1). unfold hseq at 1, change. set (cl := match header r (str "connection") with Some _ => _ | None => false end). unfold hseq.
  destruct (bodiless (status r)) eqn:Hb.
  - destruct Hf as [rest _|? ? ? ? ? H|? ? H|? H]; try congruence. cbn [mret hm_ret]. exists (set_closing cl c1). split; [by destruct (is_redirect (status r)); rewrite app_nil_r|]. split; [exact Hst1|]. split; [exact Hco1|]. by rewrite orb_false_r.
  - destruct (is_redirect (status r)).
    + destruct (body_ok drop_body (fun s _ => s) ltac:(done) ltac:(done) ltac:(done) r framed b rest ended (set_closing cl c1) s Hst1 Hf Hb Hco1) as (c2&->&H1&H2&H3). exists c2. rewrite app_nil_r. done.
    + destruct (body_ok collect app ltac:(done) (app_nil_r (A := Z)) ltac:(intros; by rewrite app_assoc) r framed b rest ended (set_closing cl c1) s Hst1 Hf Hb Hco1) as (c2&->&H1&H2&H3). exists c2. done.
Qed.
(** Two chunks of a 200 answer, cut inside the size of the second, and the
    start of the next answer. *)
Definition sample_response : list Z := str "HTTP/1.1 200 OK" ++ [13; 10] ++ str "Transfer-Encoding: Chunked".
Definition sample_connection : Connection :=
  mkConnection (mkUrl false (str "h") 80 (str "/")) [Got (sample_response ++ [13; 10; 13]); Got ([10] ++ str "2" ++ [13; 10] ++ str "ab" ++ [13; 10] ++ str "0"); Got (str "3;x" ++ [13; 10] ++ str "cde" ++ [13; 10] ++ str "0" ++ [13; 10; 13; 10] ++ str "HTTP")] [] [] false.
Lemma response_witness : exists c', conn_get collect [] (str "/") [] (sample_connection, []) = (Ok (mkResponse 200 [(str "transfer-encoding", str "Chunked")]), (c', str "abcde")) /\ coming c' = str "HTTP" /\ co_closing c' = false.
Proof.
  destruct (response_arrives_whole [] (str "/") [] sample_connection [] sample_response (mkResponse 200 [(str "transfer-encoding", str "Chunked")])
    (chunked_bytes [(str "2", str "ab"); (str "03;x", str "cde")] (str "0") []) (concat (map snd [(str "2", str "ab"); (str "03;x", str "cde")])) (str "HTTP") false) as (c'&Hg&_&Hc&Hcl).
  - repeat (apply Forall_cons_2; [eexists; split; [reflexivity|discriminate]|]). apply Forall_nil_2.
  - reflexivity.
  - split; [vm_compute; reflexivity|vm_compute; discriminate].
  - vm_compute. reflexivity.
  - assert (forall l d, find_sub [13; 10] (l ++ [13; 10]) = Some (zlen l) -> zlen l + 2 <=? MAX_HEAD + 1 = true -> chunk_size (lossy l) = Some (zlen d) -> d <> [] -> chunk_ok (l, d)) as Hch by (intros l d H1 H2 H3 H4; split; [split; [exact H1|apply Z.leb_le in H2; exact H2]|by split]).
    apply (FramedChunks _ (str "Chunked") [(str "2", str "ab"); (str "03;x", str "cde")] (str "0") []); [reflexivity|reflexivity|vm_compute; reflexivity| |split; [vm_compute; reflexivity|vm_compute; discriminate]|vm_compute; reflexivity|apply Forall_nil_2].
    repeat (apply Forall_cons_2; [apply Hch; [vm_compute; reflexivity|vm_compute; reflexivity|vm_compute; reflexivity|discriminate]|]). apply Forall_nil_2.
  - vm_compute. reflexivity.
  - exists c'. split; [exact Hg|]. split; [exact Hc|exact Hcl].
Defined.

(** C38. Whatever servers answer, and whatever connecting does but panic, [fetch]
    returns: it sends at most nine requests, and an Authorization header, in
    any case, goes to the host it was first sent to and to no other, over any
    chain of redirects. *)
Theorem token_stays_at_its_host {T} (sink : list Z -> T -> outcome io_error T) version connect conn u hs s :
  (forall b s, sink b s <> Panic) -> (forall u, connect u <> Panic) ->
  let '(o, _, _, sent) := fetch sink version connect conn u hs s in
  o <> Panic /\ (length sent <= 9)%nat /\ Forall (fun '(v, l) => has_token l = true -> host v = host u) sent.
Proof.
  intros Hsink Hcon. unfold fetch. change 9%nat with (S MAX_REDIRECTS). generalize (host u) as origin. intros origin. revert conn u s. induction (S MAX_REDIRECTS) as [|fuel IH]; intros conn u s; cbn [fetch_from]; [split; [done|]; split; [cbn; lia|constructor]|].
  destruct (match conn with Some c => if serves c u then Ok c else connect u | None => connect u end) as [c|e|] eqn:Ec.
  - pose proof (get_any sink version (path u) (allowed u origin hs) c s Hsink) as Hg. assert (Forall (fun '(v, l) => has_token l = true -> host v = origin) [(u, allowed u origin hs)]) as H1 by (constructor; [apply allowed_token|constructor]).
    destruct (conn_get sink version (path u) (allowed u origin hs) (c, s)) as [[r|e|] [c1 s1]]; [|split; [done|]; split; [cbn; lia|done]|done]. destruct (negb (is_redirect (status r))); [split; [done|]; split; [cbn; lia|done]|].
    destruct (header r (str "location") ≫= join u) as [u'|]; [|split; [done|]; split; [cbn; lia|done]]. specialize (IH (Some c1) u' s1). destruct (fetch_from sink version fuel connect (Some c1) u' origin hs s1) as [[[o co] s2] l]. destruct IH as (Ho&Hl&Hf). split; [done|]. split; [cbn; lia|]. constructor; [apply allowed_token|done].
  - split; [done|]. split; [cbn; lia|constructor].
  - exfalso. destruct conn as [c|]; [destruct (serves c u); [done|]|]; by apply (Hcon u).
Qed.
(** A redirect to another host, and its answer. *)
Definition sample_connect (u : Url) : outcome io_error Connection :=
  Ok (mkConnection u [Got (if bool_decide (host u = str "hub") then str "HTTP/1.1 302 Found" ++ [13; 10] ++ str "Location: https://cdn/x" ++ [13; 10] ++ str "Content-Length: 0" ++ [13; 10; 13; 10] else str "HTTP/1.1 200 OK" ++ [13; 10] ++ str "Content-Length: 1" ++ [13; 10; 13; 10] ++ str "y")] [] [] false).
Lemma token_witness : let '(o, _, s, sent) := fetch collect [] sample_connect None (mkUrl true (str "hub") 443 (str "/")) [(str "Authorization", str "Bearer t"); (str "Range", str "bytes=0-1")] [] in
  o <> Panic /\ (length sent <= 9)%nat /\ map (fun x => (host (fst x), has_token (snd x))) sent = [(str "hub", true); (str "cdn", false)] /\ s = str "y".
Proof.
  pose proof (token_stays_at_its_host collect [] sample_connect None (mkUrl true (str "hub") 443 (str "/")) [(str "Authorization", str "Bearer t"); (str "Range", str "bytes=0-1")] [] ltac:(done) ltac:(done)) as H.
  destruct (fetch collect [] sample_connect None (mkUrl true (str "hub") 443 (str "/")) [(str "Authorization", str "Bearer t"); (str "Range", str "bytes=0-1")] []) as [[[o co] s] sent] eqn:E. destruct H as (Ho&Hl&_). split; [exact Ho|]. split; [exact Hl|].
  vm_compute in E. injection E as <- <- <- <-. split; vm_compute; reflexivity.
Defined.
