(* ===== verification/P256.v ===== *)
(** * ECDSA on P-256 ([net/p256.rs])

    Field and scalar arithmetic on four limbs in Montgomery form, projective
    points with complete formulas, and signature checks. Arithmetic that its
    width does not hold, an index out of range and the debug assertion of the
    multiplier are panics. *)
From S2P Require Import Prelude Bytes X25519 Limbs.

Record Modulus := mkModulus { md_m : list Z; md_inv : Z; md_r2 : list Z }.
Definition P : Modulus := mkModulus [0xffffffffffffffff; 0x00000000ffffffff; 0x0000000000000000; 0xffffffff00000001] 1
  [0x0000000000000003; 0xfffffffbffffffff; 0xfffffffffffffffe; 0x00000004fffffffd].
Definition N : Modulus := mkModulus [0xf3b9cac2fc632551; 0xbce6faada7179e84; 0xffffffffffffffff; 0xffffffff00000000] 0xccd1c8aaee00bc4f
  [0x83244c95be79eea2; 0x4699799c49bd6fa6; 0x2845b2392b6bec59; 0x66e12d94f3d95620].
Definition ONE : list Z := [0x0000000000000001; 0xffffffff00000000; 0xffffffffffffffff; 0x00000000fffffffe].
Definition B : list Z := [0xd89cdf6229c4bddf; 0xacf005cd78843090; 0xe5a220abf7212ed6; 0xdc30061d04874834].
Record Point := mkPoint { px : list Z; py : list Z; pz : list Z }.
Definition G : Point := mkPoint [0x79e730d418a9143c; 0x75ba95fc5fedb601; 0x79fb732b77622510; 0x18905f76a53755c6] [0xddf25357ce95560a; 0x8b4ab8e4ba19e45c; 0xd2e88688dd21f325; 0x8571ff1825885d85] ONE.

Definition adc (a b carry : Z) : computes (Z * Z) := t ← fit 128 (a + b + carry); Ok (wrap 64 t, wrap 64 (Z.shiftr t 64)).
Definition sbb (a b borrow : Z) : Z * Z := let t := wrap 128 (a - (b + borrow)) in (wrap 64 t, wrap 64 (Z.shiftr t 127)).
(** The loops over four limbs take them from the lowest. *)
Fixpoint sub_loop (a b : list Z) (borrow : Z) : list Z * Z :=
  match a, b with
  | x :: a, y :: b => let '(d, borrow) := sbb x y borrow in let '(out, borrow) := sub_loop a b borrow in (d :: out, borrow)
  | _, _ => ([], borrow)
  end.
Definition sub_raw (a b : list Z) : list Z * Z := sub_loop a b 0.
Fixpoint add_loop (a b : list Z) (carry : Z) : computes (list Z * Z) :=
  match a, b with
  | x :: a, y :: b => '(s, carry) ← adc x y carry; '(out, carry) ← add_loop a b carry; Ok (s :: out, carry)
  | _, _ => Ok ([], carry)
  end.
Fixpoint select (mask : Z) (a b : list Z) : list Z :=
  match a, b with x :: a, y :: b => Z.lor (Z.land x mask) (Z.land y (Z.lxor mask (2 ^ 64 - 1))) :: select mask a b | _, _ => [] end.
Definition is_zero (a : list Z) : Z := let any := fold_left Z.lor a 0 in Z.lxor (Z.shiftr (Z.lor any (wrap 64 (- any))) 63) 1.

(** The inner loops of [Modulus::mul]. *)
Fixpoint mul_limbs (k : nat) (t a : list Z) (bi c : Z) : computes (list Z * Z) :=
  match k, t, a with
  | S k, x :: t, y :: a => s ← fit 128 (x + y * bi); v ← fit 128 (s + c); '(t, c') ← mul_limbs k t a bi (wrap 64 (Z.shiftr v 64)); Ok (wrap 64 v :: t, c')
  | O, _, _ => Ok (t, c)
  | _, _, _ => Panic
  end.
Fixpoint red_limbs (k : nat) (t m : list Z) (q c : Z) : computes (list Z * Z) :=
  match k, t, m with
  | S k, x :: t, y :: m => s ← fit 128 (x + q * y); v ← fit 128 (s + c); '(w, c') ← red_limbs k t m q (wrap 64 (Z.shiftr v 64)); Ok (wrap 64 v :: w, c')
  | O, _, _ => Ok ([], c)
  | _, _, _ => Panic
  end.
Definition mul_round (m : Modulus) (a t : list Z) (bi : Z) : computes (list Z) :=
  '(t, c) ← mul_limbs 4 t a bi 0;
  t4 ← or_panic (zget t 4); '(x, y) ← adc t4 c 0;
  t ← put t 4 x; t ← put t 5 y;
  t0 ← or_panic (zget t 0); m0 ← or_panic (zget (md_m m) 0);
  let q := wrap 64 (t0 * md_inv m) in
  v ← fit 128 (t0 + q * m0);
  '(w, c) ← red_limbs 3 (zdrop 1 t) (zdrop 1 (md_m m)) q (wrap 64 (Z.shiftr v 64));
  let t := w ++ zdrop 3 t in
  t4 ← or_panic (zget t 4); '(s, carry) ← adc t4 c 0; t5 ← or_panic (zget t 5);
  top ← fit 64 (t5 + carry);
  t ← put t 3 s; put t 4 top.
Fixpoint mul_rounds (m : Modulus) (a t b : list Z) : computes (list Z) := match b with [] => Ok t | bi :: b => t ← mul_round m a t bi; mul_rounds m a t b end.
Definition reduce (m : Modulus) (value : list Z) (carry : Z) : list Z :=
  let '(less, borrow) := sub_raw value (md_m m) in
  let keep := wrap 64 (0 - Z.land borrow (Z.lxor carry 1)) in select keep value less.
Definition holds (m : Modulus) (a : list Z) : bool := snd (sub_raw a (md_m m)) =? 1.
Definition mul (m : Modulus) (a b : list Z) : computes (list Z) :=
  if negb (holds m a && holds m b) then Panic else
  t ← mul_rounds m a (zrep 6 0) b;
  hi ← or_panic (zget t 4); Ok (reduce m (ztake 4 t) hi).
Definition add (m : Modulus) (a b : list Z) : computes (list Z) := '(sum, carry) ← add_loop a b 0; Ok (reduce m sum carry).
Definition sub (m : Modulus) (a b : list Z) : computes (list Z) :=
  let '(d, borrow) := sub_raw a b in
  let back := select (wrap 64 (0 - borrow)) (md_m m) (zrep 4 0) in
  '(out, _) ← add_loop d back 0; Ok out.
Definition encode (m : Modulus) (a : list Z) : computes (list Z) := mul m a (md_r2 m).
Definition decode (m : Modulus) (a : list Z) : computes (list Z) := mul m a [1; 0; 0; 0].
(** The loop of [invert], over the bits of [e] below [k]. *)
Fixpoint invert_from (k : nat) (m : Modulus) (e r a : list Z) : computes (list Z) :=
  match k with
  | O => Ok r
  | S k =>
      r ← mul m r r;
      w ← or_panic (zget e (Z.of_nat k / 64));
      r ← (if Z.land (Z.shiftr w (Z.of_nat k mod 64)) 1 =? 1 then mul m r a else Ok r);
      invert_from k m e r a
  end.
Definition invert (m : Modulus) (a : list Z) : computes (list Z) :=
  let '(e, _) := sub_raw (md_m m) [2; 0; 0; 0] in r ← encode m [1; 0; 0; 0]; invert_from 256 m e r a.
Definition word_of (b : list Z) (i : Z) : computes Z := s ← or_panic (zslice b (24 - 8 * i) (32 - 8 * i)); Ok (be_fold 64 s).
Definition limbs (b : list Z) : computes (list Z) := w0 ← word_of b 0; w1 ← word_of b 1; w2 ← word_of b 2; w3 ← word_of b 3; Ok [w0; w1; w2; w3].

Definition INFINITY : Point := mkPoint (zrep 4 0) ONE (zrep 4 0).
Definition point_add (p q : Point) : computes Point :=
  let mul := mul P in let add := add P in let sub := sub P in
  t0 ← mul (px p) (px q);
  t1 ← mul (py p) (py q);
  t2 ← mul (pz p) (pz q);
  a ← add (px p) (py p); b ← add (px q) (py q); t3 ← mul a b;
  a ← add t0 t1; t3 ← sub t3 a;
  a ← add (py p) (pz p); b ← add (py q) (pz q); t4 ← mul a b;
  a ← add t1 t2; t4 ← sub t4 a;
  a ← add (px p) (pz p); b ← add (px q) (pz q); x3 ← mul a b;
  a ← add t0 t2; y3 ← sub x3 a;
  a ← mul B t2; x3 ← sub y3 a;
  a ← add x3 x3; x3 ← add x3 a;
  z3 ← sub t1 x3;
  x3 ← add t1 x3;
  y3 ← mul B y3;
  a ← add t2 t2; t2 ← add t2 a;
  a ← sub y3 t2; y3 ← sub a t0;
  a ← add y3 y3; y3 ← add y3 a;
  a ← add t0 t0; a ← add t0 a; t0 ← sub a t2;
  t1 ← mul t4 y3;
  t2 ← mul t0 y3;
  a ← mul x3 z3; y3 ← add a t2;
  a ← mul t3 x3; x3 ← sub a t1;
  a ← mul t4 z3; b ← mul t3 t0; z3 ← add a b;
  Ok (mkPoint x3 y3 z3).

Definition digit (k : list Z) (window : Z) : computes Z := w ← or_panic (zget k (window / 16)); Ok (Z.land (Z.shiftr w (window mod 16 * 4)) 15).
(** The table: [table[i] = table[i - 1] + p]. *)
Fixpoint table_from (n : nat) (last p : Point) : computes (list Point) :=
  match n with O => Ok [] | S n => q ← point_add last p; l ← table_from n q p; Ok (q :: l) end.
Fixpoint doubles (n : nat) (acc : Point) : computes Point := match n with O => Ok acc | S n => acc ← point_add acc acc; doubles n acc end.
Fixpoint windows (n : nat) (k : list Z) (table : list Point) (acc : Point) : computes Point :=
  match n with
  | O => Ok acc
  | S n => acc ← doubles 4 acc; d ← digit k (Z.of_nat n); q ← or_panic (zget table d); acc ← point_add acc q; windows n k table acc
  end.
Definition multiply (k : list Z) (p : Point) : computes Point := l ← table_from 15 INFINITY p; windows 64 k (INFINITY :: l) INFINITY.
Definition affine (p : Point) : computes (option (list Z * list Z)) :=
  if is_zero (pz p) =? 1 then Ok None else
  zi ← invert P (pz p); x ← mul P (px p) zi; x ← decode P x; y ← mul P (py p) zi; y ← decode P y; Ok (Some (x, y)).

Record PublicKey := mkPublicKey { kx : list Z; ky : list Z }.
Definition from_sec1 (b : list Z) : computes (option PublicKey) :=
  match b with
  | tag :: rest =>
      if negb (tag =? 4) || negb (zlen rest =? 64) then Ok None else
      x ← limbs (ztake 32 rest); y ← limbs (zdrop 32 rest);
      if negb (holds P x) || negb (holds P y) then Ok None else
      xm ← encode P x; ym ← encode P y;
      a ← add P xm xm; three_x ← add P xm a;
      a ← mul P xm xm; a ← mul P a xm; a ← sub P a three_x; rhs ← add P a B;
      lhs ← mul P ym ym;
      Ok (if bool_decide (lhs = rhs) then Some (mkPublicKey x y) else None)
  | [] => Ok None
  end.
(** [verify]'s scalars and its point. *)
Definition scalars (digest r s : list Z) : computes (list Z * list Z) :=
  d ← limbs digest; z ← encode N (reduce N d 0);
  a ← encode N s; w ← invert N a;
  a ← mul N z w; u1 ← decode N a;
  a ← encode N r; a ← mul N a w; u2 ← decode N a; Ok (u1, u2).
Definition sum_of (k : PublicKey) (u1 u2 : list Z) : computes (option (list Z * list Z)) :=
  qx ← encode P (kx k); qy ← encode P (ky k); let q := mkPoint qx qy ONE in
  p1 ← multiply u1 G; p2 ← multiply u2 q; p ← point_add p1 p2; affine p.
Definition verify (k : PublicKey) (digest sig : list Z) : computes bool :=
  r ← limbs (ztake 32 sig); s ← limbs (zdrop 32 sig);
  if negb (holds N r) || negb (holds N s) || (is_zero r =? 1) || (is_zero s =? 1) then Ok false else
  '(u1, u2) ← scalars digest r s; o ← sum_of k u1 u2;
  match o with Some (x, _) => Ok (bool_decide (reduce N x 0 = r)) | None => Ok false end.
