(* ===== verification/P256Field.v ===== *)
(** * The field of P-256 ([net/p256.rs])

    What [Modulus]'s operations compute: sums, differences, Montgomery products
    and powers modulo any odd modulus of four limbs, without a panic. *)
From Stdlib Require Import Znumtheory Zpow_facts.
From S2P Require Import Prelude Bytes Sha X25519 Limbs Rsa P256.

Lemma sbb_spec a b borrow : fits 64 a -> fits 64 b -> 0 <= borrow <= 1 -> let '(d, out) := sbb a b borrow in fits 64 d /\ 0 <= out <= 1 /\ d = a - b - borrow + 2 ^ 64 * out.
Proof.
  intros Ha Hb Hbo. unfold sbb. set (x := a - (b + borrow)). unfold fits in Ha, Hb. change (2 ^ 128) with (2 ^ 64 * 2 ^ 64). assert (wrap 128 x = x + 2 ^ 128 * Z.b2z (x <? 0)) as ->.
  { unfold wrap. assert (2 ^ 64 < 2 ^ 128) by (apply Z.pow_lt_mono_r; lia). destruct (Z.ltb_spec x 0); cbn [Z.b2z]; [rewrite <- (Z.mod_add _ 1) by lia|]; rewrite Z.mod_small; lia. }
  split; [by apply wrap_fits|]. rewrite Z.shiftr_div_pow2 by lia. assert ((x + 2 ^ 128 * Z.b2z (x <? 0)) / 2 ^ 127 = Z.b2z (x <? 0)) as ->.
  { change (2 ^ 128) with (2 * 2 ^ 127). assert (2 ^ 65 < 2 ^ 127) by (apply Z.pow_lt_mono_r; lia). change (2 ^ 65) with (2 * 2 ^ 64) in *. symmetry. destruct (Z.ltb_spec x 0); cbn [Z.b2z]; [apply Z.div_unique with (x + 2 ^ 127)|apply Z.div_unique with x]; lia. }
  assert (wrap 64 (Z.b2z (x <? 0)) = Z.b2z (x <? 0)) as -> by (by destruct (x <? 0)). split; [by destruct (x <? 0)|].
  unfold wrap. change (2 ^ 128) with (2 ^ 64 * 2 ^ 64). replace (x + 2 ^ 64 * 2 ^ 64 * Z.b2z (x <? 0)) with (x + (2 ^ 64 * Z.b2z (x <? 0)) * 2 ^ 64) by ring. rewrite Z.mod_add by lia. destruct (Z.ltb_spec x 0); cbn [Z.b2z]; [rewrite <- (Z.mod_add _ 1) by lia|]; rewrite Z.mod_small; lia.
Qed.
Lemma sub_loop_spec a b borrow : limbs_ok a -> limbs_ok b -> length a = length b -> 0 <= borrow <= 1 -> let '(r, out) := sub_loop a b borrow in
  limbs_ok r /\ length r = length a /\ 0 <= out <= 1 /\ lval r = lval a - lval b - borrow + span a * out.
Proof.
  intros Ha. revert b borrow. induction Ha as [|x a Hx Ha IH]; intros b borrow Hb Hl Hbo; [destruct b; [|done]; cbn [sub_loop]; split; [done|]; split; [done|]; split; [done|]; change (span []) with 1; cbn [lval]; lia|].
  destruct b as [|y b]; [done|]. apply Forall_cons in Hb as [Hy Hb]. injection Hl as Hl. cbn [sub_loop]. pose proof (sbb_spec x y borrow Hx Hy Hbo) as Hs. destruct (sbb x y borrow) as [d b1]. destruct Hs as (Hd&Hb1&Ed). specialize (IH b b1 Hb Hl Hb1). destruct (sub_loop a b b1) as [r out]. destruct IH as (Hr&Hlr&Hout&Er).
  split; [by constructor|]. split; [cbn; lia|]. split; [done|]. cbn [lval]. rewrite Er, Ed, span_cons. ring.
Qed.
Lemma add_loop_spec a b carry : limbs_ok a -> limbs_ok b -> length a = length b -> 0 <= carry <= 1 -> exists r out, add_loop a b carry = Ok (r, out)
  /\ limbs_ok r /\ length r = length a /\ 0 <= out <= 1 /\ lval r + span a * out = lval a + lval b + carry.
Proof.
  intros Ha. revert b carry. induction Ha as [|x a Hx Ha IH]; intros b carry Hb Hl Hc; [destruct b; [|done]; exists [], carry; split; [done|]; split; [done|]; split; [done|]; split; [done|]; change (span []) with 1; cbn [lval]; lia|].
  destruct b as [|y b]; [done|]. apply Forall_cons in Hb as [Hy Hb]. injection Hl as Hl. cbn [add_loop]. unfold adc, fits in *. rewrite fits_width by (assert (2 ^ 66 < 2 ^ 128) by (apply Z.pow_lt_mono_r; lia); change (2 ^ 66) with (4 * 2 ^ 64) in *; lia). cbn [mbind outcome_bind].
  set (t := x + y + carry). rewrite Z.shiftr_div_pow2 by lia. pose proof (Z.div_mod t (2 ^ 64) ltac:(lia)) as Hdm. assert (0 <= t / 2 ^ 64 <= 1) as Hq by (split; [apply Z.div_pos; lia|apply Z.lt_succ_r, Z.div_lt_upper_bound; lia]). assert (wrap 64 (t / 2 ^ 64) = t / 2 ^ 64) as -> by (apply wrap_id; unfold fits; lia).
  destruct (IH b (t / 2 ^ 64) Hb Hl Hq) as (r&out&->&Hr&Hlr&Hout&Er). cbn [mbind outcome_bind]. eexists _, _. split; [done|]. split; [constructor; [by apply wrap_fits|done]|]. split; [cbn; lia|]. split; [done|]. cbn [lval]. rewrite span_cons. unfold wrap. lia.
Qed.
Lemma select_ones a b : limbs_ok a -> length a = length b -> select (2 ^ 64 - 1) a b = a.
Proof.
  intros Ha. revert b. induction Ha as [|x a Hx _ IH]; intros [|y b] Hl; try done. injection Hl as Hl. cbn [select]. rewrite (IH b Hl), Z.lxor_nilpotent, Z.land_0_r, Z.lor_0_r. change (2 ^ 64 - 1) with (Z.ones 64). rewrite land_ones_wrap, wrap_id by (done || lia). done.
Qed.
Lemma select_zero a b : limbs_ok b -> length a = length b -> select 0 a b = b.
Proof.
  intros Hb. revert a. induction Hb as [|y b Hy _ IH]; intros [|x a] Hl; try done. injection Hl as Hl. cbn [select]. rewrite (IH a Hl), Z.land_0_r, Z.lor_0_l, Z.lxor_0_l. change (2 ^ 64 - 1) with (Z.ones 64). rewrite land_ones_wrap, wrap_id by (done || lia). done.
Qed.
(** [is_zero], without a branch. *)
Lemma lor_all a : limbs_ok a -> forall acc, fits 64 acc -> fits 64 (fold_left Z.lor a acc) /\ (fold_left Z.lor a acc = 0 <-> acc = 0 /\ lval a = 0).
Proof.
  induction 1 as [|x a Hx Ha IH]; intros acc Hacc; cbn [fold_left lval]; [split; [done|]; lia|]. destruct (IH (Z.lor acc x) ltac:(by apply lor_fits)) as [Hf Hz]. split; [done|]. rewrite Hz, Z.lor_eq_0_iff. pose proof (lval_bound a Ha). unfold fits in Hx. lia.
Qed.
Lemma is_zero_spec a : limbs_ok a -> is_zero a = Z.b2z (lval a =? 0).
Proof.
  intros Ha. unfold is_zero. destruct (lor_all a Ha 0 ltac:(by unfold fits)) as [Hf Hz]. set (any := fold_left Z.lor a 0) in *. destruct (Z.eqb_spec (lval a) 0) as [E|E]; [rewrite (proj2 Hz (conj eq_refl E)); done|].
  assert (any <> 0) as Hne by (intros H; apply E; by apply Hz). clearbody any. unfold fits in Hf. assert (wrap 64 (- any) = 2 ^ 64 - any) as -> by (unfold wrap; rewrite <- (Z.mod_add _ 1), Z.mod_small by lia; lia).
  assert (fits 64 (Z.lor any (2 ^ 64 - any))) as Hlf by (apply lor_fits; [done|unfold fits; lia|unfold fits; lia]). assert (2 ^ 63 <= Z.lor any (2 ^ 64 - any)) as Hlow.
  { assert (forall u w, 0 <= u -> 0 <= w -> u <= Z.lor u w /\ w <= Z.lor u w) as Hle. { intros u w Hu Hw. split; (apply Z.ldiff_le; [apply Z.lor_nonneg; done|]); apply Z.bits_inj'; intros i _; rewrite Z.ldiff_spec, Z.lor_spec, Z.bits_0; by destruct (Z.testbit u i), (Z.testbit w i). }
    destruct (Hle any (2 ^ 64 - any) ltac:(lia) ltac:(lia)). change (2 ^ 64) with (2 * 2 ^ 63) in *. lia. }
  set (v := Z.lor any (2 ^ 64 - any)) in *. clearbody v. unfold fits in Hlf. rewrite Z.shiftr_div_pow2 by lia. change (2 ^ 64) with (2 * 2 ^ 63) in *. replace (v / 2 ^ 63) with 1 by (apply Z.div_unique with (v - 2 ^ 63); lia). done.
Qed.

(** ** Bits of limbs *)
Lemma limb_bit e k : limbs_ok e -> 0 <= k < 64 * zlen e -> exists w, zget e (k / 64) = Some w /\ Z.testbit w (k mod 64) = Z.testbit (lval e) k.
Proof.
  intros He. revert k. induction He as [|x e Hx He IH]; intros k Hk; [change (zlen []) with 0 in Hk; lia|]. rewrite zlen_cons in Hk. pose proof (zlen_nonneg e). cbn [lval].
  assert (x + 2 ^ 64 * lval e = Z.lor (Z.shiftl (lval e) 64) x) as -> by (unfold fits in Hx; rewrite lor_shiftl_add by lia; lia). rewrite Z.lor_spec, Z.shiftl_spec by lia. destruct (Z.lt_ge_cases k 64) as [Hlt|Hge].
  - exists x. rewrite Z.div_small, Z.mod_small by lia. split; [done|]. rewrite (Z.testbit_neg_r _ (k - 64)) by lia. done.
  - destruct (IH (k - 64) ltac:(lia)) as (w&Hw&Hb). exists w. rewrite (testbit_high x 64 k Hx Hge), orb_false_r, <- Hb. replace k with (k - 64 + 1 * 64) at 1 2 by lia. rewrite Z.div_add, Z.mod_add by lia. split; [|done].
    pose proof (Z.div_pos (k - 64) 64 ltac:(lia) ltac:(lia)). unfold zget in *. destruct (Z.ltb_spec ((k - 64) / 64) 0); [lia|]. destruct (Z.ltb_spec ((k - 64) / 64 + 1) 0); [lia|]. replace (Z.to_nat ((k - 64) / 64 + 1)) with (S (Z.to_nat ((k - 64) / 64))) by lia. done.
Qed.
(** [n] bits within a limb. *)
Lemma limb_bits e k n : limbs_ok e -> 0 <= k < 64 * zlen e -> 0 <= n -> k mod 64 + n <= 64 -> exists w, zget e (k / 64) = Some w /\ Z.land (Z.shiftr w (k mod 64)) (Z.ones n) = Z.land (Z.shiftr (lval e) k) (Z.ones n).
Proof.
  intros He Hk Hn Hfit. destruct (limb_bit e k He Hk) as (w&Hw&_). exists w. split; [done|]. pose proof (Z.div_mod k 64 ltac:(lia)). pose proof (Z.mod_pos_bound k 64 ltac:(lia)). pose proof (zget_Some _ _ _ Hw).
  apply Z.bits_inj'. intros i Hi. rewrite !Z.land_spec, !Z.shiftr_spec by lia. destruct (Z.lt_ge_cases i n) as [Hlt|Hge]; [|by rewrite Z.ones_spec_high, !andb_false_r by lia]. f_equal.
  assert ((i + k) / 64 = k / 64 /\ (i + k) mod 64 = i + k mod 64) as [Hd Hmd]. { assert ((i + k) / 64 = k / 64) as E by (symmetry; apply Z.div_unique with (i + k mod 64); lia). split; [done|]. rewrite Z.mod_eq, E by lia. lia. }
  destruct (limb_bit e (i + k) He ltac:(lia)) as (w'&Hw'&Hb). rewrite Hd in Hw'. rewrite Hw in Hw'. injection Hw' as <-. by rewrite <- Hb, Hmd.
Qed.
Lemma lval_inj a b : limbs_ok a -> limbs_ok b -> length a = length b -> lval a = lval b -> a = b.
Proof.
  intros Ha. revert b. induction Ha as [|x a Hx Ha IH]; intros [|y b] Hb Hl E; try done. apply Forall_cons in Hb as [Hy Hb]. injection Hl as Hl. cbn [lval] in E. unfold fits in Hx, Hy. assert (x = y /\ lval a = lval b) as [-> Eab] by lia. f_equal. by apply IH.
Qed.

(** ** The multiplier is the one of [Limbs] on four limbs *)
Lemma mul_limbs_same a low rest bi c : limbs_ok low -> limbs_ok a -> length low = length a -> fits 64 bi -> fits 64 c -> mul_limbs (length a) (low ++ rest) a bi c = mul_row (length a) (low ++ rest) a bi c.
Proof.
  intros Hlow Ha Hl Hbi. revert c low Hlow Hl. induction Ha as [|y a Hy Ha IH]; intros c low Hlow Hl Hc; [destruct low; [|done]; destruct rest; reflexivity|]. destruct low as [|x low]; [done|]. injection Hl as Hl. apply Forall_cons in Hlow as [Hx Hlow]. cbn [length mul_limbs mul_row app].
  destruct (row_step x y bi c Hx Hy Hbi Hc) as (->&H1&H2&H3&H4). cbn [mbind outcome_bind]. rewrite (Z.add_comm (x + y * bi) c), H1. cbn [mbind outcome_bind]. rewrite (wrap_id 64 (Z.shiftr _ 64)) by done. by rewrite IH.
Qed.
Lemma red_limbs_same n low rest q c : limbs_ok low -> limbs_ok n -> length low = length n -> fits 64 q -> fits 64 c -> red_limbs (length n) (low ++ rest) n q c = red_row (length n) (low ++ rest) n q c.
Proof.
  intros Hlow Hn Hl Hq. revert c low Hlow Hl. induction Hn as [|y n Hy Hn IH]; intros c low Hlow Hl Hc; [destruct low; [|done]; destruct rest; reflexivity|]. destruct low as [|x low]; [done|]. injection Hl as Hl. apply Forall_cons in Hlow as [Hx Hlow]. cbn [length red_limbs red_row app]. rewrite (Z.mul_comm q y).
  destruct (row_step x y q c Hx Hy Hq Hc) as (->&H1&H2&H3&H4). cbn [mbind outcome_bind]. rewrite (Z.add_comm (x + y * q) c), H1. cbn [mbind outcome_bind]. rewrite (wrap_id 64 (Z.shiftr _ 64)) by done. by rewrite IH.
Qed.
Lemma adc_spec h c : fits 64 h -> fits 64 c -> adc h c 0 = Ok (wrap 64 (c + h), wrap 64 (Z.shiftr (c + h) 64)) /\ fit 128 (c + h) = Ok (c + h).
Proof. intros Hh Hc. destruct (top_step c h Hc Hh) as (H&_). unfold adc. replace (h + c + 0) with (c + h) by lia. by rewrite H. Qed.

(** A modulus of four limbs with its Montgomery constants. *)
Record modulus_ok (m : Modulus) (M : Z) : Prop := {
  mo_limbs : limbs_ok (md_m m);
  mo_len : length (md_m m) = 4%nat;
  mo_value : lval (md_m m) = M;
  mo_odd : Z.odd M = true;
  mo_big : 2 ^ 255 < M;
  mo_inv : (M * md_inv m + 1) mod 2 ^ 64 = 0;
  mo_r2 : limbs_ok (md_r2 m) /\ length (md_r2 m) = 4%nat /\ lval (md_r2 m) = (2 ^ 256 * 2 ^ 256) mod M;
}.
Section Field.
Context (m : Modulus) (M : Z) (Hm : modulus_ok m M).
Let mm := md_m m.
Lemma span4 (x : list Z) : length x = 4%nat -> span x = 2 ^ 256.
Proof. intros H. unfold span, zlen. by rewrite H. Qed.
Lemma modulus_range : 2 ^ 255 < M < 2 ^ 256.
Proof. pose proof (lval_bound mm (mo_limbs _ _ Hm)) as H. unfold mm in H. rewrite span4, (mo_value _ _ Hm) in H by apply (mo_len _ _ Hm). pose proof (mo_big _ _ Hm). lia. Qed.
Lemma modulus_list : mm <> [].
Proof. intros H. pose proof (mo_len _ _ Hm) as Hl. fold mm in Hl. by rewrite H in Hl. Qed.

(** A reduced element. *)
Definition elem (x : list Z) : Prop := limbs_ok x /\ length x = 4%nat /\ 0 <= lval x < M.
Lemma mul_round_same a t v bi : elem a -> running a mm t v -> fits 64 bi -> mul_round m a t bi = mont_round a mm (md_inv m) t bi.
Proof.
  intros (Ha&Hla&Hav) (low&hi&junk&->&Hlow&Hll&Hhi&Hv&Hvlt) Hbi. pose proof (mo_len _ _ Hm) as Hlm. fold mm in Hlm. pose proof (mo_value _ _ Hm) as Hval. fold mm in Hval. pose proof modulus_range as Hr.
  assert (hi <= 1) as Hhi1. { pose proof (lval_bound low Hlow). rewrite span4 in Hv by done. nia. }
  unfold mul_round, mont_round. assert (zlen mm = 4) as -> by (unfold zlen; by rewrite Hlm). rewrite <- Hla at 1. change (Z.to_nat 4) with 4%nat. rewrite <- Hla at 1. fold mm. rewrite mul_limbs_same by (done || lia).
  destruct (mul_row_spec a low [hi; junk] bi 0 Hlow Ha ltac:(lia) Hbi ltac:(unfold fits; lia)) as (low1&c1&->&Hlow1&Hl1&Hc1&Hv1). cbn [mbind outcome_bind].
  assert (zlen low1 = 4) as Hz1 by (unfold zlen; lia). rewrite limb_at by lia. cbn [or_panic mbind outcome_bind]. destruct (adc_spec hi c1 ltac:(unfold fits; lia) Hc1) as [-> ->]. cbn [mbind outcome_bind]. rewrite put_at by lia. cbn [mbind outcome_bind]. change (4 + 1) with 5.
  set (w := wrap 64 (c1 + hi)). set (s := wrap 64 (Z.shiftr (c1 + hi) 64)). rewrite cons_middle, (app_assoc low1 [w] [junk]), put_at by (rewrite zlen_app, Hz1; done). cbn [mbind outcome_bind].
  destruct low1 as [|x ls]; [done|]. apply Forall_cons in Hlow1 as [Hx Hls]. change (zget (((x :: ls) ++ [w]) ++ [s]) 0) with (Some x). cbn [or_panic mbind outcome_bind].
  destruct (low_limb_cancels a mm (md_inv m) (mo_limbs _ _ Hm) ltac:(lia) modulus_list ltac:(lia) ltac:(rewrite Hval; apply (mo_inv _ _ Hm)) x Hx) as (n0&ns&En&Hq). cbv zeta in Hq. rewrite En. change (zget (n0 :: ns) 0) with (Some n0). cbn [or_panic mbind outcome_bind]. destruct Hq as (Hq&->&Hc&_). cbn [mbind outcome_bind]. rewrite (wrap_id 64 (Z.shiftr _ 64)) by done.
  set (q := wrap 64 (x * md_inv m)) in *. clearbody q. change (zdrop 1 (((x :: ls) ++ [w]) ++ [s])) with ((ls ++ [w]) ++ [s]). change (zdrop 1 (n0 :: ns)) with ns. rewrite <- (app_assoc ls). change (Z.to_nat (4 - 1)) with 3%nat. change (4 - 1) with 3.
  assert (length ns = 3%nat) as Hns by (rewrite En in Hlm; cbn in Hlm; lia). assert (limbs_ok ns) as Hnl. { pose proof (mo_limbs _ _ Hm) as H. fold mm in H. rewrite En in H. by apply Forall_cons in H as [_ H]. }
  rewrite <- Hns at 1 2. rewrite red_limbs_same by (done || (cbn in Hl1; lia)). destruct (red_row_spec ns ls ([w] ++ [s]) q (Z.shiftr (x + q * n0) 64) Hls Hnl ltac:(cbn in Hl1; lia) Hq Hc) as (wr&c2&->&Hwr&Hlw&Hc2&_). cbn [mbind outcome_bind].
  assert (fits 64 w) as Hw by (by apply wrap_fits). clearbody w s. destruct ls as [|l1 [|l2 [|l3 [|]]]]; try (cbn in Hl1; lia). destruct wr as [|w1 [|w2 [|w3 [|]]]]; try (cbn in Hlw; lia).
  change (zget ([w1; w2; w3] ++ zdrop 3 ((([x; l1; l2; l3]) ++ [w]) ++ [s])) 4) with (Some w). cbn [or_panic mbind outcome_bind]. by destruct (adc_spec w c2 Hw Hc2) as [-> ->].
Qed.
Lemma mul_rounds_same a b t v : elem a -> limbs_ok b -> running a mm t v -> mul_rounds m a t b = mont_rounds a mm (md_inv m) t b.
Proof.
  intros Ha Hb. revert t v. induction Hb as [|bi b Hbi _ IH]; intros t v Hr; [done|]. cbn [mul_rounds mont_rounds]. rewrite (mul_round_same a t v bi Ha Hr Hbi). pose proof Ha as (Hal&Hla&Hav). pose proof (mo_len _ _ Hm) as Hlm. pose proof (mo_value _ _ Hm) as Hval.
  destruct (mont_round_spec a mm (md_inv m) Hal (mo_limbs _ _ Hm) ltac:(unfold mm; lia) modulus_list ltac:(unfold mm; lia) ltac:(unfold mm; rewrite Hval; apply (mo_inv _ _ Hm)) t v bi Hr Hbi) as (t'&v'&->&Hr'&_). cbn [mbind outcome_bind]. by apply (IH t' v').
Qed.
Lemma sub_raw_spec a b : limbs_ok a -> limbs_ok b -> length a = 4%nat -> length b = 4%nat -> let '(r, out) := sub_raw a b in
  limbs_ok r /\ length r = 4%nat /\ lval r = lval a - lval b + 2 ^ 256 * out /\ out = Z.b2z (lval a <? lval b).
Proof.
  intros Ha Hb Hla Hlb. unfold sub_raw. pose proof (sub_loop_spec a b 0 Ha Hb ltac:(lia) ltac:(lia)) as H. destruct (sub_loop a b 0) as [r out]. destruct H as (Hr&Hlr&Hout&E). rewrite (span4 a Hla) in E. split; [done|]. split; [lia|]. split; [lia|].
  pose proof (lval_bound r Hr) as Hrb. rewrite span4 in Hrb by lia. pose proof (lval_bound a Ha) as Hab. rewrite span4 in Hab by lia. pose proof (lval_bound b Hb) as Hbb. rewrite span4 in Hbb by lia. destruct (Z.ltb_spec (lval a) (lval b)); cbn [Z.b2z]; nia.
Qed.
Lemma holds_spec a : limbs_ok a -> length a = 4%nat -> holds m a = (lval a <? M).
Proof.
  intros Ha Hl. unfold holds. pose proof (sub_raw_spec a mm Ha (mo_limbs _ _ Hm) Hl (mo_len _ _ Hm)) as H. unfold mm in H. destruct (sub_raw a (md_m m)) as [r out]. destruct H as (_&_&_&->). rewrite (mo_value _ _ Hm). cbn [snd]. by destruct (lval a <? M).
Qed.
Lemma reduce_spec value carry : limbs_ok value -> length value = 4%nat -> 0 <= carry <= 1 -> lval value + 2 ^ 256 * carry < 2 * M -> elem (reduce m value carry) /\ lval (reduce m value carry) = (lval value + 2 ^ 256 * carry) mod M.
Proof.
  intros Hv Hl Hc Hlt. unfold reduce. pose proof (sub_raw_spec value mm Hv (mo_limbs _ _ Hm) Hl (mo_len _ _ Hm)) as H. unfold mm in H. rewrite (mo_value _ _ Hm) in H. destruct (sub_raw value (md_m m)) as [less out]. destruct H as (Hr&Hlr&Er&Eo). pose proof modulus_range as HM. pose proof (lval_bound value Hv) as Hb. rewrite span4 in Hb by done. pose proof (lval_bound less Hr) as Hrb. rewrite span4 in Hrb by done.
  assert (wrap 64 (0 - Z.land out (Z.lxor carry 1)) = if (lval value <? M) && (carry =? 0) then 2 ^ 64 - 1 else 0) as ->. { rewrite Eo. assert (carry = 0 \/ carry = 1) as [-> | ->] by lia; by destruct (lval value <? M). }
  destruct (Z.ltb_spec (lval value) M) as [Hlow|Hhigh]; cbn [Z.b2z] in Eo; subst out; [destruct (Z.eqb_spec carry 0) as [->|Hc1]|]; cbn [andb].
  - rewrite select_ones by (done || lia). rewrite Z.mul_0_r, Z.add_0_r, Z.mod_small by lia. split; [split; [done|]; split; [done|lia]|done].
  - assert (carry = 1) as -> by lia. rewrite select_zero by (done || lia). rewrite <- (Z.mod_add _ (-1)), Z.mod_small by lia. split; [split; [done|]; split; [done|lia]|lia].
  - rewrite select_zero by (done || lia). rewrite Z.mul_0_r, Z.add_0_r in Er. assert (carry = 0 \/ carry = 1) as [-> | ->] by lia; [|exfalso; lia]. rewrite <- (Z.mod_add _ (-1)), Z.mod_small by lia. split; [split; [done|]; split; [done|lia]|lia].
Qed.
Lemma mul_elem a b : elem a -> elem b -> exists r, mul m a b = Ok r /\ elem r /\ (2 ^ 256 * lval r) mod M = (lval a * lval b) mod M.
Proof.
  intros Ha Hb. pose proof Ha as (Hal&Hla&Hav). pose proof Hb as (Hbl&Hlb&Hbv). pose proof (mo_len _ _ Hm) as Hlm. pose proof (mo_value _ _ Hm) as Hval. pose proof modulus_range as HM. unfold mul. rewrite !holds_spec by done. destruct (Z.ltb_spec (lval a) M); [|lia]. destruct (Z.ltb_spec (lval b) M); [|lia]. cbn [andb negb].
  assert (running a mm (zrep 6 0) 0) as Hz. { exists [0; 0; 0; 0], 0, 0. split; [done|]. split; [repeat (apply Forall_cons_2; [by unfold fits|]); apply Forall_nil_2|]. split; [unfold mm; by rewrite Hlm|]. split; [lia|]. unfold mm. rewrite Hval, span4 by done. cbn [lval]. lia. }
  rewrite (mul_rounds_same a b _ 0 Ha Hbl Hz). destruct (mont_rounds_spec a mm (md_inv m) Hal (mo_limbs _ _ Hm) ltac:(unfold mm; lia) modulus_list ltac:(unfold mm; lia) ltac:(unfold mm; rewrite Hval; apply (mo_inv _ _ Hm)) b _ 0 Hbl Hz) as (t&v&->&(low&hi&junk&->&Hlow&Hll&Hhi&Hv&Hvlt)&q&E).
  cbn [mbind outcome_bind]. unfold mm in *. rewrite Hlm in Hll. rewrite limb_at by (unfold zlen; by rewrite Hll). cbn [or_panic mbind outcome_bind]. rewrite ztake_app by (unfold zlen; by rewrite Hll). rewrite span4 in Hv, E by done. rewrite Hval in *. pose proof (lval_bound low Hlow) as Hlb'. rewrite span4 in Hlb' by done.
  destruct (reduce_spec low hi Hlow Hll ltac:(nia) ltac:(lia)) as [He Hr]. eexists. split; [done|]. split; [done|]. rewrite Hr, <- Hv, Z.mul_mod_idemp_r by lia. rewrite E, Z.add_0_l. apply Z.mod_add. lia.
Qed.
Lemma add_elem a b : elem a -> elem b -> exists r, add m a b = Ok r /\ elem r /\ lval r = (lval a + lval b) mod M.
Proof.
  intros (Hal&Hla&Hav) (Hbl&Hlb&Hbv). unfold add. destruct (add_loop_spec a b 0 Hal Hbl ltac:(lia) ltac:(lia)) as (r&out&->&Hr&Hlr&Hout&E). cbn [mbind outcome_bind]. rewrite span4 in E by done. destruct (reduce_spec r out Hr ltac:(lia) Hout ltac:(lia)) as [He Hv]. eexists. split; [done|]. split; [done|]. rewrite Hv. f_equal. lia.
Qed.
Lemma zeros4 : limbs_ok (zrep 4 0) /\ length (zrep 4 0) = 4%nat /\ lval (zrep 4 0) = 0.
Proof. split; [apply Forall_replicate; by unfold fits|]. done. Qed.
Lemma sub_elem a b : elem a -> elem b -> exists r, sub m a b = Ok r /\ elem r /\ lval r = (lval a - lval b) mod M.
Proof.
  intros (Hal&Hla&Hav) (Hbl&Hlb&Hbv). unfold sub. pose proof modulus_range as HM. pose proof (sub_raw_spec a b Hal Hbl Hla Hlb) as H. destruct (sub_raw a b) as [d out]. destruct H as (Hd&Hld&Ed&Eo). pose proof (lval_bound d Hd) as Hdb. rewrite span4 in Hdb by done. destruct zeros4 as (Hz&Hlz&Hvz). pose proof (mo_len _ _ Hm) as Hlm. pose proof (mo_limbs _ _ Hm) as Hml. pose proof (mo_value _ _ Hm) as Hval.
  assert (exists back, select (wrap 64 (0 - out)) (md_m m) (zrep 4 0) = back /\ limbs_ok back /\ length back = 4%nat /\ lval back = M * out) as (back&->&Hb&Hlb'&Eb).
  { destruct (lval a <? lval b); cbn [Z.b2z] in Eo; subst out; [exists (md_m m); change (wrap 64 (0 - 1)) with (2 ^ 64 - 1); rewrite select_ones by (done || lia)|exists (zrep 4 0); change (wrap 64 (0 - 0)) with 0; rewrite select_zero by (done || lia)]; (split; [done|]); (split; [done|]); (split; [done|]); lia. }
  destruct (add_loop_spec d back 0 Hd Hb ltac:(lia) ltac:(lia)) as (r&c&->&Hr&Hlr&Hc&E). cbn [mbind outcome_bind]. rewrite span4 in E by done. pose proof (lval_bound r Hr) as Hrb. rewrite span4 in Hrb by lia. eexists. split; [done|].
  assert (lval r = lval a - lval b + out * M) as Er. { destruct (Z.ltb_spec (lval a) (lval b)); cbn [Z.b2z] in Eo; subst out; nia. }
  assert (0 <= lval r < M) as Hrr by (destruct (Z.ltb_spec (lval a) (lval b)); cbn [Z.b2z] in Eo; subst out; lia). split; [split; [done|]; split; [lia|done]|]. rewrite <- (Z.mod_add (lval a - lval b) out), <- Er, Z.mod_small by lia. done.
Qed.

(** ** Montgomery's form *)
Definition rep (x : list Z) (v : Z) : Prop := elem x /\ lval x = (2 ^ 256 * v) mod M.
Lemma rep_same_mod x v w : rep x v -> v mod M = w mod M -> rep x w.
Proof. intros [He Hv] E. split; [done|]. pose proof modulus_range. rewrite Hv, <- Z.mul_mod_idemp_r, E, Z.mul_mod_idemp_r by lia. done. Qed.
Lemma rep_eq x y v w : rep x v -> rep y w -> (x = y <-> v mod M = w mod M).
Proof.
  intros [(Hx&Hlx&_) Hv] [(Hy&Hly&_) Hw]. pose proof modulus_range. split.
  - intros ->. rewrite Hv in Hw. apply (cancel_pow2 M 256); [lia|apply (mo_odd _ _ Hm)|lia|done].
  - intros E. apply lval_inj; [done|done|lia|]. rewrite Hv, Hw, <- Z.mul_mod_idemp_r, E, Z.mul_mod_idemp_r by lia. done.
Qed.
Lemma mul_rep x y v w : rep x v -> rep y w -> exists r, mul m x y = Ok r /\ rep r (v * w).
Proof.
  intros [Hx Hv] [Hy Hw]. pose proof modulus_range. destruct (mul_elem x y Hx Hy) as (r&->&Hr&E). exists r. split; [done|]. split; [done|]. pose proof Hr as (_&_&Hb). rewrite <- (Z.mod_small (lval r) M) by done.
  apply (cancel_pow2 M 256); [lia|apply (mo_odd _ _ Hm)|lia|]. rewrite E, Hv, Hw, Z.mul_mod_idemp_l, Z.mul_mod_idemp_r by lia. f_equal. ring.
Qed.
Lemma add_rep x y v w : rep x v -> rep y w -> exists r, add m x y = Ok r /\ rep r (v + w).
Proof.
  intros [Hx Hv] [Hy Hw]. pose proof modulus_range. destruct (add_elem x y Hx Hy) as (r&->&Hr&E). exists r. split; [done|]. split; [done|]. rewrite E, Hv, Hw, Z.add_mod_idemp_l, Z.add_mod_idemp_r by lia. f_equal. ring.
Qed.
Lemma sub_rep x y v w : rep x v -> rep y w -> exists r, sub m x y = Ok r /\ rep r (v - w).
Proof.
  intros [Hx Hv] [Hy Hw]. pose proof modulus_range. destruct (sub_elem x y Hx Hy) as (r&->&Hr&E). exists r. split; [done|]. split; [done|]. rewrite E, Hv, Hw, Zminus_mod_idemp_l, Zminus_mod_idemp_r. f_equal. ring.
Qed.
Lemma r2_elem : elem (md_r2 m).
Proof. destruct (mo_r2 _ _ Hm) as (H1&H2&H3). split; [done|]. split; [done|]. rewrite H3. pose proof modulus_range. apply Z.mod_pos_bound. lia. Qed.
Lemma encode_rep x : elem x -> exists r, encode m x = Ok r /\ rep r (lval x).
Proof.
  intros Hx. pose proof modulus_range. unfold encode. destruct (mul_elem x (md_r2 m) Hx r2_elem) as (r&->&Hr&E). exists r. split; [done|]. split; [done|]. pose proof Hr as (_&_&Hb). rewrite <- (Z.mod_small (lval r) M) by done.
  apply (cancel_pow2 M 256); [lia|apply (mo_odd _ _ Hm)|lia|]. destruct (mo_r2 _ _ Hm) as (_&_&H3). rewrite E, H3, Z.mul_mod_idemp_r by lia. f_equal. ring.
Qed.
Lemma one_elem : elem [1; 0; 0; 0].
Proof. pose proof modulus_range. split; [repeat (apply Forall_cons_2; [by unfold fits|]); apply Forall_nil_2|]. split; [done|]. change (lval [1; 0; 0; 0]) with 1. assert (2 ^ 0 < 2 ^ 255) by (apply Z.pow_lt_mono_r; lia). lia. Qed.
Lemma decode_rep x v : rep x v -> exists r, decode m x = Ok r /\ elem r /\ lval r = v mod M.
Proof.
  intros [Hx Hv]. pose proof modulus_range. unfold decode. destruct (mul_elem x _ Hx one_elem) as (r&->&Hr&E). exists r. split; [done|]. split; [done|]. pose proof Hr as (_&_&Hb). rewrite <- (Z.mod_small (lval r) M) by done.
  apply (cancel_pow2 M 256); [lia|apply (mo_odd _ _ Hm)|lia|]. change (lval [1; 0; 0; 0]) with 1 in E. rewrite E, Hv, Z.mul_1_r, Z.mod_mod by lia. done.
Qed.
Lemma invert_from_rep k e a r v : limbs_ok e -> length e = 4%nat -> rep a v -> (k <= 256)%nat -> rep r (v ^ Z.shiftr (lval e) (Z.of_nat k)) -> exists r', invert_from k m e r a = Ok r' /\ rep r' (v ^ lval e).
Proof.
  intros He Hle Ha. pose proof (lval_bound e He) as [He0 _]. revert r. induction k as [|k IH]; intros r Hk Hr; [exists r; by rewrite Z.shiftr_0_r in Hr|]. cbn [invert_from]. destruct (mul_rep _ _ _ _ Hr Hr) as (sq&->&Hsq). cbn [mbind outcome_bind].
  destruct (limb_bits e (Z.of_nat k) 1 He ltac:(unfold zlen; rewrite Hle; lia) ltac:(lia) ltac:(pose proof (Z.mod_pos_bound (Z.of_nat k) 64 ltac:(lia)); lia)) as (w&->&Hbits). cbn [or_panic mbind outcome_bind]. change (Z.ones 1) with 1 in Hbits. rewrite Hbits.
  destruct (shiftr_bit (lval e) (Z.of_nat k) He0 ltac:(lia)) as [Hs Hbit]. replace (Z.of_nat k + 1) with (Z.of_nat (S k)) in Hs by lia. set (e1 := Z.shiftr (lval e) (Z.of_nat (S k))) in *. assert (0 <= e1) by (apply Z.shiftr_nonneg; lia).
  assert (exists acc, (if Z.land (Z.shiftr (lval e) (Z.of_nat k)) 1 =? 1 then mul m sq a else Ok sq) = Ok acc /\ rep acc (v ^ Z.shiftr (lval e) (Z.of_nat k))) as (acc&->&Hacc).
  { destruct Hbit as [Hbit|Hbit]; rewrite Hbit in *; cbn [Z.eqb]; [exists sq; split; [done|]|destruct (mul_rep _ _ _ _ Hsq Ha) as (x&Hx&Hf); exists x; split; [done|]].
    - rewrite Hs, Z.add_0_r, Z.mul_comm, Z.pow_mul_r, Z.pow_2_r by lia. done.
    - rewrite Hs, Z.pow_add_r, Z.pow_1_r, (Z.mul_comm 2), Z.pow_mul_r, Z.pow_2_r by lia. done. }
  cbn [mbind outcome_bind]. apply IH; [lia|done].
Qed.
Lemma invert_rep a v : rep a v -> exists r, invert m a = Ok r /\ rep r (v ^ (M - 2)).
Proof.
  intros Ha. pose proof modulus_range as HM. unfold invert. assert (limbs_ok [2; 0; 0; 0]) as H2 by (repeat (apply Forall_cons_2; [by unfold fits|]); apply Forall_nil_2). pose proof (sub_raw_spec (md_m m) [2; 0; 0; 0] (mo_limbs _ _ Hm) H2 (mo_len _ _ Hm) eq_refl) as Hs.
  destruct (sub_raw (md_m m) [2; 0; 0; 0]) as [e out]. destruct Hs as (He&Hle&Ee&Eo). rewrite (mo_value _ _ Hm) in *. change (lval [2; 0; 0; 0]) with 2 in *. assert (2 ^ 2 < 2 ^ 255) by (apply Z.pow_lt_mono_r; lia). change (2 ^ 2) with 4 in *. destruct (Z.ltb_spec M 2); [lia|]. cbn [Z.b2z] in Eo. subst out. rewrite Z.mul_0_r, Z.add_0_r in Ee.
  destruct (encode_rep _ one_elem) as (r&->&Hr). cbn [mbind outcome_bind]. change (lval [1; 0; 0; 0]) with 1 in Hr. rewrite <- Ee. apply invert_from_rep; [done|done|done|lia|]. replace (Z.shiftr (lval e) (Z.of_nat 256)) with 0; [by rewrite Z.pow_0_r|]. symmetry. rewrite Z.shiftr_div_pow2, Z.div_small by (change (Z.of_nat 256) with 256; lia). done.
Qed.
End Field.
