(* ===== verification/P256Curve.v ===== *)
(** * Points and signatures on P-256 ([net/p256.rs])

    The reference: the complete addition formulas of Renes, Costello and Batina
    as published, scalar multiplication by 4-bit digits and the ECDSA check of
    FIPS 186-5, over integers modulo the prime and the order. The limbs compute
    it. *)
From Stdlib Require Import Znumtheory Zpow_facts.
From S2P Require Import Prelude Bytes Sha X25519 Limbs Rsa P256 P256Field.

Definition prime_p : Z := 2 ^ 256 - 2 ^ 224 + 2 ^ 192 + 2 ^ 96 - 1.
Definition order_n : Z := 0xffffffff00000000ffffffffffffffffbce6faada7179e84f3b9cac2fc632551.
Definition coef_b : Z := 0x5ac635d8aa3a93e7b3ebbd55769886bc651d06b0cc53b0f63bce3c3e27d2604b.
Definition gx : Z := 0x6b17d1f2e12c4247f8bce6e563a440f277037d812deb33a0f4a13945d898c296.
Definition gy : Z := 0x4fe342e2fe1a7f9b8ee7eb4a7c0f9e162bce33576b315ececbb6406837bf51f5.

(** ** The reference *)
Definition on_curve (x y : Z) : Prop := (y * y) mod prime_p = (x * x * x - 3 * x + coef_b) mod prime_p.
Record proj := mkProj { X : Z; Y : Z; Zc : Z }.
Definition infinity : proj := mkProj 0 1 0.
(** The formulas for any [a] and [b], and for [a = -3]. *)
Definition rcb (a b x1 y1 z1 x2 y2 z2 : Z) : proj :=
  let d := a * (x1 * z2 + x2 * z1) + 3 * b * (z1 * z2) in
  let e := a * (x1 * x2) + 3 * b * (x1 * z2 + x2 * z1) - a * a * (z1 * z2) in
  let f := 3 * (x1 * x2) + a * (z1 * z2) in
  mkProj ((x1 * y2 + x2 * y1) * (y1 * y2 - d) - (y1 * z2 + y2 * z1) * e) ((y1 * y2 + d) * (y1 * y2 - d) + f * e) ((y1 * z2 + y2 * z1) * (y1 * y2 + d) + (x1 * y2 + x2 * y1) * f).
Definition reduced_mod (p : proj) : proj := mkProj (X p mod prime_p) (Y p mod prime_p) (Zc p mod prime_p).
Definition padd (p q : proj) : proj := reduced_mod (rcb (-3) coef_b (X p) (Y p) (Zc p) (X q) (Y q) (Zc q)).
(** [i p], by additions. *)
Fixpoint small (i : nat) (p : proj) : proj := match i with O => infinity | S i => padd (small i p) p end.
Fixpoint pdouble (n : nat) (p : proj) : proj := match n with O => p | S n => pdouble n (padd p p) end.
(** [k p] from the digits of [k] below the [n]th, the highest first. *)
Fixpoint scalar_from (n : nat) (k : Z) (p acc : proj) : proj :=
  match n with O => acc | S n => scalar_from n k p (padd (pdouble 4 acc) (small (Z.to_nat ((k / 16 ^ Z.of_nat n) mod 16)) p)) end.
Definition scalar (k : Z) (p : proj) : proj := scalar_from 64 k p infinity.
Definition affine_x (p : proj) : option Z := if Zc p mod prime_p =? 0 then None else Some ((X p * Zpow_mod (Zc p) (prime_p - 2) prime_p) mod prime_p).
(** The abscissa of [u1 G + u2 Q], with [u1 = e s⁻¹] and [u2 = r s⁻¹]. *)
Definition candidate (x y e r s : Z) : option Z :=
  let w := Zpow_mod s (order_n - 2) order_n in
  affine_x (padd (scalar ((e * w) mod order_n) (mkProj gx gy 1)) (scalar ((r * w) mod order_n) (mkProj x y 1))).
Definition ecdsa (x y e r s : Z) : bool :=
  if (1 <=? r) && (r <? order_n) && (1 <=? s) && (s <? order_n) then match candidate x y e r s with Some v => v mod order_n =? r | None => false end else false.

(** ** The constants *)
Lemma P_ok : modulus_ok P prime_p.
Proof.
  split; [repeat (apply Forall_cons_2; [split; [apply Z.leb_le; reflexivity|apply Z.ltb_lt; reflexivity]|]); apply Forall_nil_2|reflexivity|vm_compute; reflexivity|vm_compute; reflexivity|apply Z.ltb_lt; vm_compute; reflexivity|vm_compute; reflexivity|].
  split; [repeat (apply Forall_cons_2; [split; [apply Z.leb_le; reflexivity|apply Z.ltb_lt; reflexivity]|]); apply Forall_nil_2|]. split; [reflexivity|vm_compute; reflexivity].
Qed.
Lemma N_ok : modulus_ok N order_n.
Proof.
  split; [repeat (apply Forall_cons_2; [split; [apply Z.leb_le; reflexivity|apply Z.ltb_lt; reflexivity]|]); apply Forall_nil_2|reflexivity|vm_compute; reflexivity|vm_compute; reflexivity|apply Z.ltb_lt; vm_compute; reflexivity|vm_compute; reflexivity|].
  split; [repeat (apply Forall_cons_2; [split; [apply Z.leb_le; reflexivity|apply Z.ltb_lt; reflexivity]|]); apply Forall_nil_2|]. split; [reflexivity|vm_compute; reflexivity].
Qed.
Notation prep := (rep prime_p).
Lemma rep_const x v : forallb (fun w => (0 <=? w) && (w <? 2 ^ 64)) x = true -> length x = 4%nat -> (lval x <? prime_p) = true -> lval x = (2 ^ 256 * v) mod prime_p -> prep x v.
Proof.
  intros Hf Hl Hlt E. assert (limbs_ok x) as Hx. { apply Forall_forall. intros w Hw%list_elem_of_In. rewrite forallb_forall in Hf. specialize (Hf w Hw). unfold fits. lia. }
  split; [|done]. split; [done|]. split; [done|]. pose proof (lval_bound x Hx). lia.
Qed.
Lemma B_rep : prep B coef_b.
Proof. apply rep_const; vm_compute; reflexivity. Qed.
Lemma ONE_rep : prep ONE 1.
Proof. apply rep_const; vm_compute; reflexivity. Qed.
Lemma zero_rep : prep (zrep 4 0) 0.
Proof. apply rep_const; vm_compute; reflexivity. Qed.

(** ** Points *)
Definition point_rep (p : Point) (q : proj) : Prop := prep (px p) (X q) /\ prep (py p) (Y q) /\ prep (pz p) (Zc q).
Lemma G_rep : point_rep G (mkProj gx gy 1).
Proof. split; [apply rep_const; vm_compute; reflexivity|]. split; [apply rep_const; vm_compute; reflexivity|apply ONE_rep]. Qed.
Lemma infinity_rep : point_rep INFINITY infinity.
Proof. split; [apply zero_rep|]. split; [apply ONE_rep|apply zero_rep]. Qed.
(** One operation of the formula, on what its operands stand for. *)
Ltac field_step op lemma :=
  match goal with
  | |- exists r, (op ?a ?b ≫= _) = Ok r /\ _ =>
      lazymatch goal with Ha : prep a ?v |- _ => lazymatch goal with Hb : prep b ?w |- _ =>
        let r := fresh "r" in let E := fresh "E" in let H := fresh "H" in
        destruct (lemma a b v w Ha Hb) as (r&E&H); rewrite E; clear E; cbn [mbind outcome_bind] end end
  end.
Ltac field_steps := repeat first [field_step (mul P) (mul_rep P prime_p P_ok) | field_step (add P) (add_rep P prime_p P_ok) | field_step (sub P) (sub_rep P prime_p P_ok)].
Lemma point_add_rep p q a b : point_rep p a -> point_rep q b -> exists r, point_add p q = Ok r /\ point_rep r (padd a b).
Proof.
  intros (H1&H2&H3) (H4&H5&H6). pose proof B_rep as HB. unfold point_add. cbv zeta. field_steps. eexists. split; [reflexivity|]. unfold padd, reduced_mod, rcb. cbn [px py pz X Y Zc].
  split; [|split]; cbn [px py pz X Y Zc]; (eapply (rep_same_mod P prime_p P_ok); [eassumption|]; rewrite Z.mod_mod by (vm_compute; discriminate); f_equal; ring).
Qed.
Lemma table_from_rep n i last p q : point_rep p q -> point_rep last (small i q) -> exists l, table_from n last p = Ok l /\ length l = n /\ forall j t, l !! j = Some t -> point_rep t (small (S (i + j)) q).
Proof.
  intros Hp. revert i last. induction n as [|n IH]; intros i last Hl; [exists []; done|]. cbn [table_from]. destruct (point_add_rep _ _ _ _ Hl Hp) as (t&->&Ht). cbn [mbind outcome_bind]. destruct (IH (S i) t Ht) as (l&->&Hlen&Hall). cbn [mbind outcome_bind]. eexists. split; [done|]. split; [cbn; lia|].
  intros [|j] u Hu; cbn in Hu; [injection Hu as <-; by rewrite Nat.add_0_r|]. replace (i + S j)%nat with (S i + j)%nat by lia. by apply Hall.
Qed.
Lemma doubles_rep n p q : point_rep p q -> exists r, doubles n p = Ok r /\ point_rep r (pdouble n q).
Proof. revert p q. induction n as [|n IH]; intros p q Hp; [by exists p|]. cbn [doubles pdouble]. destruct (point_add_rep _ _ _ _ Hp Hp) as (t&->&Ht). cbn [mbind outcome_bind]. by apply IH. Qed.
Lemma digit_spec k w : limbs_ok k -> length k = 4%nat -> 0 <= w < 64 -> digit k w = Ok ((lval k / 16 ^ w) mod 16).
Proof.
  intros Hk Hl Hw. unfold digit. assert ((4 * w) / 64 = w / 16 /\ (4 * w) mod 64 = w mod 16 * 4) as [Hd Hm]. { change 64 with (4 * 16). rewrite Z.div_mul_cancel_l, Z.mul_mod_distr_l by lia. lia. }
  destruct (limb_bits k (4 * w) 4 Hk ltac:(unfold zlen; rewrite Hl; lia) ltac:(lia) ltac:(rewrite Hm; pose proof (Z.mod_pos_bound w 16 ltac:(lia)); lia)) as (x&Hx&Hb). rewrite Hd in Hx. rewrite Hx. cbn [or_panic mbind outcome_bind]. rewrite Hm in Hb. change (Z.ones 4) with 15 in Hb. rewrite Hb. change 15 with (Z.ones 4).
  rewrite Z.land_ones, Z.shiftr_div_pow2 by lia. change (2 ^ 4) with 16. by rewrite Z.pow_mul_r by lia.
Qed.
Lemma windows_rep n k table p q acc a : limbs_ok k -> length k = 4%nat -> (n <= 64)%nat -> (forall d, 0 <= d < 16 -> exists t, zget table d = Some t /\ point_rep t (small (Z.to_nat d) q)) -> point_rep acc a ->
  point_rep p q -> exists r, windows n k table acc = Ok r /\ point_rep r (scalar_from n (lval k) q a).
Proof.
  intros Hk Hl Hn Ht Hacc Hp. revert acc a Hacc. induction n as [|n IH]; intros acc a Hacc; [by exists acc|]. cbn [windows scalar_from]. destruct (doubles_rep 4 _ _ Hacc) as (d&->&Hd). cbn [mbind outcome_bind]. rewrite digit_spec by (done || lia). cbn [mbind outcome_bind].
  destruct (Ht ((lval k / 16 ^ Z.of_nat n) mod 16) ltac:(apply Z.mod_pos_bound; lia)) as (t&->&Hts). cbn [or_panic mbind outcome_bind]. destruct (point_add_rep _ _ _ _ Hd Hts) as (s&->&Hs). cbn [mbind outcome_bind]. by apply IH; [lia|].
Qed.
Lemma multiply_rep k p q : limbs_ok k -> length k = 4%nat -> point_rep p q -> exists r, multiply k p = Ok r /\ point_rep r (scalar (lval k) q).
Proof.
  intros Hk Hl Hp. unfold multiply. destruct (table_from_rep 15 0 INFINITY p q Hp infinity_rep) as (l&->&Hlen&Hall). cbn [mbind outcome_bind]. apply (windows_rep 64 k (INFINITY :: l) p); [done|done|lia| |apply infinity_rep|done].
  intros d Hd. unfold zget. destruct (Z.ltb_spec d 0); [lia|]. destruct (Z.to_nat d) as [|j] eqn:E; [exists INFINITY; split; [done|apply infinity_rep]|]. destruct (lookup_lt_is_Some_2 l j ltac:(lia)) as [t Ht]. exists t. split; [done|]. exact (Hall j t Ht).
Qed.
Lemma affine_rep p q : point_rep p q -> exists o, affine p = Ok o /\ match affine_x q with Some x => exists y, o = Some y /\ elem prime_p (fst y) /\ lval (fst y) = x | None => o = None end.
Proof.
  intros (Hx&Hy&Hz). unfold affine, affine_x. pose proof Hz as [(Hzl&_&_) Hzv]. rewrite is_zero_spec by done. assert ((lval (pz p) =? 0) = (Zc q mod prime_p =? 0)) as ->.
  { rewrite Hzv. destruct (Z.eqb_spec (Zc q mod prime_p) 0) as [E|E]; [rewrite <- Z.mul_mod_idemp_r, E by (vm_compute; discriminate); done|]. apply Z.eqb_neq. intros H. apply E. change 0 with (0 mod prime_p). apply (cancel_pow2 prime_p 256); [apply Z.ltb_lt; vm_compute; reflexivity|apply (mo_odd _ _ P_ok)|lia|]. rewrite H. reflexivity. }
  destruct (Zc q mod prime_p =? 0); cbn [Z.b2z Z.eqb]; [by eexists|]. destruct (invert_rep P prime_p P_ok _ _ Hz) as (zi&->&Hzi). cbn [mbind outcome_bind]. destruct (mul_rep P prime_p P_ok _ _ _ _ Hx Hzi) as (a&->&Ha). cbn [mbind outcome_bind]. destruct (decode_rep P prime_p P_ok _ _ Ha) as (x&->&Hxe&Hxv). cbn [mbind outcome_bind].
  destruct (mul_rep P prime_p P_ok _ _ _ _ Hy Hzi) as (b&->&Hb). cbn [mbind outcome_bind]. destruct (decode_rep P prime_p P_ok _ _ Hb) as (y&->&_). cbn [mbind outcome_bind]. eexists. split; [done|]. exists (x, y). split; [done|]. split; [done|]. cbn [fst].
  rewrite Hxv, Zpow_mod_correct, Z.mul_mod_idemp_r by (vm_compute; discriminate). done.
Qed.

Lemma point_rep_mod p a b : point_rep p a -> X a mod prime_p = X b mod prime_p -> Y a mod prime_p = Y b mod prime_p -> Zc a mod prime_p = Zc b mod prime_p -> point_rep p b.
Proof. intros (H1&H2&H3) EX EY EZ. split; [by apply (rep_same_mod P prime_p P_ok _ (X a))|]. split; [by apply (rep_same_mod P prime_p P_ok _ (Y a))|by apply (rep_same_mod P prime_p P_ok _ (Zc a))]. Qed.

(** ** The formulas are the group law

    The slope of a line through [(x1, y1)] is [l / d]; cleared of
    denominators, the third point [(x, y)] has [x d² = l² - (x1 + x2) d²] and
    [y d³ = l (x1 d² - x d²) - y1 d³]. *)
Definition third (d l x1 x2 y1 : Z) (q : proj) : Prop :=
  let nx := l ^ 2 - (x1 + x2) * d ^ 2 in
  (X q * d ^ 2) mod prime_p = (nx * Zc q) mod prime_p /\ (Y q * d ^ 3) mod prime_p = ((l * (x1 * d ^ 2 - nx) - y1 * d ^ 3) * Zc q) mod prime_p.
Lemma third_mod d l x1 x2 y1 q : third d l x1 x2 y1 q -> third d l x1 x2 y1 (reduced_mod q).
Proof.
  assert (prime_p <> 0) as Hp by (vm_compute; discriminate). unfold third, reduced_mod. cbn [X Y Zc]. by rewrite !Z.mul_mod_idemp_l, !Z.mul_mod_idemp_r by done.
Qed.
Lemma prime_pos : 0 < prime_p.
Proof. apply Z.ltb_lt. vm_compute. reflexivity. Qed.
Lemma on_curve_eq x y : on_curve x y -> exists k, y ^ 2 - (x ^ 3 - 3 * x + coef_b) = k * prime_p.
Proof. intros H. apply equal_mod in H as [k Hk]; [|apply prime_pos]. exists k. rewrite <- Hk. ring. Qed.
Lemma chord x1 y1 x2 y2 : on_curve x1 y1 -> on_curve x2 y2 -> third (x2 - x1) (y2 - y1) x1 x2 y1 (rcb (-3) coef_b x1 y1 1 x2 y2 1).
Proof.
  intros [k1 E1]%on_curve_eq [k2 E2]%on_curve_eq. unfold third, rcb. cbn [X Y Zc]. generalize dependent coef_b. intros b E1 E2. split; (apply equal_mod; [apply prime_pos|]).
  - exists ((-3 * x1^2 * x2 * y2 - 3 * x1 * y1 * x2^2 + 3 * x1 * y1 + 3 * x1 * x2^2 * y2 + 3 * x1 * y2 - y1^2 * y2 + 6 * y1 * x2 + y1 * y2^2 - 3 * y1 * b + 2 * x2^3
      * y2 - 9 * x2 * y2 + y2^3 + 2 * y2 * b) * k1
      + (3 * x1^3 * y1 + x1^3 * y2 + 3 * x1^2 * y1 * x2 - 3 * x1^2 * x2 * y2 - 3 * x1 * y1 * x2^2 - 12 * x1 * y1 + 3 * x1 * y2 + 3 * y1 * x2 - y1 * y2^2 + 3 *
      y1 * b + 3 * x2 * y2 - 2 * y2 * b) * k2).
    revert E1 E2. generalize prime_p. intros p E1 E2. match goal with |- _ = (?u * k1 + ?v * k2) * p => transitivity (u * (k1 * p) + v * (k2 * p)); [rewrite <- E1, <- E2; ring|ring] end.
  - exists ((-3 * x1^2 * y1 * x2 * y2 - 9 * x1^2 * x2^4 + 18 * x1^2 * x2^2 + 15 * x1^2 * x2 * y2^2 - 9 * x1^2 - 3 * x1 * y1^2 * x2^2 + 3 * x1 * y1^2 + 6 * x1 * y1 *
      x2^2 * y2 + 6 * x1 * x2^5 + 12 * x1 * x2^3 - 15 * x1 * x2^2 * y2^2 - 12 * x1 * x2^2 * b - 18 * x1 * x2 - 15 * x1 * y2^2 + 12 * x1 * b - y1^3 * y2 + 6 *
      y1^2 * x2 + 2 * y1^2 * y2^2 - 3 * y1^2 * b + 2 * y1 * x2^3 * y2 - 15 * y1 * x2 * y2 + 5 * y1 * y2 * b - 12 * x2^4 + 2 * x2^3 * y2^2 + 6 * x2^3 * b + 9
      * x2 * y2^2 + 6 * x2 * b - 2 * y2^4 + 2 * y2^2 * b - 3 * b^2) * k1
      + (9 * x1^5 * x2 - 6 * x1^4 * x2^2 - 3 * x1^4 - 2 * x1^3 * y1 * y2 - 42 * x1^3 * x2 - 2 * x1^3 * y2^2 - 6 * x1^3 * b - 6 * x1^2 * y1 * x2 * y2 + 27 * x1^2
      * x2^2 + 3 * x1^2 * x2 * y2^2 + 27 * x1^2 * x2 * b + 45 * x1^2 + 3 * x1 * y1 * x2^2 * y2 + 15 * x1 * y1 * y2 - 15 * x1 * x2^2 * b - 27 * x1 * x2 - 21 *
      x1 * b + y1 * y2^3 - 5 * y1 * y2 * b + 9 * x2^2 - 3 * x2 * y2^2 + 3 * x2 * b + y2^2 * b + 3 * b^2) * k2).
    revert E1 E2. generalize prime_p. intros p E1 E2. match goal with |- _ = (?u * k1 + ?v * k2) * p => transitivity (u * (k1 * p) + v * (k2 * p)); [rewrite <- E1, <- E2; ring|ring] end.
Qed.
Lemma tangent x y : on_curve x y -> third (2 * y) (3 * x ^ 2 - 3) x x y (rcb (-3) coef_b x y 1 x y 1) /\ Zc (rcb (-3) coef_b x y 1 x y 1) mod prime_p = (8 * y ^ 3) mod prime_p.
Proof.
  intros [k E]%on_curve_eq. unfold third, rcb. cbn [X Y Zc]. generalize dependent coef_b. intros b E. split; [split|]; (apply equal_mod; [apply prime_pos|]).
  - exists ((54 * x^4 * y - 108 * x^2 * y + 24 * x * y^3 + 54 * y) * k). revert E. generalize prime_p. intros p E. match goal with |- _ = (?u * k) * p => transitivity (u * (k * p)); [rewrite <- E; ring|ring] end.
  - exists ((-162 * x^6 * y + 486 * x^4 * y - 486 * x^2 * y - 144 * x * y^3 + 24 * y^5 + 72 * y^3 * b + 162 * y) * k). revert E. generalize prime_p. intros p E. match goal with |- _ = (?u * k) * p => transitivity (u * (k * p)); [rewrite <- E; ring|ring] end.
  - exists (-6 * y * k). revert E. generalize prime_p. intros p E. match goal with |- _ = (?u * k) * p => transitivity (u * (k * p)); [rewrite <- E; ring|ring] end.
Qed.

(** ** Bytes *)
Lemma word_of_ok b i s : 0 <= i <= 3 -> zslice b (24 - 8 * i) (32 - 8 * i) = Some s -> bytes_ok s -> word_of b i = Ok (be_val s) /\ fits 64 (be_val s).
Proof.
  intros Hi Hs Hb. unfold word_of. rewrite Hs. cbn [or_panic mbind outcome_bind]. pose proof (be_val_bound s Hb) as Hv. apply zslice_len in Hs. replace (8 * zlen s) with 64 in Hv by lia. rewrite be_fold_val, wrap_id by (done || lia). done.
Qed.
Lemma limbs_of b : bytes_ok b -> zlen b = 32 -> exists r, limbs b = Ok r /\ limbs_ok r /\ length r = 4%nat /\ lval r = be_val b.
Proof.
  intros Hb Hl. destruct (cut_len 8 b ltac:(lia)) as (s3&r&->&H3). rewrite zlen_app in Hl. destruct (cut_len 8 r ltac:(lia)) as (s2&r'&->&H2). rewrite zlen_app in Hl. destruct (cut_len 8 r' ltac:(lia)) as (s1&s0&->&H1). rewrite zlen_app in Hl.
  pose proof Hb as [Hb3 [Hb2 [Hb1 Hb0]%Forall_app]%Forall_app]%Forall_app. unfold limbs.
  assert (forall (x y z : list Z) a c, a = zlen x -> c = zlen x + zlen y -> zslice (x ++ y ++ z) a c = Some y) as Hsl by (intros x y z a c -> ->; apply zslice_app).
  destruct (word_of_ok (s3 ++ s2 ++ s1 ++ s0) 0 s0 ltac:(lia)) as [-> F0]; [|done|]. { pose proof (Hsl (s3 ++ s2 ++ s1) s0 [] 24 32 ltac:(rewrite !zlen_app; lia) ltac:(rewrite !zlen_app; lia)) as H. by rewrite app_nil_r, <- !app_assoc in H. }
  cbn [mbind outcome_bind]. destruct (word_of_ok (s3 ++ s2 ++ s1 ++ s0) 1 s1 ltac:(lia)) as [-> F1]; [|done|]. { rewrite (app_assoc s3). apply Hsl; rewrite !zlen_app; lia. }
  cbn [mbind outcome_bind]. destruct (word_of_ok (s3 ++ s2 ++ s1 ++ s0) 2 s2 ltac:(lia)) as [-> F2]; [|done|]. { apply Hsl; lia. }
  cbn [mbind outcome_bind]. destruct (word_of_ok (s3 ++ s2 ++ s1 ++ s0) 3 s3 ltac:(lia)) as [-> F3]; [|done|]. { apply (Hsl [] s3); change (zlen []) with 0; lia. }
  cbn [mbind outcome_bind]. eexists. split; [done|]. split; [apply Forall_cons_2; [done|]; apply Forall_cons_2; [done|]; apply Forall_cons_2; [done|]; apply Forall_cons_2; [done|]; apply Forall_nil_2|]. split; [done|]. rewrite !be_val_app, !zlen_app, H1, H2. replace (zlen s0) with 8 by lia. cbn [lval]. change (8 * (8 + (8 + 8))) with (64 * 3). change (8 * (8 + 8)) with (64 * 2). change (8 * 8) with 64. rewrite !Z.pow_mul_r by lia. ring.
Qed.

(** ** Keys and signatures *)

(** [04 ‖ x ‖ y] of a point on the curve. *)
Definition names_point (b : list Z) (x y : Z) : Prop :=
  exists xb yb, b = 4 :: xb ++ yb /\ zlen xb = 32 /\ zlen yb = 32 /\ x = be_val xb /\ y = be_val yb /\ x < prime_p /\ y < prime_p /\ on_curve x y.
Definition key_is (k : PublicKey) (x y : Z) : Prop := elem prime_p (kx k) /\ lval (kx k) = x /\ elem prime_p (ky k) /\ lval (ky k) = y.
Lemma elem_of_bytes M b r : bytes_ok b -> limbs_ok r -> length r = 4%nat -> lval r = be_val b -> be_val b < M -> elem M r.
Proof. intros Hb Hr Hl E Hlt. split; [done|]. split; [done|]. rewrite E. pose proof (be_val_bound b Hb). lia. Qed.
Lemma from_sec1_spec b : bytes_ok b -> exists o, from_sec1 b = Ok o /\ match o with Some k => exists x y, names_point b x y /\ key_is k x y | None => forall x y, ~ names_point b x y end.
Proof.
  intros Hb. destruct b as [|tag rest]; [exists None; split; [done|]; intros x y (?&?&[=]&_)|]. apply Forall_cons in Hb as [_ Hb]. unfold from_sec1. destruct (negb (tag =? 4) || negb (zlen rest =? 64)) eqn:Hc.
  { exists None. split; [done|]. intros x y (xb&yb&[= -> ->]&Hx&Hy&_). rewrite zlen_app, Hx, Hy in Hc. done. }
  apply orb_false_iff in Hc as [Ht%negb_false_iff%Z.eqb_eq Hl%negb_false_iff%Z.eqb_eq]. subst tag. destruct (cut_len 32 rest ltac:(lia)) as (xb&yb&->&Hxl). rewrite zlen_app in Hl. apply Forall_app in Hb as [Hxb Hyb]. rewrite ztake_app, zdrop_app by lia.
  destruct (limbs_of xb Hxb Hxl) as (x&->&Hx&Hlx&Ex). cbn [mbind outcome_bind]. destruct (limbs_of yb Hyb ltac:(lia)) as (y&->&Hy&Hly&Ey). cbn [mbind outcome_bind]. rewrite !(holds_spec P prime_p P_ok), Ex, Ey by done.
  assert (forall x' y', names_point (4 :: xb ++ yb) x' y' -> x' = be_val xb /\ y' = be_val yb /\ x' < prime_p /\ y' < prime_p /\ on_curve x' y') as Hinv.
  { intros x' y' (xb'&yb'&[= E]&Hx'&Hy'&->&->&H). apply parts_inj in E as [-> ->]; [|lia]. done. }
  destruct (Z.ltb_spec (be_val xb) prime_p) as [Hxp|]; cbn [negb orb]; [|exists None; split; [done|]; intros x' y' (->&_&?&_)%Hinv; lia]. destruct (Z.ltb_spec (be_val yb) prime_p) as [Hyp|]; cbn [negb]; [|exists None; split; [done|]; intros x' y' (_&->&_&?&_)%Hinv; lia].
  pose proof (elem_of_bytes prime_p xb x Hxb Hx Hlx Ex Hxp) as Hxe. pose proof (elem_of_bytes prime_p yb y Hyb Hy Hly Ey Hyp) as Hye.
  destruct (encode_rep P prime_p P_ok x Hxe) as (xm&->&Hxm). cbn [mbind outcome_bind]. destruct (encode_rep P prime_p P_ok y Hye) as (ym&->&Hym). cbn [mbind outcome_bind]. rewrite Ex in Hxm. rewrite Ey in Hym. pose proof B_rep as HB.
  match goal with |- exists o, ?m = Ok o /\ ?Q => assert (exists o, m = Ok o /\ exists lhs rhs, prep lhs (be_val yb * be_val yb) /\ prep rhs (be_val xb * be_val xb * be_val xb - 3 * be_val xb + coef_b) /\ o = (if bool_decide (lhs = rhs) then Some (mkPublicKey x y) else None)) as (o&->&lhs&rhs&Hlhs&Hrhs&->) end.
  { field_steps. eexists. split; [reflexivity|]. eexists _, _. split; [eassumption|]. split; [|reflexivity]. eapply (rep_same_mod P prime_p P_ok); [eassumption|]. f_equal. ring. }
  eexists. split; [done|]. pose proof (rep_eq P prime_p P_ok _ _ _ _ Hlhs Hrhs) as Heq. destruct (bool_decide (lhs = rhs)) eqn:Hd.
  - apply bool_decide_eq_true in Hd. exists (be_val xb), (be_val yb). split; [exists xb, yb; split; [done|]; split; [done|]; split; [lia|]; split; [done|]; split; [done|]; split; [done|]; split; [done|]; by apply Heq|done].
  - apply bool_decide_eq_false in Hd. intros x' y' (->&->&_&_&Hon)%Hinv. apply Hd, Heq, Hon.
Qed.
Lemma scalars_spec digest r s : bytes_ok digest -> zlen digest = 32 -> elem order_n r -> elem order_n s -> exists u1 u2, scalars digest r s = Ok (u1, u2) /\ elem order_n u1 /\ elem order_n u2
  /\ lval u1 = (be_val digest * Zpow_mod (lval s) (order_n - 2) order_n) mod order_n /\ lval u2 = (lval r * Zpow_mod (lval s) (order_n - 2) order_n) mod order_n.
Proof.
  intros Hd Hdl Hre Hse. pose proof (modulus_range N order_n N_ok) as HN. unfold scalars. destruct (limbs_of digest Hd Hdl) as (d&->&Hdl'&Hld&Ed). cbn [mbind outcome_bind]. pose proof (lval_bound d Hdl') as Hdb. rewrite (span4 d Hld) in Hdb. destruct (reduce_spec N order_n N_ok d 0 Hdl' Hld ltac:(lia) ltac:(lia)) as [Hze Hzv]. rewrite Z.mul_0_r, Z.add_0_r, Ed in Hzv.
  destruct (encode_rep N order_n N_ok _ Hze) as (z&->&Hzr). cbn [mbind outcome_bind]. rewrite Hzv in Hzr. destruct (encode_rep N order_n N_ok _ Hse) as (sm&->&Hsm). cbn [mbind outcome_bind]. destruct (invert_rep N order_n N_ok _ _ Hsm) as (w&->&Hw). cbn [mbind outcome_bind].
  destruct (mul_rep N order_n N_ok _ _ _ _ Hzr Hw) as (a1&->&Ha1). cbn [mbind outcome_bind]. destruct (decode_rep N order_n N_ok _ _ Ha1) as (u1&->&Hu1&Hu1v). cbn [mbind outcome_bind]. destruct (encode_rep N order_n N_ok _ Hre) as (rm&->&Hrm). cbn [mbind outcome_bind]. destruct (mul_rep N order_n N_ok _ _ _ _ Hrm Hw) as (a2&->&Ha2). cbn [mbind outcome_bind].
  destruct (decode_rep N order_n N_ok _ _ Ha2) as (u2&->&Hu2&Hu2v). cbn [mbind outcome_bind]. exists u1, u2. split; [done|]. split; [done|]. split; [done|]. rewrite Hu1v, Hu2v, !Zpow_mod_correct, !Z.mul_mod_idemp_r, Z.mul_mod_idemp_l by lia. split; reflexivity.
Qed.
Lemma sum_of_spec k x y u1 u2 : key_is k x y -> elem order_n u1 -> elem order_n u2 -> exists o, sum_of k u1 u2 = Ok o
  /\ match affine_x (padd (scalar (lval u1) (mkProj gx gy 1)) (scalar (lval u2) (mkProj x y 1))) with Some v => exists xy, o = Some xy /\ elem prime_p (fst xy) /\ lval (fst xy) = v | None => o = None end.
Proof.
  intros (Hkx&<-&Hky&<-) (Hu1l&Hu1n&_) (Hu2l&Hu2n&_). unfold sum_of. pose proof G_rep as HG. generalize dependent G. intros g HG. destruct (encode_rep P prime_p P_ok _ Hkx) as (qx&->&Hqx). cbn [mbind outcome_bind]. destruct (encode_rep P prime_p P_ok _ Hky) as (qy&->&Hqy). cbn [mbind outcome_bind]. cbv zeta.
  assert (point_rep (mkPoint qx qy ONE) (mkProj (lval (kx k)) (lval (ky k)) 1)) as Hq by (split; [done|]; split; [done|apply ONE_rep]).
  destruct (multiply_rep u1 g _ Hu1l Hu1n HG) as (p1&->&Hp1). cbn [mbind outcome_bind]. destruct (multiply_rep u2 _ _ Hu2l Hu2n Hq) as (p2&->&Hp2). cbn [mbind outcome_bind]. destruct (point_add_rep _ _ _ _ Hp1 Hp2) as (pt&->&Hpt). cbn [mbind outcome_bind]. exact (affine_rep _ _ Hpt).
Qed.
Lemma in_range r s rn sn : 0 <= r -> 0 <= s -> negb (r <? rn) || negb (s <? sn) || (Z.b2z (r =? 0) =? 1) || (Z.b2z (s =? 0) =? 1) = negb ((1 <=? r) && (r <? rn) && (1 <=? s) && (s <? sn)).
Proof. intros Hr Hs. destruct (Z.ltb_spec r rn), (Z.ltb_spec s sn), (Z.eqb_spec r 0), (Z.eqb_spec s 0), (Z.leb_spec 1 r), (Z.leb_spec 1 s); done || lia. Qed.
Lemma verify_spec k x y digest sig : key_is k x y -> bytes_ok digest -> zlen digest = 32 -> bytes_ok sig -> zlen sig = 64 -> verify k digest sig = Ok (ecdsa x y (be_val digest) (be_val (ztake 32 sig)) (be_val (zdrop 32 sig))).
Proof.
  intros Hk Hd Hdl Hs Hsl. unfold verify. assert (zlen (ztake 32 sig) = 32) as Hrl by (rewrite zlen_ztake; lia). assert (zlen (zdrop 32 sig) = 32) as Hsl2 by (rewrite zlen_zdrop; lia). assert (bytes_ok (ztake 32 sig)) as Hrb by (by apply Forall_take). assert (bytes_ok (zdrop 32 sig)) as Hsb by (by apply Forall_drop).
  set (rb := ztake 32 sig) in *. set (sb := zdrop 32 sig) in *. clearbody rb sb. destruct (limbs_of rb Hrb Hrl) as (r&->&Hr&Hlr&Er). cbn [mbind outcome_bind]. destruct (limbs_of sb Hsb Hsl2) as (s&->&Hs'&Hls&Es). cbn [mbind outcome_bind]. rewrite !(holds_spec N order_n N_ok), !is_zero_spec by done. pose proof (be_val_bound rb Hrb). pose proof (be_val_bound sb Hsb).
  rewrite Er, Es, in_range by lia. unfold ecdsa. destruct ((1 <=? be_val rb) && (be_val rb <? order_n) && (1 <=? be_val sb) && (be_val sb <? order_n)) eqn:Hc; cbn [negb]; [|done]. apply andb_prop in Hc as [[[_ Hrn]%andb_prop _]%andb_prop Hsn]. apply Z.ltb_lt in Hrn, Hsn.
  pose proof (elem_of_bytes order_n rb r Hrb Hr Hlr Er Hrn) as Hre. pose proof (elem_of_bytes order_n sb s Hsb Hs' Hls Es Hsn) as Hse. destruct (scalars_spec digest r s Hd Hdl Hre Hse) as (u1&u2&->&Hu1&Hu2&E1&E2). cbn [mbind outcome_bind]. destruct (sum_of_spec k x y u1 u2 Hk Hu1 Hu2) as (o&->&Ho). cbn [mbind outcome_bind]. rewrite E1, E2, Er, Es in Ho.
  unfold candidate. cbv zeta. revert Ho. generalize (affine_x (padd (scalar ((be_val digest * Zpow_mod (be_val sb) (order_n - 2) order_n) mod order_n) (mkProj gx gy 1)) (scalar ((be_val rb * Zpow_mod (be_val sb) (order_n - 2) order_n) mod order_n) (mkProj x y 1)))). intros [xv|]; [|by intros ->].
  intros ([xr yr]&->&(Hxl&Hxn&Hxr)&Hxv). cbn [fst] in *. f_equal. pose proof (modulus_range P prime_p P_ok). pose proof (modulus_range N order_n N_ok). destruct (reduce_spec N order_n N_ok xr 0 Hxl Hxn ltac:(lia) ltac:(lia)) as [(Hvl&Hvn&_) Hv]. rewrite Z.mul_0_r, Z.add_0_r, Hxv in Hv.
  rewrite <- Hv, <- Er. destruct (Z.eqb_spec (lval (reduce N xr 0)) (lval r)) as [E|E]; [apply bool_decide_eq_true, lval_inj; try done; lia|apply bool_decide_eq_false; intros Heq; apply E; by rewrite Heq].
Qed.

(** C7. A key is read from exactly the encodings [04 ‖ x ‖ y] of points on
    P-256, and a signature check with it is FIPS 186-5's: with [r] and [s] from
    1 to the order, [x(u1 G + u2 Q) mod n = r] for [u1 = e s⁻¹] and
    [u2 = r s⁻¹], the inverses as powers, the points added with the published
    complete formulas and multiplied digit by digit. The limbs, Montgomery
    products, masks and the 16-entry table compute it for any bytes, and no
    sum overflows, no index is out of range, and the multiplier's assertion
    holds. *)
Theorem signature_check_is_ecdsa b digest sig : bytes_ok b -> bytes_ok digest -> zlen digest = 32 -> bytes_ok sig -> zlen sig = 64 ->
  match from_sec1 b with
  | Ok (Some k) => exists x y, names_point b x y /\ verify k digest sig = Ok (ecdsa x y (be_val digest) (be_val (ztake 32 sig)) (be_val (zdrop 32 sig)))
  | Ok None => forall x y, ~ names_point b x y
  | _ => False
  end.
Proof.
  intros Hb Hd Hdl Hs Hsl. destruct (from_sec1_spec b Hb) as (o&->&Ho). destruct o as [k|]; [|done]. destruct Ho as (x&y&Hn&Hk). exists x, y. split; [done|]. by apply verify_spec.
Qed.
(** The base point as a key, and a signature with [r = 0]. *)
Lemma ecdsa_witness : exists k, from_sec1 (4 :: be_bytes 32 gx ++ be_bytes 32 gy) = Ok (Some k) /\ verify k (zrep 32 1) (zrep 64 0) = Ok false.
Proof.
  pose proof (signature_check_is_ecdsa (4 :: be_bytes 32 gx ++ be_bytes 32 gy) (zrep 32 1) (zrep 64 0) ltac:(apply Forall_cons_2; [split; [discriminate|reflexivity]|]; apply Forall_app; split; apply be_bytes_ok) ltac:(apply Forall_replicate; split; [discriminate|reflexivity]) eq_refl ltac:(apply Forall_replicate; split; [discriminate|reflexivity]) eq_refl) as H.
  destruct (from_sec1 (4 :: be_bytes 32 gx ++ be_bytes 32 gy)) as [[k|]|e|]; [|exfalso|destruct H|destruct H].
  - exists k. split; [reflexivity|]. destruct H as (x&y&_&Hv). rewrite Hv. vm_compute. reflexivity.
  - apply (H gx gy). exists (be_bytes 32 gx), (be_bytes 32 gy). split; [reflexivity|]. split; [reflexivity|]. split; [reflexivity|]. split; [vm_compute; reflexivity|]. split; [vm_compute; reflexivity|]. split; [apply Z.ltb_lt; vm_compute; reflexivity|]. split; [apply Z.ltb_lt; vm_compute; reflexivity|]. unfold on_curve. vm_compute. reflexivity.
Defined.

(** The point addition is the curve's. Of two points of P-256 it gives the
    third of the chord, of a point with itself that of the tangent (with
    [z = 8 y³]), of a point and its opposite the point at infinity, and with
    the point at infinity the point itself, scaled by [y]: projective
    coordinates cleared of denominators, modulo the prime, computed on limbs
    without a panic. *)
Theorem addition_is_the_group_law p q p' x1 y1 x2 y2 : on_curve x1 y1 -> on_curve x2 y2 ->
  point_rep p (mkProj x1 y1 1) -> point_rep q (mkProj x2 y2 1) -> point_rep p' (mkProj x1 (- y1) 1) ->
  (exists r a, point_add p q = Ok r /\ point_rep r a /\ third (x2 - x1) (y2 - y1) x1 x2 y1 a)
  /\ (exists r a, point_add p p = Ok r /\ point_rep r a /\ third (2 * y1) (3 * x1 ^ 2 - 3) x1 x1 y1 a /\ Zc a mod prime_p = (8 * y1 ^ 3) mod prime_p)
  /\ (exists r y, point_add p p' = Ok r /\ point_rep r (mkProj 0 y 0))
  /\ (exists r, point_add p INFINITY = Ok r /\ point_rep r (mkProj (x1 * y1) (y1 * y1) y1))
  /\ exists r, point_add INFINITY p = Ok r /\ point_rep r (mkProj (x1 * y1) (y1 * y1) y1).
Proof.
  intros H1 H2 Hp Hq Hp'. destruct (point_add_rep _ _ _ _ Hp Hq) as (r1&E1&R1). destruct (point_add_rep _ _ _ _ Hp Hp) as (r2&E2&R2). destruct (point_add_rep _ _ _ _ Hp Hp') as (r3&E3&R3).
  destruct (point_add_rep _ _ _ _ Hp infinity_rep) as (r4&E4&R4). destruct (point_add_rep _ _ _ _ infinity_rep Hp) as (r5&E5&R5). destruct (tangent x1 y1 H1) as [Ht Hz].
  split; [exists r1, (padd (mkProj x1 y1 1) (mkProj x2 y2 1)); split; [done|]; split; [done|]; by apply third_mod, chord|].
  split; [exists r2, (padd (mkProj x1 y1 1) (mkProj x1 y1 1)); split; [done|]; split; [done|]; split; [by apply third_mod|]; unfold padd, reduced_mod; cbn [Zc X Y]; rewrite Z.mod_mod by (pose proof prime_pos; lia); done|].
  split; [exists r3; eexists; split; [done|]; apply (point_rep_mod _ _ _ R3); unfold padd, reduced_mod, rcb; cbn [X Y Zc]; [rewrite Z.mod_mod by (pose proof prime_pos; lia); f_equal; ring|reflexivity|rewrite Z.mod_mod by (pose proof prime_pos; lia); f_equal; ring]|].
  split; [exists r4|exists r5]; (split; [done|]); [apply (point_rep_mod _ _ _ R4)|apply (point_rep_mod _ _ _ R5)]; unfold padd, reduced_mod, rcb, infinity; cbn [X Y Zc]; rewrite Z.mod_mod by (pose proof prime_pos; lia); f_equal; ring.
Qed.
(** The base point, itself and its opposite. *)
Definition minus_G : Point := mkPoint (px G) [0x220daca8316aa9f5; 0x74b5471c45e61ba3; 0x2d17797722de0cda; 0x7a8e00e6da77a27b] ONE.
Lemma addition_witness : exists r y, point_add G minus_G = Ok r /\ point_rep r (mkProj 0 y 0).
Proof.
  assert (on_curve gx gy) as H by (unfold on_curve; vm_compute; reflexivity).
  apply (addition_is_the_group_law G G minus_G gx gy gx gy H H G_rep G_rep). split; [apply G_rep|]. split; [apply rep_const; vm_compute; reflexivity|apply ONE_rep].
Defined.
