(* ===== verification/X509.v ===== *)
(** * Certificates ([net/x509.rs])

    PEM and DER, the fields and extensions of a certificate, the names it
    holds, and the walk from a server's certificate to a trust anchor. A
    certificate keeps the parts of its encoding that the source's ranges
    index. The signature checks are [Rsa]'s and [P256]'s. *)
From S2P Require Import Prelude Bytes Utf8 Engine Sbe Serve Daemon Search Token Table Bpe Tournament Merges Lookup Unicode Pieces Encode Marks Vocab Built Json FromJson Chat.
From S2P Require Import Sha X25519 Limbs Rsa Http P256.

Definition OID_EC_PUBLIC_KEY : list Z := [0x2a; 0x86; 0x48; 0xce; 0x3d; 0x02; 0x01].
Definition OID_P256 : list Z := [0x2a; 0x86; 0x48; 0xce; 0x3d; 0x03; 0x01; 0x07].
Definition OID_RSA : list Z := [0x2a; 0x86; 0x48; 0x86; 0xf7; 0x0d; 0x01; 0x01; 0x01].
Definition OID_ECDSA_SHA256 : list Z := [0x2a; 0x86; 0x48; 0xce; 0x3d; 0x04; 0x03; 0x02].
Definition OID_RSA_SHA256 : list Z := [0x2a; 0x86; 0x48; 0x86; 0xf7; 0x0d; 0x01; 0x01; 0x0b].
Definition OID_KEY_USAGE : list Z := [0x55; 0x1d; 0x0f].
Definition OID_ALT_NAME : list Z := [0x55; 0x1d; 0x11].
Definition OID_BASIC_CONSTRAINTS : list Z := [0x55; 0x1d; 0x13].
Definition OID_EXT_KEY_USAGE : list Z := [0x55; 0x1d; 0x25].
Definition OID_SERVER_AUTH : list Z := [0x2b; 0x06; 0x01; 0x05; 0x05; 0x07; 0x03; 0x01].
Definition UNDERSTOOD : list (list Z) := [[0x55; 0x1d; 0x1e]; [0x55; 0x1d; 0x20]; [0x55; 0x1d; 0x21]; [0x55; 0x1d; 0x24]; [0x55; 0x1d; 0x0e]; [0x55; 0x1d; 0x23]].
Definition ALPHABET : list Z := str "ABCDEFGHIJKLMNOPQRSTUVWXYZabcdefghijklmnopqrstuvwxyz0123456789+/".

(** ** PEM, over the bytes of the text *)
Definition BEGIN : list Z := str "-----BEGIN CERTIFICATE-----".
Definition END : list Z := str "-----END CERTIFICATE-----".
Definition ascii_space (c : Z) : bool := existsb (Z.eqb c) [9; 10; 12; 13; 32].
Definition place_of (c : Z) (l : list Z) : option Z := find_sub [c] l.
Fixpoint sextets (l : list Z) (n bits : Z) (der : list Z) : option (list Z) :=
  match l with
  | [] => Some der
  | c :: l =>
      s ← place_of c ALPHABET;
      let n := Z.lor (wrap 32 (Z.shiftl n 6)) s in let bits := bits + 6 in
      if 8 <=? bits then sextets l n (bits - 8) (der ++ [wrap 8 (Z.shiftr n (bits - 8))]) else sextets l n bits der
  end.
Definition base64 (l : list Z) : option (list Z) := sextets (List.filter (fun c => negb (ascii_space c) && negb (c =? 61)) l) 0 0 [].
Fixpoint pem_from (fuel : nat) (rest : list Z) : list (list Z) :=
  match fuel with
  | O => []
  | S fuel =>
      match find_sub BEGIN rest with
      | None => []
      | Some start =>
          let body := zdrop (start + 27) rest in
          match find_sub END body with
          | None => []
          | Some e => match base64 (ztake e body) with Some der => [der] | None => [] end ++ pem_from fuel (zdrop e body)
          end
      end
  end.
(** Each block takes its first line. *)
Definition pem_certificates (text : list Z) : list (list Z) := pem_from (length text) text.

(** ** DER: a reader is the bytes left *)
Notation element := (Z * list Z * list Z)%type.
(** The tag, the content's length and the header's. *)
Definition head_of (b : list Z) : option (Z * Z * Z) :=
  match b with
  | tag :: first :: _ =>
      if first <=? 0x7f then Some (tag, first, 2)
      else if within 0x81 0x83 first then
        let n := Z.land first 0x7f in
        s ← zslice b 2 (2 + n); b2 ← zget b 2;
        let len := be_fold 64 s in
        if (len <? 0x80) || ((1 <? n) && (b2 =? 0)) then None else Some (tag, len, 2 + n)
      else None
  | _ => None
  end.
Definition next (b : list Z) : option (element * list Z) :=
  '(tag, len, h) ← head_of b;
  whole ← zslice b 0 (h + len);
  Some (tag, zdrop h whole, whole, zdrop (h + len) b).
Definition expect (tag : Z) (b : list Z) : option (list Z * list Z) := '(t, c, _, rest) ← next b; if t =? tag then Some (c, rest) else None.
(** [expect]'s content, what is left not being read. *)
Definition content (tag : Z) (b : list Z) : option (list Z) := fst <$> expect tag b.
(** [optional]: nothing is taken unless an element of the tag is there. An
    element with another tag than its first byte does not exist. *)
Definition optional (tag : Z) (b : list Z) : option (list Z) * list Z :=
  match b with t :: _ => if t =? tag then match expect tag b with Some (c, rest) => (Some c, rest) | None => (None, b) end else (None, b) | [] => (None, b) end.
Definition done_ (b : list Z) : bool := match b with [] => true | _ => false end.

(** The magnitude of a minimally encoded, non-negative INTEGER. *)
Definition unsigned (int : list Z) : option (list Z) :=
  match int with
  | b :: rest =>
      if (b =? 0) && (match rest with c :: _ => negb (Z.land c 0x80 =? 0) | [] => false end) then Some rest
      else if (Z.land b 0x80 =? 0) && ((zlen int =? 1) || negb (b =? 0)) then Some int else None
  | [] => None
  end.
Definition half (int : list Z) : option (list Z) := if zlen int <=? 32 then Some (zrep (32 - zlen int) 0 ++ int) else None.
Definition raw_signature (der : list Z) : option (list Z) :=
  '(d, outer) ← expect 0x30 der;
  '(r, d) ← expect 0x02 d; r ← unsigned r; r ← half r;
  '(s, d) ← expect 0x02 d; s ← unsigned s; s ← half s;
  if done_ d && done_ outer then Some (r ++ s) else None.

Definition days_from_civil (y m d : Z) : Z :=
  let y := if m <=? 2 then y - 1 else y in
  let era := y / 400 in let yoe := y - era * 400 in
  let doy := Z.quot (153 * Z.rem (m + 9) 12 + 2) 5 + d - 1 in
  era * 146097 + yoe * 365 + Z.quot yoe 4 - Z.quot yoe 100 + doy - 719468.
(** [parse::<i64>] of a few characters: a sign may come first. *)
Definition parse_int (s : list Z) : option Z :=
  match s with 45 :: _ :: _ => Z.opp <$> digits_from 10 63 0 (tail s) | _ => parse_uint 10 63 s end.
Definition is_digit (b : Z) : bool := within 48 57 b.
Definition two (rest : list Z) (i : Z) : Z := default 99 (parse_int (ztake 2 (zdrop (2 * i) rest))).
Definition decode_time (tag : Z) (text : list Z) : option Z :=
  _ ← utf8_chars text;
  '(year, rest) ← (if (tag =? 0x17) && (zlen text =? 13) then yy ← parse_int (ztake 2 text); Some (if yy <? 50 then 2000 + yy else 1900 + yy, zdrop 2 text)
    else if (tag =? 0x18) && (zlen text =? 15) then y ← parse_int (ztake 4 text); Some (y, zdrop 4 text) else None);
  if negb (bool_decide (last rest = Some 90)) || negb (forallb is_digit (ztake 10 rest)) then None else
  let f := two rest in
  if (within 1 12 (f 0)) && (within 1 31 (f 1)) && (f 2 <? 24) && (f 3 <? 60) && (f 4 <? 60) then
    Some (days_from_civil year (f 0) (f 1) * 86400 + f 2 * 3600 + f 3 * 60 + f 4)
  else None.

(** ** Keys, signatures, names *)
Inductive Key := KP256 (k : P256.PublicKey) | KRsa (k : Rsa.PublicKey).
Inductive Signature := SEcdsa (s : list Z) | SRsa (s : list Z).
Definition verifies (k : Key) (digest : list Z) (s : Signature) : computes bool :=
  match k, s with KP256 k, SEcdsa s => P256.verify k digest s | KRsa k, SRsa s => verify_pkcs1 k digest s | _, _ => Ok false end.
Inductive Name := Dns (d : list Z) | Ip (b : list Z).
Inductive Rejected := Malformed | Unsupported_ | Expired | UnknownIssuer | WrongHost | BadSignature.
Record Extensions := mkExtensions { ca : bool; signs_certificates : bool; serves_tls : bool; ext_names : list Name }.
Definition no_extensions : Extensions := mkExtensions false true true [].
Record Certificate := mkCertificate { der : list Z; tbs : list Z; issuer : list Z; subject : list Z; not_before : Z; not_after : Z; key : option Key; signature : option Signature; ext : Extensions }.

(** [names]: every element of the list, up to the first that is none. *)
Fixpoint names_from (fuel : nat) (l : list Z) (out : list Name) : option (list Name) :=
  match fuel with
  | O => Some out
  | S fuel =>
      match next l with
      | None => Some out
      | Some (tag, name, _, l) =>
          if tag =? 0x82 then s ← utf8_chars name; names_from fuel l (out ++ [Dns (map lower s)])
          else if tag =? 0x87 then names_from fuel l (out ++ [Ip name])
          else names_from fuel l out
      end
  end.
Definition names (value : list Z) : option (list Name) := l ← content 0x30 value; names_from (length l) l [].
Fixpoint purposes_from (fuel : nat) (l : list Z) (serves : bool) : bool :=
  match fuel with
  | O => serves
  | S fuel => match expect 0x06 l with Some (oid, l) => purposes_from fuel l (serves || bool_decide (oid = OID_SERVER_AUTH)) | None => serves end
  end.
Definition is_true (v : option (list Z)) : bool := bool_decide (v = Some [0xff]).
Definition apply_ext (e : Extensions) (oid value : list Z) : option (bool * Extensions) :=
  if bool_decide (oid = OID_BASIC_CONSTRAINTS) then c ← content 0x30 value; Some (true, mkExtensions (is_true (fst (optional 0x01 c))) (signs_certificates e) (serves_tls e) (ext_names e))
  else if bool_decide (oid = OID_ALT_NAME) then n ← names value; Some (true, mkExtensions (ca e) (signs_certificates e) (serves_tls e) n)
  else if bool_decide (oid = OID_KEY_USAGE) then
    let b := match (c ← content 0x03 value; zget c 1) with Some b => negb (Z.land b 0x04 =? 0) | None => false end in Some (true, mkExtensions (ca e) b (serves_tls e) (ext_names e))
  else if bool_decide (oid = OID_EXT_KEY_USAGE) then l ← content 0x30 value; Some (true, mkExtensions (ca e) (signs_certificates e) (purposes_from (length l) l false) (ext_names e))
  else Some (false, e).
(** Each extension takes its bytes. *)
Fixpoint extensions_from (fuel : nat) (l : list Z) (e : Extensions) : option (Extensions + Rejected) :=
  match l, fuel with
  | [], _ => Some (inl e)
  | _, O => None
  | _, S fuel =>
      '(one, l) ← expect 0x30 l;
      '(oid, one) ← expect 0x06 one;
      let '(c, one) := optional 0x01 one in
      v ← content 0x04 one;
      '(known, e) ← apply_ext e oid v;
      if negb known && is_true c && negb (existsb (fun u => bool_decide (u = oid)) UNDERSTOOD) then Some (inr Unsupported_) else extensions_from fuel l e
  end.
Definition extensions (block : list Z) : option (Extensions + Rejected) := l ← content 0x30 block; extensions_from (length l) l no_extensions.

(** ** A certificate *)

(** [Some None] is a signature this client does not understand. *)
Definition signature_of (alg : list Z) (bits : list Z) : option (option Signature) :=
  match content 0x06 alg, bits with
  | Some oid, 0 :: sig => if bool_decide (oid = OID_ECDSA_SHA256) then s ← raw_signature sig; Some (Some (SEcdsa s)) else Some (if bool_decide (oid = OID_RSA_SHA256) then Some (SRsa sig) else None)
  | _, _ => Some None
  end.
Definition envelope (d : list Z) : option (list Z * list Z * option Signature) :=
  '(cert, outer) ← expect 0x30 d;
  '(tag, c, whole, cert) ← next cert;
  '(alg, cert) ← expect 0x30 cert; '(bits, cert) ← expect 0x03 cert;
  s ← signature_of alg bits;
  if (tag =? 0x30) && done_ cert && done_ outer then Some (whole, c, s) else None.
Definition validity (d : list Z) : option (Z * Z) :=
  '(t, v, _, d) ← next d; a ← decode_time t v; '(t, v, _, _) ← next d; b ← decode_time t v; Some (a, b).
(** The modulus and the exponent of an [RSAPublicKey]. *)
Definition rsa_numbers (d : list Z) : option (list Z * list Z) :=
  seq ← content 0x30 d; '(n, seq) ← expect 0x02 seq; e ← content 0x02 seq; Some (n, e).
Definition rsa_key (d : list Z) : computes (option Key) :=
  match rsa_numbers d with
  | Some (n, e) => k ← Rsa.new n e; Ok (match k with Some k => Some (KRsa k) | None => None end)
  | None => Ok None
  end.
(** The algorithm, what follows it, and the bits of a [SubjectPublicKeyInfo]. *)
Definition spki_parts (spki : list Z) : option (list Z * list Z * list Z) :=
  '(alg, spki) ← expect 0x30 spki; '(kind, alg) ← expect 0x06 alg; bits ← content 0x03 spki; Some (kind, alg, bits).
(** [Some None] is a key this client does not understand. *)
Definition public_key (spki : list Z) : computes (option (option Key)) :=
  match spki_parts spki with
  | Some (kind, alg, 0 :: bits) =>
      if bool_decide (kind = OID_EC_PUBLIC_KEY) && bool_decide (content 0x06 alg = Some OID_P256) then k ← from_sec1 bits; Ok (match k with Some k => Some (Some (KP256 k)) | None => None end)
      else if bool_decide (kind = OID_RSA) then k ← rsa_key bits; Ok (match k with Some k => Some (Some k) | None => None end)
      else Ok (Some None)
  | _ => Ok None
  end.
(** The fields up to the optional ones: issuer, validity, subject, the key's
    encoding, and what is left. *)
Definition body_fields (t : list Z) : option (list Z * (Z * Z) * list Z * list Z * list Z) :=
  let '(_, t) := optional 0xa0 t in
  '(_, t) ← expect 0x02 t; '(_, t) ← expect 0x30 t;
  '(tag, _, issuer, t) ← next t; if negb (tag =? 0x30) then None else
  '(v, t) ← expect 0x30 t; v ← validity v;
  '(tag, _, subject, t) ← next t; if negb (tag =? 0x30) then None else
  '(spki, t) ← expect 0x30 t; Some (issuer, v, subject, spki, t).
Definition optional_fields (t : list Z) : option (Extensions + Rejected) :=
  let '(_, t) := optional 0x81 t in let '(_, t) := optional 0x82 t in
  let '(block, t) := optional 0xa3 t in
  e ← (match block with Some b => extensions b | None => Some (inl no_extensions) end);
  if done_ t then Some e else None.
Definition parse (d : list Z) : computes (Certificate + Rejected) :=
  match envelope d with
  | None => Ok (inr Malformed)
  | Some (whole, c, sig) =>
      match body_fields c with
      | None => Ok (inr Malformed)
      | Some (issuer, (nb, na), subject, spki, t) =>
          k ← public_key spki;
          Ok (match k with
              | None => inr Malformed
              | Some k => match optional_fields t with
                          | None => inr Malformed
                          | Some (inr r) => inr r
                          | Some (inl e) => inl (mkCertificate d whole issuer subject nb na k sig e)
                          end
              end)
      end
  end.
Definition issues (c : Certificate) : bool := ca (ext c) && signs_certificates (ext c).
Definition issued_by (c i : Certificate) : computes bool :=
  let d := digest (tbs c) in
  if bool_decide (issuer c = subject i) then match key i, signature c with Some k, Some s => verifies k d s | _, _ => Ok false end else Ok false.
Definition current (c : Certificate) (now : Z) : bool := (not_before c <=? now) && (now <=? not_after c).

(** ** The host's name *)

(** [core::net]'s parser: a number of at most [max] digits, not with a leading
    zero unless [zeros], in the bounds of its type. *)
Fixpoint digits_of (radix : Z) (s : list Z) : list Z * list Z :=
  match s with
  | c :: l => match Http.digit radix c with Some d => let '(ds, r) := digits_of radix l in (d :: ds, r) | None => ([], s) end
  | [] => ([], [])
  end.
Definition read_number (radix max top : Z) (zeros : bool) (s : list Z) : option (Z * list Z) :=
  let '(ds, rest) := digits_of radix s in
  let v := fold_left (fun v d => v * radix + d) ds 0 in
  if (zlen ds =? 0) || (max <? zlen ds) || (negb zeros && bool_decide (head s = Some 48) && (1 <? zlen ds)) || (top <=? v) then None else Some (v, rest).
Definition given (c : Z) (s : list Z) : option (list Z) := match s with x :: s => if x =? c then Some s else None | [] => None end.
Definition separated {A} (c i : Z) (inner : list Z -> option (A * list Z)) (s : list Z) : option (A * list Z) := s ← (if 0 <? i then given c s else Some s); inner s.
Definition octet (i : Z) : list Z -> option (Z * list Z) := separated 46 i (read_number 10 3 256 false).
Definition read_ipv4 (s : list Z) : option (list Z * list Z) :=
  '(a, s) ← octet 0 s; '(b, s) ← octet 1 s; '(c, s) ← octet 2 s; '(d, s) ← octet 3 s; Some ([a; b; c; d], s).
(** The octets of at most [n] groups from the [i]-th of [limit], an embedded
    IPv4 address standing for two; whether it ended with one. *)
Fixpoint read_groups (n : nat) (i limit : Z) (s : list Z) : list Z * bool * list Z :=
  match n with
  | O => ([], false, s)
  | S n =>
      match (if i <? limit - 1 then separated 58 i read_ipv4 s else None) with
      | Some (v4, s) => (v4, true, s)
      | None =>
          match separated 58 i (read_number 16 4 65536 true) s with
          | Some (g, s) => let '(gs, v4, s) := read_groups n (i + 1) limit s in (g / 256 :: g mod 256 :: gs, v4, s)
          | None => ([], false, s)
          end
      end
  end.
Definition read_ipv6 (s : list Z) : option (list Z * list Z) :=
  let '(front, v4, s) := read_groups 8 0 8 s in
  if zlen front =? 16 then Some (front, s) else if v4 then None else
  s ← given 58 s; s ← given 58 s;
  let limit := 8 - (zlen front / 2 + 1) in
  let '(back, _, s) := read_groups (Z.to_nat limit) 0 limit s in
  Some (front ++ zrep (16 - zlen front - zlen back) 0 ++ back, s).
(** [parse::<IpAddr>]: the address's octets, if it is all of the text. *)
Definition parse_ip (s : list Z) : option (list Z) :=
  match (match read_ipv4 s with Some r => Some r | None => read_ipv6 s end) with Some (ip, []) => Some ip | _ => None end.

Definition strip_dot (host : list Z) : list Z := match last host with Some 46 => ztake (zlen host - 1) host | _ => host end.
Definition has_dot (l : list Z) : bool := existsb (Z.eqb 46) l.
Definition wildcard (host base : list Z) : bool :=
  has_dot base && match split_once [46] host with Some (label, rest) => negb (bool_decide (label = [])) && bool_decide (rest = base) | None => false end.
Definition dns_matches (host d : list Z) : bool :=
  bool_decide (d = host) || match d with 42 :: 46 :: base => wildcard host base | _ => false end.
Definition names_host (c : Certificate) (host : list Z) : bool :=
  let host := strip_dot host in
  match parse_ip host with
  | Some octets => existsb (fun n => match n with Ip b => bool_decide (b = octets) | Dns _ => false end) (ext_names (ext c))
  | None => let host := map lower host in existsb (fun n => match n with Dns d => dns_matches host d | Ip _ => false end) (ext_names (ext c))
  end.

(** ** The chain *)
Fixpoint parsed (ders : list (list Z)) : computes (list Certificate) :=
  match ders with
  | [] => Ok []
  | d :: ders => c ← parse d; l ← parsed ders; Ok (match c with inl c => c :: l | inr _ => l end)
  end.
Definition anchors (bundle : list Z) : computes (list Certificate) := parsed (pem_certificates bundle).
(** [find] of an anchor that issued the certificate. *)
Fixpoint issuing (c : Certificate) (l : list Certificate) : computes (option Certificate) :=
  match l with
  | [] => Ok None
  | a :: l => ok ← (if issues a then issued_by c a else Ok false); if (ok : bool) then Ok (Some a) else issuing c l
  end.
(** A verdict is an error or none. *)
Definition anchored (c : Certificate) (anchors : list Certificate) (now : Z) : computes (option (option Rejected)) :=
  if existsb (fun a => bool_decide (der a = der c)) anchors then Ok (Some None) else
  o ← issuing c anchors;
  Ok (match o with Some a => Some (if current a now then None else Some Expired) | None => None end).
Definition link (c : Certificate) (next : option Certificate) (anchors : list Certificate) (now : Z) : computes (option (option Rejected)) :=
  if negb (current c now) then Ok (Some (Some Expired)) else
  v ← anchored c anchors now;
  match v, next with
  | Some v, _ => Ok (Some v)
  | None, Some n =>
      if issues n then
        ok ← issued_by c n;
        Ok (if (ok : bool) then None else if bool_decide (issuer c = subject n) then Some (Some BadSignature) else Some (Some UnknownIssuer))
      else Ok (Some (Some UnknownIssuer))
  | None, None => Ok (Some (Some UnknownIssuer))
  end.
Fixpoint links (chain anchors : list Certificate) (now : Z) : computes (option Rejected) :=
  match chain with
  | [] => Ok (Some UnknownIssuer)
  | c :: rest => v ← link c (head rest) anchors now; match v with Some v => Ok v | None => links rest anchors now end
  end.
Definition verify_chain (chain anchors : list Certificate) (host : list Z) (now : Z) : computes (option Rejected) :=
  match chain with
  | [] => Ok (Some Malformed)
  | leaf :: _ =>
      if match key leaf with None => true | Some _ => false end || negb (serves_tls (ext leaf)) then Ok (Some Unsupported_)
      else if negb (names_host leaf host) then Ok (Some WrongHost)
      else links chain anchors now
  end.
