(* ===== verification/X509Chain.v ===== *)
(** * What certificates and chains are accepted ([net/x509.rs])

    The DER reader takes the minimal encodings and no others; a certificate
    that parses is its encoding, with a key its signatures are checked with;
    an accepted chain leads by signatures to a trust anchor. *)
From S2P Require Import Prelude Bytes Utf8 Engine Sbe Serve Daemon Search Token Table Bpe Tournament Merges Lookup Unicode Pieces Encode Marks Vocab Built Json FromJson Chat.
From S2P Require Import Sha X25519 Limbs Rsa Http P256 P256Field P256Curve X509.

(** ** Minimal encodings *)
Definition length_bytes (n : Z) : list Z :=
  if n <? 0x80 then [n] else let k := if n <? 0x100 then 1 else if n <? 0x10000 then 2 else 3 in (0x80 + k) :: be_bytes (Z.to_nat k) n.
Definition element_bytes (tag : Z) (c : list Z) : list Z := tag :: length_bytes (zlen c) ++ c.

Lemma split_prefix {A} (b : list A) h n : 0 <= h -> 0 <= n -> h + n <= zlen b -> exists x c r, b = x ++ c ++ r /\ zlen x = h /\ zlen c = n.
Proof.
  intros Hh Hn Hl. exists (ztake h b), (ztake n (zdrop h b)), (zdrop n (zdrop h b)). rewrite ztake_zdrop, ztake_zdrop. split; [done|]. rewrite !zlen_ztake, zlen_zdrop by lia. lia.
Qed.
Lemma short_length first : 0 <= first <= 0x7f -> length_bytes first = [first].
Proof. intros H. unfold length_bytes. destruct (Z.ltb_spec first 0x80); [done|lia]. Qed.
(** The length bytes [s] after [0x80 + k] are minimal. *)
Lemma long_length s b2 s' : bytes_ok s -> 1 <= zlen s <= 3 -> s = b2 :: s' -> ((be_val s <? 0x80) || ((1 <? zlen s) && (b2 =? 0)) = false <-> length_bytes (be_val s) = (0x80 + zlen s) :: s /\ 0x80 <= be_val s).
Proof.
  intros Hs Hl E. pose proof (be_val_bound s Hs) as Hv. pose proof (be_bytes_val s Hs) as Hr. assert (be_val s = b2 * 2 ^ (8 * zlen s') + be_val s') as Hb by (rewrite E; change (b2 :: s') with ([b2] ++ s'); rewrite be_val_app; f_equal; f_equal; unfold be_val; cbn; lia).
  assert (zlen s = 1 + zlen s') as Hz by (by rewrite E, zlen_cons). assert (bytes_ok [b2] /\ bytes_ok s') as [Hb2 Hs'] by (rewrite E in Hs; apply Forall_cons in Hs as [? ?]; split; [by constructor|done]). apply Forall_cons in Hb2 as [Hb2 _]. unfold fits in Hb2. pose proof (be_val_bound s' Hs') as Hv'.
  unfold length_bytes. replace (length s) with (Z.to_nat (zlen s)) in Hr by (unfold zlen; lia). set (v := be_val s) in *. set (v' := be_val s') in *. clearbody v v'.
  assert (zlen s' = 0 \/ zlen s' = 1 \/ zlen s' = 2) as [Hc|[Hc|Hc]] by lia; rewrite Hz, Hc in *; change (2 ^ (8 * (1 + 0))) with 256 in *; change (2 ^ (8 * (1 + 1))) with 65536 in *; change (2 ^ (8 * (1 + 2))) with 16777216 in *;
    change (1 + 0) with 1 in *; change (1 + 1) with 2 in *; change (1 + 2) with 3 in *; cbn in Hv', Hb2, Hb;
    destruct (Z.ltb_spec v 0x80), (Z.eqb_spec b2 0), (Z.ltb_spec v 0x100), (Z.ltb_spec v 0x10000); try lia; cbn [orb andb Z.ltb Z.compare Pos.compare Pos.compare_cont]; cbv zeta; rewrite ?Hr;
    (split; [intros ?; first [discriminate|split; [reflexivity|lia]]|intros [Hq ?]; first [reflexivity|exfalso; lia|exfalso; discriminate Hq]]).
Qed.
Lemma length_bytes_long n : 0x80 <= n < 2 ^ 24 -> exists s b2 s', length_bytes n = (0x80 + zlen s) :: s /\ 1 <= zlen s <= 3 /\ bytes_ok s /\ be_val s = n /\ s = b2 :: s'.
Proof.
  intros Hn. unfold length_bytes. destruct (Z.ltb_spec n 0x80); [lia|]. set (k := if n <? 0x100 then 1 else if n <? 0x10000 then 2 else 3).
  assert (1 <= k <= 3 /\ n < 2 ^ (8 * k)) as [Hk Hf] by (unfold k; destruct (Z.ltb_spec n 0x100); [by split; [lia|]|]; destruct (Z.ltb_spec n 0x10000); split; done || lia). clearbody k.
  assert (zlen (be_bytes (Z.to_nat k) n) = k) as Hl by (rewrite be_bytes_zlen; lia). assert (be_val (be_bytes (Z.to_nat k) n) = n) as Hv by (apply be_round_trip; unfold fits; rewrite Z2Nat.id; lia). pose proof (be_bytes_ok (Z.to_nat k) n) as Hb.
  destruct (be_bytes (Z.to_nat k) n) as [|b2 s'] eqn:E; [change (zlen (@nil Z)) with 0 in Hl; lia|]. exists (b2 :: s'), b2, s'. cbv zeta. rewrite Hl. repeat split; done || lia.
Qed.
Lemma land_7f k : 1 <= k <= 3 -> Z.land (0x80 + k) 0x7f = k /\ (0x80 + k <=? 0x7f) = false /\ within 0x81 0x83 (0x80 + k) = true.
Proof. intros H. assert (k = 1 \/ k = 2 \/ k = 3) as [->|[->| ->]] by lia; done. Qed.
(** The header of a long element, by the bytes of its length. *)
Lemma head_long tag s b2 s' r : bytes_ok s -> 1 <= zlen s <= 3 -> s = b2 :: s' ->
  head_of (tag :: (0x80 + zlen s) :: s ++ r) = if (be_val s <? 0x80) || ((1 <? zlen s) && (b2 =? 0)) then None else Some (tag, be_val s, 2 + zlen s).
Proof.
  intros Hs Hl E. pose proof (be_val_bound s Hs) as Hv. destruct (land_7f (zlen s) Hl) as (H1&H2&H3). unfold head_of. rewrite H2, H3, H1. cbv zeta.
  pose proof (zslice_app [tag; 0x80 + zlen s] s r) as Hz. change (zlen [tag; 0x80 + zlen s]) with 2 in Hz. cbn [app] in Hz. rewrite Hz. cbn [mbind option_bind].
  replace (zget (tag :: 0x80 + zlen s :: s ++ r) 2) with (Some b2) by (by rewrite E). cbn [mbind option_bind]. rewrite be_fold_val, wrap_id; [done| |done|done].
  unfold fits. assert (2 ^ (8 * zlen s) <= 2 ^ 64) by (apply Z.pow_le_mono_r; lia). lia.
Qed.
Lemma head_spec b tag len h : bytes_ok b -> head_of b = Some (tag, len, h) <-> exists r, b = tag :: length_bytes len ++ r /\ h = 1 + zlen (length_bytes len) /\ 0 <= len < 2 ^ 24.
Proof.
  intros Hb. split.
  - destruct b as [|t [|first r]]; [done|done|]. apply Forall_cons in Hb as [_ [Hf Hr]%Forall_cons]. unfold fits in Hf. intros H. pose proof H as H0. unfold head_of in H. destruct (Z.leb_spec first 0x7f).
    { injection H as -> -> <-. exists r. rewrite short_length by lia. repeat split; done || lia. }
    destruct (within 0x81 0x83 first) eqn:Hw; [|done]. unfold within in Hw. apply andb_prop in Hw as [?%Z.leb_le ?%Z.leb_le]. assert (exists k, first = 0x80 + k /\ 1 <= k <= 3) as (k&->&Hk) by (exists (first - 0x80); lia). destruct (land_7f k Hk) as (Hland&_). rewrite Hland in H.
    destruct (zslice _ _ _) as [s|] eqn:Hs in H; [|done]. clear H. apply zslice_Some in Hs as (_&Hle&->). rewrite !zlen_cons in Hle. destruct (split_prefix r 0 k ltac:(lia) ltac:(lia) ltac:(lia)) as (x&s&r'&->&Hx%zlen_zero&Hsl). subst x k. cbn [app] in *. apply Forall_app in Hr as [Hs _].
    destruct s as [|b2 s'] eqn:E; [change (zlen (@nil Z)) with 0 in Hk; lia|]. rewrite <- E in *. rewrite (head_long t s b2 s') in H0 by done. pose proof (long_length s b2 s' Hs Hk E) as Hc. destruct (_ || _); [done|]. destruct (proj1 Hc eq_refl) as [Hlb Hmin]. injection H0 as -> <- <-.
    exists r'. rewrite Hlb, zlen_cons. split; [done|]. split; [lia|]. pose proof (be_val_bound s Hs). assert (2 ^ (8 * zlen s) <= 2 ^ 24) by (apply Z.pow_le_mono_r; lia). lia.
  - intros (r&->&->&Hlen). destruct (Z.ltb_spec len 0x80) as [Hs|Hs].
    + rewrite short_length by lia. cbn [app head_of]. destruct (Z.leb_spec len 0x7f); [done|lia].
    + destruct (length_bytes_long len ltac:(lia)) as (s&b2&s'&El&Hl&Hok&Hv&E). rewrite El. cbn [app]. rewrite (head_long tag s b2 s') by done. pose proof (long_length s b2 s' Hok Hl E) as Hc. rewrite (proj2 Hc) by (rewrite Hv; split; [done|lia]). rewrite Hv, zlen_cons. f_equal. f_equal. lia.
Qed.
Lemma length_bytes_zlen n : 0 <= zlen (length_bytes n).
Proof. apply zlen_nonneg. Qed.
Lemma length_bytes_max n : zlen (length_bytes n) <= 4.
Proof. unfold length_bytes. destruct (n <? 0x80); [done|]. cbv zeta. rewrite zlen_cons, be_bytes_zlen. destruct (n <? 0x100); [|destruct (n <? 0x10000)]; lia. Qed.
Lemma next_spec b tag c whole rest : bytes_ok b -> next b = Some (tag, c, whole, rest) <-> whole = element_bytes tag c /\ b = whole ++ rest /\ zlen c < 2 ^ 24.
Proof.
  intros Hb. unfold next, element_bytes. split.
  - destruct (head_of b) as [[[t len] h]|] eqn:Eh; [|done]. apply head_spec in Eh as (r&->&->&Hlen); [|done]. cbn [mbind option_bind]. destruct (zslice _ _ _) as [w|] eqn:Ew; [|done]. cbn [mbind option_bind]. intros [= -> <- <- <-]. apply zslice_Some in Ew as (_&Hle&->). rewrite Z.sub_0_r, zdrop_0. pose proof (length_bytes_zlen len).
    rewrite zlen_cons, zlen_app in Hle. destruct (split_prefix r 0 len ltac:(lia) ltac:(lia) ltac:(lia)) as (x&c&r'&->&Hx%zlen_zero&Hc). subst x. cbn [app]. set (x := tag :: length_bytes len). assert (zlen x = 1 + zlen (length_bytes len)) as Hx by apply zlen_cons. rewrite <- Hx.
    replace (tag :: length_bytes len ++ c ++ r') with ((x ++ c) ++ r') by (unfold x; cbn; by rewrite <- app_assoc). rewrite ztake_app, (zdrop_app (zlen x + len)) by (rewrite zlen_app; lia). rewrite zdrop_app by done. rewrite Hc. repeat split; done || lia.
  - intros (->&->&Hc). set (x := tag :: length_bytes (zlen c)). pose proof (zlen_nonneg c). assert (zlen x = 1 + zlen (length_bytes (zlen c))) as Hx by apply zlen_cons.
    rewrite (proj2 (head_spec _ tag (zlen c) (zlen x) Hb)); [|exists (c ++ rest); cbn; rewrite <- app_assoc; split; [done|lia]]. cbn [mbind option_bind]. change (tag :: length_bytes (zlen c) ++ c) with (x ++ c). pose proof (zslice_app [] (x ++ c) rest) as Hz. rewrite zlen_app in Hz. cbn [app] in Hz. change (zlen (@nil Z)) with 0 in Hz. rewrite Z.add_0_l in Hz. rewrite Hz. cbn [mbind option_bind]. rewrite zdrop_app, zdrop_app by (rewrite ?zlen_app; done). done.
Qed.

Lemma expect_spec tag b c rest : bytes_ok b -> expect tag b = Some (c, rest) <-> b = element_bytes tag c ++ rest /\ zlen c < 2 ^ 24.
Proof.
  intros Hb. unfold expect. split.
  - destruct (next b) as [[[[t c'] w] r]|] eqn:E; [|done]. apply next_spec in E as (->&->&Hc); [|done]. cbn [mbind option_bind]. destruct (Z.eqb_spec t tag) as [->|]; [|done]. by intros [= -> ->].
  - intros [-> Hc]. rewrite (proj2 (next_spec _ tag c _ rest Hb) (conj eq_refl (conj eq_refl Hc))). cbn [mbind option_bind]. by rewrite Z.eqb_refl.
Qed.
Definition opt_bytes (tag : Z) (o : option (list Z)) : list Z := match o with Some c => element_bytes tag c | None => [] end.
Lemma optional_takes tag b o rest : bytes_ok b -> optional tag b = (o, rest) -> b = opt_bytes tag o ++ rest.
Proof.
  intros Hb. unfold optional. destruct b as [|t b']; [by intros [= <- <-]|]. destruct (t =? tag); [|by intros [= <- <-]]. destruct (expect tag (t :: b')) as [[c r]|] eqn:E; intros [= <- <-]; [|done]. by apply expect_spec in E as [-> _].
Qed.
Lemma element_ok tag c : bytes_ok (element_bytes tag c) -> bytes_ok c.
Proof. unfold element_bytes. intros [_ H]%Forall_cons. by apply Forall_app in H as [_ ?]. Qed.
Lemma content_ok tag b c : bytes_ok b -> content tag b = Some c -> bytes_ok c.
Proof. intros Hb. unfold content. destruct (expect tag b) as [[c' r]|] eqn:E; [|done]. intros [= <-]. apply expect_spec in E as [-> _]; [|done]. apply Forall_app in Hb as [Hb _]. by apply element_ok in Hb. Qed.
(** Takes the first element off a list of bytes. *)
Ltac take_element H :=
  match type of H with
  | mbind _ (expect ?t ?b) = Some _ =>
      let E := fresh "E" in destruct (expect t b) as [[? ?]|] eqn:E; [|discriminate H]; apply expect_spec in E as [-> ?]; [|done]; cbn [mbind option_bind] in H
  | mbind _ (next ?b) = Some _ =>
      let E := fresh "E" in destruct (next b) as [[[[? ?] ?] ?]|] eqn:E; [|discriminate H]; apply next_spec in E as (->&->&?); [|done]; cbn [mbind option_bind] in H
  end;
  match goal with Hb : bytes_ok (element_bytes _ _ ++ _) |- _ => let H1 := fresh "Hok" in let H2 := fresh "Hok" in apply Forall_app in Hb as [H1 H2]; apply element_ok in H1 end.
Lemma done_nil b : done_ b = true -> b = [].
Proof. by destruct b. Qed.

(** ** A certificate that parses *)
Definition key_good (k : Key) : Prop := match k with KP256 k => exists x y, key_is k x y /\ on_curve x y | KRsa k => exists N E, keyed N E /\ key_ok k N E end.
Definition signature_good (s : Signature) : Prop := match s with SEcdsa s => bytes_ok s /\ zlen s = 64 | SRsa s => bytes_ok s end.
Definition cert_good (c : Certificate) : Prop :=
  bytes_ok (tbs c) /\ zlen (tbs c) < 2 ^ 25 /\ (forall k, key c = Some k -> key_good k) /\ (forall s, signature c = Some s -> signature_good s).
(** The layout of RFC 5280's [Certificate]: what the fields are of [der c]. *)
Definition laid_out (c : Certificate) : Prop := exists alg bits version serial alg' who valid whom spki u1 u2 exts,
  der c = element_bytes 0x30 (tbs c ++ element_bytes 0x30 alg ++ element_bytes 0x03 bits)
  /\ tbs c = element_bytes 0x30 (opt_bytes 0xa0 version ++ element_bytes 0x02 serial ++ element_bytes 0x30 alg' ++ issuer c ++ element_bytes 0x30 valid ++ subject c
      ++ element_bytes 0x30 spki ++ opt_bytes 0x81 u1 ++ opt_bytes 0x82 u2 ++ opt_bytes 0xa3 exts)
  /\ issuer c = element_bytes 0x30 who /\ subject c = element_bytes 0x30 whom
  /\ signature_of alg bits = Some (signature c) /\ validity valid = Some (not_before c, not_after c) /\ public_key spki = Ok (Some (key c))
  /\ match exts with Some b => extensions b = Some (inl (ext c)) | None => ext c = no_extensions end.

Lemma unsigned_ok int m : bytes_ok int -> unsigned int = Some m -> bytes_ok m.
Proof. intros Hb. unfold unsigned. destruct int as [|b rest]; [done|]. apply Forall_cons in Hb as [? ?]. destruct (_ && _); [by intros [= <-]|]. destruct (_ && _); [|done]. intros [= <-]. by constructor. Qed.
Lemma half_ok int m : bytes_ok int -> half int = Some m -> bytes_ok m /\ zlen m = 32.
Proof.
  intros Hb. unfold half. destruct (Z.leb_spec (zlen int) 32); [|done]. intros [= <-]. pose proof (zlen_nonneg int). rewrite zlen_app, zlen_zrep by lia. split; [|lia]. apply Forall_app. split; [|done]. apply Forall_replicate. by unfold fits.
Qed.
Lemma raw_signature_good d s : bytes_ok d -> raw_signature d = Some s -> bytes_ok s /\ zlen s = 64.
Proof.
  intros Hb H. unfold raw_signature in H. take_element H. take_element H. destruct (unsigned _) as [r|] eqn:Er in H; [|done]. cbn [mbind option_bind] in H. destruct (half r) as [r'|] eqn:Er' in H; [|done]. cbn [mbind option_bind] in H. take_element H. destruct (unsigned _) as [s1|] eqn:Es in H; [|done]. cbn [mbind option_bind] in H. destruct (half s1) as [s2|] eqn:Es' in H; [|done]. cbn [mbind option_bind] in H.
  destruct (_ && _); [|done]. injection H as <-. apply half_ok in Er' as [? ?]; [|by eapply unsigned_ok; [|exact Er]]. apply half_ok in Es' as [? ?]; [|by eapply unsigned_ok; [|exact Es]]. rewrite zlen_app. split; [by apply Forall_app|lia].
Qed.
Lemma signature_of_good alg bits s : bytes_ok bits -> signature_of alg bits = Some (Some s) -> signature_good s.
Proof.
  intros Hb. unfold signature_of. destruct (content 6 alg) as [oid|]; [|done]. destruct bits as [|[] sig]; [done| |done|done]. apply Forall_cons in Hb as [_ Hb]. destruct (bool_decide (oid = OID_ECDSA_SHA256)).
  - destruct (raw_signature sig) as [x|] eqn:E; [|done]. intros [= <-]. by apply raw_signature_good in E.
  - destruct (bool_decide _); [|done]. by intros [= <-].
Qed.
Lemma rsa_numbers_ok d n e : bytes_ok d -> rsa_numbers d = Some (n, e) -> bytes_ok n /\ bytes_ok e.
Proof.
  intros Hd H. unfold rsa_numbers in H. destruct (content 0x30 d) as [seq|] eqn:E; [|done]. apply content_ok in E; [|done]. cbn [mbind option_bind] in H. take_element H. destruct (content 2 l0) as [e'|] eqn:E in H; [|done]. injection H as <- <-. split; [done|]. by apply content_ok in E.
Qed.
Lemma rsa_key_good d : bytes_ok d -> exists o, rsa_key d = Ok o /\ forall k, o = Some k -> key_good k.
Proof.
  intros Hd. unfold rsa_key. destruct (rsa_numbers d) as [[n e]|] eqn:E; [|by exists None]. apply rsa_numbers_ok in E as [Hn He]; [|done]. destruct (new_spec n e Hn He) as (o&->&Ho). cbn [mbind outcome_bind]. eexists. split; [done|]. intros k Hk. destruct o as [k'|]; [|done]. injection Hk as <-. by exists (be_val n), (be_val e).
Qed.
Lemma spki_parts_ok spki kind alg bits : bytes_ok spki -> spki_parts spki = Some (kind, alg, bits) -> bytes_ok bits.
Proof.
  intros Hs H. unfold spki_parts in H. take_element H. take_element H. destruct (content 3 l0) as [b|] eqn:E in H; [|done]. injection H as _ _ <-. by apply content_ok in E.
Qed.
Lemma public_key_good spki : bytes_ok spki -> exists o, public_key spki = Ok o /\ forall k, o = Some (Some k) -> key_good k.
Proof.
  intros Hs. unfold public_key. destruct (spki_parts spki) as [[[kind alg] bits]|] eqn:E; [|by exists None]. apply spki_parts_ok in E; [|done]. destruct bits as [|[] bits]; try (by exists None). apply Forall_cons in E as [_ Hb]. destruct (_ && _).
  - destruct (from_sec1_spec bits Hb) as (o&->&Ho). cbn [mbind outcome_bind]. eexists. split; [done|]. intros k Hk. destruct o as [k'|]; [|done]. injection Hk as <-. destruct Ho as (x&y&(?&?&?)&Hk'). exists x, y. split; [done|naive_solver].
  - destruct (bool_decide _); [|by exists (Some None)]. destruct (rsa_key_good bits Hb) as (o&->&Ho). cbn [mbind outcome_bind]. eexists. split; [done|]. intros k Hk. destruct o as [k'|]; [|done]. injection Hk as <-. by apply Ho.
Qed.
Lemma envelope_spec d whole c sig : bytes_ok d -> envelope d = Some (whole, c, sig) ->
  exists alg bits, d = element_bytes 0x30 (whole ++ element_bytes 0x30 alg ++ element_bytes 0x03 bits) /\ whole = element_bytes 0x30 c /\ zlen c < 2 ^ 24 /\ bytes_ok c /\ bytes_ok bits /\ signature_of alg bits = Some sig.
Proof.
  intros Hd H. unfold envelope in H. take_element H. take_element H. take_element H. take_element H. destruct (signature_of _ _) as [s|] eqn:Es in H; [|done]. cbn [mbind option_bind] in H.
  destruct (_ && _) eqn:Hc in H; [|done]. apply andb_prop in Hc as [[->%Z.eqb_eq ->%done_nil]%andb_prop ->%done_nil]. injection H as <- <- <-. rewrite !app_nil_r. eexists _, _. repeat split; eauto.
Qed.
Lemma body_fields_spec c issuer v subject spki t : bytes_ok c -> body_fields c = Some (issuer, v, subject, spki, t) -> exists version serial alg who valid whom,
  c = opt_bytes 0xa0 version ++ element_bytes 0x02 serial ++ element_bytes 0x30 alg ++ issuer ++ element_bytes 0x30 valid ++ subject ++ element_bytes 0x30 spki ++ t
  /\ issuer = element_bytes 0x30 who /\ subject = element_bytes 0x30 whom /\ validity valid = Some v /\ bytes_ok spki /\ bytes_ok t.
Proof.
  intros Hc H. unfold body_fields in H. destruct (optional 0xa0 c) as [ver c'] eqn:Ev. apply optional_takes in Ev as ->; [|done]. apply Forall_app in Hc as [_ Hc].
  do 3 take_element H. destruct (Z.eqb_spec z 0x30) as [->|]; [|done]. cbn [negb] in H. take_element H. destruct (validity _) as [v'|] eqn:Evl in H; [|done]. cbn [mbind option_bind] in H. take_element H. destruct (Z.eqb_spec z 0x30) as [->|]; [|done]. cbn [negb] in H. take_element H. injection H as <- <- <- <- <-.
  eexists ver, _, _, _, _, _. repeat split; eauto.
Qed.
Lemma optional_fields_spec t e : bytes_ok t -> optional_fields t = Some e -> exists u1 u2 exts, t = opt_bytes 0x81 u1 ++ opt_bytes 0x82 u2 ++ opt_bytes 0xa3 exts /\ match exts with Some b => extensions b = Some e | None => e = inl no_extensions end.
Proof.
  intros Ht H. unfold optional_fields in H. destruct (optional 0x81 t) as [u1 t1] eqn:E1. apply optional_takes in E1 as ->; [|done]. apply Forall_app in Ht as [_ Ht]. destruct (optional 0x82 t1) as [u2 t2] eqn:E2. apply optional_takes in E2 as ->; [|done]. apply Forall_app in Ht as [_ Ht].
  destruct (optional 0xa3 t2) as [ex t3] eqn:E3. apply optional_takes in E3 as ->; [|done]. exists u1, u2, ex. destruct ex as [b|].
  - destruct (extensions b) as [e'|]; [|done]. cbn [mbind option_bind] in H. destruct (done_ t3) eqn:Hd; [|done]. apply done_nil in Hd as ->. injection H as <-. by rewrite app_nil_r.
  - cbn [mbind option_bind] in H. destruct (done_ t3) eqn:Hd; [|done]. apply done_nil in Hd as ->. injection H as <-. split; [|done]. cbn [opt_bytes app]. by rewrite !app_nil_r.
Qed.
Lemma extensions_from_refuse fuel l e r : extensions_from fuel l e = Some (inr r) -> r = Unsupported_.
Proof.
  revert l e. induction fuel as [|fuel IH]; intros l e H; [by destruct l|]. destruct l as [|x l]; [done|]. cbn [extensions_from] in H. destruct (expect 0x30 (x :: l)) as [[one l']|]; [|done]. cbn [mbind option_bind] in H. destruct (expect 6 one) as [[oid one']|]; [|done]. cbn [mbind option_bind] in H.
  destruct (optional 1 one') as [c one'']. destruct (content 4 one'') as [v|]; [|done]. cbn [mbind option_bind] in H. destruct (apply_ext e oid v) as [[known e']|]; [|done]. cbn [mbind option_bind] in H. destruct (_ && _); [by injection H|]. by apply IH in H.
Qed.
Lemma extensions_refuse b r : extensions b = Some (inr r) -> r = Unsupported_.
Proof. unfold extensions. destruct (content 0x30 b) as [l|]; [|done]. apply extensions_from_refuse. Qed.

Lemma parse_spec d : bytes_ok d ->
  match parse d with
  | Ok (inl c) => der c = d /\ laid_out c /\ cert_good c
  | Ok (inr r) => r = Malformed \/ r = Unsupported_
  | _ => False
  end.
Proof.
  intros Hd. unfold parse. destruct (envelope d) as [[[whole c] sig]|] eqn:Ee; [|by left]. apply envelope_spec in Ee as (alg&bits&Ed&Ew&Hlen&Hc&Hbits&Hsig); [|done]. destruct (body_fields c) as [[[[[iss [nb na]] sub] spki] t]|] eqn:Eb; [|by left].
  apply body_fields_spec in Eb as (ver&serial&alg'&who&valid&whom&Ec&Ei&Es&Hv&Hspki&Ht); [|done]. destruct (public_key_good spki Hspki) as (o&Ek&Hk). rewrite Ek. cbn [mbind outcome_bind]. destruct o as [k|]; [|by left]. destruct (optional_fields t) as [e|] eqn:Eo; [|by left]. apply optional_fields_spec in Eo as (u1&u2&exts&Et&He); [|done].
  destruct e as [e|r].
  - split; [done|]. split.
    + exists alg, bits, ver, serial, alg', who, valid, whom, spki, u1, u2, exts. cbn [der tbs issuer subject signature not_before not_after key ext]. rewrite <- Et, <- Ec. repeat split; try done. destruct exts; [done|]. by injection He.
    + assert (bytes_ok whole) as Hw by (rewrite Ed in Hd; apply element_ok in Hd; by apply Forall_app in Hd as [? _]). repeat split; cbn; try done.
      * rewrite Ew. unfold element_bytes. rewrite zlen_cons, zlen_app. pose proof (length_bytes_max (zlen c)). change (2 ^ 25) with (2 ^ 24 + 2 ^ 24). change (2 ^ 24) with 16777216 in *. lia.
      * intros k' ->. by apply Hk.
      * intros s ->. exact (signature_of_good _ _ _ Hbits Hsig).
  - destruct exts as [b|]; [|done]. right. by eapply extensions_refuse.
Qed.

(** A certificate for [*.example.com], of 2025 to 2035. *)
Definition utc (s : string) : list Z := element_bytes 0x17 (str s).
Definition oid (o : list Z) : list Z := element_bytes 0x06 o.
Definition sample_name : list Z := element_bytes 0x30 [].
Definition sample_spki : list Z := element_bytes 0x30 (element_bytes 0x30 (oid OID_RSA) ++ element_bytes 0x03 (0 :: element_bytes 0x30 (element_bytes 0x02 (0 :: zrep 128 255) ++ element_bytes 0x02 [1]))).
Definition sample_names : list Z := element_bytes 0xa3 (element_bytes 0x30 (element_bytes 0x30 (oid OID_ALT_NAME ++ element_bytes 0x04 (element_bytes 0x30 (element_bytes 0x82 (str "*.Example.com")))))).
Definition sample_tbs : list Z := element_bytes 0x30 (element_bytes 0x02 [1] ++ element_bytes 0x30 [] ++ sample_name ++ element_bytes 0x30 (utc "250101000000Z" ++ utc "350101000000Z") ++ sample_name ++ sample_spki ++ sample_names).
Definition sample : list Z := element_bytes 0x30 (sample_tbs ++ element_bytes 0x30 (oid OID_RSA_SHA256) ++ element_bytes 0x03 (zrep 129 0)).
Lemma sample_bytes : bytes_ok sample.
Proof.
  apply Forall_forall. intros x Hx%list_elem_of_In. assert (forallb (fun b => (0 <=? b) && (b <? 256)) sample = true) as H by (vm_compute; reflexivity). rewrite forallb_forall in H. specialize (H x Hx). unfold fits. change (2 ^ 8) with 256. lia.
Qed.

(** C39. [parse] returns for any bytes and never panics, and the certificate it
    gives is laid out as RFC 5280 says: its encoding is a [SEQUENCE] of [tbs],
    an algorithm and the signature's bits and nothing else, [tbs] one of the
    fields in their order, each a minimal DER element, so that the bytes a
    signature covers are all of the fields read. Its key, when it has one, is
    a point of P-256 or an odd RSA modulus and exponent of sizes that are
    allowed, its signature two halves of 32 bytes or an RSA block. *)
Theorem parsed_certificate_is_its_encoding d : bytes_ok d ->
  match parse d with
  | Ok (inl c) => der c = d /\ laid_out c /\ cert_good c
  | Ok (inr r) => r = Malformed \/ r = Unsupported_
  | _ => False
  end.
Proof. exact (parse_spec d). Qed.
Lemma parsed_witness : exists c, parse sample = Ok (inl c) /\ der c = sample /\ tbs c = sample_tbs /\ cert_good c.
Proof.
  pose proof (parsed_certificate_is_its_encoding sample sample_bytes) as H. destruct (parse sample) as [[c|r]|e|] eqn:E; [|vm_compute in E; discriminate E|vm_compute in E; discriminate E|vm_compute in E; discriminate E]. exists c. split; [reflexivity|]. destruct H as (Hd&_&Hg). split; [exact Hd|]. split; [|exact Hg]. vm_compute in E. injection E as <-. vm_compute. reflexivity.
Defined.

(** ** A chain that is accepted *)

(** The issuer's name and key are right for the signature over [tbs c]. *)
Definition signed (c i : Certificate) : Prop :=
  issuer c = subject i
  /\ match key i, signature c with
     | Some (KP256 k), Some (SEcdsa s) => exists x y, key_is k x y /\ ecdsa x y (be_val (sha256 (tbs c))) (be_val (ztake 32 s)) (be_val (zdrop 32 s)) = true
     | Some (KRsa k), Some (SRsa s) => exists N E, key_ok k N E /\ opens_to k N E s (pkcs1_encode (pk_len k) (sha256 (tbs c)))
     | _, _ => False
     end.
Definition issued (c i : Certificate) : Prop := ca (ext i) = true /\ signs_certificates (ext i) = true /\ signed c i.
Definition valid_at (now : Z) (c : Certificate) : Prop := not_before c <= now <= not_after c.
(** From the first of the certificates, by signatures, to a trust anchor. The
    anchor that is asked is the first that issued a certificate. *)
Inductive leads (anchors : list Certificate) (now : Z) : list Certificate -> Prop :=
| leads_anchor c rest a : valid_at now c -> a ∈ anchors -> der a = der c -> leads anchors now (c :: rest)
| leads_issued c rest before a after : valid_at now c -> anchors = before ++ a :: after -> Forall (fun b => ~ issued c b) before -> issued c a -> valid_at now a -> leads anchors now (c :: rest)
| leads_next c i rest : valid_at now c -> Forall (fun b => ~ issued c b) anchors -> issued c i -> leads anchors now (i :: rest) -> leads anchors now (c :: i :: rest).
(** RFC 6125's matching: the name itself, or one label before a base that has
    a dot. *)
Definition named (c : Certificate) (host : list Z) : Prop :=
  match parse_ip (strip_dot host) with
  | Some ip => Ip ip ∈ ext_names (ext c)
  | None => exists d, Dns d ∈ ext_names (ext c) /\ (d = map lower (strip_dot host) \/ exists label base, d = str "*." ++ base /\ 46 ∈ base /\ label <> [] /\ 46 ∉ label /\ map lower (strip_dot host) = label ++ [46] ++ base)
  end.

Lemma sha256_zlen m : zlen (sha256 m) = 32.
Proof. apply state_bytes_zlen. Qed.
Lemma sha256_ok m : bytes_ok (sha256 m).
Proof. unfold sha256, state_bytes. cbn [map concat]. rewrite !Forall_app. repeat (split; [apply be_bytes_ok|]). apply Forall_nil_2. Qed.
Lemma verifies_spec k s m : key_good k -> signature_good s -> exists ok, verifies k (sha256 m) s = Ok ok /\ (ok = true <-> match k, s with
  | KP256 k, SEcdsa s => exists x y, key_is k x y /\ ecdsa x y (be_val (sha256 m)) (be_val (ztake 32 s)) (be_val (zdrop 32 s)) = true
  | KRsa k, SRsa s => exists N E, key_ok k N E /\ opens_to k N E s (pkcs1_encode (pk_len k) (sha256 m))
  | _, _ => False end).
Proof.
  pose proof (sha256_zlen m) as Hl. pose proof (sha256_ok m) as Hb. revert Hl Hb. generalize (sha256 m). intros dg Hl Hb. destruct k as [k|k], s as [s|s]; cbn [key_good signature_good verifies]; intros Hk Hs; try (by exists false).
  - destruct Hk as (x&y&Hk&_), Hs as [Hs Hsl]. eexists. split; [by apply verify_spec|]. split; [intros H; by exists x, y|]. intros (x'&y'&Hk'&<-). pose proof (verify_spec k x y dg s Hk Hb Hl Hs Hsl) as E1. rewrite (verify_spec k x' y' dg s Hk' Hb Hl Hs Hsl) in E1. by injection E1.
  - destruct Hk as (N&E&_&Hk). destruct (verify_pkcs1_spec k N E dg s Hk Hb Hl Hs) as (ok&Ev&Hok). exists ok. split; [done|]. split; [intros H%Hok; by exists N, E|]. intros (N'&E'&Hk'&Ho). destruct (verify_pkcs1_spec k N' E' dg s Hk' Hb Hl Hs) as (ok'&Ev'&Hok'). rewrite Ev in Ev'. injection Ev' as <-. by apply Hok'.
Qed.
Lemma issued_by_spec c i : cert_good c -> cert_good i -> exists ok, issued_by c i = Ok ok /\ (ok = true <-> signed c i).
Proof.
  intros (Hb&Hl&_&Hs) (_&_&Hk&_). unfold issued_by, signed. cbv zeta. rewrite digest_spec by (assert (2 ^ 28 < 2 ^ 64) by (apply Z.pow_lt_mono_r; lia); change (2 ^ 28) with (8 * 2 ^ 25) in *; lia).
  destruct (bool_decide (issuer c = subject i)) eqn:Hn; [apply bool_decide_eq_true in Hn|apply bool_decide_eq_false in Hn; exists false; split; [done|]; split; [done|]; by intros []].
  destruct (key i) as [k|]; [|exists false; split; [done|]; split; [done|]; by intros []]. destruct (signature c) as [s|]; [|exists false; split; [done|]; split; [done|]; destruct k; by intros []].
  destruct (verifies_spec k s (tbs c) (Hk k eq_refl) (Hs s eq_refl)) as (ok&->&Hok). exists ok. split; [done|]. rewrite Hok. destruct k, s; tauto.
Qed.
Lemma issues_spec c : issues c = true <-> ca (ext c) = true /\ signs_certificates (ext c) = true.
Proof. unfold issues. apply andb_true_iff. Qed.
Lemma current_spec c now : current c now = true <-> valid_at now c.
Proof. unfold current, valid_at. rewrite andb_true_iff, !Z.leb_le. done. Qed.
(** Whether [i] issued [c]. *)
Lemma issued_check c i : cert_good c -> cert_good i -> exists ok, (if issues i then issued_by c i else Ok false) = Ok ok /\ (ok = true <-> issued c i).
Proof.
  intros Hc Hi. unfold issued. pose proof (issues_spec i) as Hs. destruct (issued_by_spec c i Hc Hi) as (ok&E&Hok). destruct (issues i); [exists ok|exists false]; (split; [done|]); naive_solver.
Qed.
Lemma issuing_spec c l : cert_good c -> Forall cert_good l -> exists o, issuing c l = Ok o /\
  match o with Some a => exists before after, l = before ++ a :: after /\ Forall (fun b => ~ issued c b) before /\ issued c a | None => Forall (fun b => ~ issued c b) l end.
Proof.
  intros Hc. induction l as [|a l IH]; intros Hl; [by exists None|]. apply Forall_cons in Hl as [Ha Hl]. cbn [issuing]. destruct (issued_check c a Hc Ha) as (ok&->&Hok). cbn [mbind outcome_bind]. destruct ok.
  - exists (Some a). split; [done|]. exists [], l. split; [done|]. split; [done|]. by apply Hok.
  - assert (~ issued c a) as Hna by (intros H%Hok; done). destruct (IH Hl) as (o&->&Ho). exists o. split; [done|]. destruct o as [b|]; [|by constructor]. destruct Ho as (pre&post&->&Hpre&Hb). exists (a :: pre), post. split; [done|]. split; [by constructor|done].
Qed.
(** The first that issued it is one place of the list. *)
Lemma first_issuer c before a after before' a' after' : before ++ a :: after = before' ++ a' :: after' -> Forall (fun b => ~ issued c b) before -> issued c a -> Forall (fun b => ~ issued c b) before' -> issued c a' -> a = a'.
Proof.
  revert before'. induction before as [|b before IH]; intros [|b' before'] E Hb Ha Hb' Ha'; cbn in E; injection E as ?; subst; [done|by apply Forall_cons in Hb' as [? _]|by apply Forall_cons in Hb as [? _]|]. apply Forall_cons in Hb as [_ Hb], Hb' as [_ Hb']. by eapply IH.
Qed.
Lemma none_issued c before a after : Forall (fun b => ~ issued c b) (before ++ a :: after) -> ~ issued c a.
Proof. intros H. apply Forall_app in H as [_ H]. by apply Forall_cons in H as [? _]. Qed.

Lemma links_spec chain anchors now : Forall cert_good chain -> Forall cert_good anchors -> exists v, links chain anchors now = Ok v /\ (v = None <-> leads anchors now chain).
Proof.
  intros Hch Han. induction chain as [|c rest IH]; [exists (Some UnknownIssuer); split; [done|]; split; [done|]; intros H; inversion H|]. apply Forall_cons in Hch as [Hc Hrest]. specialize (IH Hrest). cbn [links]. unfold link, anchored. pose proof (current_spec c now) as Hcur. destruct (current c now); cbn [negb].
  2:{ exists (Some Expired). split; [done|]. split; [done|]. intros H. inversion H; subst; exfalso; by apply diff_false_true, Hcur. }
  assert (valid_at now c) as Hv by (by apply Hcur). destruct (existsb _ anchors) eqn:Ex.
  { exists None. split; [done|]. split; [intros _|done]. apply existsb_exists in Ex as (a&Ha%list_elem_of_In&E%bool_decide_eq_true). by eapply leads_anchor. }
  assert (forall a, a ∈ anchors -> der a <> der c) as Hno. { intros a Ha%list_elem_of_In E. assert (true = false) as Hf; [|done]. rewrite <- Ex. symmetry. apply existsb_exists. exists a. split; [done|]. by apply bool_decide_eq_true. }
  destruct (issuing_spec c anchors Hc Han) as (o&->&Ho). cbn [mbind outcome_bind]. destruct o as [a|].
  { destruct Ho as (before&after&E&Hb&Ha). pose proof (current_spec a now) as Hca. cbn. eexists. split; [done|]. split.
    - destruct (current a now); [|done]. intros _. eapply leads_issued; eauto. by apply Hca.
    - intros H. inversion H as [? ? a' ? Hin Hd|? ? before' a' after' ? E' Hb' Ha' Hva|? ? ? ? Hn]; subst.
      + by destruct (Hno a' Hin).
      + rewrite <- (first_issuer c _ _ _ _ _ _ E' Hb Ha Hb' Ha') in Hva. by rewrite (proj2 Hca Hva).
      + by destruct (none_issued _ _ _ _ Hn). }
  assert (forall before a after, anchors = before ++ a :: after -> ~ issued c a) as Hnone by (intros before a after ->; by eapply none_issued). cbn [mbind outcome_bind]. destruct rest as [|n rest]; cbn [head].
  { eexists. split; [done|]. split; [done|]. intros H. inversion H; subst; naive_solver. }
  apply Forall_cons in Hrest as [Hn _]. destruct IH as (v&Ev&Hlv). pose proof (issued_check c n Hc Hn) as (ok&Eok&Hok). destruct (issues n).
  - rewrite Eok. cbn [mbind outcome_bind]. destruct ok.
    + exists v. split; [done|]. rewrite Hlv. split; [intros H; apply leads_next; [done|done|by apply Hok|done]|]. intros H. inversion H; subst; [naive_solver|naive_solver|done].
    + exists (Some (if bool_decide (issuer c = subject n) then BadSignature else UnknownIssuer)). split; [by destruct (bool_decide _)|]. split; [done|]. intros H. inversion H as [| |? ? ? ? ? Hi]; subst; [naive_solver|naive_solver|]. by apply Hok in Hi.
  - injection Eok as <-. eexists. split; [done|]. split; [done|]. intros H. inversion H as [| |? ? ? ? ? Hi]; subst; [naive_solver|naive_solver|]. by apply Hok in Hi.
Qed.

(** ** The host *)
Lemma find_char c s i : find_sub [c] s = Some i <-> exists a b, s = a ++ c :: b /\ c ∉ a /\ i = zlen a.
Proof.
  revert i. induction s as [|x s IH]; intros i; cbn [find_sub].
  - split; [done|]. intros ([|? a]&b&E&_); discriminate E.
  - assert (starts_with (x :: s) [c] = bool_decide ([x] = [c])) as -> by (unfold starts_with; by destruct s). destruct (bool_decide ([x] = [c])) eqn:Hx; [apply bool_decide_eq_true in Hx; injection Hx as ->|apply bool_decide_eq_false in Hx].
    + split; [intros [= <-]; exists [], s; split; [done|]; split; [apply not_elem_of_nil|done]|]. intros ([|y a]&b&E&Ha&->); [done|]. injection E as <- ->. destruct Ha. left.
    + assert (x <> c) as Hne by congruence. split.
      * destruct (find_sub [c] s) as [j|]; [|done]. intros [= <-]. destruct (proj1 (IH j) eq_refl) as (a&b&->&Ha&->). exists (x :: a), b. split; [done|]. rewrite zlen_cons. split; [|lia]. by apply not_elem_of_cons.
      * intros ([|y a]&b&E&Ha&->); [injection E as ->; done|]. injection E as <- ->. apply not_elem_of_cons in Ha as [_ Ha]. rewrite (proj2 (IH (zlen a))) by (by exists a, b). cbn. rewrite zlen_cons. f_equal. lia.
Qed.
Lemma split_char c s a b : split_once [c] s = Some (a, b) <-> s = a ++ c :: b /\ c ∉ a.
Proof.
  unfold split_once. split.
  - destruct (find_sub [c] s) as [i|] eqn:E; [|done]. apply find_char in E as (a'&b'&->&Ha&->). cbn [mbind option_bind]. change (zlen [c]) with 1. rewrite ztake_app by done. replace (a' ++ c :: b') with ((a' ++ [c]) ++ b') by (by rewrite <- app_assoc). rewrite zdrop_app by (by rewrite zlen_app). intros [= <- <-]. by rewrite <- app_assoc.
  - intros [-> Ha]. rewrite (proj2 (find_char c _ (zlen a))) by (by exists a, b). cbn [mbind option_bind]. change (zlen [c]) with 1. rewrite ztake_app by done. replace (a ++ c :: b) with ((a ++ [c]) ++ b) by (by rewrite <- app_assoc). by rewrite zdrop_app by (by rewrite zlen_app).
Qed.
Lemma existsb_spec {A} (f : A -> bool) (P : A -> Prop) l : (forall x, f x = true <-> P x) -> existsb f l = true <-> exists x, x ∈ l /\ P x.
Proof. intros Hf. rewrite existsb_exists. split; intros (x&Hx%list_elem_of_In&H%Hf); by exists x. Qed.
Lemma wildcard_spec host base : wildcard host base = true <-> 46 ∈ base /\ exists label, label <> [] /\ 46 ∉ label /\ host = label ++ [46] ++ base.
Proof.
  unfold wildcard, has_dot. rewrite andb_true_iff, (existsb_spec _ (fun x => 46 = x) base (fun x => Z.eqb_eq 46 x)). split.
  - intros [(x&Hx&<-) H]. split; [done|]. destruct (split_once [46] host) as [[a b]|] eqn:E; [|done]. apply split_char in E as [-> Ha]. apply andb_prop in H as [Hl%negb_true_iff%bool_decide_eq_false ->%bool_decide_eq_true]. by exists a.
  - intros [Hb (a&Hne&Ha&->)]. split; [by exists 46|]. rewrite (proj2 (split_char 46 _ a base)) by done. rewrite (bool_decide_eq_false_2 _ Hne). by apply bool_decide_eq_true.
Qed.
Lemma dns_matches_spec host d : dns_matches host d = true <-> d = host \/ exists label base, d = str "*." ++ base /\ 46 ∈ base /\ label <> [] /\ 46 ∉ label /\ host = label ++ [46] ++ base.
Proof.
  unfold dns_matches. rewrite orb_true_iff, bool_decide_eq_true. apply or_iff_compat_l. split.
  - intros H. destruct d as [|a [|b base]]; [done|by repeat case_match|]. destruct (Z.eq_dec a 42) as [->|Ha]; [|by repeat case_match]. destruct (Z.eq_dec b 46) as [->|Hb]; [|by repeat case_match]. apply wildcard_spec in H as (Hb&label&Hl). by exists label, base.
  - intros (label&base&->&H). cbn. apply wildcard_spec. naive_solver.
Qed.
Lemma names_host_spec c host : names_host c host = true <-> named c host.
Proof.
  unfold names_host, named. cbv zeta. destruct (parse_ip (strip_dot host)) as [ip|].
  - rewrite (existsb_spec _ (fun n => n = Ip ip)); [naive_solver|]. intros [d|b]; [naive_solver|]. rewrite bool_decide_eq_true. naive_solver.
  - set (h := map lower (strip_dot host)). clearbody h. rewrite (existsb_spec _ (fun n => exists d, n = Dns d /\ dns_matches h d = true)); [|intros [d|b]; naive_solver]. setoid_rewrite dns_matches_spec. naive_solver.
Qed.

Lemma verify_chain_spec chain anchors host now : Forall cert_good chain -> Forall cert_good anchors ->
  exists v, verify_chain chain anchors host now = Ok v
  /\ (v = None <-> exists leaf rest, chain = leaf :: rest /\ key leaf <> None /\ serves_tls (ext leaf) = true /\ named leaf host /\ leads anchors now chain).
Proof.
  intros Hch Han. destruct chain as [|leaf rest]; [exists (Some Malformed); split; [done|]; split; [done|]; by intros (?&?&?&_)|]. unfold verify_chain.
  assert (forall r P, (P -> False) -> Some r = @None Rejected <-> P) as Hrej by (intros r P HP; split; [done|]; by intros ?%HP). destruct (key leaf) as [k|] eqn:Hk; cbn [orb]; [|eexists; split; [done|]; apply Hrej; intros (?&?&[= <- <-]&?&_); congruence].
  destruct (serves_tls (ext leaf)) eqn:Hs; cbn [negb]; [|eexists; split; [done|]; apply Hrej; intros (?&?&[= <- <-]&_&?&_); congruence]. pose proof (names_host_spec leaf host) as Hn. destruct (names_host leaf host); cbn [negb]; [|eexists; split; [done|]; apply Hrej; intros (?&?&[= <- <-]&_&_&?%Hn&_); congruence].
  destruct (links_spec (leaf :: rest) anchors now Hch Han) as (v&Ev&Hv). exists v. split; [done|]. rewrite Hv. split; [|by intros (?&?&_&_&_&_&?)]. intros H. exists leaf, rest. split; [done|]. split; [congruence|]. split; [done|]. split; [by apply Hn|done].
Qed.
(** C8. The check of a server's chain returns for certificates that parse, and
    accepts exactly those whose first certificate has a key, is for TLS
    servers and names the host (an address against addresses, a name against
    names, [*.] standing for one label before a base with a dot), and that
    lead to a trust anchor: every certificate on the way is valid now and is
    signed, over the SHA-256 of its [tbs], by the key of a CA that may sign
    certificates and is its issuer by name, the last being an anchor or issued
    by one that is valid now. *)
Theorem accepted_chain_leads_to_an_anchor chain anchors host now : Forall cert_good chain -> Forall cert_good anchors ->
  exists v, verify_chain chain anchors host now = Ok v
  /\ (v = None <-> exists leaf rest, chain = leaf :: rest /\ key leaf <> None /\ serves_tls (ext leaf) = true /\ named leaf host /\ leads anchors now chain).
Proof. apply verify_chain_spec. Qed.
(** The sample as its own anchor, in 2027: by the theorem it leads to one. *)
Lemma chain_witness : exists c, parse sample = Ok (inl c) /\ verify_chain [c] [c] (str "api.example.com") 1798761600 = Ok None /\ leads [c] 1798761600 [c] /\ named c (str "api.example.com").
Proof.
  pose proof (parse_spec sample sample_bytes) as H. destruct (parse sample) as [[c|r]|e|] eqn:E; [|vm_compute in E; discriminate E|vm_compute in E; discriminate E|vm_compute in E; discriminate E]. exists c. destruct H as (_&_&Hg).
  destruct (accepted_chain_leads_to_an_anchor [c] [c] (str "api.example.com") 1798761600 ltac:(by constructor) ltac:(by constructor)) as (v&Ev&Hv). assert (verify_chain [c] [c] (str "api.example.com") 1798761600 = Ok None) as Ec by (vm_compute in E; injection E as <-; vm_compute; reflexivity).
  split; [reflexivity|]. split; [exact Ec|]. rewrite Ec in Ev. injection Ev as <-. destruct (proj1 Hv eq_refl) as (leaf&rest&[= <- <-]&_&_&Hn&Hl). split; [exact Hl|exact Hn].
Defined.
