(* ===== verification/Gcm.v ===== *)
(** * AES-128-GCM ([net/aes_gcm.rs])

    The cipher, with the instructions it is written in: a [__m128i] is an [N]
    below [2 ^ 128], its first byte in memory the lowest. AES-NI, PCLMULQDQ and
    SSE are what Intel's manual says of each instruction, over FIPS 197's
    steps. A pointer into a buffer is the bytes it may reach. *)
From S2P Require Import Prelude Bytes Sha X25519.

(** ** FIPS 197's steps, on the 16 bytes of a state, column by column *)
Definition SBOX : list Z := [
  0x63; 0x7c; 0x77; 0x7b; 0xf2; 0x6b; 0x6f; 0xc5; 0x30; 0x01; 0x67; 0x2b; 0xfe; 0xd7; 0xab; 0x76;
  0xca; 0x82; 0xc9; 0x7d; 0xfa; 0x59; 0x47; 0xf0; 0xad; 0xd4; 0xa2; 0xaf; 0x9c; 0xa4; 0x72; 0xc0;
  0xb7; 0xfd; 0x93; 0x26; 0x36; 0x3f; 0xf7; 0xcc; 0x34; 0xa5; 0xe5; 0xf1; 0x71; 0xd8; 0x31; 0x15;
  0x04; 0xc7; 0x23; 0xc3; 0x18; 0x96; 0x05; 0x9a; 0x07; 0x12; 0x80; 0xe2; 0xeb; 0x27; 0xb2; 0x75;
  0x09; 0x83; 0x2c; 0x1a; 0x1b; 0x6e; 0x5a; 0xa0; 0x52; 0x3b; 0xd6; 0xb3; 0x29; 0xe3; 0x2f; 0x84;
  0x53; 0xd1; 0x00; 0xed; 0x20; 0xfc; 0xb1; 0x5b; 0x6a; 0xcb; 0xbe; 0x39; 0x4a; 0x4c; 0x58; 0xcf;
  0xd0; 0xef; 0xaa; 0xfb; 0x43; 0x4d; 0x33; 0x85; 0x45; 0xf9; 0x02; 0x7f; 0x50; 0x3c; 0x9f; 0xa8;
  0x51; 0xa3; 0x40; 0x8f; 0x92; 0x9d; 0x38; 0xf5; 0xbc; 0xb6; 0xda; 0x21; 0x10; 0xff; 0xf3; 0xd2;
  0xcd; 0x0c; 0x13; 0xec; 0x5f; 0x97; 0x44; 0x17; 0xc4; 0xa7; 0x7e; 0x3d; 0x64; 0x5d; 0x19; 0x73;
  0x60; 0x81; 0x4f; 0xdc; 0x22; 0x2a; 0x90; 0x88; 0x46; 0xee; 0xb8; 0x14; 0xde; 0x5e; 0x0b; 0xdb;
  0xe0; 0x32; 0x3a; 0x0a; 0x49; 0x06; 0x24; 0x5c; 0xc2; 0xd3; 0xac; 0x62; 0x91; 0x95; 0xe4; 0x79;
  0xe7; 0xc8; 0x37; 0x6d; 0x8d; 0xd5; 0x4e; 0xa9; 0x6c; 0x56; 0xf4; 0xea; 0x65; 0x7a; 0xae; 0x08;
  0xba; 0x78; 0x25; 0x2e; 0x1c; 0xa6; 0xb4; 0xc6; 0xe8; 0xdd; 0x74; 0x1f; 0x4b; 0xbd; 0x8b; 0x8a;
  0x70; 0x3e; 0xb5; 0x66; 0x48; 0x03; 0xf6; 0x0e; 0x61; 0x35; 0x57; 0xb9; 0x86; 0xc1; 0x1d; 0x9e;
  0xe1; 0xf8; 0x98; 0x11; 0x69; 0xd9; 0x8e; 0x94; 0x9b; 0x1e; 0x87; 0xe9; 0xce; 0x55; 0x28; 0xdf;
  0x8c; 0xa1; 0x89; 0x0d; 0xbf; 0xe6; 0x42; 0x68; 0x41; 0x99; 0x2d; 0x0f; 0xb0; 0x54; 0xbb; 0x16].
Definition sub_byte (b : Z) : Z := default 0 (zget SBOX b).
Definition byte_at (s : list Z) (i : Z) : Z := default 0 (zget s i).
Definition shift_rows (s : list Z) : list Z := map (fun i => byte_at s (i mod 4 + 4 * ((i / 4 + i mod 4) mod 4))) (seqZ 0 16).
Definition xtime (b : Z) : Z := Z.lxor (wrap 8 (2 * b)) (if 0x80 <=? b then 0x1b else 0).
Definition mix_byte (a b c d : Z) : Z := Z.lxor (Z.lxor (xtime a) (Z.lxor (xtime b) b)) (Z.lxor c d).
Definition mix_columns (s : list Z) : list Z :=
  map (fun i => let at_ k := byte_at s (4 * (i / 4) + (i + k) mod 4) in mix_byte (at_ 0) (at_ 1) (at_ 2) (at_ 3)) (seqZ 0 16).

(** ** Instructions *)
Notation m128 := N.
Definition load (b : list Z) : m128 := Z.to_N (le_val b).
Definition store (x : m128) : list Z := le_bytes 16 (Z.of_N x).
Definition mm_slli_si128 (k : N) (x : m128) : m128 := N.land (N.shiftl x (8 * k)) (N.ones 128).
Definition mm_srli_si128 (k : N) (x : m128) : m128 := N.shiftr x (8 * k).
Definition lane (i : N) (x : m128) : N := N.land (N.shiftr x (32 * i)) (N.ones 32).
Definition lanes (a b c d : N) : m128 := N.lor (N.lor a (N.shiftl b 32)) (N.lor (N.shiftl c 64) (N.shiftl d 96)).
Definition per_lane (f : N -> N) (x : m128) : m128 := lanes (f (lane 0 x)) (f (lane 1 x)) (f (lane 2 x)) (f (lane 3 x)).
Definition mm_slli_epi32 (k : N) : m128 -> m128 := per_lane (fun l => N.land (N.shiftl l k) (N.ones 32)).
Definition mm_srli_epi32 (k : N) : m128 -> m128 := per_lane (fun l => N.shiftr l k).
Definition mm_shuffle_epi32_ff (x : m128) : m128 := let d := lane 3 x in lanes d d d d.
Definition mm_insert_epi32_3 (x : m128) (v : N) : m128 := lanes (lane 0 x) (lane 1 x) (lane 2 x) v.
(** [_mm_shuffle_epi8] by a list of places, none with its high bit set. *)
Definition mm_shuffle_epi8 (x : m128) (places : list Z) : m128 := load (map (byte_at (store x)) places).
Definition mm_aesenc (x k : m128) : m128 := N.lxor (load (mix_columns (map sub_byte (shift_rows (store x))))) k.
Definition mm_aesenclast (x k : m128) : m128 := N.lxor (load (map sub_byte (shift_rows (store x)))) k.
Definition sub_word (w : N) : N := Z.to_N (le_val (map sub_byte (le_bytes 4 (Z.of_N w)))).
Definition rot_word (w : N) : N := N.lor (N.shiftr w 8) (N.land (N.shiftl w 24) (N.ones 32)).
Definition mm_aeskeygenassist (rcon : N) (x : m128) : m128 :=
  let one := sub_word (lane 1 x) in let three := sub_word (lane 3 x) in
  lanes one (N.lxor (rot_word one) rcon) three (N.lxor (rot_word three) rcon).
(** The product of polynomials over the field of two elements. *)
Fixpoint pmul_pos (a : N) (b : positive) : N :=
  match b with xH => a | xO b => N.double (pmul_pos a b) | xI b => N.lxor a (N.double (pmul_pos a b)) end.
Definition pmul (a b : N) : N := match b with N0 => 0%N | Npos b => pmul_pos a b end.
Definition quad (high : bool) (x : m128) : N := if high then N.shiftr x 64 else N.land x (N.ones 64).
Definition mm_clmulepi64 (high_b high_a : bool) (a b : m128) : m128 := pmul (quad high_a a) (quad high_b b).

(** ** The cipher *)
Definition TAG : Z := 16.
Definition MAX_MESSAGE : Z := 2 ^ 36 - 32.
Record Gcm := mkGcm { round_keys : list m128; h_powers : list m128 }.
Definition schedule (k assist : m128) : m128 :=
  let k := N.lxor k (mm_slli_si128 4 k) in let k := N.lxor k (mm_slli_si128 4 k) in let k := N.lxor k (mm_slli_si128 4 k) in
  N.lxor k (mm_shuffle_epi32_ff assist).
Definition encrypt (rk : list m128) (block : m128) : m128 :=
  match rk with
  | first :: rk => mm_aesenclast (fold_left mm_aesenc (ztake 9 rk) (N.lxor block first)) (default 0%N (last rk))
  | [] => block
  end.
Definition reverse (x : m128) : m128 := mm_shuffle_epi8 x (rev (seqZ 0 16)).
Notation m128x3 := (m128 * m128 * m128)%type.
Definition product (a b : m128) : m128x3 :=
  (mm_clmulepi64 false false a b, N.lxor (mm_clmulepi64 true false a b) (mm_clmulepi64 false true a b), mm_clmulepi64 true true a b).
Definition reduce (x : m128x3) : m128 :=
  let '(lo, mid, hi) := x in
  let lo := N.lxor lo (mm_slli_si128 8 mid) in
  let hi := N.lxor hi (mm_srli_si128 8 mid) in
  let lo_carry := mm_srli_epi32 31 lo in
  let hi_carry := mm_srli_epi32 31 hi in
  let lo := N.lor (mm_slli_epi32 1 lo) (mm_slli_si128 4 lo_carry) in
  let hi := N.lor (N.lor (mm_slli_epi32 1 hi) (mm_slli_si128 4 hi_carry)) (mm_srli_si128 12 lo_carry) in
  let fold := N.lxor (N.lxor (mm_slli_epi32 31 lo) (mm_slli_epi32 30 lo)) (mm_slli_epi32 25 lo) in
  let lo := N.lxor lo (mm_slli_si128 12 fold) in
  let back := N.lxor (N.lxor (mm_srli_epi32 1 lo) (mm_srli_epi32 2 lo)) (mm_srli_epi32 7 lo) in
  N.lxor hi (N.lxor lo (N.lxor back (mm_srli_si128 4 fold))).
Definition multiply (a b : m128) : m128 := reduce (product a b).
Definition xor3 (a b : m128x3) : m128x3 := let '(a0, a1, a2) := a in let '(b0, b1, b2) := b in (N.lxor a0 b0, N.lxor a1 b1, N.lxor a2 b2).
Definition RCON : list N := [0x01; 0x02; 0x04; 0x08; 0x10; 0x20; 0x40; 0x80; 0x1b; 0x36]%N.
Fixpoint expand_rounds (rcons : list N) (k : m128) : list m128 :=
  match rcons with [] => [] | r :: rcons => let k := schedule k (mm_aeskeygenassist r k) in k :: expand_rounds rcons k end.
Fixpoint powers (n : nat) (x h : m128) : list m128 := match n with O => [] | S n => let x := multiply x h in x :: powers n x h end.
Definition expand (key : list Z) : Gcm :=
  let first := load key in
  let rk := first :: expand_rounds RCON first in
  let h := reverse (encrypt rk 0) in
  mkGcm rk (h :: powers 7 h h).
(** [supported]: whether the CPU has the instructions. *)
Definition gcm_new (supported : bool) (key : list Z) : computes Gcm := if supported then Ok (expand key) else Panic.

(** ** A message in flight *)
Record Stream := mkStream { nonce : m128; counter : Z; hash : m128; keystream : list Z; cipher : list Z; used : Z }.
Definition set_hash (s : Stream) (h : m128) : Stream := mkStream (nonce s) (counter s) h (keystream s) (cipher s) (used s).
Section Gcm.
Context (g : Gcm).
Definition h_power (i : Z) : computes m128 := or_panic (zget (h_powers g) i).
Definition absorb (s : Stream) (c : m128) : computes Stream := h ← h_power 0; Ok (set_hash s (multiply (N.lxor (hash s) (reverse c)) h)).
Definition block_of (nonce : m128) (counter : Z) : m128 := mm_insert_epi32_3 nonce (Z.to_N (le_val (be_bytes 4 counter))).
Definition counter_block (s : Stream) : m128 * Stream :=
  let c := wrap 32 (counter s + 1) in (block_of (nonce s) c, mkStream (nonce s) c (hash s) (keystream s) (cipher s) (used s)).
(** A block of at most 16 bytes, completed with zeros. *)
Definition padded_block (chunk : list Z) : list Z := chunk ++ zrep (16 - zlen chunk) 0.
Fixpoint absorb_chunks (fuel : nat) (s : Stream) (aad : list Z) : computes Stream :=
  match fuel, aad with
  | _, [] => Ok s
  | O, _ => Ok s
  | S fuel, _ => s ← absorb s (load (padded_block (ztake 16 aad))); absorb_chunks fuel s (zdrop 16 aad)
  end.
(** Each chunk takes bytes. *)
Definition begin_ (nonce aad : list Z) : computes Stream :=
  absorb_chunks (length aad) (mkStream (load (padded_block nonce)) 1 0 (zrep 16 0) (zrep 16 0) 16) aad.
(** The bytes left of a keystream block; what was written, and what is left of
    the source. *)
Fixpoint bytes (s : Stream) (src : list Z) (decrypt : bool) : computes (list Z * list Z * Stream) :=
  match src with
  | [] => Ok ([], [], s)
  | input :: src' =>
      if used s <? 16 then
        k ← or_panic (zget (keystream s) (used s));
        let output := Z.lxor input k in
        _ ← or_panic (zget (cipher s) (used s));
        let s := mkStream (nonce s) (counter s) (hash s) (keystream s) (<[Z.to_nat (used s) := if decrypt then input else output]> (cipher s)) (used s + 1) in
        s ← (if used s =? 16 then absorb s (load (cipher s)) else Ok s);
        '(dst, rest, s) ← bytes s src' decrypt; Ok (output :: dst, rest, s)
      else Ok ([], src, s)
  end.
Fixpoint counter_blocks (n : nat) (s : Stream) : list m128 * Stream :=
  match n with O => ([], s) | S n => let '(b, s) := counter_block s in let '(l, s) := counter_blocks n s in (b :: l, s) end.
(** The blocks [b] after their middle rounds, the [j]-th first: output, and the
    sum of the products. *)
Fixpoint eight_from (b : list m128) (j : Z) (src : list Z) (decrypt : bool) (hash : m128) (sum : m128x3) : computes (list Z * m128x3) :=
  match b with
  | [] => Ok ([], sum)
  | x :: b =>
      let input := load (ztake 16 src) in
      let output := N.lxor (mm_aesenclast x (default 0%N (last (round_keys g)))) input in
      let c := reverse (if decrypt then input else output) in
      let c := if j =? 0 then N.lxor c hash else c in
      h ← h_power (7 - j);
      '(dst, sum) ← eight_from b (j + 1) (zdrop 16 src) decrypt hash (xor3 sum (product c h));
      Ok (store output ++ dst, sum)
  end.
Definition eight (s : Stream) (src : list Z) (decrypt : bool) : computes (list Z * Stream) :=
  let '(b, s) := counter_blocks 8 s in
  let b := map (fun x => N.lxor x (default 0%N (head (round_keys g)))) b in
  let b := fold_left (fun b k => map (fun x => mm_aesenc x k) b) (ztake 9 (tail (round_keys g))) b in
  '(dst, sum) ← eight_from b 0 src decrypt (hash s) (0%N, 0%N, 0%N);
  Ok (dst, set_hash s (reduce sum)).
Fixpoint eights (fuel : nat) (s : Stream) (src : list Z) (decrypt : bool) : computes (list Z * list Z * Stream) :=
  match fuel with
  | O => Ok ([], src, s)
  | S fuel =>
      if 128 <=? zlen src then
        '(d, s) ← eight s (ztake 128 src) decrypt; '(dst, rest, s) ← eights fuel s (zdrop 128 src) decrypt; Ok (d ++ dst, rest, s)
      else Ok ([], src, s)
  end.
Fixpoint ones (fuel : nat) (s : Stream) (src : list Z) (decrypt : bool) : computes (list Z * list Z * Stream) :=
  match fuel with
  | O => Ok ([], src, s)
  | S fuel =>
      if 16 <=? zlen src then
        let input := load (ztake 16 src) in
        let '(b, s) := counter_block s in
        let output := N.lxor (encrypt (round_keys g) b) input in
        s ← absorb s (if decrypt then input else output);
        '(dst, rest, s) ← ones fuel s (zdrop 16 src) decrypt; Ok (store output ++ dst, rest, s)
      else Ok ([], src, s)
  end.
(** Each turn of a loop takes bytes. *)
Definition apply (s : Stream) (src : list Z) (decrypt : bool) : computes (list Z * Stream) :=
  '(d1, src, s) ← bytes s src decrypt;
  '(d2, src, s) ← eights (length src) s src decrypt;
  '(d3, src, s) ← ones (length src) s src decrypt;
  match src with
  | [] => Ok (d1 ++ d2 ++ d3, s)
  | _ =>
      let '(b, s) := counter_block s in
      let s := mkStream (nonce s) (counter s) (hash s) (store (encrypt (round_keys g) b)) (cipher s) 0 in
      '(d4, _, s) ← bytes s src decrypt; Ok (d1 ++ d2 ++ d3 ++ d4, s)
  end.
Definition finish (s : Stream) (aad_len len : Z) : computes (list Z) :=
  s ← (if used s <? 16 then absorb s (load (ztake (used s) (cipher s) ++ zrep (16 - used s) 0)) else Ok s);
  a ← fit 64 (aad_len * 8); l ← fit 64 (len * 8);
  s ← absorb s (load (be_bytes 8 a ++ be_bytes 8 l));
  Ok (store (N.lxor (reverse (hash s)) (encrypt (round_keys g) (block_of (nonce s) 1)))).
Fixpoint apply_parts (s : Stream) (parts : list (list Z)) : computes (list Z * Stream) :=
  match parts with
  | [] => Ok ([], s)
  | p :: parts => '(d, s) ← apply s p false; '(dst, s) ← apply_parts s parts; Ok (d ++ dst, s)
  end.
Definition seal (nonce aad : list Z) (parts : list (list Z)) (out : list Z) : computes (list Z) :=
  let len := zlen (concat parts) in
  if MAX_MESSAGE <? len then Panic else
  s ← begin_ nonce aad; '(dst, s) ← apply_parts s parts; tag ← finish s (zlen aad) len; Ok (out ++ dst ++ tag).
Definition open (nonce aad sealed out : list Z) : computes (bool * list Z) :=
  let len := zlen sealed - TAG in
  if (len <? 0) || (MAX_MESSAGE <? len) then Ok (false, out) else
  s ← begin_ nonce aad; '(dst, s) ← apply s (ztake len sealed) true; tag ← finish s (zlen aad) len;
  if ct_eq tag (zdrop len sealed) then Ok (true, out ++ dst) else Ok (false, out).
End Gcm.
