(* ===== verification/Gf128.v ===== *)
(** * GHASH's field ([net/aes_gcm.rs], [product], [reduce], [multiply])

    Polynomials over the field of two elements as binary numbers; the carry-less
    products and the shifts of [reduce] are the multiplication of the standard
    modulo [x^128 + x^7 + x^2 + x + 1], in its order of bits. *)
From Stdlib Require Import Ring Btauto.
From S2P Require Import Prelude Bytes Sha X25519 Gcm.
Local Open Scope N_scope.

(** ** The ring of polynomials *)
Lemma double_lxor a b : N.double (N.lxor a b) = N.lxor (N.double a) (N.double b).
Proof. rewrite !N.double_spec, <- !(N.mul_comm _ 2). change 2 with (2 ^ 1). rewrite <- !N.shiftl_mul_pow2. apply N.shiftl_lxor. Qed.
Lemma succ_double_lxor n : N.succ_double n = N.lxor 1 (N.double n).
Proof. by destruct n. Qed.
Lemma pmul_double_r a b : pmul a (N.double b) = N.double (pmul a b).
Proof. by destruct b. Qed.
Lemma pmul_succ_double_r a b : pmul a (N.succ_double b) = N.lxor a (N.double (pmul a b)).
Proof. destruct b; cbn; [by rewrite N.lxor_0_r|done]. Qed.
Lemma pmul_0_l b : pmul 0 b = 0.
Proof. destruct b as [|b]; [done|]. cbn. induction b as [b IH|b IH|]; cbn; by rewrite ?IH. Qed.
Lemma pmul_1_l b : pmul 1 b = b.
Proof. induction b as [|b IH|b IH] using N.binary_ind; [done|by rewrite pmul_double_r, IH|]. by rewrite pmul_succ_double_r, IH, succ_double_lxor. Qed.
(** Sums of sums. *)
Lemma lxor_swap a b c d : N.lxor (N.lxor a b) (N.lxor c d) = N.lxor (N.lxor a c) (N.lxor b d).
Proof. rewrite !N.lxor_assoc. f_equal. rewrite <- !N.lxor_assoc. f_equal. apply N.lxor_comm. Qed.
Lemma pmul_lxor_l a b c : pmul (N.lxor a b) c = N.lxor (pmul a c) (pmul b c).
Proof.
  induction c as [|c IH|c IH] using N.binary_ind; [done|by rewrite !pmul_double_r, IH, double_lxor|]. rewrite !pmul_succ_double_r, IH, double_lxor. apply lxor_swap.
Qed.
Lemma pmul_double_l a b : pmul (N.double a) b = N.double (pmul a b).
Proof. induction b as [|b IH|b IH] using N.binary_ind; [done|by rewrite !pmul_double_r, IH|]. by rewrite !pmul_succ_double_r, IH, double_lxor. Qed.
Lemma pmul_comm a b : pmul a b = pmul b a.
Proof.
  induction a as [|a IH|a IH] using N.binary_ind; [apply pmul_0_l|by rewrite pmul_double_l, pmul_double_r, IH|]. by rewrite pmul_succ_double_r, succ_double_lxor, pmul_lxor_l, pmul_1_l, pmul_double_l, IH.
Qed.
Lemma pmul_lxor_r a b c : pmul a (N.lxor b c) = N.lxor (pmul a b) (pmul a c).
Proof. by rewrite pmul_comm, pmul_lxor_l, !(pmul_comm _ a). Qed.
Lemma pmul_assoc a b c : pmul a (pmul b c) = pmul (pmul a b) c.
Proof.
  induction c as [|c IH|c IH] using N.binary_ind; [done|by rewrite !pmul_double_r, <- IH|]. rewrite !pmul_succ_double_r, pmul_lxor_r, pmul_double_r. by rewrite IH.
Qed.
Lemma poly_ring : ring_theory 0 1 N.lxor pmul N.lxor (fun x => x) eq.
Proof.
  constructor; intros.
  - apply N.lxor_0_l.
  - apply N.lxor_comm.
  - symmetry. apply N.lxor_assoc.
  - apply pmul_1_l.
  - apply pmul_comm.
  - apply pmul_assoc.
  - apply pmul_lxor_l.
  - done.
  - apply N.lxor_nilpotent.
Qed.
Add Ring poly : poly_ring.
Lemma pmul_shift a n : pmul a (2 ^ n) = N.shiftl a n.
Proof. induction n as [|n IH] using N.peano_ind; [by rewrite N.shiftl_0_r|]. rewrite N.pow_succ_r', <- N.double_spec, pmul_double_r, IH, N.double_spec, !N.shiftl_mul_pow2, N.pow_succ_r'. lia. Qed.
Lemma double_shift a : N.double a = pmul a 2.
Proof. change 2 with (N.double 1). rewrite pmul_double_r, pmul_comm, pmul_1_l. done. Qed.

(** ** The modulus, in the order of bits of the standard *)
Definition G : N := 2 ^ 128 + 2 ^ 127 + 2 ^ 126 + 2 ^ 121 + 1.
Definition m128_ok (x : N) : Prop := x < 2 ^ 128.
Lemma pmul_G q : pmul q G = N.lxor q (N.lxor (N.shiftl q 121) (N.lxor (N.shiftl q 126) (N.lxor (N.shiftl q 127) (N.shiftl q 128)))).
Proof.
  replace G with (N.lxor (2 ^ 0) (N.lxor (2 ^ 121) (N.lxor (2 ^ 126) (N.lxor (2 ^ 127) (2 ^ 128))))) by (vm_compute; reflexivity). rewrite !pmul_lxor_r, !pmul_shift. by rewrite N.shiftl_0_r.
Qed.

(** ** Bits of the instructions *)
Lemma shl_bit a n i : N.testbit (N.shiftl a n) i = (n <=? i) && N.testbit a (i - n).
Proof. destruct (N.leb_spec n i); [by apply N.shiftl_spec_high'|by apply N.shiftl_spec_low]. Qed.
Lemma low_bit x n i : N.testbit (N.land x (N.ones n)) i = (i <? n) && N.testbit x i.
Proof. rewrite N.land_spec. destruct (N.ltb_spec i n); [rewrite N.ones_spec_low by done|rewrite N.ones_spec_high by done]; btauto. Qed.
Lemma slli_bit k x i : N.testbit (mm_slli_si128 k x) i = (i <? 128) && ((8 * k <=? i) && N.testbit x (i - 8 * k)).
Proof. unfold mm_slli_si128. by rewrite low_bit, shl_bit. Qed.
Lemma srli_bit k x i : N.testbit (mm_srli_si128 k x) i = N.testbit x (i + 8 * k).
Proof. apply N.shiftr_spec'. Qed.
Lemma lane_bit j x i : N.testbit (lane j x) i = (i <? 32) && N.testbit x (i + 32 * j).
Proof. unfold lane. by rewrite low_bit, N.shiftr_spec'. Qed.
Lemma lanes_bit a b c d i : N.testbit (lanes a b c d) i = (N.testbit a i || (32 <=? i) && N.testbit b (i - 32)) || ((64 <=? i) && N.testbit c (i - 64) || (96 <=? i) && N.testbit d (i - 96)).
Proof. unfold lanes. by rewrite !N.lor_spec, !shl_bit. Qed.
Lemma slli32_bit k x i : N.testbit (mm_slli_epi32 k x) i =
  let f j i := (i <? 32) && ((k <=? i) && ((i - k <? 32) && N.testbit x (i - k + 32 * j))) in (f 0 i || (32 <=? i) && f 1 (i - 32)) || ((64 <=? i) && f 2 (i - 64) || (96 <=? i) && f 3 (i - 96)).
Proof. unfold mm_slli_epi32, per_lane. by rewrite lanes_bit, !low_bit, !shl_bit, !lane_bit. Qed.
Lemma srli32_bit k x i : N.testbit (mm_srli_epi32 k x) i =
  let f j i := (i + k <? 32) && N.testbit x (i + k + 32 * j) in (f 0 i || (32 <=? i) && f 1 (i - 32)) || ((64 <=? i) && f 2 (i - 64) || (96 <=? i) && f 3 (i - 96)).
Proof. unfold mm_srli_epi32, per_lane. by rewrite lanes_bit, !N.shiftr_spec', !lane_bit. Qed.
Lemma high_bit x i : m128_ok x -> 128 <= i -> N.testbit x i = false.
Proof. intros Hx Hi. destruct (N.eq_dec x 0) as [->|Hn]; [apply N.bits_0|]. apply N.bits_above_log2. assert (N.log2 x < 128); [|lia]. apply N.log2_lt_pow2; [lia|done]. Qed.
(** The places of 128 bits, one after the other. *)
Definition places : list N := map N.of_nat (seq 0 128).
Lemma bits_128 a b : (forall i, 128 <= i -> N.testbit a i = N.testbit b i) -> Forall (fun i => N.testbit a i = N.testbit b i) places -> a = b.
Proof.
  intros Hh Hl. apply N.bits_inj. intros i. destruct (N.lt_ge_cases i 128) as [Hi|Hi]; [|by apply Hh]. rewrite Forall_forall in Hl. apply Hl. unfold places. apply list_elem_of_In, in_map_iff. exists (N.to_nat i). split; [lia|]. apply in_seq. lia.
Qed.
Create HintDb bits128.
#[export] Hint Rewrite N.lxor_spec N.lor_spec low_bit shl_bit slli_bit srli_bit slli32_bit srli32_bit N.shiftr_spec' : bits128.
(** Shows an equation of bits place by place. *)
Ltac at_each_place :=
  match goal with |- Forall _ ?l => let l' := eval vm_compute in l in change l with l' end;
  repeat (apply Forall_cons_2; [repeat (progress (autorewrite with bits128; cbv -[N.testbit N.ones xorb mm_slli_si128 mm_srli_si128 mm_slli_epi32 mm_srli_epi32 N.lxor N.lor N.land N.shiftl N.shiftr])); try reflexivity; btauto|]); apply Forall_nil_2.
(** Sizes. *)
Lemma ok_bits x : m128_ok x <-> forall i, 128 <= i -> N.testbit x i = false.
Proof.
  split; [intros Hx i; by apply high_bit|]. intros H. unfold m128_ok. destruct (N.lt_ge_cases x (2 ^ 128)) as [|Hx]; [done|]. exfalso. assert (128 <= N.log2 x) as Hl by (apply N.log2_le_pow2; [lia|done]). specialize (H _ Hl). rewrite N.bit_log2 in H; [done|]. lia.
Qed.
Lemma ok_lxor a b : m128_ok a -> m128_ok b -> m128_ok (N.lxor a b).
Proof. rewrite !ok_bits. intros Ha Hb i Hi. by rewrite N.lxor_spec, Ha, Hb. Qed.
Lemma ok_lor a b : m128_ok a -> m128_ok b -> m128_ok (N.lor a b).
Proof. rewrite !ok_bits. intros Ha Hb i Hi. by rewrite N.lor_spec, Ha, Hb. Qed.
Lemma ok_low x : m128_ok (N.land x (N.ones 128)).
Proof. apply ok_bits. intros i Hi. rewrite low_bit. by destruct (N.ltb_spec i 128); [lia|]. Qed.
Lemma ok_slli k x : m128_ok (mm_slli_si128 k x).
Proof. apply ok_low. Qed.
Lemma ok_shiftr k x : m128_ok x -> m128_ok (N.shiftr x k).
Proof. rewrite !ok_bits. intros Hx i Hi. rewrite N.shiftr_spec'. apply Hx. lia. Qed.
Lemma ok_srli k x : m128_ok x -> m128_ok (mm_srli_si128 k x).
Proof. apply ok_shiftr. Qed.
Lemma ok_slli32 k x : m128_ok (mm_slli_epi32 k x).
Proof. apply ok_bits. intros i Hi. rewrite slli32_bit. cbv beta zeta. destruct (N.ltb_spec i 32), (N.ltb_spec (i - 32) 32), (N.ltb_spec (i - 64) 32), (N.ltb_spec (i - 96) 32); try lia; cbn [andb]; by rewrite !andb_false_r. Qed.
Lemma ok_srli32 k x : m128_ok (mm_srli_epi32 k x).
Proof. apply ok_bits. intros i Hi. rewrite srli32_bit. cbv beta zeta. destruct (N.ltb_spec (i + k) 32), (N.ltb_spec (i - 32 + k) 32), (N.ltb_spec (i - 64 + k) 32), (N.ltb_spec (i - 96 + k) 32); try lia; cbn [andb]; by rewrite !andb_false_r. Qed.
Create HintDb m128.
#[export] Hint Resolve ok_lxor ok_lor ok_low ok_slli ok_shiftr ok_srli ok_slli32 ok_srli32 : m128.
Lemma eq_128 a b : m128_ok a -> m128_ok b -> Forall (fun i => N.testbit a i = N.testbit b i) places -> a = b.
Proof. rewrite !ok_bits. intros Ha Hb H. apply bits_128; [|done]. intros i Hi. by rewrite Ha, Hb. Qed.

(** ** [reduce] *)
Lemma shift_one x : N.lor (mm_slli_epi32 1 x) (mm_slli_si128 4 (mm_srli_epi32 31 x)) = N.land (N.shiftl x 1) (N.ones 128).
Proof. apply eq_128; [auto with m128|auto with m128|]. at_each_place. Qed.
Lemma carried_bit x : m128_ok x -> mm_srli_si128 12 (mm_srli_epi32 31 x) = N.shiftr x 127.
Proof.
  intros Hx. assert (N.shiftr x 127 = N.land (N.shiftr x 127) 1) as ->.
  { apply N.bits_inj. intros i. change 1 with (N.ones 1). rewrite low_bit, N.shiftr_spec'. destruct (N.ltb_spec i 1); [done|]. apply high_bit; [done|lia]. }
  apply eq_128; [auto with m128|apply (ok_bits (N.land _ 1)); intros i Hi; change 1 with (N.ones 1); rewrite low_bit; by destruct (N.ltb_spec i 1); [lia|]|]. change 1 with (N.ones 1). at_each_place.
Qed.
(** The words of the product, doubled. *)
Lemma doubled_high lo hi : m128_ok lo -> N.lor (N.lor (mm_slli_epi32 1 hi) (mm_slli_si128 4 (mm_srli_epi32 31 hi))) (mm_srli_si128 12 (mm_srli_epi32 31 lo)) = N.lxor (N.land (N.shiftl hi 1) (N.ones 128)) (N.shiftr lo 127).
Proof.
  intros Hlo. rewrite shift_one, (carried_bit lo Hlo). symmetry. apply N.lxor_lor. apply N.bits_inj_0. intros i. rewrite N.land_spec, low_bit, shl_bit, N.shiftr_spec'. destruct (N.leb_spec 1 i); [|btauto]. rewrite (high_bit lo) by (done || lia). btauto.
Qed.
Definition folded (lo : m128) : m128 := N.lxor (N.lxor (mm_slli_epi32 31 lo) (mm_slli_epi32 30 lo)) (mm_slli_epi32 25 lo).
Definition quotient (lo : m128) : m128 := N.lxor lo (mm_slli_si128 12 (folded lo)).
Lemma folded_shift lo : mm_slli_si128 12 (folded lo) = N.land (N.lxor (N.lxor (N.shiftl lo 127) (N.shiftl lo 126)) (N.shiftl lo 121)) (N.ones 128).
Proof. apply eq_128; [auto with m128|auto with m128|]. unfold folded. at_each_place. Qed.
Lemma quotient_bit lo i : i < 128 -> N.testbit (quotient lo) i = xorb (N.testbit lo i) (xorb (xorb ((127 <=? i) && N.testbit lo (i - 127)) ((126 <=? i) && N.testbit lo (i - 126))) ((121 <=? i) && N.testbit lo (i - 121))).
Proof. intros Hi. unfold quotient. rewrite N.lxor_spec, folded_shift, low_bit, !N.lxor_spec, !shl_bit. by destruct (N.ltb_spec i 128); [|lia]. Qed.
Lemma quotient_agrees lo i : i < 121 -> N.testbit (quotient lo) i = N.testbit lo i.
Proof. intros Hi. rewrite quotient_bit by lia. destruct (N.leb_spec 127 i), (N.leb_spec 126 i), (N.leb_spec 121 i); try lia. btauto. Qed.
Lemma ok_quotient lo : m128_ok lo -> m128_ok (quotient lo).
Proof. unfold quotient. auto with m128. Qed.
Lemma quotient_low lo : m128_ok lo -> N.land (pmul (quotient lo) G) (N.ones 128) = lo.
Proof.
  intros Hlo. apply N.bits_inj. intros i. rewrite low_bit. destruct (N.ltb_spec i 128) as [Hi|Hi]; [|by rewrite (high_bit lo)]. rewrite pmul_G, !N.lxor_spec, !shl_bit. destruct (N.leb_spec 128 i); [lia|]. rewrite !(quotient_agrees lo (i - _)) by lia. rewrite quotient_bit by done. cbn [andb]. btauto.
Qed.
(** Shifts that cross the lanes. *)
Lemma crossed x : m128_ok x -> N.lxor (mm_srli_epi32 1 x) (mm_srli_si128 4 (mm_slli_epi32 31 x)) = N.shiftr x 1 /\ N.lxor (mm_srli_epi32 2 x) (mm_srli_si128 4 (mm_slli_epi32 30 x)) = N.shiftr x 2
  /\ N.lxor (mm_srli_epi32 7 x) (mm_srli_si128 4 (mm_slli_epi32 25 x)) = N.shiftr x 7.
Proof.
  intros Hx. assert (x = N.land x (N.ones 128)) as E. { apply N.bits_inj. intros i. rewrite low_bit. destruct (N.ltb_spec i 128); [done|]. by rewrite high_bit. }
  repeat split; (apply eq_128; [auto with m128|auto with m128|]; rewrite E; at_each_place).
Qed.
Lemma slli32_agree k x y : 25 <= k -> (forall i, i < 121 -> N.testbit x i = N.testbit y i) -> mm_slli_epi32 k x = mm_slli_epi32 k y.
Proof.
  intros Hk H. apply N.bits_inj. intros i. rewrite !slli32_bit. cbv beta zeta.
  assert (forall j n, j <= 3 -> (n <? 32) && ((k <=? n) && ((n - k <? 32) && N.testbit x (n - k + 32 * j))) = (n <? 32) && ((k <=? n) && ((n - k <? 32) && N.testbit y (n - k + 32 * j)))) as Hj.
  { intros j n Hj. destruct (N.ltb_spec n 32); [|done]. destruct (N.leb_spec k n); [|done]. rewrite H by lia. done. }
  rewrite !Hj by lia. done.
Qed.
Lemma quotient_high lo : m128_ok lo -> let q := quotient lo in
  N.lxor q (N.lxor (N.lxor (N.lxor (mm_srli_epi32 1 q) (mm_srli_epi32 2 q)) (mm_srli_epi32 7 q)) (mm_srli_si128 4 (folded lo))) = N.shiftr (pmul q G) 128.
Proof.
  intros Hlo q. destruct (crossed q (ok_quotient lo Hlo)) as (H1&H2&H7). unfold folded, mm_srli_si128. rewrite !N.shiftr_lxor. fold (mm_srli_si128 4 (mm_slli_epi32 31 lo)) (mm_srli_si128 4 (mm_slli_epi32 30 lo)) (mm_srli_si128 4 (mm_slli_epi32 25 lo)).
  rewrite !(slli32_agree _ lo q) by (lia || (intros i Hi; symmetry; by apply quotient_agrees)). rewrite pmul_G, !N.shiftr_lxor, !N.shiftr_shiftl_r by lia. change (128 - 121) with 7. change (128 - 126) with 2. change (128 - 127) with 1. rewrite <- H1, <- H2, <- H7.
  replace (N.shiftr q 128) with 0. 2:{ symmetry. apply N.bits_inj_0. intros i. rewrite N.shiftr_spec'. apply high_bit; [by apply ok_quotient|lia]. } replace (N.shiftr q (128 - 128)) with q by (by rewrite N.shiftr_0_r). ring.
Qed.
