(* ===== verification/Ghash.v ===== *)
(** * GHASH ([net/aes_gcm.rs]): the field's multiplication *)
From Stdlib Require Import Ring Btauto.
From S2P Require Import Prelude Bytes Sha X25519 Gcm Gf128.
Local Open Scope N_scope.

(** ** The product of two words *)
Lemma small_bits n x : x < 2 ^ n <-> forall i, n <= i -> N.testbit x i = false.
Proof.
  split.
  - intros Hx i Hi. destruct (N.eq_dec x 0) as [->|Hn]; [apply N.bits_0|]. apply N.bits_above_log2. assert (N.log2 x < n); [|lia]. apply N.log2_lt_pow2; [lia|done].
  - intros H. destruct (N.lt_ge_cases x (2 ^ n)) as [|Hx]; [done|]. exfalso. pose proof (N.pow_nonzero 2 n ltac:(lia)). assert (n <= N.log2 x) as Hl by (apply N.log2_le_pow2; lia). specialize (H _ Hl). rewrite N.bit_log2 in H; [done|]. lia.
Qed.
Lemma lxor_small n a b : a < 2 ^ n -> b < 2 ^ n -> N.lxor a b < 2 ^ n.
Proof. rewrite !small_bits. intros Ha Hb i Hi. by rewrite N.lxor_spec, Ha, Hb. Qed.
Lemma pmul_pos_small n a b : a < 2 ^ n -> pmul_pos a b < 2 ^ (n + N.log2 (N.pos b)).
Proof.
  intros Ha. assert (forall k, a < 2 ^ (n + k)) as Hk by (intros k; eapply N.lt_le_trans; [exact Ha|]; apply N.pow_le_mono_r; lia). induction b as [b IH|b IH|]; cbn [pmul_pos]; [| |apply Hk].
  - replace (N.log2 (N.pos b~1)) with (N.succ (N.log2 (N.pos b))) by (symmetry; apply (N.log2_succ_double (N.pos b)); lia). apply lxor_small; [apply Hk|]. rewrite N.add_succ_r, N.double_spec, N.pow_succ_r'. lia.
  - replace (N.log2 (N.pos b~0)) with (N.succ (N.log2 (N.pos b))) by (symmetry; apply (N.log2_double (N.pos b)); lia). rewrite N.add_succ_r, N.double_spec, N.pow_succ_r'. lia.
Qed.
Lemma pmul_small n m a b : a < 2 ^ n -> b < 2 ^ m -> 1 <= m -> pmul a b < 2 ^ (n + m - 1).
Proof.
  intros Ha Hb Hm. destruct b as [|b]; [cbn; pose proof (N.pow_nonzero 2 (n + m - 1)); lia|]. cbn [pmul]. eapply N.lt_le_trans; [by apply pmul_pos_small|]. apply N.pow_le_mono_r; [lia|].
  assert (N.log2 (N.pos b) < m); [|lia]. by apply N.log2_lt_pow2.
Qed.
(** A number is its low bits and the others. *)
Lemma low_high n x : x = N.lxor (N.land x (N.ones n)) (N.shiftl (N.shiftr x n) n).
Proof.
  apply N.bits_inj. intros i. rewrite N.lxor_spec, low_bit, shl_bit, N.shiftr_spec'. destruct (N.ltb_spec i n), (N.leb_spec n i); try lia; cbn [andb]; [by rewrite xorb_false_r|]. rewrite xorb_false_l. f_equal. lia.
Qed.
Lemma doubled_words lo hi : m128_ok lo -> hi < 2 ^ 127 -> N.double (N.lxor lo (N.shiftl hi 128)) = N.lxor (N.land (N.shiftl lo 1) (N.ones 128)) (N.shiftl (N.lxor (N.land (N.shiftl hi 1) (N.ones 128)) (N.shiftr lo 127)) 128).
Proof.
  intros Hlo Hhi. pose proof (proj1 (ok_bits lo) Hlo) as Bl. pose proof (proj1 (small_bits 127 hi) Hhi) as Bh. rewrite double_shift. change 2 with (2 ^ 1). rewrite pmul_shift. apply N.bits_inj. intros i. rewrite N.lxor_spec, low_bit, !shl_bit, !N.lxor_spec, low_bit, !shl_bit, N.shiftr_spec'.
  destruct (N.leb_spec 1 i); cbn [andb]; [|destruct (N.leb_spec 128 i); [lia|]; by rewrite andb_false_r]. destruct (N.ltb_spec i 128); destruct (N.leb_spec 128 i); try lia; cbn [andb]; rewrite ?xorb_false_r, ?xorb_false_l.
  - destruct (N.leb_spec 128 (i - 1)); [lia|]. cbn [andb]. by rewrite xorb_false_r.
  - replace (i - 128 + 127) with (i - 1) by lia. rewrite xorb_comm. f_equal. destruct (N.leb_spec 128 (i - 1)), (N.leb_spec 1 (i - 128)); try lia; cbn [andb]; rewrite ?andb_false_r; try done. replace (i - 128 - 1) with (i - 1 - 128) by lia. destruct (N.ltb_spec (i - 128) 128); [done|]. apply Bh. lia.
Qed.
Lemma reduce_words lo mid hi : m128_ok lo -> m128_ok mid -> N.lxor hi (N.shiftr mid 64) < 2 ^ 127 ->
  m128_ok (reduce (lo, mid, hi)) /\ exists q, N.double (N.lxor (N.lxor lo (N.shiftl mid 64)) (N.shiftl hi 128)) = N.lxor (pmul q G) (N.shiftl (reduce (lo, mid, hi)) 128).
Proof.
  intros Hlo Hmid Hhi. unfold reduce. cbv zeta. set (lo1 := N.lxor lo (mm_slli_si128 8 mid)). change (mm_srli_si128 8 mid) with (N.shiftr mid 64). set (hi1 := N.lxor hi (N.shiftr mid 64)) in *. assert (m128_ok lo1) as Hlo1 by (unfold lo1; auto with m128).
  assert (N.lxor (N.lxor lo (N.shiftl mid 64)) (N.shiftl hi 128) = N.lxor lo1 (N.shiftl hi1 128)) as ->.
  { unfold lo1, hi1, mm_slli_si128. rewrite N.shiftl_lxor. rewrite (low_high 128 (N.shiftl mid 64)) at 1. rewrite N.shiftr_shiftl_r by lia. change (128 - 64) with 64. change (8 * 8) with 64. ring. }
  rewrite doubled_high, shift_one by done. set (lo2 := N.land (N.shiftl lo1 1) (N.ones 128)). set (hi2 := N.lxor (N.land (N.shiftl hi1 1) (N.ones 128)) (N.shiftr lo1 127)). fold (folded lo2). fold (quotient lo2).
  assert (m128_ok lo2) as Hlo2 by apply ok_low. assert (m128_ok hi2) as Hhi2 by (unfold hi2; auto with m128). rewrite (quotient_high lo2 Hlo2). set (q := quotient lo2). split.
  - apply ok_lxor; [done|]. pose proof (quotient_high lo2 Hlo2) as Hq. cbv zeta in Hq. fold q in Hq. rewrite <- Hq. pose proof (ok_quotient lo2 Hlo2). fold q in H. unfold folded. auto 10 with m128.
  - exists q. rewrite (low_high 128 (pmul q G)) at 1. unfold q at 1. rewrite quotient_low by done. rewrite !N.shiftl_lxor.
    rewrite (doubled_words lo1 hi1 Hlo1 Hhi). fold lo2 hi2. generalize (N.shiftl hi2 128) (N.shiftl (N.shiftr (pmul q G) 128) 128). intros x y. rewrite <- !N.lxor_assoc. rewrite (N.lxor_assoc lo2 y x), (N.lxor_comm y x), <- N.lxor_assoc, N.lxor_assoc, N.lxor_nilpotent. by rewrite N.lxor_0_r.
Qed.

(** ** The field *)
Definition congruent (a b : N) : Prop := exists q, a = N.lxor b (pmul q G).
Lemma quad_split x : x = N.lxor (quad false x) (pmul (quad true x) (2 ^ 64)).
Proof. rewrite pmul_shift. apply (low_high 64). Qed.
Lemma quad_small b x : m128_ok x -> quad b x < 2 ^ 64.
Proof.
  intros Hx. destruct b; cbn [quad]; apply small_bits; intros i Hi; [rewrite N.shiftr_spec'; apply high_bit; [done|lia]|]. rewrite low_bit. by destruct (N.ltb_spec i 64); [lia|].
Qed.
Lemma clmul_small ha hb a b : m128_ok a -> m128_ok b -> mm_clmulepi64 hb ha a b < 2 ^ 127.
Proof. intros Ha Hb. apply (pmul_small 64 64); [by apply quad_small|by apply quad_small|lia]. Qed.
Lemma below_128 x : x < 2 ^ 127 -> m128_ok x.
Proof. unfold m128_ok. intros H. eapply N.lt_trans; [exact H|]. by apply N.pow_lt_mono_r. Qed.
Lemma shiftr_small x n m : x < 2 ^ n -> N.shiftr x m < 2 ^ n.
Proof. rewrite !small_bits. intros H i Hi. rewrite N.shiftr_spec'. apply H. lia. Qed.
(** The words of three products, summed: what [product] and [xor3] give. *)
Definition words_ok (w : m128x3) : Prop := let '(lo, mid, hi) := w in lo < 2 ^ 127 /\ mid < 2 ^ 127 /\ hi < 2 ^ 127.
Definition words_value (w : m128x3) : N := let '(lo, mid, hi) := w in N.lxor (N.lxor lo (N.shiftl mid 64)) (N.shiftl hi 128).
Lemma product_ok a b : m128_ok a -> m128_ok b -> words_ok (product a b) /\ words_value (product a b) = pmul a b.
Proof.
  intros Ha Hb. unfold product, words_ok, words_value. split; [repeat split; try apply lxor_small; by apply clmul_small|]. unfold mm_clmulepi64. rewrite <- !pmul_shift. change (2 ^ 128) with (pmul (2 ^ 64) (2 ^ 64)).
  transitivity (pmul (N.lxor (quad false a) (pmul (quad true a) (2 ^ 64))) (N.lxor (quad false b) (pmul (quad true b) (2 ^ 64)))); [|by rewrite <- !quad_split]. generalize (2 ^ 64). intros y. ring.
Qed.
Lemma xor3_ok a b : words_ok a -> words_ok b -> words_ok (xor3 a b) /\ words_value (xor3 a b) = N.lxor (words_value a) (words_value b).
Proof.
  destruct a as [[a0 a1] a2], b as [[b0 b1] b2]. intros (?&?&?) (?&?&?). unfold xor3, words_ok, words_value. split; [repeat split; by apply lxor_small|]. rewrite !N.shiftl_lxor. ring.
Qed.
Lemma reduce_ok w : words_ok w -> m128_ok (reduce w) /\ congruent (pmul (2 ^ 128) (reduce w)) (pmul 2 (words_value w)).
Proof.
  destruct w as [[lo mid] hi]. intros (?&?&?). destruct (reduce_words lo mid hi) as [Hr (q&Hq)]; [by apply below_128|by apply below_128|apply lxor_small; [done|by apply shiftr_small]|]. split; [done|]. exists q. unfold words_value. rewrite (pmul_comm 2), <- double_shift, Hq, (pmul_comm (2 ^ 128)), pmul_shift.
  rewrite N.lxor_comm, <- N.lxor_assoc, N.lxor_nilpotent. by rewrite N.lxor_0_l.
Qed.
Lemma multiply_ok a b : m128_ok a -> m128_ok b -> m128_ok (multiply a b) /\ congruent (pmul (2 ^ 128) (multiply a b)) (pmul 2 (pmul a b)).
Proof. intros Ha Hb. destruct (product_ok a b Ha Hb) as [Hw <-]. by apply reduce_ok. Qed.

(** A multiple of the modulus that the power of two divides is one without. *)
Lemma even_pmul_G q : N.testbit (pmul q G) 0 = N.testbit q 0.
Proof. rewrite pmul_G, !N.lxor_spec, !shl_bit. cbn [N.leb N.compare andb]. change (121 <=? 0) with false. change (126 <=? 0) with false. change (127 <=? 0) with false. change (128 <=? 0) with false. cbn [andb]. by rewrite !xorb_false_r. Qed.
Lemma cancel_two d q : pmul 2 d = pmul q G -> exists q', d = pmul q' G.
Proof.
  intros H. replace (pmul 2 d) with (N.double d) in H by (by rewrite double_shift, pmul_comm). destruct (N.even q) eqn:He; [apply N.even_spec in He as [q' ->]|].
  - exists q'. replace (2 * q') with (N.double q') in H by apply N.double_spec. rewrite pmul_double_l in H. by apply N.double_inj.
  - exfalso. pose proof (even_pmul_G q) as Hb. rewrite <- H, N.double_spec, N.testbit_even_0, N.bit0_odd, <- N.negb_even, He in Hb. done.
Qed.
Lemma cancel_power n d q : pmul (2 ^ n) d = pmul q G -> exists q', d = pmul q' G.
Proof.
  revert q. induction n as [|n IH] using N.peano_ind; intros q H; [rewrite pmul_1_l in H; by exists q|]. replace (2 ^ N.succ n) with (pmul 2 (2 ^ n)) in H by (rewrite (pmul_comm 2), <- double_shift, N.pow_succ_r', N.double_spec; done). rewrite <- pmul_assoc in H. apply cancel_two in H as [q' H]. by apply (IH q').
Qed.
(** No multiple of the modulus but 0 is a word. *)
Lemma multiple_small q : m128_ok (pmul q G) -> q = 0.
Proof.
  intros H. destruct (N.eq_dec q 0) as [|Hq]; [done|]. exfalso. assert (N.testbit (pmul q G) (128 + N.log2 q) = true) as Hb.
  { rewrite pmul_G, !N.lxor_spec, !shl_bit. assert (forall k, N.log2 q < k -> N.testbit q k = false) as Hz by (intros k Hk; by apply N.bits_above_log2). destruct (N.leb_spec 121 (128 + N.log2 q)), (N.leb_spec 126 (128 + N.log2 q)), (N.leb_spec 127 (128 + N.log2 q)), (N.leb_spec 128 (128 + N.log2 q)); try lia.
    rewrite !(Hz (_ + _)), !(Hz (_ - _)) by lia. replace (128 + N.log2 q - 128) with (N.log2 q) by lia. by rewrite N.bit_log2. }
  rewrite (high_bit _ (128 + N.log2 q)) in Hb; [done|done|lia].
Qed.
(** A word is given by what its shift is congruent to. *)
Lemma field_unique n a b c : m128_ok a -> m128_ok b -> congruent (pmul (2 ^ n) a) c -> congruent (pmul (2 ^ n) b) c -> a = b.
Proof.
  intros Ha Hb (qa&Ea) (qb&Eb). assert (pmul (2 ^ n) (N.lxor a b) = pmul (N.lxor qa qb) G) as H. { rewrite pmul_lxor_r, pmul_lxor_l, Ea, Eb. rewrite lxor_swap, N.lxor_nilpotent. apply N.lxor_0_l. }
  apply cancel_power in H as [q H]. assert (q = 0) as -> by (apply multiple_small; rewrite <- H; auto with m128). rewrite pmul_0_l in H. by apply N.lxor_eq.
Qed.
Lemma congruent_refl a : congruent a a.
Proof. exists 0. by rewrite pmul_0_l, N.lxor_0_r. Qed.
Lemma congruent_trans a b c : congruent a b -> congruent b c -> congruent a c.
Proof. intros (q&->) (r&->). exists (N.lxor r q). rewrite pmul_lxor_l. apply N.lxor_assoc. Qed.
Lemma congruent_mul c a b : congruent a b -> congruent (pmul c a) (pmul c b).
Proof. intros (q&->). exists (pmul c q). rewrite pmul_lxor_r. f_equal. apply pmul_assoc. Qed.
Lemma congruent_lxor a b c d : congruent a b -> congruent c d -> congruent (N.lxor a c) (N.lxor b d).
Proof. intros (q&->) (r&->). exists (N.lxor q r). rewrite pmul_lxor_l. apply lxor_swap. Qed.
Lemma multiply_lxor a b c : m128_ok a -> m128_ok b -> m128_ok c -> multiply (N.lxor a b) c = N.lxor (multiply a c) (multiply b c).
Proof.
  intros Ha Hb Hc. destruct (multiply_ok a c Ha Hc) as [Hac Ca], (multiply_ok b c Hb Hc) as [Hbc Cb], (multiply_ok (N.lxor a b) c ltac:(auto with m128) Hc) as [Habc Cab]. apply (field_unique 128 _ _ (pmul 2 (pmul (N.lxor a b) c))); [done|auto with m128|done|]. rewrite pmul_lxor_r, pmul_lxor_l, pmul_lxor_r. by apply congruent_lxor.
Qed.
Lemma multiply_assoc a b c : m128_ok a -> m128_ok b -> m128_ok c -> multiply (multiply a b) c = multiply a (multiply b c).
Proof.
  intros Ha Hb Hc. destruct (multiply_ok a b Ha Hb) as [Hab Cab], (multiply_ok b c Hb Hc) as [Hbc Cbc], (multiply_ok _ c Hab Hc) as [H1 C1], (multiply_ok a _ Ha Hbc) as [H2 C2]. apply (field_unique 256 _ _ (pmul 2 (pmul 2 (pmul a (pmul b c))))); [done|done| |]; change (2 ^ 256) with (pmul (2 ^ 128) (2 ^ 128)); rewrite <- pmul_assoc.
  - eapply congruent_trans; [apply congruent_mul, C1|]. replace (pmul (2 ^ 128) (pmul 2 (pmul (multiply a b) c))) with (pmul (pmul 2 c) (pmul (2 ^ 128) (multiply a b))) by (generalize (2 ^ 128); intros y; ring). replace (pmul 2 (pmul 2 (pmul a (pmul b c)))) with (pmul (pmul 2 c) (pmul 2 (pmul a b))) by ring. by apply congruent_mul.
  - eapply congruent_trans; [apply congruent_mul, C2|]. replace (pmul (2 ^ 128) (pmul 2 (pmul a (multiply b c)))) with (pmul (pmul 2 a) (pmul (2 ^ 128) (multiply b c))) by (generalize (2 ^ 128); intros y; ring). replace (pmul 2 (pmul 2 (pmul a (pmul b c)))) with (pmul (pmul 2 a) (pmul 2 (pmul b c))) by ring. by apply congruent_mul.
Qed.

(** ** The standard's multiplication, bit by bit (SP 800-38D, algorithm 1) *)
Definition R : N := N.shiftl 0xe1 120.
Definition halve (v : N) : N := if N.testbit v 0 then N.lxor (N.shiftr v 1) R else N.shiftr v 1.
Fixpoint block_mult_from (n : nat) (x z v : N) : N :=
  match n with O => z | S n => block_mult_from n x (if N.testbit x (N.of_nat n) then N.lxor z v else z) (halve v) end.
Definition block_mult (x y : N) : N := block_mult_from 128 x 0 y.
Lemma halve_ok v : m128_ok v -> m128_ok (halve v) /\ congruent (pmul 2 (halve v)) v.
Proof.
  intros Hv. assert (v = N.lxor (if N.testbit v 0 then 1 else 0) (pmul 2 (N.shiftr v 1))) as E.
  { rewrite (low_high 1 v) at 1. rewrite (pmul_comm 2). change 2 with (2 ^ 1). rewrite pmul_shift. f_equal. apply N.bits_inj. intros i. rewrite low_bit. destruct (N.ltb_spec i 1); [replace i with 0 by lia; by destruct (N.testbit v 0)|]. destruct (N.testbit v 0); [|done]. destruct i as [|i]; [lia|]. by destruct i. }
  unfold halve. destruct (N.testbit v 0); (split; [auto with m128|]).
  - apply ok_lxor; [auto with m128|]. by unfold R.
  - exists 1. rewrite pmul_1_l, pmul_lxor_r. change (pmul 2 R) with (N.lxor G 1). rewrite E at 2. generalize (pmul 2 (N.shiftr v 1)). intros x. generalize G. intros g. ring.
  - rewrite E at 2. rewrite N.lxor_0_l. apply congruent_refl.
Qed.
Lemma low_succ x n : N.land x (N.ones (N.succ n)) = N.lxor (N.land x (N.ones n)) (if N.testbit x n then 2 ^ n else 0).
Proof.
  apply N.bits_inj. intros i. rewrite N.lxor_spec, !low_bit. destruct (N.eq_dec i n) as [->|Hn].
  - destruct (N.ltb_spec n (N.succ n)), (N.ltb_spec n n); try lia. cbn [andb]. rewrite xorb_false_l. destruct (N.testbit x n); [by rewrite N.pow2_bits_true|by rewrite N.bits_0].
  - replace (N.testbit (if N.testbit x n then 2 ^ n else 0) i) with false by (destruct (N.testbit x n); [by rewrite N.pow2_bits_false|by rewrite N.bits_0]). rewrite xorb_false_r. destruct (N.ltb_spec i (N.succ n)), (N.ltb_spec i n); (lia || done).
Qed.
Lemma block_mult_from_ok n x z v : m128_ok z -> m128_ok v -> m128_ok (block_mult_from n x z v) /\ congruent (pmul (2 ^ N.of_nat n) (block_mult_from n x z v)) (N.lxor (pmul (2 ^ N.of_nat n) z) (pmul 2 (pmul (N.land x (N.ones (N.of_nat n))) v))).
Proof.
  revert z v. induction n as [|n IH]; intros z v Hz Hv; cbn [block_mult_from]; [split; [done|]; rewrite N.land_0_r, pmul_0_l; change (pmul 2 0) with 0; rewrite N.lxor_0_r; apply congruent_refl|]. destruct (halve_ok v Hv) as [Hh Ch]. set (z' := if N.testbit x (N.of_nat n) then N.lxor z v else z). assert (m128_ok z') as Hz' by (unfold z'; destruct (N.testbit _ _); auto with m128).
  destruct (IH z' (halve v) Hz' Hh) as [Hok C]. split; [done|]. rewrite Nat2N.inj_succ, low_succ. replace (2 ^ N.succ (N.of_nat n)) with (pmul 2 (2 ^ N.of_nat n)) by (rewrite (pmul_comm 2), <- double_shift, N.pow_succ_r', N.double_spec; done). rewrite <- pmul_assoc. eapply congruent_trans; [apply congruent_mul, C|]. set (low := N.land x (N.ones (N.of_nat n))). set (y := 2 ^ N.of_nat n).
  replace (pmul 2 (N.lxor (pmul y z') (pmul 2 (pmul low (halve v))))) with (N.lxor (pmul 2 (pmul y z')) (pmul (pmul 2 low) (pmul 2 (halve v)))) by ring.
  replace (N.lxor (pmul (pmul 2 y) z) (pmul 2 (pmul (N.lxor low (if N.testbit x (N.of_nat n) then y else 0)) v))) with (N.lxor (pmul 2 (pmul y z')) (pmul (pmul 2 low) v)) by (unfold z'; destruct (N.testbit x (N.of_nat n)); ring).
  apply congruent_lxor; [apply congruent_refl|]. by apply congruent_mul.
Qed.
(** [multiply] is the standard's product. *)
Lemma multiply_spec a b : m128_ok a -> m128_ok b -> multiply a b = block_mult a b.
Proof.
  intros Ha Hb. destruct (multiply_ok a b Ha Hb) as [Hm Cm], (block_mult_from_ok 128 a 0 b ltac:(done) Hb) as [Hs Cs]. apply (field_unique 128 _ _ (pmul 2 (pmul a b))); [done|done|done|]. change (N.of_nat 128) with 128 in Cs.
  replace (N.land a (N.ones 128)) with a in Cs by (symmetry; rewrite N.land_ones; by apply N.mod_small). change (pmul (2 ^ 128) 0) with 0 in Cs. rewrite N.lxor_0_l in Cs. exact Cs.
Qed.
