(* ===== verification/AesBlock.v ===== *)
(** * The block cipher ([net/aes_gcm.rs], [expand], [schedule], [encrypt])

    The instructions compute FIPS 197's cipher with its key expansion, word by
    word; the bytes of a word in memory and its number. *)
From Stdlib Require Import Ring Btauto.
From S2P Require Import Prelude Bytes Sha X25519 Gcm Gf128 Ghash.

(** ** Words and their bytes *)
Definition xors (a b : list Z) : list Z := zip_with Z.lxor a b.
Lemma xors_zlen a b : zlen a = zlen b -> zlen (xors a b) = zlen a.
Proof. unfold zlen, xors. intros H. rewrite length_zip_with. lia. Qed.
Lemma xors_ok a b : bytes_ok a -> bytes_ok b -> bytes_ok (xors a b).
Proof.
  intros Ha. revert b. induction Ha as [|x a Hx Ha IH]; intros b Hb; [done|]. destruct b as [|y b]; [done|]. apply Forall_cons in Hb as [Hy Hb]. cbn. constructor; [|by apply IH]. by apply lxor_fits.
Qed.
Lemma load_cons x l : u8 x -> bytes_ok l -> load (x :: l) = N.lxor (Z.to_N x) (N.shiftl (load l) 8).
Proof.
  intros Hx Hl. pose proof (le_val_bound l Hl) as Hv. unfold fits in Hx. change (2 ^ 8) with 256 in Hx. unfold load. cbn [le_val]. rewrite (low_high 8 (Z.to_N (x + 256 * le_val l))). f_equal.
  - rewrite N.land_ones. apply N2Z.inj. rewrite N2Z.inj_mod, !Z2N.id by lia. change (Z.of_N (2 ^ 8)) with 256. rewrite Z.mul_comm, Z.mod_add by lia. by apply Z.mod_small.
  - f_equal. rewrite N.shiftr_div_pow2. apply N2Z.inj. rewrite N2Z.inj_div, !Z2N.id by lia. change (Z.of_N (2 ^ 8)) with 256. rewrite Z.mul_comm, Z.div_add, Z.div_small by lia. done.
Qed.
Lemma load_app a b : bytes_ok a -> bytes_ok b -> load (a ++ b) = N.lxor (load a) (N.shiftl (load b) (8 * N.of_nat (length a))).
Proof.
  intros Ha Hb. induction Ha as [|x a Hx Ha IH]; [cbn [app length]; change (8 * N.of_nat 0)%N with 0%N; change (load []) with 0%N; by rewrite N.shiftl_0_r, N.lxor_0_l|]. cbn [app length]. rewrite !load_cons by (done || by apply Forall_app). rewrite IH, N.shiftl_lxor, N.shiftl_shiftl, N.lxor_assoc. do 2 f_equal. f_equal. lia.
Qed.
Lemma load_xors a b : bytes_ok a -> bytes_ok b -> zlen a = zlen b -> load (xors a b) = N.lxor (load a) (load b).
Proof.
  intros Ha. revert b. induction Ha as [|x a Hx Ha IH]; intros b Hb Hl; [destruct b; [done|rewrite zlen_cons in Hl; pose proof (zlen_nonneg b); change (zlen (@nil Z)) with 0 in Hl; lia]|]. destruct b as [|y b]; [rewrite zlen_cons in Hl; pose proof (zlen_nonneg a); change (zlen (@nil Z)) with 0 in Hl; lia|].
  apply Forall_cons in Hb as [Hy Hb]. rewrite !zlen_cons in Hl. unfold xors. cbn [zip_with]. fold (xors a b). rewrite !load_cons by (done || by apply xors_ok || by apply lxor_fits). rewrite (IH b Hb) by lia. rewrite N.shiftl_lxor. assert (Z.to_N (Z.lxor x y) = N.lxor (Z.to_N x) (Z.to_N y)) as ->; [|apply lxor_swap].
  unfold fits in Hx, Hy. apply N2Z.inj. rewrite N2Z.inj_lxor, !Z2N.id by (lia || (apply Z.lxor_nonneg; lia)). done.
Qed.
Lemma load_ok b : bytes_ok b -> zlen b = 16 -> m128_ok (load b).
Proof. intros Hb Hl. pose proof (le_val_bound b Hb) as Hv. rewrite Hl in Hv. unfold m128_ok, load. apply N2Z.inj_lt. rewrite Z2N.id by lia. change (Z.of_N (2 ^ 128)) with (2 ^ (8 * 16)). lia. Qed.
Lemma store_zlen x : zlen (store x) = 16.
Proof. apply le_bytes_zlen. Qed.
Lemma store_ok x : bytes_ok (store x).
Proof. apply le_bytes_ok. Qed.
Lemma load_store x : m128_ok x -> load (store x) = x.
Proof. intros Hx. unfold load, store. rewrite le_round_trip; [apply N2Z.id|]. unfold m128_ok in Hx. apply N2Z.inj_lt in Hx. unfold fits. change (8 * Z.of_nat 16) with 128. change (Z.of_N (2 ^ 128)) with (2 ^ 128) in Hx. lia. Qed.
Lemma store_load b : bytes_ok b -> zlen b = 16 -> store (load b) = b.
Proof. intros Hb Hl. pose proof (le_val_bound b Hb). unfold load, store. rewrite Z2N.id by lia. assert (length b = 16%nat) as <- by (unfold zlen in Hl; lia). by apply le_bytes_val. Qed.
Lemma load_inj a b : bytes_ok a -> bytes_ok b -> zlen a = 16 -> zlen b = 16 -> load a = load b -> a = b.
Proof. intros Ha Hb La Lb E. rewrite <- (store_load a Ha La), <- (store_load b Hb Lb). by rewrite E. Qed.
Lemma store_lxor x y : m128_ok x -> m128_ok y -> store (N.lxor x y) = xors (store x) (store y).
Proof.
  intros Hx Hy. apply load_inj; [apply store_ok|apply xors_ok; apply store_ok|apply store_zlen|rewrite xors_zlen; [apply store_zlen|by rewrite !store_zlen]|].
  rewrite load_store by auto with m128. rewrite load_xors; [by rewrite !load_store|apply store_ok|apply store_ok|by rewrite !store_zlen].
Qed.

(** ** FIPS 197 *)
Definition add_round_key (s k : list Z) : list Z := xors s k.
Definition aes_round (s k : list Z) : list Z := add_round_key (mix_columns (shift_rows (map sub_byte s))) k.
Definition rot (w : list Z) : list Z := tail w ++ ztake 1 w.
(** The four words of the next round key, after those of this one. *)
Definition next_key (rcon : Z) (k : list Z) : list Z :=
  let w0 := ztake 4 k in let w1 := ztake 4 (zdrop 4 k) in let w2 := ztake 4 (zdrop 8 k) in let w3 := zdrop 12 k in
  let t := xors (map sub_byte (rot w3)) [rcon; 0; 0; 0] in
  let w4 := xors w0 t in let w5 := xors w1 w4 in let w6 := xors w2 w5 in let w7 := xors w3 w6 in w4 ++ w5 ++ w6 ++ w7.
Fixpoint key_expansion (rcons : list Z) (k : list Z) : list (list Z) :=
  match rcons with [] => [] | r :: rcons => let k := next_key r k in k :: key_expansion rcons k end.
Definition aes128 (key block : list Z) : list Z :=
  let rk := key_expansion [0x01; 0x02; 0x04; 0x08; 0x10; 0x20; 0x40; 0x80; 0x1b; 0x36] key in
  let s := fold_left aes_round (ztake 9 rk) (add_round_key block key) in
  add_round_key (shift_rows (map sub_byte s)) (default [] (last rk)).

(** ** Rounds *)
Lemma zget_elem {A} (l : list A) i x : zget l i = Some x -> x ∈ l.
Proof. unfold zget. destruct (i <? 0); [done|]. apply list_elem_of_lookup_2. Qed.
Lemma zget_map {A B} (f : A -> B) l i : zget (map f l) i = f <$> zget l i.
Proof. unfold zget. destruct (i <? 0); [done|]. apply list_lookup_fmap. Qed.
Lemma sub_byte_ok b : u8 b -> u8 (sub_byte b).
Proof.
  intros Hb. unfold sub_byte. destruct (zget SBOX b) as [x|] eqn:E; [|by unfold fits]. apply zget_elem in E. assert (Forall (fun x => (0 <=? x) && (x <? 256) = true) SBOX) as H by (unfold SBOX; repeat (apply Forall_cons_2; [reflexivity|]); apply Forall_nil_2). rewrite Forall_forall in H. specialize (H x E). apply andb_prop in H as [?%Z.leb_le ?%Z.ltb_lt]. cbn [default]. unfold fits. change (2 ^ 8) with 256. cbn. lia.
Qed.
Lemma byte_at_ok s i : bytes_ok s -> u8 (byte_at s i).
Proof. intros Hs. unfold byte_at. destruct (zget s i) as [x|] eqn:E; [|by unfold fits]. apply zget_elem in E. rewrite Forall_forall in Hs. by apply Hs. Qed.
Lemma byte_at_map f s i : 0 <= i < zlen s -> byte_at (map f s) i = f (byte_at s i).
Proof. intros Hi. unfold byte_at. rewrite zget_map. by destruct (zget_is_Some s i Hi) as [x ->]. Qed.
Lemma row_place i : 0 <= i < 16 -> 0 <= i mod 4 + 4 * ((i / 4 + i mod 4) mod 4) < 16.
Proof. intros Hi. pose proof (Z.mod_pos_bound i 4 ltac:(lia)). pose proof (Z.mod_pos_bound (i / 4 + i mod 4) 4 ltac:(lia)). lia. Qed.
Lemma shift_sub s : zlen s = 16 -> shift_rows (map sub_byte s) = map sub_byte (shift_rows s).
Proof.
  intros Hs. unfold shift_rows. rewrite map_map. apply map_ext_in. intros i Hi%list_elem_of_In%elem_of_seqZ. rewrite byte_at_map; [done|]. rewrite Hs. apply row_place. lia.
Qed.
Lemma map_seqZ_zlen {A} (f : Z -> A) : zlen (map f (seqZ 0 16)) = 16.
Proof. by rewrite zlen_map. Qed.
Lemma shift_rows_ok s : bytes_ok s -> bytes_ok (shift_rows s) /\ zlen (shift_rows s) = 16.
Proof. intros Hs. split; [|apply map_seqZ_zlen]. apply Forall_map, Forall_true. intros i. by apply byte_at_ok. Qed.
Lemma xtime_ok b : u8 b -> u8 (xtime b).
Proof. intros Hb. unfold xtime. apply lxor_fits; [done|by apply wrap_fits|]. by destruct (0x80 <=? b). Qed.
Lemma mix_columns_ok s : bytes_ok s -> bytes_ok (mix_columns s) /\ zlen (mix_columns s) = 16.
Proof.
  intros Hs. split; [|apply map_seqZ_zlen]. apply Forall_map, Forall_true. intros i. cbv zeta. unfold mix_byte. apply lxor_fits; [done|apply lxor_fits; [done|apply xtime_ok|apply lxor_fits; [done|apply xtime_ok|]]|apply lxor_fits; [done| |]]; by apply byte_at_ok.
Qed.
Lemma subs_ok s : bytes_ok s -> bytes_ok (map sub_byte s).
Proof. intros Hs. apply Forall_map. eapply Forall_impl; [exact Hs|]. apply sub_byte_ok. Qed.
Lemma aesenc_spec x k : m128_ok x -> m128_ok k -> m128_ok (mm_aesenc x k) /\ store (mm_aesenc x k) = aes_round (store x) (store k).
Proof.
  intros Hx Hk. unfold mm_aesenc, aes_round. rewrite (shift_sub (store x) (store_zlen x)). destruct (shift_rows_ok (store x) (store_ok x)) as [Hr Hl]. destruct (mix_columns_ok _ (subs_ok _ Hr)) as [Hm Hml]. pose proof (load_ok _ Hm Hml). split; [auto with m128|]. rewrite store_lxor, store_load by done. done.
Qed.
Lemma aesenclast_spec x k : m128_ok x -> m128_ok k -> m128_ok (mm_aesenclast x k) /\ store (mm_aesenclast x k) = add_round_key (shift_rows (map sub_byte (store x))) (store k).
Proof.
  intros Hx Hk. unfold mm_aesenclast. rewrite (shift_sub (store x) (store_zlen x)). destruct (shift_rows_ok (store x) (store_ok x)) as [Hr Hl]. pose proof (subs_ok _ Hr) as Hs. assert (zlen (map sub_byte (shift_rows (store x))) = 16) as Hsl by (by rewrite zlen_map). pose proof (load_ok _ Hs Hsl). split; [auto with m128|]. rewrite store_lxor, store_load by done. done.
Qed.
Lemma rounds_spec l x : Forall m128_ok l -> m128_ok x -> m128_ok (fold_left mm_aesenc l x) /\ store (fold_left mm_aesenc l x) = fold_left aes_round (map store l) (store x).
Proof.
  intros Hl. revert x. induction Hl as [|k l Hk Hl IH]; intros x Hx; [done|]. cbn [fold_left map]. destruct (aesenc_spec x k Hx Hk) as [Ho <-]. by apply IH.
Qed.

(** ** The key schedule, by 32-bit words *)
Definition word_ok (x : N) : Prop := (x < 2 ^ 32)%N.
Definition L4 (a b c d : N) : N := N.lxor a (N.lxor (N.shiftl b 32) (N.lxor (N.shiftl c 64) (N.shiftl d 96))).
(** An equation of sums, bit by bit. *)
Ltac by_bits := apply N.bits_inj; intros ?; rewrite !N.lxor_spec, ?N.bits_0; btauto.
Lemma word_bit x i : word_ok x -> (32 <= i)%N -> N.testbit x i = false.
Proof. intros Hx. by apply small_bits. Qed.
Lemma L4_bit a b c d i : N.testbit (L4 a b c d) i = xorb (N.testbit a i) (xorb ((32 <=? i)%N && N.testbit b (i - 32)) (xorb ((64 <=? i)%N && N.testbit c (i - 64)) ((96 <=? i)%N && N.testbit d (i - 96)))).
Proof. unfold L4. by rewrite !N.lxor_spec, !shl_bit. Qed.
Lemma L4_lxor a b c d a' b' c' d' : N.lxor (L4 a b c d) (L4 a' b' c' d') = L4 (N.lxor a a') (N.lxor b b') (N.lxor c c') (N.lxor d d').
Proof. unfold L4. rewrite !N.shiftl_lxor. by_bits. Qed.
Section Words.
Context (a b c d : N) (Ha : word_ok a) (Hb : word_ok b) (Hc : word_ok c) (Hd : word_ok d).
Lemma lanes_L4 : lanes a b c d = L4 a b c d.
Proof.
  apply N.bits_inj. intros i. rewrite lanes_bit, L4_bit. destruct (N.leb_spec 32 i), (N.leb_spec 64 i), (N.leb_spec 96 i); try lia; cbn [andb orb]; rewrite ?orb_false_r, ?xorb_false_r; try done;
    rewrite (word_bit a i) by (done || lia); rewrite ?(word_bit b (i - 32)) by (done || lia); rewrite ?(word_bit c (i - 64)) by (done || lia); cbn [orb]; by rewrite ?orb_false_r, ?xorb_false_r, ?xorb_false_l.
Qed.
Lemma L4_ok : m128_ok (L4 a b c d).
Proof.
  apply ok_bits. intros i Hi. rewrite L4_bit, (word_bit a), (word_bit b), (word_bit c), (word_bit d) by (done || lia). by rewrite !andb_false_r.
Qed.
Lemma slli_L4 : mm_slli_si128 4 (L4 a b c d) = L4 0 a b c.
Proof.
  apply N.bits_inj. intros i. rewrite slli_bit, !L4_bit, N.bits_0, xorb_false_l. change (8 * 4)%N with 32%N. destruct (N.ltb_spec i 128) as [Hi|Hi]; cbn [andb].
  - destruct (N.leb_spec 32 i); cbn [andb]; [|destruct (N.leb_spec 64 i), (N.leb_spec 96 i); try lia; done]. replace (32 <=? i - 32)%N with (64 <=? i)%N by (apply eq_true_iff_eq; rewrite !N.leb_le; lia). replace (64 <=? i - 32)%N with (96 <=? i)%N by (apply eq_true_iff_eq; rewrite !N.leb_le; lia). replace (96 <=? i - 32)%N with false by (symmetry; apply N.leb_gt; lia). replace (i - 32 - 32)%N with (i - 64)%N by lia. replace (i - 32 - 64)%N with (i - 96)%N by lia. cbn [andb]. by rewrite xorb_false_r.
  - rewrite (word_bit a), (word_bit b), (word_bit c) by (done || lia). by rewrite !andb_false_r.
Qed.
Lemma lane_L4 : lane 0 (L4 a b c d) = a /\ lane 1 (L4 a b c d) = b /\ lane 2 (L4 a b c d) = c /\ lane 3 (L4 a b c d) = d.
Proof.
  repeat split; apply N.bits_inj; intros i; rewrite lane_bit, L4_bit; (destruct (N.ltb_spec i 32) as [Hi|Hi]; cbn [andb]; [|by rewrite word_bit]).
  - replace (32 <=? i + 32 * 0)%N with false by (symmetry; apply N.leb_gt; lia). replace (64 <=? i + 32 * 0)%N with false by (symmetry; apply N.leb_gt; lia). replace (96 <=? i + 32 * 0)%N with false by (symmetry; apply N.leb_gt; lia). cbn [andb]. rewrite !xorb_false_r. f_equal. lia.
  - replace (32 <=? i + 32 * 1)%N with true by (symmetry; apply N.leb_le; lia). replace (64 <=? i + 32 * 1)%N with false by (symmetry; apply N.leb_gt; lia). replace (96 <=? i + 32 * 1)%N with false by (symmetry; apply N.leb_gt; lia). rewrite (word_bit a) by (done || lia). cbn [andb]. rewrite !xorb_false_r, xorb_false_l. f_equal. lia.
  - replace (32 <=? i + 32 * 2)%N with true by (symmetry; apply N.leb_le; lia). replace (64 <=? i + 32 * 2)%N with true by (symmetry; apply N.leb_le; lia). replace (96 <=? i + 32 * 2)%N with false by (symmetry; apply N.leb_gt; lia). rewrite (word_bit a), (word_bit b) by (done || lia). cbn [andb]. rewrite !xorb_false_r, !xorb_false_l. f_equal. lia.
  - replace (32 <=? i + 32 * 3)%N with true by (symmetry; apply N.leb_le; lia). replace (64 <=? i + 32 * 3)%N with true by (symmetry; apply N.leb_le; lia). replace (96 <=? i + 32 * 3)%N with true by (symmetry; apply N.leb_le; lia). rewrite (word_bit a), (word_bit b), (word_bit c) by (done || lia). cbn [andb]. rewrite !xorb_false_l. f_equal. lia.
Qed.
End Words.
Lemma word_lxor a b : word_ok a -> word_ok b -> word_ok (N.lxor a b).
Proof. apply lxor_small. Qed.
Lemma schedule_words a b c d x t : word_ok a -> word_ok b -> word_ok c -> word_ok d -> word_ok t -> lane 3 x = t ->
  schedule (L4 a b c d) x = L4 (N.lxor a t) (N.lxor b (N.lxor a t)) (N.lxor c (N.lxor b (N.lxor a t))) (N.lxor d (N.lxor c (N.lxor b (N.lxor a t)))).
Proof.
  intros Ha Hb Hc Hd Ht Hx. assert (word_ok 0) as H0 by done. unfold schedule. cbv zeta. rewrite slli_L4, L4_lxor by done. rewrite slli_L4, L4_lxor by (done || by apply word_lxor). rewrite slli_L4, L4_lxor by (done || by repeat apply word_lxor). unfold mm_shuffle_epi32_ff. rewrite Hx. cbv zeta. rewrite lanes_L4, L4_lxor by done. f_equal; by_bits.
Qed.
Lemma four_words k : bytes_ok k -> zlen k = 16 -> exists w0 w1 w2 w3, k = w0 ++ w1 ++ w2 ++ w3 /\ Forall (fun w => bytes_ok w /\ zlen w = 4) [w0; w1; w2; w3].
Proof.
  intros Hk Hl. exists (ztake 4 k), (ztake 4 (zdrop 4 k)), (ztake 4 (zdrop 8 k)), (zdrop 12 k). split.
  - rewrite <- (ztake_zdrop 4 k) at 1. f_equal. rewrite <- (ztake_zdrop 4 (zdrop 4 k)) at 1. f_equal. rewrite zdrop_zdrop by lia. change (4 + 4) with 8. rewrite <- (ztake_zdrop 4 (zdrop 8 k)) at 1. f_equal. by rewrite zdrop_zdrop by lia.
  - repeat apply Forall_cons_2; [..|apply Forall_nil_2]; (split; [try apply Forall_take; try apply Forall_drop; done|]); rewrite ?zlen_ztake, ?zlen_zdrop by lia; lia.
Qed.
Lemma word_load w : bytes_ok w -> zlen w = 4 -> word_ok (load w).
Proof. intros Hb Hl. pose proof (le_val_bound w Hb) as Hv. rewrite Hl in Hv. unfold word_ok, load. apply N2Z.inj_lt. rewrite Z2N.id by lia. change (Z.of_N (2 ^ 32)) with (2 ^ (8 * 4)). lia. Qed.
Lemma load_words w0 w1 w2 w3 : Forall (fun w => bytes_ok w /\ zlen w = 4) [w0; w1; w2; w3] -> load (w0 ++ w1 ++ w2 ++ w3) = L4 (load w0) (load w1) (load w2) (load w3).
Proof.
  intros ([H0 L0]&([H1 L1]&([H2 L2]&([H3 L3]&_)%Forall_cons)%Forall_cons)%Forall_cons)%Forall_cons. assert (forall w : list Z, zlen w = 4 -> (8 * N.of_nat (length w) = 32)%N) as Hn by (unfold zlen; intros w; lia).
  rewrite !load_app by (done || by repeat apply Forall_app_2). rewrite !Hn by done. unfold L4. by rewrite !N.shiftl_lxor, !N.shiftl_shiftl.
Qed.
Lemma sub_word_load w : bytes_ok w -> zlen w = 4 -> sub_word (load w) = load (map sub_byte w).
Proof.
  intros Hb Hl. pose proof (le_val_bound w Hb). unfold sub_word, load. rewrite Z2N.id by lia. assert (length w = 4%nat) as <- by (unfold zlen in Hl; lia). by rewrite le_bytes_val.
Qed.
Lemma rot_word_load w : bytes_ok w -> zlen w = 4 -> rot_word (load w) = load (rot w).
Proof.
  intros Hb Hl. destruct w as [|x w]; [done|]. rewrite zlen_cons in Hl. apply Forall_cons in Hb as [Hx Hb]. unfold rot. change (tail (x :: w) ++ ztake 1 (x :: w)) with (w ++ [x]). rewrite load_app, load_cons by (done || by constructor). replace (8 * N.of_nat (length w))%N with 24%N by (unfold zlen in Hl; lia).
  assert (load [x] = Z.to_N x) as -> by (unfold load; cbn; f_equal; lia). assert (Z.to_N x < 2 ^ 8)%N as Hs by (unfold fits in Hx; apply N2Z.inj_lt; rewrite Z2N.id by lia; apply Hx). assert (load w < 2 ^ 24)%N as Hw. { pose proof (le_val_bound w Hb) as Hv. replace (8 * zlen w) with 24 in Hv by lia. unfold load. apply N2Z.inj_lt. rewrite Z2N.id by lia. change (Z.of_N (2 ^ 24)) with (2 ^ 24). lia. }
  pose proof (proj1 (small_bits _ _) Hs) as Bs. pose proof (proj1 (small_bits _ _) Hw) as Bw. unfold rot_word. apply N.bits_inj. intros i. rewrite N.lor_spec, low_bit, N.shiftr_spec', !shl_bit, !N.lxor_spec, !shl_bit. rewrite (Bs (i + 8)%N) by lia. rewrite xorb_false_l. replace (8 <=? i + 8)%N with true by (symmetry; apply N.leb_le; lia). replace (i + 8 - 8)%N with i by lia. cbn [andb].
  destruct (N.leb_spec 24 i); cbn [andb]; [|by rewrite andb_false_r, orb_false_r, xorb_false_r]. rewrite (Bw i) by done. cbn [orb]. rewrite xorb_false_l. destruct (N.ltb_spec i 32); cbn [andb]; [|symmetry; apply Bs; lia]. replace (8 <=? i - 24)%N with false by (symmetry; apply N.leb_gt; lia). by rewrite xorb_false_r.
Qed.
Lemma rot_ok w : bytes_ok w -> zlen w = 4 -> bytes_ok (rot w) /\ zlen (rot w) = 4 /\ map sub_byte (rot w) = rot (map sub_byte w).
Proof.
  intros Hb Hl. destruct w as [|x w]; [done|]. rewrite zlen_cons in Hl. unfold rot. change (ztake 1 (x :: w)) with [x]. cbn [tail]. split; [|split].
  - apply Forall_cons in Hb as [Hx Hb]. apply Forall_app_2; [done|by constructor].
  - rewrite zlen_app. change (zlen [x]) with 1. lia.
  - rewrite map_app. done.
Qed.
Lemma next_key_spec r k : bytes_ok k -> zlen k = 16 -> u8 r -> schedule (load k) (mm_aeskeygenassist (Z.to_N r) (load k)) = load (next_key r k) /\ bytes_ok (next_key r k) /\ zlen (next_key r k) = 16.
Proof.
  intros Hk Hl Hr. destruct (four_words k Hk Hl) as (w0&w1&w2&w3&->&Hw). pose proof Hw as ([H0 L0]&([H1 L1]&([H2 L2]&([H3 L3]&_)%Forall_cons)%Forall_cons)%Forall_cons)%Forall_cons.
  assert (next_key r (w0 ++ w1 ++ w2 ++ w3) = let t := xors (map sub_byte (rot w3)) [r; 0; 0; 0] in let w4 := xors w0 t in let w5 := xors w1 w4 in let w6 := xors w2 w5 in let w7 := xors w3 w6 in w4 ++ w5 ++ w6 ++ w7) as ->.
  { unfold next_key. rewrite ztake_app, (zdrop_app 4) by done. rewrite ztake_app by done. replace (zdrop 8 (w0 ++ w1 ++ w2 ++ w3)) with (w2 ++ w3) by (rewrite (app_assoc w0); symmetry; apply zdrop_app; rewrite zlen_app; lia). rewrite ztake_app by done. replace (zdrop 12 (w0 ++ w1 ++ w2 ++ w3)) with w3 by (rewrite (app_assoc w0), (app_assoc _ w2); symmetry; apply zdrop_app; rewrite !zlen_app; lia). done. }
  cbv zeta. destruct (rot_ok w3 H3 L3) as (Hrb&Hrl&Hrs). pose proof (subs_ok _ Hrb) as Hsb. assert (zlen (map sub_byte (rot w3)) = 4) as Hsl by (by rewrite zlen_map). assert (bytes_ok [r; 0; 0; 0]) as Hcb by (repeat (apply Forall_cons_2; [done || by unfold fits|]); apply Forall_nil_2).
  assert (forall u v, bytes_ok u /\ zlen u = 4 -> bytes_ok v /\ zlen v = 4 -> bytes_ok (xors u v) /\ zlen (xors u v) = 4) as Hx by (intros u v [? ?] [? ?]; split; [by apply xors_ok|rewrite xors_zlen; lia]).
  set (t := xors (map sub_byte (rot w3)) [r; 0; 0; 0]). assert (bytes_ok t /\ zlen t = 4) as Ht by (by apply Hx). assert (load t = N.lxor (rot_word (sub_word (load w3))) (Z.to_N r)) as Et.
  { unfold t. rewrite load_xors by (done || lia). rewrite Hrs, sub_word_load, rot_word_load by (done || by apply subs_ok || by rewrite zlen_map). f_equal. unfold load. f_equal. cbn. lia. }
  rewrite (load_words w0 w1 w2 w3 Hw). pose proof (word_load w0 H0 L0). pose proof (word_load w1 H1 L1). pose proof (word_load w2 H2 L2). pose proof (word_load w3 H3 L3). destruct Ht as [Htb Htl]. pose proof (word_load t Htb Htl).
  assert (forall w, bytes_ok w -> zlen w = 4 -> word_ok (sub_word (load w)) /\ word_ok (N.lxor (rot_word (sub_word (load w))) (Z.to_N r))) as Hsw.
  { intros w Hb Hwl. rewrite sub_word_load by done. pose proof (subs_ok w Hb) as Hs. assert (zlen (map sub_byte w) = 4) as Hsl' by (by rewrite zlen_map). split; [by apply word_load|]. rewrite rot_word_load by done. destruct (rot_ok _ Hs Hsl') as (?&?&_). apply word_lxor; [by apply word_load|]. unfold word_ok. unfold fits in Hr. apply N2Z.inj_lt. rewrite Z2N.id by lia. change (Z.of_N (2 ^ 32)) with (2 ^ 32). change (2 ^ 8) with 256 in Hr. lia. }
  destruct (Hx w0 t) as [B4 L4']; [done..|]. destruct (Hx w1 (xors w0 t)) as [B5 L5]; [done..|]. destruct (Hx w2 (xors w1 (xors w0 t))) as [B6 L6]; [done..|]. destruct (Hx w3 (xors w2 (xors w1 (xors w0 t)))) as [B7 L7]; [done..|]. split.
  - rewrite (schedule_words _ _ _ _ _ (load t)); [|done..|].
    + rewrite load_words by (repeat (apply Forall_cons_2; [done|]); apply Forall_nil_2). rewrite (load_xors w3), (load_xors w2), (load_xors w1), (load_xors w0) by (done || lia). done.
    + unfold mm_aeskeygenassist. destruct (lane_L4 (load w0) (load w1) (load w2) (load w3)) as (_&->&_&->); [done..|]. cbv zeta. destruct (Hsw w1 H1 L1), (Hsw w3 H3 L3). rewrite lanes_L4 by done. rewrite Et. by apply lane_L4.
  - split; [by repeat apply Forall_app_2|]. rewrite !zlen_app. lia.
Qed.
Definition block16 (b : list Z) : Prop := bytes_ok b /\ zlen b = 16.
Lemma expand_rounds_spec rs k : Forall u8 rs -> block16 k -> expand_rounds (map Z.to_N rs) (load k) = map load (key_expansion rs k) /\ Forall block16 (key_expansion rs k).
Proof.
  intros Hr. revert k. induction Hr as [|r rs Hr Hrs IH]; intros k [Hk Hl]; [done|]. cbn [map expand_rounds key_expansion]. cbv zeta. destruct (next_key_spec r k Hk Hl Hr) as (->&Hb&Hn). destruct (IH (next_key r k)) as [-> ?]; [done|]. split; [done|]. by constructor.
Qed.
Definition RCONS : list Z := [0x01; 0x02; 0x04; 0x08; 0x10; 0x20; 0x40; 0x80; 0x1b; 0x36].
Lemma round_keys_spec key : block16 key -> round_keys (expand key) = load key :: map load (key_expansion RCONS key) /\ Forall block16 (key_expansion RCONS key).
Proof.
  intros Hk. destruct (expand_rounds_spec RCONS key) as [E H]; [|done|]; [unfold RCONS; repeat (apply Forall_cons_2; [by unfold fits|]); apply Forall_nil_2|]. split; [|done]. change (round_keys (expand key)) with (load key :: expand_rounds (map Z.to_N RCONS) (load key)). by rewrite E.
Qed.
Lemma store_loads l : Forall block16 l -> map store (map load l) = l.
Proof. induction 1 as [|b l [Hb Hl] H IH]; [done|]. cbn [map]. by rewrite store_load, IH. Qed.
Lemma loads_ok l : Forall block16 l -> Forall m128_ok (map load l).
Proof. intros H. apply Forall_map. eapply Forall_impl; [exact H|]. intros b [? ?]. by apply load_ok. Qed.
(** The cipher's instructions compute FIPS 197's function. *)
Lemma encrypt_spec key x : block16 key -> m128_ok x -> let rk := round_keys (expand key) in m128_ok (encrypt rk x) /\ store (encrypt rk x) = aes128 key (store x).
Proof.
  intros Hk Hx. cbv zeta. destruct (round_keys_spec key Hk) as [-> Hl]. assert (zlen (key_expansion RCONS key) = 10) as Hlen by done. unfold encrypt, aes128. fold RCONS. cbv zeta. set (l := key_expansion RCONS key) in *. clearbody l. destruct Hk as [Hkb Hkl]. pose proof (load_ok key Hkb Hkl) as Hkm.
  assert (ztake 9 (map load l) = map load (ztake 9 l)) as -> by apply firstn_map. assert (Forall block16 (ztake 9 l)) as H9 by (by apply Forall_take).
  destruct (rounds_spec (map load (ztake 9 l)) (N.lxor x (load key)) (loads_ok _ H9) ltac:(auto with m128)) as [Ho Es]. rewrite store_loads, store_lxor, store_load in Es by done. destruct (exists_last (l := l)) as (l9&k&->); [by intros ->|]. rewrite map_app. cbn [map]. rewrite !last_snoc. cbn [default].
  assert (block16 k) as [Hkk Hkkl] by (apply Forall_app in Hl as [_ Hl]; by apply Forall_cons in Hl as [? _]). destruct (aesenclast_spec _ (load k) Ho (load_ok k Hkk Hkkl)) as [Hfin Ef]. split; [done|]. cbn [default from_option id]. rewrite Ef, Es, store_load by done. done.
Qed.
