(* ===== verification/GcmSeal.v ===== *)
(** * Sealing and opening ([net/aes_gcm.rs], [Stream], [seal], [open])

    The stream of a message, in whatever pieces and by eight blocks, by one or
    byte by byte, is NIST SP 800-38D's. *)
From Stdlib Require Import Ring Btauto.
From S2P Require Import Prelude Bytes Sha X25519 Limbs Gcm Gf128 Ghash AesBlock.

(** ** GHASH of blocks *)
Definition be_word (b : list Z) : N := load (rev b).
Lemma xors_comm a b : xors a b = xors b a.
Proof. revert b. unfold xors. induction a as [|x a IH]; intros [|y b]; [done..|]. cbn. by rewrite Z.lxor_comm, IH. Qed.
Lemma map_byte_at s : map (byte_at s) (seqZ 0 (zlen s)) = s.
Proof.
  apply list_eq. intros i. change (map (byte_at s) (seqZ 0 (zlen s))) with (byte_at s <$> seqZ 0 (zlen s)). rewrite list_lookup_fmap. destruct (s !! i) as [x|] eqn:E.
  - pose proof (lookup_lt_Some _ _ _ E). rewrite lookup_seqZ_lt by (unfold zlen; lia). cbn. f_equal. unfold byte_at, zget. destruct (Z.ltb_spec (0 + Z.of_nat i) 0); [lia|]. rewrite Z.add_0_l, Nat2Z.id, E. done.
  - apply lookup_ge_None in E. rewrite lookup_seqZ_ge by (unfold zlen; lia). done.
Qed.
Lemma zlen_rev {A} (l : list A) : zlen (rev l) = zlen l.
Proof. unfold zlen. by rewrite length_rev. Qed.
Lemma reverse_spec x : m128_ok x -> reverse x = load (rev (store x)) /\ m128_ok (reverse x) /\ store (reverse x) = rev (store x).
Proof.
  intros Hx. unfold reverse, mm_shuffle_epi8. assert (map (byte_at (store x)) (rev (seqZ 0 16)) = rev (store x)) as ->. { rewrite map_rev. f_equal. }
  assert (bytes_ok (rev (store x)) /\ zlen (rev (store x)) = 16) as [Hb Hl] by (split; [apply Forall_rev, store_ok|rewrite zlen_rev; apply store_zlen]). split; [done|]. split; [by apply load_ok|by apply store_load].
Qed.
Lemma reverse_load b : block16 b -> reverse (load b) = be_word b /\ m128_ok (be_word b).
Proof. intros [Hb Hl]. destruct (reverse_spec (load b) (load_ok b Hb Hl)) as (E&Hok&_). rewrite E in *. by rewrite store_load in *. Qed.
Lemma block_mult_ok a b : m128_ok b -> m128_ok (block_mult a b).
Proof. intros Hb. by apply (block_mult_from_ok 128 a 0 b). Qed.
Lemma multiply_comm a b : m128_ok a -> m128_ok b -> multiply a b = multiply b a.
Proof. intros Ha Hb. destruct (multiply_ok a b Ha Hb) as [H1 C1], (multiply_ok b a Hb Ha) as [H2 C2]. rewrite (pmul_comm b a) in C2. by eapply field_unique. Qed.
Lemma multiply_0_l a : m128_ok a -> multiply 0 a = 0%N.
Proof. intros Ha. pose proof (multiply_lxor 0 0 a ltac:(done) ltac:(done) Ha) as H. by rewrite (N.lxor_nilpotent (multiply 0 a)) in H. Qed.

(** A product of words that is bilinear and associative. *)
Record field_product (M : N -> N -> N) : Prop := {
  fp_ok : forall a b, m128_ok a -> m128_ok b -> m128_ok (M a b);
  fp_lxor : forall a b c, m128_ok a -> m128_ok b -> m128_ok c -> M (N.lxor a b) c = N.lxor (M a c) (M b c);
  fp_assoc : forall a b c, m128_ok a -> m128_ok b -> m128_ok c -> M (M a b) c = M a (M b c);
  fp_comm : forall a b, m128_ok a -> m128_ok b -> M a b = M b a;
}.
Lemma multiply_product : field_product multiply.
Proof. constructor; [intros a b Ha Hb; by apply multiply_ok|apply multiply_lxor|apply multiply_assoc|apply multiply_comm]. Qed.
Section Serial.
Context (M : N -> N -> N) (HM : field_product M) (h : N) (Hh : m128_ok h).
(** One block after the other. *)
Fixpoint serial (y : N) (cs : list N) : N := match cs with [] => y | c :: cs => serial (M (N.lxor y c) h) cs end.
Fixpoint hp (m : nat) : N := match m with O => h | S m => M (hp m) h end.
Lemma hp_ok m : m128_ok (hp m).
Proof. induction m as [|m IH]; [done|]. by apply (fp_ok M HM). Qed.
Lemma hp_left m : M h (hp m) = hp (S m).
Proof. cbn [hp]. apply (fp_comm M HM); [done|apply hp_ok]. Qed.
Lemma serial_ok y cs : m128_ok y -> Forall m128_ok cs -> m128_ok (serial y cs).
Proof. intros Hy Hc. revert y Hy. induction Hc as [|c cs Hc Hcs IH]; intros y Hy; [done|]. apply IH. apply (fp_ok M HM); auto with m128. Qed.
Lemma serial_step y c cs : m128_ok y -> m128_ok c -> Forall m128_ok cs -> serial y (c :: cs) = N.lxor (M (N.lxor y c) (hp (length cs))) (serial 0 cs).
Proof.
  intros Hy Hc Hcs. cbn [serial]. revert y c Hy Hc. induction Hcs as [|d ds Hd Hds IH]; intros y c Hy Hc; [cbn [serial length hp]; by rewrite N.lxor_0_r|].
  assert (m128_ok (N.lxor y c)) as Hyc by auto with m128. pose proof (fp_ok M HM (N.lxor y c) h Hyc Hh) as Hm. cbn [serial length]. rewrite (IH _ d) by done. rewrite (IH 0%N d) by done. rewrite N.lxor_0_l. pose proof (hp_ok (length ds)). rewrite (fp_lxor M HM) by done. rewrite (fp_assoc M HM), hp_left by done. by_bits.
Qed.
End Serial.
Lemma reduce_xor3 a b : words_ok a -> words_ok b -> reduce (xor3 a b) = N.lxor (reduce a) (reduce b).
Proof.
  intros Ha Hb. destruct (xor3_ok a b Ha Hb) as [Hx Hv], (reduce_ok a Ha) as [Oa Ca], (reduce_ok b Hb) as [Ob Cb], (reduce_ok _ Hx) as [Ox Cx]. rewrite Hv, pmul_lxor_r in Cx. eapply (field_unique 128); [done|auto with m128|exact Cx|]. rewrite pmul_lxor_r. by apply congruent_lxor.
Qed.
Lemma fold_rounds ks b : fold_left (fun b k => map (fun x => mm_aesenc x k) b) ks b = map (fun x => fold_left mm_aesenc ks x) b.
Proof. revert b. induction ks as [|k ks IH]; intros b; cbn [fold_left]; [by rewrite map_id|]. by rewrite IH, map_map. Qed.

(** ** The standard's mode (SP 800-38D) *)

(** Blocks of 16 bytes, the last completed with zeros. *)
Fixpoint blocks_from (fuel : nat) (l : list Z) : list (list Z) :=
  match fuel, l with S fuel, _ :: _ => padded_block (ztake 16 l) :: blocks_from fuel (zdrop 16 l) | _, _ => [] end.
Definition blocks (l : list Z) : list (list Z) := blocks_from (length l) l.
Fixpoint ghash_from (h y : N) (l : list (list Z)) {struct l} : N := match l with [] => y | b :: l => ghash_from h (block_mult (N.lxor y (be_word b)) h) l end.
Definition ghash (h : N) (l : list (list Z)) : N := ghash_from h 0 l.
Section Standard.
Context (key nonce aad : list Z).
Definition counter_cipher (i : Z) : list Z := aes128 key (nonce ++ be_bytes 4 i).
(** The keystream's [n]-th byte, and bytes combined with it from the [n]-th. *)
Definition key_byte (n : Z) : Z := byte_at (counter_cipher (n / 16 + 2)) (n mod 16).
Fixpoint xored (n : Z) (l : list Z) : list Z := match l with [] => [] | b :: l => Z.lxor b (key_byte n) :: xored (n + 1) l end.
Definition gcm_tag (c : list Z) : list Z :=
  let h := be_word (aes128 key (zrep 16 0)) in
  let s := ghash h (blocks aad ++ blocks c ++ [be_bytes 8 (8 * zlen aad) ++ be_bytes 8 (8 * zlen c)]) in
  xors (be_bytes 16 (Z.of_N s)) (counter_cipher 1).
Definition gcm_seal (p : list Z) : list Z := xored 0 p ++ gcm_tag (xored 0 p).
End Standard.

#[local] Opaque multiply block_mult aes128.
Lemma blocks_from_enough f g l : (length l <= f)%nat -> (length l <= g)%nat -> blocks_from f l = blocks_from g l.
Proof.
  revert g l. induction f as [|f IH]; intros g l Hf Hg; [destruct l; [by destruct g|cbn in Hf; lia]|]. destruct l as [|x l]; [by destruct g|]. destruct g as [|g]; [cbn in Hg; lia|]. cbn [blocks_from]. f_equal. unfold zdrop. change (Z.to_nat 16) with 16%nat. cbn [drop length] in *. apply IH; rewrite length_drop; lia.
Qed.
Lemma blocks_cons b l : zlen b = 16 -> blocks (b ++ l) = b :: blocks l.
Proof.
  intros Hb. unfold blocks. destruct (b ++ l) as [|y r] eqn:Eb; [apply app_eq_nil in Eb as [-> _]; done|]. cbn [length blocks_from]. rewrite <- Eb, ztake_app, zdrop_app by done. unfold padded_block. rewrite Hb, app_nil_r. f_equal. apply (f_equal (@length Z)) in Eb. rewrite length_app in Eb. cbn in Eb. unfold zlen in Hb. apply blocks_from_enough; lia.
Qed.
Lemma blocks_concat ws part : Forall block16 ws -> blocks (concat ws ++ part) = ws ++ blocks part.
Proof. induction 1 as [|b ws [Hb Hl] H IH]; [done|]. cbn [concat app]. rewrite <- app_assoc, blocks_cons by done. by rewrite IH. Qed.
Lemma blocks_short part : 0 < zlen part < 16 -> blocks part = [padded_block part].
Proof.
  intros Hp. unfold blocks. destruct part as [|x l]; [change (zlen (@nil Z)) with 0 in Hp; lia|]. cbn [length blocks_from]. rewrite ztake_all, zdrop_all by lia. by destruct (length l).
Qed.
Lemma padded_ok l : bytes_ok l -> zlen l <= 16 -> block16 (padded_block l).
Proof. intros Hb Hl. pose proof (zlen_nonneg l). unfold padded_block. split; [apply Forall_app_2; [done|]; apply Forall_replicate; by unfold fits|]. rewrite zlen_app, zlen_zrep by lia. lia. Qed.
Lemma blocks_ok l : bytes_ok l -> Forall block16 (blocks l).
Proof.
  intros Hl. unfold blocks. generalize (length l). intros f. revert l Hl. induction f as [|f IH]; intros l Hl; [by destruct l|]. destruct l as [|x l]; [done|]. cbn [blocks_from]. constructor; [|apply IH; by apply Forall_drop]. apply padded_ok; [by apply Forall_take|]. rewrite zlen_ztake by lia. lia.
Qed.
Lemma ghash_from_ok h y l : m128_ok h -> m128_ok y -> m128_ok (ghash_from h y l).
Proof. intros Hh. revert y. induction l as [|b l IH]; intros y Hy; [exact Hy|]. cbn [ghash_from]. apply IH, block_mult_ok, Hh. Qed.
Lemma ghash_from_app h y l k : ghash_from h y (l ++ k) = ghash_from h (ghash_from h y l) k.
Proof. revert y. induction l as [|b l IH]; intros y; [reflexivity|]. cbn [ghash_from app]. apply IH. Qed.
Lemma ghash_serial h l y : m128_ok h -> m128_ok y -> Forall block16 l -> ghash_from h y l = serial multiply h y (map be_word l).
Proof.
  intros Hh Hy Hl. revert y Hy. induction Hl as [|b l Hb Hl IH]; intros y Hy; [reflexivity|]. cbn [ghash_from map serial]. destruct (reverse_load b Hb) as [_ Hw]. rewrite multiply_spec by auto with m128. apply IH, block_mult_ok, Hh.
Qed.

(** ** The stream *)
Definition middle (rk : list N) (x : N) : N := fold_left mm_aesenc (ztake 9 (tail rk)) (N.lxor x (default 0%N (head rk))).
Lemma middles rk l : fold_left (fun b k => map (fun x => mm_aesenc x k) b) (ztake 9 (tail rk)) (map (fun x => N.lxor x (default 0%N (head rk))) l) = map (middle rk) l.
Proof. by rewrite fold_rounds, map_map. Qed.
Lemma encrypt_middle key x : block16 key -> encrypt (round_keys (expand key)) x = mm_aesenclast (middle (round_keys (expand key)) x) (default 0%N (last (round_keys (expand key)))).
Proof.
  intros Hk. destruct (round_keys_spec key Hk) as [-> _]. assert (key_expansion RCONS key <> []) as Hne by done. destruct (key_expansion RCONS key) as [|k l]; [done|]. done.
Qed.
Lemma reduce_zero : reduce (0%N, 0%N, 0%N) = 0%N.
Proof. vm_compute. reflexivity. Qed.
#[local] Opaque encrypt reduce.
Section Stream.
Context (key nonce12 aad : list Z) (Hkey : block16 key) (Hnonce : bytes_ok nonce12) (Hnonce12 : zlen nonce12 = 12) (Haad : bytes_ok aad).
Let g := expand key.
Let E := counter_cipher key nonce12.
Let H := be_word (aes128 key (zrep 16 0)).
Let xored := xored key nonce12.
Lemma zero16 : block16 (zrep 16 0).
Proof. split; [|done]. apply Forall_replicate. by unfold fits. Qed.
Lemma h_first : be_word (store (encrypt (round_keys g) 0)) = H /\ m128_ok H /\ reverse (encrypt (round_keys g) 0) = H.
Proof.
  destruct (encrypt_spec key 0 Hkey ltac:(done)) as [Ho Es]. fold g in Ho, Es. assert (store 0 = zrep 16 0) as Ez by done. rewrite Ez in Es. unfold H. rewrite <- Es. destruct (reverse_load (store (encrypt (round_keys g) 0))) as [Er Hok]; [split; [apply store_ok|apply store_zlen]|]. rewrite load_store in Er by done. done.
Qed.
Lemma powers_get n x h i m : x = hp multiply h m -> (i < n)%nat -> powers n x h !! i = Some (hp multiply h (S m + i)).
Proof.
  revert x i m. induction n as [|n IH]; intros x i m Hx Hi; [lia|]. cbn [powers]. cbv zeta. destruct i as [|i]; [cbn; by rewrite Hx, Nat.add_0_r|]. cbn [lookup list_lookup]. rewrite (IH _ i (S m)) by (lia || by rewrite Hx). do 2 f_equal. lia.
Qed.
Lemma h_power_spec i : 0 <= i < 8 -> h_power g i = Ok (hp multiply H (Z.to_nat i)).
Proof.
  intros Hi. unfold h_power. assert (h_powers g = H :: powers 7 H H) as ->. { destruct h_first as (_&_&<-). done. } unfold zget. destruct (Z.ltb_spec i 0); [lia|]. destruct (Z.to_nat i) as [|k] eqn:Ek; [done|]. change ((H :: powers 7 H H) !! S k) with (powers 7 H H !! k). rewrite (powers_get 7 H H k 0) by (lia || done). done.
Qed.
Lemma block_of_spec i : block_of (load (padded_block nonce12)) i = load (nonce12 ++ be_bytes 4 i) /\ block16 (nonce12 ++ be_bytes 4 i).
Proof.
  assert (block16 (nonce12 ++ be_bytes 4 i)) as Hb by (split; [apply Forall_app_2; [done|apply be_bytes_ok]|rewrite zlen_app, be_bytes_zlen; lia]). split; [|done]. assert (padded_block nonce12 = nonce12 ++ zrep 4 0) as -> by (unfold padded_block; by rewrite Hnonce12).
  assert (exists w0 w1 w2, nonce12 = w0 ++ w1 ++ w2 /\ zlen w0 = 4 /\ zlen w1 = 4 /\ zlen w2 = 4) as (w0&w1&w2&->&L0&L1&L2).
  { exists (ztake 4 nonce12), (ztake 4 (zdrop 4 nonce12)), (zdrop 8 nonce12). rewrite !zlen_ztake, !zlen_zdrop by lia. split; [|lia]. rewrite <- (ztake_zdrop 4 nonce12) at 1. f_equal. rewrite <- (ztake_zdrop 4 (zdrop 4 nonce12)) at 1. by rewrite zdrop_zdrop by lia. }
  apply Forall_app in Hnonce as [B0 [B1 B2]%Forall_app]. rewrite <- !app_assoc. assert (bytes_ok (zrep 4 0)) by (apply Forall_replicate; by unfold fits). rewrite !load_words by (repeat (apply Forall_cons_2; [first [done|split; [apply be_bytes_ok|apply be_bytes_zlen]]|]); apply Forall_nil_2).
  unfold block_of, mm_insert_epi32_3. pose proof (word_load w0 B0 L0). pose proof (word_load w1 B1 L1). pose proof (word_load w2 B2 L2). assert (word_ok (load (be_bytes 4 i))) by (apply word_load; [apply be_bytes_ok|apply be_bytes_zlen]). destruct (lane_L4 (load w0) (load w1) (load w2) (load (zrep 4 0))) as (->&->&->&_); [done..|]. change (Z.to_N (le_val (be_bytes 4 i))) with (load (be_bytes 4 i)). by rewrite lanes_L4.
Qed.
Lemma cipher_spec i : let x := encrypt (round_keys g) (block_of (load (padded_block nonce12)) i) in m128_ok x /\ store x = E i.
Proof.
  cbv zeta. destruct (block_of_spec i) as [-> [Hb Hl]]. destruct (encrypt_spec key (load (nonce12 ++ be_bytes 4 i)) Hkey (load_ok _ Hb Hl)) as [Ho Es]. rewrite store_load in Es by done. done.
Qed.
Lemma E_ok i : block16 (E i).
Proof. destruct (cipher_spec i) as [_ <-]. split; [apply store_ok|apply store_zlen]. Qed.
Lemma absorb_spec s b : block16 b -> m128_ok (hash s) -> absorb g s (load b) = Ok (set_hash s (block_mult (N.lxor (hash s) (be_word b)) H)).
Proof.
  intros Hb Hs. unfold absorb. rewrite h_power_spec by lia. cbn [mbind outcome_bind]. destruct (reverse_load b Hb) as [-> Hw]. destruct h_first as (_&HH&_). change (hp multiply H (Z.to_nat 0)) with H. rewrite multiply_spec by auto with m128. done.
Qed.
(** What of a piece is hashed. *)
Definition ct (decrypt : bool) (src dst : list Z) : list Z := if decrypt then src else dst.
Record common (ws : list (list Z)) (s : Stream) : Prop := {
  c_blocks : Forall block16 ws;
  c_nonce : nonce s = load (padded_block nonce12);
  c_hash : hash s = ghash_from H 0 (blocks aad ++ ws);
  c_keystream : zlen (keystream s) = 16;
  c_cipher : zlen (cipher s) = 16;
}.
(** After the blocks [ws], between two blocks or in one, of which [part] is
    done. *)
Definition idle (ws : list (list Z)) (s : Stream) : Prop := common ws s /\ used s = 16 /\ counter s = 1 + zlen ws.
Definition busy (ws : list (list Z)) (part : list Z) (s : Stream) : Prop :=
  common ws s /\ zlen part < 16 /\ used s = zlen part /\ counter s = 2 + zlen ws /\ keystream s = E (2 + zlen ws) /\ ztake (zlen part) (cipher s) = part /\ bytes_ok part.
Lemma H_ok : m128_ok H.
Proof. apply h_first. Qed.
Lemma hash_ok ws s : common ws s -> m128_ok (hash s).
Proof. intros [_ _ -> _ _]. apply ghash_from_ok; [apply H_ok|done]. Qed.
Lemma absorbed ws s b : common ws s -> block16 b -> exists s', absorb g s (load b) = Ok s' /\ common (ws ++ [b]) s' /\ counter s' = counter s /\ used s' = used s /\ keystream s' = keystream s /\ cipher s' = cipher s.
Proof.
  intros Hc Hb. rewrite absorb_spec by (done || by eapply hash_ok). eexists. split; [done|]. split; [|done]. destruct Hc as [Hw Hn Hh Hk Hci]. constructor; cbn [nonce hash keystream cipher set_hash]; [by apply Forall_app_2; [|constructor]|done| |done|done].
  rewrite Hh, app_assoc, (ghash_from_app _ _ (blocks aad ++ ws)). done.
Qed.
Lemma key_byte_at ws (part : list Z) : zlen part < 16 -> Forall block16 ws -> key_byte key nonce12 (16 * zlen ws + zlen part) = byte_at (E (2 + zlen ws)) (zlen part).
Proof.
  intros Hp Hw. pose proof (zlen_nonneg part). unfold key_byte. replace ((16 * zlen ws + zlen part) / 16) with (zlen ws) by (rewrite Z.add_comm, Z.mul_comm, Z.div_add, Z.div_small by lia; lia). replace ((16 * zlen ws + zlen part) mod 16) with (zlen part) by (rewrite Z.add_comm, Z.mul_comm, Z.mod_add, Z.mod_small by lia; lia). by rewrite (Z.add_comm (zlen ws)).
Qed.
Lemma insert_at (l : list Z) i x : 0 <= i < zlen l -> ztake (i + 1) (<[Z.to_nat i := x]> l) = ztake i l ++ [x].
Proof.
  intros Hi. unfold ztake, zlen in *. replace (Z.to_nat (i + 1)) with (S (Z.to_nat i)) by lia. rewrite (take_S_r _ _ x) by (apply list_lookup_insert_eq; lia). by rewrite take_insert_ge by lia.
Qed.
(** The byte loop, in a block. *)
Lemma bytes_spec (src : list Z) ws (part : list Z) s dec : bytes_ok src -> busy ws part s -> exists now rest dst s', bytes g s src dec = Ok (dst, rest, s') /\ src = now ++ rest /\ dst = xored (16 * zlen ws + zlen part) now /\ let c := ct dec now dst in
  (busy ws (part ++ c) s' /\ rest = []) \/ (zlen (part ++ c) = 16 /\ idle (ws ++ [part ++ c]) s').
Proof.
  revert part s. induction src as [|input src IH]; intros part s Hsrc Hb; [exists [], [], [], s; do 3 (split; [done|]); left; destruct dec; cbn; by rewrite app_nil_r|]. apply Forall_cons in Hsrc as [Hi Hsrc]. destruct Hb as (Hc&Hp&Hu&Hn&Hk&Ht&Hpo). pose proof (zlen_nonneg part) as Hp0. cbn [bytes].
  rewrite Hu. destruct (Z.ltb_spec (zlen part) 16); [|lia]. destruct Hc as [Hw Hnn Hh Hkl Hcl]. destruct (zget_is_Some (keystream s) (zlen part) ltac:(lia)) as [k Ek]. rewrite Ek. cbn [or_panic mbind outcome_bind]. destruct (zget_is_Some (cipher s) (zlen part) ltac:(lia)) as [old Eo]. rewrite Eo. cbn [or_panic mbind outcome_bind].
  assert (k = key_byte key nonce12 (16 * zlen ws + zlen part)) as Ekb. { rewrite key_byte_at by done. unfold byte_at. rewrite <- Hk, Ek. done. } set (output := Z.lxor input k). set (cb := if dec then input else output). cbn [cipher used nonce counter hash keystream].
  assert (u8 k) as Hk8. { rewrite Ekb, key_byte_at by done. apply byte_at_ok, E_ok. } assert (u8 cb) as Hcb by (unfold cb, output; destruct dec; [done|by apply lxor_fits]).
  set (s1 := mkStream (Gcm.nonce s) (counter s) (hash s) (keystream s) (<[Z.to_nat (zlen part) := cb]> (cipher s)) (zlen part + 1)). assert (common ws s1) as Hc1. { constructor; cbn; try done. unfold zlen in *. by rewrite length_insert. }
  assert (ztake (zlen part + 1) (cipher s1) = part ++ [cb]) as Ht1 by (cbn; rewrite insert_at by lia; by rewrite Ht). assert (zlen (part ++ [cb]) = zlen part + 1) as Hl1 by (rewrite zlen_app; done). destruct (Z.eqb_spec (zlen part + 1) 16) as [H16|H16].
  - assert (cipher s1 = part ++ [cb]) as Ec1. { rewrite <- Ht1. symmetry. apply ztake_all. rewrite (c_cipher _ _ Hc1). lia. } change (cipher s1) with (<[Z.to_nat (zlen part) := cb]> (cipher s)) in Ec1. rewrite Ec1. destruct (absorbed ws s1 (part ++ [cb]) Hc1) as (s2&->&Hc2&Hn2&Hu2&_&_); [split; [apply Forall_app_2; [done|by constructor]|lia]|]. cbn [mbind outcome_bind].
    assert (bytes g s2 src dec = Ok ([], src, s2)) as ->. { destruct src as [|y src]; [done|]. cbn [bytes]. rewrite Hu2. cbn [used s1]. destruct (Z.ltb_spec (zlen part + 1) 16); [lia|done]. } cbn [mbind outcome_bind].
    exists [input], src, [output], s2. split; [done|]. split; [done|]. split; [unfold output; by rewrite Ekb|]. cbv zeta. right. assert (ct dec [input] [output] = [cb]) as -> by (by destruct dec). split; [lia|]. split; [done|]. rewrite Hu2, Hn2, zlen_app. cbn [used counter s1]. change (zlen [part ++ [cb]]) with 1. lia.
  - cbn [mbind outcome_bind]. destruct (IH (part ++ [cb]) s1 Hsrc) as (now&rest&dst&s2&Eb&Es&Ed&Hst).
    { split; [done|]. rewrite Hl1. repeat split; try done; [lia|]. apply Forall_app_2; [done|by constructor]. }
    rewrite Eb. cbn [mbind outcome_bind]. exists (input :: now), rest, (output :: dst), s2. split; [done|]. split; [by rewrite Es|]. split; [rewrite Ed, Hl1; unfold output; rewrite Ekb; unfold xored; cbn [GcmSeal.xored]; f_equal; f_equal; lia|]. cbv zeta in *.
    replace (part ++ ct dec (input :: now) (output :: dst)) with ((part ++ [cb]) ++ ct dec now dst) by (rewrite <- app_assoc; unfold cb; by destruct dec). done.
Qed.
Lemma xored_app n a b : xored n (a ++ b) = xored n a ++ xored (n + zlen a) b.
Proof.
  revert n. induction a as [|x a IH]; intros n; [cbn [app]; change (zlen (@nil Z)) with 0; by rewrite Z.add_0_r|]. unfold xored in *. cbn [app GcmSeal.xored]. rewrite IH, zlen_cons. do 3 f_equal. lia.
Qed.
Lemma xored_zlen n l : zlen (xored n l) = zlen l.
Proof. revert n. induction l as [|x l IH]; intros n; [done|]. unfold xored in *. cbn [GcmSeal.xored]. by rewrite !zlen_cons, IH. Qed.
Lemma xored_xors n l : xored n l = xors l (map (key_byte key nonce12) (seqZ n (zlen l))).
Proof.
  revert n. induction l as [|x l IH]; intros n; [done|]. rewrite zlen_cons. pose proof (zlen_nonneg l). rewrite seqZ_cons by lia. unfold xored, xors in *. cbn [GcmSeal.xored map zip_with]. rewrite IH, <- Z.add_1_r. do 4 f_equal. lia.
Qed.
Lemma xored_block j (b : list Z) : zlen b = 16 -> xored (16 * j) b = xors b (E (j + 2)).
Proof.
  intros Hb. rewrite xored_xors, Hb. f_equal. destruct (E_ok (j + 2)) as [_ Hl]. rewrite <- (map_byte_at (E (j + 2))), Hl. replace (16 * j) with (16 * j + 0) by lia. rewrite <- fmap_add_seqZ. change (Z.add (16 * j) <$> seqZ 0 16) with (map (Z.add (16 * j)) (seqZ 0 16)). rewrite map_map. apply map_ext_in. intros i Hi%list_elem_of_In%elem_of_seqZ.
  unfold key_byte. replace ((16 * j + i) / 16) with j by (rewrite Z.add_comm, Z.mul_comm, Z.div_add, Z.div_small by lia; lia). replace ((16 * j + i) mod 16) with i by (rewrite Z.add_comm, Z.mul_comm, Z.mod_add, Z.mod_small by lia; lia). done.
Qed.
Lemma xored_ok n l : bytes_ok l -> bytes_ok (xored n l).
Proof.
  intros Hl. rewrite xored_xors. apply xors_ok; [done|]. apply Forall_map, Forall_true. intros i. apply byte_at_ok, E_ok.
Qed.
(** One block. *)
Lemma block_out i b : block16 b -> let x := N.lxor (encrypt (round_keys g) (block_of (load (padded_block nonce12)) i)) (load b) in m128_ok x /\ store x = xored (16 * (i - 2)) b /\ load (xored (16 * (i - 2)) b) = x.
Proof.
  intros [Hb Hl]. cbv zeta. destruct (cipher_spec i) as [Ho Es]. pose proof (load_ok b Hb Hl) as Hlo. assert (m128_ok (N.lxor (encrypt (round_keys g) (block_of (load (padded_block nonce12)) i)) (load b))) as Hx by auto with m128. split; [done|].
  assert (store (N.lxor (encrypt (round_keys g) (block_of (load (padded_block nonce12)) i)) (load b)) = xored (16 * (i - 2)) b) as Ed. { rewrite store_lxor, Es, store_load by done. rewrite xored_block by done. replace (i - 2 + 2) with i by lia. apply xors_comm. }
  split; [done|]. by rewrite <- Ed, load_store.
Qed.
Lemma ct_block n (b : list Z) dec : block16 b -> block16 (ct dec b (xored n b)).
Proof. intros [Hb Hl]. destruct dec; cbn [ct]; [done|]. split; [by apply xored_ok|]. by rewrite xored_zlen. Qed.
Lemma one_spec ws s (b : list Z) (dec : bool) : idle ws s -> block16 b -> zlen ws < 2 ^ 32 - 2 -> let '(blk, s1) := counter_block s in let x := N.lxor (encrypt (round_keys g) blk) (load b) in
  store x = xored (16 * zlen ws) b /\ exists s', absorb g s1 (if dec then load b else x) = Ok s' /\ idle (ws ++ [ct dec b (xored (16 * zlen ws) b)]) s'.
Proof.
  intros (Hc&Hu&Hn) Hb Hw. pose proof (zlen_nonneg ws). unfold counter_block. cbv zeta. rewrite (c_nonce _ _ Hc), Hn. replace (1 + zlen ws + 1) with (2 + zlen ws) by lia. rewrite wrap_id by (unfold fits; change (2 ^ 32) with 4294967296 in *; lia). destruct (block_out (2 + zlen ws) b Hb) as (Hx&Ex&Lx). replace (2 + zlen ws - 2) with (zlen ws) in * by lia. split; [done|].
  set (s1 := mkStream _ _ _ _ _ _). assert (common ws s1) as Hc1 by (destruct Hc; by constructor). pose proof (ct_block (16 * zlen ws) b dec Hb) as Hcb. destruct (absorbed ws s1 _ Hc1 Hcb) as (s'&Ea&Hc'&Hn'&Hu'&_&_). exists s'. split; [rewrite <- Ea; f_equal; destruct dec; cbn [ct]; by rewrite ?Lx|]. split; [done|]. rewrite Hu', Hn', zlen_app. cbn [used counter s1]. change (zlen [_]) with 1. lia.
Qed.
(** Eight blocks at a time. *)
Lemma counter_blocks_spec n s : 0 <= counter s -> counter s + Z.of_nat n < 2 ^ 32 -> counter_blocks n s = (map (block_of (nonce s)) (seqZ (counter s + 1) (Z.of_nat n)), mkStream (nonce s) (counter s + Z.of_nat n) (hash s) (keystream s) (cipher s) (used s)).
Proof.
  revert s. induction n as [|n IH]; intros s H0 Hn; [cbn [counter_blocks]; change (Z.of_nat 0) with 0; rewrite Z.add_0_r; by destruct s|]. cbn [counter_blocks]. unfold counter_block. rewrite wrap_id by (unfold fits; lia). rewrite IH by (cbn [counter]; lia). cbn [nonce counter hash keystream cipher used]. rewrite (seqZ_cons (counter s + 1) (Z.of_nat (S n))) by lia. cbn [map]. f_equal; [f_equal; f_equal; f_equal; lia|f_equal; lia].
Qed.
Lemma concat_zlen bs : Forall block16 bs -> zlen (concat bs) = 16 * zlen bs.
Proof. induction 1 as [|b bs [_ Hl] H' IH]; [done|]. cbn [concat]. rewrite zlen_app, zlen_cons. lia. Qed.
Lemma ct_app dec a b n : ct dec (a ++ b) (xored n (a ++ b)) = ct dec a (xored n a) ++ ct dec b (xored (n + zlen a) b).
Proof. destruct dec; cbn [ct]; [done|]. apply xored_app. Qed.
Lemma eight_from_spec bs i dec hash0 sum : Forall block16 bs -> (length bs <= 8)%nat -> m128_ok hash0 -> words_ok sum -> let y := if 8 - zlen bs =? 0 then hash0 else 0%N in
  exists sum' cs, eight_from g (map (middle (round_keys g)) (map (block_of (load (padded_block nonce12))) (seqZ i (zlen bs)))) (8 - zlen bs) (concat bs) dec hash0 sum = Ok (xored (16 * (i - 2)) (concat bs), sum')
  /\ words_ok sum' /\ Forall block16 cs /\ length cs = length bs /\ concat cs = ct dec (concat bs) (xored (16 * (i - 2)) (concat bs)) /\ reduce sum' = N.lxor (reduce sum) (serial multiply H y (map be_word cs)).
Proof.
  intros Hbs. revert i sum. induction Hbs as [|b bs Hb Hbs IH]; intros i sum Hl Hh Hs; cbv zeta.
  - exists sum, []. split; [done|]. split; [done|]. split; [done|]. split; [done|]. split; [by destruct dec|]. cbn [map serial]. by rewrite N.lxor_0_r.
  - cbn [length] in Hl. pose proof (zlen_nonneg bs). rewrite zlen_cons. rewrite seqZ_cons by lia. cbn [map concat eight_from]. destruct Hb as [Hbb Hbl]. rewrite ztake_app, zdrop_app by done. rewrite <- (encrypt_middle key) by done. fold g. destruct (block_out i b) as (Hx&Ex&Lx); [done|]. set (x := N.lxor (encrypt (round_keys g) (block_of (load (padded_block nonce12)) i)) (load b)) in *.
    set (cb := ct dec b (xored (16 * (i - 2)) b)). pose proof (ct_block (16 * (i - 2)) b dec (conj Hbb Hbl)) as Hcb. fold cb in Hcb. destruct (reverse_load cb Hcb) as [Er Hw]. assert ((if dec then load b else x) = load cb) as -> by (unfold cb; destruct dec; [done|symmetry; exact Lx]). rewrite Er.
    rewrite h_power_spec by (unfold zlen in *; lia). cbn [mbind outcome_bind]. set (c := if 8 - (1 + zlen bs) =? 0 then N.lxor (be_word cb) hash0 else be_word cb). set (k := hp multiply H (Z.to_nat (7 - (8 - (1 + zlen bs))))). assert (m128_ok k) as Hk by (apply hp_ok; [apply multiply_product|apply H_ok]). assert (m128_ok c) as Hc by (unfold c; destruct (8 - (1 + zlen bs) =? 0); [by apply ok_lxor|done]).
    destruct (product_ok c k Hc Hk) as [Hpo _]. destruct (xor3_ok sum (product c k) Hs Hpo) as [Hxo _]. destruct (IH (Z.succ i) (xor3 sum (product c k)) ltac:(lia) Hh Hxo) as (sum'&cs&Ee&Hs'&Hcs&Hlc&Ec&Ered). replace (8 - (1 + zlen bs) + 1) with (8 - zlen bs) by lia. replace (Z.pred (1 + zlen bs)) with (zlen bs) by lia. rewrite Ee. cbn [mbind outcome_bind].
    replace (16 * (Z.succ i - 2)) with (16 * (i - 2) + zlen b) in * by lia. exists sum', (cb :: cs). split; [rewrite Ex, xored_app; done|]. split; [done|]. split; [by constructor|]. split; [cbn; lia|]. split; [cbn [concat]; by rewrite Ec, ct_app|]. rewrite Ered. cbn [map].
    assert (Forall m128_ok (map be_word cs)) as Hws. { apply Forall_map. eapply Forall_impl; [exact Hcs|]. intros a Ha. by apply reverse_load. } replace (8 - zlen bs =? 0) with false in * by (symmetry; apply Z.eqb_neq; unfold zlen; lia). rewrite serial_step; [|apply multiply_product|apply H_ok|by destruct (_ =? _)|done|done].
    rewrite reduce_xor3 by done. change (reduce (product c k)) with (multiply c k). rewrite N.lxor_assoc. f_equal. f_equal. unfold c, k. rewrite length_map, Hlc. f_equal; [destruct (_ =? _); [apply N.lxor_comm|by rewrite N.lxor_0_l]|]. f_equal. unfold zlen. lia.
Qed.
(** From [ws] whole blocks to [ws'], over the bytes [now]. *)
Definition advanced (ws : list (list Z)) (dec : bool) (now dst : list Z) (ws' : list (list Z)) (s' : Stream) : Prop :=
  exists cs, ws' = ws ++ cs /\ Forall block16 cs /\ dst = xored (16 * zlen ws) now /\ concat cs = ct dec now dst /\ idle ws' s'.
Lemma ct_zlen dec now n : zlen (ct dec now (xored n now)) = zlen now.
Proof. destruct dec; cbn [ct]; [done|apply xored_zlen]. Qed.
Lemma advanced_refl ws dec s : idle ws s -> advanced ws dec [] [] ws s.
Proof. intros Hi. exists []. rewrite app_nil_r. split; [done|]. split; [done|]. split; [done|]. split; [by destruct dec|done]. Qed.
Lemma advanced_zlen ws dec now dst ws' s : advanced ws dec now dst ws' s -> 16 * zlen ws' = 16 * zlen ws + zlen now.
Proof. intros (cs&->&Hcs&->&Hc&_). apply (f_equal zlen) in Hc. rewrite concat_zlen, ct_zlen in Hc by done. rewrite zlen_app. lia. Qed.
Lemma advanced_trans ws dec n1 d1 ws1 s1 n2 d2 ws2 s2 : advanced ws dec n1 d1 ws1 s1 -> advanced ws1 dec n2 d2 ws2 s2 -> advanced ws dec (n1 ++ n2) (d1 ++ d2) ws2 s2.
Proof.
  intros H1 H2. pose proof (advanced_zlen _ _ _ _ _ _ H1) as Hz. destruct H1 as (c1&->&Hc1&->&E1&_), H2 as (c2&->&Hc2&->&E2&Hi). exists (c1 ++ c2). rewrite app_assoc. split; [done|]. split; [by apply Forall_app_2|]. rewrite Hz in *. rewrite <- xored_app. split; [done|]. split; [by rewrite concat_app, E1, E2, ct_app|done].
Qed.
Lemma cut_blocks n l : bytes_ok l -> zlen l = 16 * Z.of_nat n -> exists bs, l = concat bs /\ Forall block16 bs /\ length bs = n.
Proof.
  revert l. induction n as [|n IH]; intros l Hl Hz; [exists []; by rewrite (zlen_zero l)|]. destruct (IH (zdrop 16 l)) as (bs&E'&Hbs&Hn); [by apply Forall_drop|rewrite zlen_zdrop; lia|]. exists (ztake 16 l :: bs). cbn [concat length]. rewrite <- E', ztake_zdrop. split; [done|]. split; [|lia]. constructor; [|done]. split; [by apply Forall_take|rewrite zlen_ztake; lia].
Qed.
Lemma eight_spec ws s src dec : idle ws s -> bytes_ok src -> zlen src = 128 -> zlen ws + 8 <= 2 ^ 32 - 2 -> exists dst ws' s', eight g s src dec = Ok (dst, s') /\ advanced ws dec src dst ws' s'.
Proof.
  intros (Hc&Hu&Hn) Hsrc Hl Hw. destruct (cut_blocks 8 src Hsrc Hl) as (bs&->&Hbs&Hlen). pose proof (zlen_nonneg ws). assert (zlen bs = 8) as Hz by (unfold zlen; lia). unfold eight. rewrite counter_blocks_spec by (rewrite Hn; change (2 ^ 32) with 4294967296 in *; lia). cbv zeta. rewrite middles.
  rewrite (c_nonce _ _ Hc), Hn. cbn [hash]. destruct (eight_from_spec bs (1 + zlen ws + 1) dec (hash s) (0%N, 0%N, 0%N) Hbs ltac:(lia) (hash_ok _ _ Hc) ltac:(done)) as (sum'&cs&Ee&Hs'&Hcs&Hlc&Ec&Er). rewrite Hz in Ee. change (8 - 8) with 0 in Ee. rewrite Hz in Er. change (8 - 8 =? 0) with true in Er. rewrite reduce_zero, N.lxor_0_l in Er. change (Z.of_nat 8) with 8. rewrite Ee. cbn [mbind outcome_bind]. replace (16 * (1 + zlen ws + 1 - 2)) with (16 * zlen ws) in * by lia.
  eexists _, (ws ++ cs), _. split; [done|]. exists cs. split; [done|]. split; [done|]. split; [done|]. split; [done|]. split; [|cbn [used counter set_hash]; split; [done|]; rewrite zlen_app; unfold zlen in *; lia]. destruct Hc as [Hws Hnn Hh Hkl Hcl]. constructor; cbn [nonce hash keystream cipher set_hash]; [by apply Forall_app_2|done| |done|done].
  rewrite Er, app_assoc, ghash_from_app, <- Hh. symmetry. apply ghash_serial; [apply H_ok| |done]. rewrite Hh. apply ghash_from_ok; [apply H_ok|done].
Qed.
Lemma eights_spec fuel ws s src dec : idle ws s -> bytes_ok src -> 16 * zlen ws + zlen src <= MAX_MESSAGE -> exists now rest dst ws' s', eights g fuel s src dec = Ok (dst, rest, s') /\ src = now ++ rest /\ advanced ws dec now dst ws' s'.
Proof.
  revert ws s src. induction fuel as [|fuel IH]; intros ws s src Hi Hsrc Hm; cbn [eights]; [exists [], src, [], ws, s; do 2 (split; [done|]); by apply advanced_refl|]. destruct (Z.leb_spec 128 (zlen src)) as [H128|]; [|exists [], src, [], ws, s; do 2 (split; [done|]); by apply advanced_refl]. unfold MAX_MESSAGE in Hm. change (2 ^ 36) with (16 * 2 ^ 32) in Hm.
  assert (zlen (ztake 128 src) = 128) as Ht by (rewrite zlen_ztake; lia). assert (zlen (zdrop 128 src) = zlen src - 128) as Hd by (rewrite zlen_zdrop; lia). destruct (eight_spec ws s (ztake 128 src) dec Hi ltac:(by apply Forall_take) Ht ltac:(lia)) as (d1&ws1&s1&->&A1). cbn [mbind outcome_bind]. pose proof (advanced_zlen _ _ _ _ _ _ A1) as Hz. rewrite Ht in Hz. assert (idle ws1 s1) as Hi1 by (by destruct A1 as (?&_&_&_&_&?)).
  destruct (IH ws1 s1 (zdrop 128 src) Hi1 ltac:(by apply Forall_drop) ltac:(unfold MAX_MESSAGE; change (2 ^ 36) with (16 * 2 ^ 32); lia)) as (now&rest&dst&ws2&s2&->&E2&A2). cbn [mbind outcome_bind]. exists (ztake 128 src ++ now), rest, (d1 ++ dst), ws2, s2. split; [done|]. split; [rewrite <- app_assoc, <- E2; by rewrite ztake_zdrop|]. by eapply advanced_trans.
Qed.
Lemma ones_spec fuel ws s src dec : idle ws s -> bytes_ok src -> 16 * zlen ws + zlen src <= MAX_MESSAGE -> (length src <= fuel)%nat -> exists now rest dst ws' s', ones g fuel s src dec = Ok (dst, rest, s') /\ src = now ++ rest /\ zlen rest < 16 /\ advanced ws dec now dst ws' s'.
Proof.
  revert ws s src. induction fuel as [|fuel IH]; intros ws s src Hi Hsrc Hm Hf; cbn [ones]; [exists [], src, [], ws, s; do 2 (split; [done|]); split; [unfold zlen; lia|]; by apply advanced_refl|]. destruct (Z.leb_spec 16 (zlen src)) as [H16|]; [|exists [], src, [], ws, s; do 2 (split; [done|]); split; [done|]; by apply advanced_refl]. unfold MAX_MESSAGE in Hm. change (2 ^ 36) with (16 * 2 ^ 32) in Hm.
  set (b := ztake 16 src). assert (block16 b) as Hb by (split; [by apply Forall_take|unfold b; rewrite zlen_ztake; lia]). assert (zlen (zdrop 16 src) = zlen src - 16) as Hd by (rewrite zlen_zdrop; lia). pose proof (one_spec ws s b dec Hi Hb ltac:(lia)) as Ho. destruct (counter_block s) as [blk s0]. cbv zeta in *. destruct Ho as (Ex&s1&->&Hi1). cbn [mbind outcome_bind].
  assert (advanced ws dec b (xored (16 * zlen ws) b) (ws ++ [ct dec b (xored (16 * zlen ws) b)]) s1) as A1. { eexists. split; [done|]. split; [constructor; [by apply ct_block|done]|]. split; [done|]. split; [cbn; by rewrite app_nil_r|done]. } pose proof (advanced_zlen _ _ _ _ _ _ A1) as Hz. rewrite (proj2 Hb) in Hz.
  destruct (IH _ s1 (zdrop 16 src) Hi1 ltac:(by apply Forall_drop) ltac:(unfold MAX_MESSAGE; change (2 ^ 36) with (16 * 2 ^ 32); lia) ltac:(unfold zlen in Hd, H16; lia)) as (now&rest&dst&ws2&s2&->&E2&Hr&A2). cbn [mbind outcome_bind]. exists (b ++ now), rest, (xored (16 * zlen ws) b ++ dst), ws2, s2. split; [by rewrite Ex|]. split; [rewrite <- app_assoc, <- E2; symmetry; apply ztake_zdrop|]. split; [done|]. by eapply advanced_trans.
Qed.
(** After the bytes [c] of the ciphertext. *)
Definition streaming (c : list Z) (s : Stream) : Prop := (exists ws, c = concat ws /\ idle ws s) \/ (exists ws part, c = concat ws ++ part /\ part <> [] /\ busy ws part s).
Lemma idle_blocks ws s : idle ws s -> Forall block16 ws.
Proof. intros [[Hw _ _ _ _] _]. done. Qed.
Lemma busy_blocks ws part s : busy ws part s -> Forall block16 ws.
Proof. intros [[Hw _ _ _ _] _]. done. Qed.
(** What [apply] does with what is left from a place between two blocks. *)
Lemma from_idle ws s src dec : idle ws s -> bytes_ok src -> 16 * zlen ws + zlen src <= MAX_MESSAGE -> exists s', streaming (concat ws ++ ct dec src (xored (16 * zlen ws) src)) s' /\
  forall d1, ('(d2, src, s) ← eights g (length src) s src dec; '(d3, src, s) ← ones g (length src) s src dec;
   match src with
   | [] => Ok (d1 ++ d2 ++ d3, s)
   | _ => let '(b, s) := counter_block s in
          let s := mkStream (nonce s) (counter s) (hash s) (store (encrypt (round_keys g) b)) (cipher s) 0 in
          '(d4, _, s) ← bytes g s src dec; Ok (d1 ++ d2 ++ d3 ++ d4, s)
   end) = Ok (d1 ++ xored (16 * zlen ws) src, s').
Proof.
  intros Hi Hsrc Hm. destruct (eights_spec (length src) ws s src dec Hi Hsrc Hm) as (n1&r1&d2&ws1&s1&->&->&A1). cbn [mbind outcome_bind]. apply Forall_app in Hsrc as [_ Hr1]. pose proof (advanced_zlen _ _ _ _ _ _ A1) as Hz1. rewrite zlen_app in Hm. assert (idle ws1 s1) as Hi1 by (by destruct A1 as (?&_&_&_&_&?)).
  destruct (ones_spec (length r1) ws1 s1 r1 dec Hi1 Hr1 ltac:(lia) ltac:(lia)) as (n2&r2&d3&ws2&s2&->&->&Hr2&A2). cbn [mbind outcome_bind]. apply Forall_app in Hr1 as [_ Hr2b]. pose proof (advanced_zlen _ _ _ _ _ _ A2) as Hz2. rewrite zlen_app in Hm. assert (idle ws2 s2) as Hi2 by (by destruct A2 as (?&_&_&_&_&?)). pose proof (advanced_trans _ _ _ _ _ _ _ _ _ _ A1 A2) as (cs&Ews&Hcs&Ed&Ecs&_). assert (zlen ws2 < 2 ^ 32 - 1 /\ (r2 <> [] -> zlen ws2 < 2 ^ 32 - 2)) as [_ Hblk].
  { unfold MAX_MESSAGE in Hm. change (2 ^ 36) with (16 * 2 ^ 32) in Hm. pose proof (zlen_nonneg r2). split; [lia|]. intros Hne. destruct r2; [done|]. rewrite zlen_cons in Hm. pose proof (zlen_nonneg r2). lia. }
  assert (concat ws2 = concat ws ++ ct dec (n1 ++ n2) (xored (16 * zlen ws) (n1 ++ n2))) as Ec2 by (rewrite Ews, concat_app, Ecs, Ed; done). assert (16 * zlen ws2 = 16 * zlen ws + zlen (n1 ++ n2)) as Hz by (rewrite zlen_app; lia). rewrite (app_assoc n1). set (now := n1 ++ n2) in *. rewrite ct_app, xored_app, (app_assoc (concat ws)), <- Ec2, <- Hz, <- Ed.
  destruct r2 as [|y r2].
  - exists s2. split; [left; exists ws2; split; [|done]; destruct dec; cbn; by rewrite app_nil_r|]. intros d1. unfold xored. cbn [GcmSeal.xored]. by rewrite app_nil_r.
  - destruct Hi2 as (Hc2&Hu2&Hn2). pose proof (zlen_nonneg ws2). specialize (Hblk ltac:(done)). unfold counter_block. rewrite Hn2, (c_nonce _ _ Hc2). replace (1 + zlen ws2 + 1) with (2 + zlen ws2) by lia. rewrite wrap_id by (unfold fits; change (2 ^ 32) with 4294967296 in *; lia). cbn [nonce counter hash cipher]. destruct (cipher_spec (2 + zlen ws2)) as [_ ->]. set (s3 := mkStream _ _ _ _ _ _).
    assert (busy ws2 [] s3) as Hb3. { split; [destruct Hc2; constructor; try done; apply E_ok|]. cbn [used counter keystream s3]. repeat split; done. } destruct (bytes_spec (y :: r2) ws2 [] s3 dec Hr2b Hb3) as (n3&r3&d4&s4&->&En&Ed4&Hst). change (zlen (@nil Z)) with 0 in Ed4. rewrite Z.add_0_r in Ed4. cbn [mbind outcome_bind app] in *. subst d4.
    assert (zlen (ct dec n3 (xored (16 * zlen ws2) n3)) <= zlen (y :: r2)) as Hlen by (rewrite ct_zlen, En, zlen_app; pose proof (zlen_nonneg r3); lia). destruct Hst as [[Hb4 ->]|[H16 _]]; [|lia]. rewrite app_nil_r in En. rewrite En in *. exists s4. split; [|intros d1; by rewrite <- !app_assoc]. right. exists ws2, (ct dec n3 (xored (16 * zlen ws2) n3)). split; [done|]. split; [|done].
    intros Hnil. apply (f_equal zlen) in Hnil. rewrite ct_zlen, <- En in Hnil. rewrite zlen_cons in Hnil. change (zlen (@nil Z)) with 0 in Hnil. pose proof (zlen_nonneg r2). lia.
Qed.
Lemma apply_spec c s src dec : streaming c s -> bytes_ok src -> zlen c + zlen src <= MAX_MESSAGE -> exists s', apply g s src dec = Ok (xored (zlen c) src, s') /\ streaming (c ++ ct dec src (xored (zlen c) src)) s'.
Proof.
  intros Hst Hsrc Hm. unfold apply. destruct Hst as [(ws&->&Hi)|(ws&part&->&Hne&Hb)].
  - assert (bytes g s src dec = Ok ([], src, s)) as -> by (destruct src; [done|]; cbn [bytes]; destruct Hi as (_&->&_); done). cbn [mbind outcome_bind]. rewrite concat_zlen in * by (by eapply idle_blocks). destruct (from_idle ws s src dec Hi Hsrc Hm) as (s'&Hs'&E'). exists s'. split; [apply (E' [])|done].
  - pose proof (busy_blocks _ _ _ Hb) as Hw. rewrite zlen_app, concat_zlen in * by done. destruct (bytes_spec src ws part s dec Hsrc Hb) as (now&rest&d1&s1&->&->&->&Hst). cbn [mbind outcome_bind]. cbv zeta in Hst. rewrite ct_app, xored_app. set (cc := ct dec now (xored (16 * zlen ws + zlen part) now)) in *. destruct Hst as [[Hb1 ->]|[H16 Hi1]].
    + exists s1. cbn [eights ones length mbind outcome_bind]. unfold xored. cbn [GcmSeal.xored]. split; [done|]. right. exists ws, (part ++ cc). split; [destruct dec; cbn; by rewrite !app_nil_r, <- app_assoc|]. split; [by destruct part|done].
    + apply Forall_app in Hsrc as [_ Hrest]. assert (zlen cc = zlen now) as Hcc by apply ct_zlen. rewrite zlen_app in Hm, H16. assert (16 * zlen (ws ++ [part ++ cc]) = 16 * zlen ws + zlen part + zlen now) as Hz by (rewrite zlen_app; change (zlen [part ++ cc]) with 1; lia). destruct (from_idle _ s1 rest dec Hi1 Hrest ltac:(lia)) as (s'&Hs'&E'). rewrite E', Hz in *. exists s'. split; [done|]. rewrite concat_app in Hs'. cbn [concat] in Hs'. rewrite app_nil_r in Hs'. by rewrite <- !app_assoc in *.
Qed.
Lemma absorb_chunks_spec fuel s l : bytes_ok l -> m128_ok (hash s) -> absorb_chunks g fuel s l = Ok (set_hash s (ghash_from H (hash s) (blocks_from fuel l))).
Proof.
  revert s l. induction fuel as [|fuel IH]; intros s l Hl Hs; [destruct l; by destruct s|]. destruct l as [|x l]; [by destruct s|]. cbn [absorb_chunks blocks_from ghash_from]. assert (block16 (padded_block (ztake 16 (x :: l)))) as Hb by (apply padded_ok; [by apply Forall_take|rewrite zlen_ztake; lia]). rewrite absorb_spec by done. cbn [mbind outcome_bind]. rewrite IH; [done|by apply Forall_drop|]. apply block_mult_ok, H_ok.
Qed.
Lemma begin_spec : exists s, begin_ g nonce12 aad = Ok s /\ streaming [] s.
Proof.
  unfold begin_. rewrite absorb_chunks_spec by done. eexists. split; [done|]. left. exists []. split; [done|]. split; [constructor; cbn [nonce hash keystream cipher set_hash]; [done|done|by rewrite app_nil_r|done|done]|done].
Qed.
Lemma tag_spec c s : streaming c s -> zlen c <= MAX_MESSAGE -> 8 * zlen aad < 2 ^ 64 -> finish g s (zlen aad) (zlen c) = Ok (gcm_tag key nonce12 aad c).
Proof.
  intros Hst Hm Ha. assert (exists s1, (if used s <? 16 then absorb g s (load (ztake (used s) (cipher s) ++ zrep (16 - used s) 0)) else Ok s) = Ok s1 /\ nonce s1 = load (padded_block nonce12) /\ hash s1 = ghash_from H 0 (blocks aad ++ blocks c)) as (s1&E1&Hn1&Hh1).
  { destruct Hst as [(ws&->&Hc&Hu&_)|(ws&part&->&Hne&Hc&Hp&Hu&_&_&Ht&Hb)].
    - exists s. rewrite Hu. split; [done|]. split; [by eapply c_nonce|]. rewrite <- (app_nil_r (concat ws)), blocks_concat by (by eapply c_blocks). change (blocks []) with (@nil (list Z)). rewrite app_nil_r. by eapply c_hash.
    - rewrite Hu. destruct (Z.ltb_spec (zlen part) 16); [|lia]. rewrite Ht. fold (padded_block part). destruct (absorbed ws s (padded_block part) Hc) as (s1&Ea&Hc1&_); [apply padded_ok; [done|lia]|]. exists s1. split; [done|]. split; [by eapply c_nonce|]. assert (zlen part <> 0) by (by intros ?%zlen_zero). pose proof (zlen_nonneg part). rewrite blocks_concat by (by eapply c_blocks). rewrite (blocks_short part) by lia. by eapply c_hash. }
  unfold finish. rewrite E1. cbn [mbind outcome_bind]. pose proof (zlen_nonneg aad). pose proof (zlen_nonneg c). rewrite (Z.mul_comm (zlen aad)), (Z.mul_comm (zlen c)). rewrite (fits_width 64 (8 * zlen aad)) by lia. cbn [mbind outcome_bind]. rewrite (fits_width _ (8 * zlen c)) by (change MAX_MESSAGE with 68719476704 in Hm; change (2 ^ 64) with 18446744073709551616; lia). cbn [mbind outcome_bind].
  set (lens := be_bytes 8 (8 * zlen aad) ++ be_bytes 8 (8 * zlen c)). assert (block16 lens) as Hlens by (split; [apply Forall_app_2; apply be_bytes_ok|unfold lens; rewrite zlen_app, !be_bytes_zlen; done]). assert (m128_ok (hash s1)) as Ho1 by (rewrite Hh1; apply ghash_from_ok; [apply H_ok|done]). rewrite absorb_spec by done. cbn [mbind outcome_bind]. cbn [nonce hash set_hash]. rewrite Hn1. destruct (cipher_spec 1) as [Hco Hcs].
  assert (block_mult (N.lxor (hash s1) (be_word lens)) H = ghash H (blocks aad ++ blocks c ++ [lens])) as Eg by (unfold ghash; rewrite app_assoc, ghash_from_app, <- Hh1; done). rewrite Eg. set (t := ghash H (blocks aad ++ blocks c ++ [lens])). assert (m128_ok t) as Hto by (apply ghash_from_ok; [apply H_ok|done]). destruct (reverse_spec t Hto) as (_&Hro&Hrs). rewrite store_lxor by done. rewrite Hrs, Hcs. done.
Qed.
Lemma apply_parts_spec parts c s : streaming c s -> Forall bytes_ok parts -> zlen c + zlen (concat parts) <= MAX_MESSAGE -> exists s', apply_parts g s parts = Ok (xored (zlen c) (concat parts), s') /\ streaming (c ++ xored (zlen c) (concat parts)) s'.
Proof.
  intros Hst Hp. revert c s Hst. induction Hp as [|p parts Hp Hps IH]; intros c s Hst Hm; [exists s; split; [done|]; by rewrite app_nil_r|]. cbn [apply_parts concat] in *. rewrite zlen_app in Hm. pose proof (zlen_nonneg (concat parts)). destruct (apply_spec c s p false Hst Hp ltac:(lia)) as (s1&->&H1). cbn [mbind outcome_bind ct] in *. assert (zlen (c ++ xored (zlen c) p) = zlen c + zlen p) as Hz by (by rewrite zlen_app, xored_zlen).
  destruct (IH _ s1 H1) as (s2&->&H2); [lia|]. cbn [mbind outcome_bind]. exists s2. rewrite Hz in *. rewrite xored_app. split; [done|]. by rewrite app_assoc.
Qed.
Lemma seal_spec parts out : Forall bytes_ok parts -> 8 * zlen aad < 2 ^ 64 -> seal g nonce12 aad parts out = if zlen (concat parts) <=? MAX_MESSAGE then Ok (out ++ gcm_seal key nonce12 aad (concat parts)) else Panic.
Proof.
  intros Hp Ha. unfold seal. cbv zeta. destruct (Z.ltb_spec MAX_MESSAGE (zlen (concat parts))), (Z.leb_spec (zlen (concat parts)) MAX_MESSAGE); try lia; [done|]. destruct begin_spec as (s&->&Hs). cbn [mbind outcome_bind]. destruct (apply_parts_spec parts [] s Hs Hp) as (s'&->&Hs'); [done|]. cbn [mbind outcome_bind app] in *. change (zlen (@nil Z)) with 0 in *.
  rewrite <- (xored_zlen 0 (concat parts)). rewrite tag_spec; [done|done|by rewrite xored_zlen|done].
Qed.
Lemma gcm_open_spec sealed out : bytes_ok sealed -> 8 * zlen aad < 2 ^ 64 -> let c := ztake (zlen sealed - 16) sealed in let ok := (16 <=? zlen sealed) && (zlen sealed - 16 <=? MAX_MESSAGE) && ct_eq (gcm_tag key nonce12 aad c) (zdrop (zlen sealed - 16) sealed) in
  open g nonce12 aad sealed out = Ok (ok, if ok then out ++ xored 0 c else out).
Proof.
  intros Hs Ha. cbv zeta. unfold open, TAG. destruct (Z.ltb_spec (zlen sealed - 16) 0), (Z.leb_spec 16 (zlen sealed)); try lia; [done|]. destruct (Z.ltb_spec MAX_MESSAGE (zlen sealed - 16)), (Z.leb_spec (zlen sealed - 16) MAX_MESSAGE); try lia; [done|]. cbn [orb andb]. destruct begin_spec as (s&->&Hst). cbn [mbind outcome_bind]. set (c := ztake (zlen sealed - 16) sealed). assert (zlen c = zlen sealed - 16) as Hc by (unfold c; rewrite zlen_ztake; lia).
  destruct (apply_spec [] s c true Hst) as (s'&->&Hs'); [by apply Forall_take|change (zlen (@nil Z)) with 0; lia|]. cbn [mbind outcome_bind app ct] in *. change (zlen (@nil Z)) with 0. rewrite <- Hc. rewrite tag_spec by (done || lia). cbn [mbind outcome_bind]. by destruct (ct_eq _ _).
Qed.
End Stream.

(** ** The theorems *)
Lemma fold_lor (l : list (Z * Z)) d : 0 <= d -> Forall (fun xy => 0 <= fst xy /\ 0 <= snd xy) l -> fold_left (fun d xy => Z.lor d (Z.lxor (fst xy) (snd xy))) l d = 0 <-> d = 0 /\ Forall (fun xy => fst xy = snd xy) l.
Proof.
  revert d. induction l as [|[x y] l IH]; intros d Hd Hl; cbn [fold_left]; [naive_solver|]. apply Forall_cons in Hl as [[Hx Hy] Hl]. cbn [fst snd] in *. assert (0 <= Z.lxor x y) by (apply Z.lxor_nonneg; lia). rewrite IH by (done || (apply Z.lor_nonneg; lia)). rewrite Z.lor_eq_0_iff, Z.lxor_eq_0_iff, Forall_cons. cbn [fst snd]. naive_solver.
Qed.
Lemma ct_eq_spec a b : bytes_ok a -> bytes_ok b -> ct_eq a b = true <-> a = b.
Proof.
  intros Ha Hb. unfold ct_eq. rewrite andb_true_iff, !Z.eqb_eq. assert (Forall (fun xy : Z * Z => 0 <= fst xy /\ 0 <= snd xy) (zip a b)) as Hz.
  { revert b Hb. induction Ha as [|x a Hx Ha IH]; intros b Hb; [done|]. destruct b as [|y b]; [done|]. apply Forall_cons in Hb as [Hy Hb]. cbn. constructor; [unfold fits in *; cbn; lia|by apply IH]. }
  rewrite fold_lor by (done || lia). clear Hz. split.
  - intros (Hl&_&Hz). unfold zlen in Hl. apply Nat2Z.inj in Hl. clear Ha Hb. revert b Hl Hz. induction a as [|x a IH]; intros [|y b] Hl Hz; try done. cbn in *. apply Forall_cons in Hz as [Hxy Hz]. cbn in Hxy. subst y. f_equal. apply IH; [lia|done].
  - intros ->. split; [done|]. split; [done|]. clear. induction b; cbn; by constructor.
Qed.
Lemma gcm_tag_ok key nonce aad c : block16 key -> bytes_ok nonce -> zlen nonce = 12 -> block16 (gcm_tag key nonce aad c).
Proof.
  intros Hk Hn Hl. unfold gcm_tag. cbv zeta. destruct (E_ok key nonce Hk Hn Hl 1) as [Hb Hz]. split; [apply xors_ok; [apply be_bytes_ok|done]|]. rewrite xors_zlen; [apply be_bytes_zlen|]. by rewrite be_bytes_zlen, Hz.
Qed.

(** C10. [Gcm] is AES-128-GCM. For every key and nonce, [seal] appends what
    SP 800-38D gives, the counter-mode ciphertext of FIPS 197's cipher and the
    tag of GHASH, of the message however it is cut into slices: blocks taken
    eight at a time with one reduction over powers of the hash key, singly, or
    left partly used from one slice to the next. Past [2 ^ 36 - 32] bytes it
    panics, as its comment says. *)
Theorem sealing_is_aes_gcm key nonce aad parts out : block16 key -> bytes_ok nonce -> zlen nonce = 12 -> bytes_ok aad -> 8 * zlen aad < 2 ^ 64 -> Forall bytes_ok parts ->
  exists g, gcm_new true key = Ok g /\ seal g nonce aad parts out = if zlen (concat parts) <=? MAX_MESSAGE then Ok (out ++ gcm_seal key nonce aad (concat parts)) else Panic.
Proof. intros Hk Hn Hl Ha Hal Hp. exists (expand key). split; [done|]. by apply seal_spec. Qed.
Lemma sealing_witness : exists g, gcm_new true (zrep 16 0) = Ok g /\ seal g (zrep 12 0) [] [] [7] = Ok (7 :: gcm_seal (zrep 16 0) (zrep 12 0) [] []).
Proof.
  apply (sealing_is_aes_gcm (zrep 16 0) (zrep 12 0) [] [] [7]); [split; [apply Forall_replicate; split; [discriminate|reflexivity]|reflexivity]|apply Forall_replicate; split; [discriminate|reflexivity]|reflexivity|apply Forall_nil_2|reflexivity|apply Forall_nil_2].
Defined.

Lemma xored_twice key nonce n l : xored key nonce n (xored key nonce n l) = l.
Proof. revert n. induction l as [|x l IH]; intros n; [done|]. cbn [xored]. rewrite IH, Z.lxor_assoc, Z.lxor_nilpotent, Z.lxor_0_r. done. Qed.
Lemma open_seal_spec key nonce aad sealed out : block16 key -> bytes_ok nonce -> zlen nonce = 12 -> bytes_ok aad -> 8 * zlen aad < 2 ^ 64 -> bytes_ok sealed ->
  match open (expand key) nonce aad sealed out with
  | Ok (true, out') => exists p, out' = out ++ p /\ bytes_ok p /\ zlen p <= MAX_MESSAGE /\ sealed = gcm_seal key nonce aad p
  | Ok (false, out') => out' = out /\ forall p, bytes_ok p -> zlen p <= MAX_MESSAGE -> sealed <> gcm_seal key nonce aad p
  | _ => False
  end.
Proof.
  intros Hk Hn Hl Ha Hal Hs. rewrite (gcm_open_spec key nonce aad Hk Hn Hl Ha sealed out Hs Hal). cbv zeta. set (n := zlen sealed - 16). set (c := ztake n sealed). pose proof (ztake_zdrop n sealed) as Hsp. fold c in Hsp. assert (bytes_ok c) as Hcb by (by apply Forall_take). assert (bytes_ok (zdrop n sealed)) as Htb by (by apply Forall_drop). pose proof (ct_eq_spec (gcm_tag key nonce aad c) (zdrop n sealed) (proj1 (gcm_tag_ok key nonce aad c Hk Hn Hl)) Htb) as Ht.
  destruct (_ && _) eqn:Hok.
  - apply andb_prop in Hok as [[H16%Z.leb_le Hm%Z.leb_le]%andb_prop Ht'%Ht]. exists (xored key nonce 0 c). split; [done|]. split; [by apply xored_ok|]. split; [rewrite xored_zlen; unfold c, n; rewrite zlen_ztake; lia|]. unfold gcm_seal. rewrite xored_twice, Ht'. by rewrite Hsp.
  - split; [done|]. intros p Hp Hpl E. pose proof (f_equal zlen E) as Hz. unfold gcm_seal in Hz, E. rewrite zlen_app, (proj2 (gcm_tag_ok key nonce aad _ Hk Hn Hl)), xored_zlen in Hz. pose proof (zlen_nonneg p). assert (c = xored key nonce 0 p) as Ec by (unfold c; rewrite E; apply ztake_app; rewrite xored_zlen; unfold n; lia). assert (zdrop n sealed = gcm_tag key nonce aad c) as Et by (rewrite Ec, E; apply zdrop_app; rewrite xored_zlen; unfold n; lia).
    apply eq_sym, Ht in Et. rewrite Et, andb_true_r in Hok. apply andb_false_iff in Hok as [?%Z.leb_gt|?%Z.leb_gt]; unfold n in *; lia.
Qed.
Lemma gcm_seal_inj key nonce aad p q : gcm_seal key nonce aad p = gcm_seal key nonce aad q -> block16 key -> bytes_ok nonce -> zlen nonce = 12 -> p = q.
Proof.
  intros E Hk Hn Hl. assert (zlen p = zlen q) as Hz. { apply (f_equal zlen) in E. unfold gcm_seal in E. rewrite !zlen_app, !(proj2 (gcm_tag_ok key nonce aad _ Hk Hn Hl)), !xored_zlen in E. lia. }
  apply (f_equal (ztake (zlen p))) in E. unfold gcm_seal in E. rewrite !ztake_app in E by (rewrite xored_zlen; lia). rewrite <- (xored_twice key nonce 0 p), E. apply xored_twice.
Qed.
Lemma open_sealed key nonce aad p out : block16 key -> bytes_ok nonce -> zlen nonce = 12 -> bytes_ok aad -> 8 * zlen aad < 2 ^ 64 -> bytes_ok p -> zlen p <= MAX_MESSAGE ->
  open (expand key) nonce aad (gcm_seal key nonce aad p) out = Ok (true, out ++ p).
Proof.
  intros Hk Hn Hl Ha Hal Hp Hpl. assert (bytes_ok (gcm_seal key nonce aad p)) as Hs. { unfold gcm_seal. apply Forall_app_2; [by apply xored_ok|]. by apply gcm_tag_ok. }
  pose proof (open_seal_spec key nonce aad _ out Hk Hn Hl Ha Hal Hs) as H. destruct (open _ _ _ _ _) as [[[] out']|?|]; [|by destruct H as [_ H]; destruct (H p)|done|done]. destruct H as (p'&->&_&_&E). by apply gcm_seal_inj in E as ->.
Qed.
(** C40. [open] accepts exactly what [seal] makes. It never panics, and of any
    bytes it appends the plaintext and says so if they are the sealing of one
    under the key, nonce and associated data, and else leaves the output as it
    was and says no: nothing is shown before the tag is checked. *)
Theorem opening_undoes_sealing key nonce aad sealed out : block16 key -> bytes_ok nonce -> zlen nonce = 12 -> bytes_ok aad -> 8 * zlen aad < 2 ^ 64 -> bytes_ok sealed ->
  match open (expand key) nonce aad sealed out with
  | Ok (true, out') => exists p, out' = out ++ p /\ bytes_ok p /\ zlen p <= MAX_MESSAGE /\ sealed = gcm_seal key nonce aad p
  | Ok (false, out') => out' = out /\ forall p, bytes_ok p -> zlen p <= MAX_MESSAGE -> sealed <> gcm_seal key nonce aad p
  | _ => False
  end.
Proof. apply open_seal_spec. Qed.
Lemma opening_witness : exists out', open (expand (zrep 16 0)) (zrep 12 0) [] (zrep 16 0) [7] = Ok (false, out') /\ out' = [7].
Proof.
  pose proof (opening_undoes_sealing (zrep 16 0) (zrep 12 0) [] (zrep 16 0) [7] ltac:(split; [apply Forall_replicate; split; [discriminate|reflexivity]|reflexivity]) ltac:(apply Forall_replicate; split; [discriminate|reflexivity]) eq_refl ltac:(apply Forall_nil_2) eq_refl ltac:(apply Forall_replicate; split; [discriminate|reflexivity])) as H.
  assert (open (expand (zrep 16 0)) (zrep 12 0) [] (zrep 16 0) [7] = Ok (false, [7])) as E by (vm_compute; reflexivity). rewrite E in H. exists [7]. split; [exact E|]. exact (proj1 H).
Defined.
