(* ===== verification/Tls.v ===== *)
(** * The TLS 1.3 client ([net/tls.rs], [Session])

    Directions and their keys, the readers of handshake messages, and a
    session: records, messages, the key schedule, what it seals. A session's
    configuration is the trust anchors, the host, the clock's answer and
    whether the CPU has the cipher's instructions. A method takes the session,
    the plaintext and the output as they are and leaves them as it left them,
    errors included. Wiped secrets are zeros. *)
From S2P Require Import Prelude Bytes Utf8 Engine Sbe Serve Daemon Search Token Table Bpe Tournament Merges Lookup Unicode Pieces Encode Marks Vocab Built Json FromJson Chat.
From S2P Require Import Sha X25519 Limbs Rsa Http P256 X509 Gcm.

Definition MAX_PLAIN : Z := 2 ^ 14.
Definition MAX_RECORD : Z := MAX_PLAIN + 256.
Definition HEADER : Z := 5.
Definition MAX_HANDSHAKE : Z := 64 * 2 ^ 10.
Definition REKEY_AFTER : Z := 2 ^ 24.
Definition CHANGE_CIPHER_SPEC : Z := 20.
Definition ALERT : Z := 21.
Definition HANDSHAKE : Z := 22.
Definition APPLICATION_DATA : Z := 23.
Definition CLIENT_HELLO : Z := 1.
Definition SERVER_HELLO : Z := 2.
Definition NEW_SESSION_TICKET : Z := 4.
Definition ENCRYPTED_EXTENSIONS : Z := 8.
Definition CERTIFICATE : Z := 11.
Definition CERTIFICATE_VERIFY : Z := 15.
Definition FINISHED : Z := 20.
Definition KEY_UPDATE : Z := 24.
Definition SERVER_NAME : Z := 0.
Definition SUPPORTED_GROUPS : Z := 10.
Definition SIGNATURE_ALGORITHMS : Z := 13.
Definition ALPN : Z := 16.
Definition SUPPORTED_VERSIONS : Z := 43.
Definition KEY_SHARE : Z := 51.
Definition AES_128_GCM_SHA256 : list Z := [0x13; 0x01].
Definition X25519_GROUP : Z := 0x001d.
Definition ECDSA_P256_SHA256 : list Z := [0x04; 0x03].
Definition RSA_PSS_SHA256 : list Z := [0x08; 0x04].
Definition SIGNATURES : list Z := [0x04; 0x03; 0x08; 0x04; 0x04; 0x01].
Definition TLS13 : list Z := [0x03; 0x04].
Definition ALPN_HTTP11 : list Z := [0; 9; 8] ++ str "http/1.1".
Definition RETRY_RANDOM : list Z := [
  0xcf; 0x21; 0xad; 0x74; 0xe5; 0x9a; 0x61; 0x11; 0xbe; 0x1d; 0x8c; 0x02; 0x1e; 0x65; 0xb8; 0x91; 0xc2; 0xa2; 0x11; 0x16; 0x7a; 0xbb; 0x8c; 0x5e; 0x07; 0x9e;
  0x09; 0xe2; 0xc8; 0xa8; 0x33; 0x9c].
Definition SERVER_VERIFY_CONTEXT : list Z := str "TLS 1.3, server CertificateVerify" ++ [0].

Inductive Alert := CloseNotify | UnexpectedMessage | BadRecordMac | RecordOverflow | HandshakeFailure | BadCertificate | UnsupportedCertificate | CertificateExpired
  | IllegalParameter | UnknownCa | DecodeError | DecryptError | ProtocolVersion | MissingExtension | UnsupportedExtension.
Definition alert_code (a : Alert) : Z :=
  match a with
  | CloseNotify => 0 | UnexpectedMessage => 10 | BadRecordMac => 20 | RecordOverflow => 22 | HandshakeFailure => 40 | BadCertificate => 42 | UnsupportedCertificate => 43
  | CertificateExpired => 45 | IllegalParameter => 47 | UnknownCa => 48 | DecodeError => 50 | DecryptError => 51 | ProtocolVersion => 70 | MissingExtension => 109 | UnsupportedExtension => 110
  end.
Inductive tls_error := Local_ (a : Alert) | Peer (code : Z).
Notation answer := (outcome tls_error).
Definition refuse_with {A} (a : Alert) : answer A := Err (Local_ a).
(** What computes, among what can be refused. *)
Definition sure {A} (m : computes A) : answer A := match m with Ok a => Ok a | _ => Panic end.

(** ** Keys *)
Definition expand_label (secret label context : list Z) (len : Z) : computes (list Z) :=
  n ← fit 8 (6 + zlen label);
  hkdf_expand secret [be_bytes 2 len; [n]; str "tls13 "; label; [wrap 8 (zlen context)]; context] len.
Definition derive (secret label transcript : list Z) : computes (list Z) := expand_label secret label transcript 32.
(** [finished], the function. *)
Definition finished_mac (base transcript : list Z) : computes (list Z) := k ← expand_label base (str "finished") [] 32; Ok (mac k transcript).
Record Direction := mkDirection { d_gcm : Gcm; d_secret : list Z; d_seq : Z; d_iv : list Z }.
Section Supported.
Context (supported : bool).
Definition direction_new (secret : list Z) : computes Direction :=
  k ← expand_label secret (str "key") [] 16; iv ← expand_label secret (str "iv") [] 12;
  g ← gcm_new supported k; Ok (mkDirection g secret 0 iv).
Definition direction_nonce (d : Direction) : computes (list Z * Direction) :=
  let n := ztake 4 (d_iv d) ++ zip_with Z.lxor (zdrop 4 (d_iv d)) (be_bytes 8 (d_seq d)) in
  s ← fit 64 (d_seq d + 1); Ok (n, mkDirection (d_gcm d) (d_secret d) s (d_iv d)).
Definition direction_update (d : Direction) : computes Direction := n ← expand_label (d_secret d) (str "traffic upd") [] 32; direction_new n.
End Supported.

(** ** Readers: the bytes left *)
Definition r_bytes (n : Z) (r : list Z) : answer (list Z * list Z) := if n <=? zlen r then Ok (ztake n r, zdrop n r) else refuse_with DecodeError.
Definition r_int (n : Z) (r : list Z) : answer (Z * list Z) := '(b, r) ← r_bytes n r; Ok (be_fold 64 b, r).
Definition r_vec (prefix : Z) (r : list Z) : answer (list Z * list Z) := '(n, r) ← r_int prefix r; r_bytes n r.
Definition r_end (r : list Z) : answer unit := match r with [] => Ok tt | _ => refuse_with DecodeError end.
(** [extensions], with what its closure keeps. Each extension takes bytes. *)
Fixpoint exts_from {T} (fuel : nat) (each : Z -> list Z -> T -> answer T) (r : list Z) (seen : Z) (t : T) : answer T :=
  match r, fuel with
  | [], _ => Ok t
  | _, O => Panic
  | _, S fuel =>
      '(kind, r) ← r_int 2 r; '(data, r) ← r_vec 2 r;
      if (kind <? 64) && negb (Z.land seen (Z.shiftl 1 kind) =? 0) then refuse_with IllegalParameter else
      let seen := Z.lor seen (if kind <? 64 then Z.shiftl 1 kind else 0) in
      t ← each kind data t; exts_from fuel each r seen t
  end.
Definition exts {T} (each : Z -> list Z -> T -> answer T) (r : list Z) (t : T) : answer (T * list Z) :=
  '(b, r) ← r_vec 2 r; t ← exts_from (length b) each b 0 t; Ok (t, r).

(** ** Writers *)
Definition prefixed (width : nat) (body : list Z) : list Z := be_bytes width (zlen body) ++ body.
Definition extension (kind : Z) (body : list Z) : list Z := be_bytes 2 kind ++ prefixed 2 body.
Definition plain_record (kind legacy : Z) (body : list Z) : list Z := [kind; 3; legacy] ++ prefixed 2 body.
Definition hello_extensions (host share : list Z) : list Z :=
  (match parse_ip host with None => extension SERVER_NAME (prefixed 2 ([0] ++ prefixed 2 (utf8_of host))) | Some _ => [] end)
  ++ extension SUPPORTED_GROUPS (prefixed 2 (be_bytes 2 X25519_GROUP)) ++ extension SIGNATURE_ALGORITHMS (prefixed 2 SIGNATURES)
  ++ extension SUPPORTED_VERSIONS (prefixed 1 TLS13) ++ extension KEY_SHARE (prefixed 2 (be_bytes 2 X25519_GROUP ++ prefixed 2 share)) ++ extension ALPN ALPN_HTTP11.
Definition client_hello (host random session_id share : list Z) : list Z :=
  [CLIENT_HELLO] ++ prefixed 3 ([3; 3] ++ random ++ prefixed 1 session_id ++ prefixed 2 AES_128_GCM_SHA256 ++ [1; 0] ++ prefixed 2 (hello_extensions host share)).

Definition verify_digest (transcript : list Z) : list Z := sha_finish (update (update (update sha_default (zrep 64 0x20)) SERVER_VERIFY_CONTEXT) transcript).
Definition rejected (r : Rejected) : tls_error :=
  Local_ match r with Malformed | WrongHost | BadSignature => BadCertificate | Unsupported_ => UnsupportedCertificate | Expired => CertificateExpired | UnknownIssuer => UnknownCa end.

(** ** A session *)
Inductive State := SServerHello | SEncryptedExtensions | SCertificate | SCertificateVerify | SFinished | SConnected | SClosed.
#[global] Instance state_eq_dec : EqDecision State.
Proof. solve_decision. Defined.
Record Session := mkSession {
  hello_id : list Z; ephemeral : list Z; peer : option Key; state : State; transcript : Sha256;
  read_ : option Direction; write_ : option Direction; handshake : list Z;
  client_secret : list Z; server_secret : list Z; pending : list Z; change_cipher_spec : bool }.
Definition set_state (x : State) (s : Session) := mkSession (hello_id s) (ephemeral s) (peer s) x (transcript s) (read_ s) (write_ s) (handshake s) (client_secret s) (server_secret s) (pending s) (change_cipher_spec s).
Definition set_transcript (x : Sha256) (s : Session) := mkSession (hello_id s) (ephemeral s) (peer s) (state s) x (read_ s) (write_ s) (handshake s) (client_secret s) (server_secret s) (pending s) (change_cipher_spec s).
Definition set_read (x : option Direction) (s : Session) := mkSession (hello_id s) (ephemeral s) (peer s) (state s) (transcript s) x (write_ s) (handshake s) (client_secret s) (server_secret s) (pending s) (change_cipher_spec s).
Definition set_write (x : option Direction) (s : Session) := mkSession (hello_id s) (ephemeral s) (peer s) (state s) (transcript s) (read_ s) x (handshake s) (client_secret s) (server_secret s) (pending s) (change_cipher_spec s).
Definition set_handshake (x : list Z) (s : Session) := mkSession (hello_id s) (ephemeral s) (peer s) (state s) (transcript s) (read_ s) (write_ s) x (client_secret s) (server_secret s) (pending s) (change_cipher_spec s).
Definition set_peer (x : option Key) (s : Session) := mkSession (hello_id s) (ephemeral s) x (state s) (transcript s) (read_ s) (write_ s) (handshake s) (client_secret s) (server_secret s) (pending s) (change_cipher_spec s).
Definition set_secrets (c v p : list Z) (s : Session) := mkSession (hello_id s) (ephemeral s) (peer s) (state s) (transcript s) (read_ s) (write_ s) (handshake s) c v p (change_cipher_spec s).
Definition set_ephemeral (x : list Z) (s : Session) := mkSession (hello_id s) x (peer s) (state s) (transcript s) (read_ s) (write_ s) (handshake s) (client_secret s) (server_secret s) (pending s) (change_cipher_spec s).
Definition set_ccs (s : Session) := mkSession (hello_id s) (ephemeral s) (peer s) (state s) (transcript s) (read_ s) (write_ s) (handshake s) (client_secret s) (server_secret s) (pending s) true.
Definition ZERO : list Z := zrep 32 0.

(** A session, and the plaintext and output it is given. *)
Record Net := mkNet { ses : Session; plain : list Z; out : list Z }.
Definition TM (A : Type) : Type := Net -> answer A * Net.
#[global] Instance tm_ret : MRet TM := fun A a n => (Ok a, n).
#[global] Instance tm_bind : MBind TM := fun A B k m n => match m n with (Ok a, n) => k a n | (Err e, n) => (Err e, n) | (Panic, n) => (Panic, n) end.
Definition lift {A} (m : answer A) : TM A := fun n => (m, n).
Definition alarm {A} (a : Alert) : TM A := lift (refuse_with a).
Definition self : TM Session := fun n => (Ok (ses n), n).
Definition on_self (f : Session -> Session) : TM unit := fun n => (Ok tt, mkNet (f (ses n)) (plain n) (out n)).
Definition get_plain : TM (list Z) := fun n => (Ok (plain n), n).
Definition set_plain (p : list Z) : TM unit := fun n => (Ok tt, mkNet (ses n) p (out n)).
Definition emit (b : list Z) : TM unit := fun n => (Ok tt, mkNet (ses n) (plain n) (out n ++ b)).

(** [Session::client], with the three answers of [random]. *)
Definition client (host random session_id eph : list Z) (out : list Z) : computes (Session * list Z) :=
  share ← public eph;
  let hello := client_hello host random session_id share in
  Ok (mkSession session_id eph None SServerHello (update sha_default hello) None None [] ZERO ZERO ZERO false, out ++ plain_record HANDSHAKE 1 hello).
Definition established (s : Session) : bool := bool_decide (state s = SConnected).
Definition closed (s : Session) : bool := bool_decide (state s = SClosed).

Section Session.
Context (anchors : list Certificate) (host : list Z) (now : Z) (supported : bool).

(** [data.chunks(MAX_PLAIN)], or one empty piece. *)
Fixpoint chunks_from (fuel : nat) (data : list Z) : list (list Z) :=
  match fuel, data with S fuel, _ :: _ => ztake MAX_PLAIN data :: chunks_from fuel (zdrop MAX_PLAIN data) | _, _ => [] end.
Definition pieces (data : list Z) : list (list Z) := match data with [] => [[]] | _ => chunks_from (length data) data end.
(** A record of [parts], sealed. *)
Definition seal_record (d : Direction) (header : list Z) (parts : list (list Z)) (out : list Z) : computes (Direction * list Z) :=
  '(n, d) ← direction_nonce d; o ← Gcm.seal (d_gcm d) n header parts (out ++ header); Ok (d, o).
Fixpoint seal_pieces (kind : Z) (ps : list (list Z)) (d : Direction) (out : list Z) : computes (Direction * list Z) :=
  match ps with
  | [] => Ok (d, out)
  | p :: ps =>
      '(d, out) ← (if (kind =? APPLICATION_DATA) && (REKEY_AFTER <=? d_seq d) then
          '(d, out) ← seal_record d [APPLICATION_DATA; 3; 3; 0; 6 + TAG] [[KEY_UPDATE; 0; 0; 1; 0; HANDSHAKE]] out;
          d ← direction_update supported d; Ok (d, out)
        else Ok (d, out));
      let len := zlen p + 1 + TAG in
      '(d, out) ← seal_record d [APPLICATION_DATA; 3; 3; wrap 8 (Z.shiftr len 8); wrap 8 len] [p; [kind]] out;
      seal_pieces kind ps d out
  end.
Definition seal_ (kind : Z) (parts : list (list Z)) : TM unit := fun n =>
  match write_ (ses n) with
  | None => (Panic, n)
  | Some d => match seal_pieces kind (pieces (concat parts)) d (out n) with Ok (d, o) => (Ok tt, mkNet (set_write (Some d) (ses n)) (plain n) o) | _ => (Panic, n) end
  end.
Definition send (data : list Z) : TM unit := seal_ APPLICATION_DATA [data].

Definition alert (a : Alert) : TM unit :=
  let body := [if alert_code a =? 0 then 1 else 2; alert_code a] in
  s ← self;
  _ ← (match write_ s with Some _ => seal_ ALERT [body] | None => emit (plain_record ALERT 3 body) end);
  on_self (set_state SClosed).
Definition abort (e : tls_error) : TM tls_error :=
  _ ← (match e with Local_ a => alert a | Peer _ => mret tt end);
  _ ← on_self (set_state SClosed); mret e.

(** ** Messages *)
Definition hello_fields (r session_id : list Z) : answer (list Z) :=
  '(v, r) ← r_bytes 2 r; if negb (bool_decide (v = [3; 3])) then refuse_with ProtocolVersion else
  '(random, r) ← r_bytes 32 r; if bool_decide (random = RETRY_RANDOM) then refuse_with HandshakeFailure else
  '(id, r) ← r_vec 1 r; '(suite, r) ← r_bytes 2 r; '(compression, r) ← r_bytes 1 r;
  if bool_decide (id = session_id) && bool_decide (suite = AES_128_GCM_SHA256) && bool_decide (compression = [0]) then Ok r else refuse_with IllegalParameter.
Definition hello_extension (kind : Z) (d : list Z) (t : bool * option (list Z)) : answer (bool * option (list Z)) :=
  let '(tls13, share) := t in
  '(t, d) ← (if kind =? SUPPORTED_VERSIONS then '(v, d) ← r_bytes 2 d; Ok (bool_decide (v = TLS13), share, d)
    else if kind =? KEY_SHARE then
      '(g, d) ← r_int 2 d;
      if wrap 16 g =? X25519_GROUP then '(k, d) ← r_vec 2 d; if zlen k =? 32 then Ok (tls13, Some k, d) else refuse_with IllegalParameter
      else refuse_with IllegalParameter
    else refuse_with UnsupportedExtension);
  _ ← r_end d; Ok t.
Definition server_share (r : list Z) : answer (list Z) :=
  '(t, r) ← exts hello_extension r (false, None); _ ← r_end r;
  match t with (false, _) => refuse_with ProtocolVersion | (true, None) => refuse_with MissingExtension | (true, Some share) => Ok share end.
(** The client's and server's handshake secrets, and the one kept. *)
Definition handshake_secrets (shared hash : list Z) : computes (list Z * list Z * list Z) :=
  let empty := digest [] in
  let early := hkdf_extract ZERO ZERO in
  d ← derive early (str "derived") empty;
  let secret := hkdf_extract d shared in
  c ← derive secret (str "c hs traffic") hash; v ← derive secret (str "s hs traffic") hash; p ← derive secret (str "derived") empty;
  Ok (c, v, p).
Definition application_secrets (pending hash : list Z) : computes (list Z * list Z) :=
  let master := hkdf_extract pending ZERO in
  c ← derive master (str "c ap traffic") hash; v ← derive master (str "s ap traffic") hash; Ok (c, v).

Definition server_hello (body whole : list Z) : TM unit :=
  s ← self;
  r ← lift (hello_fields body (hello_id s));
  peer ← lift (server_share r);
  shared ← lift (sure (x25519 (ephemeral s) peer));
  _ ← on_self (set_ephemeral ZERO);
  if bool_decide (shared = ZERO) then alarm IllegalParameter else
  let t := update (transcript s) whole in
  _ ← on_self (set_transcript t);
  '(c, v, p) ← lift (sure (handshake_secrets shared (snapshot t)));
  _ ← on_self (set_secrets c v p);
  rd ← lift (sure (direction_new supported v)); _ ← on_self (set_read (Some rd));
  wr ← lift (sure (direction_new supported c)); _ ← on_self (set_write (Some wr));
  on_self (set_state SEncryptedExtensions).
Definition alpn_ok (kind : Z) (data : list Z) (t : unit) : answer unit := if (kind =? ALPN) && negb (bool_decide (data = ALPN_HTTP11)) then refuse_with IllegalParameter else Ok tt.
(** The message is part of the transcript, and the session goes on. *)
Definition taken (whole : list Z) (next : State) : TM unit := _ ← on_self (fun s => set_transcript (update (transcript s) whole) s); on_self (set_state next).
Definition encrypted_extensions (body whole : list Z) : TM unit :=
  '(_, r) ← lift (exts alpn_ok body tt); _ ← lift (r_end r); taken whole SCertificate.
Fixpoint chain_from (fuel : nat) (l : list Z) : answer (list Certificate) :=
  match l, fuel with
  | [], _ => Ok []
  | _, O => Panic
  | _, S fuel =>
      '(d, l) ← r_vec 3 l; '(_, l) ← r_vec 2 l;
      c ← sure (X509.parse d);
      match c with inr r => Err (rejected r) | inl c => cs ← chain_from fuel l; Ok (c :: cs) end
  end.
(** The certificates of the message. Each takes bytes. *)
Definition chain_of (body : list Z) : answer (list Certificate) :=
  '(ctx, r) ← r_vec 1 body;
  if negb (bool_decide (ctx = [])) then refuse_with IllegalParameter else
  '(l, r) ← r_vec 3 r; _ ← r_end r; chain_from (length l) l.
Definition certificate (body whole : list Z) : TM unit :=
  chain ← lift (chain_of body);
  v ← lift (sure (verify_chain chain anchors host now));
  match v with Some r => lift (Err (rejected r)) | None =>
    k ← lift (match chain with c :: _ => Ok (key c) | [] => Panic end);
    _ ← on_self (set_peer k); taken whole SCertificateVerify
  end.
Definition signature_good (peer : option Key) (scheme sig digest : list Z) : answer bool :=
  match peer with
  | Some (KP256 k) => if bool_decide (scheme = ECDSA_P256_SHA256) then s ← ok_or (raw_signature sig) (Local_ DecodeError); sure (P256.verify k digest s) else refuse_with IllegalParameter
  | Some (KRsa k) => if bool_decide (scheme = RSA_PSS_SHA256) then sure (verify_pss k digest sig) else refuse_with IllegalParameter
  | None => refuse_with IllegalParameter
  end.
Definition certificate_verify (body whole : list Z) : TM unit :=
  '(scheme, r) ← lift (r_bytes 2 body); '(sig, r) ← lift (r_vec 2 r); _ ← lift (r_end r);
  s ← self;
  good ← lift (signature_good (peer s) scheme sig (verify_digest (snapshot (transcript s))));
  if (good : bool) then taken whole SFinished else alarm DecryptError.
Definition finished (body whole : list Z) : TM unit :=
  s ← self;
  want ← lift (sure (finished_mac (server_secret s) (snapshot (transcript s))));
  if negb (ct_eq body want) then alarm DecryptError else
  let t := update (transcript s) whole in
  _ ← on_self (set_transcript t);
  '(c, v) ← lift (sure (application_secrets (pending s) (snapshot t)));
  _ ← on_self (set_secrets (client_secret s) (server_secret s) ZERO);
  m ← lift (sure (finished_mac (client_secret s) (snapshot t)));
  _ ← emit (plain_record CHANGE_CIPHER_SPEC 3 [1]);
  _ ← seal_ HANDSHAKE [[FINISHED; 0; 0; 32] ++ m];
  wr ← lift (sure (direction_new supported c)); _ ← on_self (set_write (Some wr));
  rd ← lift (sure (direction_new supported v)); _ ← on_self (set_read (Some rd));
  _ ← on_self (set_secrets ZERO ZERO ZERO);
  on_self (set_state SConnected).
Definition key_update (body : list Z) : TM unit :=
  request ← (match body with [0] => mret false | [1] => mret true | _ => alarm IllegalParameter end);
  s ← self;
  rd ← lift (match read_ s with Some d => sure (direction_update supported d) | None => Panic end);
  _ ← on_self (set_read (Some rd));
  if (request : bool) then
    _ ← seal_ HANDSHAKE [[KEY_UPDATE; 0; 0; 1; 0]];
    s ← self;
    wr ← lift (match write_ s with Some d => sure (direction_update supported d) | None => Panic end);
    on_self (set_write (Some wr))
  else mret tt.
Definition message (whole : list Z) (last : bool) : TM unit :=
  s ← self;
  kind ← lift (or_panic (zget whole 0));
  let body := zdrop 4 whole in
  let here st k := bool_decide (state s = st) && (kind =? k) in
  let rekeys := here SFinished FINISHED || here SServerHello SERVER_HELLO || here SConnected KEY_UPDATE in
  if rekeys && negb last then alarm UnexpectedMessage
  else if here SServerHello SERVER_HELLO then server_hello body whole
  else if here SEncryptedExtensions ENCRYPTED_EXTENSIONS then encrypted_extensions body whole
  else if here SCertificate CERTIFICATE then certificate body whole
  else if here SCertificateVerify CERTIFICATE_VERIFY then certificate_verify body whole
  else if here SFinished FINISHED then finished body whole
  else if here SConnected NEW_SESSION_TICKET then mret tt
  else if here SConnected KEY_UPDATE then key_update body
  else alarm UnexpectedMessage.
(** The loop of [handshakes], over the buffer that is left: what it leaves. A
    message takes bytes. *)
Fixpoint handshakes_from (fuel : nat) (buffer : list Z) : TM (list Z) :=
  match fuel with
  | O => lift Panic
  | S fuel =>
      if 4 <=? zlen buffer then
        '(len, _) ← lift (r_int 3 (ztake 3 (zdrop 1 buffer)));
        if MAX_HANDSHAKE <? len then alarm UnexpectedMessage
        else if zlen buffer <? 4 + len then mret buffer
        else _ ← message (ztake (4 + len) buffer) (zlen buffer =? 4 + len); handshakes_from fuel (zdrop (4 + len) buffer)
      else mret buffer
  end.
Definition handshakes : TM unit :=
  s ← self;
  let buffer := handshake s in
  _ ← on_self (set_handshake []);
  rest ← handshakes_from (S (length buffer)) buffer;
  if MAX_HANDSHAKE <? zlen rest then alarm UnexpectedMessage else on_self (set_handshake rest).
Definition peer_alert (body : list Z) : TM unit :=
  match body with
  | [_; code] => if code =? 0 then on_self (set_state SClosed) else if code =? 90 then mret tt else lift (Err (Peer code))
  | _ => alarm DecodeError
  end.
(** Handshake bytes arrive. *)
Definition handshake_bytes (b : list Z) : TM unit := _ ← on_self (fun s => set_handshake (handshake s ++ b) s); handshakes.

(** ** Records *)

(** The last byte that is not zero, and where. *)
Fixpoint rposition (l : list Z) : option Z :=
  match l with [] => None | b :: l => match rposition l with Some i => Some (i + 1) | None => if b =? 0 then None else Some 0 end end.
Definition protected (header body : list Z) : TM unit :=
  s ← self;
  d ← lift (or_panic (read_ s));
  p ← get_plain;
  '(n, d) ← lift (sure (direction_nonce d));
  _ ← on_self (set_read (Some d));
  kind ← lift (or_panic (zget header 0));
  if negb (kind =? APPLICATION_DATA) then alarm UnexpectedMessage else
  '(ok, p') ← lift (sure (Gcm.open (d_gcm d) n header body p));
  if negb ok then alarm BadRecordMac else
  _ ← set_plain p';
  let opened := zdrop (zlen p) p' in
  match rposition opened with
  | None => _ ← set_plain p; alarm UnexpectedMessage
  | Some e =>
      if MAX_PLAIN <? e then _ ← set_plain p; alarm UnexpectedMessage else
      inner ← lift (or_panic (zget opened e));
      let content := ztake e opened in
      _ ← set_plain (p ++ content);
      if (inner =? APPLICATION_DATA) && bool_decide (state s = SConnected) then mret tt else
      _ ← set_plain p;
      if (inner =? HANDSHAKE) && negb (bool_decide (content = [])) then handshake_bytes content
      else if inner =? ALERT then peer_alert content
      else alarm UnexpectedMessage
  end.
Definition record_ (header body : list Z) : TM unit :=
  s ← self;
  kind ← lift (or_panic (zget header 0));
  if kind =? CHANGE_CIPHER_SPEC then
    _ ← on_self set_ccs;
    if negb (bool_decide (state s = SConnected)) && bool_decide (body = [1]) && negb (change_cipher_spec s) then mret tt else alarm UnexpectedMessage
  else match read_ s with
  | Some _ => protected header body
  | None =>
      if (kind =? HANDSHAKE) && negb (bool_decide (body = [])) then handshake_bytes body
      else if kind =? ALERT then peer_alert body
      else alarm UnexpectedMessage
  end.
(** An error ends the session: the alert is sent and the error returned. *)
Definition or_abort (m : TM unit) : TM unit := fun n =>
  match m n with
  | (Err e, n) => match abort e n with (Ok e, n) => (Err e, n) | (_, n) => (Panic, n) end
  | r => r
  end.
(** The loop of [receive], over the wire that is left: the bytes used. A record
    takes bytes. *)
Fixpoint receive_from (fuel : nat) (wire : list Z) : TM Z :=
  match fuel with
  | O => lift Panic
  | S fuel =>
      s ← self;
      if negb (bool_decide (state s = SClosed)) && (HEADER <=? zlen wire) then
        v ← lift (or_panic (zget wire 1)); hi ← lift (or_panic (zget wire 3)); lo ← lift (or_panic (zget wire 4));
        let len := 256 * hi + lo in
        let limit := match read_ s with Some _ => MAX_RECORD | None => MAX_PLAIN end in
        if negb (v =? 3) || (limit <? len) then _ ← or_abort (alarm (if v =? 3 then RecordOverflow else DecodeError)); mret 0
        else if zlen wire <? HEADER + len then mret 0
        else
          _ ← or_abort (record_ (ztake HEADER wire) (ztake len (zdrop HEADER wire)));
          used ← receive_from fuel (zdrop (HEADER + len) wire);
          mret (HEADER + len + used)
      else mret 0
  end.
Definition receive (wire : list Z) : TM Z := receive_from (S (length wire)) wire.
End Session.
