(* ===== verification/TlsKeys.v ===== *)
(** * Keys and records of the TLS client ([net/tls.rs])

    RFC 8446's key schedule over the standards' HMAC and HKDF; directions,
    their nonces and sealed records. *)
From S2P Require Import Prelude Bytes Utf8 Engine Sbe Serve Daemon Search Token Table Bpe Tournament Merges Lookup Unicode Pieces Encode Marks Vocab Built Json FromJson Chat.
From S2P Require Import Sha X25519 Limbs Rsa Http P256 P256Field P256Curve X509 X509Chain Gcm Gf128 Ghash AesBlock GcmSeal Tls.

(** Binds a value without unfolding what follows. *)
Lemma ok_bind {E A B} (k : A -> outcome E B) a : (Ok a ≫= k) = k a.
Proof. done. Qed.

(** ** The standard's labels *)
Definition hkdf_label (secret label context : list Z) (len : Z) : list Z :=
  hkdf secret (be_bytes 2 len ++ [6 + zlen label] ++ str "tls13 " ++ label ++ [zlen context] ++ context) len.
Definition block32 (b : list Z) : Prop := bytes_ok b /\ zlen b = 32.
Lemma sha256_block m : block32 (sha256 m).
Proof. split; [apply sha256_ok|apply sha256_zlen]. Qed.
Lemma hmac_block k m : block32 (hmac k m).
Proof. apply sha256_block. Qed.
Lemma hkdf_block prk info len : 0 <= len -> bytes_ok (hkdf prk info len) /\ zlen (hkdf prk info len) = len.
Proof.
  intros Hl. unfold hkdf. set (l := map (hkdf_t prk info) (seq 1 (Z.to_nat ((len + 31) / 32)))). assert (Forall block32 l) as Hb.
  { apply Forall_map, Forall_forall. intros i Hi%elem_of_seq. destruct i as [|i]; [lia|]. cbn [hkdf_t]. apply hmac_block. }
  assert (bytes_ok (concat l) /\ zlen (concat l) = 32 * zlen l) as [Hok Hz]. { clearbody l. induction Hb as [|b l [Hb1 Hb2] Hb IH]; [done|]. destruct IH as [? ?]. cbn [concat]. rewrite zlen_app, zlen_cons. split; [by apply Forall_app_2|lia]. }
  split; [by apply Forall_take|]. rewrite zlen_ztake, Hz by done. unfold l, zlen. rewrite length_map, length_seq. pose proof (Z.div_mod (len + 31) 32 ltac:(lia)). pose proof (Z.mod_pos_bound (len + 31) 32 ltac:(lia)). lia.
Qed.
Lemma label_block secret label context len : 0 <= len -> bytes_ok (hkdf_label secret label context len) /\ zlen (hkdf_label secret label context len) = len.
Proof. apply hkdf_block. Qed.
Lemma expand_label_spec secret label context len : zlen secret = 32 -> zlen label <= 100 -> zlen context <= 32 -> 0 <= len <= 32 -> expand_label secret label context len = Ok (hkdf_label secret label context len).
Proof.
  intros Hs Hl Hc Hn. pose proof (zlen_nonneg label). pose proof (zlen_nonneg context). unfold expand_label. rewrite fits_width by (change (2 ^ 8) with 256; lia). cbn [mbind outcome_bind]. rewrite wrap_id by (unfold fits; change (2 ^ 8) with 256; lia). unfold hkdf_label.
  replace (be_bytes 2 len ++ [6 + zlen label] ++ str "tls13 " ++ label ++ [zlen context] ++ context) with (concat [be_bytes 2 len; [6 + zlen label]; str "tls13 "; label; [zlen context]; context]) by (cbn [concat]; by rewrite app_nil_r).
  assert (1024 < 2 ^ 64) by (change 1024 with (2 ^ 10); by apply Z.pow_lt_mono_r). apply hkdf_expand_spec; [lia| |lia]. cbn [concat]. rewrite !zlen_app, be_bytes_zlen. change (zlen (str "tls13 ")) with 6. change (zlen [6 + zlen label]) with 1. change (zlen [zlen context]) with 1. change (zlen (@nil Z)) with 0. lia.
Qed.
Definition Derive (secret label hash : list Z) : list Z := hkdf_label secret label hash 32.
Lemma derive_spec secret label hash : zlen secret = 32 -> zlen label <= 100 -> zlen hash = 32 -> derive secret label hash = Ok (Derive secret label hash) /\ block32 (Derive secret label hash).
Proof. intros Hs Hl Hh. split; [apply expand_label_spec; lia|apply label_block; lia]. Qed.
Lemma mac_spec k m : zlen k = 32 -> zlen m <= 2 ^ 10 -> mac k m = hmac k m.
Proof.
  intros Hk Hm. unfold mac. assert (2 ^ 20 < 2 ^ 64) by (by apply Z.pow_lt_mono_r). change (2 ^ 20) with 1048576 in *. change (2 ^ 10) with 1024 in *. pose proof (mac_parts k [m]) as H'. cbn [fold_left concat] in H'. rewrite app_nil_r in H'. apply H'; lia.
Qed.
(** RFC 8446, section 7.1. *)
Definition empty_hash : list Z := sha256 [].
Definition early_secret : list Z := hmac ZERO ZERO.
Definition handshake_secret (shared : list Z) : list Z := hmac (Derive early_secret (str "derived") empty_hash) shared.
Definition master_secret (shared : list Z) : list Z := hmac (Derive (handshake_secret shared) (str "derived") empty_hash) ZERO.
Definition hs_traffic (who : string) (shared hash : list Z) : list Z := Derive (handshake_secret shared) (str who) hash.
Definition ap_traffic (who : string) (shared hash : list Z) : list Z := Derive (master_secret shared) (str who) hash.
(** Section 4.4.4. *)
Definition finished_value (base hash : list Z) : list Z := hmac (hkdf_label base (str "finished") [] 32) hash.
#[local] Opaque hmac sha256 hkdf mac hkdf_label expand digest.
Lemma zero_block : block32 ZERO.
Proof. split; [|done]. apply Forall_replicate. by unfold fits. Qed.
(** The secrets, from the salt and the digest of nothing. *)
Lemma secrets_from d e shared hash : zlen d = 32 -> zlen e = 32 -> block32 shared -> block32 hash ->
  (let secret := hkdf_extract d shared in
   c ← derive secret (str "c hs traffic") hash; v ← derive secret (str "s hs traffic") hash; p ← derive secret (str "derived") e; Ok (c, v, p) : computes (list Z * list Z * list Z))
  = Ok (Derive (hmac d shared) (str "c hs traffic") hash, Derive (hmac d shared) (str "s hs traffic") hash, Derive (hmac d shared) (str "derived") e).
Proof.
  intros Hd He [_ Hs] [_ Hh]. cbv zeta. unfold hkdf_extract. rewrite mac_spec by (done || rewrite Hs; done). pose proof (proj2 (hmac_block d shared)) as Hz. set (k := hmac d shared) in *. clearbody k.
  destruct (derive_spec k (str "c hs traffic") hash) as [-> _]; [done..|]. rewrite ok_bind. destruct (derive_spec k (str "s hs traffic") hash) as [-> _]; [done..|]. rewrite ok_bind. destruct (derive_spec k (str "derived") e) as [-> _]; [done..|]. done.
Qed.
Lemma empty_hash_spec : digest [] = empty_hash /\ zlen empty_hash = 32.
Proof. split; [apply digest_spec; reflexivity|apply sha256_zlen]. Qed.
Lemma early_secret_spec : hkdf_extract ZERO ZERO = early_secret /\ zlen early_secret = 32.
Proof. split; [apply mac_spec; [reflexivity|discriminate]|apply hmac_zlen]. Qed.
#[local] Opaque empty_hash early_secret.
Lemma handshake_secrets_spec shared hash : block32 shared -> block32 hash ->
  handshake_secrets shared hash = Ok (hs_traffic "c hs traffic" shared hash, hs_traffic "s hs traffic" shared hash, Derive (handshake_secret shared) (str "derived") empty_hash).
Proof.
  intros Hs Hh. unfold handshake_secrets, hs_traffic, handshake_secret. destruct empty_hash_spec as [-> He], early_secret_spec as [-> Hr]. revert He Hr. generalize empty_hash early_secret. intros e r He Hr. destruct (derive_spec r (str "derived") e Hr ltac:(discriminate) He) as [-> [_ Hd]]. rewrite ok_bind. by apply secrets_from.
Qed.
Lemma application_secrets_spec shared hash : block32 hash -> application_secrets (Derive (handshake_secret shared) (str "derived") empty_hash) hash = Ok (ap_traffic "c ap traffic" shared hash, ap_traffic "s ap traffic" shared hash).
Proof.
  intros [_ Hh]. unfold application_secrets. cbv zeta. unfold hkdf_extract. rewrite mac_spec; [|apply label_block; lia|done]. fold (master_secret shared). assert (zlen (master_secret shared) = 32) as Hz by apply hmac_block.
  destruct (derive_spec (master_secret shared) (str "c ap traffic") hash) as [-> _]; [done..|]. rewrite ok_bind. destruct (derive_spec (master_secret shared) (str "s ap traffic") hash) as [-> _]; [done..|]. done.
Qed.
Lemma finished_mac_spec base hash : zlen base = 32 -> block32 hash -> finished_mac base hash = Ok (finished_value base hash) /\ block32 (finished_value base hash).
Proof. intros Hb [_ Hh]. unfold finished_mac. rewrite (expand_label_spec base) by (done || lia). rewrite ok_bind. rewrite mac_spec; [split; [done|apply hmac_block]|apply label_block; lia|rewrite Hh; done]. Qed.

(** ** Directions *)

(** A direction is a secret, its keys and a place in the sequence. *)
Definition direction (secret : list Z) (seq : Z) : Direction := mkDirection (expand (hkdf_label secret (str "key") [] 16)) secret seq (hkdf_label secret (str "iv") [] 12).
Definition nonce_of (secret : list Z) (seq : Z) : list Z := let iv := hkdf_label secret (str "iv") [] 12 in ztake 4 iv ++ zip_with Z.lxor (zdrop 4 iv) (be_bytes 8 seq).
Definition next_secret (secret : list Z) : list Z := hkdf_label secret (str "traffic upd") [] 32.
Lemma direction_new_spec secret : zlen secret = 32 -> direction_new true secret = Ok (direction secret 0).
Proof. intros Hs. unfold direction_new. rewrite (expand_label_spec secret (str "key")) by (done || lia). rewrite ok_bind. rewrite expand_label_spec by (done || lia). rewrite ok_bind. done. Qed.
Lemma next_secret_block secret : block32 (next_secret secret).
Proof. apply label_block. lia. Qed.
Lemma direction_update_spec secret seq : zlen secret = 32 -> direction_update true (direction secret seq) = Ok (direction (next_secret secret) 0).
Proof. intros Hs. unfold direction_update. cbn [d_secret direction]. rewrite expand_label_spec by (done || lia). rewrite ok_bind. apply direction_new_spec, next_secret_block. Qed.
Lemma nonce_ok secret seq : bytes_ok (nonce_of secret seq) /\ zlen (nonce_of secret seq) = 12.
Proof.
  unfold nonce_of. cbv zeta. destruct (label_block secret (str "iv") [] 12 ltac:(lia)) as [Hb Hl]. set (iv := hkdf_label secret (str "iv") [] 12) in *. fold (xors (zdrop 4 iv) (be_bytes 8 seq)). assert (zlen (zdrop 4 iv) = 8) as Hd by (rewrite zlen_zdrop; lia). split.
  - apply Forall_app_2; [by apply Forall_take|]. apply xors_ok; [by apply Forall_drop|apply be_bytes_ok].
  - rewrite zlen_app, xors_zlen, zlen_ztake, Hd by (lia || by rewrite be_bytes_zlen). lia.
Qed.
Lemma direction_nonce_spec secret seq : 0 <= seq -> seq + 1 < 2 ^ 64 -> direction_nonce (direction secret seq) = Ok (nonce_of secret seq, direction secret (seq + 1)).
Proof. intros H0 H1. unfold direction_nonce. cbn [d_seq d_iv d_gcm d_secret direction]. rewrite fits_width by lia. done. Qed.
Lemma key_block secret : block16 (hkdf_label secret (str "key") [] 16).
Proof. apply label_block. lia. Qed.
(** A record under the key: what sealing gives. *)
Definition sealed (secret : list Z) (seq : Z) (header p : list Z) : list Z := gcm_seal (hkdf_label secret (str "key") [] 16) (nonce_of secret seq) header p.
Lemma small_message : 2 ^ 15 <= MAX_MESSAGE.
Proof. done. Qed.
Lemma seal_record_spec secret seq header parts out : 0 <= seq -> seq + 1 < 2 ^ 64 -> bytes_ok header -> zlen header = 5 -> Forall bytes_ok parts -> zlen (concat parts) <= 2 ^ 15 ->
  seal_record (direction secret seq) header parts out = Ok (direction secret (seq + 1), (out ++ header) ++ sealed secret seq header (concat parts)).
Proof.
  intros H0 H1 Hh Hhl Hp Hl. unfold seal_record. rewrite direction_nonce_spec by done. rewrite ok_bind. cbn [d_gcm direction]. destruct (nonce_ok secret seq) as [Hn Hnl]. rewrite seal_spec; [|apply key_block|done|done|done|done|by rewrite Hhl]. pose proof small_message. destruct (Z.leb_spec (zlen (concat parts)) MAX_MESSAGE); [done|lia].
Qed.
Lemma sealed_zlen secret seq header p : zlen (sealed secret seq header p) = zlen p + 16.
Proof. unfold sealed, gcm_seal. destruct (nonce_ok secret seq) as [Hn Hl]. rewrite zlen_app, xored_zlen. by rewrite (proj2 (gcm_tag_ok _ _ header _ (key_block secret) Hn Hl)). Qed.
Lemma finished_block base hash : block32 (finished_value base hash).
Proof. apply hmac_block. Qed.
Lemma hs_traffic_block who shared hash : block32 (hs_traffic who shared hash).
Proof. apply label_block. lia. Qed.
Lemma ap_traffic_block who shared hash : block32 (ap_traffic who shared hash).
Proof. apply label_block. lia. Qed.
Lemma later_block i secret : block32 secret -> block32 (Nat.iter i next_secret secret).
Proof. intros Hs. destruct i as [|i]; [done|]. apply next_secret_block. Qed.
