(* ===== verification/TlsSound.v ===== *)
(** * What a TLS session stands for ([net/tls.rs], [Session::receive])

    Whatever bytes arrive, a session takes them or refuses them with an alert,
    and is established only with a server that holds the key of a certificate
    for the host and has seen the same handshake. *)
From S2P Require Import Prelude Bytes Utf8 Engine Sbe Serve Daemon Search Token Table Bpe Tournament Merges Lookup Unicode Pieces Encode Marks Vocab Built Json FromJson Chat.
From S2P Require Import Sha X25519 Ladder Limbs Rsa Http P256 P256Field P256Curve X509 X509Chain Gcm Gf128 Ghash AesBlock GcmSeal Tls TlsKeys.
#[local] Opaque hmac sha256 hkdf mac hkdf_label expand digest expand_label hkdf_expand derive x25519 P256.verify verify_pss verify_pkcs1 X509.parse verify_chain direction_new direction_update handshake_secrets application_secrets finished_mac Gcm.seal Gcm.open gcm_seal snapshot update sha_finish.

(** ** Readers *)

(** An answer that is not a panic, and what it is when it is a value. *)
Definition answers {A} (P : A -> Prop) (m : answer A) : Prop := match m with Ok a => P a | Err _ => True | Panic => False end.
Lemma answer_bind {A B} (P : A -> Prop) (Q : B -> Prop) m (k : A -> answer B) : answers P m -> (forall a, P a -> answers Q (k a)) -> answers Q (m ≫= k).
Proof. destruct m; cbn; auto. Qed.
Lemma answer_mono {A} (P Q : A -> Prop) m : answers P m -> (forall a, P a -> Q a) -> answers Q m.
Proof. destruct m; cbn; auto. Qed.
Lemma r_bytes_spec n r : bytes_ok r -> 0 <= n -> answers (fun '(a, b) => r = a ++ b /\ zlen a = n /\ bytes_ok a /\ bytes_ok b) (r_bytes n r).
Proof.
  intros Hr Hn. unfold r_bytes. destruct (Z.leb_spec n (zlen r)); [|done]. cbn. split; [by rewrite ztake_zdrop|]. split; [rewrite zlen_ztake; lia|]. split; [by apply Forall_take|by apply Forall_drop].
Qed.
Lemma r_int_spec n r : bytes_ok r -> 0 <= n <= 3 -> answers (fun '(v, b) => exists a, r = a ++ b /\ zlen a = n /\ v = be_val a /\ a = be_bytes (Z.to_nat n) v /\ 0 <= v < 2 ^ (8 * n) /\ bytes_ok b) (r_int n r).
Proof.
  intros Hr Hn. unfold r_int. eapply answer_bind; [by apply r_bytes_spec; [|lia]|]. intros [a b] (->&Hl&Ha&Hb). cbn. exists a. pose proof (be_val_bound a Ha) as Hv. rewrite Hl in Hv. assert (2 ^ (8 * n) <= 2 ^ 64) by (apply Z.pow_le_mono_r; lia). rewrite be_fold_val, wrap_id by (done || (unfold fits; lia)). repeat split; try done; try lia. rewrite <- Hl. unfold zlen. rewrite Nat2Z.id. by rewrite be_bytes_val.
Qed.
Lemma r_vec_spec n r : bytes_ok r -> 0 <= n <= 3 -> answers (fun '(a, b) => r = prefixed (Z.to_nat n) a ++ b /\ bytes_ok a /\ bytes_ok b) (r_vec n r).
Proof.
  intros Hr Hn. unfold r_vec. eapply answer_bind; [by apply r_int_spec|]. intros [v b] (p&->&Hp&_&Hpb&Hv&Hb). eapply answer_mono; [apply r_bytes_spec; [done|lia]|]. intros [x y] (->&Hx&Hxb&Hyb). split; [|done]. unfold prefixed. by rewrite Hx, <- app_assoc, <- Hpb.
Qed.
Lemma r_end_spec r : answers (fun _ => r = []) (r_end r).
Proof. by destruct r. Qed.
(** Extensions as they are laid out. *)
Definition ext_bytes (l : list (Z * list Z)) : list Z := concat (map (fun kd => extension (fst kd) (snd kd)) l).
Lemma exts_from_spec {T} (P : list (Z * list Z) -> T -> Prop) fuel each r seen l t : (forall l k d t, fits 16 k -> bytes_ok d -> P l t -> answers (P (l ++ [(k, d)])) (each k d t)) -> bytes_ok r -> (length r <= fuel)%nat -> P l t ->
  answers (fun t => exists l', r = ext_bytes l' /\ P (l ++ l') t) (exts_from fuel each r seen t).
Proof.
  intros Heach. revert r seen l t. induction fuel as [|fuel IH]; intros r seen l t Hr Hf Ht; (destruct r as [|x r]; [exists []; by rewrite app_nil_r|]); [cbn in Hf; lia|]. cbn [exts_from]. set (w := x :: r) in *. eapply answer_bind; [by apply (r_int_spec 2 w)|]. intros [kind b] (a&El&Ha&_&Ea&Hk&Hb). eapply answer_bind; [by apply (r_vec_spec 2 b)|]. intros [data c] (Ec&Hd&Hc). destruct (_ && _); [done|].
  eapply answer_bind; [by apply (Heach l kind data t)|]. intros t' Ht'. eapply answer_mono; [apply (IH c _ (l ++ [(kind, data)])); [done| |done]|].
  - apply (f_equal (@length Z)) in El. rewrite length_app in El. rewrite Ec, length_app in El. unfold zlen in Ha. lia.
  - intros t'' (l'&El'&Hp). exists ((kind, data) :: l'). rewrite <- app_assoc in Hp. split; [|done]. rewrite El, Ea, Ec, El'. unfold ext_bytes, extension. cbn [map concat fst snd]. by rewrite <- app_assoc.
Qed.
Lemma exts_spec {T} (P : list (Z * list Z) -> T -> Prop) each r t : (forall l k d t, fits 16 k -> bytes_ok d -> P l t -> answers (P (l ++ [(k, d)])) (each k d t)) -> bytes_ok r -> P [] t ->
  answers (fun '(t, b) => exists l, r = prefixed 2 (ext_bytes l) ++ b /\ P l t /\ bytes_ok b) (exts each r t).
Proof. intros He Hr Ht. unfold exts. eapply answer_bind; [by apply (r_vec_spec 2 r)|]. intros [a b] (->&Ha&Hb). eapply answer_bind; [by apply (exts_from_spec P _ _ _ _ [])|]. intros t' (l&->&Hp). by exists l. Qed.

(** A handshake message. *)
Definition msg (kind : Z) (body : list Z) : list Z := [kind] ++ prefixed 3 body.
(** The ServerHello [m], to the session [id], chooses TLS 1.3, the suite and a share. *)
Definition chooses (m id share : list Z) : Prop := exists random l,
  m = msg SERVER_HELLO ([3; 3] ++ random ++ prefixed 1 id ++ AES_128_GCM_SHA256 ++ [0] ++ prefixed 2 (ext_bytes l)) /\ zlen random = 32 /\ random <> RETRY_RANDOM
  /\ (SUPPORTED_VERSIONS, TLS13) ∈ l /\ (KEY_SHARE, be_bytes 2 X25519_GROUP ++ prefixed 2 share) ∈ l.
Lemma hello_fields_spec r id : bytes_ok r -> answers (fun b => bytes_ok b /\ exists random, r = [3; 3] ++ random ++ prefixed 1 id ++ AES_128_GCM_SHA256 ++ [0] ++ b /\ zlen random = 32 /\ random <> RETRY_RANDOM) (hello_fields r id).
Proof.
  intros Hr. unfold hello_fields. eapply answer_bind; [by apply (r_bytes_spec 2)|]. intros [v b] (->&_&_&Hb). destruct (negb _) eqn:E1; [done|]. apply negb_false_iff, bool_decide_eq_true in E1 as ->. eapply answer_bind; [by apply (r_bytes_spec 32)|]. intros [v' c] (->&Hv&_&Hc). destruct (bool_decide _) eqn:E2; [done|]. apply bool_decide_eq_false in E2.
  eapply answer_bind; [by apply (r_vec_spec 1)|]. intros [i d] (->&_&Hd). eapply answer_bind; [by apply (r_bytes_spec 2)|]. intros [su e] (->&_&_&He). eapply answer_bind; [by apply (r_bytes_spec 1)|]. intros [co f] (->&_&_&Hf). destruct (_ && _) eqn:E3; [|done]. apply andb_prop in E3 as [[->%bool_decide_eq_true ->%bool_decide_eq_true]%andb_prop ->%bool_decide_eq_true]. cbn [answers]. split; [done|]. by exists v'.
Qed.
Lemma server_share_spec r : bytes_ok r -> answers (fun k => block32 k /\ exists l, r = prefixed 2 (ext_bytes l) /\ (SUPPORTED_VERSIONS, TLS13) ∈ l /\ (KEY_SHARE, be_bytes 2 X25519_GROUP ++ prefixed 2 k) ∈ l) (server_share r).
Proof.
  intros Hr. unfold server_share. set (P := fun (l : list (Z * list Z)) (t : bool * option (list Z)) => (fst t = true -> (SUPPORTED_VERSIONS, TLS13) ∈ l) /\ forall k, snd t = Some k -> block32 k /\ (KEY_SHARE, be_bytes 2 X25519_GROUP ++ prefixed 2 k) ∈ l).
  eapply answer_bind; [apply (exts_spec P); [|done|by split]|].
  - intros l k d [tls share] Hk Hd [Ht1 Ht2]. cbn [fst snd] in Ht1, Ht2. unfold hello_extension. eapply (answer_bind (fun '(t, b) => b = [] -> P (l ++ [(k, d)]) t)).
    + destruct (Z.eqb_spec k SUPPORTED_VERSIONS) as [->|]; [eapply answer_bind; [by apply (r_bytes_spec 2)|]; intros [v b] (->&_&_&Hb); intros ->; split; cbn [fst snd]; [intros ->%bool_decide_eq_true; rewrite app_nil_r; set_solver|]; intros k Hks; destruct (Ht2 k Hks); split; [done|set_solver]|].
      destruct (Z.eqb_spec k KEY_SHARE) as [->|]; [|done]. eapply answer_bind; [by apply (r_int_spec 2)|]. intros [g b] (a&->&_&_&Ea&Hg&Hb). destruct (Z.eqb_spec (wrap 16 g) X25519_GROUP) as [Eg|]; [|done]. rewrite wrap_id in Eg by done. subst g. eapply answer_bind; [by apply (r_vec_spec 2)|]. intros [x c] (->&Hx&Hc). destruct (Z.eqb_spec (zlen x) 32); [|done].
      intros ->. split; cbn [fst snd]; [set_solver|]. intros ? [= <-]. split; [done|]. rewrite Ea, app_nil_r. set_solver.
    + intros [t b] Ht. eapply answer_bind; [apply r_end_spec|]. intros u ->. by apply Ht.
  - intros [[tls share] b] (l&->&[Ht1 Ht2]&Hb). eapply answer_bind; [apply r_end_spec|]. intros u ->. cbn [fst snd] in *. destruct tls; [|done]. destruct share as [k|]; [|done]. destruct (Ht2 k eq_refl) as [Hk Hl]. split; [done|]. exists l. rewrite app_nil_r. auto.
Qed.
Lemma encrypted_spec r : bytes_ok r -> answers (fun _ => True) (exts alpn_ok r tt).
Proof. intros Hr. eapply answer_mono; [apply (exts_spec (fun _ _ => True)); [|done|done]; intros l k d t _ _ _; unfold alpn_ok; by destruct (_ && _)|]. done. Qed.
(** A Certificate message's entries. *)
Definition entries (l : list (Certificate * list Z)) : list Z := concat (map (fun ce => prefixed 3 (der (fst ce)) ++ prefixed 2 (snd ce)) l).
Lemma chain_from_spec fuel r : bytes_ok r -> (length r <= fuel)%nat -> answers (fun chain => Forall cert_good chain /\ Forall laid_out chain /\ exists l, r = entries l /\ chain = map fst l) (chain_from fuel r).
Proof.
  revert r. induction fuel as [|fuel IH]; intros l Hl Hf; (destruct l as [|x l]; [split; [constructor|]; split; [constructor|]; by exists []|]); [cbn in Hf; lia|]. cbn [chain_from]. set (r := x :: l) in *. eapply answer_bind; [by apply (r_vec_spec 3 r)|]. intros [d b] (Er&Hd&Hb). eapply answer_bind; [by apply (r_vec_spec 2 b)|]. intros [e c] (Eb&_&Hc). pose proof (parse_spec d Hd) as Hp. destruct (X509.parse d) as [[cert|rej]|?|]; [|done|done|done]. cbn [sure]. rewrite ok_bind. destruct Hp as (Ed&Hlay&Hg).
  eapply answer_bind; [apply (IH c Hc)|].
  - apply (f_equal (@length Z)) in Er. rewrite Eb, !length_app in Er. unfold prefixed in Er. rewrite !length_app in Er. pose proof (be_bytes_zlen 3 (zlen d)) as H3. change (Z.to_nat 3) with 3%nat in Er. unfold zlen in H3 at 1. lia.
  - intros cs (Hcs&Hls&es&Ees&Ecs). split; [by constructor|]. split; [by constructor|]. exists ((cert, e) :: es). split; [|cbn; by rewrite Ecs]. rewrite Er, Eb, Ees. unfold entries. cbn [map concat fst snd]. by rewrite Ed, <- app_assoc.
Qed.
Lemma chain_of_spec body : bytes_ok body -> answers (fun chain => Forall cert_good chain /\ Forall laid_out chain /\ exists l, body = [0] ++ prefixed 3 (entries l) /\ chain = map fst l) (chain_of body).
Proof.
  intros Hb. unfold chain_of. eapply answer_bind; [by apply (r_vec_spec 1)|]. intros [c r] (->&_&Hr). destruct (negb _) eqn:Ec; [done|]. apply negb_false_iff, bool_decide_eq_true in Ec as ->. eapply answer_bind; [by apply (r_vec_spec 3)|]. intros [l t] (->&Hl&Ht). eapply answer_bind; [apply r_end_spec|]. intros u ->. eapply answer_mono; [by apply chain_from_spec|]. intros chain (Hg&Hla&es&->&->). split; [done|]. split; [done|]. exists es. by rewrite app_nil_r.
Qed.

(** ** What a server proves *)

(** The certificates lead to an anchor and the first is for the host. *)
Definition vouched (anchors : list Certificate) (host : list Z) (now : Z) (m : list Z) (leaf : Certificate) : Prop := exists l rest,
  m = msg CERTIFICATE ([0] ++ prefixed 3 (entries l)) /\ map fst l = leaf :: rest /\ Forall laid_out (leaf :: rest) /\ Forall cert_good (leaf :: rest)
  /\ key leaf <> None /\ serves_tls (ext leaf) = true /\ named leaf host /\ leads anchors now (leaf :: rest).
(** Section 4.4.3: a signature of the leaf's key over the transcript's hash. *)
Definition signed_digest (log : list Z) : list Z := sha256 (zrep 64 0x20 ++ SERVER_VERIFY_CONTEXT ++ sha256 log).
Definition key_signs (k : option Key) (scheme sig digest : list Z) : Prop :=
  match k with
  | Some (KP256 k) => scheme = ECDSA_P256_SHA256 /\ exists rs x y, raw_signature sig = Some rs /\ key_is k x y /\ ecdsa x y (be_val digest) (be_val (ztake 32 rs)) (be_val (zdrop 32 rs)) = true
  | Some (KRsa k) => scheme = RSA_PSS_SHA256 /\ exists N E salt, key_ok k N E /\ zlen salt = 32 /\ bytes_ok salt /\ opens_to k N E sig (pss_encode (Z.log2 N) digest salt)
  | None => False
  end.
Definition proves (k : option Key) (log m : list Z) : Prop := exists scheme sig, m = msg CERTIFICATE_VERIFY (scheme ++ prefixed 2 sig) /\ key_signs k scheme sig (signed_digest log).
Lemma signature_good_spec k scheme sig m : (forall k', k = Some k' -> key_good k') -> bytes_ok sig -> answers (fun good => good = true -> key_signs k scheme sig (sha256 m)) (signature_good k scheme sig (sha256 m)).
Proof.
  intros Hk Hs. pose proof (sha256_zlen m) as Hl. pose proof (sha256_ok m) as Hb. revert Hl Hb. generalize (sha256 m). intros dg Hl Hb. unfold signature_good, key_signs. destruct k as [[k|k]|]; [| |done]; specialize (Hk _ eq_refl); cbn [key_good] in Hk.
  - destruct (bool_decide _) eqn:E; [|done]. apply bool_decide_eq_true in E. destruct (raw_signature sig) as [rs|] eqn:Er; [|done]. cbn [ok_or]. rewrite ok_bind. destruct Hk as (x&y&Hk&_). destruct (raw_signature_good sig rs Hs Er) as [Hrb Hrl]. rewrite (verify_spec k x y dg rs Hk Hb Hl Hrb Hrl). cbn [sure answers]. intros He. split; [done|]. by exists rs, x, y.
  - destruct (bool_decide _) eqn:E; [|done]. apply bool_decide_eq_true in E. destruct Hk as (N&e&_&Hk). destruct (verify_pss_spec k N e dg sig Hk Hl Hs) as (ok&->&Hok). cbn [sure answers]. intros ->. split; [done|]. destruct (proj1 Hok eq_refl) as (salt&?&?&?). by exists N, e, salt.
Qed.
Definition small (m : list Z) : Prop := zlen m <= 2 ^ 18.
(** The hash of the messages so far. *)
Lemma snapshot_spec t m : hashed t m -> zlen m <= 2 ^ 21 -> snapshot t = sha256 m.
Proof. intros Ht Hm. apply finish_spec; [done|]. assert (2 ^ 24 < 2 ^ 64) by (by apply Z.pow_lt_mono_r). change (2 ^ 24) with (8 * 2 ^ 21) in *. lia. Qed.
Lemma verify_digest_spec log : verify_digest (sha256 log) = signed_digest log.
Proof.
  unfold verify_digest, signed_digest. rewrite app_assoc. apply finish_spec.
  - apply update_spec, update_spec. apply (update_spec _ [] _ hashed_default).
  - rewrite !zlen_app, sha256_zlen, zlen_zrep by lia. change (zlen SERVER_VERIFY_CONTEXT) with 34. assert (2 ^ 12 < 2 ^ 64) by (by apply Z.pow_lt_mono_r). change (2 ^ 12) with 4096 in *. lia.
Qed.
