(* ===== verification/TlsPipe.v ===== *)
(** * Records both ways ([net/tls.rs], [Session::send] and [receive])

    What sealing data puts on the wire, as the standard lays records out, and
    the keys it leaves. *)
From S2P Require Import Prelude Bytes Utf8 Engine Sbe Serve Daemon Search Token Table Bpe Tournament Merges Lookup Unicode Pieces Encode Marks Vocab Built Json FromJson Chat.
From S2P Require Import Sha X25519 Ladder Limbs Rsa Http P256 P256Field P256Curve X509 X509Chain Gcm Gf128 Ghash AesBlock GcmSeal Tls TlsKeys TlsSound.
#[local] Opaque hmac sha256 hkdf mac hkdf_label expand digest expand_label hkdf_expand derive direction_new direction_update Gcm.seal Gcm.open gcm_seal direction sealed.

(** RFC 8446, section 5.2: the content, its type, sealed under the header. *)
Definition record_header (len : Z) : list Z := [APPLICATION_DATA; 3; 3] ++ be_bytes 2 (len + 17).
Definition record_of (kind : Z) (secret : list Z) (seq : Z) (p : list Z) : list Z := let h := record_header (zlen p) in h ++ sealed secret seq h (p ++ [kind]).
Definition rekey_record (secret : list Z) (seq : Z) : list Z := record_of HANDSHAKE secret seq [KEY_UPDATE; 0; 0; 1; 0].
(** The records of the pieces of data, and the secret and place they leave. *)
Fixpoint told (ps : list (list Z)) (secret : list Z) (seq : Z) : list Z * (list Z * Z) :=
  match ps with
  | [] => ([], (secret, seq))
  | p :: ps =>
      if REKEY_AFTER <=? seq then let '(w, e) := told ps (next_secret secret) 1 in (rekey_record secret seq ++ record_of APPLICATION_DATA (next_secret secret) 0 p ++ w, e)
      else let '(w, e) := told ps secret (seq + 1) in (record_of APPLICATION_DATA secret seq p ++ w, e)
  end.
Definition piece_ok (p : list Z) : Prop := bytes_ok p /\ zlen p <= MAX_PLAIN.
Lemma record_header_ok len : bytes_ok (record_header len) /\ zlen (record_header len) = 5.
Proof. split; [|unfold record_header; rewrite zlen_app, be_bytes_zlen; done]. apply Forall_app_2; [|apply be_bytes_ok]. repeat constructor; by unfold fits. Qed.
Lemma record_header_bytes len : 0 <= len <= MAX_PLAIN -> record_header len = [APPLICATION_DATA; 3; 3; wrap 8 (Z.shiftr (len + 1 + TAG) 8); wrap 8 (len + 1 + TAG)].
Proof.
  intros Hl. unfold record_header, TAG. replace (len + 1 + 16) with (len + 17) by lia. reflexivity.
Qed.
Lemma seal_piece kind secret seq p parts out : 0 <= seq -> seq <= REKEY_AFTER + 1 -> fits 8 kind -> piece_ok p -> concat parts = p ++ [kind] -> Forall bytes_ok parts ->
  seal_record (direction secret seq) (record_header (zlen p)) parts out = Ok (direction secret (seq + 1), out ++ record_of kind secret seq p).
Proof.
  intros H0 H1 Hk [Hb Hl] Ec Hp. destruct (record_header_ok (zlen p)) as [Hh Hhl]. unfold REKEY_AFTER in H1. assert (2 ^ 25 < 2 ^ 64) by (by apply Z.pow_lt_mono_r). change (2 ^ 25) with (2 * 2 ^ 24) in *. change (2 ^ 24) with 16777216 in *. rewrite seal_record_spec; [|lia|lia|done|done|done|rewrite Ec, zlen_app; change (zlen [kind]) with 1; unfold MAX_PLAIN in Hl; change (2 ^ 15) with (2 * 2 ^ 14); change (2 ^ 14) with 16384 in *; lia].
  unfold record_of. cbv zeta. by rewrite Ec, <- app_assoc.
Qed.
Lemma seal_pieces_data ps secret seq out : 0 <= seq <= REKEY_AFTER -> zlen secret = 32 -> Forall piece_ok ps ->
  let '(w, (s', q')) := told ps secret seq in seal_pieces true APPLICATION_DATA ps (direction secret seq) out = Ok (direction s' q', out ++ w) /\ 0 <= q' <= REKEY_AFTER /\ exists i, s' = Nat.iter i next_secret secret.
Proof.
  revert secret seq out. induction ps as [|p ps IH]; intros secret seq out Hq Hs Hps; [cbn [told seal_pieces]; rewrite app_nil_r; split; [done|]; split; [done|]; by exists 0%nat|]. apply Forall_cons in Hps as [Hp Hps]. cbn [told seal_pieces]. change (APPLICATION_DATA =? APPLICATION_DATA) with true. cbn [andb].
  assert (Forall bytes_ok [p; [APPLICATION_DATA]]) as Hparts by (constructor; [apply Hp|constructor; [by repeat constructor|constructor]]). assert (concat [p; [APPLICATION_DATA]] = p ++ [APPLICATION_DATA]) as Hc by (cbn; done). pose proof (zlen_nonneg p) as Hn. change (d_seq (direction secret seq)) with seq.
  destruct (Z.leb_spec REKEY_AFTER seq).
  - change [APPLICATION_DATA; 3; 3; 0; 6 + TAG] with (record_header (zlen [KEY_UPDATE; 0; 0; 1; 0])). rewrite (seal_piece HANDSHAKE secret seq [KEY_UPDATE; 0; 0; 1; 0]); [|lia|lia|by unfold fits|split; [by repeat constructor|done]|done|constructor; [by repeat constructor|constructor]].
    rewrite !ok_bind. rewrite direction_update_spec by done. rewrite !ok_bind. rewrite <- record_header_bytes by (split; [done|apply Hp]). rewrite (seal_piece APPLICATION_DATA _ 0 p); [|lia|done|by unfold fits|done|done|done]. rewrite ok_bind.
    specialize (IH (next_secret secret) (0 + 1) ((out ++ rekey_record secret seq) ++ record_of APPLICATION_DATA (next_secret secret) 0 p) ltac:(done) (proj2 (next_secret_block secret)) Hps). change (0 + 1) with 1 in *. destruct (told ps (next_secret secret) 1) as [w [s' q']]. destruct IH as (E&Hq'&i&Hi). fold (rekey_record secret seq). rewrite E. split; [by rewrite <- !app_assoc|]. split; [done|]. exists (S i). rewrite Hi. by rewrite Nat.iter_succ_r.
  - rewrite ok_bind. rewrite <- record_header_bytes by (split; [done|apply Hp]). rewrite (seal_piece APPLICATION_DATA _ seq p); [|lia|lia|by unfold fits|done|done|done]. rewrite ok_bind.
    specialize (IH secret (seq + 1) (out ++ record_of APPLICATION_DATA secret seq p) ltac:(lia) Hs Hps). destruct (told ps secret (seq + 1)) as [w [s' q']]. destruct IH as (E&Hq'&i&Hi). rewrite E. split; [by rewrite <- app_assoc|]. split; [done|]. by exists i.
Qed.
Lemma chunks_spec fuel data : bytes_ok data -> (length data <= fuel)%nat -> Forall piece_ok (chunks_from fuel data) /\ concat (chunks_from fuel data) = data.
Proof.
  revert data. induction fuel as [|fuel IH]; intros data Hd Hf; (destruct data as [|x l]; [done|]); [cbn in Hf; lia|]. cbn [chunks_from]. set (data := x :: l) in *. destruct (IH (zdrop MAX_PLAIN data)) as [Hp Hc]; [by apply Forall_drop|unfold zdrop; rewrite length_drop; unfold data in *; cbn [length] in *; unfold MAX_PLAIN; change (Z.to_nat (2 ^ 14)) with (Pos.to_nat 16384); lia|].
  split; [constructor; [|done]|cbn [concat]; by rewrite Hc, ztake_zdrop]. split; [by apply Forall_take|]. rewrite zlen_ztake by done. unfold MAX_PLAIN. lia.
Qed.
Lemma send_pieces data : bytes_ok data -> Forall piece_ok (pieces data) /\ concat (pieces data) = data.
Proof. intros Hd. destruct data as [|x l]; [split; [|done]; by repeat constructor|]. by apply chunks_spec. Qed.
(** What is sent, from a write direction: the records and the direction left. *)
Lemma send_spec n secret seq data : write_ (ses n) = Some (direction secret seq) -> 0 <= seq <= REKEY_AFTER -> zlen secret = 32 -> bytes_ok data ->
  let '(w, (s', q')) := told (pieces data) secret seq in send true data n = (Ok tt, mkNet (set_write (Some (direction s' q')) (ses n)) (plain n) (out n ++ w)) /\ 0 <= q' <= REKEY_AFTER /\ exists i, s' = Nat.iter i next_secret secret.
Proof.
  intros Hw Hq Hs Hd. unfold send, seal_. rewrite Hw. cbn [concat]. rewrite app_nil_r. pose proof (seal_pieces_data (pieces data) secret seq (out n) Hq Hs (proj1 (send_pieces data Hd))) as H. destruct (told (pieces data) secret seq) as [w [s' q']]. destruct H as (->&H). done.
Qed.
(** Any other record is one piece. *)
Lemma seal_one n kind secret seq parts : write_ (ses n) = Some (direction secret seq) -> 0 <= seq <= REKEY_AFTER -> fits 8 kind -> kind <> APPLICATION_DATA -> bytes_ok (concat parts) -> 0 < zlen (concat parts) <= MAX_PLAIN ->
  seal_ true kind parts n = (Ok tt, mkNet (set_write (Some (direction secret (seq + 1))) (ses n)) (plain n) (out n ++ record_of kind secret seq (concat parts))).
Proof.
  intros Hw Hq Hk Hne Hb Hl. unfold seal_. rewrite Hw. set (p := concat parts) in *. assert (pieces p = [p]) as ->. { unfold pieces. destruct p as [|x l]; [done|]. cbn [chunks_from length]. set (q := x :: l) in *. rewrite ztake_all by lia. assert (zdrop MAX_PLAIN q = []) as -> by (apply zlen_zero; rewrite zlen_zdrop; lia). by destruct (length l). }
  cbn [seal_pieces]. destruct (Z.eqb_spec kind APPLICATION_DATA); [done|]. cbn [andb]. rewrite ok_bind. rewrite <- record_header_bytes by lia. rewrite (seal_piece kind secret seq p); [done|lia|lia|done|by split; [|lia]|by cbn|]. apply Forall_cons_2; [done|]. apply Forall_cons_2; [by apply Forall_cons_2|done].
Qed.

(** ** Receiving *)
Section Receive.
Context (anchors : list Certificate) (host : list Z) (now : Z).
Notation receive_from := (receive_from anchors host now true).
Notation record_ := (record_ anchors host now true).
Notation protected := (protected anchors host now true).
Lemma rposition_last l x : x <> 0 -> rposition (l ++ [x]) = Some (zlen l).
Proof. intros Hx. induction l as [|y l IH]; cbn [app rposition]; [destruct (Z.eqb_spec x 0); [done|]; done|]. rewrite IH, zlen_cons. f_equal. lia. Qed.
(** The session after a record was opened. *)
Definition heard (secret : list Z) (seq : Z) (n : Net) : Net := mkNet (set_read (Some (direction secret (seq + 1))) (ses n)) (plain n) (out n).
Lemma read_place secret seq : 0 <= seq <= REKEY_AFTER -> direction_nonce (direction secret seq) = Ok (nonce_of secret seq, direction secret (seq + 1)).
Proof. intros Hq. unfold REKEY_AFTER in Hq. assert (2 ^ 25 < 2 ^ 64) by (by apply Z.pow_lt_mono_r). change (2 ^ 25) with (2 * 2 ^ 24) in *. apply direction_nonce_spec; lia. Qed.
Lemma open_record secret seq kind p out : fits 8 kind -> piece_ok p -> Gcm.open (d_gcm (direction secret (seq + 1))) (nonce_of secret seq) (record_header (zlen p)) (sealed secret seq (record_header (zlen p)) (p ++ [kind])) out = Ok (true, out ++ p ++ [kind]).
Proof.
  intros Hk [Hb Hl]. destruct (nonce_ok secret seq) as [Hn Hnl], (record_header_ok (zlen p)) as [Hh Hhl]. refine (open_sealed (hkdf_label secret (str "key") [] 16) (nonce_of secret seq) (record_header (zlen p)) (p ++ [kind]) out _ _ _ _ _ _ _); [apply key_block|done|done|done|by rewrite Hhl|apply Forall_app_2; [done|by apply Forall_cons_2]|]. rewrite zlen_app. change (zlen [kind]) with 1. pose proof small_message. unfold MAX_PLAIN in Hl. change (2 ^ 15) with (2 * 2 ^ 14) in *. change (2 ^ 14) with 16384 in *. lia.
Qed.
Lemma protected_record n secret seq kind p : read_ (ses n) = Some (direction secret seq) -> 0 <= seq <= REKEY_AFTER -> state (ses n) = SConnected -> fits 8 kind -> kind <> 0 -> piece_ok p ->
  protected (record_header (zlen p)) (sealed secret seq (record_header (zlen p)) (p ++ [kind])) n
  = if kind =? APPLICATION_DATA then (Ok tt, mkNet (ses (heard secret seq n)) (plain n ++ p) (out n))
    else if (kind =? HANDSHAKE) && negb (bool_decide (p = [])) then handshake_bytes anchors host now true p (heard secret seq n)
    else if kind =? ALERT then peer_alert p (heard secret seq n) else alarm UnexpectedMessage (heard secret seq n).
Proof.
  intros Hr Hq Hst Hk Hk0 Hp. unfold protected, Tls.protected. cbv [mbind tm_bind self lift get_plain]. rewrite Hr. cbn [or_panic]. rewrite read_place by done. cbn [sure on_self]. change (zget (record_header (zlen p)) 0) with (Some APPLICATION_DATA). cbn [or_panic]. change (APPLICATION_DATA =? APPLICATION_DATA) with true. cbn [negb]. rewrite open_record by done. cbn [sure negb set_plain on_self plain ses out].
  rewrite zdrop_app by done. rewrite rposition_last by done. destruct Hp as [Hb Hl]. destruct (Z.ltb_spec MAX_PLAIN (zlen p)); [lia|]. rewrite ztake_app by done. assert (zget (p ++ [kind]) (zlen p) = Some kind) as -> by (unfold zlen; rewrite zget_at, lookup_app_r, Nat.sub_diag by lia; done). cbn [or_panic set_plain]. rewrite Hst. rewrite (bool_decide_eq_true_2 (SConnected = SConnected) eq_refl), andb_true_r. destruct (kind =? APPLICATION_DATA); [reflexivity|]. destruct (_ && _); [reflexivity|]. by destruct (kind =? ALERT).
Qed.
(** A whole record that is taken is one turn of [receive]. *)
Lemma receive_record fuel n n' secret seq kind p rest : read_ (ses n) = Some (direction secret seq) -> state (ses n) = SConnected -> piece_ok p -> protected (record_header (zlen p)) (sealed secret seq (record_header (zlen p)) (p ++ [kind])) n = (Ok tt, n') ->
  receive_from (S fuel) (record_of kind secret seq p ++ rest) n = (used ← receive_from fuel rest; mret (zlen (record_of kind secret seq p) + used)) n'.
Proof.
  intros Hr Hst [Hb Hl] Hp. set (h := record_header (zlen p)) in *. set (b := sealed secret seq h (p ++ [kind])) in *. pose proof (zlen_nonneg p) as Hn. destruct (record_header_ok (zlen p)) as [Hh Hhl]. fold h in Hh, Hhl. assert (zlen b = zlen p + 17) as Hbl by (unfold b; rewrite sealed_zlen, zlen_app; change (zlen [kind]) with 1; lia).
  change (record_of kind secret seq p) with (h ++ b). rewrite <- app_assoc. cbn [Tls.receive_from]. cbv [mbind tm_bind self lift]. rewrite Hst. rewrite (bool_decide_eq_false_2 (SConnected = SClosed)) by done. cbn [negb andb]. pose proof (zlen_nonneg rest). destruct (Z.leb_spec HEADER (zlen (h ++ b ++ rest))) as [_|Hlt]; [|exfalso; rewrite !zlen_app in Hlt; unfold HEADER in Hlt; lia].
  change (zget (h ++ b ++ rest) 1) with (Some 3). change (zget (h ++ b ++ rest) 3) with (Some (wrap 8 (Z.shiftr (zlen p + 17) 8))). change (zget (h ++ b ++ rest) 4) with (Some (wrap 8 (zlen p + 17))). cbn [or_panic]. assert (256 * wrap 8 (Z.shiftr (zlen p + 17) 8) + wrap 8 (zlen p + 17) = zlen b) as ->.
  { rewrite Hbl. unfold MAX_PLAIN in Hl. change (2 ^ 14) with 16384 in Hl. unfold wrap. rewrite Z.shiftr_div_pow2 by lia. change (2 ^ 8) with 256. rewrite (Z.mod_small (_ / _)) by (split; [apply Z.div_pos; lia|apply Z.div_lt_upper_bound; lia]). pose proof (Z.div_mod (zlen p + 17) 256 ltac:(lia)). lia. }
  rewrite Hr. change (3 =? 3) with true. cbn [negb orb]. destruct (Z.ltb_spec MAX_RECORD (zlen b)) as [Hgt|_]; [exfalso; unfold MAX_RECORD, MAX_PLAIN in *; lia|]. destruct (Z.ltb_spec (zlen (h ++ b ++ rest)) (HEADER + zlen b)) as [Hlt|_]; [exfalso; rewrite !zlen_app in Hlt; unfold HEADER in Hlt; lia|].
  rewrite ztake_app by (by rewrite Hhl). rewrite zdrop_app by (by rewrite Hhl). rewrite ztake_app by done. unfold or_abort, record_, Tls.record_. cbv [mbind tm_bind self lift]. change (zget h 0) with (Some APPLICATION_DATA). cbn [or_panic]. change (APPLICATION_DATA =? CHANGE_CIPHER_SPEC) with false. cbv iota. rewrite Hr, Hp.
  rewrite app_assoc, zdrop_app by (rewrite zlen_app, Hhl; done). rewrite zlen_app, Hhl. reflexivity.
Qed.
(** A KeyUpdate from the peer moves the reading direction on. *)
Lemma update_heard n secret seq : read_ (ses n) = Some (direction secret seq) -> 0 <= seq <= REKEY_AFTER -> state (ses n) = SConnected -> handshake (ses n) = [] -> zlen secret = 32 ->
  handshake_bytes anchors host now true [KEY_UPDATE; 0; 0; 1; 0] (heard secret seq n) = (Ok tt, mkNet (set_read (Some (direction (next_secret secret) 0)) (ses n)) (plain n) (out n)).
Proof.
  intros Hr Hq Hst Hh Hs. destruct n as [s p o]. destruct s as [i e pe st t rd wr hs cs ss pn cc]. cbn [ses read_ state handshake] in Hr, Hst, Hh. subst rd st hs. unfold heard, handshake_bytes, handshakes. cbv [mbind tm_bind self on_self]. cbn [ses set_read set_handshake handshake plain out app length].
  change (handshakes_from anchors host now true 6 [KEY_UPDATE; 0; 0; 1; 0]) with (_ ← message anchors host now true [KEY_UPDATE; 0; 0; 1; 0] true; handshakes_from anchors host now true 5 []). unfold message. cbv [mbind tm_bind self lift mret tm_ret on_self]. cbn [ses state]. rewrite !(bool_decide_eq_true_2 (SConnected = SConnected)) by done. 
  rewrite (bool_decide_eq_false_2 (SConnected = SFinished)), (bool_decide_eq_false_2 (SConnected = SServerHello)), (bool_decide_eq_false_2 (SConnected = SEncryptedExtensions)), (bool_decide_eq_false_2 (SConnected = SCertificate)), (bool_decide_eq_false_2 (SConnected = SCertificateVerify)) by done.
  change (zget [KEY_UPDATE; 0; 0; 1; 0] 0) with (Some KEY_UPDATE). change (zdrop 4 [KEY_UPDATE; 0; 0; 1; 0]) with [0]. cbn [or_panic andb orb negb]. change (KEY_UPDATE =? NEW_SESSION_TICKET) with false. change (KEY_UPDATE =? KEY_UPDATE) with true. cbn [andb negb]. unfold key_update. cbv [mbind tm_bind self lift mret tm_ret on_self]. cbn [ses read_ set_read set_handshake handshake plain out]. rewrite direction_update_spec by done. generalize (direction (next_secret secret) 0) (direction secret (seq + 1)) (direction secret seq). intros d1 d2 d3. cbn [sure handshakes_from]. change (4 <=? zlen (@nil Z)) with false. cbv iota beta. change (MAX_HANDSHAKE <? zlen (@nil Z)) with false. cbv iota beta. reflexivity.
Qed.
(** The receiver that has read the records of some data. *)
Definition has_read (s : list Z) (q : Z) (data : list Z) (n : Net) : Net := mkNet (set_read (Some (direction s q)) (ses n)) (plain n ++ data) (out n).
Lemma record_zlen kind secret seq p : zlen (record_of kind secret seq p) = zlen p + 22.
Proof. unfold record_of. cbv zeta. rewrite zlen_app, (proj2 (record_header_ok _)), sealed_zlen, zlen_app. change (zlen [kind]) with 1. lia. Qed.
Lemma protected_data n secret seq p : read_ (ses n) = Some (direction secret seq) -> 0 <= seq <= REKEY_AFTER -> state (ses n) = SConnected -> piece_ok p ->
  protected (record_header (zlen p)) (sealed secret seq (record_header (zlen p)) (p ++ [APPLICATION_DATA])) n = (Ok tt, has_read secret (seq + 1) p n).
Proof. intros Hr Hq Hst Hp. rewrite (protected_record n secret seq APPLICATION_DATA p) by (done || by unfold fits). done. Qed.
Lemma protected_update n secret seq : read_ (ses n) = Some (direction secret seq) -> 0 <= seq <= REKEY_AFTER -> state (ses n) = SConnected -> handshake (ses n) = [] -> zlen secret = 32 ->
  let p := [KEY_UPDATE; 0; 0; 1; 0] in protected (record_header (zlen p)) (sealed secret seq (record_header (zlen p)) (p ++ [HANDSHAKE])) n = (Ok tt, has_read (next_secret secret) 0 [] n).
Proof.
  intros Hr Hq Hst Hh Hs p. rewrite (protected_record n secret seq HANDSHAKE p); [|done|done|done|by unfold fits|done|split; [by repeat constructor|done]]. change (HANDSHAKE =? APPLICATION_DATA) with false. change ((HANDSHAKE =? HANDSHAKE) && negb (bool_decide (p = []))) with true. cbv iota. unfold p. rewrite update_heard by done. unfold has_read. by rewrite app_nil_r.
Qed.
Lemma receive_told ps fuel n secret seq : read_ (ses n) = Some (direction secret seq) -> 0 <= seq <= REKEY_AFTER -> zlen secret = 32 -> state (ses n) = SConnected -> handshake (ses n) = [] -> Forall piece_ok ps ->
  let '(w, (s', q')) := told ps secret seq in zlen w < Z.of_nat fuel -> receive_from fuel w n = (Ok (zlen w), has_read s' q' (concat ps) n).
Proof.
  revert fuel n secret seq. induction ps as [|p ps IH]; intros fuel n secret seq Hr Hq Hs Hst Hh Hps.
  - cbn [told]. change (zlen (@nil Z)) with 0. intros Hf. destruct fuel as [|fuel]; [lia|]. cbn [Tls.receive_from]. cbv [mbind tm_bind self mret tm_ret]. change (HEADER <=? zlen (@nil Z)) with false. rewrite andb_false_r. unfold has_read. cbn [concat]. rewrite app_nil_r. destruct n as [[i e pe st t rd wr hs cs ss pn cc] pl o]. cbn [ses read_] in Hr. subst rd. reflexivity.
  - apply Forall_cons in Hps as [Hp Hps]. cbn [told]. destruct (Z.leb_spec REKEY_AFTER seq).
    + set (n1 := has_read (next_secret secret) 0 [] n). set (n2 := has_read (next_secret secret) 1 p n1). specialize (fun f => IH f n2 (next_secret secret) 1 eq_refl ltac:(done) (proj2 (next_secret_block secret)) Hst Hh Hps). destruct (told ps (next_secret secret) 1) as [w [s' q']]. intros Hf. rewrite !zlen_app in Hf. unfold rekey_record in *. rewrite !record_zlen in Hf. change (zlen [KEY_UPDATE; 0; 0; 1; 0]) with 5 in Hf. pose proof (zlen_nonneg p). pose proof (zlen_nonneg w). destruct fuel as [|[|fuel]]; [lia|lia|].
      rewrite (receive_record (S fuel) n n1 secret seq HANDSHAKE [KEY_UPDATE; 0; 0; 1; 0]); [|done|done|split; [by repeat constructor|done]|by apply protected_update]. cbv [mbind tm_bind]. rewrite (receive_record fuel n1 n2 (next_secret secret) 0 APPLICATION_DATA p); [|done|done|done|by apply (protected_data n1 (next_secret secret) 0)]. cbv [mbind tm_bind]. rewrite IH by lia. cbv [mret tm_ret]. rewrite !zlen_app. unfold n2, n1, has_read. cbn [ses plain out concat]. rewrite app_nil_r, <- app_assoc. reflexivity.
    + set (n1 := has_read secret (seq + 1) p n). specialize (fun f => IH f n1 secret (seq + 1) eq_refl ltac:(lia) Hs Hst Hh Hps). destruct (told ps secret (seq + 1)) as [w [s' q']]. intros Hf. rewrite !zlen_app, !record_zlen in Hf. pose proof (zlen_nonneg p). pose proof (zlen_nonneg w). destruct fuel as [|fuel]; [lia|].
      rewrite (receive_record fuel n n1 secret seq APPLICATION_DATA p); [|done|done|done|by apply protected_data]. cbv [mbind tm_bind]. rewrite IH by lia. cbv [mret tm_ret]. rewrite zlen_app. unfold n1, has_read. cbn [ses plain out concat]. rewrite <- app_assoc. reflexivity.
Qed.
End Receive.

(** C11. What is sent is what is read. Whatever data a session sends, it puts
    records on the wire, at most 2^14 bytes of it in each and with a new key
    after 2^24 of them; a connected session that reads in the direction the
    first writes, at the same place, takes all of them and no more, and has
    exactly the data as its plaintext. The two directions then agree again,
    and neither session panics or refuses anything. *)
Theorem what_is_sent_is_read anchors host now (sender receiver : Net) secret seq data :
  write_ (ses sender) = Some (direction secret seq) -> read_ (ses receiver) = Some (direction secret seq) -> 0 <= seq <= REKEY_AFTER -> zlen secret = 32 ->
  state (ses receiver) = SConnected -> handshake (ses receiver) = [] -> bytes_ok data ->
  exists w secret' seq', send true data sender = (Ok tt, mkNet (set_write (Some (direction secret' seq')) (ses sender)) (plain sender) (out sender ++ w))
  /\ receive anchors host now true w receiver = (Ok (zlen w), mkNet (set_read (Some (direction secret' seq')) (ses receiver)) (plain receiver ++ data) (out receiver))
  /\ 0 <= seq' <= REKEY_AFTER.
Proof.
  intros Hw Hr Hq Hs Hst Hh Hd. destruct (send_pieces data Hd) as [Hp Hc]. pose proof (send_spec sender secret seq data Hw Hq Hs Hd) as H1. pose proof (fun f => receive_told anchors host now (pieces data) f receiver secret seq Hr Hq Hs Hst Hh Hp) as H2. destruct (told (pieces data) secret seq) as [w [s' q']]. destruct H1 as (E1&Hq'&_). exists w, s', q'. split; [done|]. split; [|done].
  unfold receive. rewrite H2 by (unfold zlen; lia). unfold has_read. by rewrite Hc.
Qed.
(** Two sessions that agree on a key of zeros. *)
Definition zero_session : Session := mkSession [] ZERO None SConnected sha_default (Some (direction ZERO 0)) (Some (direction ZERO 0)) [] ZERO ZERO ZERO false.
Lemma pipe_witness : exists w n, send true (str "ping") (mkNet zero_session [] []) = (Ok tt, n) /\ out n = w /\ exists n', receive [] [] 0 true w (mkNet zero_session [] []) = (Ok (zlen w), n') /\ plain n' = str "ping".
Proof.
  destruct (what_is_sent_is_read [] [] 0 (mkNet zero_session [] []) (mkNet zero_session [] []) ZERO 0 (str "ping") eq_refl eq_refl ltac:(split; discriminate) eq_refl eq_refl eq_refl ltac:(repeat (apply Forall_cons_2; [split; [discriminate|reflexivity]|]); apply Forall_nil_2)) as (w&s&q&E1&E2&_).
  exists w. eexists. split; [exact E1|]. split; [reflexivity|]. eexists. split; [exact E2|]. reflexivity.
Defined.
