(* ===== verification/TlsRun.v ===== *)
(** * A TLS session that is established ([net/tls.rs])

    The handshake as RFC 8446 has a client see it, and that a session is a
    refinement of it: whatever arrives, it goes by the rules or refuses. *)
From S2P Require Import Prelude Bytes Utf8 Engine Sbe Serve Daemon Search Token Table Bpe Tournament Merges Lookup Unicode Pieces Encode Marks Vocab Built Json FromJson Chat.
From S2P Require Import Sha X25519 Ladder Limbs Rsa Http P256 P256Field P256Curve X509 X509Chain Gcm Gf128 Ghash AesBlock GcmSeal Tls TlsKeys TlsSound TlsPipe.
#[local] Opaque hmac sha256 hkdf mac hkdf_label expand digest expand_label hkdf_expand derive x25519 P256.verify verify_pss verify_pkcs1 X509.parse verify_chain direction_new direction_update handshake_secrets application_secrets finished_mac Gcm.seal Gcm.open gcm_seal snapshot update sha_finish direction sealed hs_traffic ap_traffic finished_value Derive X25519.

(** ** Methods and what they leave *)

(** From [n] the method does not panic; [Q] holds of what it gives, [E] of what
    an error leaves. *)
Definition wp {A} (m : TM A) (Q : A -> Net -> Prop) (E : Net -> Prop) (n : Net) : Prop := match m n with (Ok a, n') => Q a n' | (Err _, n') => E n' | (Panic, _) => False end.
Lemma wp_bind {A C} (m : TM A) (k : A -> TM C) Q E n : wp m (fun a => wp (k a) Q E) E n -> wp (m ≫= k) Q E n.
Proof. unfold wp. cbv [mbind tm_bind]. by destruct (m n) as [[a|e|] n']. Qed.
Lemma wp_mono {A} (m : TM A) (Q Q' : A -> Net -> Prop) (E E' : Net -> Prop) n : wp m Q E n -> (forall a n', Q a n' -> Q' a n') -> (forall n', E n' -> E' n') -> wp m Q' E' n.
Proof. unfold wp. destruct (m n) as [[a|e|] n']; auto. Qed.
Lemma wp_lift {A} (P : A -> Prop) m (Q : A -> Net -> Prop) (E : Net -> Prop) n : answers P m -> (forall a, P a -> Q a n) -> E n -> wp (lift m) Q E n.
Proof. unfold wp, lift. destruct m; cbn; auto. Qed.
Lemma wp_sure {A} (m : computes A) a (Q : A -> Net -> Prop) E n : m = Ok a -> Q a n -> wp (lift (sure m)) Q E n.
Proof. by intros ->. Qed.
Lemma wp_value {A} (m : answer A) a (Q : A -> Net -> Prop) E n : m = Ok a -> Q a n -> wp (lift m) Q E n.
Proof. by intros ->. Qed.
Lemma wp_ret {A} (a : A) (Q : A -> Net -> Prop) E n : Q a n -> wp (mret a) Q E n.
Proof. done. Qed.
Lemma wp_self (Q : Session -> Net -> Prop) E n : Q (ses n) n -> wp self Q E n.
Proof. done. Qed.
Lemma wp_on f (Q : unit -> Net -> Prop) E n : Q tt (mkNet (f (ses n)) (plain n) (out n)) -> wp (on_self f) Q E n.
Proof. done. Qed.
Lemma wp_emit b (Q : unit -> Net -> Prop) E n : Q tt (mkNet (ses n) (plain n) (out n ++ b)) -> wp (emit b) Q E n.
Proof. done. Qed.
Lemma wp_alarm {A} a (Q : A -> Net -> Prop) (E : Net -> Prop) n : E n -> wp (alarm a) Q E n.
Proof. done. Qed.

(** ** The handshake *)
Section Handshake.
Context (anchors : list Certificate) (host : list Z) (now : Z) (hello id eph : list Z).
(** RFC 7748's shared secret, from the client's key and the server's share. *)
Definition agreed (share : list Z) : list Z := le_bytes 32 (X25519 (le_val eph) (le_val share mod 2 ^ 255)).
Definition hs_client (share h : list Z) : list Z := hs_traffic "c hs traffic" (agreed share) h.
Definition hs_server (share h : list Z) : list Z := hs_traffic "s hs traffic" (agreed share) h.
Definition ap_client (share log : list Z) : list Z := ap_traffic "c ap traffic" (agreed share) (sha256 log).
Definition ap_server (share log : list Z) : list Z := ap_traffic "s ap traffic" (agreed share) (sha256 log).
(** What the server has shown when a client waits in a state: the messages so
    far, the share, the hash of the hellos, the certificate's key. *)
Inductive shown : State -> list Z -> list Z -> list Z -> option Key -> Prop :=
| shown_hello m share : chooses m id share -> block32 share -> agreed share <> ZERO -> small m -> shown SEncryptedExtensions (hello ++ m) share (sha256 (hello ++ m)) None
| shown_extensions log share h body : shown SEncryptedExtensions log share h None -> small (msg ENCRYPTED_EXTENSIONS body) -> shown SCertificate (log ++ msg ENCRYPTED_EXTENSIONS body) share h None
| shown_certificate log share h m leaf : shown SCertificate log share h None -> vouched anchors host now m leaf -> small m -> shown SCertificateVerify (log ++ m) share h (key leaf)
| shown_verify log share h k m : shown SCertificateVerify log share h k -> proves k log m -> small m -> shown SFinished (log ++ m) share h k
| shown_finished log share h k : shown SFinished log share h k -> shown SConnected (log ++ msg FINISHED (finished_value (hs_server share h) (sha256 log))) share h k.
(** The server proved itself. *)
Definition authentic : Prop := exists log share h k, shown SConnected log share h k.
Context (good_anchors : Forall cert_good anchors) (small_hello : small hello) (good_eph : block32 eph).
Lemma shown_small st log share h k : shown st log share h k -> zlen log <= 2 ^ 18 * 6 /\ block32 share /\ block32 h.
Proof.
  assert (forall st log share h k, shown st log share h k -> zlen log <= 2 ^ 18 * match st with SEncryptedExtensions => 2 | SCertificate => 3 | SCertificateVerify => 4 | SFinished => 5 | _ => 6 end /\ block32 share /\ block32 h) as H.
  { clear st log share h k. unfold small in *. induction 1 as [m share Hm Hs Ha Hl|log share h body _ IH Hl|log share h m leaf _ IH Hv Hl|log share h k m _ IH Hp Hl|log share h k _ IH]; rewrite zlen_app; unfold small in *; [split; [lia|]; split; [done|apply sha256_block]| | | |]; (destruct IH as (IH&Hs&Hh); split; [|done]); try lia.
    unfold msg, prefixed. rewrite !zlen_app, be_bytes_zlen, (proj2 (finished_block _ _)). change (zlen [FINISHED]) with 1. change (2 ^ 18) with 262144 in *. lia. }
  intros Hs. destruct (H _ _ _ _ _ Hs) as (Hl&?&?). split; [|done]. change (2 ^ 18) with 262144 in *. destruct st; lia.
Qed.

(** ** What a session keeps *)
Definition keyed_by (share h : list Z) (q : Z) (s : Session) : Prop :=
  client_secret s = hs_client share h /\ server_secret s = hs_server share h /\ pending s = Derive (handshake_secret (agreed share)) (str "derived") empty_hash
  /\ read_ s = Some (direction (hs_server share h) q) /\ write_ s = Some (direction (hs_client share h) 0).
Definition talking (B : Z) (s : Session) (log share : list Z) : Prop := exists i q j r,
  read_ s = Some (direction (Nat.iter i next_secret (ap_server share log)) q) /\ 0 <= q <= B /\ write_ s = Some (direction (Nat.iter j next_secret (ap_client share log)) r) /\ 0 <= r <= REKEY_AFTER.
(** At most [B] records came under the reading key. *)
Definition stage (B : Z) (s : Session) : Prop :=
  match state s with
  | SClosed => True
  | SServerHello => hello_id s = id /\ ephemeral s = eph /\ peer s = None /\ hashed (transcript s) hello /\ read_ s = None /\ write_ s = None
  | SConnected => exists log share h k, shown SConnected log share h k /\ talking B s log share
  | st => exists log share h k q, shown st log share h k /\ peer s = k /\ hashed (transcript s) log /\ keyed_by share h q s /\ 0 <= q <= B
  end.
(** An alert can be sealed. *)
Definition writable (s : Session) : Prop := match write_ s with None => True | Some d => exists secret r, d = direction secret r /\ 0 <= r <= REKEY_AFTER end.
Definition settled (B : Z) (p : list Z) (n : Net) : Prop := stage B (ses n) /\ bytes_ok (handshake (ses n)) /\ plain n = p /\ state (ses n) <> SClosed.
Definition failing (p : list Z) (n : Net) : Prop := writable (ses n) /\ plain n = p.
(** The rest of [settled], after setters. *)
Ltac kept := split; [assumption|]; split; [assumption|]; cbn [ses state set_state set_read set_write]; congruence.
Lemma stage_writable B s : stage B s -> state s <> SClosed -> writable s.
Proof.
  unfold stage, writable. intros H Hc. destruct (state s); [destruct H as (_&_&_&_&_&->); done|destruct H as (?&?&?&?&?&_&_&_&(_&_&_&_&->)&_); eexists _, 0; split; [reflexivity|split; discriminate]..| |done].
  destruct H as (?&?&?&?&_&?&?&j&r&_&_&->&Hr). eexists _, r. split; [done|done].
Qed.
Lemma stage_mono B B' s : stage B s -> B <= B' -> stage B' s.
Proof.
  unfold stage, talking. intros H Hb. destruct (state s); [done|destruct H as (log&share&h&k&q&?&?&?&?&?); exists log, share, h, k, q; (split; [assumption|]); (split; [assumption|]); (split; [assumption|]); (split; [assumption|]); lia..| |done].
  destruct H as (log&share&h&k&?&i&q&j&r&?&?&?&?). exists log, share, h, k. split; [done|]. exists i, q, j, r. split; [assumption|]. split; [lia|]. split; assumption.
Qed.
Lemma server_hello_wp B p n body : settled B p n -> state (ses n) = SServerHello -> 0 <= B -> bytes_ok body -> small (msg SERVER_HELLO body) ->
  wp (server_hello true body (msg SERVER_HELLO body)) (fun _ => settled B p) (failing p) n.
Proof.
  intros (Hs&Hb&Hp&Hopen) Hst HB Hbody Hsmall. unfold stage in Hs. rewrite Hst in Hs. destruct Hs as (Hid&Heph&Hpeer&Hh&Hr&Hw). assert (failing p n) as Hf by (split; [unfold writable; by rewrite Hw|done]). unfold server_hello. apply wp_bind, wp_self, wp_bind. eapply wp_lift; [by apply hello_fields_spec| |done].
  intros r (Hrb&random&Ebody&Hrl&Hrr). apply wp_bind. eapply wp_lift; [by apply server_share_spec| |done]. intros share (Hshare&l&Er&Hl1&Hl2). rewrite Heph. apply wp_bind. eapply wp_sure; [apply x25519_spec; (apply good_eph || apply Hshare)|]. fold (agreed share). apply wp_bind, wp_on.
  destruct (bool_decide (agreed share = ZERO)) eqn:Ez; [apply wp_alarm; split; [unfold writable; cbn [ses write_ set_ephemeral]; by rewrite Hw|done]|]. apply bool_decide_eq_false in Ez. apply wp_bind, wp_on. set (m := msg SERVER_HELLO body) in *. set (t := update (transcript (ses n)) m). assert (hashed t (hello ++ m)) as Ht by (by apply update_spec).
  assert (zlen (hello ++ m) <= 2 ^ 21) as Hlen. { rewrite zlen_app. unfold small in *. change (2 ^ 21) with (8 * 2 ^ 18). change (2 ^ 18) with 262144 in *. lia. } rewrite (snapshot_spec t _ Ht Hlen). assert (block32 (agreed share)) as Hag by (split; [apply le_bytes_ok|apply le_bytes_zlen]).
  apply wp_bind. eapply wp_sure; [apply (handshake_secrets_spec (agreed share) _ Hag (sha256_block _))|]. set (h := sha256 (hello ++ m)). apply wp_bind, wp_on, wp_bind. eapply wp_sure; [apply direction_new_spec, hs_traffic_block|]. apply wp_bind, wp_on, wp_bind. eapply wp_sure; [apply direction_new_spec, hs_traffic_block|]. apply wp_bind, wp_on, wp_on.
  cbn [ses plain]. split; [|kept]. unfold stage. cbn [state set_state]. exists (hello ++ m), share, h, None, 0. split; [|done]. unfold h. apply shown_hello; [|done|done|done]. exists random, l. split; [unfold m; by rewrite Ebody, Er, Hid|]. split; [assumption|]. split; [assumption|]. split; assumption.
Qed.
(** A message that was taken is part of the transcript. *)
Lemma taken_wp B p n m next log share h q k' : bytes_ok (handshake (ses n)) -> plain n = p -> shown next (log ++ m) share h k' -> peer (ses n) = k' -> hashed (transcript (ses n)) log -> keyed_by share h q (ses n) -> 0 <= q <= B -> next = SCertificate \/ next = SCertificateVerify \/ next = SFinished ->
  wp (taken m next) (fun _ => settled B p) (failing p) n.
Proof.
  intros Hb Hp Hn Hk Ht Hkey Hq Hnext. unfold taken. apply wp_bind, wp_on, wp_on. cbn [ses plain]. split; [|split; [assumption|]; split; [assumption|]; cbn [ses state set_state]; by destruct Hnext as [->|[->| ->]]]. unfold stage. cbn [state set_state]. assert (exists log share h k q, shown next log share h k /\ peer (ses n) = k /\ hashed (update (transcript (ses n)) m) log /\ keyed_by share h q (ses n) /\ 0 <= q <= B) as H.
  { exists (log ++ m), share, h, k', q. split; [assumption|]. split; [assumption|]. split; [by apply update_spec|]. split; assumption. } by destruct Hnext as [->|[->| ->]].
Qed.
(** What the stages of the handshake have in common. *)
Lemma stage_keyed B p n st : settled B p n -> state (ses n) = st -> st = SEncryptedExtensions \/ st = SCertificate \/ st = SCertificateVerify \/ st = SFinished ->
  failing p n /\ exists log share h k q, shown st log share h k /\ peer (ses n) = k /\ hashed (transcript (ses n)) log /\ keyed_by share h q (ses n) /\ 0 <= q <= B.
Proof.
  intros (Hs&Hb&Hp&Hopen) Hst Hc. split; [split; [apply (stage_writable B); [assumption|]; rewrite Hst; by destruct Hc as [->|[->|[->| ->]]]|assumption]|]. unfold stage in Hs. rewrite Hst in Hs. by destruct Hc as [->|[->|[->| ->]]].
Qed.
Lemma encrypted_extensions_wp B p n body : settled B p n -> state (ses n) = SEncryptedExtensions -> bytes_ok body -> small (msg ENCRYPTED_EXTENSIONS body) ->
  wp (encrypted_extensions body (msg ENCRYPTED_EXTENSIONS body)) (fun _ => settled B p) (failing p) n.
Proof.
  intros Hset Hst Hbody Hsmall. destruct (stage_keyed B p n _ Hset Hst ltac:(auto)) as (Hf&log&share&h&k&q&Hs&Hk&Ht&Hkey&Hq). assert (k = None) as -> by (by inversion Hs). unfold encrypted_extensions. apply wp_bind. eapply wp_lift; [by apply encrypted_spec| |assumption]. intros [u r] _. apply wp_bind. eapply wp_lift; [apply r_end_spec| |assumption]. intros _ _.
  eapply taken_wp; [apply Hset|apply Hset|by apply shown_extensions|assumption|exact Ht|exact Hkey|exact Hq|auto].
Qed.
Lemma certificate_wp B p n body : settled B p n -> state (ses n) = SCertificate -> bytes_ok body -> small (msg CERTIFICATE body) ->
  wp (certificate anchors host now body (msg CERTIFICATE body)) (fun _ => settled B p) (failing p) n.
Proof.
  intros Hset Hst Hbody Hsmall. destruct (stage_keyed B p n _ Hset Hst ltac:(auto)) as (Hf&log&share&h&k&q&Hs&Hk&Ht&Hkey&Hq). assert (k = None) as -> by (by inversion Hs). unfold certificate. apply wp_bind. eapply wp_lift; [by apply chain_of_spec| |assumption]. intros chain (Hg&Hlay&l&Ebody&Ech).
  destruct (verify_chain_spec chain anchors host now Hg good_anchors) as (v&Ev&Hv). apply wp_bind. eapply wp_sure; [exact Ev|]. destruct v as [rej|]; [exact Hf|]. destruct (proj1 Hv eq_refl) as (leaf&rest&Ec&Hkl&Hserves&Hnamed&Hleads). rewrite Ec in *. apply wp_bind. apply wp_bind, wp_on.
  eapply (taken_wp B p _ _ _ log share h q (key leaf)); [apply Hset|apply Hset| |reflexivity|exact Ht|exact Hkey|exact Hq|auto].
  apply shown_certificate; [assumption| |assumption]. exists l, rest. rewrite <- Ebody. split; [reflexivity|]. split; [by rewrite <- Ech|]. split; [assumption|]. split; [assumption|]. split; [assumption|]. split; [assumption|]. split; assumption.
Qed.
Lemma shown_key st log share h k k' : shown st log share h (Some k) -> k' = Some k -> key_good k.
Proof. intros Hs _. remember (Some k) as o eqn:Ho. revert k Ho. induction Hs as [| |log share h m leaf _ _ Hv _|log share h k0 m _ IH _ _|log share h k0 _ IH]; intros k Ho; try done; [|by apply IH|by apply IH]. destruct Hv as (?&?&_&_&_&Hg&_). apply Forall_cons in Hg as [(_&_&Hg&_) _]. by apply Hg. Qed.
Lemma certificate_verify_wp B p n body : settled B p n -> state (ses n) = SCertificateVerify -> bytes_ok body -> small (msg CERTIFICATE_VERIFY body) ->
  wp (certificate_verify body (msg CERTIFICATE_VERIFY body)) (fun _ => settled B p) (failing p) n.
Proof.
  intros Hset Hst Hbody Hsmall. destruct (stage_keyed B p n _ Hset Hst ltac:(auto)) as (Hf&log&share&h&k&q&Hs&Hk&Ht&Hkey&Hq). unfold certificate_verify. apply wp_bind. eapply wp_lift; [by apply (r_bytes_spec 2)| |assumption]. intros [scheme r] (Eb&_&_&Hr). apply wp_bind. eapply wp_lift; [by apply (r_vec_spec 2)| |assumption]. intros [sig r'] (Er&Hsig&_). apply wp_bind. eapply wp_lift; [apply r_end_spec| |assumption]. intros _ ->.
  apply wp_bind, wp_self. destruct (shown_small _ _ _ _ _ Hs) as (Hlen&_). rewrite (snapshot_spec _ log Ht) by (change (2 ^ 21) with (8 * 2 ^ 18); lia). rewrite verify_digest_spec. unfold signed_digest. apply wp_bind. eapply wp_lift; [apply signature_good_spec; [|exact Hsig]| |assumption].
  - intros k' Ek. rewrite Hk in Ek. rewrite Ek in Hs. by eapply shown_key.
  - intros good Hgood. destruct good; [|by apply wp_alarm]. eapply taken_wp; [apply Hset|apply Hset| |exact Hk|exact Ht|exact Hkey|exact Hq|auto]. apply shown_verify; [assumption| |assumption]. exists scheme, sig. rewrite Eb, Er, app_nil_r. split; [reflexivity|]. rewrite <- Hk. by apply Hgood.
Qed.
Lemma wp_seal n kind secret seq parts (Q : unit -> Net -> Prop) E : write_ (ses n) = Some (direction secret seq) -> 0 <= seq <= REKEY_AFTER -> fits 8 kind -> kind <> APPLICATION_DATA -> bytes_ok (concat parts) -> 0 < zlen (concat parts) <= MAX_PLAIN ->
  (forall o, Q tt (mkNet (set_write (Some (direction secret (seq + 1))) (ses n)) (plain n) o)) -> wp (seal_ true kind parts) Q E n.
Proof. intros Hw Hq Hk Hne Hb Hl HQ. unfold wp. rewrite (seal_one n kind secret seq parts) by assumption. apply HQ. Qed.
Lemma handshake_kind : fits 8 HANDSHAKE /\ HANDSHAKE <> APPLICATION_DATA.
Proof. split; [by unfold fits|done]. Qed.
Lemma sealed_heads : bytes_ok [FINISHED; 0; 0; 32] /\ bytes_ok [KEY_UPDATE; 0; 0; 1; 0] /\ 0 < zlen [KEY_UPDATE; 0; 0; 1; 0] <= MAX_PLAIN.
Proof. split; [|split; [|done]]; repeat (apply Forall_cons_2; [split; [discriminate|reflexivity]|]); apply Forall_nil_2. Qed.
Lemma first_place : 0 <= 0 <= REKEY_AFTER.
Proof. done. Qed.
Lemma finished_wp B p n body : settled B p n -> state (ses n) = SFinished -> 0 <= B -> bytes_ok body -> wp (finished true body (msg FINISHED body)) (fun _ => settled B p) (failing p) n.
Proof.
  intros Hset Hst HB Hbody. destruct (stage_keyed B p n _ Hset Hst ltac:(auto)) as (Hf&log&share&h&k&q&Hs&Hk&Ht&Hkey&Hq). destruct Hset as (_&Hb&Hp&_). destruct Hkey as (Hc&Hv&Hpe&Hr&Hw). destruct (shown_small _ _ _ _ _ Hs) as (Hlen&Hsh&Hh). unfold finished. apply wp_bind, wp_self. rewrite (snapshot_spec _ log Ht) by (change (2 ^ 21) with (8 * 2 ^ 18); lia). rewrite Hv.
  destruct (finished_mac_spec (hs_server share h) (sha256 log) (proj2 (hs_traffic_block _ _ _)) (sha256_block log)) as [Em [Hmb Hml]]. apply wp_bind. eapply wp_sure; [exact Em|]. destruct (ct_eq body (finished_value (hs_server share h) (sha256 log))) eqn:Ec; [|by apply wp_alarm]. cbn [negb]. apply ct_eq_spec in Ec; [|assumption|assumption]. subst body.
  apply shown_finished in Hs. destruct (shown_small _ _ _ _ _ Hs) as (Hlen'&_). set (m := msg FINISHED _) in *. assert (hashed (update (transcript (ses n)) m) (log ++ m)) as Ht' by (by apply update_spec). cbv zeta. apply wp_bind, wp_on. rewrite (snapshot_spec _ _ Ht') by (change (2 ^ 21) with (8 * 2 ^ 18); lia). rewrite Hpe.
  apply wp_bind. eapply wp_sure; [apply application_secrets_spec, sha256_block|]. apply wp_bind, wp_on. rewrite Hc. destruct (finished_mac_spec (hs_client share h) (sha256 (log ++ m)) (proj2 (hs_traffic_block _ _ _)) (sha256_block _)) as [Em' [Hmb' Hml']]. apply wp_bind. eapply wp_sure; [exact Em'|]. set (fin := finished_value (hs_client share h) (sha256 (log ++ m))) in *. apply wp_bind, wp_emit, wp_bind.
  eapply (wp_seal _ HANDSHAKE (hs_client share h) 0); [exact Hw|apply first_place|apply handshake_kind|apply handshake_kind| | |].
  - cbn [concat]. rewrite app_nil_r. apply Forall_app_2; [apply sealed_heads|assumption].
  - cbn [concat]. rewrite app_nil_r, zlen_app, Hml'. split; [reflexivity|discriminate].
  - intros o. apply wp_bind. eapply wp_sure; [apply direction_new_spec, ap_traffic_block|]. apply wp_bind, wp_on, wp_bind. eapply wp_sure; [apply direction_new_spec, ap_traffic_block|]. apply wp_bind, wp_on, wp_bind, wp_on, wp_on. cbn [ses plain]. split; [|kept]. unfold stage. cbn [state set_state]. exists (log ++ m), share, h, k. split; [assumption|]. exists 0%nat, 0, 0%nat, 0. split; [reflexivity|]. split; [lia|]. split; [reflexivity|apply first_place].
Qed.
Lemma key_update_wp B p n body : settled B p n -> state (ses n) = SConnected -> 0 <= B -> wp (key_update true body) (fun _ => settled B p) (failing p) n.
Proof.
  intros (Hs&Hb&Hp&Hopen) Hst HB. assert (failing p n) as Hf by (split; [apply (stage_writable B); [assumption|by rewrite Hst]|assumption]). unfold stage in Hs. rewrite Hst in Hs. destruct Hs as (log&share&h&k&Hs&i&q&j&r&Hr&Hq&Hw&Hrr). pose proof (later_block i _ (ap_traffic_block "s ap traffic" (agreed share) (sha256 log))) as [_ Hi]. pose proof (later_block j _ (ap_traffic_block "c ap traffic" (agreed share) (sha256 log))) as [_ Hj]. fold (ap_server share log) in Hi. fold (ap_client share log) in Hj.
  unfold key_update. apply wp_bind. assert (forall request, wp (s ← self; rd ← lift (match read_ s with Some d => sure (direction_update true d) | None => Panic end); _ ← on_self (set_read (Some rd)); if (request : bool) then _ ← seal_ true HANDSHAKE [[KEY_UPDATE; 0; 0; 1; 0]]; s ← self; wr ← lift (match write_ s with Some d => sure (direction_update true d) | None => Panic end); on_self (set_write (Some wr)) else mret tt) (fun _ => settled B p) (failing p) n) as Hgo.
  { intros request. apply wp_bind, wp_self. rewrite Hr. apply wp_bind. eapply wp_sure; [apply direction_update_spec; exact Hi|]. apply wp_bind, wp_on. destruct request.
    - apply wp_bind. eapply (wp_seal _ HANDSHAKE _ r); [exact Hw|exact Hrr|apply handshake_kind|apply handshake_kind|apply sealed_heads|apply sealed_heads|]. intros o. apply wp_bind, wp_self. cbn [ses write_ set_write]. apply wp_bind. eapply wp_sure; [apply direction_update_spec; exact Hj|]. apply wp_on. split; [|kept]. unfold stage. cbn [ses state set_write set_read]. rewrite Hst. exists log, share, h, k. split; [assumption|]. exists (S i), 0, (S j), 0. split; [reflexivity|]. split; [lia|]. split; [reflexivity|apply first_place].
    - apply wp_ret. split; [|kept]. unfold stage. cbn [ses state set_read]. rewrite Hst. exists log, share, h, k. split; [assumption|]. exists (S i), 0, j, r. split; [reflexivity|]. split; [lia|]. split; [exact Hw|exact Hrr]. }
  destruct body as [|b body]; [apply wp_alarm; exact Hf|]. destruct b as [|b|b]; [destruct body; [apply wp_ret; exact (Hgo false)|apply wp_alarm; exact Hf]|destruct b as [b|b|]; [apply wp_alarm; exact Hf|apply wp_alarm; exact Hf|destruct body; [apply wp_ret; exact (Hgo true)|apply wp_alarm; exact Hf]]|apply wp_alarm; exact Hf].
Qed.
Lemma msg_parts kind body : zget (msg kind body) 0 = Some kind /\ zdrop 4 (msg kind body) = body.
Proof. split; reflexivity. Qed.
(** A message, in any state. *)
Lemma message_wp B p n kind body last : settled B p n -> 0 <= B -> bytes_ok body -> zlen body <= MAX_HANDSHAKE -> wp (message anchors host now true (msg kind body) last) (fun _ => settled B p) (failing p) n.
Proof.
  intros Hset HB Hbody Hl. assert (failing p n) as Hf by (split; [apply (stage_writable B); apply Hset|apply Hset]). assert (small (msg kind body)) as Hsmall. { unfold small, msg, prefixed. rewrite !zlen_app, be_bytes_zlen. change (zlen [kind]) with 1. unfold MAX_HANDSHAKE in Hl. change (64 * 2 ^ 10) with 65536 in Hl. change (2 ^ 18) with 262144. lia. }
  unfold message. apply wp_bind, wp_self. destruct (msg_parts kind body) as [-> ->]. apply wp_bind. eapply wp_value; [reflexivity|]. cbv zeta. destruct (_ && negb last); [apply wp_alarm; exact Hf|].
  destruct (_ && (kind =? SERVER_HELLO)) eqn:E1; [apply andb_prop in E1 as [E1%bool_decide_eq_true ->%Z.eqb_eq]; apply server_hello_wp; assumption|].
  destruct (_ && (kind =? ENCRYPTED_EXTENSIONS)) eqn:E2; [apply andb_prop in E2 as [E2%bool_decide_eq_true ->%Z.eqb_eq]; apply encrypted_extensions_wp; assumption|].
  destruct (_ && (kind =? CERTIFICATE)) eqn:E3; [apply andb_prop in E3 as [E3%bool_decide_eq_true ->%Z.eqb_eq]; apply certificate_wp; assumption|].
  destruct (_ && (kind =? CERTIFICATE_VERIFY)) eqn:E4; [apply andb_prop in E4 as [E4%bool_decide_eq_true ->%Z.eqb_eq]; apply certificate_verify_wp; assumption|].
  destruct (_ && (kind =? FINISHED)) eqn:E5; [apply andb_prop in E5 as [E5%bool_decide_eq_true ->%Z.eqb_eq]; apply finished_wp; assumption|].
  destruct (_ && (kind =? NEW_SESSION_TICKET)); [apply wp_ret; exact Hset|]. destruct (_ && (kind =? KEY_UPDATE)) eqn:E6; [apply andb_prop in E6 as [E6%bool_decide_eq_true _]; apply key_update_wp; assumption|]. apply wp_alarm. exact Hf.
Qed.
Lemma settled_failing B p n : settled B p n -> failing p n.
Proof. intros (Hs&_&Hp&Ho). split; [by apply (stage_writable B)|assumption]. Qed.
(** The first message of a buffer. *)
Lemma buffer_head buffer : bytes_ok buffer -> 4 <= zlen buffer -> exists len, r_int 3 (ztake 3 (zdrop 1 buffer)) = Ok (len, []) /\ 0 <= len
  /\ (4 + len <= zlen buffer -> exists kind body rest, ztake (4 + len) buffer = msg kind body /\ zdrop (4 + len) buffer = rest /\ zlen body = len /\ bytes_ok body /\ bytes_ok rest /\ (length rest < length buffer)%nat).
Proof.
  intros Hb Hl. destruct buffer as [|kind b]; [change (zlen (@nil Z)) with 0 in Hl; lia|]. rewrite zlen_cons in Hl. destruct (cut_len 3 b ltac:(lia)) as (a&c&->&Ha). apply Forall_cons in Hb as [Hk Hb]. apply Forall_app in Hb as [Hab Hc].
  change (zdrop 1 (kind :: a ++ c)) with (a ++ c). rewrite ztake_app by lia. pose proof (r_int_spec 3 a Hab ltac:(lia)) as Hr. destruct (r_int 3 a) as [[len t]|e|] eqn:Er; [|unfold r_int, r_bytes in Er; rewrite Ha in Er; discriminate Er|destruct Hr]. destruct Hr as (a'&Ea&Ha'&_&Hbe&Hv&_). assert (t = []) as -> by (apply zlen_zero; apply (f_equal zlen) in Ea; rewrite zlen_app in Ea; lia). rewrite app_nil_r in Ea. subst a'.
  exists len. split; [reflexivity|]. split; [lia|]. intros Hfit. rewrite zlen_cons, zlen_app in Hfit. destruct (cut_len len c ltac:(lia)) as (body&rest&->&Hbody). apply Forall_app in Hc as [Hbb Hrb]. exists kind, body, rest. replace (kind :: a ++ body ++ rest) with (msg kind body ++ rest). 2:{ unfold msg, prefixed. rewrite Hbody. change (Z.to_nat 3) with 3%nat in Hbe. rewrite <- Hbe. cbn. by rewrite <- app_assoc. }
  assert (zlen (msg kind body) = 4 + len) as Hm. { unfold msg, prefixed. rewrite !zlen_app, be_bytes_zlen. change (zlen [kind]) with 1. lia. } rewrite ztake_app, zdrop_app by lia. split; [reflexivity|]. split; [reflexivity|]. split; [assumption|]. split; [assumption|]. split; [assumption|]. rewrite length_app. unfold zlen in Hm. lia.
Qed.
Lemma handshakes_from_wp fuel B p n buffer : settled B p n -> 0 <= B -> bytes_ok buffer -> (length buffer < fuel)%nat -> wp (handshakes_from anchors host now true fuel buffer) (fun rest n' => settled B p n' /\ bytes_ok rest) (failing p) n.
Proof.
  intros Hset HB. revert n buffer Hset. induction fuel as [|fuel IH]; intros n buffer Hset Hb Hf; [lia|]. cbn [handshakes_from]. destruct (Z.leb_spec 4 (zlen buffer)) as [H4|]; [|apply wp_ret; split; assumption]. destruct (buffer_head buffer Hb H4) as (len&Er&Hlen&Hhead). rewrite Er. apply wp_bind. eapply wp_value; [reflexivity|]. cbv beta iota.
  destruct (Z.ltb_spec MAX_HANDSHAKE len) as [|Hmax]; [apply wp_alarm; by eapply settled_failing|]. destruct (Z.ltb_spec (zlen buffer) (4 + len)) as [|Hfit]; [apply wp_ret; split; assumption|]. destruct (Hhead Hfit) as (kind&body&rest&->&->&Hbl&Hbb&Hrb&Hshort). apply wp_bind. eapply wp_mono; [apply (message_wp B p n kind body _ Hset HB Hbb); lia| |auto]. intros u n' Hset'. apply IH; [assumption|assumption|lia].
Qed.
Lemma settled_handshake B p n b : settled B p n -> bytes_ok b -> settled B p (mkNet (set_handshake b (ses n)) (plain n) (out n)).
Proof. intros (Hs&_&Hp&Ho) Hb. split; [exact Hs|]. split; [exact Hb|]. split; [exact Hp|exact Ho]. Qed.
Lemma handshake_bytes_wp B p n b : settled B p n -> 0 <= B -> bytes_ok b -> wp (handshake_bytes anchors host now true b) (fun _ => settled B p) (failing p) n.
Proof.
  intros Hset HB Hb. unfold handshake_bytes, handshakes. assert (bytes_ok (handshake (ses n) ++ b)) as Hbuf by (apply Forall_app_2; [apply Hset|assumption]). apply wp_bind, wp_on, wp_bind, wp_self, wp_bind, wp_on. cbn [ses plain out set_handshake handshake]. apply wp_bind. eapply wp_mono; [apply (handshakes_from_wp _ B p)| |auto]; [|assumption|exact Hbuf|apply Nat.lt_succ_diag_r|].
  - apply (settled_handshake B p (mkNet (set_handshake (handshake (ses n) ++ b) (ses n)) (plain n) (out n))); [by apply settled_handshake|apply Forall_nil_2].
  - intros rest n' [Hset' Hr]. destruct (MAX_HANDSHAKE <? zlen rest); [apply wp_alarm; by eapply settled_failing|]. apply wp_on. by apply settled_handshake.
Qed.
(** A session that is over shows what it had. *)
Definition over (p : list Z) (n : Net) : Prop := state (ses n) = SClosed /\ plain n = p.
Lemma peer_alert_wp B p n body : settled B p n -> wp (peer_alert body) (fun _ n' => settled B p n' \/ over p n') (failing p) n.
Proof.
  intros Hset. pose proof (settled_failing B p n Hset) as Hf. unfold peer_alert. destruct body as [|x [|code [|? ?]]]; try (apply wp_alarm; exact Hf). destruct (code =? 0); [apply wp_on; right; split; [reflexivity|apply Hset]|]. destruct (code =? 90); [apply wp_ret; left; exact Hset|]. exact Hf.
Qed.

(** ** Records *)
Lemma stage_read B p n d : settled B p n -> read_ (ses n) = Some d -> exists secret q, d = direction secret q /\ 0 <= q <= B
  /\ settled (B + 1) p (mkNet (set_read (Some (direction secret (q + 1))) (ses n)) (plain n) (out n)).
Proof.
  intros (Hs&Hb&Hp&Ho) Hr. unfold settled, stage in *. cbn [ses plain state set_read handshake]. destruct (state (ses n)) eqn:Hst; [destruct Hs as (_&_&_&_&Hn&_); congruence| | | | | |congruence].
  1,2,3,4: destruct Hs as (log&share&h&k&q&Hsh&Hk&Ht&(Hc&Hv&Hpe&Hrd&Hw)&Hq); rewrite Hr in Hrd; injection Hrd as ->; exists (hs_server share h), q; (split; [reflexivity|]); (split; [exact Hq|]); (split; [|split; [exact Hb|split; [exact Hp|exact Ho]]]); exists log, share, h, k, (q + 1); (split; [exact Hsh|]); (split; [exact Hk|]); (split; [exact Ht|]); (split; [|lia]); (split; [exact Hc|]); (split; [exact Hv|]); (split; [exact Hpe|]); (split; [reflexivity|exact Hw]).
  destruct Hs as (log&share&h&k&Hsh&i&q&j&r&Hrd&Hq&Hw&Hrr). rewrite Hr in Hrd. injection Hrd as ->. eexists _, q. split; [reflexivity|]. split; [exact Hq|]. split; [|split; [exact Hb|split; [exact Hp|exact Ho]]]. exists log, share, h, k. split; [exact Hsh|]. exists i, (q + 1), j, r. split; [reflexivity|]. split; [lia|]. split; [exact Hw|exact Hrr].
Qed.
Lemma settled_connected B p n : settled B p n -> state (ses n) = SConnected -> authentic.
Proof. intros (Hs&_) Hst. unfold stage in Hs. rewrite Hst in Hs. destruct Hs as (log&share&h&k&Hs&_). by exists log, share, h, k. Qed.
(** What opening a record gives. *)
Lemma open_answers secret q header body o : bytes_ok header -> zlen header = 5 -> bytes_ok body -> exists ok o', Gcm.open (d_gcm (direction secret (q + 1))) (nonce_of secret q) header body o = Ok (ok, o') /\ (ok = true -> exists p, o' = o ++ p /\ bytes_ok p).
Proof.
  intros Hh Hl Hb. destruct (nonce_ok secret q) as [Hn Hnl]. pose proof (open_seal_spec (hkdf_label secret (str "key") [] 16) (nonce_of secret q) header body o (key_block secret) Hn Hnl Hh ltac:(rewrite Hl; reflexivity) Hb) as H. change (d_gcm (direction secret (q + 1))) with (expand (hkdf_label secret (str "key") [] 16)). destruct (Gcm.open _ _ _ _ _) as [[ok o']|e|]; [|destruct H|destruct H]. exists ok, o'. split; [reflexivity|]. intros ->. destruct H as (p&Ho&Hp&_). by exists p.
Qed.
Lemma rposition_zget l i : rposition l = Some i -> exists x, zget l i = Some x.
Proof. intros H. assert (0 <= i < zlen l) as Hi; [|destruct (zget_is_Some l i Hi) as [x Hx]; by exists x]. revert i H. induction l as [|b l IH]; intros i; cbn [rposition]; [done|]. rewrite zlen_cons. pose proof (zlen_nonneg l). destruct (rposition l) as [j|]; [intros [= <-]; specialize (IH j eq_refl); lia|]. destruct (b =? 0); [done|]. intros [= <-]. lia. Qed.
(** The plaintext is what it was, or the server has proved itself. *)
Definition goes_on (B : Z) (p : list Z) (n : Net) : Prop := exists p', (p' = p \/ authentic) /\ (settled B p' n \/ over p' n).
Lemma goes_on_same B p n : settled B p n \/ over p n -> goes_on B p n.
Proof. intros H. exists p. split; [by left|assumption]. Qed.
Lemma wp_get_plain (Q : list Z -> Net -> Prop) E n : Q (plain n) n -> wp get_plain Q E n.
Proof. done. Qed.
Lemma wp_set_plain p (Q : unit -> Net -> Prop) E n : Q tt (mkNet (ses n) p (out n)) -> wp (set_plain p) Q E n.
Proof. done. Qed.
Lemma settled_plain B p q n : settled B p n -> settled B q (mkNet (ses n) q (out n)).
Proof. intros (Hs&Hb&_&Ho). split; [exact Hs|]. split; [exact Hb|]. split; [reflexivity|exact Ho]. Qed.
Lemma protected_wp B p n header body d : settled B p n -> read_ (ses n) = Some d -> 0 <= B < 2 ^ 62 -> bytes_ok header -> zlen header = 5 -> bytes_ok body -> wp (protected anchors host now true header body) (fun _ => goes_on (B + 1) p) (failing p) n.
Proof.
  intros Hset Hr HB Hh Hhl Hb. destruct (stage_read B p n d Hset Hr) as (secret&q&->&Hq&Hset'). unfold protected. apply wp_bind, wp_self, wp_bind. rewrite Hr. eapply wp_value; [reflexivity|]. apply wp_bind, wp_get_plain. assert (plain n = p) as -> by apply Hset. apply wp_bind. eapply wp_sure; [apply direction_nonce_spec; [lia|assert (2 ^ 63 < 2 ^ 64) by (by apply Z.pow_lt_mono_r); change (2 ^ 63) with (2 * 2 ^ 62) in *; lia]|].
  apply wp_bind, wp_on. replace (plain n) with p in Hset' by (symmetry; apply Hset). replace (plain n) with p by (symmetry; apply Hset). set (n1 := mkNet (set_read (Some (direction secret (q + 1))) (ses n)) p (out n)) in *. pose proof (settled_failing _ _ _ Hset') as Hf. destruct (zget_is_Some header 0 ltac:(lia)) as [kind Hkind]. rewrite Hkind. apply wp_bind. eapply wp_value; [reflexivity|].
  destruct (negb (kind =? APPLICATION_DATA)); [apply wp_alarm; exact Hf|]. destruct (open_answers secret q header body p Hh Hhl Hb) as (ok&o&Eo&Hok). apply wp_bind. eapply wp_sure; [exact Eo|]. destruct ok; cbn [negb]; [|apply wp_alarm; exact Hf]. destruct (Hok eq_refl) as (op&->&Hop). apply wp_bind, wp_set_plain. rewrite zdrop_app by reflexivity. assert (forall o, settled (B + 1) p (mkNet (ses (mkNet (ses n1) o (out n1))) p (out (mkNet (ses n1) o (out n1))))) as Hback by (intros o; exact Hset').
  destruct (rposition op) as [e|] eqn:Ee; [|apply wp_bind, wp_set_plain, wp_alarm; by eapply settled_failing, Hback]. destruct (MAX_PLAIN <? e); [apply wp_bind, wp_set_plain, wp_alarm; by eapply settled_failing, Hback|]. destruct (rposition_zget op e Ee) as [inner Hinner]. rewrite Hinner. apply wp_bind. eapply wp_value; [reflexivity|]. apply wp_bind, wp_set_plain. set (content := ztake e op). assert (bytes_ok content) as Hcontent by (by apply Forall_take). destruct (_ && bool_decide (state (ses n) = SConnected)) eqn:Ed.
  - apply andb_prop in Ed as [_ Ed%bool_decide_eq_true]. apply wp_ret. exists (p ++ content). split; [right; by eapply settled_connected|]. left. by apply (settled_plain (B + 1) p (p ++ content) n1).
  - apply wp_bind, wp_set_plain. destruct (_ && negb (bool_decide (content = []))).
    + eapply wp_mono; [apply (handshake_bytes_wp (B + 1) p); [exact Hset'|lia|exact Hcontent]| |auto]. intros u n' Hn'. apply goes_on_same. by left.
    + destruct (inner =? ALERT); [|apply wp_alarm; exact Hf]. eapply wp_mono; [apply (peer_alert_wp (B + 1) p); exact Hset'| |auto]. intros u n'. apply goes_on_same.
Qed.
Lemma goes_on_mono B B' p n : goes_on B p n -> B <= B' -> goes_on B' p n.
Proof. intros (p'&Hp&H) HB. exists p'. split; [exact Hp|]. destruct H as [(Hs&Hr)|H]; [left|by right]. split; [by apply (stage_mono B)|exact Hr]. Qed.
Lemma record_wp B p n header body : settled B p n -> 0 <= B < 2 ^ 62 -> bytes_ok header -> zlen header = 5 -> bytes_ok body -> wp (record_ anchors host now true header body) (fun _ => goes_on (B + 1) p) (failing p) n.
Proof.
  intros Hset HB Hh Hhl Hb. pose proof (settled_failing _ _ _ Hset) as Hf. unfold record_. apply wp_bind, wp_self. destruct (zget_is_Some header 0 ltac:(lia)) as [kind ->]. apply wp_bind. eapply wp_value; [reflexivity|]. assert (forall n', settled B p n' -> goes_on (B + 1) p n') as Hgo by (intros n' Hn'; apply (goes_on_mono B); [apply goes_on_same; by left|lia]).
  destruct (kind =? CHANGE_CIPHER_SPEC). { apply wp_bind, wp_on. destruct (_ && _); [apply wp_ret, Hgo; exact Hset|apply wp_alarm; exact Hf]. }
  destruct (read_ (ses n)) as [d|] eqn:Hr; [by apply (protected_wp B p n header body d)|]. destruct (_ && _); [eapply wp_mono; [apply (handshake_bytes_wp B p); [exact Hset|lia|exact Hb]| |auto]; intros u n' Hn'; by apply Hgo|]. destruct (kind =? ALERT); [|apply wp_alarm; exact Hf]. eapply wp_mono; [apply (peer_alert_wp B p); exact Hset| |auto]. intros u n' Hn'. apply (goes_on_mono B); [by apply goes_on_same|lia].
Qed.
(** An error ends the session. *)
Lemma abort_over p n e : failing p n -> exists n', abort true e n = (Ok e, n') /\ over p n'.
Proof.
  intros [Hw Hp]. unfold abort, alert. destruct e as [a|c]; [|eexists; split; [reflexivity|]; split; [reflexivity|exact Hp]]. cbv [mbind tm_bind self mret tm_ret on_self]. unfold writable in Hw. destruct (write_ (ses n)) as [d|] eqn:Ew.
  - destruct Hw as (secret&r&->&Hr). rewrite (seal_one n ALERT secret r) by (first [exact Ew|exact Hr|by unfold fits|discriminate|destruct a; cbn; repeat (apply Forall_cons_2; [split; [discriminate|reflexivity]|]); apply Forall_nil_2|destruct a; cbn; split; [reflexivity|discriminate]]). eexists. split; [reflexivity|]. split; [reflexivity|exact Hp].
  - cbv [emit]. eexists. split; [reflexivity|]. split; [reflexivity|exact Hp].
Qed.
Lemma wp_or_abort (m : TM unit) Q p n : wp m Q (failing p) n -> wp (or_abort true m) Q (over p) n.
Proof. unfold wp, or_abort. destruct (m n) as [[a|e|] n']; [done| |done]. intros H. destruct (abort_over p n' e H) as (n''&->&Ho). exact Ho. Qed.

(** ** Receiving *)
Definition fine (B : Z) (n : Net) : Prop := (plain n <> [] -> authentic) /\ (settled B (plain n) n \/ state (ses n) = SClosed).
Lemma goes_on_fine B p n : goes_on B p n -> (p <> [] -> authentic) -> fine B n.
Proof. intros (p'&Hp&H) Ha. assert (plain n = p') as E by (destruct H as [(_&_&?&_)|[_ ?]]; assumption). unfold fine. rewrite E. split; [intros Hne; destruct Hp as [->|Hp]; [by apply Ha|exact Hp]|]. destruct H as [H|[H _]]; [by left|by right]. Qed.
Lemma over_fine B p n : over p n -> (p <> [] -> authentic) -> fine B n.
Proof. intros H. apply goes_on_fine. exists p. split; [by left|by right]. Qed.
Lemma fine_mono B B' n : fine B n -> B <= B' -> fine B' n.
Proof. intros [Ha [(Hs&Hr)|H]] HB; (split; [exact Ha|]); [left|by right]. split; [by apply (stage_mono B)|exact Hr]. Qed.
Lemma receive_from_wp fuel B n wire : fine B n -> 0 <= B -> B + zlen wire < 2 ^ 62 -> bytes_ok wire -> (length wire < fuel)%nat -> wp (receive_from anchors host now true fuel wire) (fun _ => fine (B + zlen wire)) (fine (B + zlen wire)) n.
Proof.
  revert B n wire. induction fuel as [|fuel IH]; intros B n wire Hfine HB Hmax Hw Hf; [lia|]. pose proof (zlen_nonneg wire) as Hwn. assert (fine (B + zlen wire) n) as Hstay by (apply (fine_mono B); [exact Hfine|lia]). cbn [receive_from]. apply wp_bind, wp_self. destruct (bool_decide (state (ses n) = SClosed)) eqn:Hst; [apply wp_ret; exact Hstay|]. apply bool_decide_eq_false in Hst. cbn [negb andb].
  destruct Hfine as [Ha [Hset|Hc]]; [|congruence]. destruct (Z.leb_spec HEADER (zlen wire)) as [H5|]; [|apply wp_ret; exact Hstay]. unfold HEADER in H5. destruct (zget_is_Some wire 1 ltac:(lia)) as [v Hv], (zget_is_Some wire 3 ltac:(lia)) as [hi Hhi], (zget_is_Some wire 4 ltac:(lia)) as [lo Hlo]. rewrite Hv, Hhi, Hlo. apply wp_bind. eapply wp_value; [reflexivity|]. apply wp_bind. eapply wp_value; [reflexivity|]. apply wp_bind. eapply wp_value; [reflexivity|]. cbv zeta.
  pose proof (zget_ok _ _ _ Hw Hhi) as Hhi'. pose proof (zget_ok _ _ _ Hw Hlo) as Hlo'. unfold fits in Hhi', Hlo'. set (len := 256 * hi + lo). assert (0 <= len) as Hlen by lia. pose proof (settled_failing _ _ _ Hset) as Hfail. destruct (_ || _).
  { apply wp_bind. eapply wp_mono; [apply (wp_or_abort _ _ (plain n)), wp_alarm; exact Hfail| |].  - intros u n' H. apply wp_ret. exact H. - intros n' Ho. by eapply over_fine. }
  destruct (Z.ltb_spec (zlen wire) (HEADER + len)) as [|Hfit]; [apply wp_ret; exact Hstay|]. unfold HEADER in *. apply wp_bind. eapply wp_mono; [apply (wp_or_abort _ _ (plain n)), (record_wp B (plain n)); [exact Hset|lia|by apply Forall_take|rewrite zlen_ztake; lia|by apply Forall_take, Forall_drop]| |].
  - intros u n' Hg. apply (goes_on_fine _ _ _ Hg) in Ha. assert (zlen (zdrop (5 + len) wire) = zlen wire - (5 + len)) as Hd by (rewrite zlen_zdrop; lia). apply wp_bind. eapply wp_mono; [apply (IH (B + 1) n' (zdrop (5 + len) wire)); [exact Ha|lia|lia|by apply Forall_drop|unfold zlen in *; lia]| |].
    + intros used n'' H. apply wp_ret. apply (fine_mono _ _ _ H). lia.
    + intros n'' H. apply (fine_mono _ _ _ H). lia.
  - intros n' Ho. by eapply over_fine.
Qed.
Lemma receive_wp B n wire : fine B n -> 0 <= B -> B + zlen wire < 2 ^ 62 -> bytes_ok wire -> wp (receive anchors host now true wire) (fun _ => fine (B + zlen wire)) (fine (B + zlen wire)) n.
Proof. intros Hf HB Hm Hw. apply receive_from_wp; [exact Hf|exact HB|exact Hm|exact Hw|apply Nat.lt_succ_diag_r]. Qed.
Lemma send_wp B n data : settled B (plain n) n -> state (ses n) = SConnected -> bytes_ok data -> wp (send true data) (fun _ n' => settled B (plain n) n' /\ plain n' = plain n) (fun _ => False) n.
Proof.
  intros (Hs&Hb&Hp&Ho) Hst Hd. unfold stage in Hs. rewrite Hst in Hs. destruct Hs as (log&share&h&k&Hsh&i&q&j&r&Hr&Hq&Hw&Hrr). pose proof (later_block j _ (ap_traffic_block "c ap traffic" (agreed share) (sha256 log))) as [_ Hj]. fold (ap_client share log) in Hj. pose proof (send_spec n _ r data Hw Hrr Hj Hd) as H. destruct (told _ _ _) as [w [s' q']]. destruct H as (E&Hq'&i'&->). unfold wp. rewrite E. split; [|reflexivity]. split; [|split; [exact Hb|split; [reflexivity|exact Ho]]].
  unfold stage. cbn [ses state set_write]. rewrite Hst. exists log, share, h, k. split; [exact Hsh|]. exists i, q, (i' + j)%nat, q'. split; [exact Hr|]. split; [exact Hq|]. split; [|exact Hq']. cbn [write_ set_write]. by rewrite Nat.iter_add.
Qed.
End Handshake.

(** ** A connection: bytes arrive, data is sent while established *)
Inductive event := Arrives (wire : list Z) | Says (data : list Z).
Definition event_bytes (e : event) : list Z := match e with Arrives w => w | Says d => d end.
Definition arrived (e : event) : Z := match e with Arrives w => zlen w | Says _ => 0 end.
Definition happens (anchors : list Certificate) (host : list Z) (now : Z) (e : event) : TM unit :=
  match e with
  | Arrives w => _ ← receive anchors host now true w; mret tt
  | Says d => s ← self; if established s then send true d else mret tt
  end.
(** Errors end a session, not the events; [None] is a panic. *)
Fixpoint run (anchors : list Certificate) (host : list Z) (now : Z) (es : list event) (n : Net) : option Net :=
  match es with [] => Some n | e :: es => match happens anchors host now e n with (Panic, _) => None | (_, n) => run anchors host now es n end end.
Fixpoint arrivals (es : list event) : Z := match es with [] => 0 | e :: es => arrived e + arrivals es end.
Lemma arrivals_nonneg es : 0 <= arrivals es.
Proof. induction es as [|[w|d] es IH]; cbn [arrivals arrived]; [lia|pose proof (zlen_nonneg w); lia|lia]. Qed.
Lemma happens_spec anchors host now hello id eph e B n : Forall cert_good anchors -> small hello -> block32 eph -> fine anchors host now hello id eph B n -> 0 <= B -> bytes_ok (event_bytes e) -> B + arrived e < 2 ^ 62 ->
  exists r n', happens anchors host now e n = (r, n') /\ r <> Panic /\ fine anchors host now hello id eph (B + arrived e) n'.
Proof.
  intros Han Hh He Hf HB Hb Hm. destruct e as [w|d]; cbn [happens arrived event_bytes] in *; cbv [mbind tm_bind self mret tm_ret].
  - pose proof (receive_wp anchors host now hello id eph Han Hh He B n w Hf HB Hm Hb) as H. unfold wp in H. destruct (receive anchors host now true w n) as [[a|e|] n']; [| |destruct H]; (eexists _, n'; split; [reflexivity|]; split; [discriminate|exact H]).
  - rewrite Z.add_0_r. unfold established. destruct (bool_decide (state (ses n) = SConnected)) eqn:Es; [|eexists _, n; split; [reflexivity|]; split; [discriminate|exact Hf]]. apply bool_decide_eq_true in Es. destruct Hf as [Ha [Hset|Hc]]; [|congruence]. pose proof (send_wp anchors host now hello id eph B n d Hset Es Hb) as H. unfold wp in H. destruct (send true d n) as [[a|e|] n']; [|destruct H|destruct H]. destruct H as [H Hp]. eexists _, n'. split; [reflexivity|]. split; [discriminate|]. unfold fine. rewrite Hp. split; [exact Ha|by left].
Qed.
Lemma run_fine anchors host now hello id eph es B n : Forall cert_good anchors -> small hello -> block32 eph -> fine anchors host now hello id eph B n -> 0 <= B -> Forall (fun e => bytes_ok (event_bytes e)) es -> B + arrivals es < 2 ^ 62 ->
  exists n', run anchors host now es n = Some n' /\ fine anchors host now hello id eph (B + arrivals es) n'.
Proof.
  intros Han Hh He. revert B n. induction es as [|e es IH]; intros B n Hf HB Hes Hmax; [exists n; split; [reflexivity|]; cbn [arrivals]; by rewrite Z.add_0_r|]. apply Forall_cons in Hes as [Hb Hes]. cbn [arrivals run] in *. pose proof (arrivals_nonneg es). assert (0 <= arrived e) by (destruct e as [w|d]; [apply zlen_nonneg|reflexivity]).
  destruct (happens_spec anchors host now hello id eph e B n Han Hh He Hf HB Hb ltac:(lia)) as (r&n'&->&Hr&Hf'). destruct (IH (B + arrived e) n' Hf' ltac:(lia) Hes ltac:(lia)) as (n''&E&Hf''). rewrite Z.add_assoc. exists n''. split; [destruct r; [exact E|exact E|congruence]|exact Hf''].
Qed.
(** The ClientHello, with the public key of RFC 7748. *)
Definition hello_of (host random id eph : list Z) : list Z := client_hello host random id (le_bytes 32 (X25519 (le_val eph) 9)).
Lemma public_spec eph : block32 eph -> public eph = Ok (le_bytes 32 (X25519 (le_val eph) 9)).
Proof. intros [Hb Hl]. unfold public. rewrite x25519_spec; [|exact Hb|exact Hl|apply Forall_cons_2; [split; [discriminate|reflexivity]|apply Forall_replicate; split; [discriminate|reflexivity]]|reflexivity]. reflexivity. Qed.
Lemma prefixed_zlen w b : zlen (prefixed w b) = Z.of_nat w + zlen b.
Proof. unfold prefixed. by rewrite zlen_app, be_bytes_zlen. Qed.
Lemma extension_zlen k b : zlen (extension k b) = 4 + zlen b.
Proof. unfold extension. rewrite zlen_app, be_bytes_zlen, prefixed_zlen. lia. Qed.
Lemma hello_small host random id eph : block32 random -> block32 id -> zlen (utf8_of host) <= 2 ^ 16 -> small (hello_of host random id eph).
Proof.
  intros [_ Hr] [_ Hi] Hh. unfold small, hello_of, client_hello, hello_extensions. change (2 ^ 16) with 65536 in Hh. change (2 ^ 18) with 262144. rewrite !zlen_app, prefixed_zlen, !zlen_app, !prefixed_zlen, !zlen_app, !extension_zlen, Hr, Hi, !prefixed_zlen, !zlen_app, !prefixed_zlen, le_bytes_zlen. pose proof (zlen_nonneg (utf8_of host)).
  assert (zlen (match parse_ip host with None => extension SERVER_NAME (prefixed 2 ([0] ++ prefixed 2 (utf8_of host))) | Some _ => [] end) <= 9 + zlen (utf8_of host)). { destruct (parse_ip host); [change (zlen (@nil Z)) with 0; lia|]. rewrite extension_zlen, prefixed_zlen, zlen_app, prefixed_zlen. change (zlen [0]) with 1. lia. }
  rewrite !be_bytes_zlen. change (zlen [CLIENT_HELLO]) with 1. change (zlen [3; 3]) with 2. change (zlen AES_128_GCM_SHA256) with 2. change (zlen [1; 0]) with 2. change (zlen SIGNATURES) with 6. change (zlen TLS13) with 2. change (zlen ALPN_HTTP11) with 11. lia.
Qed.
(** C9. Only the right server is talked to. From its ClientHello on, whatever
    bytes arrive in whatever pieces and whatever is sent meanwhile, a session
    does not panic. If it is established, or has given out any plaintext, the
    server has shown all of RFC 8446's handshake: a ServerHello that chooses
    TLS 1.3, the suite and an X25519 share whose shared secret is not zero; a
    certificate chain that leads to a trust anchor, for this host and now; a
    signature by the key of its first certificate over all messages before;
    and the MAC of all messages before under the server's secret, made from
    the shared secret and the hellos. An established session reads and writes
    under the application secrets of these messages, or later ones derived
    from them. The bound on what arrives, of 2^62 bytes, is the counter's. *)
Theorem established_server_is_authentic anchors host now random id eph es :
  Forall cert_good anchors -> block32 random -> block32 id -> block32 eph -> zlen (utf8_of host) <= 2 ^ 16 -> Forall (fun e => bytes_ok (event_bytes e)) es -> arrivals es < 2 ^ 62 ->
  let hello := hello_of host random id eph in
  exists s o n, Tls.client host random id eph [] = Ok (s, o) /\ run anchors host now es (mkNet s [] o) = Some n
  /\ (plain n <> [] -> authentic anchors host now hello id eph)
  /\ (established (ses n) = true -> exists log share h k, shown anchors host now hello id eph SConnected log share h k /\ talking eph (arrivals es) (ses n) log share).
Proof.
  intros Han Hr Hi He Hh Hes Hmax hello. pose proof (hello_small host random id eph Hr Hi Hh) as Hsmall. unfold Tls.client. rewrite (public_spec eph He). rewrite ok_bind. cbv zeta. fold (hello_of host random id eph). fold hello. fold hello in Hsmall. match goal with |- exists s o n, Ok (?s0, ?o0) = _ /\ _ => exists s0, o0 end.
  match goal with |- context [mkNet ?s [] ?o] => assert (fine anchors host now hello id eph 0 (mkNet s [] o)) as Hf end.
  { split; [done|]. left. split; [|split; [apply Forall_nil_2|split; [reflexivity|discriminate]]]. cbn [ses]. unfold stage. cbn [state hello_id ephemeral peer transcript read_ write_]. split; [reflexivity|]. split; [reflexivity|]. split; [reflexivity|]. split; [|split; reflexivity]. exact (update_spec sha_default [] hello hashed_default). }
  destruct (run_fine anchors host now hello id eph es 0 _ Han Hsmall He Hf ltac:(lia) Hes Hmax) as (n&En&Ha&Hn). exists n. split; [reflexivity|]. split; [exact En|]. split; [exact Ha|]. intros Hest. apply bool_decide_eq_true in Hest. destruct Hn as [(Hs&_)|Hc]; [|congruence]. unfold stage in Hs. rewrite Hest in Hs. exact Hs.
Qed.
(** A session given part of a record, some data and nothing. *)
Lemma authentic_witness : exists s o n, Tls.client (str "hub.example") ZERO ZERO ZERO [] = Ok (s, o) /\ run [] (str "hub.example") 0 [Arrives [22; 3; 3]; Says [1]; Arrives []] (mkNet s [] o) = Some n
  /\ (plain n <> [] -> authentic [] (str "hub.example") 0 (hello_of (str "hub.example") ZERO ZERO ZERO) ZERO ZERO).
Proof.
  destruct (established_server_is_authentic [] (str "hub.example") 0 ZERO ZERO ZERO [Arrives [22; 3; 3]; Says [1]; Arrives []] ltac:(apply Forall_nil_2) zero_block zero_block zero_block ltac:(vm_compute; discriminate) ltac:(repeat (apply Forall_cons_2; [repeat (apply Forall_cons_2; [split; [discriminate|reflexivity]|]); apply Forall_nil_2|]); apply Forall_nil_2) ltac:(reflexivity)) as (s&o&n&E1&E2&H&_).
  exists s, o, n. split; [exact E1|]. split; [exact E2|exact H].
Defined.
